(* ===== verification/_CoqProject ===== *)
-Q . S2P
Prelude.v
CLib.v
ListLink.v
AvlTree.v
TcpDis.v
Codec.v
DisInt.v
DisStr.v
Attrs.v
AttrVal.v
AttrTypes.v
AttrAtomic.v
AttrStr.v
Csv.v
Arst.v
ArstSpec.v
ArstText.v
Acl.v
AclSpec.v
AclCheck.v
Requests.v
DisRead.v
Hostile.v
Replies.v
Client.v
Container.v
ContainerRefine.v
ContainerSpec.v
JobNames.v
JobData.v
JobServer.v
JobBooks.v
JobStates.v
JobQueues.v
JobRank.v
JobEnter.v
SchedData.v
Sched.v
SchedQuery.v
SchedRun.v
SchedLimits.v
SchedInit.v
SchedCycle.v
SchedEnds.v
SchedStart.v
SchedRuns.v
