(* ===== verification/Prelude.v ===== *)
(** * A verification library of the TORQUE resource manager

    TORQUE's commands, its server [pbs_server] and its execution daemon [pbs_mom]
    talk to each other in one protocol: a batch request or a batch reply is a
    sequence of counted decimal integers and counted strings ("Data is Strings",
    DIS) on a TCP socket.  The development models that protocol from the socket
    buffer up to the calls of the client library, the attributes requests carry, the
    server's tables of jobs and queues with the counts it keeps of them, and the FIFO
    scheduler that decides which job is run.  All
    source paths are below [src/src].

    ** Parts and files

    - [Prelude.v]: integers at their C width, memory blocks as lists with checked
      access, the state monad [ST] with the outcomes [Ret], [UB] (an access outside a
      block, a mutex misused) and [OutOfFuel], the tactics and the hint database.
    - [TcpDis.v]: the channel of [lib/Libifl/tcp_dis.c].  A [tcp_chan] has a read and
      a write buffer, each with a start, a commit point and an end; the model keeps
      the byte arrays and the offsets and follows [tcp_read], [tcp_gets], [tcp_puts],
      [tcp_pack_buff], [tcp_rcommit], [DIS_tcp_wflush] and the rest statement by
      statement.
    - [Codec.v]: what a user of the channel may rely on: [encodes], [decodes],
      [safe], [ends], [crashes], with their rules for sequencing, and the class
      [Codec] that pairs an encoder with the decoder of the peer.  The theorems on
      requests and replies across the network ([codec_crosses]) are proved once,
      against the class.
    - [DisInt.v], [DisStr.v]: [lib/Libdis], one definition per writer and reader.
    - [Attrs.v]: the three attribute list forms, [lib/Libifl/{enc,dec}_attrl.c],
      [_attropl.c], [_svrattrl.c].
    - [Requests.v]: the encoder and the decoder of every batch request,
      [lib/Libifl/enc_*.c] and [dec_*.c].
    - [DisRead.v]: [server/dis_read.c] and the protocol peek of
      [server/incoming_request.c]: how a daemon reads a request.
    - [Hostile.v]: the same code on input nobody vouches for.
    - [Replies.v]: [enc_reply.c], [dec_rpyc.c], [dec_rpys.c].
    - [Client.v]: the client library's calls, [PBSD_*2.c], [PBSD_rdrpy.c],
      [pbsD_*.c], with the connection's mutex.
    - [CLib.v]: the functions of the C library the sources call on strings and numbers
      ([strtol], [atoi], [printf] of integers), with the lemmas that reading undoes
      printing.
    - [ListLink.v]: [lib/Libifl/list_link.c], circular doubly linked lists, over a heap
      of links addressed by their place.
    - [AvlTree.v]: [lib/Libutils/u_tree.c], the tree of node addresses.
    - [AttrVal.v], [AttrTypes.v]: attribute values, [lib/Libattr/attr_fn_*.c] of the
      types without memory of their own and [attr_func.c]; the first file holds the
      functions, the second the class [ScalarType], the contract of an attribute type,
      with an instance per type.
    - [AttrAtomic.v]: [lib/Libattr/attr_atomic.c], setting the attributes of an object
      from a request, over any table of attribute definitions.
    - [AttrStr.v], [Csv.v]: string attributes ([attr_fn_str.c]) and those that hold a
      comma separated list, with the static buffers of [lib/Libcsv/csv.c].

    - [Container.v]: [include/container.hpp], the slot array with its map of ids that
      holds the server's jobs, queues and users; [ContainerRefine.v] and
      [ContainerSpec.v]: the list of items it stands for.
    - [JobNames.v]: job ids and array requests ([server/job_container.c],
      [array_func.c]).
    - [JobData.v], [JobServer.v]: jobs, queues and their tables
      ([server/svr_jobfunc.c], [job_container.c], [user_info.c], [queue_func.c]).  The
      [world] of these files holds the jobs by pointer, the tables as the lists of
      [ContainerSpec.v], and the counters; a computation carries a schedule, what the
      other threads do wherever the code gives up the job's lock.
    - [JobBooks.v]: [books], what every counter of the server is to be;
      [JobStates.v], [JobQueues.v], [JobRank.v], [JobEnter.v]: changes of state, the
      way out of a queue and the recount, the order of a queue, the way in.
    - [Arst.v], [ArstSpec.v], [ArstText.v]: arrays of strings ([attr_fn_arst.c],
      [parse_comma_string] of [attr_func.c]) with their buffer and pointers, the list of
      strings they stand for, and their text.
    - [Acl.v], [AclSpec.v], [AclCheck.v]: access control lists ([attr_fn_acl.c]): the
      patterns, the orders, insertion in place and the decision.
    - [SchedData.v], [Sched.v]: the FIFO scheduler ([scheduler.cc/samples/fifo]), from the
      checks of a job ([check.c]) over the policies of [next_job] and the sorts to the
      loop of [scheduling_cycle] ([fifo.c]).  The state [sched] holds jobs, queues and
      nodes by pointer and records what pbs_server is told; its answers are functions of
      that record.  [SchedQuery.v]: [query_server] and what it calls, from the answers of
      the server to the structures.
    - [SchedRun.v], [SchedLimits.v], [SchedInit.v], [SchedCycle.v], [SchedEnds.v],
      [SchedStart.v]: what a cycle keeps, the limits, the sorts, the theorems on the
      cycle, its end, and what the query sets up; [SchedRuns.v]: concrete cycles.

    ** How code became definitions

    C integers are [Z] with the conversions written out ([u32], [i32], ...); [char]
    strings are lists of byte values without their NUL; a [char *] that may be null
    is [option (list Z)].  A fixed array is given by its capacity, and a store or a
    read beyond it is the outcome [UB].  [calloc] asks the class [Platform] whether
    the request is granted; [AllocOk] is the hypothesis that it grants up to 16 GiB,
    and the same class supplies the value of the two variables the sources leave
    uninitialised.  [read] and [write] are an oracle: the [world] carries the list of
    results the kernel is still going to give (bytes cut anywhere, errors, short and
    interrupted writes) and the bytes it has taken.  Logging is left out except where
    it indexes [dis_emsg].

    Loops whose length is data-dependent take fuel computed from the state: the bytes
    still unread plus the events of the oracle for readers, the events of the write
    oracle for the flush.  [OutOfFuel] is excluded by the theorems, so the fuel is
    always enough.  [setjobstate] climbs at most as many parents as there are jobs; the
    theorems on it are about jobs that are not part of another.

    ** What is shown

    - The channel is a transactional byte stream whatever the cuts, for streams under
      512 MiB without NUL bytes where the buffer has to grow
      ([tcp_gets_refines_stream], [tcp_rcommit_transaction], [tcp_puts_transaction],
      [DIS_tcp_wflush_sends]).
    - Integers and strings survive the wire and the readers decide their grammar
      ([integers_roundtrip], [disrui_decides], [strings_roundtrip],
      [disrfst_stays_in_block]).
    - The three list forms interoperate ([attribute_lists_interoperate]).
    - A request of any of the kinds of [body] (all but the authentications and the gpu
      request) reaches the server, which learns the protocol with [get_protocol_type], or
      the MOM intact, a reply reaches the command or the server ([request_reaches_server], [request_reaches_mom],
      [reply_reaches_command], [reply_reaches_server]).
    - Reading comes to an end on any input, with a documented code and inside its
      blocks but for the request types named in [exposed]
      ([dis_request_read_total], [PBSD_rdrpy_total], [client_lists_safe]).
    - The client calls that send one request and read one answer send the request they
      stand for and return the server's answer ([client_calls_answered]).
    - Linked lists implement sequences ([list_operations_refine],
      [walks_visit_the_list]); the address tree implements a sorted list
      ([AVL_insert_refines], [AVL_lookups_decide], [AVL_list_prints]), is balanced
      while keys are distinct ([AVL_insert_balanced]), and its deletion loses exactly
      what [AVL_delete_loses] says.
    - An attribute keeps its value from one daemon to the other
      ([attribute_values_travel], [string_attributes]); sizes add, subtract and compare
      in bytes while words do not overflow ([set_size_exact], [comp_size_orders],
      [words_wrap]); a list attribute gains and loses
      items ([set_str_csv_ok]).
    - A request to set attributes is granted or refused as a whole, and each attribute
      gets what its own entries ask for, by the meaning of its type, [Means]
      ([attr_atomic_set_decides]), and protected node attributes stay
      ([attr_atomic_node_set_protects]).
    - The container implements a list of items when it is grown in one way
      ([container_refines]); the examples behind it show what mixing the ways does.
    - The server's counters are exact before and after a job changes its state, enters
      or leaves a queue ([svr_setjobstate_books], [svr_enquejob_books],
      [svr_dequejob_books], [enqueue_dequeue_roundtrip]), the recount repairs any
      counts ([correct_ct_restores]), queues stay in the order of their ranks
      ([insert_by_rank_sorted]), a wait ends ([job_wait_over_queues]) and a job goes where
      its holds and its time say ([evaluated_job_settles]).  These run with the locks free;
      [contended_change_counts_twice] shows what happens when the queue is busy.
    - A job id is looked up in one form ([find_key_canonical]) and an array request
      counted by its ranges ([num_array_jobs_counts]).
    - An array of strings implements a list of strings under every operation
      ([set_arst_refines]) and survives its text ([decode_arst_elements],
      [arst_roundtrip]); a host list is kept in order ([set_hostacl_keeps_order]) and
      decided by its most specific entry ([acl_check_most_specific]).
    - A scheduling cycle starts from structures that agree with each
      other and with the reports ([query_server_reads]), keeps
      within the limits on running jobs and on resources ([cycle_within_limits],
      [cycle_within_resources]), runs only jobs that may be run ([cycle_runs_eligible])
      and, without fair share and load balancing, ends ([cycle_ends]).  Of [qsort] only
      that it permutes is assumed.  The fuel of [main_loop] is a number of rounds, and
      [cycle_ends] says how many are enough for any start.
    - Where the code departs from this, a theorem says how: [decode_svrattrl_overruns],
      [altauthen_overruns_credential], [replySvr_overruns_jobid],
      [tcp_read_expand_loses_tail] and the others of that kind.

    ** Not modelled

    The system calls below the channel; connection set-up and authentication
    ([pbsD_connect.c], [trq_auth.c]); the DIS floating-point conversions, which no
    request uses; the client calls that return lists ([pbs_statjob], [pbs_selectjob])
    and job submission; the daemons' threads, files and process control
    ([server/req_*.c], [resmom]), of the server's job code the dependencies (a
    parameter of [svr_enquejob]), resource defaults, routing and recycling; of the FIFO
    scheduler the queries of nodes and the fair share tree, which enter as arguments,
    prime and dedicated time, the decay of usage, the accounting of tokens and the
    configuration files, and the other schedulers; the commands and the language
    bindings.  [free] is modelled only
    where the freed memory is still reachable. *)

From Stdlib Require Import ZArith Lia.
From stdpp Require Import base list numbers option.

Local Open Scope Z_scope.

(** ** Machine integers

    C integers are modelled as [Z]; the conversions below are the ones the
    sources perform implicitly on x86-64 (LP64): truncation to an unsigned or a
    two's-complement signed type of the given width. *)

Definition wrap_u (bits z : Z) : Z := z mod 2 ^ bits.
Definition wrap_s (bits z : Z) : Z :=
  let m := z mod 2 ^ bits in if m <? 2 ^ (bits - 1) then m else m - 2 ^ bits.

Definition u8 (z : Z) : Z := wrap_u 8 z.
Definition u16 (z : Z) : Z := wrap_u 16 z.
Definition u32 (z : Z) : Z := wrap_u 32 z.
Definition u64 (z : Z) : Z := wrap_u 64 z.
Definition i8 (z : Z) : Z := wrap_s 8 z.
Definition i16 (z : Z) : Z := wrap_s 16 z.
Definition i32 (z : Z) : Z := wrap_s 32 z.
Definition i64 (z : Z) : Z := wrap_s 64 z.

Definition UINT_MAX : Z := 4294967295.
Definition INT_MAX : Z := 2147483647.
Definition INT_MIN : Z := -2147483648.
Definition ULONG_MAX : Z := 18446744073709551615.
Definition LONG_MAX : Z := 9223372036854775807.
Definition LONG_MIN : Z := -9223372036854775808.

Ltac unfold_ints :=
  unfold u8, u16, u32, u64, i8, i16, i32, i64, wrap_u, wrap_s,
    UINT_MAX, INT_MAX, INT_MIN, ULONG_MAX, LONG_MAX, LONG_MIN in *.

(** The value of an [int] expression, [None] on overflow. *)
Definition int_result (z : Z) : option Z :=
  if (INT_MIN <=? z) && (z <=? INT_MAX) then Some z else None.
Lemma int_result_ok z : INT_MIN <= z <= INT_MAX -> int_result z = Some z.
Proof. intros [H1 H2]. unfold int_result. by rewrite (proj2 (Z.leb_le _ _) H1), (proj2 (Z.leb_le _ _) H2). Qed.

Lemma u32_small z : 0 <= z < 4294967296 -> u32 z = z.
Proof. intros. unfold u32, wrap_u. apply Z.mod_small. lia. Qed.

Lemma u64_small z : 0 <= z < 18446744073709551616 -> u64 z = z.
Proof. intros. unfold u64, wrap_u. apply Z.mod_small. lia. Qed.

Lemma u8_small z : 0 <= z < 256 -> u8 z = z.
Proof. intros. unfold u8, wrap_u. apply Z.mod_small. lia. Qed.

Lemma u32_range z : 0 <= u32 z < 4294967296.
Proof. unfold u32, wrap_u. apply (Z.mod_pos_bound z (2 ^ 32)). lia. Qed.

Lemma u64_range z : 0 <= u64 z < 18446744073709551616.
Proof. unfold u64, wrap_u. apply (Z.mod_pos_bound z (2 ^ 64)). lia. Qed.

Lemma wrap_s_cases bits z :
  1 <= bits -> - 2 ^ (bits - 1) <= z < 2 ^ (bits - 1) -> wrap_s bits z = z.
Proof.
  intros Hb Hz. unfold wrap_s.
  assert (2 ^ bits = 2 * 2 ^ (bits - 1)) as E.
  { rewrite <- Z.pow_succ_r by lia. f_equal; lia. }
  destruct (Z_lt_le_dec z 0).
  - replace (z mod 2 ^ bits) with (z + 2 ^ bits).
    + destruct (Z.ltb_spec (z + 2 ^ bits) (2 ^ (bits - 1))); lia.
    + apply (Z.mod_unique_pos _ _ (-1)); lia.
  - rewrite Z.mod_small by lia.
    destruct (Z.ltb_spec z (2 ^ (bits - 1))); lia.
Qed.

Lemma i32_small z : -2147483648 <= z < 2147483648 -> i32 z = z.
Proof. intros. apply wrap_s_cases; simpl; lia. Qed.

Lemma i64_small z : -9223372036854775808 <= z < 9223372036854775808 -> i64 z = z.
Proof. intros. apply wrap_s_cases; simpl; lia. Qed.

Lemma wrap_s_mod bits z : wrap_s bits (z mod 2 ^ bits) = wrap_s bits z.
Proof. unfold wrap_s. by rewrite Zmod_mod. Qed.

Lemma wrap_s_range bits z : 1 <= bits -> - 2 ^ (bits - 1) <= wrap_s bits z < 2 ^ (bits - 1).
Proof.
  intros Hb. unfold wrap_s.
  assert (2 ^ bits = 2 * 2 ^ (bits - 1)) as E by (rewrite <- Z.pow_succ_r by lia; f_equal; lia).
  pose proof (Z.pow_pos_nonneg 2 (bits - 1)). pose proof (Z.mod_pos_bound z (2 ^ bits)).
  destruct (Z.ltb_spec (z mod 2 ^ bits) (2 ^ (bits - 1))); lia.
Qed.

Lemma i64_range z : -9223372036854775808 <= i64 z < 9223372036854775808.
Proof. apply (wrap_s_range 64). lia. Qed.

(** Narrowing an [unsigned] only looks at its low bits. *)
Lemma wrap_s_u32 bits z : 0 <= bits <= 32 -> wrap_s bits (u32 z) = wrap_s bits z.
Proof.
  intros Hb. unfold wrap_s, u32, wrap_u. rewrite Z.mod_mod_divide; [done|].
  exists (2 ^ (32 - bits)). rewrite <- Z.pow_add_r by lia. f_equal. lia.
Qed.

(** An [int] survives the trip through [unsigned]. *)
Lemma i32_u32 z : -2147483648 <= z < 2147483648 -> i32 (u32 z) = z.
Proof. intros. unfold i32, u32, wrap_u. rewrite wrap_s_mod. by apply i32_small. Qed.

Lemma i32_eqb_self z : (i32 z =? i32 z) = true.
Proof. apply Z.eqb_refl. Qed.

(** The code of success, and that of a failed allocation. *)
Definition PBSE_NONE : Z := 0.
Definition PBSE_MEM_MALLOC : Z := 15091.

(** ** Characters

    [char] is signed on the platforms the daemons are built for; a cell of a
    character buffer is the [char] value itself. *)

Definition c_nul : Z := 0.
Definition c_plus : Z := 43.
Definition c_minus : Z := 45.
Definition c_0 : Z := 48.
Definition c_9 : Z := 57.

Definition is_digit (c : Z) : bool := (c_0 <=? c) && (c <=? c_9).

(** ** The platform *)

(** What the C program leaves open: which requests the allocator grants, and
    what an automatic variable holds before its first assignment. *)
Class Platform := {
  calloc_ok : Z -> bool;
  ind_negate : bool;
  ind_uint : Z
}.

Definition ALLOC_MAX : Z := 17179869184.

(** The allocator grants every request of up to 16 GiB. *)
Class AllocOk `{Platform} : Prop :=
  alloc_ok : forall n, 0 <= n <= ALLOC_MAX -> calloc_ok n = true.

(** A platform that grants every request up to [ALLOC_MAX]. *)
Definition generous : Platform :=
  {| calloc_ok n := n <=? ALLOC_MAX; ind_negate := false; ind_uint := 0 |}.

Lemma generous_ok : @AllocOk generous.
Proof. intros n Hn. simpl. apply Z.leb_le. lia. Defined.

(** A [switch] label with several cases. *)
Definition is_case (t : Z) (cases : list Z) : bool := existsb (Z.eqb t) cases.

(** ** List and buffer helpers *)

Definition zlen {A} (l : list A) : Z := Z.of_nat (length l).

Definition slice {A} (b e : Z) (l : list A) : list A :=
  take (Z.to_nat (e - b)) (drop (Z.to_nat b) l).

(** [memcpy] into and out of an allocated block; [None] is an access outside
    the block. *)
Definition mem_write (buf : list Z) (off : Z) (bs : list Z) : option (list Z) :=
  if (0 <=? off) && (off + zlen bs <=? zlen buf)
  then Some (take (Z.to_nat off) buf ++ bs ++ drop (Z.to_nat (off + zlen bs)) buf)
  else None.

Definition mem_read (buf : list Z) (off n : Z) : option (list Z) :=
  if (0 <=? off) && (0 <=? n) && (off + n <=? zlen buf)
  then Some (slice off (off + n) buf)
  else None.

(** The C string that starts at the head of a block: the characters before the
    first NUL, [None] when the block holds no NUL. *)
Fixpoint cstring (buf : list Z) : option (list Z) :=
  match buf with
  | [] => None
  | c :: buf' => if c =? 0 then Some [] else (cons c) <$> cstring buf'
  end.

(** [s] up to its first NUL, for the values that stand for a C string. *)
Fixpoint until_nul (s : list Z) : list Z :=
  match s with
  | [] => []
  | c :: s' => if c =? 0 then [] else c :: until_nul s'
  end.

Definition nul_free (s : list Z) : Prop := Forall (fun c => c <> 0) s.

#[export] Instance nul_free_dec s : Decision (nul_free s).
Proof. unfold nul_free. apply _. Defined.

Create HintDb dis discriminated.

Lemma zlen_nil {A} : zlen (A := A) [] = 0.
Proof. done. Qed.
Lemma zlen_cons {A} (x : A) l : zlen (x :: l) = zlen l + 1.
Proof. unfold zlen. simpl. lia. Qed.
Lemma zlen_app {A} (l1 l2 : list A) : zlen (l1 ++ l2) = zlen l1 + zlen l2.
Proof. unfold zlen. rewrite length_app. lia. Qed.
Lemma zlen_nonneg {A} (l : list A) : 0 <= zlen l.
Proof. unfold zlen. lia. Qed.
Lemma zlen_replicate {A} n (x : A) : zlen (replicate n x) = Z.of_nat n.
Proof. unfold zlen. by rewrite length_replicate. Qed.

Lemma zlen_take {A} n (l : list A) :
  0 <= n <= zlen l -> zlen (take (Z.to_nat n) l) = n.
Proof. unfold zlen. intros. rewrite length_take. lia. Qed.
Lemma zlen_drop {A} n (l : list A) :
  0 <= n <= zlen l -> zlen (drop (Z.to_nat n) l) = zlen l - n.
Proof. unfold zlen. intros. rewrite length_drop. lia. Qed.
Lemma zlen_slice {A} b e (l : list A) :
  0 <= b <= e -> e <= zlen l -> zlen (slice b e l) = e - b.
Proof.
  intros. unfold slice. rewrite zlen_take; [lia|]. rewrite zlen_drop; lia.
Qed.

Lemma slice_nil {A} b (l : list A) : slice b b l = [].
Proof. unfold slice. by rewrite Z.sub_diag. Qed.

Lemma slice_0 {A} e (l : list A) : slice 0 e l = take (Z.to_nat e) l.
Proof. unfold slice. by rewrite Z.sub_0_r. Qed.

Lemma slice_split {A} b m e (l : list A) :
  0 <= b <= m -> m <= e -> slice b e l = slice b m l ++ slice m e l.
Proof.
  intros. unfold slice.
  replace (Z.to_nat (e - b)) with (Z.to_nat (m - b) + Z.to_nat (e - m))%nat by lia.
  rewrite <- take_take_drop. f_equal. rewrite drop_drop. do 2 f_equal. lia.
Qed.

(** Reading a slice of a concatenation, on either side of the seam. *)
Lemma slice_app_l {A} b e (l1 l2 : list A) :
  0 <= b -> e <= zlen l1 -> slice b e (l1 ++ l2) = slice b e l1.
Proof.
  intros. unfold slice, zlen in *.
  destruct (Z_le_gt_dec b (zlen l1)); unfold zlen in *.
  - rewrite drop_app_le by lia. rewrite take_app_le; [done|].
    rewrite length_drop. lia.
  - replace (Z.to_nat (e - b)) with 0%nat by lia. done.
Qed.

Lemma slice_app_r {A} b e (l1 l2 : list A) :
  zlen l1 <= b -> slice b e (l1 ++ l2) = slice (b - zlen l1) (e - zlen l1) l2.
Proof.
  intros. unfold slice, zlen in *. rewrite drop_app_ge by lia.
  f_equal; [lia|]. f_equal. lia.
Qed.

Lemma slice_app_inv {A} b m e (l x y : list A) :
  0 <= b <= m -> m <= e -> e <= zlen l -> zlen x = m - b ->
  slice b e l = x ++ y -> slice b m l = x /\ slice m e l = y.
Proof.
  intros ??? Hx E. rewrite (slice_split b m) in E by lia.
  apply app_inj_1 in E; [done|].
  pose proof (zlen_slice b m l ltac:(lia) ltac:(lia)). unfold zlen in *. lia.
Qed.

Lemma slice_all {A} (l : list A) : slice 0 (zlen l) l = l.
Proof. rewrite slice_0. unfold zlen. rewrite Nat2Z.id. apply firstn_all. Qed.

Lemma take_slice {A} n b e (l : list A) :
  0 <= n <= e - b -> take (Z.to_nat n) (slice b e l) = slice b (b + n) l.
Proof. intros. unfold slice. rewrite take_take. f_equal. lia. Qed.

Lemma drop_slice {A} n b e (l : list A) :
  0 <= b -> 0 <= n <= e - b -> drop (Z.to_nat n) (slice b e l) = slice (b + n) e l.
Proof.
  intros. unfold slice. rewrite skipn_firstn_comm, drop_drop. f_equal; [lia|].
  f_equal. lia.
Qed.

(** [memcpy] at the end of the used part of a block appends to every slice
    that ends there and leaves the slices before it alone. *)
Lemma mem_write_ok buf off bs :
  0 <= off -> off + zlen bs <= zlen buf ->
  exists buf', mem_write buf off bs = Some buf' /\ zlen buf' = zlen buf
    /\ (forall b e, 0 <= b -> e <= off -> slice b e buf' = slice b e buf)
    /\ slice off (off + zlen bs) buf' = bs
    /\ (forall b e, off + zlen bs <= b -> slice b e buf' = slice b e buf).
Proof.
  intros H0 H1. unfold mem_write.
  rewrite (proj2 (Z.leb_le _ _) H0), (proj2 (Z.leb_le _ _) H1). simpl.
  pose proof (zlen_nonneg bs).
  eexists; split; [done|]. repeat split.
  - rewrite !zlen_app, zlen_take, zlen_drop by lia. lia.
  - intros b e ??. rewrite slice_app_l by (rewrite ?zlen_take; lia).
    unfold slice. destruct (Z_le_gt_dec b off).
    + rewrite skipn_firstn_comm, take_take. f_equal. lia.
    + replace (Z.to_nat (e - b)) with 0%nat by lia. done.
  - rewrite slice_app_r by (rewrite zlen_take; lia). rewrite zlen_take by lia.
    replace (off - off) with 0 by lia. replace (off + zlen bs - off) with (zlen bs) by lia.
    rewrite slice_app_l by lia. apply slice_all.
  - intros b e ?. rewrite slice_app_r by (rewrite zlen_take; lia).
    rewrite zlen_take by lia. rewrite slice_app_r by lia.
    unfold slice. rewrite drop_drop. f_equal; [lia|]. f_equal. lia.
Qed.

Lemma mem_read_ok buf off n :
  0 <= off -> 0 <= n -> off + n <= zlen buf ->
  mem_read buf off n = Some (slice off (off + n) buf).
Proof.
  intros. unfold mem_read.
  rewrite !(proj2 (Z.leb_le _ _)) by done. done.
Qed.

(** A block of zeros, as [calloc] returns it, and what is written into a block at a
    known place. *)
Definition zeros (n : Z) : list Z := replicate (Z.to_nat n) c_nul.

Lemma mem_write_app p q s :
  zlen s <= zlen q -> mem_write (p ++ q) (zlen p) s = Some (p ++ s ++ drop (length s) q).
Proof.
  intros Hl. unfold mem_write. pose proof (zlen_nonneg p). rewrite zlen_app.
  destruct (Z.leb_spec 0 (zlen p)), (Z.leb_spec (zlen p + zlen s) (zlen p + zlen q)); try lia.
  simpl. f_equal. unfold zlen in *. rewrite Nat2Z.id, take_app_length. do 2 f_equal.
  rewrite drop_app_ge by lia. f_equal. lia.
Qed.

Lemma zlen_zeros n : 0 <= n -> zlen (zeros n) = n.
Proof. intros. unfold zeros. rewrite zlen_replicate. lia. Qed.

Lemma drop_zeros (s : list Z) n : zlen s <= n -> drop (length s) (zeros n) = zeros (n - zlen s).
Proof. intros. unfold zeros, zlen in *. rewrite drop_replicate. f_equal. lia. Qed.

Lemma zeros_app a b : 0 <= a -> 0 <= b -> zeros (a + b) = zeros a ++ zeros b.
Proof. intros. unfold zeros. by rewrite Z2Nat.inj_add, replicate_add by lia. Qed.

Lemma mem_write_0 q s : zlen s <= zlen q -> mem_write q 0 s = Some (s ++ drop (length s) q).
Proof. apply (mem_write_app []). Qed.

Lemma mem_write_at p q s off :
  off = zlen p -> zlen s <= zlen q -> mem_write (p ++ q) off s = Some (p ++ s ++ drop (length s) q).
Proof. intros ->. apply mem_write_app. Qed.

Lemma mem_read_prefix s q : mem_read (s ++ q) 0 (zlen s) = Some s.
Proof.
  pose proof (zlen_nonneg s). pose proof (zlen_nonneg q).
  rewrite mem_read_ok by (rewrite ?zlen_app; lia). rewrite Z.add_0_l, slice_app_l by lia.
  by rewrite slice_all.
Qed.

Lemma cstring_app s rest : nul_free s -> cstring (s ++ 0 :: rest) = Some s.
Proof.
  induction 1 as [|c s Hc Hs IH]; [done|]. simpl.
  destruct (Z.eqb_spec c 0); [done|]. by rewrite IH.
Qed.

Lemma until_nul_id s : nul_free s -> until_nul s = s.
Proof.
  induction 1 as [|c s Hc Hs IH]; [done|]. simpl.
  destruct (Z.eqb_spec c 0); [done|]. by rewrite IH.
Qed.

Lemma until_nul_le s : zlen (until_nul s) <= zlen s.
Proof.
  induction s as [|c s IH]; [done|]. simpl.
  destruct (c =? 0); rewrite ?zlen_cons; rewrite ?zlen_nil; pose proof (zlen_nonneg s); lia.
Qed.

Lemma until_nul_free s : nul_free (until_nul s).
Proof.
  induction s as [|c s IH]; simpl; [constructor|].
  destruct (Z.eqb_spec c 0); [constructor|by constructor].
Qed.

(** ** Outcomes and the state monad

    A C function is modelled as a computation over an explicit state.  [UB] is
    reached by an access outside an allocated block, a call through a null
    pointer or a failed [assert]; [OutOfFuel] by a loop that ran longer than the
    bound its model computes, which the termination theorems exclude. *)

Inductive outcome (S A : Type) : Type :=
| Ret (a : A) (s : S)
| UB
| OutOfFuel.
Arguments Ret {S A} a s.
Arguments UB {S A}.
Arguments OutOfFuel {S A}.

Definition ST (S A : Type) : Type := S -> outcome S A.

Definition st_ret {S A} (a : A) : ST S A := fun s => Ret a s.
Definition st_bind {S A B} (m : ST S A) (k : A -> ST S B) : ST S B := fun s =>
  match m s with
  | Ret a s' => k a s'
  | UB => UB
  | OutOfFuel => OutOfFuel
  end.
Definition st_ub {S A} : ST S A := fun _ => UB.
Definition st_get {S} : ST S S := fun s => Ret s s.
Definition st_modify {S} (f : S -> S) : ST S unit := fun s => Ret tt (f s).
Definition st_lift {S A} (o : option A) : ST S A :=
  match o with Some a => st_ret a | None => st_ub end.

Declare Scope st_scope.
Delimit Scope st_scope with st.
Notation "'let*' p ':=' m 'in' k" := (st_bind m (fun p => k))
  (at level 10, p pattern, m at level 100, k at level 200) : st_scope.
Notation "m '>>>' k" := (st_bind m (fun _ => k))
  (at level 98, right associativity) : st_scope.
(** [if ((rc = m) != 0) return rc; k] *)
Notation "m '>>?' k" := (st_bind m (fun rc => if rc =? 0 then k else st_ret rc))
  (at level 98, right associativity) : st_scope.
(** [if ((rc = m != 0)) return rc; k], where [!=] binds tighter than [=] *)
Notation "m '>>!' k" := (st_bind m (fun rc => if rc =? 0 then k else st_ret 1))
  (at level 98, right associativity) : st_scope.

Lemma st_bind_ret {S A B} (m : ST S A) (k : A -> ST S B) s a s' :
  m s = Ret a s' -> st_bind m k s = k a s'.
Proof. intros H. unfold st_bind. by rewrite H. Qed.

(** Instantiates the final state of a run whose outcome is already computed. *)
Ltac take_world :=
  match goal with |- exists w', Ret _ ?w = _ /\ _ => exists w end.

(** Splits every conjunction and existential in the context. *)
Ltac destruct_all :=
  repeat match goal with
  | H : _ /\ _ |- _ => destruct H
  | H : exists _, _ |- _ => destruct H
  end.

(** Turns the boolean comparisons of the context and the goal into [Prop]. *)
Ltac zb :=
  repeat match goal with
  | |- context [?a =? ?b] => destruct (Z.eqb_spec a b)
  | |- context [?a <? ?b] => destruct (Z.ltb_spec a b)
  | |- context [?a <=? ?b] => destruct (Z.leb_spec a b)
  end.

(** Drops the conversions that [lia] shows to be the identity, innermost first. *)
Ltac drop_wraps :=
  repeat match goal with
  | |- context [u32 ?x] =>
      lazymatch x with
      | context [u32 _] => fail
      | context [i32 _] => fail
      | _ => rewrite (u32_small x) by lia
      end
  | |- context [i32 ?x] =>
      lazymatch x with
      | context [u32 _] => fail
      | context [i32 _] => fail
      | _ => rewrite (i32_small x) by lia
      end
  end.

(** Adds [0 <= zlen s] for every character list of the context. *)
Ltac zlens :=
  repeat match goal with
  | s : list Z |- _ =>
      lazymatch goal with
      | _ : 0 <= zlen s |- _ => fail
      | _ => pose proof (zlen_nonneg s)
      end
  end.
