(* ===== verification/CLib.v ===== *)
(** * The C library

    What the sources use of the C library on character strings: the character
    classes, the decimal conversions of [printf] and the parsers [strtol], [atol] and
    [atoi] as the GNU library implements them.  A C string is the list of its
    characters without the NUL. *)

From S2P Require Import Prelude.
From stdpp Require Import base list numbers option.

Local Open Scope Z_scope.

(** ** Decimal digit strings *)

(** The value of a digit string read after [acc]. *)
Fixpoint dval (acc : Z) (s : list Z) : Z :=
  match s with
  | [] => acc
  | c :: s' => dval (10 * acc + (c - c_0)) s'
  end.

Definition digits (s : list Z) : Prop := Forall (fun c => is_digit c = true) s.

Lemma is_digit_range c : is_digit c = true -> 48 <= c <= 57.
Proof. unfold is_digit, c_0, c_9. intros [?%Z.leb_le ?%Z.leb_le]%andb_prop. lia. Qed.

Lemma digits_cons c s : digits (c :: s) <-> is_digit c = true /\ digits s.
Proof. unfold digits. by rewrite Forall_cons_iff. Qed.

Lemma dval_app acc s t : dval acc (s ++ t) = dval (dval acc s) t.
Proof. revert acc. induction s as [|c s IH]; intros acc; [done|]. apply IH. Qed.

Lemma dval_bounds s : forall acc, digits s -> 0 <= acc ->
  acc * 10 ^ zlen s <= dval acc s < (acc + 1) * 10 ^ zlen s.
Proof.
  induction s as [|c s IH]; intros acc Hd Ha; simpl.
  - rewrite zlen_nil, Z.pow_0_r. lia.
  - apply digits_cons in Hd as [Hc Hd]. apply is_digit_range in Hc. unfold c_0.
    rewrite zlen_cons, Z.pow_add_r by (pose proof (zlen_nonneg s); lia).
    specialize (IH (10 * acc + (c - 48)) Hd ltac:(lia)).
    assert (0 < 10 ^ zlen s) by (apply Z.pow_pos_nonneg; [lia|apply zlen_nonneg]).
    change (10 ^ 1) with 10. nia.
Qed.

Lemma dval_mono s acc : digits s -> 0 <= acc -> acc <= dval acc s.
Proof.
  intros Hd Ha. pose proof (dval_bounds s acc Hd Ha).
  assert (0 < 10 ^ zlen s) by (apply Z.pow_pos_nonneg; [lia|apply zlen_nonneg]). nia.
Qed.

(** [ds] is the shortest decimal text of [v]. *)
Record canonical (v : Z) (ds : list Z) : Prop := {
  can_digits : digits ds;
  can_value : dval 0 ds = v;
  can_first : exists c ds', ds = c :: ds' /\ (ds' = [] \/ c <> c_0)
}.

(** A canonical text has no more digits than its value needs. *)
Lemma canonical_len v ds k :
  canonical v ds -> v < 10 ^ k -> 1 <= k -> 1 <= zlen ds <= k.
Proof.
  intros [Hd Hv (c & ds' & -> & Hf)] Hk H1. rewrite zlen_cons. pose proof (zlen_nonneg ds').
  split; [lia|]. destruct Hf as [->|Hc]; [rewrite zlen_nil; lia|].
  apply digits_cons in Hd as [Hcd Hd]. apply is_digit_range in Hcd. simpl in Hv.
  pose proof (dval_bounds ds' (10 * 0 + (c - c_0)) Hd ltac:(unfold c_0; lia)). unfold c_0 in *.
  destruct (Z_le_gt_dec (zlen ds' + 1) k); [done|].
  assert (10 ^ k <= 10 ^ zlen ds') by (apply Z.pow_le_mono_r; lia). nia.
Qed.


(** ** Characters and strings *)

Definition isspace (c : Z) : bool := (c =? 32) || ((9 <=? c) && (c <=? 13)).
Definition toupper (c : Z) : Z := if (97 <=? c) && (c <=? 122) then c - 32 else c.
Definition tolower (c : Z) : Z := if (65 <=? c) && (c <=? 90) then c + 32 else c.

(** [strcmp(a, b) == 0] *)
Definition str_eq (a b : list Z) : bool := bool_decide (a = b).

(** The value of a digit in [base]. *)
Definition digit_val (base c : Z) : option Z :=
  let d := if is_digit c then c - 48
           else if (97 <=? c) && (c <=? 122) then c - 87
           else if (65 <=? c) && (c <=? 90) then c - 55 else base in
  if d <? base then Some d else None.

(** The longest prefix of digits, its value read after [acc], and the rest. *)
Fixpoint span_digits (base acc : Z) (s : list Z) : Z * list Z :=
  match s with
  | [] => (acc, [])
  | c :: s' => match digit_val base c with
               | Some d => span_digits base (base * acc + d) s'
               | None => (acc, s)
               end
  end.

Fixpoint skip_spaces (s : list Z) : list Z :=
  match s with
  | c :: s' => if isspace c then skip_spaces s' else s
  | [] => []
  end.

(** The base a number is read in when [strtol] is given base 0, and what follows the
    prefix: ["0x"] and a digit is hexadecimal, ["0"] octal. *)
Definition detect_base (s : list Z) : Z * list Z :=
  match s with
  | 48 :: x :: c :: s' =>
      if ((x =? 120) || (x =? 88)) && bool_decide (is_Some (digit_val 16 c))
      then (16, c :: s') else (8, s)
  | 48 :: _ => (8, s)
  | _ => (10, s)
  end.

Definition clamp_long (v : Z) : Z := Z.max LONG_MIN (Z.min LONG_MAX v).

(** [strtol(s, &end, base)] for base 0 or 10: the value, which saturates, and what
    [end] points at; [None] when there is no number and [end] is [s] itself. *)
Definition strtol (s : list Z) (base : Z) : Z * option (list Z) :=
  let '(neg, s2) :=
    match skip_spaces s with
    | 45 :: t => (true, t)
    | 43 :: t => (false, t)
    | t => (false, t)
    end in
  let '(b, s3) := if base =? 0 then detect_base s2 else (base, s2) in
  match s3 with
  | c :: _ =>
      match digit_val b c with
      | Some _ =>
          let '(v, rest) := span_digits b 0 s3 in
          (clamp_long (if neg : bool then - v else v), Some rest)
      | None => (0, None)
      end
  | [] => (0, None)
  end.

Definition atol (s : list Z) : Z := fst (strtol s 10).
Definition atoi (s : list Z) : Z := i32 (atol s).

(** ["%lu"], ["%ld"] and ["%02d"]; 20 digits are enough for 64 bits. *)
Fixpoint print_loop (room : nat) (cp : list Z) (v : Z) : list Z :=
  match room with
  | O => cp
  | S room' => if v <? 10 then v + c_0 :: cp else print_loop room' (v mod 10 + c_0 :: cp) (v / 10)
  end.

Definition print_u (v : Z) : list Z := print_loop 20 [] v.
Definition print_d (v : Z) : list Z := if v <? 0 then c_minus :: print_u (- v) else print_u v.
Definition print_02d (v : Z) : list Z :=
  if v <? 0 then print_d v else if v <? 10 then c_0 :: print_u v else print_u v.

(** ** Printing and reading *)

Lemma print_loop_spec room : forall cp v,
  0 <= v < 10 ^ Z.of_nat room -> (0 < room)%nat ->
  exists ds, print_loop room cp v = ds ++ cp /\ canonical v ds.
Proof.
  induction room as [|room IH]; intros cp v Hv Hr; [lia|]. cbn [print_loop].
  destruct (Z.ltb_spec v 10) as [H9|H9].
  - exists [v + c_0]. split; [done|]. constructor.
    + repeat constructor. unfold is_digit, c_0, c_9. apply andb_true_intro; split; apply Z.leb_le; lia.
    + simpl. unfold c_0. lia.
    + exists (v + c_0), []. by split; [|left].
  - destruct room as [|room']; [change (10 ^ Z.of_nat 1) with 10 in Hv; lia|].
    assert (Hq : 0 <= v / 10 < 10 ^ Z.of_nat (S room')).
    { rewrite Nat2Z.inj_succ, Z.pow_succ_r in Hv by lia.
      split; [apply Z.div_pos; lia|]. apply Z.div_lt_upper_bound; lia. }
    destruct (IH (v mod 10 + c_0 :: cp) (v / 10) Hq ltac:(lia)) as (ds & -> & [Hd Hval Hf]).
    exists (ds ++ [v mod 10 + c_0]). rewrite <- app_assoc. split; [done|].
    pose proof (Z.mod_pos_bound v 10 ltac:(lia)). constructor.
    + apply Forall_app; split; [done|]. repeat constructor.
      unfold is_digit, c_0, c_9. apply andb_true_intro; split; apply Z.leb_le; lia.
    + rewrite dval_app, Hval. simpl. rewrite Z.add_simpl_r. pose proof (Z.div_mod v 10). lia.
    + destruct Hf as (c & ds' & -> & Hf). exists c, (ds' ++ [v mod 10 + c_0]).
      split; [done|]. right. destruct Hf as [->|?]; [|done].
      simpl in Hval. unfold c_0 in *. intros ->. pose proof (Z.div_le_lower_bound v 10 1). lia.
Qed.

Lemma print_u_canonical v : 0 <= v <= ULONG_MAX -> canonical v (print_u v).
Proof.
  intros Hv. destruct (print_loop_spec 20 [] v) as (ds & E & Hc); [unfold ULONG_MAX in Hv; simpl; lia|lia|].
  unfold print_u. by rewrite E, app_nil_r.
Qed.

(** What ends a number: the end of the string or a character that cannot belong to it. *)
Definition stops (rest : list Z) : Prop :=
  match rest with [] => True | c :: _ => is_digit c = false /\ c <> 120 /\ c <> 88 end.

Lemma digit_val_10 c : is_digit c = true -> digit_val 10 c = Some (c - 48).
Proof.
  intros Hc. unfold digit_val. rewrite Hc. apply is_digit_range in Hc.
  destruct (Z.ltb_spec (c - 48) 10); [done|lia].
Qed.

Lemma digit_val_none base c : 0 <= base <= 10 -> is_digit c = false -> digit_val base c = None.
Proof.
  intros Hb Hc. unfold digit_val. rewrite Hc.
  destruct ((97 <=? c) && (c <=? 122)) eqn:E1; [|destruct ((65 <=? c) && (c <=? 90)) eqn:E2];
    zb; try done; rewrite ?andb_true_iff, ?Z.leb_le in *; lia.
Qed.

Lemma span_digits_10 ds rest : forall acc,
  digits ds -> stops rest -> span_digits 10 acc (ds ++ rest) = (dval acc ds, rest).
Proof.
  induction ds as [|c ds IH]; intros acc Hd Hr.
  - simpl. destruct rest as [|c rest]; [done|]. destruct Hr as [Hc _]. simpl.
    by rewrite digit_val_none by (done || lia).
  - apply digits_cons in Hd as [Hc Hd]. simpl. rewrite digit_val_10 by done. by apply IH.
Qed.

Lemma skip_sign_digit c s :
  is_digit c = true ->
  match skip_spaces (c :: s) with
  | 45 :: t => (true, t) | 43 :: t => (false, t) | t => (false, t)
  end = (false, c :: s).
Proof.
  intros Hc%is_digit_range. simpl. unfold isspace.
  assert (E : c = 48 \/ c = 49 \/ c = 50 \/ c = 51 \/ c = 52 \/ c = 53 \/ c = 54 \/ c = 55 \/ c = 56 \/ c = 57)
    by lia. by repeat destruct E as [->|E]; try subst c.
Qed.

(** Reading a run of digits in base 10. *)
Lemma strtol_digits ds rest :
  digits ds -> ds <> [] -> stops rest -> strtol (ds ++ rest) 10 = (clamp_long (dval 0 ds), Some rest).
Proof.
  intros Hd Hne Hr. destruct ds as [|c ds]; [done|]. pose proof Hd as [Hc _]%digits_cons.
  unfold strtol. rewrite <- app_comm_cons, skip_sign_digit by done. simpl (10 =? 0). cbv iota beta.
  rewrite (digit_val_10 c Hc), app_comm_cons, span_digits_10 by done. done.
Qed.

Lemma strtol_empty base : strtol [] base = (0, None).
Proof. unfold strtol. simpl. by destruct (base =? 0). Qed.

(** Reading what [printf] wrote, with the base detected. *)
Lemma strtol_canonical v ds rest :
  canonical v ds -> stops rest -> strtol (ds ++ rest) 0 = (clamp_long v, Some rest).
Proof.
  intros [Hd Hv (c & ds' & -> & Hf)] Hr. pose proof Hd as [Hc Hd']%digits_cons.
  unfold strtol. rewrite <- app_comm_cons, skip_sign_digit by done. simpl (0 =? 0). cbv iota.
  destruct (decide (c = 48)) as [->|Hn].
  - destruct Hf as [->|Hf]; [|done]. simpl in Hv. subst v. destruct rest as [|x rest]; [done|].
    destruct Hr as (Hx & Hx1 & Hx2). simpl (app [] _).
    assert (Eb : detect_base (48 :: x :: rest) = (8, 48 :: x :: rest)).
    { unfold detect_base. destruct rest as [|y rest]; [done|].
      by rewrite (proj2 (Z.eqb_neq x 120)), (proj2 (Z.eqb_neq x 88)) by done. }
    rewrite Eb. simpl. by rewrite (digit_val_none 8 x) by (done || lia).
  - assert (Eb : detect_base (c :: ds' ++ rest) = (10, c :: ds' ++ rest)).
    { apply is_digit_range in Hc. unfold detect_base.
      assert (E : c = 49 \/ c = 50 \/ c = 51 \/ c = 52 \/ c = 53 \/ c = 54 \/ c = 55 \/ c = 56 \/ c = 57)
        by lia. by repeat destruct E as [->|E]; try subst c. }
    rewrite Eb, (digit_val_10 c Hc), app_comm_cons, span_digits_10 by done. by rewrite Hv.
Qed.

Lemma clamp_long_id v : LONG_MIN <= v <= LONG_MAX -> clamp_long v = v.
Proof. unfold clamp_long. lia. Qed.

Lemma canonical_digits v ds : canonical v ds -> digits ds /\ ds <> [] /\ dval 0 ds = v.
Proof. intros [Hd Hv (c & ds' & -> & _)]. by repeat split. Qed.

Lemma digits_nul_free ds : digits ds -> nul_free ds.
Proof.
  unfold digits, nul_free. apply Forall_impl. intros c Hc%is_digit_range. lia.
Qed.

(** [atol] undoes ["%ld"]. *)
Lemma atol_print_d v : LONG_MIN <= v <= LONG_MAX -> atol (print_d v) = v.
Proof.
  intros Hv. unfold atol, print_d. destruct (Z.ltb_spec v 0).
  - destruct (canonical_digits (- v) (print_u (- v))) as (Hd & Hne & Hval);
      [apply print_u_canonical; unfold ULONG_MAX, LONG_MIN, LONG_MAX in *; lia|].
    unfold strtol. simpl. destruct (print_u (- v)) as [|c ds] eqn:E; [done|].
    pose proof Hd as [Hc _]%digits_cons. rewrite (digit_val_10 c Hc).
    rewrite <- (app_nil_r (c :: ds)), span_digits_10 by done. cbn [fst]. rewrite Hval, Z.opp_involutive.
    by apply clamp_long_id.
  - destruct (canonical_digits v (print_u v)) as (Hd & Hne & Hval);
      [apply print_u_canonical; unfold ULONG_MAX, LONG_MIN, LONG_MAX in *; lia|].
    rewrite <- (app_nil_r (print_u v)), strtol_digits by done. cbn [fst]. rewrite Hval.
    apply clamp_long_id. lia.
Qed.
