(* ===== verification/ListLink.v ===== *)
(** * Linked lists (src/src/lib/Libifl/list_link.c, src/src/include/list_link.h)

    Requests, replies, attributes, jobs and tasks are kept on circular doubly linked
    lists whose links are embedded in the objects.  The model keeps the links in a
    heap of addresses, with the null pointer 0, and shows that each routine performs
    the operation on sequences it is named after and touches no other link. *)

From S2P Require Import Prelude.
From stdpp Require Import base list numbers option gmap.

Local Open Scope Z_scope.
Local Open Scope st_scope.

(** ** Links *)

Record list_link := mk_list_link { ll_prior : Z; ll_next : Z; ll_struct : Z }.

Abbreviation heap := (gmap Z list_link).
Abbreviation L := (ST (gmap Z list_link)).

Definition LINK_INSET_BEFORE : Z := 0.
Definition LINK_INSET_AFTER : Z := 1.

(** [*p], [p->ll_prior = v], [p->ll_next = v], [p->ll_struct = v] *)
Definition load (p : Z) : L list_link := fun h =>
  match h !! p with Some l => Ret l h | None => UB end.

Definition upd_prior (p v : Z) (h : heap) : heap :=
  alter (fun l => mk_list_link v (ll_next l) (ll_struct l)) p h.
Definition upd_next (p v : Z) (h : heap) : heap :=
  alter (fun l => mk_list_link (ll_prior l) v (ll_struct l)) p h.
Definition upd_struct (p v : Z) (h : heap) : heap :=
  alter (fun l => mk_list_link (ll_prior l) (ll_next l) v) p h.

Definition set_prior (p v : Z) : L unit := load p >>> st_modify (upd_prior p v).
Definition set_next (p v : Z) : L unit := load p >>> st_modify (upd_next p v).
Definition set_struct (p v : Z) : L unit := load p >>> st_modify (upd_struct p v).

Definition CLEAR_HEAD (e : Z) : L unit := set_next e e >>> set_prior e e >>> set_struct e 0.
Definition CLEAR_LINK (e : Z) : L unit := set_next e e >>> set_prior e e.

(** ** Operations *)

(** The check of the debugging build, which ends in [abort()]. *)
Definition insert_check (old new_link pobj : Z) : L unit :=
  if (pobj =? 0) || (old =? 0) then st_ub
  else
    let* o := load old in
    if (ll_prior o =? 0) || (ll_next o =? 0) then st_ub
    else
      let* n := load new_link in
      if negb (ll_prior n =? new_link) || negb (ll_next n =? new_link) then st_ub
      else st_ret tt.

Definition insert_link (old new_link pobj position : Z) : L unit :=
  insert_check old new_link pobj >>>
  (if position =? LINK_INSET_AFTER then
     set_prior new_link old >>>
     let* o := load old in
     set_next new_link (ll_next o) >>>
     let* o := load old in
     set_prior (ll_next o) new_link >>>
     set_next old new_link
   else
     set_next new_link old >>>
     let* o := load old in
     set_prior new_link (ll_prior o) >>>
     let* o := load old in
     set_next (ll_prior o) new_link >>>
     set_prior old new_link) >>>
  set_struct new_link (if negb (pobj =? 0) then pobj else new_link).

Definition append_link (head new_link pobj : Z) : L unit :=
  set_struct new_link (if negb (pobj =? 0) then pobj else new_link) >>>
  let* hd := load head in
  set_prior new_link (ll_prior hd) >>>
  set_next new_link head >>>
  set_prior head new_link >>>
  let* n := load new_link in
  if negb (ll_prior n =? 0) then set_next (ll_prior n) new_link else st_ret tt.

Definition delete_link (old : Z) : L unit :=
  let* o := load old in
  (if negb (ll_prior o =? 0) && negb (ll_prior o =? old) then
     let* p := load (ll_prior o) in
     if ll_next p =? old then set_next (ll_prior o) (ll_next o) else st_ret tt
   else st_ret tt) >>>
  let* o := load old in
  (if negb (ll_next o =? 0) && negb (ll_next o =? old) then
     let* n := load (ll_next o) in
     if ll_prior n =? old then set_prior (ll_next o) (ll_prior o) else st_ret tt
   else st_ret tt) >>>
  set_next old old >>> set_prior old old.

Definition swap_link (pone ptwo : Z) : L unit :=
  let* one := load pone in
  if ll_next one =? ptwo then
    delete_link pone >>>
    let* one := load pone in
    insert_link ptwo pone (ll_struct one) LINK_INSET_AFTER
  else
    let* two := load ptwo in
    if ll_next two =? pone then
      delete_link ptwo >>>
      let* two := load ptwo in
      insert_link pone ptwo (ll_struct two) LINK_INSET_AFTER
    else
      let p1p := ll_prior one in
      let p2p := ll_prior two in
      delete_link pone >>>
      let* one := load pone in
      insert_link p2p pone (ll_struct one) LINK_INSET_AFTER >>>
      delete_link ptwo >>>
      let* two := load ptwo in
      insert_link p1p ptwo (ll_struct two) LINK_INSET_AFTER.

(** The loop visits links of the heap, so their number bounds it. *)
Fixpoint is_linked_loop (fuel : nat) (head entry pl : Z) : L Z :=
  match fuel with
  | O => fun _ => OutOfFuel
  | S fuel' =>
      if pl =? head then st_ret 0
      else if pl =? entry then st_ret 1
      else let* l := load pl in is_linked_loop fuel' head entry (ll_next l)
  end.

Definition is_linked (head entry : Z) : L Z :=
  let* h := st_get in
  let* hd := load head in
  is_linked_loop (S (size h)) head entry (ll_next hd).

Definition is_link_initialized (head : Z) : L Z :=
  let* hd := load head in
  st_ret (if negb (ll_prior hd =? head) || negb (ll_next hd =? head) then 1 else 0).

(** [get_next] and [get_prior] take the link by value: the address of the copy is not
    that of any link, and the second half of their test never holds. *)
Definition get_next (pl : list_link) : L Z :=
  if ll_next pl =? 0 then st_ret 0 else let* n := load (ll_next pl) in st_ret (ll_struct n).

Definition get_prior (pl : list_link) : L Z :=
  if ll_prior pl =? 0 then st_ret 0 else let* n := load (ll_prior pl) in st_ret (ll_struct n).

Definition list_move (from to : Z) : L unit :=
  let* f := load from in
  if ll_next f =? from then set_next to to >>> set_prior to to
  else
    set_next to (ll_next f) >>>
    let* t := load to in
    set_prior (ll_next t) to >>>
    let* f := load from in
    set_prior to (ll_prior f) >>>
    let* t := load to in
    set_next (ll_prior t) to >>>
    CLEAR_HEAD from.

(** A walk over the objects of a list with [GET_NEXT]; [link_of] gives the address of
    the link inside an object. *)
Fixpoint walk (fuel : nat) (link_of : Z -> Z) (step : list_link -> L Z) (pl : Z) : L (list Z) :=
  match fuel with
  | O => fun _ => OutOfFuel
  | S fuel' =>
      let* l := load pl in
      let* o := step l in
      if o =? 0 then st_ret []
      else let* os := walk fuel' link_of step (link_of o) in st_ret (o :: os)
  end.

(** ** What a list represents *)

Definition nxt (h : heap) (p : Z) : option Z := ll_next <$> h !! p.
Definition prv (h : heap) (p : Z) : option Z := ll_prior <$> h !! p.
Definition obj (h : heap) (p : Z) : option Z := ll_struct <$> h !! p.

Definition arc (h : heap) (a b : Z) : Prop := nxt h a = Some b /\ prv h b = Some a.

(** The links [p :: l] follow each other. *)
Fixpoint path (h : heap) (p : Z) (l : list Z) : Prop :=
  match l with [] => True | b :: l' => arc h p b /\ path h b l' end.

(** The links after [head], in order, back to [head]. *)
Definition is_list (h : heap) (head : Z) (l : list Z) : Prop :=
  NoDup (0 :: head :: l) /\ path h head (l ++ [head]).

(** The list at [head] holds the entries [es]: the links with their objects. *)
Definition holds (h : heap) (head : Z) (es : list (Z * Z)) : Prop :=
  is_list h head es.*1 /\ obj h head = Some 0 /\
  Forall (fun e => obj h e.1 = Some e.2 /\ e.2 <> 0) es.

(** A link on no list. *)
Definition detached (h : heap) (p : Z) : Prop := nxt h p = Some p /\ prv h p = Some p.

(** Nothing outside [ls] changed. *)
Definition only (ls : list Z) (h h' : heap) : Prop := forall x, x ∉ ls -> h' !! x = h !! x.

Lemma only_sub ls ls' h h' : (forall x, x ∈ ls -> x ∈ ls') -> only ls h h' -> only ls' h h'.
Proof. intros Hs Ho x Hx. apply Ho. auto. Qed.

Lemma only_trans ls h1 h2 h3 : only ls h1 h2 -> only ls h2 h3 -> only ls h1 h3.
Proof. intros H1 H2 x Hx. by rewrite H2, H1. Qed.

(** ** Running the operations *)

Lemma bind_load {A} p l (k : list_link -> L A) (h : heap) :
  h !! p = Some l -> (let* x := load p in k x) h = k l h.
Proof. intros E. unfold st_bind, load. by rewrite E. Qed.

Lemma bind_set_prior {A} p v (k : L A) (h : heap) :
  is_Some (h !! p) -> (set_prior p v >>> k) h = k (upd_prior p v h).
Proof. intros [l E]. unfold set_prior, st_bind, load, st_modify. by rewrite E. Qed.
Lemma bind_set_next {A} p v (k : L A) (h : heap) :
  is_Some (h !! p) -> (set_next p v >>> k) h = k (upd_next p v h).
Proof. intros [l E]. unfold set_next, st_bind, load, st_modify. by rewrite E. Qed.
Lemma bind_set_struct {A} p v (k : L A) (h : heap) :
  is_Some (h !! p) -> (set_struct p v >>> k) h = k (upd_struct p v h).
Proof. intros [l E]. unfold set_struct, st_bind, load, st_modify. by rewrite E. Qed.

Lemma bind_assoc {A B C} (m : L A) (k : A -> L B) (k' : B -> L C) h :
  st_bind (st_bind m k) k' h = st_bind m (fun a => st_bind (k a) k') h.
Proof. unfold st_bind. by destruct (m h). Qed.

Lemma set_next_ok p v (h : heap) : is_Some (h !! p) -> set_next p v h = Ret tt (upd_next p v h).
Proof. intros [l E]. unfold set_next, st_bind, load, st_modify. by rewrite E. Qed.
Lemma set_prior_ok p v (h : heap) : is_Some (h !! p) -> set_prior p v h = Ret tt (upd_prior p v h).
Proof. intros [l E]. unfold set_prior, st_bind, load, st_modify. by rewrite E. Qed.
Lemma set_struct_ok p v (h : heap) :
  is_Some (h !! p) -> set_struct p v h = Ret tt (upd_struct p v h).
Proof. intros [l E]. unfold set_struct, st_bind, load, st_modify. by rewrite E. Qed.

(** Looks a link up behind updates of other links. *)
Ltac look :=
  unfold upd_prior, upd_next, upd_struct;
  repeat first [rewrite lookup_alter_eq | rewrite lookup_alter_ne by congruence];
  simplify_option_eq; eauto.

Ltac alive := unfold upd_prior, upd_next, upd_struct; rewrite ?lookup_alter_is_Some; eauto.

Ltac run_load := erewrite bind_load by look; cbn [ll_prior ll_next ll_struct].
Ltac run_set :=
  first [rewrite bind_set_prior by alive | rewrite bind_set_next by alive
        | rewrite bind_set_struct by alive | rewrite set_prior_ok by alive
        | rewrite set_next_ok by alive | rewrite set_struct_ok by alive].

(** Reads the fields of a link behind the updates. *)
Ltac fields :=
  unfold nxt, prv, obj, upd_prior, upd_next, upd_struct; rewrite ?lookup_alter;
  repeat case_decide; subst;
  repeat match goal with H : ?h !! ?x = Some _ |- context [?h !! ?x] => rewrite H end;
  simpl; congruence.

(** The new link [n] sits between [a] and [b]; no other link changed. *)
Definition spliced (h h' : heap) (a n b o : Z) : Prop :=
  (forall x, nxt h' x = if decide (x = n) then Some b else if decide (x = a) then Some n else nxt h x) /\
  (forall x, prv h' x = if decide (x = n) then Some a else if decide (x = b) then Some n else prv h x) /\
  (forall x, obj h' x = if decide (x = n) then Some o else obj h x) /\
  only [a; n; b] h h'.

Ltac spliced_tac :=
  split; [intros x; fields|split; [intros x; fields|split; [intros x; fields|]]];
  intros x Hx; rewrite !not_elem_of_cons in Hx; destruct Hx as (? & ? & ? & _); fields.

Lemma insert_check_ok h old n o lo ln :
  o <> 0 -> old <> 0 -> h !! old = Some lo -> ll_prior lo <> 0 -> ll_next lo <> 0 ->
  h !! n = Some ln -> ll_prior ln = n -> ll_next ln = n ->
  insert_check old n o h = Ret tt h.
Proof.
  intros Ho Hold Eo Hp Hn En Pn Nn. unfold insert_check.
  rewrite (proj2 (Z.eqb_neq o 0)), (proj2 (Z.eqb_neq old 0)) by done. cbn [orb].
  rewrite (bind_load _ _ _ _ Eo), (proj2 (Z.eqb_neq _ 0) Hp), (proj2 (Z.eqb_neq _ 0) Hn). cbn [orb].
  by rewrite (bind_load _ _ _ _ En), Pn, Nn, Z.eqb_refl.
Qed.

Lemma arc_links h a b :
  arc h a b -> exists la lb, h !! a = Some la /\ h !! b = Some lb /\ ll_next la = b /\ ll_prior lb = a.
Proof.
  unfold arc, nxt, prv. intros [Ha Hb]. destruct (h !! a) as [la|], (h !! b) as [lb|]; simplify_eq/=.
  eauto 10.
Qed.

Lemma insert_link_spliced h a b n o pos p q :
  arc h a b -> prv h a = Some p -> nxt h b = Some q -> detached h n ->
  n <> a -> n <> b -> a <> 0 -> b <> 0 -> p <> 0 -> q <> 0 -> o <> 0 ->
  exists h', insert_link (if pos =? LINK_INSET_AFTER then a else b) n o pos h = Ret tt h'
    /\ spliced h h' a n b o.
Proof.
  intros Harc Hp Hq [Hn1 Hn2] Hna Hnb Ha0 Hb0 Hp0 Hq0 Ho.
  apply arc_links in Harc as (la & lb & Ea & Eb & Na & Pb).
  unfold nxt, prv in Hp, Hq, Hn1, Hn2. rewrite Ea in Hp. rewrite Eb in Hq.
  destruct (h !! n) as [ln|] eqn:En; [|done].
  injection Hp as Hp. injection Hq as Hq. injection Hn1 as Hn1. injection Hn2 as Hn2.
  unfold insert_link. destruct (pos =? LINK_INSET_AFTER).
  - unfold st_bind at 1. rewrite (insert_check_ok h a n o la ln) by congruence.
    rewrite bind_assoc. run_set. rewrite bind_assoc. run_load. rewrite bind_assoc. run_set.
    rewrite bind_assoc. run_load. rewrite Na.
    rewrite bind_assoc. run_set. run_set. run_set. eexists. split; [done|].
    rewrite (proj2 (Z.eqb_neq _ 0) Ho). cbn [negb].
    spliced_tac.
  - unfold st_bind at 1. rewrite (insert_check_ok h b n o lb ln) by congruence.
    rewrite bind_assoc. run_set. rewrite bind_assoc. run_load. rewrite bind_assoc. run_set.
    rewrite bind_assoc. run_load. rewrite Pb.
    rewrite bind_assoc. run_set. run_set. run_set. eexists. split; [done|].
    rewrite (proj2 (Z.eqb_neq _ 0) Ho). cbn [negb].
    spliced_tac.
Qed.

Lemma append_link_spliced h a b n o :
  arc h a b -> is_Some (h !! n) -> n <> a -> n <> b -> a <> 0 -> o <> 0 ->
  exists h', append_link b n o h = Ret tt h' /\ spliced h h' a n b o.
Proof.
  intros Harc [ln En] Hna Hnb Ha0 Ho.
  apply arc_links in Harc as (la & lb & Ea & Eb & Na & Pb).
  unfold append_link. run_set. run_load. rewrite Pb. run_set. run_set. run_set. run_load.
  rewrite Pb, (proj2 (Z.eqb_neq a 0) Ha0). cbn [negb]. run_set. eexists. split; [done|].
  rewrite (proj2 (Z.eqb_neq _ 0) Ho). cbn [negb]. spliced_tac.
Qed.

(** The link [n] is taken out from between [a] and [b]. *)
Definition unspliced (h h' : heap) (a n b : Z) : Prop :=
  (forall x, nxt h' x = if decide (x = n) then Some n else if decide (x = a) then Some b else nxt h x) /\
  (forall x, prv h' x = if decide (x = n) then Some n else if decide (x = b) then Some a else prv h x) /\
  (forall x, obj h' x = obj h x) /\
  only [a; n; b] h h'.

Lemma delete_link_unspliced h a n b :
  arc h a n -> arc h n b -> n <> a -> n <> b -> a <> 0 -> b <> 0 ->
  exists h', delete_link n h = Ret tt h' /\ unspliced h h' a n b.
Proof.
  intros Han Hnb Hna Hnb' Ha0 Hb0.
  apply arc_links in Han as (la & ln & Ea & En & Na & Pn).
  apply arc_links in Hnb as (ln' & lb & En' & Eb & Nn & Pb). rewrite En in En'. injection En' as <-.
  unfold delete_link. run_load.
  rewrite Pn, (proj2 (Z.eqb_neq a 0) Ha0), (proj2 (Z.eqb_neq a n)) by congruence. cbn [negb andb].
  rewrite bind_assoc, (bind_load _ _ _ _ Ea), Na, Z.eqb_refl. run_set.
  rewrite (bind_load _ ln) by look.
  rewrite Nn, (proj2 (Z.eqb_neq b 0) Hb0), (proj2 (Z.eqb_neq b n)) by congruence. cbn [negb andb].
  rewrite bind_assoc. destruct (decide (a = b)) as [Hab|Hab].
  - rewrite (bind_load b (mk_list_link (ll_prior lb) b (ll_struct lb))) by (unfold upd_next; rewrite Hab, lookup_alter_eq, Eb; simpl; congruence).
    cbn [ll_prior]. rewrite Pb, Z.eqb_refl, Pn. run_set. run_set. run_set.
    eexists. split; [done|]. spliced_tac.
  - rewrite (bind_load b lb) by look. rewrite Pb, Z.eqb_refl, Pn. run_set. run_set. run_set.
    eexists. split; [done|]. spliced_tac.
Qed.

(** ** Paths *)

(** The last of [p :: l], and the first of [l ++ [p]]. *)
Fixpoint lst (p : Z) (l : list Z) : Z := match l with [] => p | b :: l' => lst b l' end.
Definition frt (p : Z) (l : list Z) : Z := match l with [] => p | b :: _ => b end.

Lemma lst_elem p l : lst p l ∈ p :: l.
Proof.
  revert p. induction l as [|b l IH]; intros p; simpl; [apply list_elem_of_here|].
  apply list_elem_of_further, IH.
Qed.
Lemma lst_snoc p l x : lst p (l ++ [x]) = x.
Proof. revert p. induction l; simpl; auto. Qed.
Lemma lst_app p l1 l2 : lst p (l1 ++ l2) = lst (lst p l1) l2.
Proof. revert p. induction l1; simpl; auto. Qed.
Lemma frt_elem p l : frt p l ∈ p :: l.
Proof. destruct l; set_solver. Qed.

Lemma path_app h p l1 l2 : path h p (l1 ++ l2) <-> path h p l1 /\ path h (lst p l1) l2.
Proof. revert p. induction l1 as [|b l1 IH]; intros p; simpl; [tauto|]. rewrite IH. tauto. Qed.

Lemma path_frame h h' p l :
  NoDup (p :: l) -> path h p l ->
  (forall x, x ∈ p :: l -> x <> lst p l -> nxt h' x = nxt h x) ->
  (forall x, x ∈ l -> prv h' x = prv h x) -> path h' p l.
Proof.
  revert p. induction l as [|b l IH]; intros p Hnd Hp Hn Hr; [done|].
  apply NoDup_cons in Hnd as [Hnin Hnd]. destruct Hp as [[Ha Hb] Hp]. split.
  - split; [rewrite Hn|rewrite Hr]; [done|apply list_elem_of_here| |done|apply list_elem_of_here].
    simpl. intros ->. apply Hnin, lst_elem.
  - apply IH; [done|done| |]; intros x Hx; [intros Hl; apply Hn|apply Hr]; [|exact Hl|];
      by apply list_elem_of_further.
Qed.

Lemma snoc_cut (head : Z) l : exists r, l ++ [head] = frt head l :: r.
Proof. destruct l; simpl; eauto. Qed.

(** Cutting the ring at a seam leaves two paths that survive a change at the seam. *)
Lemma ring_pieces h h' head l1 l2 n r :
  NoDup (n :: head :: l1 ++ l2) -> l2 ++ [head] = frt head l2 :: r ->
  path h head l1 -> path h (frt head l2) r ->
  (forall x, x <> n -> x <> lst head l1 -> nxt h' x = nxt h x) ->
  (forall x, x <> n -> x <> frt head l2 -> prv h' x = prv h x) ->
  path h' head l1 /\ path h' (frt head l2) r.
Proof.
  intros Hnd Er H1 H2 Hn Hp. rewrite !NoDup_cons, NoDup_app in Hnd.
  destruct Hnd as (Hn1 & Hh & Hd1 & Hdisj & Hd2).
  rewrite not_elem_of_cons, not_elem_of_app in Hn1. destruct Hn1 as (Hnh & Hn1 & Hn2).
  rewrite not_elem_of_app in Hh. destruct Hh as [Hh1 Hh2].
  pose proof (frt_elem head l2) as Hf. pose proof (lst_elem head l1) as Hl.
  rewrite elem_of_cons in Hf, Hl. split.
  - apply (path_frame h); [by constructor|done| |]; intros x Hx.
    + intros ?. apply Hn; [|done]. apply elem_of_cons in Hx as [->|Hx]; congruence.
    + apply Hp; [congruence|]. intros ->. destruct Hf as [Hf|Hf]; [congruence|by apply (Hdisj _ Hx)].
  - assert (Hnd2 : NoDup (frt head l2 :: r)).
    { rewrite <- Er. apply NoDup_app. split; [done|]. split; [|apply NoDup_singleton].
      intros x Hx Hx'%list_elem_of_singleton. congruence. }
    assert (Hlr : lst (frt head l2) r = head).
    { change (lst (frt head l2) r) with (lst head (frt head l2 :: r)). by rewrite <- Er, lst_snoc. }
    apply (path_frame h); [done|done| |]; intros x Hx.
    + rewrite Hlr. intros Hne. rewrite <- Er in Hx. apply elem_of_app in Hx as [Hx|Hx%list_elem_of_singleton];
        [|done].
      apply Hn; [congruence|]. intros ->. destruct Hl as [Hl|Hl]; [done|by apply (Hdisj _ Hl)].
    + assert (Hx' : x ∈ l2 ++ [head]) by (rewrite Er; by apply list_elem_of_further).
      apply NoDup_cons in Hnd2 as [Hfr _]. apply Hp; [|by intros ->].
      apply elem_of_app in Hx' as [?|?%list_elem_of_singleton]; congruence.
Qed.

Lemma NoDup_middle (l1 l2 : list Z) n : NoDup (l1 ++ n :: l2) <-> NoDup (n :: l1 ++ l2).
Proof. by rewrite <- (Permutation_middle l1 l2 n). Qed.

Lemma is_list_spliced h h' head l1 l2 n o :
  is_list h head (l1 ++ l2) -> n ∉ 0 :: head :: l1 ++ l2 ->
  spliced h h' (lst head l1) n (frt head l2) o -> is_list h' head (l1 ++ n :: l2).
Proof.
  intros [Hnd Hp] Hnin (Hn & Hr & _). destruct (snoc_cut head l2) as [r Er].
  rewrite <- app_assoc, Er, path_app in Hp. destruct Hp as [H1 [_ H2]].
  split; [by apply (NoDup_middle (0 :: head :: l1)); constructor|].
  apply NoDup_cons in Hnd as [_ Hnd]. apply not_elem_of_cons in Hnin as [_ Hnin].
  destruct (ring_pieces h h' head l1 l2 n r) as [G1 G2]; [by constructor|done..| | |].
  { intros x ??. rewrite Hn. by rewrite !decide_False. }
  { intros x ??. rewrite Hr. by rewrite !decide_False. }
  pose proof (lst_elem head l1) as Hl. pose proof (frt_elem head l2) as Hf.
  assert (n <> lst head l1) by (intros E; apply Hnin; rewrite E; set_solver +Hl).
  assert (n <> frt head l2) by (intros E; apply Hnin; rewrite E; set_solver +Hf).
  rewrite <- app_assoc. simpl. rewrite Er, path_app. split; [done|].
  repeat split; try done; rewrite ?Hn, ?Hr; repeat case_decide; congruence.
Qed.

Lemma is_list_unspliced h h' head l1 l2 n :
  is_list h head (l1 ++ n :: l2) ->
  unspliced h h' (lst head l1) n (frt head l2) -> is_list h' head (l1 ++ l2).
Proof.
  intros [Hnd Hp] (Hn & Hr & _). destruct (snoc_cut head l2) as [r Er].
  rewrite <- app_assoc in Hp. simpl in Hp. rewrite Er, path_app in Hp.
  destruct Hp as [H1 (_ & _ & H2)]. apply (NoDup_middle (0 :: head :: l1)) in Hnd.
  apply NoDup_cons in Hnd as [Hnin Hnd]. split; [done|]. simpl in Hnin, Hnd.
  apply NoDup_cons in Hnd as [_ Hnd]. apply not_elem_of_cons in Hnin as [_ Hnin].
  destruct (ring_pieces h h' head l1 l2 n r) as [G1 G2]; [by constructor|done..| | |].
  { intros x ??. rewrite Hn. by rewrite !decide_False. }
  { intros x ??. rewrite Hr. by rewrite !decide_False. }
  pose proof (lst_elem head l1) as Hl. pose proof (frt_elem head l2) as Hf.
  assert (lst head l1 <> n) by (intros E; apply Hnin; rewrite <- E; set_solver +Hl).
  assert (frt head l2 <> n) by (intros E; apply Hnin; rewrite <- E; set_solver +Hf).
  rewrite <- app_assoc, Er, path_app. split; [done|].
  repeat split; try done; rewrite ?Hn, ?Hr; repeat case_decide; congruence.
Qed.

(** ** Lists of objects *)

Lemma holds_frame h h' head es :
  holds h head es -> (forall x, x ∈ head :: es.*1 -> h' !! x = h !! x) -> holds h' head es.
Proof.
  intros ([Hnd Hp] & Ho & Hes) Hf. split; [split; [done|]|split].
  - assert (Hall : forall x, x ∈ head :: es.*1 ++ [head] -> h' !! x = h !! x)
      by (intros x Hx; apply Hf; set_solver +Hx). clear Hnd Hes Ho Hf. revert Hp Hall.
    generalize (es.*1 ++ [head]). generalize head. intros p l. revert p.
    induction l as [|b l IH]; intros p; [done|]. intros [[Ha Hb] Hp] Hall. split.
    + unfold arc, nxt, prv in *. rewrite !Hall by set_solver +. done.
    + apply IH; [done|]. intros x Hx. apply Hall. by apply list_elem_of_further.
  - unfold obj in *. rewrite Hf; [done|]. apply list_elem_of_here.
  - rewrite Forall_forall in *. intros [p o] He. unfold obj in *. rewrite Hf; [by apply Hes|].
    apply list_elem_of_further, list_elem_of_fmap. by exists (p, o).
Qed.

Lemma entries_kept h h' (es : list (Z * Z)) :
  (forall x, x ∈ es.*1 -> obj h' x = obj h x) ->
  Forall (fun e => obj h e.1 = Some e.2 /\ e.2 <> 0) es ->
  Forall (fun e => obj h' e.1 = Some e.2 /\ e.2 <> 0) es.
Proof.
  rewrite !Forall_forall. intros Hk Hes [p o] He. rewrite Hk; [by apply Hes|].
  apply list_elem_of_fmap. by exists (p, o).
Qed.

Lemma path_total h p l q :
  path h p (l ++ [q]) ->
  (forall x, x ∈ p :: l -> exists y, nxt h x = Some y /\ y ∈ l ++ [q]) /\
  (forall x, x ∈ l ++ [q] -> exists y, prv h x = Some y /\ y ∈ p :: l).
Proof.
  revert p. induction l as [|b l IH]; intros p; simpl.
  - intros [[Ha Hb] _]. split; intros x ->%list_elem_of_singleton; eexists;
      (split; [done|apply list_elem_of_here]).
  - intros [[Ha Hb] Hp]. destruct (IH b Hp) as [Hn Hr].
    split; intros x Hx; apply elem_of_cons in Hx as [->|Hx].
    + exists b. split; [done|apply list_elem_of_here].
    + destruct (Hn x Hx) as (y & ? & ?). exists y. split; [done|by apply list_elem_of_further].
    + exists p. split; [done|apply list_elem_of_here].
    + destruct (Hr x Hx) as (y & ? & ?). exists y. split; [done|by apply list_elem_of_further].
Qed.

(** Every link of a list has neighbours on the list. *)
Lemma is_list_total h head l x :
  is_list h head l -> x ∈ head :: l ->
  exists y z, nxt h x = Some y /\ prv h x = Some z /\ y ∈ head :: l /\ z ∈ head :: l.
Proof.
  intros [Hnd Hp] Hx. destruct (path_total h head l head Hp) as [Hn Hr].
  assert (Hsn : forall y, y ∈ l ++ [head] <-> y ∈ head :: l)
    by (intros; by rewrite (comm (++) l [head])).
  destruct (Hn x Hx) as (y & ? & Hy). destruct (Hr x) as (z & ? & ?); [by apply Hsn|].
  exists y, z. rewrite <- (Hsn y). done.
Qed.

Lemma is_list_nonzero h head l x : is_list h head l -> x ∈ head :: l -> x <> 0.
Proof. intros [Hnd _] Hx ->. by apply NoDup_cons in Hnd as [? _]. Qed.

(** The seam between two parts of a list. *)
Lemma seam h head l1 l2 :
  is_list h head (l1 ++ l2) ->
  arc h (lst head l1) (frt head l2) /\ lst head l1 <> 0 /\ frt head l2 <> 0 /\
  (exists p, prv h (lst head l1) = Some p /\ p <> 0) /\
  (exists q, nxt h (frt head l2) = Some q /\ q <> 0).
Proof.
  intros Hl. pose proof (lst_elem head l1) as Ha. pose proof (frt_elem head l2) as Hb.
  assert (Ha' : lst head l1 ∈ head :: l1 ++ l2) by set_solver +Ha.
  assert (Hb' : frt head l2 ∈ head :: l1 ++ l2) by set_solver +Hb.
  split; [|split; [by eapply is_list_nonzero|split; [by eapply is_list_nonzero|split]]].
  - destruct Hl as [_ Hp]. destruct (snoc_cut head l2) as [r Er].
    rewrite <- app_assoc, Er, path_app in Hp. by destruct Hp as [_ [? _]].
  - destruct (is_list_total _ _ _ _ Hl Ha') as (y & z & _ & ? & _ & ?). exists z.
    split; [done|by eapply is_list_nonzero].
  - destruct (is_list_total _ _ _ _ Hl Hb') as (y & z & ? & _ & ? & _). exists y.
    split; [done|by eapply is_list_nonzero].
Qed.

(** ** The operations on lists *)

Lemma holds_spliced h h' head es1 es2 n o :
  holds h head (es1 ++ es2) -> n ∉ 0 :: head :: (es1 ++ es2).*1 -> o <> 0 ->
  spliced h h' (lst head es1.*1) n (frt head es2.*1) o ->
  holds h' head (es1 ++ (n, o) :: es2) /\ only (n :: head :: (es1 ++ es2).*1) h h'.
Proof.
  intros (Hl & Ho & Hes) Hnin Hne Hs. rewrite fmap_app in *.
  pose proof (lst_elem head es1.*1) as Hf. pose proof (frt_elem head es2.*1) as Hb.
  destruct (Hs) as (_ & _ & Hobj & Honly). rewrite !not_elem_of_cons in Hnin.
  destruct Hnin as (Hn0 & Hnh & Hnin).
  assert (Hk : forall x, x <> n -> obj h' x = obj h x) by (intros; by rewrite Hobj, decide_False).
  split; [split; [|split]|].
  - rewrite fmap_app. simpl. eapply is_list_spliced; [done| |done]. by rewrite !not_elem_of_cons.
  - by rewrite Hk.
  - apply Forall_app in Hes as [Hes1 Hes2]. rewrite not_elem_of_app in Hnin. destruct Hnin as [Hn1 Hn2].
    apply Forall_app. split; [|constructor]; [|by rewrite Hobj, decide_True|];
      apply (entries_kept h); try done; intros x Hx; apply Hk; intros ->; done.
  - intros x Hx. apply Honly. rewrite !not_elem_of_cons, not_elem_of_app in *.
    destruct Hx as (? & ? & ? & ?). repeat split; [|done| |apply not_elem_of_nil]; intros ->;
      apply elem_of_cons in Hf, Hb; destruct_or?; done.
Qed.

Lemma append_link_holds h head es n o :
  holds h head es -> n ∉ 0 :: head :: es.*1 -> is_Some (h !! n) -> o <> 0 ->
  exists h', append_link head n o h = Ret tt h' /\ holds h' head (es ++ [(n, o)])
    /\ only (n :: head :: es.*1) h h'.
Proof.
  intros Hh Hn Hal Ho. rewrite <- (app_nil_r es) in Hh, Hn. pose proof Hh as (Hl & _).
  rewrite fmap_app in Hl. destruct (seam _ _ _ _ Hl) as (Ha & Ha0 & Hb0 & _).
  pose proof (lst_elem head es.*1) as Hf. rewrite app_nil_r in Hn. simpl in *.
  destruct (append_link_spliced h (lst head es.*1) head n o) as (h' & E & Hs); [done..| | |done|done|].
  { intros ->. set_solver +Hn Hf. }
  { set_solver +Hn. }
  exists h'. split; [done|].
  destruct (holds_spliced h h' head es [] n o) as [? Hon]; try done; by rewrite app_nil_r in *.
Qed.

Lemma insert_link_holds h head es1 es2 n o pos :
  holds h head (es1 ++ es2) -> n ∉ 0 :: head :: (es1 ++ es2).*1 -> detached h n -> o <> 0 ->
  exists h', insert_link (if pos =? LINK_INSET_AFTER then lst head es1.*1 else frt head es2.*1) n o pos h
      = Ret tt h'
    /\ holds h' head (es1 ++ (n, o) :: es2) /\ only (n :: head :: (es1 ++ es2).*1) h h'.
Proof.
  intros Hh Hn Hd Ho. pose proof Hh as (Hl & _).
  rewrite fmap_app in Hl. destruct (seam _ _ _ _ Hl) as (Ha & Ha0 & Hb0 & (p & Hp & Hp0) & (q & Hq & Hq0)).
  pose proof (lst_elem head es1.*1) as Hf. pose proof (frt_elem head es2.*1) as Hb.
  rewrite fmap_app in Hn.
  destruct (insert_link_spliced h (lst head es1.*1) (frt head es2.*1) n o pos p q)
    as (h' & E & Hs); try done.
  { intros ->. set_solver +Hn Hf. }
  { intros ->. set_solver +Hn Hb. }
  exists h'. split; [done|]. apply holds_spliced; try done. by rewrite fmap_app.
Qed.

Lemma delete_link_holds h head es1 es2 n o :
  holds h head (es1 ++ (n, o) :: es2) ->
  exists h', delete_link n h = Ret tt h' /\ holds h' head (es1 ++ es2)
    /\ detached h' n /\ obj h' n = Some o /\ only (n :: head :: (es1 ++ es2).*1) h h'.
Proof.
  intros (Hl & Ho & Hes). rewrite !fmap_app in *. simpl in Hl.
  pose proof (lst_elem head es1.*1) as Hf. pose proof (frt_elem head es2.*1) as Hb.
  destruct (seam _ _ _ _ Hl) as (Ha & Ha0 & _).
  assert (Hl' : is_list h head ((es1.*1 ++ [n]) ++ es2.*1)) by (by rewrite <- app_assoc).
  destruct (seam _ _ _ _ Hl') as (Hc & _ & Hb0 & _). rewrite lst_snoc in Hc. simpl in Ha.
  destruct (Hl) as [Hnd _]. apply (NoDup_middle (0 :: head :: es1.*1)) in Hnd.
  apply NoDup_cons in Hnd as [Hnin _]. simpl in Hnin.
  destruct (delete_link_unspliced h (lst head es1.*1) n (frt head es2.*1)) as (h' & E & Hu); try done.
  { intros ->. set_solver +Hnin Hf. }
  { intros ->. set_solver +Hnin Hb. }
  exists h'. split; [done|]. destruct (Hu) as (Hn & Hr & Hobj & Honly).
  apply Forall_app in Hes as [Hes1 Hes2]. apply Forall_cons in Hes2 as [[Hno _] Hes2].
  split; [|split; [|split]].
  - split; [rewrite fmap_app; by eapply is_list_unspliced|]. split; [by rewrite Hobj|].
    apply Forall_app. split; (eapply entries_kept; [|done]); intros; apply Hobj.
  - split; [rewrite Hn|rewrite Hr]; by rewrite decide_True.
  - by rewrite Hobj.
  - intros x Hx. apply Honly. rewrite !not_elem_of_cons, not_elem_of_app in *.
    destruct Hx as (? & ? & ? & ?). repeat split; [|done| |apply not_elem_of_nil]; intros ->;
      apply elem_of_cons in Hf, Hb; destruct_or?; done.
Qed.

Lemma holds_load h head es1 es2 n o :
  holds h head (es1 ++ (n, o) :: es2) ->
  exists l, h !! n = Some l /\ ll_struct l = o /\ ll_prior l = lst head es1.*1
    /\ ll_next l = frt head es2.*1 /\ o <> 0 /\ n ∉ 0 :: head :: (es1 ++ es2).*1.
Proof.
  intros (Hl & _ & Hes). rewrite fmap_app in *. simpl in *.
  destruct (seam _ _ _ _ Hl) as ([_ Ha] & _).
  assert (Hl' : is_list h head ((es1.*1 ++ [n]) ++ es2.*1)) by (by rewrite <- app_assoc).
  destruct (seam _ _ _ _ Hl') as ([Hc _] & _). rewrite lst_snoc in Hc. simpl in Ha.
  apply Forall_app in Hes as [_ Hes]. apply Forall_cons in Hes as [[Ho ?] _].
  destruct Hl as [Hnd _]. apply (NoDup_middle (0 :: head :: es1.*1)) in Hnd.
  apply NoDup_cons in Hnd as [? _]. unfold nxt, prv, obj in *. simpl in Ho.
  destruct (h !! n) as [l|]; [|done]. simplify_eq/=. by exists l.
Qed.

(** Taking a link out and putting it back elsewhere, the step of [swap_link]. *)
Lemma relink h head es1 es2 fs1 fs2 n o {A} (k : L A) :
  holds h head (es1 ++ (n, o) :: es2) -> es1 ++ es2 = fs1 ++ fs2 ->
  exists h', (delete_link n >>> let* l := load n in
      insert_link (lst head fs1.*1) n (ll_struct l) LINK_INSET_AFTER >>> k) h = k h'
    /\ holds h' head (fs1 ++ (n, o) :: fs2) /\ only (n :: head :: (es1 ++ es2).*1) h h'.
Proof.
  intros Hh Ef. destruct (holds_load _ _ _ _ _ _ Hh) as (l & _ & _ & _ & _ & Ho & Hn).
  destruct (delete_link_holds _ _ _ _ _ _ Hh) as (h1 & E1 & Hh1 & Hd & Hobj & Hon1).
  rewrite Ef in Hh1, Hn.
  destruct (insert_link_holds h1 head fs1 fs2 n o LINK_INSET_AFTER) as (h2 & E2 & Hh2 & Hon2); try done.
  exists h2. unfold st_bind at 1. rewrite E1. unfold obj in Hobj.
  destruct (h1 !! n) as [l1|] eqn:El; [|done]. rewrite (bind_load _ _ _ _ El).
  injection Hobj as ->. unfold st_bind. rewrite Z.eqb_refl in E2. rewrite E2.
  split; [done|]. split; [done|]. rewrite Ef in *.
  intros x Hx. rewrite Hon2, Hon1; done.
Qed.

Lemma relink_last h head es1 es2 fs1 fs2 n o :
  holds h head (es1 ++ (n, o) :: es2) -> es1 ++ es2 = fs1 ++ fs2 ->
  exists h', (delete_link n >>> let* l := load n in
      insert_link (lst head fs1.*1) n (ll_struct l) LINK_INSET_AFTER) h = Ret tt h'
    /\ holds h' head (fs1 ++ (n, o) :: fs2) /\ only (n :: head :: (es1 ++ es2).*1) h h'.
Proof.
  intros Hh Ef. destruct (relink h head es1 es2 fs1 fs2 n o (st_ret tt) Hh Ef) as (h' & E & ?).
  exists h'. split; [|done]. etransitivity; [|exact E]. unfold st_bind, st_ret.
  destruct (delete_link n h) as [? h1| |]; [|done..]. destruct (load n h1) as [l h2| |]; [|done..].
  by destruct (insert_link _ _ _ _ h2) as [[] ?| |].
Qed.

Lemma frt_app (head : Z) l1 l2 : frt head (l1 ++ l2) = frt (frt head l2) l1.
Proof. by destruct l1. Qed.

(** In either order of the arguments the two entries change places. *)
Lemma swap_link_holds h head es1 es2 es3 p q op oq :
  holds h head (es1 ++ (p, op) :: es2 ++ (q, oq) :: es3) ->
  exists h1 h2, swap_link p q h = Ret tt h1 /\ swap_link q p h = Ret tt h2
    /\ holds h1 head (es1 ++ (q, oq) :: es2 ++ (p, op) :: es3)
    /\ holds h2 head (es1 ++ (q, oq) :: es2 ++ (p, op) :: es3)
    /\ only (head :: (es1 ++ (p, op) :: es2 ++ (q, oq) :: es3).*1) h h1
    /\ only (head :: (es1 ++ (p, op) :: es2 ++ (q, oq) :: es3).*1) h h2.
Proof.
  intros Hh. assert (Hh' : holds h head ((es1 ++ (p, op) :: es2) ++ (q, oq) :: es3)) by (by rewrite <- app_assoc).
  destruct (holds_load _ _ _ _ _ _ Hh) as (lp & Ep & Sp & Pp & Np & Op & Inp).
  destruct (holds_load _ _ _ _ _ _ Hh') as (lq & Eq & Sq & Pq & Nq & Oq & Inq).
  rewrite ?fmap_app in *. simpl in *. rewrite ?fmap_app in *. simpl in *.
  assert (Hqp : q <> p) by (intros ->; set_solver +Inp).
  assert (Hnq : ll_next lq <> p).
  { rewrite Nq. pose proof (frt_elem head es3.*1) as Hf. intros E. rewrite E in Hf. set_solver +Hf Inp. }
  unfold swap_link. rewrite (bind_load _ _ _ _ Ep), !(bind_load _ _ _ _ Eq).
  rewrite (proj2 (Z.eqb_neq _ _) Hnq), (bind_load _ _ _ _ Ep).
  destruct es2 as [|[m om] es2].
  - simpl in Np. rewrite Np, Z.eqb_refl.
    destruct (relink_last h head es1 ((q, oq) :: es3) (es1 ++ [(q, oq)]) es3 p op)
      as (h1 & E1 & Hh1 & Ho1); [done|by rewrite <- app_assoc|].
    rewrite fmap_app in E1. simpl in E1. rewrite lst_snoc in E1. rewrite <- app_assoc in Hh1.
    exists h1, h1. do 4 (split; [done|]).
    split; (eapply only_sub; [|exact Ho1]); intros x; rewrite ?fmap_app; simpl;
      repeat rewrite ?elem_of_cons, ?elem_of_app; tauto.
  - simpl in Np. rewrite Np, (proj2 (Z.eqb_neq m q)) by (intros ->; set_solver +Inq).
    rewrite (bind_load _ _ _ _ Eq), (proj2 (Z.eqb_neq _ _) Hnq), Pp, Pq.
    set (es := (m, om) :: es2) in *. set (z := lst head _).
    assert (Hz : lst head (es1 ++ es).*1 = z /\ lst head (es1 ++ (q, oq) :: es).*1 = z)
      by (unfold z, es; rewrite !fmap_app, !lst_app; done).
    destruct Hz as [Hz1 Hz2].
    destruct (relink h head es1 (es ++ (q, oq) :: es3) (es1 ++ es) ((q, oq) :: es3) p op
      (delete_link q >>> let* l := load q in insert_link (lst head es1.*1) q (ll_struct l) LINK_INSET_AFTER))
      as (h1 & E1 & Hh1 & Ho1); [done|by rewrite <- app_assoc|].
    destruct (relink_last h1 head (es1 ++ es ++ [(p, op)]) es3 es1 (es ++ (p, op) :: es3) q oq)
      as (h2 & E2 & Hh2 & Ho2); [by rewrite <- !app_assoc in *|by rewrite <- !app_assoc|].
    destruct (relink h head (es1 ++ (p, op) :: es) es3 es1 ((p, op) :: es ++ es3) q oq
      (delete_link p >>> let* l := load p in insert_link (lst head (es1 ++ (q, oq) :: es).*1) p
        (ll_struct l) LINK_INSET_AFTER))
      as (h3 & E3 & Hh3 & Ho3); [done|by rewrite <- app_assoc|].
    destruct (relink_last h3 head (es1 ++ [(q, oq)]) (es ++ es3) (es1 ++ (q, oq) :: es) es3 p op)
      as (h4 & E4 & Hh4 & Ho4); [by rewrite <- app_assoc|by rewrite <- !app_assoc|].
    rewrite Hz1 in E1. rewrite Hz2 in E3, E4. exists h2, h4. rewrite E1, E3.
    split; [done|]. split; [done|]. split; [done|]. split; [by rewrite <- app_assoc in Hh4|].
    split; [apply (only_trans _ _ h1)|apply (only_trans _ _ h3)];
      (eapply only_sub; [|eassumption]); intros x;
      change (list_fmap (Z * Z)%type Z fst es3) with es3.*1; repeat rewrite ?fmap_app, ?fmap_cons, ?fmap_nil; cbn [fst];
      repeat rewrite ?elem_of_cons, ?elem_of_app, ?elem_of_nil; tauto.
Qed.

Lemma CLEAR_HEAD_ok h e : is_Some (h !! e) -> CLEAR_HEAD e h = Ret tt (<[e := mk_list_link e e 0]> h).
Proof.
  intros [l El]. unfold CLEAR_HEAD. run_set. run_set. run_set. f_equal. apply map_eq. intros x.
  unfold upd_prior, upd_next, upd_struct. destruct (decide (e = x)) as [->|].
  - by rewrite !lookup_alter_eq, lookup_insert_eq, El.
  - by rewrite !lookup_alter_ne, lookup_insert_ne.
Qed.

Lemma holds_empty h head : head <> 0 -> h !! head = Some (mk_list_link head head 0) -> holds h head [].
Proof.
  intros Hh E. split; [split|split].
  - constructor; [set_solver +Hh|apply NoDup_singleton].
  - simpl. unfold arc, nxt, prv. by rewrite E.
  - unfold obj. by rewrite E.
  - constructor.
Qed.

Lemma holds_empty_inv h head : holds h head [] -> h !! head = Some (mk_list_link head head 0) /\ head <> 0.
Proof.
  intros ([Hnd [[Hn Hp] _]] & Ho & _). unfold nxt, prv, obj in *. simpl in *.
  destruct (h !! head) as [[a b c]|]; simplify_eq/=. split; [done|].
  intros ->. apply NoDup_cons in Hnd as [Hnd _]. set_solver +Hnd.
Qed.

(** A path can be moved to another head: its interior is untouched, the ends are relinked. *)
Lemma path_rehead h h' from to l :
  NoDup (from :: to :: l) -> l <> [] -> path h from (l ++ [from]) ->
  nxt h' to = Some (frt from l) -> prv h' to = Some (lst from l) ->
  (forall x, x ∈ l -> nxt h' x = if decide (x = lst from l) then Some to else nxt h x) ->
  (forall x, x ∈ l -> prv h' x = if decide (x = frt from l) then Some to else prv h x) ->
  path h' to (l ++ [to]).
Proof.
  intros Hnd Hne Hp Hnt Hpt Hn Hr. destruct l as [|b l]; [done|]. clear Hne. simpl in *.
  apply NoDup_cons in Hnd as [_ Hnd]. apply NoDup_cons in Hnd as [_ Hnd].
  destruct Hp as [_ Hp]. rewrite path_app in Hp. destruct Hp as [Hp _].
  assert (Hb : b ∈ b :: l) by apply list_elem_of_here.
  split; [split; [done|by rewrite Hr, decide_True]|]. rewrite path_app. split.
  - apply (path_frame h); [done|done| |]; intros x Hx; [intros Hl|];
      [rewrite Hn by done|rewrite Hr by (by apply list_elem_of_further)]; rewrite decide_False; try done.
    intros ->. by apply NoDup_cons in Hnd as [? _].
  - split; [split; [|done]|done]. rewrite Hn by apply lst_elem. by rewrite decide_True.
Qed.

(** The ring from [a] to [z] has changed heads. *)
Definition moved (h h' : heap) (from to a z : Z) : Prop :=
  h' !! from = Some (mk_list_link from from 0) /\
  (forall x, x <> from -> nxt h' x =
     if decide (x = z) then Some to else if decide (x = to) then Some a else nxt h x) /\
  (forall x, x <> from -> prv h' x =
     if decide (x = a) then Some to else if decide (x = to) then Some z else prv h x) /\
  (forall x, x <> from -> obj h' x = obj h x) /\
  only [from; to; a; z] h h'.

Lemma nodup3 (x y z : Z) : y <> x -> x <> z -> y <> z -> NoDup [x; y; z].
Proof.
  intros. rewrite !NoDup_cons, !not_elem_of_cons.
  repeat split; auto using not_elem_of_nil, NoDup_nil_2.
Qed.

Lemma list_move_run h from to lf la lz lt :
  h !! from = Some lf -> h !! to = Some lt -> h !! ll_next lf = Some la -> h !! ll_prior lf = Some lz ->
  NoDup [from; to; ll_next lf] -> NoDup [from; to; ll_prior lf] ->
  exists h', list_move from to h = Ret tt h' /\ moved h h' from to (ll_next lf) (ll_prior lf).
Proof.
  intros Ef Et Ea Ez Na Nz. set (a := ll_next lf) in *. set (z := ll_prior lf) in *.
  assert (from <> to /\ a <> to /\ z <> to /\ z <> from /\ a <> from) as (? & ? & ? & ? & ?).
  { rewrite !NoDup_cons, !not_elem_of_cons in Na, Nz. destruct_and?. repeat split; congruence. }
  unfold list_move. rewrite (bind_load _ _ _ _ Ef). fold a z.
  rewrite (proj2 (Z.eqb_neq a from)) by done.
  run_set. erewrite bind_load by (unfold upd_next; rewrite lookup_alter_eq, Et; reflexivity).
  cbn [ll_next]. run_set.
  rewrite (bind_load from lf) by (unfold upd_next, upd_prior; rewrite !lookup_alter_ne by done; done).
  fold z. run_set.
  erewrite (bind_load to) by (unfold upd_next, upd_prior;
    rewrite lookup_alter_eq, lookup_alter_ne, lookup_alter_eq, Et by done; reflexivity).
  cbn [ll_prior]. run_set. rewrite CLEAR_HEAD_ok by alive. eexists. split; [done|].
  split; [by rewrite lookup_insert_eq|].
  split; [|split; [|split]]; [intros x Hx; unfold nxt, prv, obj; rewrite lookup_insert_ne by done; fields..|].
  intros x Hx. rewrite !not_elem_of_cons in Hx. destruct Hx as (? & ? & ? & ? & _).
  rewrite lookup_insert_ne by done. fields.
Qed.

Lemma moved_holds h h' from to e es z :
  holds h from (e :: es) -> holds h to [] -> to ∉ 0 :: from :: (e :: es).*1 ->
  z = lst e.1 es.*1 -> moved h h' from to e.1 z ->
  holds h' to (e :: es) /\ holds h' from [] /\ only (to :: from :: (e :: es).*1) h h'.
Proof.
  intros (Hl & _ & Hes) Ht Hto -> (Ef & Hn & Hp & Ho & Hon).
  destruct (holds_empty_inv _ _ Ht) as [Et Ht0]. pose proof Hl as [Hnd Hpath].
  apply NoDup_cons in Hnd as [H0 Hnd]. rewrite !not_elem_of_cons in Hto. destruct Hto as (_ & Htf & Htl).
  pose proof Hnd as [Hfl Hndl]%NoDup_cons. rewrite not_elem_of_cons in H0. destruct H0 as [Hf0 H0].
  set (l := (e :: es).*1) in *. assert (El : l = e.1 :: es.*1) by done.
  pose proof (lst_elem e.1 es.*1) as Hz. rewrite <- El in Hz.
  assert (Hel : e.1 ∈ l) by (rewrite El; apply list_elem_of_here).
  assert (Hxf : forall x, x ∈ l -> x <> from) by (intros x ? ->; done).
  assert (Hxt : forall x, x ∈ l -> x <> to) by (intros x ? ->; done).
  split; [split; [split|split]|split].
  - constructor; [rewrite not_elem_of_cons; by split|]. by constructor.
  - eapply (path_rehead h h' from to l); [|done|done| | | |].
    + constructor; [rewrite not_elem_of_cons; by split; [intros ->|]|by constructor].
    + rewrite Hn, decide_False, decide_True by (done || (intros E; by apply (Hxt _ Hz))). done.
    + rewrite Hp, decide_False, decide_True by (done || (intros E; by apply (Hxt _ Hel))). done.
    + intros x Hx. rewrite Hn by auto. case_decide; [by rewrite decide_True|].
      rewrite (decide_False (P := x = to)) by auto. by rewrite decide_False.
    + intros x Hx. rewrite Hp by auto. case_decide; [by rewrite decide_True|].
      rewrite (decide_False (P := x = to)) by auto. by rewrite decide_False.
  - rewrite Ho by done. unfold obj. by rewrite Et.
  - apply (entries_kept h); [|done]. intros x Hx. apply Ho, Hxf, Hx.
  - by apply holds_empty.
  - intros x Hx. rewrite !not_elem_of_cons in Hx. destruct Hx as (? & ? & Hx). apply Hon.
    rewrite !not_elem_of_cons. repeat split; try done; [| |apply not_elem_of_nil]; intros ->; done.
Qed.

Lemma list_move_holds h from to es :
  holds h from es -> holds h to [] -> to ∉ 0 :: from :: es.*1 ->
  exists h', list_move from to h = Ret tt h' /\ holds h' to es /\ holds h' from []
    /\ only (to :: from :: es.*1) h h'.
Proof.
  intros Hh Ht Hto. destruct (holds_empty_inv _ _ Ht) as [Et Ht0].
  assert (Htf : to <> from) by (intros ->; set_solver +Hto). destruct es as [|[a oa] es].
  - destruct (holds_empty_inv _ _ Hh) as [Ef Hf0]. exists h. split; [|done].
    unfold list_move. rewrite (bind_load _ _ _ _ Ef). cbn [ll_next]. rewrite Z.eqb_refl.
    run_set. run_set. f_equal. apply map_eq. intros x. unfold upd_prior, upd_next.
    destruct (decide (to = x)) as [<-|]; [by rewrite !lookup_alter_eq, Et|by rewrite !lookup_alter_ne].
  - pose proof Hh as (Hl & _). destruct (seam h from (a :: es.*1) []) as ([Hz Hpf] & _);
      [by rewrite app_nil_r|].
    destruct (seam h from [] (a :: es.*1) Hl) as ([Hnf Ha] & _). simpl in *.
    destruct (Hl) as [Hnd _]. simpl in Hnd. pose proof (lst_elem a es.*1) as Hze.
    unfold nxt, prv in *. destruct (h !! from) as [lf|] eqn:Ef; [|done].
    destruct (h !! lst a es.*1) as [lz|] eqn:Ez; [|done]. destruct (h !! a) as [la|] eqn:Ea; [|done].
    simpl in Hnf, Hpf. injection Hnf as Hnf. injection Hpf as Hpf.
    apply NoDup_cons in Hnd as [_ Hnd]. apply NoDup_cons in Hnd as [Hfl _].
    assert (Hta : forall x, x ∈ a :: es.*1 -> from <> x /\ to <> x)
      by (intros x Hx; split; intros ->; [done|set_solver +Hto Hx]).
    destruct (list_move_run h from to lf la lz (mk_list_link to to 0)) as (h' & E & Hm);
      try congruence; rewrite ?Hnf, ?Hpf.
    { apply nodup3; [done|apply Hta, list_elem_of_here..]. }
    { apply nodup3; [done|by apply Hta..]. }
    exists h'. split; [done|]. rewrite Hnf, Hpf in Hm.
    by apply (moved_holds h h' from to (a, oa) es (lst a es.*1)).
Qed.

(** ** Searching and walking *)

Lemma is_linked_loop_ok h head e x l fuel :
  path h x (l ++ [head]) -> head ∉ l -> (length l < fuel)%nat ->
  is_linked_loop fuel head e (frt head l) h = Ret (if decide (e ∈ l) then 1 else 0) h.
Proof.
  revert x fuel. induction l as [|b l IH]; intros x fuel Hp Hh Hf; (destruct fuel as [|fuel]; [simpl in Hf; lia|]).
  - rewrite decide_False by apply not_elem_of_nil. simpl. by rewrite Z.eqb_refl.
  - apply not_elem_of_cons in Hh as [Hb Hh]. destruct Hp as [[_ Hb'] Hp]. simpl in Hf.
    cbn [is_linked_loop frt]. rewrite (proj2 (Z.eqb_neq b head)) by done. destruct (Z.eqb_spec b e) as [->|Hne].
    + rewrite decide_True by apply list_elem_of_here. done.
    + assert (Hn : nxt h b = Some (frt head l)) by (destruct l; by destruct Hp as [[? _] _]).
      unfold nxt in Hn. destruct (h !! b) as [lb|] eqn:Eb; [|done]. injection Hn as Hn.
      rewrite (bind_load _ _ _ _ Eb), Hn, (IH b) by (done || lia). do 2 f_equal.
      apply decide_ext. rewrite elem_of_cons. split; [auto|]. by intros [->|].
Qed.

Lemma list_size h l : NoDup l -> (forall x, x ∈ l -> is_Some (h !! x)) -> (length l <= size (h : heap))%nat.
Proof.
  intros Hnd Hal. rewrite <- (size_dom (D := gset Z)), <- (size_list_to_set (C := gset Z) l Hnd).
  apply subseteq_size. intros x Hx%elem_of_list_to_set. by apply elem_of_dom, Hal.
Qed.

Lemma is_linked_ok h head es e :
  holds h head es -> is_linked head e h = Ret (if decide (e ∈ es.*1) then 1 else 0) h.
Proof.
  intros (Hl & Ho & _). unfold is_linked, st_bind at 1, st_get.
  destruct (is_list_total h head es.*1 head Hl) as (y & z & Hy & _); [apply list_elem_of_here|].
  destruct (seam h head [] es.*1 Hl) as ([Hn _] & _). simpl in Hn. rewrite Hn in Hy. injection Hy as <-.
  unfold nxt in Hn. destruct (h !! head) as [lh|] eqn:Eh; [|done]. injection Hn as Hn.
  rewrite (bind_load _ _ _ _ Eh), Hn. destruct (Hl) as [Hnd Hp].
  apply NoDup_cons in Hnd as [_ Hnd]. apply NoDup_cons in Hnd as [Hh Hnd].
  apply (is_linked_loop_ok h head e head); [done|done|].
  assert (length es.*1 <= size h)%nat; [|lia]. apply list_size; [done|]. intros x Hx.
  destruct (is_list_total h head es.*1 x Hl) as (? & ? & Hx' & _); [by apply list_elem_of_further|].
  unfold nxt in Hx'. destruct (h !! x); [eauto|done].
Qed.

Definition links_of (link_of : Z -> Z) (es : list (Z * Z)) : Prop :=
  Forall (fun e => link_of e.2 = e.1) es.

Lemma walk_next h head es p fuel link_of :
  path h p (es.*1 ++ [head]) -> obj h head = Some 0 -> head <> 0 -> 0 ∉ es.*1 ->
  Forall (fun e => obj h e.1 = Some e.2 /\ e.2 <> 0) es -> links_of link_of es ->
  (length es < fuel)%nat -> walk fuel link_of get_next p h = Ret es.*2 h.
Proof.
  intros Hp Ho Hh H0 Hes Hlk Hf. revert p fuel Hp H0 Hf Hlk.
  induction Hes as [|[b ob] es [Hob Hob0] Hes IH]; intros p fuel Hp H0 Hf Hlk;
    (destruct fuel as [|fuel]; [simpl in Hf; lia|]); simpl in *.
  - destruct Hp as [[Hn _] _]. unfold nxt, obj in *. destruct (h !! p) as [l|] eqn:Ep; [|done].
    injection Hn as Hn. destruct (h !! head) as [lh|] eqn:Eh; [|done]. injection Ho as Ho.
    rewrite (bind_load _ _ _ _ Ep). unfold get_next. rewrite Hn, (proj2 (Z.eqb_neq head 0)) by done.
    unfold st_bind at 1. rewrite (bind_load _ _ _ _ Eh). by rewrite Ho.
  - destruct Hp as [[Hn _] Hp]. apply not_elem_of_cons in H0 as [Hb0 H0].
    inversion Hlk as [|? ? Hb Hlk']; subst. simpl in Hb.
    unfold nxt, obj in *. destruct (h !! p) as [l|] eqn:Ep; [|done].
    injection Hn as Hn. destruct (h !! b) as [lb|] eqn:Eb; [|done]. injection Hob as Hob.
    rewrite (bind_load _ _ _ _ Ep). unfold get_next at 1. rewrite Hn, (proj2 (Z.eqb_neq b 0)) by done.
    unfold st_bind at 1. rewrite (bind_load _ _ _ _ Eb). unfold st_ret at 1.
    rewrite Hob, (proj2 (Z.eqb_neq ob 0)) by done. rewrite Hb. unfold st_bind at 1.
    rewrite (IH b) by (done || lia). done.
Qed.

Lemma walk_prior h head es p fuel link_of :
  path h head (es.*1 ++ [p]) -> obj h head = Some 0 -> head <> 0 -> 0 ∉ es.*1 ->
  Forall (fun e => obj h e.1 = Some e.2 /\ e.2 <> 0) es -> links_of link_of es ->
  (length es < fuel)%nat -> walk fuel link_of get_prior p h = Ret (reverse es.*2) h.
Proof.
  revert p fuel. induction es as [|[b ob] es IH] using rev_ind; intros p fuel Hp Ho Hh H0 Hes Hlk Hf;
    (destruct fuel as [|fuel]; [simpl in Hf; lia|]); simpl in *.
  - destruct Hp as [[_ Hn] _]. unfold prv, obj in *. destruct (h !! p) as [l|] eqn:Ep; [|done].
    injection Hn as Hn. destruct (h !! head) as [lh|] eqn:Eh; [|done]. injection Ho as Ho.
    rewrite (bind_load _ _ _ _ Ep). unfold get_prior. rewrite Hn, (proj2 (Z.eqb_neq head 0)) by done.
    unfold st_bind at 1. rewrite (bind_load _ _ _ _ Eh). by rewrite Ho.
  - rewrite fmap_app in *. simpl in *. rewrite length_app in Hf. simpl in Hf.
    rewrite path_app, lst_snoc in Hp. destruct Hp as [Hp [[_ Hn] _]].
    apply not_elem_of_app in H0 as [H0 Hb0]. apply not_elem_of_cons in Hb0 as [Hb0 _].
    unfold links_of in Hlk. rewrite Forall_app, Forall_singleton in Hes, Hlk.
    destruct Hes as [Hes [Hob Hob0]], Hlk as [Hlk Hb]. simpl in *.
    unfold prv, obj in *. destruct (h !! p) as [l|] eqn:Ep; [|done].
    injection Hn as Hn. destruct (h !! b) as [lb|] eqn:Eb; [|done]. injection Hob as Hob.
    rewrite (bind_load _ _ _ _ Ep). unfold get_prior at 1. rewrite Hn, (proj2 (Z.eqb_neq b 0)) by done.
    unfold st_bind at 1. rewrite (bind_load _ _ _ _ Eb). unfold st_ret at 1.
    rewrite Hob, (proj2 (Z.eqb_neq ob 0)) by done. rewrite Hb. unfold st_bind at 1.
    rewrite (IH b) by (done || lia). by rewrite reverse_app.
Qed.

(** ** Theorems *)

(** C36: The list routines implement sequences.  On a list that holds the entries
    [es1 ++ es2], [append_link] adds an entry at the end, [insert_link] one between
    [es1] and [es2] whether it is told the neighbour before it with [LINK_INSET_AFTER] or
    the one behind it with any other position, [delete_link]
    takes the entry it is given out and leaves its link on no list, [swap_link]
    exchanges two entries in either order of its arguments, and [list_move] hands all
    entries to another head, which is empty.  None of them changes a link outside the list
    and the entry or head given, so every other list still holds what it held. *)
Theorem list_operations_refine h head es1 es2 n o :
  holds h head (es1 ++ es2) -> n ∉ 0 :: head :: (es1 ++ es2).*1 -> o <> 0 ->
  (is_Some (h !! n) -> exists h', append_link head n o h = Ret tt h'
     /\ holds h' head ((es1 ++ es2) ++ [(n, o)]) /\ only (n :: head :: (es1 ++ es2).*1) h h') /\
  (forall pos, detached h n -> exists h',
     insert_link (if pos =? LINK_INSET_AFTER then lst head es1.*1 else frt head es2.*1) n o pos h = Ret tt h'
     /\ holds h' head (es1 ++ (n, o) :: es2) /\ only (n :: head :: (es1 ++ es2).*1) h h') /\
  (forall p op es3, es2 = (p, op) :: es3 -> exists h', delete_link p h = Ret tt h'
     /\ holds h' head (es1 ++ es3) /\ detached h' p /\ only (p :: head :: (es1 ++ es3).*1) h h') /\
  (forall p q op oq es3 es4, es2 = (p, op) :: es3 ++ (q, oq) :: es4 -> exists h1 h2,
     swap_link p q h = Ret tt h1 /\ swap_link q p h = Ret tt h2
     /\ holds h1 head (es1 ++ (q, oq) :: es3 ++ (p, op) :: es4)
     /\ holds h2 head (es1 ++ (q, oq) :: es3 ++ (p, op) :: es4)
     /\ only (head :: (es1 ++ es2).*1) h h1 /\ only (head :: (es1 ++ es2).*1) h h2) /\
  (holds h n [] -> exists h', list_move head n h = Ret tt h'
     /\ holds h' n (es1 ++ es2) /\ holds h' head [] /\ only (n :: head :: (es1 ++ es2).*1) h h').
Proof.
  intros Hh Hn Ho. split; [|split; [|split; [|split]]].
  - intros Hal. by apply append_link_holds.
  - intros pos Hd. by apply insert_link_holds.
  - intros p op es3 ->. destruct (delete_link_holds _ _ _ _ _ _ Hh) as (h' & ? & ? & ? & _ & ?).
    by exists h'.
  - intros p q op oq es3 es4 ->. by apply swap_link_holds.
  - intros He. by apply list_move_holds.
Qed.

(** Walking a list with [GET_NEXT] from its head, object by object, visits exactly its
    objects in order and ends; with [GET_PRIOR] it visits them in reverse; and
    [is_linked] ends and decides whether a link is on the list. *)
Theorem walks_visit_the_list h head es link_of e :
  holds h head es -> links_of link_of es ->
  walk (S (length es)) link_of get_next head h = Ret es.*2 h /\
  walk (S (length es)) link_of get_prior head h = Ret (reverse es.*2) h /\
  is_linked head e h = Ret (if decide (e ∈ es.*1) then 1 else 0) h.
Proof.
  intros Hh Hlk. pose proof Hh as ([Hnd Hp] & Ho & Hes).
  apply NoDup_cons in Hnd as [H0 _]. apply not_elem_of_cons in H0 as [Hh0 H0].
  split; [|split]; [apply (walk_next h head es); (done || lia)
    |apply (walk_prior h head es); (done || lia)|by apply is_linked_ok].
Qed.

(** *** Witnesses *)

Section ListWitnesses.

(** A head at 1 with the objects 70 and 80 linked at 7 and 8, and a free link at 9. *)
Definition two_entries : heap :=
  list_to_map [(1, mk_list_link 8 7 0); (7, mk_list_link 1 8 70); (8, mk_list_link 7 1 80);
               (9, mk_list_link 9 9 0)].

Lemma two_entries_holds : holds two_entries 1 ([(7, 70)] ++ [(8, 80)]).
Proof.
  split; [split|split].
  - apply (bool_decide_unpack _). by vm_compute.
  - repeat split; by vm_compute.
  - by vm_compute.
  - constructor; [by split; [vm_compute|]|]. constructor; [by split; [vm_compute|]|constructor].
Qed.

Lemma list_operations_refine_witness :
  exists h', swap_link 8 7 two_entries = Ret tt h' /\ holds h' 1 [(8, 80); (7, 70)].
Proof.
  destruct (list_operations_refine two_entries 1 [] [(7, 70); (8, 80)] 9 90 two_entries_holds
    ltac:(apply (bool_decide_unpack _); vm_compute; exact I) ltac:(discriminate))
    as (_ & _ & _ & Hs & _).
  destruct (Hs 7 8 70 80 [] [] ltac:(reflexivity)) as (h1 & h2 & _ & E & _ & Hh & _).
  exists h2. split; [exact E|exact Hh].
Defined.

Lemma walks_visit_the_list_witness :
  walk 3 (fun o => o / 10) get_prior 1 two_entries = Ret [80; 70] two_entries.
Proof.
  exact (proj1 (proj2 (walks_visit_the_list two_entries 1 ([(7, 70)] ++ [(8, 80)]) (fun o => o / 10) 7
    two_entries_holds ltac:(repeat constructor)))).
Defined.

End ListWitnesses.
