(* ===== verification/AvlTree.v ===== *)
(** * The tree of node addresses (src/src/lib/Libutils/u_tree.c)

    The server and the MOMs look nodes up by address and port in an AVL tree.  A node is
    reached from its parent only, so the tree of pointers is an inductive tree, [Null] is
    NULL, and a function that rewrites nodes in place returns the new tree.  Every public
    function holds [AVLMutex] from its first line to its last: the calls of different
    threads are one after the other.  [None] is a NULL dereferenced. *)

From S2P Require Import Prelude CLib.
From stdpp Require Import base list numbers option sorting.

Local Open Scope Z_scope.


Inductive AvlTree :=
  | Null
  | Node (key port pbsnode height_ : Z) (left right : AvlTree).

Definition SIZEOF_AVLNODE : Z := 48.

Definition height (n : AvlTree) : Z := match n with Null => -1 | Node _ _ _ h _ _ => h end.

Definition Max (right_side left_side : Z) : Z :=
  if right_side <? left_side then left_side else right_side.

(** [n->height = Max(height(n->left), height(n->right)) + 1] for a node of the given parts. *)
Definition node_with_height (k p n : Z) (l r : AvlTree) : AvlTree :=
  Node k p n (Max (height l) (height r) + 1) l r.

Definition single_rotate_with_left (K2 : AvlTree) : AvlTree :=
  match K2 with
  | Node k2 p2 n2 h2 (Node k1 p1 n1 h1 l1 r1) r2 =>
      node_with_height k1 p1 n1 l1 (node_with_height k2 p2 n2 r1 r2)
  | _ => K2
  end.

Definition single_rotate_with_right (K1 : AvlTree) : option AvlTree :=
  match K1 with
  | Node k1 p1 n1 h1 l1 (Node k2 p2 n2 h2 l2 r2) =>
      Some (node_with_height k2 p2 n2 (node_with_height k1 p1 n1 l1 l2) r2)
  | _ => None
  end.

Definition double_rotate_with_left (K3 : AvlTree) : option AvlTree :=
  match K3 with
  | Node k p n h l r =>
      l' ← single_rotate_with_right l;
      Some (single_rotate_with_left (Node k p n h l' r))
  | Null => None
  end.

Definition double_rotate_with_right (K1 : AvlTree) : option AvlTree :=
  match K1 with
  | Node k p n h l r => single_rotate_with_right (Node k p n h l (single_rotate_with_left r))
  | Null => None
  end.

(** The key and the port of a node that is dereferenced. *)
Definition key_of (t : AvlTree) : option Z := match t with Node k _ _ _ _ _ => Some k | Null => None end.
Definition port_of (t : AvlTree) : option Z := match t with Node _ p _ _ _ _ => Some p | Null => None end.

(** What follows an insertion on the left and on the right: [side] is the test that
    chooses the rotation. *)
Definition after_left (tree : AvlTree) (side : AvlTree -> option bool) : option AvlTree :=
  match tree with
  | Node _ _ _ _ l r =>
      if 2 <=? height l - height r then
        single ← side l;
        if single : bool then Some (single_rotate_with_left tree) else double_rotate_with_left tree
      else Some tree
  | Null => None
  end.

Definition after_right (tree : AvlTree) (side : AvlTree -> option bool) : option AvlTree :=
  match tree with
  | Node _ _ _ _ l r =>
      if 2 <=? height r - height l then
        single ← side r;
        if single : bool then single_rotate_with_right tree else double_rotate_with_right tree
      else Some tree
  | Null => None
  end.

Definition update_height (tree : AvlTree) : option AvlTree :=
  match tree with Node k p n _ l r => Some (node_with_height k p n l r) | Null => None end.

Section Insert.
Context `{Platform}.

(** A new node is found equal to what is inserted and returned at once. *)
Fixpoint AVL_insert_internal (key port node : Z) (tree : AvlTree) : option AvlTree :=
  match tree with
  | Null => if calloc_ok SIZEOF_AVLNODE then Some (Node key port node 0 Null Null) else Some Null
  | Node k p n h l r =>
      if key <? k then
        l' ← AVL_insert_internal key port node l;
        t ← after_left (Node k p n h l' r) (fun l => k1 ← key_of l; Some (key <=? k1));
        update_height t
      else if k <? key then
        r' ← AVL_insert_internal key port node r;
        t ← after_right (Node k p n h l r') (fun r => k1 ← key_of r; Some (k1 <=? key));
        update_height t
      else if port =? p then Some tree
      else if port =? 0 then update_height tree
      else if port <? p then
        l' ← AVL_insert_internal key port node l;
        t ← after_left (Node k p n h l' r) (fun l => p1 ← port_of l; Some (port <=? p1));
        update_height t
      else
        r' ← AVL_insert_internal key port node r;
        t ← after_right (Node k p n h l r') (fun r => p1 ← port_of r; Some (p1 <=? port));
        update_height t
  end.

Definition AVL_insert : Z -> Z -> Z -> AvlTree -> option AvlTree := AVL_insert_internal.

End Insert.

Fixpoint AVL_find_internal (key port : Z) (tree : AvlTree) : option Z :=
  match tree with
  | Null => None
  | Node k p n _ l r =>
      if key <? k then AVL_find_internal key port l
      else if k <? key then AVL_find_internal key port r
      else if port <? p then AVL_find_internal key port l
      else if p <? port then AVL_find_internal key port r
      else Some n
  end.

(** [None] is NULL here: no node. *)
Definition AVL_find : Z -> Z -> AvlTree -> option Z := AVL_find_internal.

(** The loop follows [current] down the tree. *)
Fixpoint AVL_is_in_tree_internal (key port : Z) (current : AvlTree) : bool :=
  match current with
  | Null => false
  | Node k p n _ l r =>
      if key <? k then AVL_is_in_tree_internal key port l
      else if k <? key then AVL_is_in_tree_internal key port r
      else if port <? p then AVL_is_in_tree_internal key port l
      else if p <? port then AVL_is_in_tree_internal key port r
      else true
  end.

Definition AVL_is_in_tree : Z -> Z -> AvlTree -> bool := AVL_is_in_tree_internal.

Fixpoint AVL_is_in_tree_no_port_compare_internal (key port : Z) (tree : AvlTree) : bool :=
  match tree with
  | Null => false
  | Node k _ _ _ l r =>
      if key <? k then AVL_is_in_tree_no_port_compare_internal key port l
      else if k <? key then AVL_is_in_tree_no_port_compare_internal key port r
      else true
  end.

Definition AVL_is_in_tree_no_port_compare : Z -> Z -> AvlTree -> bool :=
  AVL_is_in_tree_no_port_compare_internal.

Fixpoint AVL_get_port_by_ipaddr_internal (key : Z) (tree : AvlTree) : Z :=
  match tree with
  | Null => 0
  | Node k p _ _ l r =>
      if key <? k then AVL_get_port_by_ipaddr_internal key l
      else if k <? key then AVL_get_port_by_ipaddr_internal key r
      else p
  end.

Definition AVL_get_port_by_ipaddr : Z -> AvlTree -> Z := AVL_get_port_by_ipaddr_internal.

(** ** Deletion *)

(** The leftmost node of a tree (the node [h1] stops at) and the tree with
    [h2->left = NULL]: what hung below that node on the right goes with it. *)
Fixpoint leftmost (t : AvlTree) : option (Z * Z * Z * Z) :=
  match t with
  | Null => None
  | Node k p n h Null _ => Some (k, p, n, h)
  | Node _ _ _ _ l _ => leftmost l
  end.

Fixpoint cut_leftmost (t : AvlTree) : AvlTree :=
  match t with
  | Null => Null
  | Node _ _ _ _ Null _ => Null
  | Node k p n h l r => Node k p n h (cut_leftmost l) r
  end.

Definition delete_root (tree : AvlTree) : AvlTree :=
  match tree with
  | Null => Null
  | Node _ _ _ _ l Null => l
  | Node _ _ _ _ Null r => r
  | Node _ _ _ _ l (Node k1 p1 n1 h1 Null r1) => Node k1 p1 n1 h1 l r1
  | Node _ _ _ _ l r =>
      match leftmost r with
      | Some (k1, p1, n1, h1) => Node k1 p1 n1 h1 l (cut_leftmost r)
      | None => tree
      end
  end.

Fixpoint AVL_delete_node_internal (key port : Z) (tree : AvlTree) : AvlTree :=
  match tree with
  | Null => Null
  | Node k p n h l r =>
      if key <? k then Node k p n h (AVL_delete_node_internal key port l) r
      else if k <? key then Node k p n h l (AVL_delete_node_internal key port r)
      else if port <? p then Node k p n h (AVL_delete_node_internal key port l) r
      else if p <? port then Node k p n h l (AVL_delete_node_internal key port r)
      else delete_root tree
  end.

Definition AVL_delete_node : Z -> Z -> AvlTree -> AvlTree := AVL_delete_node_internal.

(** [None] when the fuel is used up. *)
Fixpoint clear_loop (fuel : nat) (tree : AvlTree) : option AvlTree :=
  match tree with
  | Null => Some Null
  | Node k p _ _ _ _ =>
      match fuel with
      | O => None
      | S fuel' => clear_loop fuel' (AVL_delete_node_internal k p tree)
      end
  end.

Definition AVL_clear_tree : nat -> AvlTree -> option AvlTree := clear_loop.

(** ** The list of addresses *)

(** [*Buf], a block of [*max_len + 1] characters or NULL, [*current_len] and [*max_len]. *)
Record listbuf := mk_listbuf { lb_buf : option (list Z); lb_len : Z; lb_max : Z }.

(** The dotted address and the port, as printed into [tmp_line]. *)
Definition address_text (key port : Z) : list Z :=
  print_d (Z.shiftr (Z.land key 4278190080) 24) ++ [46] ++
  print_d (Z.shiftr (Z.land key 16711680) 16) ++ [46] ++
  print_d (Z.shiftr (Z.land key 65280) 8) ++ [46] ++
  print_d (Z.land key 255) ++ [58] ++ print_d port.

Section Listing.
Context `{Platform}.

(** A new block 1024 characters longer when less than 23 are left. *)
Definition make_room (st : listbuf) : option (Z * listbuf) :=
  if lb_max st - lb_len st <? 23 then
    let max_len := lb_max st + 1024 in
    if calloc_ok (max_len + 1) then
      let tmp_buf := replicate (Z.to_nat (max_len + 1)) c_nul in
      tmp_buf ← match lb_buf st with
                | Some b => old ← mem_read b 0 (lb_len st); mem_write tmp_buf 0 old
                | None => Some tmp_buf
                end;
      Some (PBSE_NONE, mk_listbuf (Some tmp_buf) (lb_len st) max_len)
    else Some (PBSE_MEM_MALLOC, mk_listbuf (lb_buf st) (lb_len st) max_len)
  else Some (PBSE_NONE, st).

(** [strcat] *)
Definition strcat (buf s : list Z) : option (list Z) :=
  old ← cstring buf;
  mem_write buf (zlen old) (s ++ [c_nul]).

Definition AVL_list_add_item (key port : Z) (st : listbuf) : option (Z * listbuf) :=
  r ← make_room st;
  let '(rc, st) := r in
  if negb (rc =? PBSE_NONE) then Some (rc, st)
  else
    let tmp_line := address_text key port in
    if negb (zlen tmp_line <? 32) then None
    else
      buf ← lb_buf st;
      c ← head buf;
      if c =? 0 then
        buf ← mem_write buf 0 (tmp_line ++ [c_nul]);
        Some (PBSE_NONE, mk_listbuf (Some buf) (lb_len st + zlen tmp_line) (lb_max st))
      else
        buf ← strcat buf [44];
        buf ← strcat buf tmp_line;
        Some (PBSE_NONE, mk_listbuf (Some buf) (lb_len st + zlen tmp_line + 1) (lb_max st)).

(** The tree is dereferenced; the subtrees are tested first. *)
Fixpoint AVL_list_internal (tree : AvlTree) (st : listbuf) : option (Z * listbuf) :=
  match tree with
  | Null => None
  | Node k p _ _ l r =>
      let visit t (st : listbuf) :=
        match t with Null => Some (PBSE_NONE, st) | Node _ _ _ _ _ _ => AVL_list_internal t st end in
      r1 ← visit l st;
      let '(rc, st) := r1 in
      if negb (rc =? PBSE_NONE) then Some (rc, st)
      else
        r2 ← AVL_list_add_item k p st;
        let '(rc, st) := r2 in
        if negb (rc =? PBSE_NONE) then Some (rc, st) else visit r st
  end.

Definition AVL_list : AvlTree -> listbuf -> option (Z * listbuf) := AVL_list_internal.

End Listing.

(** ** The tree as a sorted list *)

Record entry := mk_entry { e_key : Z; e_port : Z; e_node : Z }.

Fixpoint entries (t : AvlTree) : list entry :=
  match t with
  | Null => []
  | Node k p n _ l r => entries l ++ mk_entry k p n :: entries r
  end.

(** By key, then by port. *)
Definition before (a b : entry) : Prop := e_key a < e_key b \/ (e_key a = e_key b /\ e_port a < e_port b).

Definition sorted (l : list entry) : Prop := StronglySorted before l.
Definition search_tree (t : AvlTree) : Prop := sorted (entries t).

(** [AVL_insert] leaves the tree alone for an entry it finds, and for port 0 when it
    finds the key. *)
Definition covers (x : entry) (key port : Z) : bool :=
  (e_key x =? key) && ((port =? 0) || (e_port x =? port)).

Fixpoint add (key port node : Z) (l : list entry) : list entry :=
  match l with
  | [] => [mk_entry key port node]
  | x :: l' =>
      if covers x key port then l
      else if (key <? e_key x) || ((key =? e_key x) && (port <? e_port x)) then mk_entry key port node :: l
      else x :: add key port node l'
  end.

#[export] Instance before_transitive : Transitive before.
Proof. intros a b c [?|[??]] [?|[??]]; unfold before; lia. Qed.

Lemma before_irrefl a : ~ before a a.
Proof. unfold before. lia. Qed.

Lemma sorted_app l r : sorted (l ++ r) <-> sorted l /\ sorted r /\ forall x y, x ∈ l -> y ∈ r -> before x y.
Proof.
  unfold sorted. rewrite StronglySorted_app. naive_solver.
Qed.

Lemma sorted_cons x l : sorted (x :: l) <-> sorted l /\ forall y, y ∈ l -> before x y.
Proof.
  unfold sorted. rewrite StronglySorted_cons. rewrite list.Forall_forall. naive_solver.
Qed.

(** A node's entries: left of it, itself, right of it. *)
Lemma sorted_node l x r : sorted (l ++ x :: r) <->
  sorted l /\ sorted r /\ (forall y, y ∈ l -> before y x) /\ (forall y, y ∈ r -> before x y).
Proof.
  rewrite sorted_app, sorted_cons. setoid_rewrite elem_of_cons. split.
  - intros (Hl & (Hr & Hx) & Hlr). repeat split; naive_solver.
  - intros (Hl & Hr & Hlx & Hxr). repeat split; try done.
    intros a b Ha [->|Hb]; [by apply Hlx|]. transitivity x; [by apply Hlx|by apply Hxr].
Qed.

Lemma search_node k p n h l r : search_tree (Node k p n h l r) ->
  search_tree l /\ search_tree r /\ (forall y, y ∈ entries l -> before y (mk_entry k p n)) /\
  (forall y, y ∈ entries r -> before (mk_entry k p n) y).
Proof. unfold search_tree. cbn [entries]. by rewrite sorted_node. Qed.

(** ** Insertion into the sorted list *)

Lemma covers_spec x key port :
  covers x key port = true <-> e_key x = key /\ (port = 0 \/ e_port x = port).
Proof. unfold covers. rewrite andb_true_iff, orb_true_iff, !Z.eqb_eq. done. Qed.

Lemma add_covered key port node l x r : sorted (l ++ x :: r) -> covers x key port = true ->
  add key port node (l ++ x :: r) = l ++ x :: r.
Proof.
  intros Hs Hx. apply sorted_node in Hs as (_ & _ & Hl & _).
  induction l as [|y l IH]; simpl; [by rewrite Hx|].
  destruct (covers y key port) eqn:Ey; [done|].
  rewrite IH by (intros; apply Hl; by right). clear IH.
  pose proof (Hl y ltac:(by left)) as Hy. apply covers_spec in Hx. unfold before in Hy.
  assert (~ (e_key y = key /\ (port = 0 \/ e_port y = port))) as Hn
    by (rewrite <- covers_spec; congruence).
  destruct (Z.ltb_spec key (e_key y)); [lia|]. destruct (Z.eqb_spec key (e_key y)); simpl; [|done].
  destruct (Z.ltb_spec port (e_port y)); [lia|done].
Qed.

Lemma add_left key port node l x r : covers x key port = false ->
  key < e_key x \/ (key = e_key x /\ port < e_port x) ->
  add key port node (l ++ x :: r) = add key port node l ++ x :: r.
Proof.
  intros Hx Hlt. induction l as [|y l IH]; simpl.
  - rewrite Hx. destruct (Z.ltb_spec key (e_key x)); [done|].
    destruct (Z.eqb_spec key (e_key x)), (Z.ltb_spec port (e_port x)); simpl; (done || lia).
  - destruct (covers y key port); [done|]. destruct (_ || _); [done|]. simpl. by rewrite IH.
Qed.

Lemma add_right key port node l x r : sorted (l ++ x :: r) -> covers x key port = false ->
  e_key x < key \/ (key = e_key x /\ e_port x < port) ->
  add key port node (l ++ x :: r) = l ++ x :: add key port node r.
Proof.
  intros Hs Hx Hlt. apply sorted_node in Hs as (_ & _ & Hl & _).
  assert (Hskip : forall y tl, (y = x \/ before y x) -> add key port node (y :: tl) = y :: add key port node tl).
  { intros y tl Hy. assert (~ (e_key x = key /\ (port = 0 \/ e_port x = port)))
      by (rewrite <- covers_spec; congruence).
    simpl. unfold before in Hy.
    destruct (covers y key port) eqn:Ey; [apply covers_spec in Ey; destruct Hy as [->|?]; lia|].
    destruct (Z.ltb_spec key (e_key y)); [destruct Hy as [->|?]; lia|].
    destruct (Z.eqb_spec key (e_key y)), (Z.ltb_spec port (e_port y)); simpl; try done.
    destruct Hy as [->|?]; lia. }
  induction l as [|y l IH]; [by apply Hskip; left|].
  rewrite <- app_comm_cons, Hskip by (right; apply Hl; by left).
  rewrite IH; [done|]. intros z Hz. apply Hl. by right.
Qed.

Lemma elem_of_add key port node l x : x ∈ add key port node l -> x = mk_entry key port node \/ x ∈ l.
Proof.
  induction l as [|y l IH]; simpl; [rewrite elem_of_cons; naive_solver|].
  destruct (covers y key port); [by right|]. destruct (_ || _); rewrite !elem_of_cons; naive_solver.
Qed.

(** The list then has an entry for the key and the port. *)
Lemma add_covers key port node l : exists x, x ∈ add key port node l /\ covers x key port = true.
Proof.
  assert (Hnew : covers (mk_entry key port node) key port = true) by (apply covers_spec; simpl; auto).
  induction l as [|y l (x & Hx & Hc)]; simpl.
  - exists (mk_entry key port node). by split; [left|].
  - destruct (covers y key port) eqn:Ey; [exists y; by split; [left|]|].
    destruct (_ || _); [exists (mk_entry key port node); by split; [left|]|].
    exists x. split; [by right|done].
Qed.

Lemma add_sorted key port node l : sorted l -> sorted (add key port node l).
Proof.
  induction l as [|y l IH]; intros Hs; simpl; [repeat constructor|].
  destruct (covers y key port) eqn:Ec; [done|]. pose proof Hs as [Hl Hy]%sorted_cons.
  assert (~ (e_key y = key /\ (port = 0 \/ e_port y = port))) as Hn by (rewrite <- covers_spec; congruence).
  destruct (_ || _) eqn:E.
  - assert (before (mk_entry key port node) y) as Hb.
    { unfold before. simpl. rewrite orb_true_iff, andb_true_iff, !Z.ltb_lt, Z.eqb_eq in E. lia. }
    apply sorted_cons. split; [done|]. intros z [->|Hz]%elem_of_cons; [done|]. transitivity y; auto.
  - apply sorted_cons. split; [auto|]. intros z [->|Hz]%elem_of_add; [|auto].
    unfold before. simpl. rewrite orb_false_iff, andb_false_iff, !Z.ltb_ge, Z.eqb_neq in E. lia.
Qed.

(** ** Rotations keep the entries *)

(** The stored heights are never negative. *)
Fixpoint heights_ok (t : AvlTree) : Prop :=
  match t with Null => True | Node _ _ _ h l r => 0 <= h /\ heights_ok l /\ heights_ok r end.

Lemma height_ge t : heights_ok t -> -1 <= height t.
Proof. destruct t; simpl; lia. Qed.

Lemma Max_max a b : Max a b = Z.max a b.
Proof. unfold Max. destruct (Z.ltb_spec a b); lia. Qed.

Lemma node_with_height_ok k p n l r : heights_ok l -> heights_ok r ->
  heights_ok (node_with_height k p n l r).
Proof.
  intros Hl Hr. simpl. rewrite Max_max. pose proof (height_ge l Hl). pose proof (height_ge r Hr).
  repeat split; [lia|done|done].
Qed.

Create HintDb avl discriminated.
#[local] Hint Resolve node_with_height_ok : avl.

Lemma single_left_entries t : entries (single_rotate_with_left t) = entries t.
Proof. destruct t as [|k p n h [|k1 p1 n1 h1 l1 r1] r]; simpl; [done..|]. by rewrite <- app_assoc. Qed.

Lemma single_left_heights t : heights_ok t -> heights_ok (single_rotate_with_left t).
Proof.
  destruct t as [|k p n h [|k1 p1 n1 h1 l1 r1] r]; [done..|].
  intros (? & (? & ? & ?) & ?). cbn [single_rotate_with_left]. auto with avl.
Qed.

Lemma single_right_entries t t' : single_rotate_with_right t = Some t' -> entries t' = entries t.
Proof.
  destruct t as [|k p n h l [|k2 p2 n2 h2 l2 r2]]; [done..|]. intros [= <-]. simpl. by rewrite <- app_assoc.
Qed.

Lemma single_right_heights t t' : heights_ok t -> single_rotate_with_right t = Some t' -> heights_ok t'.
Proof.
  destruct t as [|k p n h l [|k2 p2 n2 h2 l2 r2]]; [done..|].
  intros (? & ? & (? & ? & ?)) [= <-]. auto with avl.
Qed.

(** [t'] has the entries of [t], a root and heights that are not negative. *)
Definition rearranged (t t' : AvlTree) : Prop := entries t' = entries t /\ heights_ok t' /\ t' <> Null.

Lemma finish t0 t : entries t = entries t0 -> heights_ok t -> t <> Null ->
  exists t', update_height t = Some t' /\ rearranged t0 t'.
Proof.
  destruct t as [|k p n h l r]; intros He Hh Hn; [done|]. destruct Hh as (_ & Hl & Hr).
  eexists. split; [reflexivity|]. split; [by rewrite <- He|]. split; [by apply node_with_height_ok|done].
Qed.

Lemma after_left_rearranged k p n h l r side :
  0 <= h -> heights_ok l -> heights_ok r ->
  (forall k1 p1 n1 h1 l1 r1, l = Node k1 p1 n1 h1 l1 r1 ->
     exists b, side l = Some b /\ (b = false -> r1 <> Null)) ->
  exists t t', after_left (Node k p n h l r) side = Some t /\ update_height t = Some t' /\
    rearranged (Node k p n h l r) t'.
Proof.
  intros Hh Hl Hr Hside. set (t0 := Node k p n h l r). assert (Ht0 : heights_ok t0) by done.
  unfold after_left, t0. fold t0. destruct (Z.leb_spec 2 (height l - height r)) as [H2|H2].
  2:{ destruct (finish t0 t0) as (t' & ? & ?); [done..|]. by exists t0, t'. }
  pose proof (height_ge r Hr). destruct l as [|k1 p1 n1 h1 l1 r1]; [simpl in H2; lia|].
  destruct (Hside _ _ _ _ _ _ eq_refl) as (b & -> & Hb). simpl mbind. destruct b.
  - destruct (finish t0 (single_rotate_with_left t0)) as (t' & ? & ?);
      [apply single_left_entries|by apply single_left_heights|done|].
    by exists (single_rotate_with_left t0), t'.
  - destruct Hl as (? & ? & Hr1). destruct r1 as [|k2 p2 n2 h2 l2 r2]; [by destruct Hb|].
    destruct Hr1 as (? & ? & ?).
    set (t := node_with_height k2 p2 n2 (node_with_height k1 p1 n1 l1 l2) (node_with_height k p n r2 r)).
    destruct (finish t0 t) as (t' & ? & ?);
      [by list_simplifier|unfold t; auto with avl|done|]. exists t, t'. by split; [reflexivity|].
Qed.

Lemma after_right_rearranged k p n h l r side :
  0 <= h -> heights_ok l -> heights_ok r ->
  (forall k1 p1 n1 h1 l1 r1, r = Node k1 p1 n1 h1 l1 r1 ->
     exists b, side r = Some b /\ (b = false -> l1 <> Null)) ->
  exists t t', after_right (Node k p n h l r) side = Some t /\ update_height t = Some t' /\
    rearranged (Node k p n h l r) t'.
Proof.
  intros Hh Hl Hr Hside. set (t0 := Node k p n h l r). assert (Ht0 : heights_ok t0) by done.
  unfold after_right, t0. fold t0. destruct (Z.leb_spec 2 (height r - height l)) as [H2|H2].
  2:{ destruct (finish t0 t0) as (t' & ? & ?); [done..|]. by exists t0, t'. }
  pose proof (height_ge l Hl). destruct r as [|k1 p1 n1 h1 l1 r1]; [simpl in H2; lia|].
  destruct (Hside _ _ _ _ _ _ eq_refl) as (b & -> & Hb). simpl mbind.
  destruct Hr as (? & Hl1 & ?). destruct b.
  - set (t := node_with_height k1 p1 n1 (node_with_height k p n l l1) r1).
    destruct (finish t0 t) as (t' & ? & ?);
      [by list_simplifier|unfold t; auto with avl|done|]. exists t, t'. by split; [reflexivity|].
  - destruct l1 as [|k2 p2 n2 h2 l2 r2]; [by destruct Hb|]. destruct Hl1 as (? & ? & ?).
    set (t := node_with_height k2 p2 n2 (node_with_height k p n l l2) (node_with_height k1 p1 n1 r2 r1)).
    destruct (finish t0 t) as (t' & ? & ?);
      [by list_simplifier|unfold t; auto with avl|done|]. exists t, t'. by split; [reflexivity|].
Qed.

(** ** Insertion *)

Section InsertProofs.
Context `{AllocOk}.

(** After an insertion an entry for the key lies in the subtree, so the grandchild a
    double rotation dereferences is there. *)
Lemma inner_right k1 p1 n1 h1 l1 r1 key port node l :
  entries (Node k1 p1 n1 h1 l1 r1) = add key port node l -> sorted (add key port node l) ->
  (forall x, covers x key port = true -> before (mk_entry k1 p1 n1) x) -> r1 <> Null.
Proof.
  intros He Hs Hb ->. destruct (add_covers key port node l) as (x & Hx & Hc).
  rewrite <- He in Hs, Hx. simpl in Hs, Hx. apply sorted_node in Hs as (_ & _ & Hl & _).
  pose proof (Hb x Hc) as Hbx. rewrite elem_of_app, list_elem_of_singleton in Hx.
  destruct Hx as [Hx%Hl| ->]; [|by apply before_irrefl in Hbx].
  apply (before_irrefl x). by transitivity (mk_entry k1 p1 n1).
Qed.

Lemma inner_left k1 p1 n1 h1 l1 r1 key port node l :
  entries (Node k1 p1 n1 h1 l1 r1) = add key port node l -> sorted (add key port node l) ->
  (forall x, covers x key port = true -> before x (mk_entry k1 p1 n1)) -> l1 <> Null.
Proof.
  intros He Hs Hb ->. destruct (add_covers key port node l) as (x & Hx & Hc).
  rewrite <- He in Hs, Hx. simpl in Hs, Hx. apply sorted_cons in Hs as (_ & Hl).
  pose proof (Hb x Hc) as Hbx. rewrite elem_of_cons in Hx.
  destruct Hx as [->|Hx%Hl]; [by apply before_irrefl in Hbx|].
  apply (before_irrefl x). by transitivity (mk_entry k1 p1 n1).
Qed.

(** [t'] holds the entries of [l], [x] and [r] with the new one added. *)
Definition inserted (key port node : Z) (t t' : AvlTree) : Prop :=
  entries t' = add key port node (entries t) /\ heights_ok t' /\ t' <> Null.

Lemma insert_left key port node k p n h l r l' side :
  heights_ok (Node k p n h l r) -> inserted key port node l l' ->
  covers (mk_entry k p n) key port = false -> key < k \/ (key = k /\ port < p) ->
  (forall k1 p1 n1 h1 l1 r1, l' = Node k1 p1 n1 h1 l1 r1 ->
     exists b, side l' = Some b /\ (b = false -> r1 <> Null)) ->
  exists t', (t ← after_left (Node k p n h l' r) side; update_height t) = Some t' /\
    inserted key port node (Node k p n h l r) t'.
Proof.
  intros (Hh & Hl & Hr) (Al & Hl' & _) Hc Hlt Hside.
  destruct (after_left_rearranged k p n h l' r side) as (t & t' & E1 & E2 & E & ? & ?); [done..|].
  exists t'. rewrite E1. split; [done|]. split; [|done].
  rewrite E. simpl. by rewrite add_left, <- Al.
Qed.

Lemma insert_right key port node k p n h l r r' side :
  search_tree (Node k p n h l r) -> heights_ok (Node k p n h l r) -> inserted key port node r r' ->
  covers (mk_entry k p n) key port = false -> k < key \/ (key = k /\ p < port) ->
  (forall k1 p1 n1 h1 l1 r1, r' = Node k1 p1 n1 h1 l1 r1 ->
     exists b, side r' = Some b /\ (b = false -> l1 <> Null)) ->
  exists t', (t ← after_right (Node k p n h l r') side; update_height t) = Some t' /\
    inserted key port node (Node k p n h l r) t'.
Proof.
  intros Hs (Hh & Hl & Hr) (Ar & Hr' & _) Hc Hlt Hside.
  destruct (after_right_rearranged k p n h l r' side) as (t & t' & E1 & E2 & E & ? & ?); [done..|].
  exists t'. rewrite E1. split; [done|]. split; [|done].
  rewrite E. simpl. by rewrite add_right, <- Ar.
Qed.

Lemma covers_false k p n key port : k <> key \/ (port <> 0 /\ p <> port) ->
  covers (mk_entry k p n) key port = false.
Proof. intros Hn. apply not_true_iff_false. rewrite covers_spec. simpl. lia. Qed.

Lemma AVL_insert_internal_spec key port node : forall t, search_tree t -> heights_ok t ->
  exists t', AVL_insert_internal key port node t = Some t' /\ inserted key port node t t'.
Proof.
  induction t as [|k p n h l IHl r IHr]; intros Hs Hh.
  { simpl. rewrite alloc_ok by (unfold SIZEOF_AVLNODE, ALLOC_MAX; lia). eexists. by split; [reflexivity|]. }
  pose proof (search_node _ _ _ _ _ _ Hs) as (Sl & Sr & Bl & Br). pose proof Hh as (_ & Hl & Hr).
  destruct (IHl Sl Hl) as (l' & El & Il). destruct (IHr Sr Hr) as (r' & Er & Ir). clear IHl IHr.
  pose proof (add_sorted key port node _ Sl) as Tl. pose proof (add_sorted key port node _ Sr) as Tr.
  cbn [AVL_insert_internal]. rewrite El, Er. cbn [mbind option_bind].
  destruct (Z.ltb_spec key k) as [H1|H1]; [|destruct (Z.ltb_spec k key) as [H2|H2]].
  - apply insert_left; [done|done|apply covers_false; lia|lia|]. intros k1 p1 n1 h1 l1 r1 ->. simpl.
    eexists. split; [reflexivity|]. intros Hb%Z.leb_gt. eapply inner_right; [apply Il|done|].
    intros x Hx%covers_spec. left. simpl. lia.
  - apply insert_right; [done|done|done|apply covers_false; lia|lia|]. intros k1 p1 n1 h1 l1 r1 ->. simpl.
    eexists. split; [reflexivity|]. intros Hb%Z.leb_gt. eapply inner_left; [apply Ir|done|].
    intros x Hx%covers_spec. left. simpl. lia.
  - assert (k = key) as -> by lia. destruct (Z.eqb_spec port p) as [->|Hp].
    { eexists. split; [reflexivity|]. split; [|done]. cbn [entries]. rewrite add_covered; [done|done|].
      apply covers_spec. simpl. auto. }
    destruct (Z.eqb_spec port 0) as [->|Hp0].
    { destruct (finish (Node key p n h l r) (Node key p n h l r)) as (t' & E & Ee & ? & ?); [done..|].
      exists t'. split; [done|]. split; [|done]. rewrite Ee. cbn [entries]. rewrite add_covered; [done|done|].
      apply covers_spec. simpl. auto. }
    destruct (Z.ltb_spec port p) as [H3|H3].
    + apply insert_left; [done|done|apply covers_false; lia|lia|]. intros k1 p1 n1 h1 l1 r1 ->. simpl.
      eexists. split; [reflexivity|]. intros Hb%Z.leb_gt. eapply inner_right; [apply Il|done|].
      intros x Hx%covers_spec.
      assert (before (mk_entry k1 p1 n1) (mk_entry key p n)) as Hb1.
      { destruct Il as (Ea & _). assert (Hin : mk_entry k1 p1 n1 ∈ add key port node (entries l))
          by (rewrite <- Ea; simpl; rewrite elem_of_app, elem_of_cons; auto).
        apply elem_of_add in Hin as [[= -> -> ->]|Hin]; [right; simpl; lia|by apply Bl]. }
      unfold before in *. simpl in *. lia.
    + apply insert_right; [done|done|done|apply covers_false; lia|lia|]. intros k1 p1 n1 h1 l1 r1 ->. simpl.
      eexists. split; [reflexivity|]. intros Hb%Z.leb_gt. eapply inner_left; [apply Ir|done|].
      intros x Hx%covers_spec.
      assert (before (mk_entry key p n) (mk_entry k1 p1 n1)) as Hb1.
      { destruct Ir as (Ea & _). assert (Hin : mk_entry k1 p1 n1 ∈ add key port node (entries r))
          by (rewrite <- Ea; simpl; rewrite elem_of_app, elem_of_cons; auto).
        apply elem_of_add in Hin as [[= -> -> ->]|Hin]; [right; simpl; lia|by apply Br]. }
      unfold before in *. simpl in *. lia.
Qed.

(** ** Balance

    With one entry per key the rotations keep the tree balanced. *)

Fixpoint avl (t : AvlTree) : Prop :=
  match t with
  | Null => True
  | Node _ _ _ h l r =>
      h = Z.max (height l) (height r) + 1 /\ -1 <= height l - height r <= 1 /\ avl l /\ avl r
  end.

Lemma avl_heights t : avl t -> heights_ok t.
Proof.
  induction t as [|k p n h l IHl r IHr]; [done|]. intros (Hh & Hb & Hl & Hr). simpl.
  pose proof (height_ge l (IHl Hl)). pose proof (height_ge r (IHr Hr)). repeat split; auto; lia.
Qed.

(** The tree grew by one level, on the side of the key. *)
Definition grew (key : Z) (t t' : AvlTree) : Prop :=
  height t' = height t + 1 /\
  match t' with
  | Null => False
  | Node k _ _ _ l r => (t = Null /\ l = Null /\ r = Null) \/ (key < k /\ height l = height r + 1) \/
                        (k < key /\ height r = height l + 1)
  end.

(** No other entry has the key. *)
Definition one_per_key (key port : Z) (t : AvlTree) : Prop :=
  forall x, x ∈ entries t -> e_key x = key -> e_port x = port.

Ltac avl_solve :=
  cbn in *; rewrite ?Max_max in *; simplify_eq/=; repeat split; try done; try (left; lia); try lia.

Lemma after_left_avl key k p n h l l' r side :
  avl (Node k p n h l r) -> avl l' -> key < k -> (height l' = height l \/ grew key l l') ->
  (forall k1 p1 n1 h1 l1 r1, l' = Node k1 p1 n1 h1 l1 r1 -> side l' = Some (key <=? k1)) ->
  exists t t', after_left (Node k p n h l' r) side = Some t /\ update_height t = Some t' /\
    avl t' /\ (height t' = height (Node k p n h l r) \/ grew key (Node k p n h l r) t').
Proof.
  intros (Eh & Hb & Hl & Hr) Hl' Hk Hg Hside. unfold after_left.
  pose proof (height_ge r (avl_heights r Hr)). pose proof (height_ge l (avl_heights l Hl)).
  assert (height l <= height l' <= height l + 1) by (destruct Hg as [?|[? _]]; lia).
  destruct (Z.leb_spec 2 (height l' - height r)) as [Hx|Hx].
  - destruct Hg as [Hg|[Hg Hc]]; [lia|]. destruct l' as [|k1 p1 n1 h1 l1 r1]; [done|].
    rewrite (Hside _ _ _ _ _ _ eq_refl). destruct Hl' as (Eh1 & Hb1 & Hl1 & Hr1). simpl in Hg, Hx.
    destruct Hc as [(-> & -> & ->)|[[Hc Hd]|[Hc Hd]]]; [simpl in *; lia|..].
    + rewrite (proj2 (Z.leb_le _ _)) by lia. eexists _, _. split; [reflexivity|]. split; [reflexivity|].
      avl_solve.
    + rewrite (proj2 (Z.leb_gt _ _)) by lia.
      destruct r1 as [|k2 p2 n2 h2 l2 r2];
        [pose proof (height_ge l1 (avl_heights l1 Hl1)); simpl in Hd; lia|].
      eexists _, _. split; [reflexivity|]. split; [reflexivity|]. destruct Hr1 as (Eh2 & Hb2 & Hl2 & Hr2).
      avl_solve.
  - eexists _, _. split; [reflexivity|]. split; [reflexivity|]. split; [avl_solve|].
    destruct Hg as [Hg|[Hg _]]; [left; avl_solve|].
    destruct (Z.eq_dec (height l) (height r)); [right|left; avl_solve].
    split; [avl_solve|]. right. left. lia.
Qed.

Lemma after_right_avl key k p n h l r r' side :
  avl (Node k p n h l r) -> avl r' -> k < key -> (height r' = height r \/ grew key r r') ->
  (forall k1 p1 n1 h1 l1 r1, r' = Node k1 p1 n1 h1 l1 r1 -> side r' = Some (k1 <=? key)) ->
  exists t t', after_right (Node k p n h l r') side = Some t /\ update_height t = Some t' /\
    avl t' /\ (height t' = height (Node k p n h l r) \/ grew key (Node k p n h l r) t').
Proof.
  intros (Eh & Hb & Hl & Hr) Hr' Hk Hg Hside. unfold after_right.
  pose proof (height_ge r (avl_heights r Hr)). pose proof (height_ge l (avl_heights l Hl)).
  assert (height r <= height r' <= height r + 1) by (destruct Hg as [?|[? _]]; lia).
  destruct (Z.leb_spec 2 (height r' - height l)) as [Hx|Hx].
  - destruct Hg as [Hg|[Hg Hc]]; [lia|]. destruct r' as [|k1 p1 n1 h1 l1 r1]; [done|].
    rewrite (Hside _ _ _ _ _ _ eq_refl). destruct Hr' as (Eh1 & Hb1 & Hl1 & Hr1). simpl in Hg, Hx.
    destruct Hc as [(-> & -> & ->)|[[Hc Hd]|[Hc Hd]]]; [simpl in *; lia|..].
    + rewrite (proj2 (Z.leb_gt _ _)) by lia.
      destruct l1 as [|k2 p2 n2 h2 l2 r2];
        [pose proof (height_ge r1 (avl_heights r1 Hr1)); simpl in Hd; lia|].
      eexists _, _. split; [reflexivity|]. split; [reflexivity|]. destruct Hl1 as (Eh2 & Hb2 & Hl2 & Hr2).
      avl_solve.
    + rewrite (proj2 (Z.leb_le _ _)) by lia. eexists _, _. split; [reflexivity|]. split; [reflexivity|].
      avl_solve.
  - eexists _, _. split; [reflexivity|]. split; [reflexivity|]. split; [avl_solve|].
    destruct Hg as [Hg|[Hg _]]; [left; avl_solve|].
    destruct (Z.eq_dec (height l) (height r)); [right|left; avl_solve].
    split; [avl_solve|]. right. right. lia.
Qed.

Lemma one_per_key_left key port k p n h l r :
  one_per_key key port (Node k p n h l r) -> one_per_key key port l /\ one_per_key key port r /\
  (k = key -> p = port).
Proof.
  intros Hu. split; [|split].
  - intros x Hx. apply Hu. simpl. rewrite elem_of_app. by left.
  - intros x Hx. apply Hu. simpl. rewrite elem_of_app, elem_of_cons. by right; right.
  - intros ->. apply (Hu (mk_entry key p n)); [|done]. simpl. rewrite elem_of_app, elem_of_cons. by right; left.
Qed.

Lemma AVL_insert_internal_avl key port node : forall t, avl t -> one_per_key key port t ->
  exists t', AVL_insert_internal key port node t = Some t' /\ avl t' /\
    (height t' = height t \/ grew key t t').
Proof.
  induction t as [|k p n h l IHl r IHr]; intros Ha Hu.
  { simpl. rewrite alloc_ok by (unfold SIZEOF_AVLNODE, ALLOC_MAX; lia). eexists. split; [reflexivity|].
    split; [avl_solve|]. right. split; [done|]. by left. }
  apply one_per_key_left in Hu as (Ul & Ur & Uk). pose proof Ha as (_ & _ & Hl & Hr).
  cbn [AVL_insert_internal]. destruct (Z.ltb_spec key k); [|destruct (Z.ltb_spec k key)].
  - destruct (IHl Hl Ul) as (l' & -> & Hl' & Hg). cbn [mbind option_bind].
    destruct (after_left_avl key k p n h l l' r (fun l => k1 ← key_of l; Some (key <=? k1)))
      as (t & t' & E1 & E2 & ? & ?); [done..|by intros ? ? ? ? ? ? ->|].
    exists t'. rewrite E1. done.
  - destruct (IHr Hr Ur) as (r' & -> & Hr' & Hg). cbn [mbind option_bind].
    destruct (after_right_avl key k p n h l r r' (fun r => k1 ← key_of r; Some (k1 <=? key)))
      as (t & t' & E1 & E2 & ? & ?); [done..|by intros ? ? ? ? ? ? ->|].
    exists t'. rewrite E1. done.
  - rewrite (Uk ltac:(lia)), Z.eqb_refl. eexists. split; [reflexivity|]. split; [done|by left].
Qed.

Fixpoint size (t : AvlTree) : Z := match t with Null => 0 | Node _ _ _ _ l r => size l + size r + 1 end.

Lemma size_entries t : size t = zlen (entries t).
Proof. induction t as [|k p n h l IHl r IHr]; [done|]. simpl. rewrite zlen_app, zlen_cons. lia. Qed.

(** A balanced tree with [n] entries has at most [2 log2 (n+1)] levels. *)
Lemma avl_height_bound t : avl t -> 2 ^ ((height t + 1) / 2) <= size t + 1.
Proof.
  induction t as [|k p n h l IHl r IHr]; [done|]. intros (Eh & Hb & Hl & Hr).
  specialize (IHl Hl). specialize (IHr Hr). simpl height. cbn [size].
  pose proof (height_ge l (avl_heights l Hl)). pose proof (height_ge r (avl_heights r Hr)).
  set (m := Z.min (height l) (height r)).
  assert (2 ^ ((m + 1) / 2) <= size l + 1) as Bl
    by (etransitivity; [|exact IHl]; apply Z.pow_le_mono_r; [lia|]; apply Z.div_le_mono; lia).
  assert (2 ^ ((m + 1) / 2) <= size r + 1) as Br
    by (etransitivity; [|exact IHr]; apply Z.pow_le_mono_r; [lia|]; apply Z.div_le_mono; lia).
  assert (2 ^ ((h + 1) / 2) <= 2 * 2 ^ ((m + 1) / 2)); [|lia].
  rewrite <- Z.pow_succ_r by (apply Z.div_pos; lia). apply Z.pow_le_mono_r; [lia|].
  replace (Z.succ ((m + 1) / 2)) with ((m + 1 + 1 * 2) / 2) by (rewrite Z.div_add by lia; lia).
  apply Z.div_le_mono; lia.
Qed.

End InsertProofs.

(** ** Lookups *)

(** Descending to the left or to the right loses no entry that is looked for. *)
Lemma search_left k p n h l r x : search_tree (Node k p n h l r) ->
  x ∈ entries (Node k p n h l r) -> before x (mk_entry k p n) -> x ∈ entries l.
Proof.
  intros Hs Hx Hb. apply search_node in Hs as (_ & _ & _ & Br). simpl in Hx.
  rewrite elem_of_app, elem_of_cons in Hx. destruct Hx as [?|[->|Hx%Br]]; [done|by apply before_irrefl in Hb|].
  exfalso. apply (before_irrefl x). by transitivity (mk_entry k p n).
Qed.

Lemma search_right k p n h l r x : search_tree (Node k p n h l r) ->
  x ∈ entries (Node k p n h l r) -> before (mk_entry k p n) x -> x ∈ entries r.
Proof.
  intros Hs Hx Hb. apply search_node in Hs as (_ & _ & Bl & _). simpl in Hx.
  rewrite elem_of_app, elem_of_cons in Hx. destruct Hx as [Hx%Bl|[->|?]]; [|by apply before_irrefl in Hb|done].
  exfalso. apply (before_irrefl x). by transitivity (mk_entry k p n).
Qed.

Lemma entries_left k p n h l r x : x ∈ entries l -> x ∈ entries (Node k p n h l r).
Proof. simpl. rewrite elem_of_app. auto. Qed.
Lemma entries_right k p n h l r x : x ∈ entries r -> x ∈ entries (Node k p n h l r).
Proof. simpl. rewrite elem_of_app, elem_of_cons. auto. Qed.
Lemma entries_root k p n h l r : mk_entry k p n ∈ entries (Node k p n h l r).
Proof. simpl. rewrite elem_of_app, elem_of_cons. auto. Qed.

#[local] Hint Resolve entries_left entries_right entries_root : avl.

(** The five-way test of the lookups. *)
Ltac descend key port k p :=
  destruct (Z.ltb_spec key k); [|destruct (Z.ltb_spec k key);
    [|assert (k = key) as -> by lia; destruct (Z.ltb_spec port p); [|destruct (Z.ltb_spec p port);
      [|assert (p = port) as -> by lia]]]].

Lemma AVL_find_internal_spec key port t : search_tree t -> forall n,
  AVL_find_internal key port t = Some n <-> mk_entry key port n ∈ entries t.
Proof.
  induction t as [|k p n h l IHl r IHr]; intros Hs n'; [simpl; by rewrite elem_of_nil|].
  pose proof (search_node _ _ _ _ _ _ Hs) as (Sl & Sr & Bl & Br). cbn [AVL_find_internal].
  descend key port k p.
  1,3: rewrite (IHl Sl); split; [auto with avl|]; intros Hx; apply (search_left _ _ _ _ _ _ _ Hs Hx);
    unfold before; simpl; lia.
  1,2: rewrite (IHr Sr); split; [auto with avl|]; intros Hx; apply (search_right _ _ _ _ _ _ _ Hs Hx);
    unfold before; simpl; lia.
  split; [intros [= ->]; auto with avl|]. simpl. rewrite elem_of_app, elem_of_cons.
  intros [Hx%Bl|[[= ->]|Hx%Br]]; [|done|]; unfold before in Hx; simpl in Hx; lia.
Qed.

Lemma AVL_is_in_tree_internal_find key port t :
  AVL_is_in_tree_internal key port t = bool_decide (is_Some (AVL_find_internal key port t)).
Proof.
  induction t as [|k p n h l IHl r IHr]; [done|]. cbn [AVL_is_in_tree_internal AVL_find_internal].
  by repeat case_match.
Qed.

Lemma no_port_compare_spec key port t : search_tree t ->
  AVL_is_in_tree_no_port_compare_internal key port t = true <-> exists x, x ∈ entries t /\ e_key x = key.
Proof.
  induction t as [|k p n h l IHl r IHr]; intros Hs.
  { simpl. split; [done|]. by intros (x & Hx%elem_of_nil & _). }
  pose proof (search_node _ _ _ _ _ _ Hs) as (Sl & Sr & Bl & Br).
  cbn [AVL_is_in_tree_no_port_compare_internal].
  destruct (Z.ltb_spec key k); [|destruct (Z.ltb_spec k key)].
  - rewrite (IHl Sl). split; intros (x & Hx & Hk); exists x; (split; [|done]); [auto with avl|].
    apply (search_left _ _ _ _ _ _ _ Hs Hx). left. simpl. lia.
  - rewrite (IHr Sr). split; intros (x & Hx & Hk); exists x; (split; [|done]); [auto with avl|].
    apply (search_right _ _ _ _ _ _ _ Hs Hx). left. simpl. lia.
  - split; [|done]. intros _. exists (mk_entry k p n). split; [auto with avl|simpl; lia].
Qed.

Lemma get_port_spec key t : search_tree t ->
  (exists x, x ∈ entries t /\ e_key x = key /\ AVL_get_port_by_ipaddr_internal key t = e_port x) \/
  ((forall x, x ∈ entries t -> e_key x <> key) /\ AVL_get_port_by_ipaddr_internal key t = 0).
Proof.
  induction t as [|k p n h l IHl r IHr]; intros Hs.
  { right. split; [|done]. intros x Hx. by apply elem_of_nil in Hx. }
  pose proof (search_node _ _ _ _ _ _ Hs) as (Sl & Sr & Bl & Br). cbn [AVL_get_port_by_ipaddr_internal].
  destruct (Z.ltb_spec key k); [|destruct (Z.ltb_spec k key)].
  - destruct (IHl Sl) as [(x & Hx & Hk & E)|(Hn & E)]; [left; exists x; auto with avl|].
    right. split; [|done]. intros x Hx Hk. apply (Hn x); [|done].
    apply (search_left _ _ _ _ _ _ _ Hs Hx). left. simpl. lia.
  - destruct (IHr Sr) as [(x & Hx & Hk & E)|(Hn & E)]; [left; exists x; auto with avl|].
    right. split; [|done]. intros x Hx Hk. apply (Hn x); [|done].
    apply (search_right _ _ _ _ _ _ _ Hs Hx). left. simpl. lia.
  - left. exists (mk_entry k p n). split; [auto with avl|]. simpl. split; [lia|done].
Qed.

(** ** Deletion *)

(** What hangs on the right below the leftmost node. *)
Fixpoint below_leftmost (t : AvlTree) : list entry :=
  match t with
  | Null => []
  | Node _ _ _ _ Null r => entries r
  | Node _ _ _ _ l _ => below_leftmost l
  end.

(** What [AVL_delete_node] loses besides the entry: the root has two children, the right
    one has a left child, and the leftmost node below it a right child. *)
Definition root_lost (t : AvlTree) : list entry :=
  match t with
  | Node _ _ _ _ (Node _ _ _ _ _ _) (Node _ _ _ _ (Node _ _ _ _ _ _) _ as r) => below_leftmost r
  | _ => []
  end.

Fixpoint delete_lost (key port : Z) (t : AvlTree) : list entry :=
  match t with
  | Null => []
  | Node k p n h l r =>
      if key <? k then delete_lost key port l
      else if k <? key then delete_lost key port r
      else if port <? p then delete_lost key port l
      else if p <? port then delete_lost key port r
      else root_lost t
  end.

Lemma leftmost_split t : t <> Null ->
  exists k p n h, leftmost t = Some (k, p, n, h) /\
    entries t = mk_entry k p n :: below_leftmost t ++ entries (cut_leftmost t).
Proof.
  induction t as [|k p n h l IHl r IHr]; [done|]. intros _. destruct l as [|k1 p1 n1 h1 l1 r1].
  - exists k, p, n, h. split; [done|]. simpl. by rewrite app_nil_r.
  - destruct IHl as (k2 & p2 & n2 & h2 & E1 & E2); [done|]. exists k2, p2, n2, h2.
    split; [exact E1|]. set (l := Node k1 p1 n1 h1 l1 r1) in *.
    change (entries (Node k p n h l r)) with (entries l ++ mk_entry k p n :: entries r).
    change (cut_leftmost (Node k p n h l r)) with (Node k p n h (cut_leftmost l) r).
    change (below_leftmost (Node k p n h l r)) with (below_leftmost l).
    rewrite E2. simpl. by rewrite <- app_assoc.
Qed.

(** The entries but the one for [key] and [port]. *)
Definition other (key port : Z) (x : entry) : Prop := ~ (e_key x = key /\ e_port x = port).
#[export] Instance other_dec key port x : Decision (other key port x).
Proof. unfold other. apply _. Defined.

Definition without (key port : Z) (l : list entry) : list entry := filter (other key port) l.

Lemma without_id key port l : (forall x, x ∈ l -> other key port x) -> without key port l = l.
Proof.
  unfold without. induction l as [|x l IH]; intros Hl; [done|].
  rewrite filter_cons_True by (apply Hl; by left). f_equal. apply IH. intros y Hy. apply Hl. by right.
Qed.

Lemma without_node key port l x r : without key port (l ++ x :: r) =
  without key port l ++ (if decide (other key port x) then [x] else []) ++ without key port r.
Proof. unfold without. rewrite filter_app, filter_cons. by destruct (decide _). Qed.

(** [l'] is [l] without some entries, those of [lost]. *)
Definition loses (l lost l' : list entry) : Prop := l' `sublist_of` l /\ l ≡ₚ l' ++ lost.

Lemma loses_left l l' lost r : loses l lost l' -> loses (l ++ r) lost (l' ++ r).
Proof.
  intros [Hs Hp]. split; [by apply sublist_app|]. rewrite Hp. solve_Permutation.
Qed.

Lemma loses_right l r r' lost : loses r lost r' -> loses (l ++ r) lost (l ++ r').
Proof. intros [Hs Hp]. split; [by apply sublist_app|]. rewrite Hp. by rewrite app_assoc. Qed.

Lemma loses_nil l : loses l [] l.
Proof. split; [done|]. by rewrite app_nil_r. Qed.

Lemma delete_root_loses k p n h l r :
  loses (entries l ++ entries r) (root_lost (Node k p n h l r)) (entries (delete_root (Node k p n h l r))).
Proof.
  destruct r as [|k1 p1 n1 h1 l1 r1]; [rewrite app_nil_r; destruct l; apply loses_nil|].
  destruct l as [|k2 p2 n2 h2 l2 r2]; [apply loses_nil|].
  destruct l1 as [|k3 p3 n3 h3 l3 r3]; [apply loses_nil|].
  set (r := Node k1 p1 n1 h1 (Node k3 p3 n3 h3 l3 r3) r1). set (l := Node k2 p2 n2 h2 l2 r2).
  destruct (leftmost_split r) as (k4 & p4 & n4 & h4 & E1 & E2); [done|].
  replace (delete_root (Node k p n h l r)) with (Node k4 p4 n4 h4 l (cut_leftmost r)).
  2:{ unfold delete_root, l. subst r. by rewrite E1. }
  change (root_lost (Node k p n h l r)) with (below_leftmost r).
  change (entries (Node k4 p4 n4 h4 l (cut_leftmost r)))
    with (entries l ++ mk_entry k4 p4 n4 :: entries (cut_leftmost r)).
  rewrite E2. apply loses_right. split.
  - apply sublist_skip, sublist_inserts_l. done.
  - simpl. constructor. apply Permutation_app_comm.
Qed.

Lemma AVL_delete_spec key port t : search_tree t ->
  loses (without key port (entries t)) (delete_lost key port t) (entries (AVL_delete_node_internal key port t)).
Proof.
  induction t as [|k p n h l IHl r IHr]; intros Hs; [apply loses_nil|].
  pose proof (search_node _ _ _ _ _ _ Hs) as (Sl & Sr & Bl & Br).
  assert (Hother : forall x, before x (mk_entry k p n) \/ x = mk_entry k p n -> k < key \/ (k = key /\ p < port) ->
            other key port x) by (intros x [Hx| ->]; unfold before, other in *; simpl in *; lia).
  assert (Hother' : forall x, before (mk_entry k p n) x \/ x = mk_entry k p n -> key < k \/ (key = k /\ port < p) ->
            other key port x) by (intros x [Hx| ->]; unfold before, other in *; simpl in *; lia).
  cbn [AVL_delete_node_internal delete_lost entries]. rewrite without_node.
  descend key port k p.
  1,3: rewrite (without_id _ _ (entries r)) by (intros x Hx; apply Hother'; [left; by apply Br|lia]);
    rewrite decide_True by (apply Hother'; [by right|lia]); apply loses_left; by apply IHl.
  1,2: rewrite (without_id _ _ (entries l)) by (intros x Hx; apply Hother; [left; by apply Bl|lia]);
    rewrite decide_True by (apply Hother; [by right|lia]); apply loses_right;
    apply (loses_right [_]); by apply IHr.
  rewrite decide_False by (unfold other; simpl; tauto).
  rewrite (without_id _ _ (entries l)), (without_id _ _ (entries r)).
  - apply delete_root_loses.
  - intros x Hx%Br. unfold before, other in *. simpl in *. lia.
  - intros x Hx%Bl. unfold before, other in *. simpl in *. lia.
Qed.

Lemma sorted_sublist l' l : l' `sublist_of` l -> sorted l -> sorted l'.
Proof.
  induction 1 as [|x l1 l2 Hs IH|x l1 l2 Hs IH]; intros Hl; [done|..]; apply sorted_cons in Hl as [Hl Hx].
  - apply sorted_cons. split; [by apply IH|]. intros y Hy. apply Hx. by eapply elem_of_sublist.
  - by apply IH.
Qed.

Lemma sublist_full {A} (l' l : list A) : l' `sublist_of` l -> (length l <= length l')%nat -> l' = l.
Proof.
  induction 1 as [|x l1 l2 Hs IH|x l1 l2 Hs IH]; simpl; intros Hl; [done|f_equal; apply IH; lia|].
  apply sublist_length in Hs. lia.
Qed.

Lemma loses_none l l' : loses l [] l' -> l' = l.
Proof.
  intros [Hs Hp]. rewrite app_nil_r in Hp. apply Permutation_length in Hp.
  apply sublist_full; [done|lia].
Qed.

(** Deleting the root shortens the list. *)
Lemma delete_root_shorter k p n h l r :
  (length (entries (AVL_delete_node_internal k p (Node k p n h l r))) < length (entries (Node k p n h l r)))%nat.
Proof.
  cbn [AVL_delete_node_internal]. rewrite !Z.ltb_irrefl.
  destruct (delete_root_loses k p n h l r) as [Hs _]. apply sublist_length in Hs.
  set (n' := length (entries (delete_root _))) in *. clearbody n'. simpl.
  rewrite length_app in *. simpl. lia.
Qed.

Lemma clear_loop_ends fuel t : (length (entries t) <= fuel)%nat -> clear_loop fuel t = Some Null.
Proof.
  revert t. induction fuel as [|fuel IH]; intros [|k p n h l r] Hf; try done.
  - simpl in Hf. rewrite length_app in Hf. simpl in Hf. lia.
  - cbn [clear_loop]. apply IH. pose proof (delete_root_shorter k p n h l r). lia.
Qed.

(** ** The printed list *)

(** The entries in order, with commas between them and behind [text]. *)
Definition add_text (text : list Z) (x : entry) : list Z :=
  let line := address_text (e_key x) (e_port x) in
  if decide (text = []) then line else text ++ [44] ++ line.

Definition list_text (text : list Z) (l : list entry) : list Z := foldl add_text text l.

(** The buffer holds [text] and a NUL; NULL holds no text. *)
Definition holds_text (st : listbuf) (text : list Z) : Prop :=
  nul_free text /\ lb_len st = zlen text /\ lb_len st <= lb_max st /\
  match lb_buf st with
  | Some b => zlen b = lb_max st + 1 /\ exists rest, b = text ++ c_nul :: rest
  | None => text = [] /\ lb_max st < 23
  end.

Definition entry_ok (x : entry) : Prop := 0 <= e_key x <= ULONG_MAX /\ 0 <= e_port x < 65536.

Section ListProofs.
Context `{AllocOk}.

Lemma print_d_byte v k : 0 <= v -> v < 10 ^ k -> 1 <= k <= 19 ->
  digits (print_d v) /\ 1 <= zlen (print_d v) <= k.
Proof.
  intros Hv Hk Hr. unfold print_d. destruct (Z.ltb_spec v 0); [lia|].
  assert (Hu : 0 <= v <= ULONG_MAX).
  { unfold ULONG_MAX. pose proof (Z.pow_le_mono_r 10 k 19 ltac:(lia) ltac:(lia)). lia. }
  pose proof (print_u_canonical v Hu) as Hc. split; [apply Hc|].
  apply (canonical_len v); [done|done|lia].
Qed.

Lemma octet_range key n mask : 0 <= n -> mask = 255 * 2 ^ n ->
  0 <= Z.shiftr (Z.land key mask) n < 256.
Proof.
  intros Hn ->. rewrite Z.shiftr_land, (Z.shiftr_div_pow2 (255 * 2 ^ n)) by done.
  rewrite Z.div_mul by (apply Z.pow_nonzero; lia). change 255 with (Z.ones 8).
  rewrite Z.land_ones by lia. apply Z.mod_pos_bound. lia.
Qed.

Lemma address_text_shape x : entry_ok x ->
  nul_free (address_text (e_key x) (e_port x)) /\ 9 <= zlen (address_text (e_key x) (e_port x)) <= 21.
Proof.
  intros [_ Hp]. unfold address_text.
  destruct (print_d_byte (Z.shiftr (Z.land (e_key x) 4278190080) 24) 3) as [Da La];
    [apply octet_range; [lia|reflexivity]|pose proof (octet_range (e_key x) 24 4278190080); lia|lia|].
  destruct (print_d_byte (Z.shiftr (Z.land (e_key x) 16711680) 16) 3) as [Db Lb];
    [apply octet_range; [lia|reflexivity]|pose proof (octet_range (e_key x) 16 16711680); lia|lia|].
  destruct (print_d_byte (Z.shiftr (Z.land (e_key x) 65280) 8) 3) as [Dc Lc];
    [apply octet_range; [lia|reflexivity]|pose proof (octet_range (e_key x) 8 65280); lia|lia|].
  destruct (print_d_byte (Z.land (e_key x) 255) 3) as [Dd Ld];
    [apply (octet_range _ 0); [lia|reflexivity]|pose proof (octet_range (e_key x) 0 255); rewrite Z.shiftr_0_r in *; lia|lia|].
  destruct (print_d_byte (e_port x) 5) as [De Le]; [lia..|].
  rewrite !zlen_app. change (zlen [46]) with 1. change (zlen [58]) with 1. split; [|lia].
  unfold nul_free. rewrite !Forall_app. repeat split; try (by apply digits_nul_free); by repeat constructor.
Qed.

Lemma make_room_ok st text : holds_text st text -> lb_max st + 1025 <= ALLOC_MAX ->
  exists st' b rest, make_room st = Some (PBSE_NONE, st') /\ lb_buf st' = Some b /\
    b = text ++ c_nul :: rest /\ zlen b = lb_max st' + 1 /\ lb_len st' = zlen text /\
    23 <= lb_max st' - zlen text /\ lb_max st' <= lb_max st + 1024.
Proof.
  intros (Hn & El & Hm & Hb) Ha. pose proof (zlen_nonneg text). unfold make_room.
  destruct (Z.ltb_spec (lb_max st - lb_len st) 23) as [Hl|Hl].
  - rewrite alloc_ok by lia. fold (zeros (lb_max st + 1024 + 1)).
    assert (Hw : mem_write (zeros (lb_max st + 1024 + 1)) 0 text
                 = Some (text ++ c_nul :: zeros (lb_max st + 1024 - zlen text))).
    { rewrite mem_write_0 by (rewrite zlen_zeros; lia). do 2 f_equal. rewrite drop_zeros by lia.
      replace (lb_max st + 1024 + 1 - zlen text) with (1 + (lb_max st + 1024 - zlen text)) by lia.
      by rewrite zeros_app by lia. }
    assert (Hcopy : match lb_buf st with
                    | Some b => old ← mem_read b 0 (lb_len st); mem_write (zeros (lb_max st + 1024 + 1)) 0 old
                    | None => Some (zeros (lb_max st + 1024 + 1))
                    end = Some (text ++ c_nul :: zeros (lb_max st + 1024 - zlen text))).
    { rewrite <- Hw. destruct (lb_buf st) as [b|].
      - destruct Hb as (_ & rest & ->). by rewrite El, mem_read_prefix.
      - destruct Hb as (-> & _). by rewrite mem_write_0 by (rewrite zlen_zeros, zlen_nil; lia). }
    rewrite Hcopy. cbn [mbind option_bind]. eexists _, _, _. split; [reflexivity|].
    cbn. split; [done|]. split; [done|]. rewrite zlen_app, zlen_cons, zlen_zeros by lia. lia.
  - destruct (lb_buf st) as [b|] eqn:Eb; [|destruct Hb as (-> & ?); rewrite zlen_nil in *; lia].
    destruct Hb as (Hz & rest & ->). exists st, (text ++ c_nul :: rest), rest. repeat split; try done; lia.
Qed.

Lemma strcat_ok text rest s : nul_free text -> zlen s <= zlen rest ->
  strcat (text ++ c_nul :: rest) s = Some (text ++ s ++ c_nul :: drop (length s) rest).
Proof.
  intros Hn Hl. unfold strcat. rewrite cstring_app by done. cbn [mbind option_bind].
  rewrite mem_write_app by (rewrite zlen_app, zlen_cons, zlen_cons, zlen_nil; lia).
  f_equal. f_equal. rewrite <- app_assoc. f_equal. simpl. f_equal.
  rewrite length_app. simpl. by rewrite Nat.add_comm.
Qed.

Lemma add_item_ok st text x : holds_text st text -> entry_ok x -> lb_max st + 1025 <= ALLOC_MAX ->
  exists st', AVL_list_add_item (e_key x) (e_port x) st = Some (PBSE_NONE, st') /\
    holds_text st' (add_text text x) /\ is_Some (lb_buf st') /\ lb_max st' <= lb_max st + 1024.
Proof.
  intros Ht Hx Ha. pose proof Ht as (Hn & _).
  destruct (make_room_ok st text Ht Ha) as (st' & b & rest & E & Eb & -> & Hz & El & Hroom & Hmax).
  destruct (address_text_shape x Hx) as [Hnx Hlx]. unfold AVL_list_add_item. rewrite E.
  cbn [mbind option_bind]. change (negb (PBSE_NONE =? PBSE_NONE)) with false. cbv iota.
  unfold add_text. cbv zeta. generalize dependent (address_text (e_key x) (e_port x)). intros line Hnx Hlx.
  rewrite (proj2 (Z.ltb_lt _ _)) by lia. cbn [negb]. rewrite Eb. cbn [mbind option_bind].
  rewrite zlen_app, zlen_cons in Hz. pose proof (zlen_nonneg text).
  destruct text as [|c text]; simpl (head _); cbn [mbind option_bind].
  - change (c_nul =? 0) with true. cbv iota. rewrite decide_True by done. simpl app.
    rewrite zlen_nil in *.
    rewrite mem_write_0 by (rewrite zlen_app, !zlen_cons, zlen_nil; lia). cbn [mbind option_bind].
    eexists. split; [reflexivity|]. split; [|split; [by eexists|done]].
    split; [done|]. cbn. rewrite El. repeat split; try lia.
    + unfold zlen in *. repeat (rewrite ?length_app, ?length_drop; simpl). lia.
    + eexists. rewrite <- app_assoc. reflexivity.
  - assert (Hc : c <> 0) by (by apply Forall_cons in Hn as [? _]).
    rewrite (proj2 (Z.eqb_neq c 0) Hc), decide_False by done.
    set (T := c :: text) in *. change (c :: text ++ c_nul :: rest) with (T ++ c_nul :: rest).
    clearbody T.
    assert (Hn1 : nul_free (T ++ [44])) by (apply Forall_app; split; [done|by repeat constructor]).
    rewrite strcat_ok by (rewrite ?zlen_cons, ?zlen_nil; done || lia). cbn [mbind option_bind].
    rewrite app_assoc, strcat_ok; [|done|unfold zlen in *; rewrite length_drop; simpl; lia].
    cbn [mbind option_bind]. eexists. split; [reflexivity|]. split; [|split; [by eexists|done]].
    split; [by rewrite app_assoc; apply Forall_app|].
    cbn [lb_len lb_max lb_buf]. rewrite El, !zlen_app. change (zlen [44]) with 1.
    repeat split; try lia.
    + unfold zlen in *. repeat (rewrite ?length_app, ?length_drop; simpl). lia.
    + eexists. rewrite <- !app_assoc. reflexivity.
Qed.

Lemma list_text_app text l1 l2 : list_text text (l1 ++ l2) = list_text (list_text text l1) l2.
Proof. apply foldl_app. Qed.

Lemma AVL_list_internal_ok t : forall st text, t <> Null -> holds_text st text ->
  Forall entry_ok (entries t) -> lb_max st + 1024 * size t + 1 <= ALLOC_MAX ->
  exists st', AVL_list_internal t st = Some (PBSE_NONE, st') /\
    holds_text st' (list_text text (entries t)) /\ is_Some (lb_buf st') /\
    lb_max st' <= lb_max st + 1024 * size t.
Proof.
  induction t as [|k p n h l IHl r IHr]; intros st text Hn Ht Hok Ha; [done|].
  assert (Hsize : forall t, 0 <= size t) by (intros t; rewrite size_entries; apply zlen_nonneg).
  pose proof (Hsize l). pose proof (Hsize r). cbn [size entries] in *.
  apply Forall_app in Hok as [Ol [Ox Or]%Forall_cons].
  set (visit := fun t (st : listbuf) =>
    match t with Null => Some (PBSE_NONE, st) | Node _ _ _ _ _ _ => AVL_list_internal t st end).
  assert (Hvisit : forall t st text, (t <> Null -> exists st', AVL_list_internal t st = Some (PBSE_NONE, st') /\
      holds_text st' (list_text text (entries t)) /\ is_Some (lb_buf st') /\ lb_max st' <= lb_max st + 1024 * size t) ->
    holds_text st text -> exists st', visit t st = Some (PBSE_NONE, st') /\
      holds_text st' (list_text text (entries t)) /\ (is_Some (lb_buf st) -> is_Some (lb_buf st')) /\
      lb_max st' <= lb_max st + 1024 * size t).
  { intros t st1 text1 Hgo Hst. destruct t; [exists st1; do 3 (split; [done|]); simpl; lia|].
    destruct Hgo as (st' & ? & ? & ? & ?); [done|]. by exists st'. }
  change (AVL_list_internal (Node k p n h l r) st) with
    (r1 ← visit l st; let '(rc, st) := r1 in
     if negb (rc =? PBSE_NONE) then Some (rc, st)
     else r2 ← AVL_list_add_item k p st; let '(rc, st) := r2 in
          if negb (rc =? PBSE_NONE) then Some (rc, st) else visit r st).
  destruct (Hvisit l st text) as (st1 & E1 & T1 & _ & M1); [|done|].
  { intros. apply IHl; done || lia. }
  rewrite E1. cbn [mbind option_bind]. change (negb (PBSE_NONE =? PBSE_NONE)) with false. cbv iota.
  destruct (add_item_ok st1 _ (mk_entry k p n) T1 Ox) as (st2 & E2 & T2 & B2 & M2); [lia|].
  cbn [e_key e_port] in E2. rewrite E2. cbn [mbind option_bind].
  change (negb (PBSE_NONE =? PBSE_NONE)) with false. cbv iota.
  destruct (Hvisit r st2 _ ltac:(intros; apply IHr; [done|exact T2|done|lia]) T2) as (st3 & E3 & T3 & B3 & M3).
  exists st3. split; [done|]. split; [|split; [auto|lia]].
  rewrite list_text_app. exact T3.
Qed.

(** ** The trees the daemons build *)

Lemma leftmost_heights t k p n h : heights_ok t -> leftmost t = Some (k, p, n, h) ->
  0 <= h /\ heights_ok (cut_leftmost t).
Proof.
  induction t as [|k0 p0 n0 h0 l IHl r IHr]; [done|]. intros (Hh0 & Hl & Hr).
  destruct l as [|k1 p1 n1 h1 l1 r1]; [by intros [= -> -> -> ->]|]. intros E.
  destruct (IHl Hl E) as [? Hc]. split; [done|].
  change (heights_ok (Node k0 p0 n0 h0 (cut_leftmost (Node k1 p1 n1 h1 l1 r1)) r)). by repeat split.
Qed.

Lemma delete_root_heights t : heights_ok t -> heights_ok (delete_root t).
Proof.
  destruct t as [|k p n h l r]; [done|]. intros (Hh & Hl & Hr).
  destruct r as [|k1 p1 n1 h1 l1 r1]; [by destruct l|]. destruct l as [|k2 p2 n2 h2 l2 r2]; [done|].
  destruct l1 as [|k3 p3 n3 h3 l3 r3]; [simpl in *; tauto|]. unfold delete_root.
  destruct (leftmost _) as [[[[k4 p4] n4] h4]|] eqn:E; [|done].
  destruct (leftmost_heights _ _ _ _ _ Hr E) as [? Hc].
  split; [done|]. split; [done|exact Hc].
Qed.

Lemma AVL_delete_heights key port t : heights_ok t -> heights_ok (AVL_delete_node_internal key port t).
Proof.
  induction t as [|k p n h l IHl r IHr]; [done|]. intros Hh. pose proof Hh as (Hh0 & Hl & Hr).
  cbn [AVL_delete_node_internal]. repeat case_match; try (split; [done|]; split; auto; done).
  by apply delete_root_heights.
Qed.

Lemma AVL_delete_search key port t : search_tree t -> search_tree (AVL_delete_node_internal key port t).
Proof.
  intros Hs. destruct (AVL_delete_spec key port t Hs) as [Hsub _]. eapply sorted_sublist; [exact Hsub|].
  eapply sorted_sublist; [|exact Hs]. apply sublist_filter.
Qed.

(** The trees that calls of [AVL_insert], [AVL_delete_node] and [AVL_clear_tree] make of
    the empty tree. *)
Inductive built : AvlTree -> Prop :=
  | built_Null : built Null
  | built_insert key port node t t' : built t -> AVL_insert key port node t = Some t' -> built t'
  | built_delete key port t : built t -> built (AVL_delete_node key port t)
  | built_clear fuel t t' : built t -> AVL_clear_tree fuel t = Some t' -> built t'.

Lemma clear_loop_null fuel t t' : clear_loop fuel t = Some t' -> t' = Null.
Proof. revert t. induction fuel; intros []; simpl; naive_solver. Qed.

Lemma built_ok t : built t -> search_tree t /\ heights_ok t.
Proof.
  induction 1 as [|key port node t t' _ [Hs Hh] E|key port t _ [Hs Hh]|fuel t t' _ _ E].
  - split; [constructor|done].
  - destruct (AVL_insert_internal_spec key port node t Hs Hh) as (t2 & E2 & Ee & Hh2 & _).
    unfold AVL_insert in E. assert (t2 = t') as -> by congruence. split; [|done].
    unfold search_tree. rewrite Ee. by apply add_sorted.
  - split; [by apply AVL_delete_search|by apply AVL_delete_heights].
  - apply clear_loop_null in E as ->. split; [constructor|done].
Qed.

(** C37: Every tree made of the empty one by insertions, deletions and clearing is sorted by
    key and port, and inserting into it works: no rotation meets a NULL, and the entries
    become the sorted list with the new one in its place, or stay as they were when the
    key and the port are there, or the key is and the port is 0. *)
Theorem AVL_insert_refines t key port node : built t ->
  sorted (entries t) /\
  exists t', AVL_insert key port node t = Some t' /\ entries t' = add key port node (entries t).
Proof.
  intros Hb. destruct (built_ok t Hb) as [Hs Hh]. split; [exact Hs|].
  destruct (AVL_insert_internal_spec key port node t Hs Hh) as (t' & E & Ee & _). by exists t'.
Qed.

(** In such a tree the lookups decide what is in it: [AVL_find] returns the node stored
    for a key and a port, [AVL_is_in_tree] tells whether there is one, and without a port
    the answer is about the key alone. *)
Theorem AVL_lookups_decide t key port : built t ->
  (forall node, AVL_find key port t = Some node <-> mk_entry key port node ∈ entries t) /\
  (AVL_is_in_tree key port t = true <-> exists node, mk_entry key port node ∈ entries t) /\
  (AVL_is_in_tree_no_port_compare key port t = true <-> exists x, x ∈ entries t /\ e_key x = key) /\
  ((exists x, x ∈ entries t /\ e_key x = key /\ AVL_get_port_by_ipaddr key t = e_port x) \/
   ((forall x, x ∈ entries t -> e_key x <> key) /\ AVL_get_port_by_ipaddr key t = 0)).
Proof.
  intros Hb. destruct (built_ok t Hb) as [Hs _].
  split; [by apply AVL_find_internal_spec|]. split; [|split].
  - unfold AVL_is_in_tree. rewrite AVL_is_in_tree_internal_find, bool_decide_eq_true. unfold is_Some.
    by setoid_rewrite AVL_find_internal_spec.
  - by apply no_port_compare_spec.
  - by apply get_port_spec.
Qed.

(** Deletion removes the entry and keeps the order of the rest, but for what it loses:
    when the deleted node has two children and the node promoted in its place, the
    leftmost below the right child, has a right child itself, that subtree is dropped.
    Without such a subtree exactly the entry goes.  [AVL_clear_tree] ends after at most
    as many deletions as there are entries. *)
Theorem AVL_delete_loses t key port : built t ->
  entries (AVL_delete_node key port t) `sublist_of` without key port (entries t) /\
  without key port (entries t) ≡ₚ entries (AVL_delete_node key port t) ++ delete_lost key port t /\
  (delete_lost key port t = [] -> entries (AVL_delete_node key port t) = without key port (entries t)) /\
  AVL_clear_tree (length (entries t)) t = Some Null.
Proof.
  intros Hb. destruct (built_ok t Hb) as [Hs _].
  pose proof (AVL_delete_spec key port t Hs) as Hl. split; [apply Hl|]. split; [apply Hl|]. split.
  - intros E. rewrite E in Hl. by apply loses_none.
  - by apply clear_loop_ends.
Qed.

(** [AVL_list] writes the addresses and ports of the tree in order, separated by commas,
    behind what the buffer holds; the buffer grows in time and the text ends in a NUL
    inside it. *)
Theorem AVL_list_prints t st text : t <> Null -> holds_text st text ->
  Forall entry_ok (entries t) -> lb_max st + 1024 * zlen (entries t) + 1 <= ALLOC_MAX ->
  exists st', AVL_list t st = Some (PBSE_NONE, st') /\ holds_text st' (list_text text (entries t)) /\
    is_Some (lb_buf st').
Proof.
  intros Hn Ht Ho Ha. rewrite <- size_entries in Ha.
  destruct (AVL_list_internal_ok t st text Hn Ht Ho Ha) as (st' & E & T & B & _). by exists st'.
Qed.

(** The trees of insertions with one entry per key. *)
Inductive grown : AvlTree -> Prop :=
  | grown_Null : grown Null
  | grown_insert key port node t t' : grown t -> one_per_key key port t ->
      AVL_insert key port node t = Some t' -> grown t'.

(** C38: As long as every key has one entry and nothing is deleted, the tree is balanced: the
    heights stored are those of the subtrees, siblings differ by at most one, and a
    tree of [n] entries has at most [2 log2 (n + 1)] levels. *)
Theorem AVL_insert_balanced t : grown t -> avl t /\ 2 ^ ((height t + 1) / 2) <= zlen (entries t) + 1.
Proof.
  intros Hg. assert (Ha : avl t); [|split; [done|rewrite <- size_entries; by apply avl_height_bound]].
  induction Hg as [|key port node t t' _ IH Hu E]; [done|].
  destruct (AVL_insert_internal_avl key port node t IH Hu) as (t2 & E2 & Ha & _).
  unfold AVL_insert in E. congruence.
Qed.

End ListProofs.

(** ** Examples *)

Section TreeWitnesses.
#[local] Existing Instance generous.
#[local] Existing Instance generous_ok.

(** The tree of the keys of [l], inserted in order with port 7. *)
Definition tree_of (l : list Z) : option AvlTree :=
  foldl (fun t key => t ← t; AVL_insert key 7 (100 + key) t) (Some Null) l.

Lemma tree_of_built l : forall t, tree_of l = Some t -> built t.
Proof.
  unfold tree_of. induction l as [|key l IH] using rev_ind; intros t.
  - intros [= <-]. constructor.
  - rewrite foldl_app. simpl. destruct (foldl _ _ l) as [t0|] eqn:E; [|done].
    intros Et. eapply built_insert; [by apply IH|exact Et].
Qed.

Definition six : AvlTree := default Null (tree_of [20; 10; 40; 30; 50; 35]).

Lemma six_built : built six.
Proof. apply (tree_of_built [20; 10; 40; 30; 50; 35]). reflexivity. Qed.

Lemma AVL_insert_refines_witness :
  exists t', AVL_insert 25 7 125 six = Some t' /\
    entries t' = [mk_entry 10 7 110; mk_entry 20 7 120; mk_entry 25 7 125; mk_entry 30 7 130;
                  mk_entry 35 7 135; mk_entry 40 7 140; mk_entry 50 7 150].
Proof.
  destruct (proj2 (AVL_insert_refines six 25 7 125 six_built)) as (t' & E & Ee).
  exists t'. split; [exact E|exact Ee].
Defined.

Lemma AVL_lookups_decide_witness : mk_entry 35 7 135 ∈ entries six.
Proof. apply (proj1 (AVL_lookups_decide six 35 7 six_built)). reflexivity. Defined.

Lemma AVL_delete_loses_witness :
  entries (AVL_delete_node 10 7 six) = without 10 7 (entries six).
Proof.
  apply (proj1 (proj2 (proj2 (AVL_delete_loses six 10 7 six_built)))). reflexivity.
Defined.

(** The list that starts with no buffer at all. *)
Lemma AVL_list_prints_witness :
  exists st', AVL_list six (mk_listbuf None 0 0) = Some (PBSE_NONE, st') /\
    holds_text st' (list_text [] (entries six)).
Proof.
  destruct (AVL_list_prints six (mk_listbuf None 0 0) []) as (st' & E & Ht & _).
  - discriminate.
  - split; [constructor|]. split; [reflexivity|]. split; [discriminate|]. split; reflexivity.
  - repeat (constructor; [split; vm_compute; split; (discriminate || reflexivity)|]). constructor.
  - vm_compute. discriminate.
  - exists st'. split; [exact E|exact Ht].
Defined.

Definition one_node : AvlTree := Node 20 7 120 0 Null Null.

Lemma AVL_insert_balanced_witness : avl one_node.
Proof.
  apply AVL_insert_balanced. eapply (grown_insert 20 7 120 Null); [constructor| |reflexivity].
  intros x Hx. inversion Hx.
Defined.

(** Deleting the root 30 promotes 40 and drops 45 that hung below it. *)
Example delete_drops_subtree :
  exists t, tree_of [30; 10; 50; 5; 40; 60; 45] = Some t /\ AVL_is_in_tree 45 7 t = true /\
    map e_key (entries (AVL_delete_node 30 7 t)) = [5; 10; 40; 50; 60].
Proof. eexists. split; [reflexivity|]. split; reflexivity. Qed.

(** Two ports of one key defeat the choice of the rotation: the single rotation made for
    port 5 leaves a chain. *)
Example equal_keys_unbalance :
  (t ← AVL_insert 3 9 0 Null; t ← AVL_insert 1 9 0 t; AVL_insert 3 5 0 t)
  = Some (Node 1 9 0 2 Null (Node 3 9 0 1 (Node 3 5 0 0 Null Null) Null)).
Proof. reflexivity. Qed.

End TreeWitnesses.
