(* ===== verification/TcpDis.v ===== *)
(** * The buffered DIS channel (src/src/lib/Libifl/tcp_dis.c)

    A [tcp_chan] carries a read and a write buffer.  Readers advance the lead
    pointer and then commit (trail := lead) or roll back (lead := trail);
    writers append at the lead pointer, commit, and a flush sends the committed
    prefix.  Pointers are modelled as offsets into their block, the block as the
    list of its cells; accesses outside a block are [UB].

    The kernel side of the socket is part of the state: the results the
    successive [socket_read] and [write_ac_socket] calls will have, and the
    bytes already handed to the kernel. *)

From S2P Require Import Prelude.
From stdpp Require Import base list numbers option.

Local Open Scope Z_scope.
Local Open Scope st_scope.

(** ** State *)

Record tcpdisbuf := mk_tcpdisbuf {
  tdis_bufsize : Z;
  tdis_leadp : Z;
  tdis_trailp : Z;
  tdis_eod : Z;
  tdis_thebuf : list Z
}.

(** The error codes [socket_read] returns. *)
Inductive sock_error :=
| SockTimeout | SockClose | SockData_err | SockRead_err | SockMalloc_err.

Definition PBSE_TIMEOUT : Z := 15085.
Definition PBSE_SOCKET_READ : Z := 15098.
Definition PBSE_SOCKET_CLOSE : Z := 15099.
Definition PBSE_SOCKET_DATA : Z := 15112.

Definition sock_rc (e : sock_error) : Z :=
  match e with
  | SockTimeout => PBSE_TIMEOUT
  | SockClose => PBSE_SOCKET_CLOSE
  | SockData_err => PBSE_SOCKET_DATA
  | SockRead_err => PBSE_SOCKET_READ
  | SockMalloc_err => PBSE_MEM_MALLOC
  end.

(** What one [socket_read] call delivers, and what one [write_ac_socket] call
    returns: [WrSome n] accepts at most [n] bytes, [WrIntr] is -1 with [EINTR],
    [WrFail] is -1 with another [errno]. *)
Inductive read_event := RdData (bs : list Z) | RdErr (e : sock_error).
Inductive write_event := WrSome (n : Z) | WrIntr | WrFail.

Record tcp_chan := mk_tcp_chan {
  readbuf : tcpdisbuf;
  writebuf : tcpdisbuf;
  IsTimeout : Z;
  ReadErrno : Z;
  SelectErrno : Z;
  sock : Z
}.

(** [dis_umax]/[dis_umaxd] of disiui_.c and [ulmax]/[ulmaxdigs] of disrsl_.c. *)
Record dis_statics := mk_dis_statics {
  dis_umaxd : Z;
  dis_umax : option (list Z);
  ulmaxdigs : Z;
  ulmax : option (list Z)
}.

Record world := mk_world {
  chan : tcp_chan;
  net_in : list read_event;
  net_wr : list write_event;
  net_out : list Z;
  statics : dis_statics
}.

Definition M (A : Type) : Type := ST world A.

Definition set_chan (c : tcp_chan) (w : world) : world :=
  mk_world c (net_in w) (net_wr w) (net_out w) (statics w).
Definition set_readbuf (b : tcpdisbuf) (w : world) : world :=
  let c := chan w in
  set_chan (mk_tcp_chan b (writebuf c) (IsTimeout c) (ReadErrno c) (SelectErrno c) (sock c)) w.
Definition set_writebuf (b : tcpdisbuf) (w : world) : world :=
  let c := chan w in
  set_chan (mk_tcp_chan (readbuf c) b (IsTimeout c) (ReadErrno c) (SelectErrno c) (sock c)) w.
Definition set_errs (t r s : Z) (w : world) : world :=
  let c := chan w in
  set_chan (mk_tcp_chan (readbuf c) (writebuf c) t r s (sock c)) w.
Definition set_net_in (l : list read_event) (w : world) : world :=
  mk_world (chan w) l (net_wr w) (net_out w) (statics w).
Definition set_net_wr (l : list write_event) (out : list Z) (w : world) : world :=
  mk_world (chan w) (net_in w) l out (statics w).
Definition set_statics (s : dis_statics) (w : world) : world :=
  mk_world (chan w) (net_in w) (net_wr w) (net_out w) s.

Definition THE_BUF_SIZE : Z := 262144.

(** ** Operations *)

Section Ops.
Context `{Platform}.

(** The character-by-character move of [tcp_pack_buff]. *)
Fixpoint pack_loop (n : nat) (i start : Z) (buf : list Z) : option (list Z) :=
  match n with
  | O => Some buf
  | S n' =>
      c ← mem_read buf (i + start) 1;
      buf' ← mem_write buf i c;
      pack_loop n' (i + 1) start buf'
  end.

Definition tcp_pack_buff (tp : tcpdisbuf) : option tcpdisbuf :=
  let start := tdis_trailp tp in
  if start =? 0 then Some tp
  else
    let amt := u64 (tdis_eod tp - tdis_trailp tp) in
    if amt <? zlen (tdis_thebuf tp) then
      buf ← pack_loop (Z.to_nat amt) 0 start (tdis_thebuf tp);
      buf' ← mem_write buf amt [c_nul];
      Some (mk_tcpdisbuf (tdis_bufsize tp) (tdis_leadp tp - start)
              (tdis_trailp tp - start) (tdis_eod tp - start) buf')
    else None.

(** [socket_read]: the next result the kernel has for the descriptor; nothing
    more to come is a timeout. *)
Definition socket_read : M (list Z + sock_error) := fun w =>
  match net_in w with
  | [] => Ret (inr SockTimeout) w
  | RdData bs :: l => Ret (inl bs) (set_net_in l w)
  | RdErr e :: l => Ret (inr e) (set_net_in l w)
  end.

(** Data that fits behind [tdis_eod]. *)
Definition tcp_read_fit (tp : tcpdisbuf) (new_data : list Z) : option tcpdisbuf :=
  buf ← mem_write (tdis_thebuf tp) (tdis_eod tp) (new_data ++ [c_nul]);
  Some (mk_tcpdisbuf (tdis_bufsize tp) (tdis_leadp tp) (tdis_trailp tp)
          (tdis_eod tp + zlen new_data) buf).

(** Data that does not fit: both parts are printed as C strings into a new
    block of [newsize + 1] bytes. *)
Definition tcp_read_expand (tp : tcpdisbuf) (new_data : list Z) (newsize : Z) :
    option tcpdisbuf :=
  old ← cstring (tdis_thebuf tp);
  fresh ← cstring (new_data ++ [c_nul]);
  let s := take (Z.to_nat (newsize - 1)) (old ++ fresh) in
  Some (mk_tcpdisbuf newsize (i32 (tdis_leadp tp)) (i32 (tdis_trailp tp))
          (i32 (tdis_eod tp) + zlen new_data)
          (s ++ replicate (Z.to_nat (newsize + 1 - zlen s)) c_nul)).

(** Returns the code, [*read_len] and [*avail_len]. *)
Definition tcp_read (read_len avail_len : Z) : M (Z * Z * Z) :=
  let* w := st_get in
  let* tp := st_lift (tcp_pack_buff (readbuf (chan w))) in
  st_modify (fun w => set_errs 0 0 0 (set_readbuf tp w)) >>>
  let tdis_buf_len := i32 (tdis_bufsize tp) in
  let max_read_len := i32 (tdis_bufsize tp - tdis_eod tp) in
  let* r := socket_read in
  match r with
  | inr SockTimeout =>
      st_modify (set_errs 1 0 0) >>> st_ret (PBSE_TIMEOUT, read_len, avail_len)
  | inr e =>
      st_modify (set_errs 0 (sock_rc e) (sock_rc e)) >>>
      st_ret (sock_rc e, read_len, avail_len)
  | inl new_data =>
      let n := zlen new_data in
      if n <? max_read_len then
        let* tp' := st_lift (tcp_read_fit tp new_data) in
        st_modify (set_readbuf tp') >>>
        st_ret (PBSE_NONE, n, tdis_eod tp' - tdis_leadp tp')
      else
        let newsize := u64 ((tdis_buf_len + n) * 2) in
        if calloc_ok (newsize + 1) then
          let* tp' := st_lift (tcp_read_expand tp new_data newsize) in
          st_modify (set_readbuf tp') >>>
          st_ret (PBSE_NONE, n, tdis_eod tp' - tdis_leadp tp')
        else st_ret (PBSE_MEM_MALLOC, n, avail_len)
  end.

(** [tcp_gets]: returns the count (or -1/-2) and the bytes copied to [str].
    Every turn of the loop consumes a kernel result, so their number bounds it. *)
Fixpoint tcp_gets_loop (fuel : nat) (ct data_read data_avail : Z) : M (Z * list Z) :=
  match fuel with
  | O => fun _ => OutOfFuel
  | S fuel' =>
      if u64 data_avail <? ct then
        let* (rc, data_read', data_avail') := tcp_read data_read data_avail in
        if rc =? PBSE_NONE then tcp_gets_loop fuel' ct data_read' data_avail'
        else st_ret (if data_read' =? 0 then -2 else -1, [])
      else
        let* w := st_get in
        let tp := readbuf (chan w) in
        let* str := st_lift (mem_read (tdis_thebuf tp) (tdis_leadp tp) ct) in
        st_modify (set_readbuf (mk_tcpdisbuf (tdis_bufsize tp) (tdis_leadp tp + ct)
                     (tdis_trailp tp) (tdis_eod tp) (tdis_thebuf tp))) >>>
        st_ret (i32 ct, str)
  end.

Definition tcp_gets (ct : Z) : M (Z * list Z) :=
  let* w := st_get in
  let tp := readbuf (chan w) in
  tcp_gets_loop (S (S (length (net_in w)))) ct 0 (tdis_eod tp - tdis_leadp tp).

Definition tcp_getc : M Z :=
  let* (rc, str) := tcp_gets 1 in
  if rc <? 0 then st_ret rc
  else match str with c :: _ => st_ret c | [] => st_ub end.

(** [tcp_puts chan str ct] with [ct] the length of [str]. *)
Definition tcp_puts (str : list Z) : M Z :=
  let* w := st_get in
  let tp := writebuf (chan w) in
  let ct := zlen str in
  if tdis_bufsize tp =? 0 then st_ret (-1)
  else
    let* otp :=
      (if tdis_bufsize tp - tdis_leadp tp <? ct then
         let leadpct := i32 (- tdis_leadp tp) in
         let trailpct := i32 (- tdis_trailp tp) in
         let newbufsize := u64 (tdis_bufsize tp + THE_BUF_SIZE + ct * 2) in
         if calloc_ok (newbufsize + 1) then
           let* old := st_lift (mem_read (tdis_thebuf tp) 0 (tdis_bufsize tp)) in
           (* strlen(tp->tdis_thebuf) for the log message *)
           let* _ := st_lift (cstring (tdis_thebuf tp)) in
           st_ret (Some (mk_tcpdisbuf newbufsize (- leadpct) (- trailpct) newbufsize
                      (old ++ replicate (Z.to_nat (newbufsize + 1 - tdis_bufsize tp)) c_nul)))
         else st_ret None
       else st_ret (Some tp)) in
    match otp with
    | None => st_ret (-1)
    | Some tp =>
        let* buf := st_lift (mem_write (tdis_thebuf tp) (tdis_leadp tp) str) in
        st_modify (set_writebuf (mk_tcpdisbuf (tdis_bufsize tp) (tdis_leadp tp + ct)
                     (tdis_trailp tp) (tdis_eod tp) buf)) >>>
        st_ret (i32 ct)
    end.

Definition commit_buf (commit_flag : bool) (tp : tcpdisbuf) : tcpdisbuf :=
  if commit_flag
  then mk_tcpdisbuf (tdis_bufsize tp) (tdis_leadp tp) (tdis_leadp tp) (tdis_eod tp) (tdis_thebuf tp)
  else mk_tcpdisbuf (tdis_bufsize tp) (tdis_trailp tp) (tdis_trailp tp) (tdis_eod tp) (tdis_thebuf tp).

Definition tcp_rcommit (commit_flag : bool) : M Z :=
  st_modify (fun w => set_readbuf (commit_buf commit_flag (readbuf (chan w))) w) >>> st_ret 0.

Definition tcp_wcommit (commit_flag : bool) : M Z :=
  st_modify (fun w => set_writebuf (commit_buf commit_flag (writebuf (chan w))) w) >>> st_ret 0.

Definition tcp_rskip (ct : Z) : M Z :=
  let* w := st_get in
  let tp := readbuf (chan w) in
  if tdis_leadp tp - tdis_eod tp <? i64 ct then st_ret (-1)
  else
    st_modify (set_readbuf (mk_tcpdisbuf (tdis_bufsize tp) (tdis_leadp tp + ct)
                 (tdis_trailp tp) (tdis_eod tp) (tdis_thebuf tp))) >>>
    st_ret 0.

Definition tcp_chan_has_data : M bool :=
  let* w := st_get in
  let tp := readbuf (chan w) in
  st_ret (negb (tdis_eod tp =? tdis_leadp tp)).

Definition DIS_tcp_clear (tp : tcpdisbuf) : tcpdisbuf :=
  mk_tcpdisbuf (tdis_bufsize tp) 0 0 0 (tdis_thebuf tp).

Definition DIS_tcp_reset (i : Z) : M unit :=
  st_modify (fun w =>
    if i =? 0 then set_readbuf (DIS_tcp_clear (readbuf (chan w))) w
    else set_writebuf (DIS_tcp_clear (writebuf (chan w))) w).

(** [write_ac_socket]: [Some n] bytes taken by the kernel (all of them once the
    scripted results are used up), [None] with whether [errno] is [EINTR]. *)
Definition write_ac_socket (data : list Z) : M (Z + bool) := fun w =>
  match net_wr w with
  | [] => Ret (inl (zlen data)) (set_net_wr [] (net_out w ++ data) w)
  | WrSome n :: l =>
      let k := Z.max 0 (Z.min n (zlen data)) in
      Ret (inl k) (set_net_wr l (net_out w ++ take (Z.to_nat k) data) w)
  | WrIntr :: l => Ret (inr true) (set_net_wr l (net_out w) w)
  | WrFail :: l => Ret (inr false) (set_net_wr l (net_out w) w)
  end.

(** The sending loop of [DIS_tcp_wflush] from offset [pb] for [ct] bytes; the
    result says whether everything went out. *)
Fixpoint wflush_loop (fuel : nat) (pb ct : Z) : M bool :=
  match fuel with
  | O => fun _ => OutOfFuel
  | S fuel' =>
      let* w := st_get in
      let* data := st_lift (mem_read (tdis_thebuf (writebuf (chan w))) pb ct) in
      let* r := write_ac_socket data in
      match r with
      | inl n =>
          let i := i32 n in
          if i =? ct then st_ret true
          else if i =? -1 then st_ret false
          else wflush_loop fuel' (pb + i) (ct - i)
      | inr true => wflush_loop fuel' pb ct
      | inr false => st_ret false
      end
  end.

Definition DIS_tcp_wflush : M Z :=
  let* w := st_get in
  let ct := tdis_trailp (writebuf (chan w)) in
  let* ok := wflush_loop (S (length (net_wr w))) 0 ct in
  if ok then
    let* w := st_get in
    let tp := writebuf (chan w) in
    let* tp' := st_lift (tcp_pack_buff
                  (mk_tcpdisbuf (tdis_bufsize tp) (tdis_leadp tp) (tdis_trailp tp)
                     (tdis_leadp tp) (tdis_thebuf tp))) in
    st_modify (set_writebuf tp') >>> st_ret 0
  else st_ret (-1).

(** [DIS_tcp_setup]: a fresh channel on descriptor [fd]; [None] is NULL. *)
Definition fresh_buf : tcpdisbuf :=
  mk_tcpdisbuf THE_BUF_SIZE 0 0 0 (replicate (Z.to_nat (THE_BUF_SIZE + 1)) c_nul).

Definition SIZEOF_TCP_CHAN : Z := 104.

Definition DIS_tcp_setup (fd : Z) : option tcp_chan :=
  if fd <? 0 then None
  else if negb (calloc_ok SIZEOF_TCP_CHAN) then None
  else if negb (calloc_ok (THE_BUF_SIZE + 1)) then None
  else Some (mk_tcp_chan (DIS_tcp_clear fresh_buf) (DIS_tcp_clear fresh_buf) 0 0 0 fd).

End Ops.

(** ** The abstract channel

    Clients see a channel as byte sequences: what was consumed since the last
    commit, what can still be read before the kernel reports an error, what is
    committed for sending and what is written but not yet committed. *)

Fixpoint all_data (l : list read_event) : list Z :=
  match l with
  | [] => []
  | RdData bs :: l' => bs ++ all_data l'
  | RdErr _ :: l' => all_data l'
  end.

Fixpoint until_err (l : list read_event) : list Z :=
  match l with
  | RdData bs :: l' => bs ++ until_err l'
  | _ => []
  end.

Definition rback (w : world) : list Z :=
  let tp := readbuf (chan w) in slice (tdis_trailp tp) (tdis_leadp tp) (tdis_thebuf tp).
Definition rbuffered (w : world) : list Z :=
  let tp := readbuf (chan w) in slice (tdis_leadp tp) (tdis_eod tp) (tdis_thebuf tp).
Definition rfront (w : world) : list Z := rbuffered w ++ until_err (net_in w).

Definition wcommitted (w : world) : list Z :=
  let tp := writebuf (chan w) in slice 0 (tdis_trailp tp) (tdis_thebuf tp).
Definition wpending (w : world) : list Z :=
  let tp := writebuf (chan w) in slice (tdis_trailp tp) (tdis_leadp tp) (tdis_thebuf tp).

(** Bytes that are uncommitted, buffered or still to come: the measure of every
    reading loop. *)
Definition rmeasure (w : world) : nat :=
  (length (rback w) + length (rbuffered w) + length (all_data (net_in w)))%nat.

(** Decimal digits of [UINT_MAX] and [ULONG_MAX]. *)
Definition umax_digits : list Z := [52;50;57;52;57;54;55;50;57;53].
Definition ulmax_digits : list Z :=
  [49;56;52;52;54;55;52;52;48;55;51;55;48;57;53;53;49;54;49;53].

Definition wf_statics (s : dis_statics) : Prop :=
  ((dis_umaxd s = 0 /\ dis_umax s = None) \/
   (dis_umaxd s = 10 /\ dis_umax s = Some umax_digits)) /\
  ((ulmaxdigs s = 0 /\ ulmax s = None) \/
   (ulmaxdigs s = 20 /\ ulmax s = Some ulmax_digits)).

Record wf_rbuf (tp : tcpdisbuf) : Prop := {
  wr_trail : 0 <= tdis_trailp tp <= tdis_leadp tp;
  wr_lead : tdis_leadp tp <= tdis_eod tp;
  wr_eod : tdis_eod tp <= tdis_bufsize tp;
  wr_size : 0 < tdis_bufsize tp < 2147483648;
  wr_len : zlen (tdis_thebuf tp) = tdis_bufsize tp + 1;
  wr_nul : slice (tdis_eod tp) (tdis_eod tp + 1) (tdis_thebuf tp) = [0]
}.

(** The read side is well formed when its pointers are ordered, the text at
    [tdis_eod] is terminated, less than 512 MiB are outstanding, and either the
    stream carries no NUL byte or what is outstanding fits the buffer: growing
    the buffer goes through ["%s%s"], which does not preserve NUL bytes. *)
Record wf_read (w : world) : Prop := {
  wr_buf : wf_rbuf (readbuf (chan w));
  wr_total : 4 * (tdis_eod (readbuf (chan w)) + zlen (all_data (net_in w))) < 2147483648;
  wr_text :
    nul_free (slice 0 (tdis_eod (readbuf (chan w))) (tdis_thebuf (readbuf (chan w))) ++
              all_data (net_in w)) \/
    tdis_eod (readbuf (chan w)) + zlen (all_data (net_in w)) < tdis_bufsize (readbuf (chan w));
  wr_statics : wf_statics (statics w)
}.

Record wf_wbuf (tp : tcpdisbuf) : Prop := {
  ww_trail : 0 <= tdis_trailp tp <= tdis_leadp tp;
  ww_lead : tdis_leadp tp <= tdis_bufsize tp;
  ww_lead_max : tdis_leadp tp < 2147483648;
  ww_size : 0 < tdis_bufsize tp < 8589934592;
  ww_len : zlen (tdis_thebuf tp) = tdis_bufsize tp + 1;
  ww_nul : slice (tdis_bufsize tp) (tdis_bufsize tp + 1) (tdis_thebuf tp) = [0]
}.

Definition wf_write (w : world) : Prop := wf_wbuf (writebuf (chan w)).

(** What an operation on one side of the channel leaves alone. *)
Definition rframe (w w' : world) : Prop :=
  writebuf (chan w') = writebuf (chan w) /\ sock (chan w') = sock (chan w) /\
  net_wr w' = net_wr w /\ net_out w' = net_out w.
Definition wframe (w w' : world) : Prop :=
  readbuf (chan w') = readbuf (chan w) /\ sock (chan w') = sock (chan w) /\
  net_in w' = net_in w /\ net_wr w' = net_wr w /\ net_out w' = net_out w /\
  statics w' = statics w.

Lemma rframe_refl w : rframe w w.
Proof. by unfold rframe. Qed.
Lemma rframe_trans w1 w2 w3 : rframe w1 w2 -> rframe w2 w3 -> rframe w1 w3.
Proof. unfold rframe. intros; destruct_all; repeat split; congruence. Qed.
Lemma wframe_refl w : wframe w w.
Proof. by unfold wframe. Qed.
Lemma wframe_trans w1 w2 w3 : wframe w1 w2 -> wframe w2 w3 -> wframe w1 w3.
Proof. unfold wframe. intros; destruct_all; repeat split; congruence. Qed.

#[export] Hint Resolve rframe_refl wframe_refl zlen_nonneg : dis.

Lemma until_err_prefix l : exists k, all_data l = until_err l ++ k.
Proof.
  induction l as [|[bs|e] l [k IH]]; simpl; [by exists []| |by eexists].
  exists k. by rewrite IH, app_assoc.
Qed.

Lemma zlen_until_err l : zlen (until_err l) <= zlen (all_data l).
Proof. destruct (until_err_prefix l) as [k ->]. rewrite zlen_app. pose proof (zlen_nonneg k). lia. Qed.

(** ** [tcp_pack_buff] *)

Lemma pack_loop_spec n : forall i start buf,
  0 <= i -> 0 <= start -> i + start + Z.of_nat n <= zlen buf ->
  pack_loop n i start buf =
    Some (take (Z.to_nat i) buf ++ slice (i + start) (i + start + Z.of_nat n) buf ++
          drop (Z.to_nat (i + Z.of_nat n)) buf).
Proof.
  induction n as [|n IH]; intros i start buf Hi Hs Hl.
  - simpl. rewrite Z.add_0_r, slice_nil. simpl. by rewrite Z.add_0_r, take_drop.
  - simpl pack_loop. rewrite mem_read_ok by lia. simpl.
    unfold mem_write. rewrite zlen_slice by lia.
    rewrite (proj2 (Z.leb_le 0 i)), (proj2 (Z.leb_le _ (zlen buf))) by lia. simpl.
    set (c := slice (i + start) (i + start + 1) buf).
    assert (Hc : zlen c = 1) by (subst c; rewrite zlen_slice; lia).
    set (b1 := take (Z.to_nat i) buf ++ c ++ _).
    assert (Hb1 : zlen b1 = zlen buf).
    { subst b1. rewrite !zlen_app, zlen_take, zlen_drop by lia. lia. }
    rewrite IH by lia.
    assert (Hpre : zlen (take (Z.to_nat i) buf ++ c) = i + 1).
    { rewrite zlen_app, zlen_take; lia. }
    assert (Hsl : forall b e, i + 1 <= b -> slice b e b1 = slice b e buf).
    { intros b e ?. subst b1. rewrite app_assoc.
      rewrite slice_app_r by lia. rewrite Hpre. unfold slice. rewrite drop_drop.
      f_equal; [lia|]. f_equal. lia. }
    rewrite (Hsl (i + 1 + start)) by lia.
    assert (Htk : take (Z.to_nat (i + 1)) b1 = take (Z.to_nat i) buf ++ c).
    { subst b1. rewrite app_assoc. apply take_app_length'. unfold zlen in Hpre. lia. }
    rewrite Htk.
    assert (Hdr : drop (Z.to_nat (i + 1 + Z.of_nat n)) b1 = drop (Z.to_nat (i + Z.of_nat (S n))) buf).
    { subst b1. rewrite app_assoc. rewrite drop_app_ge by (unfold zlen in Hpre; lia).
      rewrite drop_drop. f_equal. unfold zlen in Hpre. lia. }
    rewrite Hdr. rewrite <- !app_assoc. do 2 f_equal.
    rewrite (slice_split (i + start) (i + start + 1)) by lia.
    rewrite <- app_assoc. f_equal. f_equal. f_equal; lia.
Qed.

Lemma tcp_pack_buff_spec tp :
  0 <= tdis_trailp tp <= tdis_eod tp -> tdis_eod tp < zlen (tdis_thebuf tp) ->
  zlen (tdis_thebuf tp) < 18446744073709551616 ->
  exists tp', tcp_pack_buff tp = Some tp'
    /\ tdis_bufsize tp' = tdis_bufsize tp
    /\ tdis_trailp tp' = 0
    /\ tdis_leadp tp' = tdis_leadp tp - tdis_trailp tp
    /\ tdis_eod tp' = tdis_eod tp - tdis_trailp tp
    /\ zlen (tdis_thebuf tp') = zlen (tdis_thebuf tp)
    /\ (forall b e, 0 <= b -> e <= tdis_eod tp' ->
          slice b e (tdis_thebuf tp') = slice (b + tdis_trailp tp) (e + tdis_trailp tp) (tdis_thebuf tp))
    /\ (tdis_trailp tp <> 0 \/ slice (tdis_eod tp) (tdis_eod tp + 1) (tdis_thebuf tp) = [0] ->
        slice (tdis_eod tp') (tdis_eod tp' + 1) (tdis_thebuf tp') = [0])
    /\ (forall b e, tdis_eod tp' < b ->
          slice b e (tdis_thebuf tp') = slice b e (tdis_thebuf tp)).
Proof.
  intros Ht He Hl. unfold tcp_pack_buff.
  destruct (Z.eqb_spec (tdis_trailp tp) 0) as [E|E].
  - exists tp. rewrite E. rewrite !Z.sub_0_r. repeat split; try done.
    + intros. by rewrite !Z.add_0_r.
    + by intros [|].
  - rewrite u64_small by lia.
    remember (tdis_eod tp - tdis_trailp tp) as amt eqn:Hamt.
    rewrite (proj2 (Z.ltb_lt _ _)) by lia.
    rewrite pack_loop_spec by lia. simpl.
    rewrite Z2Nat.id, !Z.add_0_l by lia. simpl.
    set (buf := slice _ _ _ ++ _).
    assert (Hbl : zlen buf = zlen (tdis_thebuf tp)).
    { subst buf. rewrite zlen_app, zlen_slice, zlen_drop by lia. lia. }
    assert (Hsl : zlen (slice (tdis_trailp tp) (tdis_trailp tp + amt) (tdis_thebuf tp)) = amt)
      by (rewrite zlen_slice; lia).
    destruct (mem_write_ok buf amt [c_nul]) as (buf' & -> & Hlen & Hlo & Hmid & Hhi);
      [lia|change (zlen [c_nul]) with 1; lia|].
    simpl. eexists; split; [done|]. simpl. change (zlen [c_nul]) with 1 in *.
    repeat split; try lia.
    + intros b e ??. rewrite Hlo by lia. subst buf.
      rewrite slice_app_l by lia. unfold slice at 1 2.
      rewrite skipn_firstn_comm, take_take, drop_drop. unfold slice.
      destruct (Z_le_gt_dec b e).
      * f_equal; [lia|]. f_equal. lia.
      * replace (Z.to_nat (e - b)) with 0%nat by lia.
        by replace (Z.to_nat (e + tdis_trailp tp - (b + tdis_trailp tp))) with 0%nat by lia.
    + intros _. exact Hmid.
    + intros b e ?. rewrite Hhi by lia. subst buf.
      rewrite slice_app_r by lia. rewrite Hsl. unfold slice. rewrite drop_drop.
      f_equal; [lia|]. f_equal. lia.
Qed.

(** ** [tcp_read] *)

Section ReadSide.
Context `{AllocOk}.

Lemma wf_rbuf_pack w :
  wf_read w ->
  exists tp, tcp_pack_buff (readbuf (chan w)) = Some tp /\ tdis_trailp tp = 0
    /\ wf_rbuf tp /\ tdis_bufsize tp = tdis_bufsize (readbuf (chan w))
    /\ tdis_eod tp = tdis_eod (readbuf (chan w)) - tdis_trailp (readbuf (chan w))
    /\ slice 0 (tdis_leadp tp) (tdis_thebuf tp) = rback w
    /\ slice (tdis_leadp tp) (tdis_eod tp) (tdis_thebuf tp) = rbuffered w
    /\ (nul_free (slice 0 (tdis_eod tp) (tdis_thebuf tp) ++ all_data (net_in w)) \/
        tdis_eod tp + zlen (all_data (net_in w)) < tdis_bufsize tp).
Proof.
  intros [[Ht Hl He Hs Hn Hz] Htot Htxt _].
  destruct (tcp_pack_buff_spec (readbuf (chan w))) as
    (tp & Hp & Ebs & Etr & Eld & Eeod & Elen & Hsl & Hnul & _); [lia..|].
  exists tp. split; [done|]. split; [done|].
  split; [constructor; try lia; by apply Hnul; right|].
  split; [done|]. split; [done|].
  unfold rback, rbuffered.
  split; [rewrite Hsl by lia; f_equal; lia|].
  split; [rewrite Hsl by lia; f_equal; lia|].
  destruct Htxt as [Htxt|Htxt]; [left|right; lia].
  rewrite Hsl by lia. rewrite Z.add_0_l, Eeod.
  replace (tdis_eod _ - _ + _) with (tdis_eod (readbuf (chan w))) by lia.
  rewrite (slice_split 0 (tdis_trailp (readbuf (chan w)))) in Htxt by lia.
  rewrite <- app_assoc in Htxt. by apply Forall_app in Htxt as [_ ?].
Qed.

(** A block of text followed by its terminator, read as a C string. *)
Lemma cstring_slice buf n :
  0 <= n -> n + 1 <= zlen buf -> slice n (n + 1) buf = [0] ->
  nul_free (slice 0 n buf) -> cstring buf = Some (slice 0 n buf).
Proof.
  intros Hn Hl Hz Hf.
  rewrite <- (slice_all buf) at 1. pose proof (zlen_nonneg buf).
  rewrite (slice_split 0 n), (slice_split n (n + 1)) by lia.
  rewrite Hz. simpl. by apply cstring_app.
Qed.

(** Data that does not fit moves to a larger block with the same text. *)
Lemma tcp_read_expand_spec tp bs newsize :
  wf_rbuf tp -> newsize = (tdis_bufsize tp + zlen bs) * 2 -> newsize < 2147483648 ->
  nul_free (slice 0 (tdis_eod tp) (tdis_thebuf tp) ++ bs) ->
  exists tp', tcp_read_expand tp bs newsize = Some tp'
    /\ tdis_bufsize tp' = newsize
    /\ tdis_leadp tp' = tdis_leadp tp /\ tdis_trailp tp' = tdis_trailp tp
    /\ tdis_eod tp' = tdis_eod tp + zlen bs
    /\ zlen (tdis_thebuf tp') = newsize + 1
    /\ slice 0 (tdis_eod tp') (tdis_thebuf tp') = slice 0 (tdis_eod tp) (tdis_thebuf tp) ++ bs
    /\ slice (tdis_eod tp') (tdis_eod tp' + 1) (tdis_thebuf tp') = [0].
Proof.
  intros [Ht Hl He Hs Hn Hz] Hnew Hmax Hf. pose proof (zlen_nonneg bs).
  unfold tcp_read_expand.
  pose proof Hf as [Hf1 Hf2]%Forall_app.
  rewrite (cstring_slice (tdis_thebuf tp) (tdis_eod tp)) by (lia || assumption). simpl.
  rewrite cstring_app by assumption. simpl.
  rewrite !i32_small by lia.
  set (s := slice 0 (tdis_eod tp) (tdis_thebuf tp) ++ bs).
  assert (Hsl : zlen s = tdis_eod tp + zlen bs).
  { subst s. rewrite zlen_app, zlen_slice; lia. }
  rewrite (take_ge s) by (unfold zlen in *; lia).
  eexists; split; [done|]. simpl.
  repeat split; try done.
  - rewrite zlen_app, zlen_replicate. lia.
  - rewrite slice_app_l by lia. rewrite <- Hsl. apply slice_all.
  - rewrite slice_app_r by lia. rewrite Hsl.
    rewrite Z.sub_diag, Z.add_simpl_l, slice_0. replace (Z.to_nat (newsize + 1 - _)) with
      (S (Z.to_nat (newsize - (tdis_eod tp + zlen bs)))) by lia. done.
Qed.

Lemma tcp_read_fit_spec tp bs :
  wf_rbuf tp -> tdis_eod tp + zlen bs < tdis_bufsize tp ->
  exists tp', tcp_read_fit tp bs = Some tp'
    /\ tdis_bufsize tp' = tdis_bufsize tp
    /\ tdis_leadp tp' = tdis_leadp tp /\ tdis_trailp tp' = tdis_trailp tp
    /\ tdis_eod tp' = tdis_eod tp + zlen bs
    /\ zlen (tdis_thebuf tp') = tdis_bufsize tp + 1
    /\ slice 0 (tdis_eod tp') (tdis_thebuf tp') = slice 0 (tdis_eod tp) (tdis_thebuf tp) ++ bs
    /\ slice (tdis_eod tp') (tdis_eod tp' + 1) (tdis_thebuf tp') = [0].
Proof.
  intros [Ht Hl He Hs Hn Hz] Hfit. pose proof (zlen_nonneg bs).
  unfold tcp_read_fit.
  destruct (mem_write_ok (tdis_thebuf tp) (tdis_eod tp) (bs ++ [c_nul]))
    as (buf & -> & Hlen & Hlo & Hmid & _); [lia|rewrite zlen_app; change (zlen [c_nul]) with 1; lia|].
  rewrite zlen_app in Hmid. change (zlen [c_nul]) with 1 in Hmid.
  apply (slice_app_inv _ (tdis_eod tp + zlen bs)) in Hmid as [Hm1 Hm2]; [|lia..].
  simpl. eexists; split; [done|]. simpl. repeat split; try lia.
  - rewrite (slice_split 0 (tdis_eod tp)) by lia. rewrite Hlo by lia. by rewrite Hm1.
  - by rewrite <- Z.add_assoc.
Qed.

(** A buffer grown by [bs], by either branch, is well formed again. *)
Lemma wf_rbuf_grow tp tp' bs :
  wf_rbuf tp -> 0 < tdis_bufsize tp' < 2147483648 ->
  tdis_leadp tp' = tdis_leadp tp -> tdis_trailp tp' = tdis_trailp tp ->
  tdis_eod tp' = tdis_eod tp + zlen bs -> tdis_eod tp' <= tdis_bufsize tp' ->
  zlen (tdis_thebuf tp') = tdis_bufsize tp' + 1 ->
  slice 0 (tdis_eod tp') (tdis_thebuf tp') = slice 0 (tdis_eod tp) (tdis_thebuf tp) ++ bs ->
  slice (tdis_eod tp') (tdis_eod tp' + 1) (tdis_thebuf tp') = [0] ->
  wf_rbuf tp' /\
  slice (tdis_trailp tp') (tdis_leadp tp') (tdis_thebuf tp') =
    slice (tdis_trailp tp) (tdis_leadp tp) (tdis_thebuf tp) /\
  slice (tdis_leadp tp') (tdis_eod tp') (tdis_thebuf tp') =
    slice (tdis_leadp tp) (tdis_eod tp) (tdis_thebuf tp) ++ bs.
Proof.
  intros [Ht Hl He Hs Hn Hz] Hb El Et Ee Heb Hlen Htxt Hnul. pose proof (zlen_nonneg bs).
  split; [constructor; (lia || done)|].
  rewrite (slice_split 0 (tdis_leadp tp)) in Htxt by lia.
  rewrite (slice_split 0 (tdis_leadp tp) (tdis_eod tp)), <- app_assoc in Htxt by lia.
  pose proof (zlen_slice 0 (tdis_leadp tp) (tdis_thebuf tp) ltac:(lia) ltac:(lia)).
  pose proof (zlen_slice 0 (tdis_leadp tp) (tdis_thebuf tp') ltac:(lia) ltac:(lia)).
  apply app_inj_1 in Htxt as [Hx1 Hx2]; [|unfold zlen in *; lia].
  rewrite El, Et, Hx2. split; [|done].
  rewrite (slice_split 0 (tdis_trailp tp)) in Hx1 by lia.
  rewrite (slice_split 0 (tdis_trailp tp) (tdis_leadp tp)) in Hx1 by lia.
  pose proof (zlen_slice 0 (tdis_trailp tp) (tdis_thebuf tp) ltac:(lia) ltac:(lia)).
  pose proof (zlen_slice 0 (tdis_trailp tp) (tdis_thebuf tp') ltac:(lia) ltac:(lia)).
  by apply app_inj_1 in Hx1 as [_ ?]; [|unfold zlen in *; lia].
Qed.

Lemma tcp_read_data rl al w bs l :
  wf_read w -> net_in w = RdData bs :: l ->
  exists w', tcp_read rl al w = Ret (0, zlen bs, zlen (rbuffered w')) w'
    /\ wf_read w' /\ net_in w' = l /\ rback w' = rback w
    /\ rbuffered w' = rbuffered w ++ bs /\ rframe w w' /\ statics w' = statics w.
Proof.
  intros Hwf Hnet. pose proof (wf_rbuf_pack w Hwf)
    as (tp & Hp & Etr & Htp & Ebs & Eeod & Eback & Ebuf & Htxt).
  pose proof Hwf as [Hrb Htot _ Hst]. pose proof (wr_trail _ Hrb).
  pose proof Htp as [Ht Hl He Hs Hn Hz].
  rewrite Hnet in Htot, Htxt. simpl in Htot, Htxt. rewrite zlen_app in Htot.
  pose proof (zlen_nonneg bs). pose proof (zlen_nonneg (all_data l)).
  unfold tcp_read, st_bind, st_get, st_lift, st_modify, st_ret. rewrite Hp.
  unfold socket_read. simpl. rewrite Hnet. simpl.
  rewrite !i32_small by lia.
  assert (Hgrow : exists tp',
    (if zlen bs <? tdis_bufsize tp - tdis_eod tp
     then tcp_read_fit tp bs
     else if calloc_ok (u64 ((tdis_bufsize tp + zlen bs) * 2) + 1)
          then tcp_read_expand tp bs (u64 ((tdis_bufsize tp + zlen bs) * 2)) else None) = Some tp'
    /\ wf_rbuf tp' /\ tdis_eod tp' = tdis_eod tp + zlen bs
    /\ slice (tdis_trailp tp') (tdis_leadp tp') (tdis_thebuf tp') = rback w
    /\ slice (tdis_leadp tp') (tdis_eod tp') (tdis_thebuf tp') = rbuffered w ++ bs
    /\ (nul_free (slice 0 (tdis_eod tp') (tdis_thebuf tp') ++ all_data l) \/
        tdis_eod tp' + zlen (all_data l) < tdis_bufsize tp')).
  { destruct (Z.ltb_spec (zlen bs) (tdis_bufsize tp - tdis_eod tp)) as [Hc|Hc].
    - destruct (tcp_read_fit_spec tp bs) as (tp' & ? & Eb & El & Et & Ee & Elen & Htx & Hnu);
        [done|lia|].
      destruct (wf_rbuf_grow tp tp' bs) as (Hwf' & Hb1 & Hb2); [done|lia|done..|lia|lia|done|done|].
      exists tp'. split; [done|]. split; [done|]. split; [done|].
      split; [by rewrite Hb1, Etr|]. split; [by rewrite Hb2, Ebuf|].
      destruct Htxt as [Htxt|Htxt]; [left|right; rewrite zlen_app in Htxt; lia].
      rewrite Htx, <- app_assoc. done.
    - assert (Htxt' : nul_free (slice 0 (tdis_eod tp) (tdis_thebuf tp) ++ bs ++ all_data l)).
      { destruct Htxt as [Htxt|Htxt]; [done|]. rewrite zlen_app in Htxt. lia. }
      rewrite u64_small by lia. rewrite alloc_ok by (unfold ALLOC_MAX; lia).
      destruct (tcp_read_expand_spec tp bs _ Htp eq_refl) as
        (tp' & ? & Eb & El & Et & Ee & Elen & Htx & Hnu);
        [lia|rewrite app_assoc in Htxt'; by apply Forall_app in Htxt' as [? _]|].
      destruct (wf_rbuf_grow tp tp' bs) as (Hwf' & Hb1 & Hb2); [done|lia|done..|lia|lia|done|done|].
      exists tp'. split; [done|]. split; [done|]. split; [done|].
      split; [by rewrite Hb1, Etr|]. split; [by rewrite Hb2, Ebuf|].
      left. rewrite Htx, <- app_assoc. done. }
  destruct Hgrow as (tp' & Htp' & Hwf' & Ee & Hb1 & Hb2 & Htx).
  assert (Hres : forall w2, readbuf (chan w2) = tp' -> net_in w2 = l -> statics w2 = statics w ->
    rframe w w2 -> wf_read w2 /\ net_in w2 = l /\ rback w2 = rback w
    /\ rbuffered w2 = rbuffered w ++ bs /\ rframe w w2 /\ statics w2 = statics w).
  { intros w2 Er En Est Hfr. unfold rback at 1, rbuffered at 1. rewrite Er.
    split; [|done]. constructor; rewrite ?Er, ?En, ?Est; try done. lia. }
  assert (Hlen : zlen (slice (tdis_leadp tp') (tdis_eod tp') (tdis_thebuf tp'))
    = tdis_eod tp' - tdis_leadp tp').
  { destruct Hwf'. rewrite zlen_slice; lia. }
  destruct (zlen bs <? tdis_bufsize tp - tdis_eod tp) eqn:Ec;
    [|destruct (calloc_ok _) eqn:Ecal; [|done]]; rewrite Htp'; simpl;
    rewrite <- Hlen; take_world; (split; [reflexivity|]; apply Hres; done).
Qed.

Lemma tcp_read_err rl al w :
  wf_read w -> until_err (net_in w) = [] -> (forall bs l, net_in w <> RdData bs :: l) ->
  exists rc w', tcp_read rl al w = Ret (rc, rl, al) w' /\ rc <> 0
    /\ wf_read w' /\ net_in w' = tail (net_in w) /\ rback w' = rback w
    /\ rbuffered w' = rbuffered w /\ rframe w w' /\ statics w' = statics w.
Proof.
  intros Hwf _ Hnd. pose proof (wf_rbuf_pack w Hwf)
    as (tp & Hp & Etr & Htp & Ebs & Eeod & Eback & Ebuf & Htxt).
  pose proof Hwf as [Hrb Htot _ Hst]. pose proof (wr_trail _ Hrb).
  assert (Hres : forall w2, readbuf (chan w2) = tp -> net_in w2 = tail (net_in w) ->
    statics w2 = statics w -> rframe w w2 ->
    wf_read w2 /\ net_in w2 = tail (net_in w) /\ rback w2 = rback w
    /\ rbuffered w2 = rbuffered w /\ rframe w w2 /\ statics w2 = statics w).
  { intros w2 Er En Est Hfr. unfold rback at 1, rbuffered at 1. rewrite Er, Etr, Eback, Ebuf.
    split; [|done].
    assert (all_data (tail (net_in w)) = all_data (net_in w)) as Ead.
    { destruct (net_in w) as [|[bs|e] l]; [done| |done]. by destruct (Hnd bs l). }
    constructor; rewrite ?Er, ?En, ?Est, ?Ead; try done. lia. }
  unfold tcp_read, st_bind, st_get, st_lift, st_modify, st_ret. rewrite Hp.
  unfold socket_read. simpl.
  destruct (net_in w) as [|[bs|e] l] eqn:En; simpl.
  - eexists _, _. split; [reflexivity|]. split; [done|]. by apply Hres.
  - by destruct (Hnd bs l).
  - destruct e; eexists _, _; (split; [reflexivity|]; split; [done|]; by apply Hres).
Qed.

(** The statics of Libdis are filled once and stay filled. *)
Definition statics_le (s s' : dis_statics) : Prop :=
  (dis_umaxd s <> 0 -> dis_umaxd s' <> 0) /\ (ulmaxdigs s <> 0 -> ulmaxdigs s' <> 0).

Lemma statics_le_eq s s' : s' = s -> statics_le s s'.
Proof. by intros ->. Qed.

Lemma statics_le_trans s1 s2 s3 : statics_le s1 s2 -> statics_le s2 s3 -> statics_le s1 s3.
Proof. intros [] []. split; auto. Qed.

(** Consuming [bs] from the read side of [w] ends in [w']: the bytes join the
    uncommitted ones and nothing is lost or invented. *)
Record rstep (w w' : world) (bs : list Z) : Prop := {
  rs_wf : wf_read w';
  rs_back : rback w' = rback w ++ bs;
  rs_frame : rframe w w';
  rs_measure : rmeasure w' = rmeasure w;
  rs_front : exists k, bs ++ rfront w' = rfront w ++ k;
  rs_statics : statics_le (statics w) (statics w')
}.

Lemma rstep_trans w1 w2 w3 a b :
  rstep w1 w2 a -> rstep w2 w3 b -> rstep w1 w3 (a ++ b).
Proof.
  intros [? Hb1 ? Hm1 [k1 Hk1] ?] [? Hb2 ? Hm2 [k2 Hk2] ?].
  constructor; [done| | |congruence| |by eapply statics_le_trans].
  - by rewrite Hb2, Hb1, app_assoc.
  - by eapply rframe_trans.
  - exists (k1 ++ k2). by rewrite <- app_assoc, Hk2, app_assoc, Hk1, app_assoc.
Qed.

Lemma rbuffered_len w :
  wf_read w ->
  tdis_eod (readbuf (chan w)) - tdis_leadp (readbuf (chan w)) = zlen (rbuffered w).
Proof. intros [[] _ _ _]. unfold rbuffered. rewrite zlen_slice; lia. Qed.

Lemma tcp_gets_take w ct :
  wf_read w -> 0 <= ct <= zlen (rbuffered w) ->
  exists w',
    (let tp := readbuf (chan w) in
     match mem_read (tdis_thebuf tp) (tdis_leadp tp) ct with
     | Some str => Ret (i32 ct, str)
         (set_readbuf (mk_tcpdisbuf (tdis_bufsize tp) (tdis_leadp tp + ct)
            (tdis_trailp tp) (tdis_eod tp) (tdis_thebuf tp)) w)
     | None => UB
     end) = Ret (i32 ct, take (Z.to_nat ct) (rbuffered w)) w'
    /\ rstep w w' (take (Z.to_nat ct) (rbuffered w))
    /\ rbuffered w' = drop (Z.to_nat ct) (rbuffered w)
    /\ net_in w' = net_in w.
Proof.
  intros Hwf Hct. pose proof (rbuffered_len w Hwf) as Hlen.
  pose proof Hwf as [[Ht Hl He Hs Hn Hz] Htot Htxt Hst].
  simpl. assert (Etk : take (Z.to_nat ct) (rbuffered w) =
    slice (tdis_leadp (readbuf (chan w))) (tdis_leadp (readbuf (chan w)) + ct)
      (tdis_thebuf (readbuf (chan w)))) by (unfold rbuffered; by rewrite take_slice by lia).
  assert (Edr : drop (Z.to_nat ct) (rbuffered w) =
    slice (tdis_leadp (readbuf (chan w)) + ct) (tdis_eod (readbuf (chan w)))
      (tdis_thebuf (readbuf (chan w)))) by (unfold rbuffered; by rewrite drop_slice by lia).
  rewrite Etk, Edr. set (tp := readbuf (chan w)) in *.
  rewrite mem_read_ok by lia. take_world. split; [reflexivity|].
  assert (Eb : slice (tdis_trailp tp) (tdis_leadp tp + ct) (tdis_thebuf tp) =
    rback w ++ slice (tdis_leadp tp) (tdis_leadp tp + ct) (tdis_thebuf tp)).
  { unfold rback. by rewrite (slice_split _ (tdis_leadp tp)) by lia. }
  split; [|done]. constructor; simpl; try done.
  - by constructor; simpl; [constructor; simpl; (lia || done)| | | done].
  - unfold rmeasure, rback, rbuffered. simpl. fold tp. unfold rback in Eb. fold tp in Eb.
    rewrite Eb, length_app.
    rewrite (slice_split (tdis_leadp tp) (tdis_leadp tp + ct) (tdis_eod tp)) by lia.
    rewrite length_app. lia.
  - exists []. rewrite app_nil_r. unfold rfront, rbuffered. simpl. fold tp.
    rewrite app_assoc. by rewrite <- slice_split by lia.
Qed.

Lemma tcp_gets_loop_ok l : forall w fuel ct dr,
  net_in w = l -> wf_read w -> (length l < fuel)%nat -> 0 <= ct <= zlen (rfront w) ->
  exists w', tcp_gets_loop fuel ct dr (zlen (rbuffered w)) w =
      Ret (i32 ct, take (Z.to_nat ct) (rfront w)) w'
    /\ rstep w w' (take (Z.to_nat ct) (rfront w))
    /\ rfront w' = drop (Z.to_nat ct) (rfront w).
Proof.
  induction l as [|ev l IH]; intros w fuel ct dr Hnet Hwf Hfuel Hct;
    (destruct fuel as [|fuel]; [simpl in Hfuel; lia|]);
    pose proof (zlen_nonneg (rbuffered w)); simpl tcp_gets_loop;
    pose proof (wr_total _ Hwf); pose proof (rbuffered_len w Hwf);
    pose proof (wr_buf _ Hwf) as Hbuf;
    rewrite u64_small by (destruct Hbuf; lia);
    destruct (Z.ltb_spec (zlen (rbuffered w)) ct) as [Hlt|Hge].
  1: { unfold rfront in Hct. rewrite Hnet, zlen_app in Hct. simpl in Hct.
       change (zlen (A := Z) []) with 0 in Hct. lia. }
  2: { destruct ev as [bs|e].
       2: { unfold rfront in Hct. rewrite Hnet, zlen_app in Hct. simpl in Hct.
            change (zlen (A := Z) []) with 0 in Hct. lia. }
       destruct (tcp_read_data dr (zlen (rbuffered w)) w bs l Hwf Hnet)
         as (w1 & Hr & Hwf1 & Hn1 & Hb1 & Hf1 & Hfr & Hst).
       rewrite (st_bind_ret _ _ _ _ _ Hr). simpl.
       assert (Efront : rfront w1 = rfront w).
       { unfold rfront. by rewrite Hf1, Hn1, Hnet, <- app_assoc. }
       destruct (IH w1 fuel ct (zlen bs) Hn1 Hwf1) as (w' & Hg & [] & Hf);
         [simpl in Hfuel; lia|by rewrite Efront|].
       rewrite Efront in *. exists w'. split; [done|]. split; [|done].
       constructor; try congruence; [by eapply rframe_trans|].
       rewrite rs_measure0. unfold rmeasure. rewrite Hb1, Hf1, Hn1, Hnet. simpl.
       rewrite !length_app. lia. }
  all: unfold st_bind, st_get, st_lift, st_modify, st_ret;
    destruct (tcp_gets_take w ct Hwf ltac:(lia)) as (w' & Hr & Hst & Hb & Hn); simpl in Hr;
    destruct (mem_read _ _ _) as [str|]; [|done];
    assert (Etk : take (Z.to_nat ct) (rfront w) = take (Z.to_nat ct) (rbuffered w))
      by (unfold rfront; apply take_app_le; unfold zlen in *; lia);
    exists w'; rewrite Etk; split; [exact Hr|]; split; [done|];
    unfold rfront; rewrite Hb, Hn, drop_app_le by (unfold zlen in *; lia); done.
Qed.

Lemma tcp_gets_loop_fail l : forall w fuel ct dr,
  net_in w = l -> wf_read w -> (length l < fuel)%nat -> zlen (rfront w) < ct ->
  exists rc w', tcp_gets_loop fuel ct dr (zlen (rbuffered w)) w = Ret (rc, []) w'
    /\ (rc = -1 \/ rc = -2) /\ rstep w w' [] /\ (exists k, rfront w' = rfront w ++ k)
    /\ (rfront w = [] -> dr = 0 -> rc = -2).
Proof.
  induction l as [|ev l IH]; intros w fuel ct dr Hnet Hwf Hfuel Hct;
    (destruct fuel as [|fuel]; [simpl in Hfuel; lia|]);
    pose proof (zlen_nonneg (rbuffered w)); simpl tcp_gets_loop;
    pose proof (wr_total _ Hwf); pose proof (rbuffered_len w Hwf);
    pose proof (wr_buf _ Hwf) as Hbuf;
    (assert (Hlt : zlen (rbuffered w) < ct)
      by (unfold rfront in Hct; rewrite zlen_app in Hct;
          pose proof (zlen_nonneg (until_err (net_in w))); lia));
    rewrite u64_small by (destruct Hbuf; lia);
    rewrite (proj2 (Z.ltb_lt _ _) Hlt).
  2: destruct ev as [bs|e].
  2: { destruct (tcp_read_data dr (zlen (rbuffered w)) w bs l Hwf Hnet)
         as (w1 & Hr & Hwf1 & Hn1 & Hb1 & Hf1 & Hfr & Hst).
       rewrite (st_bind_ret _ _ _ _ _ Hr). simpl.
       assert (Efront : rfront w1 = rfront w).
       { unfold rfront. by rewrite Hf1, Hn1, Hnet, <- app_assoc. }
       destruct (IH w1 fuel ct (zlen bs) Hn1 Hwf1) as (rc & w' & Hg & Hrc & [] & Hf & Heof);
         [simpl in Hfuel; lia|by rewrite Efront|].
       rewrite Efront in *. exists rc, w'. split; [done|]. split; [done|].
       split; [|split; [done|]; intros E _; apply Heof; [done|]; unfold rfront in E;
         rewrite Hnet in E; simpl in E; by apply app_nil in E as [_ [-> _]%app_nil]].
       constructor; try congruence; [by eapply rframe_trans|].
       rewrite rs_measure0. unfold rmeasure. rewrite Hb1, Hf1, Hn1, Hnet. simpl.
       rewrite !length_app. lia. }
  all: destruct (tcp_read_err dr (zlen (rbuffered w)) w Hwf)
      as (rc & w' & Hr & Hrc & Hwf' & Hn & Hb & Hf & Hfr & Hst);
    [by rewrite Hnet|intros ?? E; by rewrite Hnet in E|];
    rewrite (st_bind_ret _ _ _ _ _ Hr); unfold PBSE_NONE;
    rewrite (proj2 (Z.eqb_neq _ _) Hrc);
    eexists _, w'; (split; [reflexivity|]);
    (split; [by destruct (dr =? 0); auto|]);
    (assert (Hk : rfront w' = rfront w ++ until_err (tail (net_in w)))
      by (unfold rfront; rewrite Hf, Hn, Hnet; simpl; by rewrite ?app_nil_r));
    (split; [|split; [by eexists|by intros _ ->]]);
    constructor; [done|by rewrite app_nil_r|done| |by eexists|by apply statics_le_eq];
    unfold rmeasure; by rewrite Hb, Hf, Hn, Hnet.
Qed.

Lemma tcp_gets_ok w ct :
  wf_read w -> 0 <= ct <= zlen (rfront w) ->
  exists w', tcp_gets ct w = Ret (i32 ct, take (Z.to_nat ct) (rfront w)) w'
    /\ rstep w w' (take (Z.to_nat ct) (rfront w))
    /\ rfront w' = drop (Z.to_nat ct) (rfront w).
Proof.
  intros Hwf Hct. unfold tcp_gets, st_bind, st_get. rewrite (rbuffered_len w Hwf).
  apply (tcp_gets_loop_ok (net_in w)); (done || lia).
Qed.

Lemma tcp_gets_fail w ct :
  wf_read w -> zlen (rfront w) < ct ->
  exists rc w', tcp_gets ct w = Ret (rc, []) w'
    /\ (rc = -1 \/ rc = -2) /\ rstep w w' [] /\ (exists k, rfront w' = rfront w ++ k)
    /\ (rfront w = [] -> rc = -2).
Proof.
  intros Hwf Hct. unfold tcp_gets, st_bind, st_get. rewrite (rbuffered_len w Hwf).
  destruct (tcp_gets_loop_fail (net_in w) w (S (S (length (net_in w)))) ct 0)
    as (rc & w' & E & ? & ? & ? & ?); [done|done|lia|done|]. eauto 10.
Qed.

Lemma tcp_getc_ok w c rest :
  wf_read w -> rfront w = c :: rest ->
  exists w', tcp_getc w = Ret c w' /\ rstep w w' [c] /\ rfront w' = rest.
Proof.
  intros Hwf Hf. destruct (tcp_gets_ok w 1 Hwf) as (w' & Hg & Hst & Hf').
  { rewrite Hf, zlen_cons. pose proof (zlen_nonneg rest). lia. }
  rewrite Hf in *. simpl in Hf'. exists w'. unfold tcp_getc.
  by rewrite (st_bind_ret _ _ _ _ _ Hg).
Qed.

Lemma tcp_getc_fail w :
  wf_read w -> rfront w = [] ->
  exists rc w', tcp_getc w = Ret rc w' /\ (rc = -1 \/ rc = -2) /\ rstep w w' []
    /\ exists k, rfront w' = k.
Proof.
  intros Hwf Hf. destruct (tcp_gets_fail w 1 Hwf) as (rc & w' & Hg & Hrc & Hst & [k Hf'] & _).
  { rewrite Hf. done. }
  exists rc, w'. unfold tcp_getc. rewrite (st_bind_ret _ _ _ _ _ Hg).
  split; [by destruct Hrc as [-> | ->]|]. eauto.
Qed.

Lemma tcp_rcommit_true w :
  wf_read w ->
  exists w', tcp_rcommit true w = Ret 0 w' /\ wf_read w' /\ rback w' = []
    /\ rfront w' = rfront w /\ rframe w w' /\ statics w' = statics w
    /\ rmeasure w = (length (rback w) + rmeasure w')%nat.
Proof.
  intros [[Ht Hl He Hs Hn Hz] Htot Htxt Hst].
  eexists; split; [reflexivity|]. unfold rback at 1, rfront, rbuffered, rmeasure. simpl.
  rewrite slice_nil. split; [by constructor; simpl; [constructor; simpl; (lia || done)|..]|].
  repeat split. unfold rback at 3. simpl. rewrite slice_nil. unfold rbuffered. simpl. lia.
Qed.

Lemma tcp_rcommit_false w :
  wf_read w ->
  exists w', tcp_rcommit false w = Ret 0 w' /\ wf_read w' /\ rback w' = []
    /\ rfront w' = rback w ++ rfront w /\ rframe w w' /\ statics w' = statics w
    /\ rmeasure w' = rmeasure w.
Proof.
  intros [[Ht Hl He Hs Hn Hz] Htot Htxt Hst].
  eexists; split; [reflexivity|].
  assert (E : rbuffered (set_readbuf (commit_buf false (readbuf (chan w))) w) = rback w ++ rbuffered w).
  { unfold rback, rbuffered. simpl. by rewrite <- slice_split by lia. }
  split; [by constructor; simpl; [constructor; simpl; (lia || done)|..]|].
  split; [unfold rback; simpl; by rewrite slice_nil|].
  split; [unfold rfront; rewrite E; simpl; by rewrite app_assoc|].
  repeat split. unfold rmeasure. rewrite E, length_app. unfold rback at 1. simpl.
  rewrite slice_nil. simpl. lia.
Qed.

End ReadSide.

(** ** The write side *)

Definition wlen (w : world) : Z := tdis_leadp (writebuf (chan w)).

Section WriteSide.
Context `{AllocOk}.

Lemma cstring_some buf b : In 0 (take b buf) -> is_Some (cstring buf).
Proof.
  revert b. induction buf as [|c buf IH]; intros b Hin; [by rewrite take_nil in Hin|].
  destruct b as [|b]; [done|]. simpl in *.
  destruct (Z.eqb_spec c 0); [done|]. destruct Hin as [->|Hin]; [done|].
  destruct (IH b Hin) as [s ->]. done.
Qed.

Lemma wf_wbuf_strlen tp : wf_wbuf tp -> is_Some (cstring (tdis_thebuf tp)).
Proof.
  intros [Ht Hl Hm Hs Hn Hz]. apply (cstring_some _ (length (tdis_thebuf tp))).
  rewrite firstn_all. rewrite <- (slice_all (tdis_thebuf tp)), Hn.
  rewrite (slice_split 0 (tdis_bufsize tp)), Hz by lia.
  apply in_or_app. right. by left.
Qed.

(** Room for [ct] more bytes, with a reallocation when needed. *)
Lemma wbuf_room tp ct :
  wf_wbuf tp -> 0 <= ct -> tdis_leadp tp + ct < 2147483648 ->
  exists tp',
    (forall w : world,
      (if tdis_bufsize tp - tdis_leadp tp <? ct then
         let leadpct := i32 (- tdis_leadp tp) in
         let trailpct := i32 (- tdis_trailp tp) in
         let newbufsize := u64 (tdis_bufsize tp + THE_BUF_SIZE + ct * 2) in
         if calloc_ok (newbufsize + 1) then
           let* old := st_lift (mem_read (tdis_thebuf tp) 0 (tdis_bufsize tp)) in
           let* _ := st_lift (cstring (tdis_thebuf tp)) in
           st_ret (Some (mk_tcpdisbuf newbufsize (- leadpct) (- trailpct) newbufsize
                      (old ++ replicate (Z.to_nat (newbufsize + 1 - tdis_bufsize tp)) c_nul)))
         else st_ret None
       else st_ret (Some tp)) w = Ret (Some tp') w)
    /\ wf_wbuf tp' /\ tdis_leadp tp' + ct <= tdis_bufsize tp'
    /\ tdis_leadp tp' = tdis_leadp tp /\ tdis_trailp tp' = tdis_trailp tp
    /\ (forall b e, 0 <= b -> e <= tdis_leadp tp ->
          slice b e (tdis_thebuf tp') = slice b e (tdis_thebuf tp)).
Proof.
  intros Hwf Hct Hmax. pose proof Hwf as [Ht Hl Hm Hs Hn Hz].
  destruct (Z.ltb_spec (tdis_bufsize tp - tdis_leadp tp) ct) as [Hlt|Hge];
    [|exists tp; repeat split; (done || lia)].
  rewrite !i32_small by lia. unfold THE_BUF_SIZE.
  rewrite u64_small by lia. rewrite alloc_ok by (unfold ALLOC_MAX; lia).
  rewrite mem_read_ok by lia. destruct (wf_wbuf_strlen tp Hwf) as [str ->].
  rewrite Z.add_0_l. set (old := slice 0 (tdis_bufsize tp) (tdis_thebuf tp)).
  assert (Hold : zlen old = tdis_bufsize tp) by (subst old; rewrite zlen_slice; lia).
  eexists; split; [intros; reflexivity|]. simpl. rewrite !Z.opp_involutive.
  split; [|repeat split; [lia|]].
  - constructor; simpl; try lia.
    + rewrite zlen_app, zlen_replicate. lia.
    + rewrite slice_app_r by lia. rewrite Hold. unfold slice. rewrite drop_replicate.
      rewrite take_replicate. match goal with |- replicate ?n _ = _ => replace n with 1%nat by lia end.
      done.
  - intros b e ??. rewrite slice_app_l by lia. subst old. unfold slice.
    rewrite skipn_firstn_comm, take_take. f_equal. lia.
Qed.

Lemma tcp_puts_ok w s :
  wf_write w -> wlen w + zlen s < 2147483648 ->
  exists w', tcp_puts s w = Ret (zlen s) w' /\ wf_write w'
    /\ wcommitted w' = wcommitted w /\ wpending w' = wpending w ++ s
    /\ wlen w' = wlen w + zlen s /\ wframe w w'.
Proof.
  intros Hwf Hlen. pose proof Hwf as [Ht Hl Hm Hs Hn Hz]. unfold wlen in *.
  pose proof (zlen_nonneg s).
  destruct (wbuf_room (writebuf (chan w)) (zlen s)) as (tp & Hroom & [] & Hfit & El & Et & Hsl);
    [done|lia|lia|].
  unfold tcp_puts. unfold st_bind at 1. unfold st_get at 1.
  destruct (Z.eqb_spec (tdis_bufsize (writebuf (chan w))) 0); [lia|].
  rewrite (st_bind_ret _ _ _ _ _ (Hroom w)).
  destruct (mem_write_ok (tdis_thebuf tp) (tdis_leadp tp) s) as (buf & -> & Hbl & Hlo & Hmid & Hhi);
    [lia|lia|].
  unfold st_bind, st_lift, st_ret, st_modify. simpl. rewrite i32_small by lia.
  eexists; split; [reflexivity|].
  split; [constructor; simpl; rewrite ?Hbl; try lia; rewrite Hhi by lia; done|].
  unfold wcommitted, wpending. simpl. rewrite Et, El in *.
  split; [rewrite Hlo by lia; apply Hsl; lia|].
  split; [|done].
  rewrite (slice_split _ (tdis_leadp (writebuf (chan w)))), Hmid by lia.
  f_equal. rewrite Hlo by lia. apply Hsl; lia.
Qed.

Lemma tcp_wcommit_ok b w :
  wf_write w ->
  exists w', tcp_wcommit b w = Ret 0 w' /\ wf_write w' /\ wpending w' = []
    /\ wcommitted w' = wcommitted w ++ (if b then wpending w else [])
    /\ wlen w' = (if b then wlen w else wlen w - zlen (wpending w))
    /\ wframe w w'.
Proof.
  intros [Ht Hl Hm Hs Hn Hz]. unfold wlen.
  eexists; split; [reflexivity|].
  split; [destruct b; constructor; simpl; (lia || done)|].
  unfold wpending, wcommitted.
  assert (zlen (wpending w) = tdis_leadp (writebuf (chan w)) - tdis_trailp (writebuf (chan w)))
    by (unfold wpending; rewrite zlen_slice; lia).
  destruct b; simpl; rewrite slice_nil; split; try done.
  - split; [by rewrite <- slice_split by lia|done].
  - rewrite app_nil_r. split; [done|]. unfold wpending in *. split; [lia|done].
Qed.

(** The flush loop sends a prefix of the remaining bytes, all of them when it
    reports success. *)
Lemma wflush_loop_spec l : forall w fuel pb ct,
  net_wr w = l -> (length l < fuel)%nat -> 0 <= pb -> 0 <= ct < 2147483648 ->
  pb + ct <= zlen (tdis_thebuf (writebuf (chan w))) ->
  exists (ok : bool) k w', wflush_loop fuel pb ct w = Ret ok w'
    /\ 0 <= k <= ct /\ (ok = true -> k = ct) /\ (~ In WrFail l -> ok = true)
    /\ net_out w' = net_out w ++ slice pb (pb + k) (tdis_thebuf (writebuf (chan w)))
    /\ chan w' = chan w /\ net_in w' = net_in w /\ statics w' = statics w.
Proof.
  induction l as [|ev l IH]; intros w fuel pb ct Hnet Hfuel Hpb Hct Hlen;
    (destruct fuel as [|fuel]; [simpl in Hfuel; lia|]); simpl wflush_loop;
    unfold st_bind at 1; unfold st_get at 1; rewrite mem_read_ok by lia;
    unfold st_bind at 1; unfold st_lift, st_ret at 1;
    unfold st_bind at 1; unfold write_ac_socket; rewrite Hnet.
  - rewrite zlen_slice by lia.
    replace (pb + ct - pb) with ct by lia. rewrite i32_small, Z.eqb_refl by lia.
    exists true, ct. eexists. split; [reflexivity|]. simpl. repeat split; (done || lia).
  - destruct ev as [n| |].
    + rewrite zlen_slice by lia. replace (pb + ct - pb) with ct by lia.
      set (k := Z.max 0 (Z.min n ct)). rewrite i32_small by lia.
      destruct (Z.eqb_spec k ct) as [Ek|Ek].
      * exists true, ct. eexists. split; [reflexivity|]. simpl.
        split; [lia|]. split; [done|]. split; [done|]. split; [|done].
        f_equal. rewrite take_slice by lia. by rewrite Ek.
      * rewrite (proj2 (Z.eqb_neq k (-1))) by lia.
        destruct (IH (set_net_wr l (net_out w ++ take (Z.to_nat k)
          (slice pb (pb + ct) (tdis_thebuf (writebuf (chan w))))) w) fuel (pb + k) (ct - k))
          as (ok & k' & w' & Hr & Hk & Hok & Hnf & Ho & Hc & Hi & Hs);
          simpl in *; [done|lia|lia|lia|lia|].
        exists ok, (k + k'), w'. rewrite Hr. split; [done|]. split; [lia|].
        split; [intros E; specialize (Hok E); lia|]. split; [tauto|].
        split; [|done]. rewrite Ho, <- app_assoc. f_equal.
        rewrite take_slice by lia. rewrite Z.add_assoc.
        by rewrite <- slice_split by lia.
    + destruct (IH (set_net_wr l (net_out w) w) fuel pb ct)
        as (ok & k' & w' & Hr & Hk & Hok & Hnf & Ho & Hc & Hi & Hs); simpl in *; [done|lia..|].
      exists ok, k', w'. rewrite Hr. do 3 (split; [done|]). split; [tauto|done].
    + exists false, 0. eexists. split; [reflexivity|]. simpl.
      split; [lia|]. split; [done|]. split; [tauto|]. rewrite Z.add_0_r, slice_nil, app_nil_r. done.
Qed.

(** A successful flush hands exactly the committed bytes to the kernel and keeps
    what is still pending; a failed one has sent a prefix of them. *)
Lemma DIS_tcp_wflush_ok w :
  wf_write w ->
  exists rc w', DIS_tcp_wflush w = Ret rc w' /\ wf_write w'
    /\ wpending w' = wpending w /\ readbuf (chan w') = readbuf (chan w)
    /\ net_in w' = net_in w /\ statics w' = statics w
    /\ (~ In WrFail (net_wr w) -> rc = 0)
    /\ ((rc = 0 /\ net_out w' = net_out w ++ wcommitted w /\ wcommitted w' = []) \/
        (rc = -1 /\ wcommitted w' = wcommitted w /\
         exists k, net_out w' = net_out w ++ take k (wcommitted w))).
Proof.
  intros Hwf. pose proof Hwf as [Ht Hl Hm Hs Hn Hz].
  destruct (wflush_loop_spec (net_wr w) w (S (length (net_wr w))) 0
    (tdis_trailp (writebuf (chan w)))) as (ok & k & w1 & Hr & Hk & Hok & Hnf & Ho & Hc & Hi & Hst);
    [done|lia..|].
  unfold DIS_tcp_wflush, st_bind at 1, st_get at 1. rewrite (st_bind_ret _ _ _ _ _ Hr).
  destruct ok.
  - unfold st_bind at 1, st_get at 1. rewrite Hc.
    set (tp := writebuf (chan w)) in *.
    destruct (tcp_pack_buff_spec (mk_tcpdisbuf (tdis_bufsize tp) (tdis_leadp tp)
      (tdis_trailp tp) (tdis_leadp tp) (tdis_thebuf tp)))
      as (tp' & -> & Eb & Et & El & Ee & Elen & Hsl & Hnu & Hhi); simpl in *; [lia..|].
    unfold st_bind, st_lift, st_ret, st_modify. eexists _, _. split; [reflexivity|].
    specialize (Hok eq_refl). subst k. unfold wpending, wcommitted. simpl. fold tp.
    split.
    { constructor; simpl; try lia.
      rewrite Eb. destruct (Z.eq_dec (tdis_eod tp') (tdis_bufsize tp)) as [E|E].
      - rewrite <- E. apply Hnu. right. by replace (tdis_leadp tp) with (tdis_bufsize tp) by lia.
      - by rewrite Hhi by lia. }
    split; [rewrite Hsl by lia; f_equal; lia|]. rewrite Hc.
    do 4 (split; [done|]). left. rewrite Et, slice_nil. done.
  - unfold st_ret. eexists _, _. split; [reflexivity|].
    unfold wf_write, wpending, wcommitted. rewrite Hc.
    do 5 (split; [done|]). split; [by intros ?%Hnf|]. right. split; [done|]. split; [done|].
    exists (Z.to_nat k). rewrite Ho, take_slice by lia. done.
Qed.

End WriteSide.

(** ** A concrete setting for the witnesses: an allocator that grants 16 GiB and a
    channel with 64-byte blocks. *)
Module Sample.

Definition buf64 : tcpdisbuf := mk_tcpdisbuf 64 0 0 0 (replicate 65 c_nul).

Definition sample (rd : list read_event) (wr : list write_event) : world :=
  mk_world (mk_tcp_chan buf64 buf64 0 0 0 3) rd wr [] (mk_dis_statics 0 None 0 None).

(** Nothing buffered, less than a block to come. *)
Lemma sample_read rd wr : zlen (all_data rd) < 64 -> wf_read (sample rd wr).
Proof.
  intros Hl. pose proof (zlen_nonneg (all_data rd)). constructor; simpl; try lia.
  - constructor; simpl; (lia || reflexivity).
  - split; left; split; reflexivity.
Qed.

Lemma sample_write rd wr : wf_write (sample rd wr).
Proof. constructor; simpl; (lia || reflexivity). Qed.

End Sample.

(** ** What the channel promises *)

Section Channel.
Context `{AllocOk}.

(** C5: Reading [ct] bytes refines the abstract stream: if that many bytes come before the
    kernel reports an error, [tcp_gets] returns exactly them, however they were cut
    into deliveries, and they join the uncommitted bytes; otherwise it returns -1 or
    -2 and no byte is consumed or lost.  The buffer stays well formed and the write
    side is untouched.  The outstanding bytes are less than 512 MiB, and they hold no NUL
    byte unless they fit the buffer without growing it ([wf_read]). *)
Theorem tcp_gets_refines_stream w ct :
  wf_read w -> 0 <= ct < 2147483648 ->
  exists rc s w', tcp_gets ct w = Ret (rc, s) w' /\ wf_read w' /\ rframe w w'
    /\ rback w' = rback w ++ s /\ rmeasure w' = rmeasure w /\
    if ct <=? zlen (rfront w)
    then rc = ct /\ zlen s = ct /\ rfront w = s ++ rfront w'
    else (rc = -1 \/ rc = -2) /\ s = [] /\ exists late, rfront w' = rfront w ++ late.
Proof.
  intros Hw Hct. destruct (Z.leb_spec ct (zlen (rfront w))) as [Hle|Hgt].
  - destruct (tcp_gets_ok w ct Hw) as (w' & E & [] & Hf); [lia|].
    eexists _, _, w'. split; [exact E|]. do 4 (split; [done|]).
    split; [by rewrite i32_small by lia|]. split; [rewrite zlen_take; lia|].
    by rewrite Hf, take_drop.
  - destruct (tcp_gets_fail w ct Hw Hgt) as (rc & w' & E & Hrc & [] & Hk & _).
    exists rc, [], w'. done.
Qed.

(** C25: the read side is a transaction: after [tcp_gets] has consumed bytes, a commit
    forgets them and a roll back makes the stream exactly what it was before. *)
Theorem tcp_rcommit_transaction w ct (commit : bool) :
  wf_read w -> rback w = [] -> 0 <= ct <= zlen (rfront w) ->
  exists w', (tcp_gets ct >>> tcp_rcommit commit) w = Ret 0 w' /\ wf_read w' /\ rframe w w'
    /\ rback w' = []
    /\ rfront w' = if commit then drop (Z.to_nat ct) (rfront w) else rfront w.
Proof.
  intros Hw Hb Hct. destruct (tcp_gets_ok w ct Hw Hct) as (w1 & E & [] & Hf).
  rewrite (st_bind_ret _ _ _ _ _ E). destruct commit.
  - destruct (tcp_rcommit_true w1) as (w2 & E2 & Hw2 & Hb2 & Hf2 & Hfr & _); [done|].
    exists w2. split; [done|]. split; [done|]. split; [by eapply rframe_trans|].
    by rewrite Hf2, Hf.
  - destruct (tcp_rcommit_false w1) as (w2 & E2 & Hw2 & Hb2 & Hf2 & Hfr & _); [done|].
    exists w2. split; [done|]. split; [done|]. split; [by eapply rframe_trans|].
    split; [done|]. by rewrite Hf2, rs_back0, Hb, Hf, app_nil_l, take_drop.
Qed.

(** the write side is a transaction: a string of any length is appended, the buffer
    growing when it must, and a commit adds it to what will be sent while a roll back
    drops it and everything else that was pending. *)
Theorem tcp_puts_transaction w s (commit : bool) :
  wf_write w -> wlen w + zlen s < 2147483648 ->
  exists w', (let* n := tcp_puts s in let* r := tcp_wcommit commit in st_ret (n, r)) w =
      Ret (zlen s, 0) w'
    /\ wf_write w' /\ wframe w w' /\ wpending w' = []
    /\ wcommitted w' = wcommitted w ++ (if commit then wpending w ++ s else []).
Proof.
  intros Hw Hl. destruct (tcp_puts_ok w s Hw Hl) as (w1 & E & Hw1 & Hc1 & Hp1 & _ & Hf1).
  destruct (tcp_wcommit_ok commit w1 Hw1) as (w2 & E2 & Hw2 & Hp2 & Hc2 & _ & Hf2).
  exists w2. rewrite (st_bind_ret _ _ _ _ _ E), (st_bind_ret _ _ _ _ _ E2).
  split; [done|]. split; [done|]. split; [by eapply wframe_trans|]. split; [done|].
  by rewrite Hc2, Hc1, Hp1.
Qed.

(** C22: flushing terminates through short and interrupted writes.  When it returns 0 the
    kernel has received exactly the committed bytes, in order, and nothing pending was
    sent or lost; it returns 0 unless a write fails outright, and then (-1) the kernel has
    a prefix of the committed bytes and the buffer still holds all of them. *)
Theorem DIS_tcp_wflush_sends w :
  wf_write w ->
  exists rc w', DIS_tcp_wflush w = Ret rc w' /\ wf_write w' /\ wpending w' = wpending w
    /\ (~ In WrFail (net_wr w) -> rc = 0)
    /\ ((rc = 0 /\ net_out w' = net_out w ++ wcommitted w /\ wcommitted w' = []) \/
        (rc = -1 /\ wcommitted w' = wcommitted w /\
         exists k, net_out w' = net_out w ++ take k (wcommitted w))).
Proof.
  intros Hw. destruct (DIS_tcp_wflush_ok w Hw) as (rc & w' & E & Hw' & Hp & _ & _ & _ & Hnf & Hr).
  by exists rc, w'.
Qed.

(** growing the read buffer is not byte-transparent: when a delivery that does not fit
    contains a NUL, every byte behind the NUL is replaced by NULs, while the length is
    still counted in full. *)
Theorem tcp_read_expand_loses_tail tp a b :
  wf_rbuf tp -> (tdis_bufsize tp + zlen (a ++ 0 :: b)) * 2 < 2147483648 ->
  nul_free (slice 0 (tdis_eod tp) (tdis_thebuf tp)) -> nul_free a ->
  exists tp', tcp_read_expand tp (a ++ 0 :: b) ((tdis_bufsize tp + zlen (a ++ 0 :: b)) * 2) = Some tp'
    /\ tdis_eod tp' = tdis_eod tp + zlen (a ++ 0 :: b)
    /\ slice (tdis_eod tp) (tdis_eod tp') (tdis_thebuf tp') = a ++ replicate (S (length b)) c_nul.
Proof.
  intros [Ht Hl He Hs Hn Hz] Hmax Hf1 Hf2. pose proof (zlen_nonneg a). pose proof (zlen_nonneg b).
  rewrite zlen_app, zlen_cons in *. unfold tcp_read_expand.
  rewrite (cstring_slice (tdis_thebuf tp) (tdis_eod tp)) by (lia || assumption). simpl.
  rewrite <- app_assoc, <- app_comm_cons, cstring_app by assumption. simpl.
  rewrite !i32_small by lia.
  set (old := slice 0 (tdis_eod tp) (tdis_thebuf tp)) in *.
  assert (Hol : zlen old = tdis_eod tp) by (subst old; rewrite zlen_slice; lia).
  rewrite (take_ge (old ++ a)) by (rewrite <- (Nat2Z.id (length _)); pose proof (zlen_app old a);
    unfold zlen in *; lia).
  eexists; split; [done|]. simpl. rewrite zlen_app, zlen_cons. split; [lia|].
  rewrite <- app_assoc, slice_app_r by lia. rewrite Hol, Z.sub_diag, slice_0, zlen_app.
  rewrite take_app_ge by (unfold zlen in *; lia). f_equal.
  change (c_nul :: replicate (length b) c_nul) with (replicate (S (length b)) c_nul).
  rewrite take_replicate. f_equal. unfold zlen in *. lia.
Qed.

End Channel.

Section ChannelWitnesses.
#[local] Existing Instance generous.
#[local] Existing Instance generous_ok.
Import Sample.

Definition hello : list read_event := [RdData [104;101]; RdData [108;108;111]].

Lemma tcp_gets_refines_stream_witness :
  exists rc s w', tcp_gets 4 (sample hello []) = Ret (rc, s) w' /\ rc = 4 /\ rfront w' = [111].
Proof.
  destruct (tcp_gets_refines_stream (sample hello []) 4) as (rc & s & w' & E & _ & _ & _ & _ & Hr);
    [apply sample_read; reflexivity|lia|].
  change (4 <=? zlen (rfront (sample hello []))) with true in Hr. destruct Hr as (-> & Hl & Hf).
  exists 4, s, w'. split; [exact E|]. split; [reflexivity|].
  change (rfront (sample hello [])) with ([104;101;108;108] ++ [111]) in Hf.
  apply app_inj_1 in Hf as [_ Hf]; [symmetry; exact Hf|unfold zlen in Hl; simpl; lia].
Defined.

Lemma tcp_rcommit_transaction_witness :
  exists w', (tcp_gets 4 >>> tcp_rcommit false) (sample hello []) = Ret 0 w'
    /\ rfront w' = [104;101;108;108;111].
Proof.
  destruct (tcp_rcommit_transaction (sample hello []) 4 false) as (w' & E & _ & _ & _ & Hf);
    [apply sample_read; reflexivity|reflexivity|vm_compute; split; discriminate|].
  exists w'. split; [exact E|exact Hf].
Defined.

Lemma tcp_puts_transaction_witness :
  exists w', (let* n := tcp_puts (replicate 70 c_plus) in let* r := tcp_wcommit true in
              st_ret (n, r)) (sample [] []) = Ret (70, 0) w'
    /\ wcommitted w' = replicate 70 c_plus.
Proof.
  destruct (tcp_puts_transaction (sample [] []) (replicate 70 c_plus) true)
    as (w' & E & _ & _ & _ & Hc); [apply sample_write|reflexivity|].
  exists w'. split; [exact E|exact Hc].
Defined.

Definition committed_hi : world :=
  set_writebuf (mk_tcpdisbuf 64 2 2 0 ([104;105] ++ replicate 63 c_nul))
    (sample [] [WrSome 1; WrIntr; WrFail]).

Lemma DIS_tcp_wflush_sends_witness :
  exists w', DIS_tcp_wflush committed_hi = Ret (-1) w' /\ net_out w' = [104]
    /\ wcommitted w' = [104;105].
Proof.
  destruct (DIS_tcp_wflush_sends committed_hi) as (rc & w' & E & _ & _ & _ & Hr);
    [constructor; simpl; (lia || reflexivity)|].
  assert (Hv : match DIS_tcp_wflush committed_hi with
               | Ret rc w => (rc, net_out w, wcommitted w) | _ => (0, [], []) end
             = (-1, [104], [104;105])) by (vm_compute; reflexivity).
  rewrite E in Hv. injection Hv as -> Ho Hc. exists w'. split; [exact E|split; [exact Ho|exact Hc]].
Defined.

Lemma tcp_read_expand_loses_tail_witness :
  exists tp', tcp_read_expand buf64 ([104] ++ 0 :: replicate 70 c_plus) 272 = Some tp'
    /\ slice 0 72 (tdis_thebuf tp') = [104] ++ replicate 71 c_nul.
Proof.
  destruct (tcp_read_expand_loses_tail buf64 [104] (replicate 70 c_plus)) as (tp' & E & He & Hs);
    [constructor; simpl; (lia || reflexivity)|reflexivity|constructor|repeat constructor; discriminate|].
  exists tp'. split; [exact E|]. rewrite He in Hs. exact Hs.
Defined.

End ChannelWitnesses.
