(* ===== verification/Codec.v ===== *)
(** * What a client of the channel may rely on

    The specification layer between the channel and the protocol code: when a
    computation [encodes] or [decodes] a byte string, when a reader is [safe] on
    every input, and the [Codec] interface that pairs an encoder with the decoder
    of the peer. *)

From S2P Require Import Prelude TcpDis.
From stdpp Require Import base list numbers option.

Local Open Scope Z_scope.
Local Open Scope st_scope.

(** [m] appends [bs] to the committed output and returns [a]. *)
Definition encodes {A} (m : M A) (bs : list Z) (a : A) : Prop :=
  forall w, wf_write w -> wpending w = [] -> wlen w + zlen bs < 2147483648 ->
  exists w', m w = Ret a w' /\ wf_write w' /\ wpending w' = []
    /\ wcommitted w' = wcommitted w ++ bs /\ wlen w' = wlen w + zlen bs /\ wframe w w'.

(** [m] consumes and commits [bs] from the front of the input and returns [a]. *)
Definition decodes {A} (m : M A) (bs : list Z) (a : A) : Prop :=
  forall w rest, wf_read w -> rback w = [] -> rfront w = bs ++ rest ->
  exists w', m w = Ret a w' /\ wf_read w' /\ rback w' = [] /\ rfront w' = rest
    /\ rframe w w' /\ rmeasure w = (length bs + rmeasure w')%nat.

(** On input [bs], [m] performs an access outside its blocks. *)
Definition crashes {A} (m : M A) (bs : list Z) : Prop :=
  forall w rest, wf_read w -> rback w = [] -> rfront w = bs ++ rest -> m w = UB.

(** [m] terminates in [w] with a result that satisfies [Q]. *)
Definition runs {A} (m : M A) (w : world) (Q : A -> world -> Prop) : Prop :=
  match m w with Ret a w' => Q a w' | UB => False | OutOfFuel => False end.

(** The read side may only shrink. *)
Definition rleq (w w' : world) : Prop :=
  wf_read w' /\ rframe w w' /\ (rmeasure w' <= rmeasure w)%nat.

(** [m] returns on every input, without an access outside its blocks; its result
    satisfies [P], and a result that satisfies [ok] has consumed input. *)
Definition safe {A} (m : M A) (P ok : A -> Prop) : Prop :=
  forall w, wf_read w ->
  runs m w (fun a w' => rleq w w' /\ P a /\ (ok a -> (rmeasure w' < rmeasure w)%nat)).

(** [m] comes to an end on every input, though possibly by an access outside its
    blocks. *)
Definition ends {A} (m : M A) (P ok : A -> Prop) : Prop :=
  forall w, wf_read w ->
  match m w with
  | Ret a w' => rleq w w' /\ P a /\ (ok a -> (rmeasure w' < rmeasure w)%nat)
  | UB => True
  | OutOfFuel => False
  end.

Section Rules.
Context `{Platform}.

Lemma encodes_ret {A} (a : A) : encodes (st_ret a) [] a.
Proof.
  intros w Hw Hp _. exists w. rewrite app_nil_r, zlen_nil, Z.add_0_r.
  do 5 (split; [done|]). apply wframe_refl.
Qed.

Lemma encodes_bind {A B} (m : M A) (k : A -> M B) bs1 bs2 a b :
  encodes m bs1 a -> encodes (k a) bs2 b -> encodes (st_bind m k) (bs1 ++ bs2) b.
Proof.
  intros Hm Hk w Hw Hp Hl. rewrite zlen_app in Hl. pose proof (zlen_nonneg bs2).
  destruct (Hm w Hw Hp ltac:(lia)) as (w1 & E1 & Hw1 & Hp1 & Hc1 & Hl1 & Hf1).
  destruct (Hk w1 Hw1 Hp1 ltac:(lia)) as (w2 & E2 & Hw2 & Hp2 & Hc2 & Hl2 & Hf2).
  exists w2. rewrite (st_bind_ret _ _ _ _ _ E1). split; [done|]. split; [done|]. split; [done|].
  split; [by rewrite Hc2, Hc1, app_assoc|]. split; [rewrite zlen_app; lia|].
  by eapply wframe_trans.
Qed.

Lemma encodes_last {A B} (m : M A) (k : A -> M B) bs a b :
  encodes m bs a -> k a = st_ret b -> encodes (st_bind m k) bs b.
Proof.
  intros Hm Hk. rewrite <- (app_nil_r bs).
  eapply encodes_bind; [exact Hm|]. rewrite Hk. apply encodes_ret.
Qed.

Lemma decodes_ret {A} (a : A) : decodes (st_ret a) [] a.
Proof.
  intros w rest Hw Hb Hf. exists w. do 4 (split; [done|]). split; [apply rframe_refl|done].
Qed.

Lemma decodes_bind {A B} (m : M A) (k : A -> M B) bs1 bs2 a b :
  decodes m bs1 a -> decodes (k a) bs2 b -> decodes (st_bind m k) (bs1 ++ bs2) b.
Proof.
  intros Hm Hk w rest Hw Hb Hf. rewrite <- app_assoc in Hf.
  destruct (Hm w _ Hw Hb Hf) as (w1 & E1 & Hw1 & Hb1 & Hf1 & Hfr1 & Hm1).
  destruct (Hk w1 _ Hw1 Hb1 Hf1) as (w2 & E2 & Hw2 & Hb2 & Hf2 & Hfr2 & Hm2).
  exists w2. rewrite (st_bind_ret _ _ _ _ _ E1). do 4 (split; [done|]).
  split; [by eapply rframe_trans|]. rewrite length_app. lia.
Qed.

Lemma decodes_last {A B} (m : M A) (k : A -> M B) bs a b :
  decodes m bs a -> k a = st_ret b -> decodes (st_bind m k) bs b.
Proof.
  intros Hm Hk. rewrite <- (app_nil_r bs).
  eapply decodes_bind; [exact Hm|]. rewrite Hk. apply decodes_ret.
Qed.

Lemma crashes_bind {A B} (m : M A) (k : A -> M B) bs1 bs2 a :
  decodes m bs1 a -> crashes (k a) bs2 -> crashes (st_bind m k) (bs1 ++ bs2).
Proof.
  intros Hm Hk w rest Hw Hb Hf. rewrite <- app_assoc in Hf.
  destruct (Hm w _ Hw Hb Hf) as (w1 & E1 & Hw1 & Hb1 & Hf1 & _).
  rewrite (st_bind_ret _ _ _ _ _ E1). by eapply Hk.
Qed.

Lemma crashes_first {A B} (m : M A) (k : A -> M B) bs : crashes m bs -> crashes (st_bind m k) bs.
Proof. intros Hm w rest Hw Hb Hf. unfold st_bind. by rewrite (Hm w rest Hw Hb Hf). Qed.

Lemma runs_ret {A} (a : A) w (Q : A -> world -> Prop) : Q a w -> runs (st_ret a) w Q.
Proof. done. Qed.

Lemma runs_bind {A B} (m : M A) (k : A -> M B) w Q :
  runs m w (fun a w' => runs (k a) w' Q) -> runs (st_bind m k) w Q.
Proof. unfold runs, st_bind. by destruct (m w). Qed.

Lemma runs_weaken {A} (m : M A) w (Q Q' : A -> world -> Prop) :
  runs m w Q -> (forall a w', Q a w' -> Q' a w') -> runs m w Q'.
Proof. unfold runs. destruct (m w); auto. Qed.

Lemma runs_inv {A} (m : M A) w Q :
  runs m w Q -> exists a w', m w = Ret a w' /\ Q a w'.
Proof. unfold runs. destruct (m w) as [a w'| |]; [|done..]. eauto. Qed.

Lemma rleq_refl w : wf_read w -> rleq w w.
Proof. intros. split; [done|]. split; [apply rframe_refl|lia]. Qed.

Lemma rleq_trans w1 w2 w3 : rleq w1 w2 -> rleq w2 w3 -> rleq w1 w3.
Proof.
  intros (? & ? & ?) (? & ? & ?). split; [done|]. split; [by eapply rframe_trans|lia].
Qed.

Lemma safe_ret {A} (a : A) (P ok : A -> Prop) : P a -> ~ ok a -> safe (st_ret a) P ok.
Proof. intros HP Hn w Hw. split; [by apply rleq_refl|]. split; [done|]. by intros ?%Hn. Qed.

(** A sequence is safe when its parts are, and consumes input as soon as one
    part it depends on did. *)
Lemma safe_bind {A B} (m : M A) (k : A -> M B) (P1 ok1 : A -> Prop) (P ok : B -> Prop) :
  safe m P1 ok1 ->
  (forall a, P1 a -> safe (k a) P (fun b => ok b /\ ~ ok1 a)) ->
  safe (st_bind m k) P ok.
Proof.
  intros Hm Hk w Hw. apply runs_bind. eapply runs_weaken; [by apply Hm|].
  intros a w1 (Hle1 & HP1 & H1). eapply runs_weaken; [apply Hk; [done|apply Hle1]|].
  intros b w2 (Hle2 & HP & H2). split; [by eapply rleq_trans|]. split; [done|].
  intros Hb. destruct Hle1 as (_ & _ & ?), Hle2 as (_ & _ & ?).
  destruct (decide (rmeasure w1 < rmeasure w)%nat) as [|Hn]; [lia|].
  enough (rmeasure w2 < rmeasure w1)%nat by lia. apply H2. split; [done|].
  intros Ho. by specialize (H1 Ho).
Qed.

Lemma safe_weaken {A} (m : M A) (P P' ok ok' : A -> Prop) :
  safe m P ok -> (forall a, P a -> P' a) -> (forall a, ok' a -> ok a) -> safe m P' ok'.
Proof.
  intros Hm HP Hi w Hw. eapply runs_weaken; [by apply Hm|].
  intros a w' (? & ? & ?). split; [done|]. auto.
Qed.

Lemma safe_ends {A} (m : M A) (P ok : A -> Prop) : safe m P ok -> ends m P ok.
Proof. intros Hm w Hw. specialize (Hm w Hw). unfold runs in Hm. by destruct (m w). Qed.

Lemma ends_ret {A} (a : A) (P ok : A -> Prop) : P a -> ~ ok a -> ends (st_ret a) P ok.
Proof. intros. by apply safe_ends, safe_ret. Qed.

Lemma ends_ub {A} (P ok : A -> Prop) : ends (st_ub (A := A)) P ok.
Proof. by intros w Hw. Qed.

Lemma ends_bind {A B} (m : M A) (k : A -> M B) (P1 ok1 : A -> Prop) (P ok : B -> Prop) :
  ends m P1 ok1 ->
  (forall a, P1 a -> ends (k a) P (fun b => ok b /\ ~ ok1 a)) ->
  ends (st_bind m k) P ok.
Proof.
  intros Hm Hk w Hw. specialize (Hm w Hw). unfold st_bind. destruct (m w) as [a w1| |]; [|done..].
  destruct Hm as (Hle1 & HP1 & H1). specialize (Hk a HP1 w1 (proj1 Hle1)).
  destruct (k a w1) as [b w2| |]; [|done..]. destruct Hk as (Hle2 & HP & H2).
  split; [by eapply rleq_trans|]. split; [done|].
  intros Hb. destruct Hle1 as (_ & _ & ?), Hle2 as (_ & _ & ?).
  destruct (decide (rmeasure w1 < rmeasure w)%nat) as [|Hn]; [lia|].
  enough (rmeasure w2 < rmeasure w1)%nat by lia. apply H2. split; [done|].
  intros Ho. by specialize (H1 Ho).
Qed.

Lemma ends_weaken {A} (m : M A) (P P' ok ok' : A -> Prop) :
  ends m P ok -> (forall a, P a -> P' a) -> (forall a, ok' a -> ok a) -> ends m P' ok'.
Proof.
  intros Hm HP Hi w Hw. specialize (Hm w Hw). destruct (m w); [|done..].
  destruct Hm as (? & ? & ?). split; [done|]. auto.
Qed.

Lemma ends_lift {A} (o : option A) (P : A -> Prop) :
  (forall a, o = Some a -> P a) -> ends (st_lift (S := world) o) P (fun _ => False).
Proof. intros Ho. destruct o; [by apply ends_ret; [apply Ho|tauto]|apply ends_ub]. Qed.

(** ** Bridges to the operations of the channel *)

Lemma rstep_commit {A} (m : M A) (a : A) w w1 bs rest :
  wf_read w -> rback w = [] -> rfront w = bs ++ rest ->
  rstep w w1 bs -> rfront w1 = rest ->
  exists w2, tcp_rcommit true w1 = Ret 0 w2 /\ wf_read w2 /\ rback w2 = [] /\ rfront w2 = rest
    /\ rframe w w2 /\ rmeasure w = (length bs + rmeasure w2)%nat.
Proof.
  intros Hw Hb Hf [Hw1 Hb1 Hfr1 Hm1 _ _] Hf1.
  destruct (tcp_rcommit_true w1 Hw1) as (w2 & E & Hw2 & Hb2 & Hf2 & Hfr2 & _ & Hm2).
  exists w2. split; [done|]. split; [done|]. split; [done|]. split; [by rewrite Hf2|].
  split; [by eapply rframe_trans|]. rewrite Hb1, Hb in Hm2. simpl in Hm2. lia.
Qed.

End Rules.

(** ** Encoder/decoder pairs

    [enc] writes an [A], the peer's [dec] reads it back as a [B] and returns the
    code 0; [view] is how the peer represents the value. *)
Class Codec `{Platform} {A B : Type} (enc : A -> M Z) (dec : M (Z * B))
    (ok : A -> Prop) (view : A -> B) := {
  wire : A -> list Z;
  wire_enc : forall a, ok a -> encodes (enc a) (wire a) 0;
  wire_dec : forall a, ok a -> decodes dec (wire a) (0, view a)
}.

(** ** Two processes

    A world with a channel fresh from [DIS_tcp_setup]. *)
Definition statics0 : dis_statics := mk_dis_statics 0 None 0 None.

Definition connected (ch : tcp_chan) (rd : list read_event) (wr : list write_event) : world :=
  mk_world ch rd wr [] statics0.

(** Deliveries that carry [bs], cut anywhere, before any error. *)
Definition delivers (rd : list read_event) (bs : list Z) : Prop :=
  exists rest, until_err rd = bs ++ rest.

(** What the reading end tolerates: under 512 MiB, and NUL bytes only while the
    initial buffer suffices. *)
Definition deliverable (bs : list Z) : Prop :=
  4 * zlen bs < 2147483648 /\ (nul_free bs \/ zlen bs < THE_BUF_SIZE).

Section EndToEnd.
Context `{AllocOk}.

Lemma fresh_slice b : 0 <= b <= THE_BUF_SIZE ->
  slice b (b + 1) (replicate (Z.to_nat (THE_BUF_SIZE + 1)) c_nul) = [0].
Proof.
  intros Hb. unfold slice. rewrite drop_replicate, take_replicate.
  match goal with |- replicate ?n _ = _ => replace n with 1%nat by lia end. done.
Qed.

Lemma setup_some fd : 0 <= fd ->
  DIS_tcp_setup fd =
    Some (mk_tcp_chan (DIS_tcp_clear fresh_buf) (DIS_tcp_clear fresh_buf) 0 0 0 fd).
Proof.
  intros Hfd. unfold DIS_tcp_setup. destruct (Z.ltb_spec fd 0); [lia|].
  rewrite !alloc_ok by (unfold ALLOC_MAX, SIZEOF_TCP_CHAN, THE_BUF_SIZE; lia). done.
Qed.

(** What is known of a channel fresh from [DIS_tcp_setup], with the two zeroed
    blocks abstracted. *)
Record fresh_chan (ch : tcp_chan) (fd : Z) (buf : list Z) : Prop := {
  fresh_eq : ch = mk_tcp_chan (mk_tcpdisbuf THE_BUF_SIZE 0 0 0 buf)
                    (mk_tcpdisbuf THE_BUF_SIZE 0 0 0 buf) 0 0 0 fd;
  fresh_len : zlen buf = THE_BUF_SIZE + 1;
  fresh_nul : forall b, 0 <= b <= THE_BUF_SIZE -> slice b (b + 1) buf = [0]
}.

Lemma setup_fresh fd ch : DIS_tcp_setup fd = Some ch -> exists buf, fresh_chan ch fd buf.
Proof.
  intros Hs. assert (0 <= fd).
  { unfold DIS_tcp_setup in Hs. destruct (Z.ltb_spec fd 0); [discriminate Hs|lia]. }
  rewrite setup_some in Hs by assumption. injection Hs as <-.
  exists (replicate (Z.to_nat (THE_BUF_SIZE + 1)) c_nul). constructor; [reflexivity| |].
  - rewrite zlen_replicate. unfold THE_BUF_SIZE. lia.
  - apply fresh_slice.
Qed.

Lemma setup_wf_world fd ch w :
  DIS_tcp_setup fd = Some ch -> deliverable (all_data (net_in w)) -> wf_statics (statics w) ->
  wf_read (set_chan ch w) /\ rback (set_chan ch w) = [] /\ rfront (set_chan ch w) = until_err (net_in w).
Proof.
  intros (buf & [-> Hlen Hnul])%setup_fresh [Hmax Htxt] Hst.
  split; [|split; [by unfold rback; simpl; rewrite ?slice_nil|
                   by unfold rfront, rbuffered; simpl; rewrite ?slice_nil]].
  constructor; simpl; [| | |done].
  - constructor; simpl; unfold THE_BUF_SIZE in *; try lia. apply Hnul. lia.
  - lia.
  - destruct Htxt; [left|right]; [by rewrite ?slice_nil|lia].
Qed.

Lemma setup_wf_read fd ch rd wr :
  DIS_tcp_setup fd = Some ch -> deliverable (all_data rd) ->
  wf_read (connected ch rd wr) /\ rback (connected ch rd wr) = []
  /\ rfront (connected ch rd wr) = until_err rd.
Proof.
  intros Hs Hd. apply (setup_wf_world fd ch (connected ch rd wr) Hs Hd). by split; left.
Qed.

Lemma setup_wf_out fd ch w :
  DIS_tcp_setup fd = Some ch ->
  wf_write (set_chan ch w) /\ wpending (set_chan ch w) = []
  /\ wcommitted (set_chan ch w) = [] /\ wlen (set_chan ch w) = 0.
Proof.
  intros (buf & [-> Hlen Hnul])%setup_fresh.
  split; [|by unfold wpending, wcommitted, wlen; simpl; rewrite ?slice_nil].
  constructor; simpl; unfold THE_BUF_SIZE in *; try lia. apply Hnul. lia.
Qed.

Lemma setup_wf_write fd ch rd wr :
  DIS_tcp_setup fd = Some ch ->
  wf_write (connected ch rd wr) /\ wpending (connected ch rd wr) = []
  /\ wcommitted (connected ch rd wr) = [] /\ wlen (connected ch rd wr) = 0.
Proof. apply (setup_wf_out fd ch (connected ch rd wr)). Qed.

(** Encoding a message on a fresh channel and flushing it. *)
Lemma encode_and_flush fd ch m bs w :
  DIS_tcp_setup fd = Some ch -> encodes m bs 0 -> zlen bs < 2147483648 ->
  exists w1 f w2, m (set_chan ch w) = Ret 0 w1 /\ DIS_tcp_wflush w1 = Ret f w2
    /\ net_in w2 = net_in w /\ statics w2 = statics w
    /\ (~ In WrFail (net_wr w) -> f = 0) /\ (f = 0 \/ f = -1)
    /\ (f = 0 -> net_out w2 = net_out w ++ bs).
Proof.
  intros Hs He Hl. destruct (setup_wf_out fd ch w Hs) as (Hw & Hp & Hc & Hlen).
  destruct (He _ Hw Hp) as (w1 & E1 & Hw1 & _ & Hc1 & _ & (_ & _ & Hi & Hwr & Ho & Hst)); [lia|].
  destruct (DIS_tcp_wflush_ok w1 Hw1) as (f & w2 & E2 & _ & _ & _ & Hi2 & Hs2 & Hnf & Hr).
  exists w1, f, w2. split; [done|]. split; [done|]. split; [by rewrite Hi2, Hi|].
  split; [by rewrite Hs2, Hst|]. split; [by rewrite Hwr in Hnf|].
  split; [destruct Hr as [(-> & _)|(-> & _)]; auto|].
  intros ->. destruct Hr as [(_ & -> & _)|(? & _)]; [|done]. by rewrite Ho, Hc1, Hc.
Qed.

(** ** A message crosses the network

    Whatever the client writes with the encoder of a [Codec] and flushes, the
    server reads back with its decoder, however the network cuts the bytes. *)

(** Let the client encode an admissible value on a fresh channel and flush it.  The
    encoder returns 0, and so does the flush unless a write fails outright; then the
    bytes handed to the kernel are exactly the wire image, and a server whose kernel
    delivers those bytes, in chunks of any size, decodes the same value with code 0
    and has consumed the whole message. *)
Definition crosses {A B} (enc : A -> M Z) (dec : M B) (a : A) (msg : list Z) (b : B)
    (chc chs : tcp_chan) (wrc : list write_event) (rds : list read_event) : Prop :=
  exists rc wc, (let* r := enc a in let* f := DIS_tcp_wflush in st_ret (r, f))
                  (connected chc [] wrc) = Ret (0, rc) wc /\
    (~ In WrFail wrc -> rc = 0) /\
    (rc = 0 ->
       net_out wc = msg /\
       (deliverable (all_data rds) -> delivers rds (net_out wc) ->
        exists ws, dec (connected chs rds []) = Ret b ws
          /\ until_err rds = net_out wc ++ rfront ws)).

Lemma codec_crosses {A B} (enc : A -> M Z) (dec : M (Z * B)) ok view
    `{!Codec enc dec ok view} (a : A) fdc fds chc chs wrc rds :
  ok a -> deliverable (wire a) ->
  DIS_tcp_setup fdc = Some chc -> DIS_tcp_setup fds = Some chs ->
  crosses enc dec a (wire a) (0, view a) chc chs wrc rds.
Proof.
  intros Hok Hdel Hc Hs.
  destruct (setup_wf_write fdc chc [] wrc Hc) as (Hww & Hwp & Hwc & Hwl).
  destruct (wire_enc a Hok (connected chc [] wrc) Hww Hwp) as
    (w1 & E1 & Hw1 & Hp1 & Hc1 & Hl1 & Hf1).
  { rewrite Hwl. destruct Hdel. lia. }
  destruct (DIS_tcp_wflush_ok w1 Hw1) as (rc & w2 & E2 & Hw2 & Hp2 & _ & _ & _ & Hnf & Hres).
  exists rc, w2. rewrite (st_bind_ret _ _ _ _ _ E1), (st_bind_ret _ _ _ _ _ E2).
  split; [done|]. destruct Hf1 as (_ & _ & _ & Hwr & Ho & _). rewrite Hwr in Hnf. split; [done|].
  intros ->. destruct Hres as [(_ & Hout & _)|(? & _)]; [|done].
  simpl in Ho. rewrite Ho, Hc1, Hwc in Hout. simpl in Hout. split; [done|].
  intros Hdr [rest Hrest]. rewrite Hout in Hrest.
  destruct (setup_wf_read fds chs rds [] Hs Hdr) as (Hwr' & Hb & Hf).
  rewrite Hrest in Hf.
  destruct (wire_dec a Hok (connected chs rds []) rest Hwr' Hb Hf)
    as (w3 & E3 & _ & _ & Hf3 & _). exists w3. by rewrite E3, Hf3, Hrest, Hout.
Qed.

(** A decoder that answers as [dec] does where [dec] answers [b]. *)
Lemma crosses_mono {A B} (enc : A -> M Z) (dec dec' : M B) a msg b chc chs wrc rds :
  (forall ws, dec (connected chs rds []) = Ret b ws -> dec' (connected chs rds []) = Ret b ws) ->
  crosses enc dec a msg b chc chs wrc rds -> crosses enc dec' a msg b chc chs wrc rds.
Proof.
  intros Hd (rc & wc & E & Hf & Hr). exists rc, wc. split; [exact E|]. split; [exact Hf|].
  intros Hz. destruct (Hr Hz) as [Ho Hn]. split; [exact Ho|]. intros Hdl Hds.
  destruct (Hn Hdl Hds) as (ws & Ew & Hw). exists ws. split; [by apply Hd|exact Hw].
Qed.

End EndToEnd.
