(* ===== verification/DisInt.v ===== *)
(** * Data-is-Strings integers (src/src/lib/Libdis)

    An integer travels as a sign and its decimal digits, preceded by the digit
    count when that is above one, itself preceded by its own digit count, and so
    on until a count of one: 7 is [+7], 251 is [3+251], 4294967295 is
    [210+4294967295].  The writers build the image backwards in a 64-byte
    scratch array; the readers recurse on the counts. *)

From S2P Require Import Prelude CLib TcpDis Codec.
From stdpp Require Import base list numbers option.

Local Open Scope Z_scope.
Local Open Scope st_scope.

Definition DIS_SUCCESS : Z := 0.
Definition DIS_OVERFLOW : Z := 1.
Definition DIS_HUGEVAL : Z := 2.
Definition DIS_BADSIGN : Z := 3.
Definition DIS_LEADZRO : Z := 4.
Definition DIS_NONDIGIT : Z := 5.
Definition DIS_NULLSTR : Z := 6.
Definition DIS_EOD : Z := 7.
Definition DIS_NOMALLOC : Z := 8.
Definition DIS_PROTO : Z := 9.
Definition DIS_NOCOMMIT : Z := 10.
Definition DIS_EOF : Z := 11.
Definition DIS_INVALID : Z := 12.

Definition DIS_BUFSIZ : Z := 64.

(** ** Writing

    [cp] is the text between the write pointer and the terminating NUL of the
    scratch array.  Storing a character moves the pointer down; [None] is a
    store below the array. *)

Definition scratch_push (c : Z) (cp : list Z) : option (list Z) :=
  if zlen cp <? DIS_BUFSIZ - 1 then Some (c :: cp) else None.

(** The digit loop of [discui_] and [discul_]; every turn stores a character, so
    the room in the scratch array bounds it. *)
Fixpoint disc_loop (room : nat) (cp : list Z) (value : Z) : option (list Z) :=
  match room with
  | O => None
  | S room' =>
      if 9 <? value then disc_loop room' (value mod 10 + c_0 :: cp) (value / 10)
      else Some (value + c_0 :: cp)
  end.

Definition scratch_room (cp : list Z) : nat := Z.to_nat (DIS_BUFSIZ - 1 - zlen cp).

Definition discui_ (cp : list Z) (value : Z) : option (list Z * Z) :=
  cp' ← disc_loop (scratch_room cp) cp (u32 value); Some (cp', zlen cp' - zlen cp).

Definition discul_ (cp : list Z) (value : Z) : option (list Z * Z) :=
  cp' ← disc_loop (scratch_room cp) cp (u64 value); Some (cp', zlen cp' - zlen cp).

(** [while (ndigs > 1) cp = discui_(cp, ndigs, &ndigs);] *)
Fixpoint count_loop (fuel : nat) (cp : list Z) (ndigs : Z) : option (list Z) :=
  match fuel with
  | O => None
  | S fuel' =>
      if 1 <? ndigs then
        cn ← discui_ cp ndigs; count_loop fuel' (fst cn) (snd cn)
      else Some cp
  end.

(** Sign and counts in front of the digits. *)
Definition sign_and_counts (c : Z) (digs : list Z * Z) : option (list Z) :=
  cp ← scratch_push c (fst digs); count_loop (scratch_room cp) cp (snd digs).

Section Ops.
Context `{Platform}.

Definition diswui_ (value : Z) : M Z :=
  let* cp := st_lift (d ← discui_ [] value; sign_and_counts c_plus d) in
  let* n := tcp_puts (until_nul cp) in
  st_ret (if n <? 0 then DIS_PROTO else DIS_SUCCESS).

(** [(tcp_wcommit(chan, retval == DIS_SUCCESS) < 0) ? DIS_NOCOMMIT : retval] *)
Definition wcommit_ret (retval : Z) : M Z :=
  let* rc := tcp_wcommit (retval =? DIS_SUCCESS) in
  st_ret (if rc <? 0 then DIS_NOCOMMIT else retval).

Definition rcommit_ret (locret : Z) : M Z :=
  let* rc := tcp_rcommit (locret =? DIS_SUCCESS) in
  st_ret (if rc <? 0 then DIS_NOCOMMIT else locret).

Definition diswui (value : Z) : M Z :=
  let* retval := diswui_ value in wcommit_ret retval.

Definition diswsi (value : Z) : M Z :=
  let '(uval, c) :=
    if value <? 0 then (u32 (u32 (- (value + 1)) + 1), c_minus) else (u32 value, c_plus) in
  let* cp := st_lift (d ← discui_ [] uval; sign_and_counts c d) in
  let* n := tcp_puts (until_nul cp) in
  wcommit_ret (if n <? 0 then DIS_PROTO else DIS_SUCCESS).

Definition diswul (value : Z) : M Z :=
  let* cp := st_lift (d ← discul_ [] value; sign_and_counts c_plus d) in
  let* n := tcp_puts (until_nul cp) in
  wcommit_ret (if n <? 0 then DIS_PROTO else DIS_SUCCESS).

Definition diswsl (value : Z) : M Z :=
  let '(ulval, c) :=
    if value <? 0 then (u64 (u64 (- (value + 1)) + 1), c_minus) else (u64 value, c_plus) in
  let* cp := st_lift (d ← discul_ [] ulval; sign_and_counts c d) in
  let* n := tcp_puts (until_nul cp) in
  wcommit_ret (if n <? 0 then DIS_PROTO else DIS_SUCCESS).

(** [#define diswuc(chan, value) diswui(chan, (unsigned)(value))] *)
Definition diswuc (value : Z) : M Z := diswui (u32 value).

(** ** Reading *)

(** Fills [dis_umax] and [dis_umaxd] once; the [calloc] result is not checked. *)
Definition disiui_ : M unit :=
  let* w := st_get in
  let s := statics w in
  if negb (bool_decide (dis_umax s = None)) || negb (dis_umaxd s =? 0) then st_ret tt
  else
    let* d := st_lift (discui_ [] UINT_MAX) in
    if calloc_ok (snd d + 1) then
      st_modify (set_statics (mk_dis_statics (snd d) (Some (fst d)) (ulmaxdigs s) (ulmax s)))
    else st_ub.

(** [memcmp] over equally long blocks; the sign of the result is what matters. *)
Fixpoint memcmp (a b : list Z) : Z :=
  match a, b with
  | x :: a', y :: b' =>
      if u8 x =? u8 y then memcmp a' b' else if u8 x <? u8 y then -1 else 1
  | _, _ => 0
  end.

(** The conversion loops: [wrap] is the width of the accumulator; [None] when a
    character is not a digit. *)
Fixpoint digit_loop (wrap : Z -> Z) (acc : Z) (s : list Z) : option Z :=
  match s with
  | [] => Some acc
  | c :: s' => if is_digit c then digit_loop wrap (wrap (10 * acc + c - c_0)) s' else None
  end.

(** [memcmp(scratch, max, maxd) > 0] against a static limit; a missing block is
    a null-pointer access. *)
Definition over_limit (scratch : list Z) (limit : option (list Z)) : M bool :=
  match limit with
  | Some m => st_ret (0 <? memcmp scratch m)
  | None => st_ub
  end.

(** Cases ['-'] and ['+'] of [disrsi_] and [disrsl_], which differ in the width
    of the accumulator, its maximum and the static limit: the code, [*negate] and
    [*value]. *)
Definition disr_value (wrap : Z -> Z) (MAX maxd : Z) (lim : option (list Z))
    (negate : bool) (value count : Z) : M (Z * bool * Z) :=
  let* (n, scratch) := tcp_gets count in
  if negb (n =? i32 count) then st_ret (DIS_EOD, negate, value)
  else if maxd <? count then st_ret (DIS_OVERFLOW, negate, MAX)
  else
    let* big := (if count =? maxd then over_limit scratch lim else st_ret false) in
    if big then st_ret (DIS_OVERFLOW, negate, MAX)
    else match digit_loop wrap 0 scratch with
         | None => st_ret (DIS_NONDIGIT, negate, value)
         | Some locval => st_ret (DIS_SUCCESS, negate, locval)
         end.

(** Cases ['1'] to ['9']: the digit count of what follows, or an error code. *)
Definition disr_count (wrap : Z -> Z) (maxd : Z) (lim : option (list Z))
    (c count : Z) : M (Z + Z) :=
  if 1 <? count then
    let* (n, rest) := tcp_gets (count - 1) in
    if negb (n =? i32 count - 1) then st_ret (inl DIS_EOD)
    else if maxd <? count then st_ret (inl DIS_OVERFLOW)
    else
      let* big := (if count =? maxd then over_limit (c :: rest) lim else st_ret false) in
      if big then st_ret (inl DIS_OVERFLOW)
      else match digit_loop wrap (c - c_0) rest with
           | None => st_ret (inl DIS_NONDIGIT)
           | Some ndigs => st_ret (inr ndigs)
           end
  else st_ret (inr (c - c_0)).

(** The [switch] of the two functions; [again] is the recursive call. *)
Definition disr_switch (wrap : Z -> Z) (MAX : Z)
    (lim_of : dis_statics -> Z * option (list Z)) (again : Z -> M (Z * bool * Z))
    (negate : bool) (value count : Z) : M (Z * bool * Z) :=
  let* c := tcp_getc in
  let* w := st_get in
  let '(maxd, lim) := lim_of (statics w) in
  if (c =? c_minus) || (c =? c_plus) then
    disr_value wrap MAX maxd lim (c =? c_minus) value count
  else if c =? c_0 then st_ret (DIS_LEADZRO, negate, value)
  else if (c_0 <? c) && (c <=? c_9) then
    let* r := disr_count wrap maxd lim c count in
    match r with
    | inr ndigs => again ndigs
    | inl rc => st_ret (if rc =? DIS_OVERFLOW then (rc, false, MAX) else (rc, negate, value))
    end
  else if c =? -1 then st_ret (DIS_EOD, negate, value)
  else if c =? -2 then st_ret (DIS_EOF, negate, value)
  else st_ret (DIS_NONDIGIT, negate, value).

Definition lim_ui (s : dis_statics) : Z * option (list Z) := (dis_umaxd s, dis_umax s).
Definition lim_ul (s : dis_statics) : Z * option (list Z) := (ulmaxdigs s, ulmax s).

(** [disrsi_]: each call reads a character, so the unread bytes bound the
    recursion. *)
Fixpoint disrsi_loop (fuel : nat) (negate : bool) (value count : Z) : M (Z * bool * Z) :=
  match fuel with
  | O => fun _ => OutOfFuel
  | S fuel' =>
      if count =? 0 then st_ret (DIS_INVALID, negate, value)
      else
        let* w := st_get in
        (if dis_umaxd (statics w) =? 0 then disiui_ else st_ret tt) >>>
        if DIS_BUFSIZ - 1 <? count then st_ret (DIS_INVALID, negate, value)
        else disr_switch u32 UINT_MAX lim_ui (disrsi_loop fuel' negate value) negate value count
  end.

Definition disrsi_ (negate : bool) (value count : Z) : M (Z * bool * Z) :=
  fun w => disrsi_loop (S (rmeasure w)) negate value count w.

(** The lazy initialisation at the head of [disrsl_]: [false] is the
    [DIS_NOMALLOC] return, which leaves [ulmaxdigs] set and [ulmax] null. *)
Definition ulmax_init : M bool :=
  let* w := st_get in
  let s := statics w in
  if ulmaxdigs s =? 0 then
    let* d := st_lift (discul_ [] ULONG_MAX) in
    if calloc_ok (snd d) then
      st_modify (set_statics (mk_dis_statics (dis_umaxd s) (dis_umax s) (snd d) (Some (fst d)))) >>>
      (if dis_umaxd s =? 0 then disiui_ else st_ret tt) >>> st_ret true
    else
      st_modify (set_statics (mk_dis_statics (dis_umaxd s) (dis_umax s) (snd d) None)) >>>
      st_ret false
  else st_ret true.

(** [disrsl_], the same recursion on [unsigned long]; the comparison of the
    still zeroed scratch array at the head can only read it. *)
Fixpoint disrsl_loop (fuel : nat) (negate : bool) (value count : Z) : M (Z * bool * Z) :=
  match fuel with
  | O => fun _ => OutOfFuel
  | S fuel' =>
      if count =? 0 then st_ub
      else
        let* ok := ulmax_init in
        if negb ok then st_ret (DIS_NOMALLOC, negate, value)
        else
          let* w := st_get in
          let '(maxd, lim) := lim_ul (statics w) in
          if maxd <? count then st_ret (DIS_OVERFLOW, negate, ULONG_MAX)
          else
            let* big := (if count =? maxd
                         then over_limit (replicate (Z.to_nat maxd) 0) lim else st_ret false) in
            if big then st_ret (DIS_OVERFLOW, negate, ULONG_MAX)
            else disr_switch u64 ULONG_MAX lim_ul (disrsl_loop fuel' negate value)
                   negate value count
  end.

Definition disrsl_ (negate : bool) (value count : Z) : M (Z * bool * Z) :=
  fun w => disrsl_loop (S (rmeasure w)) negate value count w.

(** The callers pass the addresses of uninitialised locals. *)
Definition disrsi_start : M (Z * bool * Z) := disrsi_ ind_negate (u32 ind_uint) 1.
Definition disrsl_start : M (Z * bool * Z) := disrsl_ ind_negate (u64 ind_uint) 1.

(** All public readers return the value and [*retval]. *)
Definition disrsi : M (Z * Z) :=
  let* (locret, negate, uvalue) := disrsi_start in
  if locret =? DIS_SUCCESS then
    if (if negate then uvalue <=? u32 (u32 (- (INT_MIN + 1)) + 1) else uvalue <=? INT_MAX) then
      let value := if negate then i32 (u32 (- uvalue)) else i32 uvalue in
      let* retval := rcommit_ret locret in
      st_ret (value, retval)
    else st_ret (if negate then INT_MIN else INT_MAX, DIS_OVERFLOW)
  else if locret =? DIS_OVERFLOW then
    st_ret (if negate then INT_MIN else INT_MAX, locret)
  else st_ret (0, locret).

(** [disrui] and [disrul] differ in the conversion they call. *)
Definition disr_unsigned (start : M (Z * bool * Z)) : M (Z * Z) :=
  let* (locret, negate, value) := start in
  let '(value, locret) :=
    if negb (locret =? DIS_SUCCESS) then (0, locret)
    else if negate : bool then (0, DIS_BADSIGN) else (value, locret) in
  let* retval := rcommit_ret locret in
  st_ret (value, retval).

Definition disrui : M (Z * Z) := disr_unsigned disrsi_start.
Definition disrul : M (Z * Z) := disr_unsigned disrsl_start.

Definition disrui_peek : M (Z * Z) :=
  let* (locret, negate, value) := disrsi_start in
  st_ret (if negb (locret =? DIS_SUCCESS) then (0, locret)
          else if negate : bool then (0, DIS_BADSIGN) else (value, locret)).

Definition disrsl : M (Z * Z) :=
  let* (locret, negate, uvalue) := disrsl_start in
  let '(value, locret) :=
    if locret =? DIS_SUCCESS then
      if (if negate : bool then uvalue <=? u64 (u64 (- (LONG_MIN + 1)) + 1) else uvalue <=? LONG_MAX)
      then (if negate : bool then i64 (u64 (- uvalue)) else i64 uvalue, locret)
      else (if negate : bool then LONG_MIN else LONG_MAX, DIS_OVERFLOW)
    else if locret =? DIS_OVERFLOW then (if negate : bool then LONG_MIN else LONG_MAX, locret)
    else (0, locret) in
  let* retval := rcommit_ret locret in
  st_ret (value, retval).

(** [disrss] and [disrsc] test [(int) - uvalue >= MIN], where the negation is
    done on [unsigned]. *)
Definition disr_small_signed (bits : Z) : M (Z * Z) :=
  let lo := - 2 ^ (bits - 1) in
  let hi := 2 ^ (bits - 1) - 1 in
  let* (locret, negate, uvalue) := disrsi_start in
  let '(value, locret) :=
    if locret =? DIS_SUCCESS then
      if (if negate : bool then lo <=? i32 (u32 (- uvalue)) else uvalue <=? hi)
      then (wrap_s bits (if negate : bool then u32 (- uvalue) else uvalue), locret)
      else (if negate : bool then lo else hi, DIS_OVERFLOW)
    else if locret =? DIS_OVERFLOW then (if negate : bool then lo else hi, locret)
    else (0, locret) in
  let* retval := rcommit_ret locret in
  st_ret (value, retval).

Definition disrss : M (Z * Z) := disr_small_signed 16.
Definition disrsc : M (Z * Z) := disr_small_signed 8.

Definition disr_small_unsigned (bits : Z) : M (Z * Z) :=
  let hi := 2 ^ bits - 1 in
  let* (locret, negate, value) := disrsi_start in
  let '(value, locret) :=
    if negb (locret =? DIS_SUCCESS) then (0, locret)
    else if negate : bool then (0, DIS_BADSIGN)
    else if hi <? value then (hi, DIS_OVERFLOW) else (value, locret) in
  let* retval := rcommit_ret locret in
  st_ret (wrap_u bits value, retval).

Definition disrus : M (Z * Z) := disr_small_unsigned 16.
Definition disruc : M (Z * Z) := disr_small_unsigned 8.

End Ops.

(** ** Digit strings *)

(** The accumulator does not wrap as long as the result fits. *)
Lemma digit_loop_ok wrap max s : forall acc,
  (forall z, 0 <= z <= max -> wrap z = z) ->
  digits s -> 0 <= acc -> dval acc s <= max ->
  digit_loop wrap acc s = Some (dval acc s).
Proof.
  induction s as [|c s IH]; intros acc Hw Hd Ha Hm; [done|].
  apply digits_cons in Hd as [Hc Hd]. simpl. rewrite Hc.
  apply is_digit_range in Hc. unfold c_0 in *. simpl in Hm.
  pose proof (dval_mono s (10 * acc + (c - 48)) Hd ltac:(lia)). unfold c_0 in *.
  rewrite Hw by lia. replace (10 * acc + c - 48) with (10 * acc + (c - 48)) by lia.
  apply IH; (done || lia).
Qed.

Lemma digit_loop_some wrap s : forall acc v, digit_loop wrap acc s = Some v -> digits s.
Proof.
  induction s as [|c s IH]; intros acc v Hs; [constructor|]. simpl in Hs.
  destruct (is_digit c) eqn:Hc; [|done]. constructor; [done|]. by eapply IH.
Qed.

(** On digit strings of one length, [memcmp] is the order of the values. *)
Lemma memcmp_dval a : forall b acc,
  digits a -> digits b -> length a = length b -> 0 <= acc ->
  (0 <? memcmp a b) = (dval acc b <? dval acc a).
Proof.
  induction a as [|x a IH]; intros [|y b] acc Ha Hb Hl Hacc; try discriminate Hl.
  { simpl. by destruct (Z.ltb_spec acc acc); [lia|]. }
  apply digits_cons in Ha as [Hx Ha]. apply digits_cons in Hb as [Hy Hb].
  apply is_digit_range in Hx, Hy. simpl. rewrite !u8_small by lia.
  destruct (Z.eqb_spec x y) as [->|Hne].
  - apply IH; [done|done|simpl in Hl; lia|unfold c_0; lia].
  - assert (Hz : zlen a = zlen b) by (unfold zlen; simpl in Hl; lia).
    pose proof (dval_bounds a (10 * acc + (x - c_0)) Ha ltac:(unfold c_0; lia)) as Ba.
    pose proof (dval_bounds b (10 * acc + (y - c_0)) Hb ltac:(unfold c_0; lia)) as Bb.
    rewrite Hz in Ba. unfold c_0 in *.
    assert (0 < 10 ^ zlen b) by (apply Z.pow_pos_nonneg; [lia|apply zlen_nonneg]).
    destruct (Z.ltb_spec x y); destruct (Z.ltb_spec (dval (10 * acc + (y - 48)) b)
      (dval (10 * acc + (x - 48)) a)); simpl; try done; nia.
Qed.

Lemma disc_loop_spec room : forall cp v,
  0 <= v < 10 ^ Z.of_nat room -> (0 < room)%nat ->
  exists ds, disc_loop room cp v = Some (ds ++ cp) /\ canonical v ds
    /\ (length ds <= room)%nat.
Proof.
  induction room as [|room IH]; intros cp v Hv Hr; [lia|]. cbn [disc_loop].
  destruct (Z.ltb_spec 9 v) as [H9|H9].
  - destruct room as [|room'].
    { change (10 ^ Z.of_nat 1) with 10 in Hv. lia. }
    assert (Hq : 0 <= v / 10 < 10 ^ Z.of_nat (S room')).
    { rewrite Nat2Z.inj_succ, Z.pow_succ_r in Hv by lia.
      split; [apply Z.div_pos; lia|]. apply Z.div_lt_upper_bound; lia. }
    destruct (IH (v mod 10 + c_0 :: cp) (v / 10) Hq ltac:(lia)) as (ds & -> & [Hd Hval Hf] & Hlen).
    exists (ds ++ [v mod 10 + c_0]). rewrite <- app_assoc. split; [done|].
    pose proof (Z.mod_pos_bound v 10 ltac:(lia)). split; [|rewrite length_app; simpl; lia].
    constructor.
    + apply Forall_app; split; [done|]. repeat constructor.
      unfold is_digit, c_0, c_9. apply andb_true_intro; split; apply Z.leb_le; lia.
    + rewrite dval_app, Hval. simpl. rewrite Z.add_simpl_r. pose proof (Z.div_mod v 10). lia.
    + destruct Hf as (c & ds' & -> & Hf). exists c, (ds' ++ [v mod 10 + c_0]).
      split; [done|]. right. destruct Hf as [->|?]; [|done].
      simpl in Hval. unfold c_0 in *. intros ->. pose proof (Z.div_le_lower_bound v 10 1). lia.
  - exists [v + c_0]. split; [done|]. split; [|simpl; lia]. constructor.
    + repeat constructor. unfold is_digit, c_0, c_9.
      apply andb_true_intro; split; apply Z.leb_le; lia.
    + simpl. unfold c_0. lia.
    + exists (v + c_0), []. by split; [|left].
Qed.

(** ** The image of an integer *)

(** The counts in front of the sign for [n] digits. *)
Definition counts (n : Z) : list Z :=
  if n <=? 1 then []
  else if n <=? 9 then [n + c_0]
  else [2 + c_0; n / 10 + c_0; n mod 10 + c_0].

(** The wire image of sign [c] and magnitude [v]. *)
Definition wire_num (c v : Z) : list Z :=
  match disc_loop 63 [] v with
  | Some ds => counts (zlen ds) ++ c :: ds
  | None => []
  end.

Lemma discui_small cp n :
  1 <= n <= 20 -> zlen cp <= 40 ->
  discui_ cp n = Some (if n <=? 9 then (n + c_0 :: cp, 1)
                       else (n / 10 + c_0 :: n mod 10 + c_0 :: cp, 2)).
Proof.
  intros Hn Hl. pose proof (zlen_nonneg cp). unfold discui_, scratch_room, DIS_BUFSIZ.
  rewrite u32_small by lia.
  replace (Z.to_nat (64 - 1 - zlen cp)) with (S (S (Z.to_nat (61 - zlen cp)))) by lia.
  cbn [disc_loop]. destruct (Z.ltb_spec 9 n), (Z.leb_spec n 9); try lia.
  - pose proof (Z.div_mod n 10 ltac:(lia)). pose proof (Z.mod_pos_bound n 10 ltac:(lia)).
    destruct (Z.ltb_spec 9 (n / 10)); [lia|]. simpl. rewrite !zlen_cons.
    do 2 f_equal. lia.
  - simpl. rewrite zlen_cons. do 2 f_equal. lia.
Qed.

Lemma count_loop_spec fuel cp n :
  1 <= n <= 20 -> zlen cp <= 38 -> (3 <= fuel)%nat ->
  count_loop fuel cp n = Some (counts n ++ cp).
Proof.
  intros Hn Hl Hf. destruct fuel as [|[|[|fuel]]]; try lia. unfold counts.
  cbn [count_loop]. destruct (Z.ltb_spec 1 n), (Z.leb_spec n 1); try lia; [|done].
  rewrite discui_small by lia. simpl. destruct (Z.leb_spec n 9); [done|]. simpl.
  rewrite discui_small; [done|lia|]. rewrite !zlen_cons. lia.
Qed.

Lemma wire_num_spec c v :
  0 <= v <= ULONG_MAX ->
  exists ds, canonical v ds /\ wire_num c v = counts (zlen ds) ++ c :: ds
    /\ disc_loop 63 [] v = Some ds /\ 1 <= zlen ds <= 20
    /\ (v <= UINT_MAX -> zlen ds <= 10).
Proof.
  intros Hv. unfold ULONG_MAX, UINT_MAX in *.
  destruct (disc_loop_spec 63 [] v) as (ds & Hd & Hcan & _); [lia|lia|].
  rewrite app_nil_r in Hd. exists ds. unfold wire_num. rewrite Hd.
  do 3 (split; [done|]). split; [apply (canonical_len v ds 20); (done || lia)|].
  intros. apply (canonical_len v ds 10); (done || lia).
Qed.

(** What the writers compute is the image. *)
Lemma sign_and_counts_spec c v :
  0 <= v <= ULONG_MAX ->
  (d ← disc_loop 63 [] v; sign_and_counts c (d, zlen d)) = Some (wire_num c v).
Proof.
  intros Hv. destruct (wire_num_spec c v Hv) as (ds & _ & -> & -> & Hl & _). simpl.
  unfold sign_and_counts, scratch_push, DIS_BUFSIZ. simpl.
  change (64 - 1) with 63. destruct (Z.ltb_spec (zlen ds) 63); [|lia]. simpl.
  apply count_loop_spec; [done|rewrite zlen_cons; lia|].
  unfold scratch_room, DIS_BUFSIZ. rewrite zlen_cons. lia.
Qed.

Lemma discui_image c v :
  0 <= v <= UINT_MAX ->
  (d ← discui_ [] v; sign_and_counts c d) = Some (wire_num c v).
Proof.
  intros Hv. unfold discui_. rewrite u32_small by (unfold UINT_MAX in *; lia).
  rewrite <- (sign_and_counts_spec c v) by (unfold UINT_MAX, ULONG_MAX in *; lia).
  change (scratch_room []) with 63%nat.
  destruct (disc_loop 63 [] v); [|done]. simpl. by rewrite zlen_nil, Z.sub_0_r.
Qed.

Lemma discul_image c v :
  0 <= v <= ULONG_MAX ->
  (d ← discul_ [] v; sign_and_counts c d) = Some (wire_num c v).
Proof.
  intros Hv. unfold discul_. rewrite u64_small by (unfold ULONG_MAX in *; lia).
  rewrite <- (sign_and_counts_spec c v) by done.
  change (scratch_room []) with 63%nat.
  destruct (disc_loop 63 [] v); [|done]. simpl. by rewrite zlen_nil, Z.sub_0_r.
Qed.

Lemma counts_digits n : 1 <= n <= 20 -> digits (counts n).
Proof.
  intros Hn. unfold counts, digits.
  assert (0 <= n / 10 <= 2) by (split; [apply Z.div_pos|apply Z.div_le_upper_bound]; lia).
  pose proof (Z.mod_pos_bound n 10 ltac:(lia)).
  destruct (Z.leb_spec n 1), (Z.leb_spec n 9); repeat constructor;
    unfold is_digit, c_0, c_9; apply andb_true_intro; split; apply Z.leb_le; lia.
Qed.

Lemma wire_num_nul_free c v : c <> 0 -> 0 <= v <= ULONG_MAX -> nul_free (wire_num c v).
Proof.
  intros Hc Hv. destruct (wire_num_spec c v Hv) as (ds & [Hd _ _] & -> & _ & Hl & _).
  apply Forall_app. split; [by apply digits_nul_free, counts_digits|].
  constructor; [done|]. by apply digits_nul_free.
Qed.

Lemma wire_num_len c v :
  0 <= v <= ULONG_MAX -> 2 <= zlen (wire_num c v) <= 24.
Proof.
  intros Hv. destruct (wire_num_spec c v Hv) as (ds & _ & -> & _ & Hl & _).
  rewrite zlen_app, zlen_cons. unfold counts.
  destruct (Z.leb_spec (zlen ds) 1), (Z.leb_spec (zlen ds) 9);
    rewrite ?zlen_cons, ?zlen_nil; lia.
Qed.

(** ** The writers encode *)

Section Writers.
Context `{AllocOk}.

Lemma encodes_ext {A} (m m' : M A) bs a :
  (forall w, m' w = m w) -> encodes m bs a -> encodes m' bs a.
Proof. intros He Hm w ???. rewrite He. by apply Hm. Qed.

(** [tcp_puts] followed by a commit. *)
Lemma puts_commit_encodes bs :
  encodes (let* n := tcp_puts bs in wcommit_ret (if n <? 0 then DIS_PROTO else DIS_SUCCESS)) bs 0.
Proof.
  intros w Hw Hp Hl. destruct (tcp_puts_ok w bs Hw Hl) as (w1 & E1 & Hw1 & Hc1 & Hp1 & Hl1 & Hf1).
  destruct (tcp_wcommit_ok true w1 Hw1) as (w2 & E2 & Hw2 & Hp2 & Hc2 & Hl2 & Hf2).
  exists w2. rewrite (st_bind_ret _ _ _ _ _ E1). pose proof (zlen_nonneg bs).
  destruct (Z.ltb_spec (zlen bs) 0); [lia|]. unfold wcommit_ret. simpl.
  rewrite (st_bind_ret _ _ _ _ _ E2). do 3 (split; [done|]).
  split; [by rewrite Hc2, Hc1, Hp1, Hp|]. split; [lia|]. by eapply wframe_trans.
Qed.

Lemma lift_puts_encodes o bs :
  o = Some bs -> nul_free bs ->
  encodes (let* cp := st_lift o in let* n := tcp_puts (until_nul cp) in
           wcommit_ret (if n <? 0 then DIS_PROTO else DIS_SUCCESS)) bs 0.
Proof.
  intros -> Hn. eapply encodes_ext; [|apply puts_commit_encodes].
  intros w. unfold st_lift, st_bind at 1, st_ret. by rewrite until_nul_id.
Qed.

(** The sign and magnitude of a signed value. *)
Definition wire_int (v : Z) : list Z :=
  if v <? 0 then wire_num c_minus (- v) else wire_num c_plus v.

Lemma diswui_encodes v : 0 <= v <= UINT_MAX -> encodes (diswui v) (wire_num c_plus v) 0.
Proof.
  intros Hv. eapply encodes_ext; [|eapply lift_puts_encodes; [by apply discui_image|]].
  - intros w. unfold diswui, diswui_. unfold st_bind at 1 2. unfold st_bind at 2. 
    destruct (st_lift _ w) as [cp w1| |]; [|done..]. unfold st_bind.
    by destruct (tcp_puts (until_nul cp) w1).
  - apply wire_num_nul_free; [done|]. unfold UINT_MAX, ULONG_MAX in *. lia.
Qed.

Lemma diswsi_encodes v : INT_MIN <= v <= INT_MAX -> encodes (diswsi v) (wire_int v) 0.
Proof.
  unfold INT_MIN, INT_MAX. intros Hv. unfold diswsi, wire_int. destruct (Z.ltb_spec v 0).
  - apply lift_puts_encodes; [|apply wire_num_nul_free; [done|unfold ULONG_MAX; lia]].
    rewrite (u32_small (- (v + 1))) by lia. rewrite u32_small by lia.
    replace (- (v + 1) + 1) with (- v) by lia. apply discui_image. unfold UINT_MAX. lia.
  - rewrite u32_small by lia.
    apply lift_puts_encodes; [|apply wire_num_nul_free; [done|unfold ULONG_MAX; lia]].
    apply discui_image. unfold UINT_MAX. lia.
Qed.

Lemma diswul_encodes v : 0 <= v <= ULONG_MAX -> encodes (diswul v) (wire_num c_plus v) 0.
Proof.
  intros Hv. apply lift_puts_encodes; [by apply discul_image|by apply wire_num_nul_free].
Qed.

Lemma diswsl_encodes v : LONG_MIN <= v <= LONG_MAX -> encodes (diswsl v) (wire_int v) 0.
Proof.
  unfold LONG_MIN, LONG_MAX. intros Hv. unfold diswsl, wire_int. destruct (Z.ltb_spec v 0).
  - apply lift_puts_encodes; [|apply wire_num_nul_free; [done|unfold ULONG_MAX; lia]].
    rewrite (u64_small (- (v + 1))) by lia. rewrite u64_small by lia.
    replace (- (v + 1) + 1) with (- v) by lia. apply discul_image. unfold ULONG_MAX. lia.
  - rewrite u64_small by lia.
    apply lift_puts_encodes; [|apply wire_num_nul_free; [done|unfold ULONG_MAX; lia]].
    apply discul_image. unfold ULONG_MAX. lia.
Qed.

End Writers.

(** ** The grammar of integers

    The language that [disrsi_] and [disrsl_] accept: a number of [count] digits
    is either a sign and exactly [count] digits, or the [count] digits of the
    length of what follows.  No text has more than [maxd] digits or a value above
    [max]. *)
Inductive numeral (maxd max : Z) : Z -> list Z -> bool -> Z -> Prop :=
| num_value count c ds :
    (c = c_plus \/ c = c_minus) -> digits ds -> zlen ds = count -> 1 <= count <= maxd ->
    dval 0 ds <= max ->
    numeral maxd max count (c :: ds) (c =? c_minus) (dval 0 ds)
| num_count count c cs bs neg v :
    digits (c :: cs) -> c <> c_0 -> zlen (c :: cs) = count -> count <= maxd ->
    dval 0 (c :: cs) <= max ->
    numeral maxd max (dval 0 (c :: cs)) bs neg v ->
    numeral maxd max count ((c :: cs) ++ bs) neg v.

(** A limit as [disiui_] and [disrsl_] keep it: the digits [lim] of [max]. *)
Record limit (maxd max : Z) (lim : list Z) (wrap : Z -> Z) : Prop := {
  lim_digits : digits lim;
  lim_len : zlen lim = maxd;
  lim_val : dval 0 lim = max;
  lim_pow : 10 ^ (maxd - 1) <= max + 1;
  lim_pos : 9 <= max;
  lim_wrap : forall z, 0 <= z <= max -> wrap z = z
}.

Lemma limit_ui : limit 10 UINT_MAX umax_digits u32.
Proof.
  constructor; [by repeat constructor|reflexivity|reflexivity|by vm_compute|by vm_compute|].
  intros z Hz. apply u32_small. unfold UINT_MAX in *. lia.
Qed.

Lemma limit_ul : limit 20 ULONG_MAX ulmax_digits u64.
Proof.
  constructor; [by repeat constructor|reflexivity|reflexivity|by vm_compute|by vm_compute|].
  intros z Hz. apply u64_small. unfold ULONG_MAX in *. lia.
Qed.

Section Limit.
Context {maxd max : Z} {lim : list Z} {wrap : Z -> Z} (L : limit maxd max lim wrap).

(** The test a reader makes before it converts [s]. *)
Definition too_big (s : list Z) : bool :=
  if zlen s =? maxd then 0 <? memcmp s lim else false.

Lemma too_big_digits s :
  digits s -> 1 <= zlen s <= maxd -> too_big s = (max <? dval 0 s).
Proof.
  intros Hd Hl. unfold too_big. destruct L as [Ld Ll Lv Lp _ _].
  destruct (Z.eqb_spec (zlen s) maxd) as [E|E].
  - rewrite <- Lv. apply memcmp_dval; [done|done| |done]. unfold zlen in *. lia.
  - pose proof (dval_bounds s 0 Hd ltac:(lia)).
    assert (10 ^ zlen s <= 10 ^ (maxd - 1)) by (apply Z.pow_le_mono_r; lia).
    destruct (Z.ltb_spec max (dval 0 s)); [lia|done].
Qed.

(** When the test passes the conversion is exact. *)
Lemma convert_sound s v :
  1 <= zlen s <= maxd -> too_big s = false -> digit_loop wrap 0 s = Some v ->
  digits s /\ v = dval 0 s /\ dval 0 s <= max.
Proof.
  intros Hl Hb Hv. pose proof (digit_loop_some _ _ _ _ Hv) as Hd.
  rewrite too_big_digits in Hb by done. apply Z.ltb_ge in Hb.
  rewrite (digit_loop_ok wrap max s 0) in Hv; [|apply (lim_wrap _ _ _ _ L)|done|lia|done].
  by injection Hv as <-.
Qed.

Lemma convert_complete s :
  digits s -> 1 <= zlen s <= maxd -> dval 0 s <= max ->
  too_big s = false /\ digit_loop wrap 0 s = Some (dval 0 s).
Proof.
  intros Hd Hl Hv. rewrite too_big_digits by done. split; [by apply Z.ltb_ge|].
  eapply digit_loop_ok; [apply (lim_wrap _ _ _ _ L)|done|lia|done].
Qed.

(** The readers start the conversion of a count at its first digit. *)
Lemma digit_loop_first c s :
  is_digit c = true -> digit_loop wrap (c - c_0) s = digit_loop wrap 0 (c :: s).
Proof.
  intros Hc. simpl. rewrite Hc. apply is_digit_range in Hc. unfold c_0.
  rewrite (lim_wrap _ _ _ _ L) by (pose proof (lim_pos _ _ _ _ L); lia). done.
Qed.

End Limit.

Lemma numeral_count maxd max count bs neg v :
  numeral maxd max count bs neg v -> 1 <= count <= maxd.
Proof.
  destruct 1 as [| count c cs]; [done|]. rewrite zlen_cons in *.
  pose proof (zlen_nonneg cs). lia.
Qed.

Lemma numeral_value maxd max count bs neg v :
  numeral maxd max count bs neg v -> 0 <= v <= max /\ (2 <= length bs)%nat.
Proof.
  induction 1 as [count c ds Hc Hd Hl Hk Hv|count c cs bs neg v Hd Hc Hl Hk Hv Hn IH].
  - split; [split; [by apply dval_mono|done]|]. unfold zlen in *. simpl. lia.
  - split; [by apply IH|]. rewrite length_app. lia.
Qed.

(** What the writers produce is in the language of the readers. *)
Lemma wire_num_numeral maxd max c v :
  (c = c_plus \/ c = c_minus) -> 0 <= v <= max -> max <= ULONG_MAX -> 20 <= max ->
  (maxd = 20 \/ maxd = 10 /\ max <= UINT_MAX) ->
  numeral maxd max 1 (wire_num c v) (c =? c_minus) v.
Proof.
  intros Hc Hv Hm1 Hm2 Hmax.
  destruct (wire_num_spec c v ltac:(lia)) as (ds & [Hd Hval _] & -> & _ & Hl & Hl').
  assert (Hnum : numeral maxd max (zlen ds) (c :: ds) (c =? c_minus) v).
  { rewrite <- Hval. constructor; [done|done|done| |lia].
    destruct Hmax as [->|[-> ?]]; [done|]. split; [lia|]. apply Hl'. lia. }
  pose proof (counts_digits _ Hl) as Hcd. unfold counts in *.
  destruct (Z.leb_spec (zlen ds) 1); [by replace 1 with (zlen ds) by lia|].
  assert (Hone : forall k bs, 1 <= k <= 9 -> is_digit (k + c_0) = true ->
    numeral maxd max k bs (c =? c_minus) v ->
    numeral maxd max 1 ([k + c_0] ++ bs) (c =? c_minus) v).
  { intros k bs Hk Hdig Hb. unfold c_0 in *.
    apply num_count; [|unfold c_0; lia|done|clear Hl'; lia| |].
    - apply digits_cons. by split; [|constructor].
    - simpl. unfold c_0. lia.
    - simpl. unfold c_0. replace (10 * 0 + (k + 48 - 48)) with k by lia. done. }
  destruct (Z.leb_spec (zlen ds) 9).
  - apply digits_cons in Hcd as [Hcd _]. by apply Hone; [lia|..].
  - pose proof (Z.div_mod (zlen ds) 10 ltac:(lia)).
    pose proof (Z.mod_pos_bound (zlen ds) 10 ltac:(lia)).
    apply digits_cons in Hcd as [Hc1 Hcd]. apply (Hone 2); [lia|done|].
    apply (num_count _ _ _ _ [zlen ds mod 10 + c_0] (c :: ds));
      [done|unfold c_0; lia|done|clear Hl'; lia| |].
    + simpl. unfold c_0. lia.
    + simpl. unfold c_0.
      by replace (10 * (10 * 0 + (zlen ds / 10 + 48 - 48)) + (zlen ds mod 10 + 48 - 48))
        with (zlen ds) by lia.
Qed.

(** ** The readers decide the grammar *)

Section Readers.
Context `{AllocOk}.

(** Bytes not yet taken from the channel. *)
Definition unread (w : world) : nat :=
  (length (rbuffered w) + length (all_data (net_in w)))%nat.

Lemma rstep_unread w w' bs : rstep w w' bs -> unread w = (length bs + unread w')%nat.
Proof.
  intros [_ Hb _ Hm _ _]. unfold rmeasure, unread in *. rewrite Hb, length_app in Hm. lia.
Qed.

Lemma front_unread w : (length (rfront w) <= unread w)%nat.
Proof.
  unfold rfront, unread. rewrite length_app. pose proof (zlen_until_err (net_in w)).
  unfold zlen in *. lia.
Qed.

Lemma rstep_refl w : wf_read w -> rstep w w [].
Proof.
  intros Hw. constructor; [done|by rewrite app_nil_r|apply rframe_refl|done| |by apply statics_le_eq].
  exists []. by rewrite app_nil_r.
Qed.

Lemma getc_cases w :
  wf_read w ->
  exists c w' bs, tcp_getc w = Ret c w' /\ rstep w w' bs
    /\ (bs = [c] /\ rfront w = c :: rfront w' \/ bs = [] /\ (c = -1 \/ c = -2)).
Proof.
  intros Hw. destruct (rfront w) as [|c rest] eqn:Hf.
  - destruct (tcp_getc_fail w Hw Hf) as (rc & w' & E & Hrc & Hs & _). exists rc, w', []. eauto.
  - destruct (tcp_getc_ok w c rest Hw Hf) as (w' & E & Hs & Hr). exists c, w', [c].
    rewrite Hr. eauto.
Qed.

Lemma gets_cases w ct :
  wf_read w -> 0 <= ct ->
  exists n s w', tcp_gets ct w = Ret (n, s) w' /\ rstep w w' s
    /\ (n = i32 ct /\ zlen s = ct /\ rfront w = s ++ rfront w' \/ s = [] /\ n < 0).
Proof.
  intros Hw Hct. destruct (Z_le_gt_dec ct (zlen (rfront w))).
  - destruct (tcp_gets_ok w ct Hw ltac:(lia)) as (w' & E & Hs & Hr).
    eexists _, _, w'. split; [exact E|]. split; [done|]. left. rewrite zlen_take by lia.
    by rewrite Hr, take_drop.
  - destruct (tcp_gets_fail w ct Hw ltac:(lia)) as (rc & w' & E & Hrc & Hs & _).
    exists rc, [], w'. split; [done|]. split; [done|]. right. split; [done|]. lia.
Qed.

(** Filling a static leaves the channel alone. *)
Lemma rstep_statics w s :
  wf_read w -> wf_statics s -> statics_le (statics w) s -> rstep w (set_statics s w) [].
Proof.
  intros [Hb Ht Hx Hs] Hs' Hle. constructor; simpl; try done.
  - by rewrite app_nil_r.
  - exists []. by rewrite app_nil_r.
Qed.

Definition ready_ui (s : dis_statics) : Prop := dis_umaxd s = 10 /\ dis_umax s = Some umax_digits.
Definition ready_ul (s : dis_statics) : Prop := ulmaxdigs s = 20 /\ ulmax s = Some ulmax_digits.

Lemma ready_ui_step w w' bs : ready_ui (statics w) -> rstep w w' bs -> ready_ui (statics w').
Proof.
  intros [E _] [[_ _ _ [[[E' _]|?] _]] _ _ _ _ [Hle _]]; [|done].
  rewrite E, E' in Hle. by destruct Hle.
Qed.

Lemma ready_ul_step w w' bs : ready_ul (statics w) -> rstep w w' bs -> ready_ul (statics w').
Proof.
  intros [E _] [[_ _ _ [_ [[E' _]|?]]] _ _ _ _ [_ Hle]]; [|done].
  rewrite E, E' in Hle. by destruct Hle.
Qed.

Lemma init_ui w :
  wf_read w ->
  exists w', (if dis_umaxd (statics w) =? 0 then disiui_ else st_ret tt) w = Ret tt w'
    /\ rstep w w' [] /\ rfront w' = rfront w /\ ready_ui (statics w')
    /\ ulmaxdigs (statics w') = ulmaxdigs (statics w) /\ ulmax (statics w') = ulmax (statics w).
Proof.
  intros Hw. destruct (wr_statics _ Hw) as [[[E1 E2]|[E1 E2]] Hul]; rewrite E1.
  - change (0 =? 0) with true. cbv iota. unfold disiui_, st_bind at 1, st_get.
    rewrite E1, E2. change (discui_ [] UINT_MAX) with (Some (umax_digits, 10)).
    rewrite bool_decide_true by done. cbn [negb orb Z.eqb].
    unfold st_lift, st_bind, st_ret, st_modify. cbn [fst snd].
    rewrite alloc_ok by (unfold ALLOC_MAX; lia).
    take_world. split; [done|]. split; [|done].
    apply rstep_statics; [done| |]; split; simpl; try done. by right.
  - exists w. split; [done|]. split; [by apply rstep_refl|]. by split.
Qed.

Lemma init_ul w :
  wf_read w ->
  exists w', ulmax_init w = Ret true w'
    /\ rstep w w' [] /\ rfront w' = rfront w /\ ready_ul (statics w').
Proof.
  intros Hw. destruct (wr_statics _ Hw) as [Hui [[E1 E2]|[E1 E2]]];
    unfold ulmax_init, st_bind at 1, st_get; rewrite E1.
  - change (0 =? 0) with true. cbv iota.
    change (discul_ [] ULONG_MAX) with (Some (ulmax_digits, 20)).
    unfold st_bind at 1, st_lift, st_ret at 1. cbn [fst snd].
    rewrite alloc_ok by (unfold ALLOC_MAX; lia). unfold st_bind at 1, st_modify.
    match goal with |- context [set_statics ?s w] => set (w1 := set_statics s w) end.
    assert (Hs1 : rstep w w1 []).
    { apply rstep_statics; [done| |]; split; simpl; try done. by right. }
    destruct (init_ui w1 (rs_wf _ _ _ Hs1)) as (w2 & E & Hs2 & Hf2 & _ & Hu & Hv).
    change (dis_umaxd (statics w)) with (dis_umaxd (statics w1)).
    rewrite (st_bind_ret _ _ _ _ _ E). exists w2. split; [done|].
    split; [exact (rstep_trans _ _ _ [] [] Hs1 Hs2)|].
    split; [by rewrite Hf2|]. unfold ready_ul. by rewrite Hu, Hv.
  - exists w. split; [done|]. split; [by apply rstep_refl|]. by split.
Qed.

(** What every run of a reader's loop leaves behind. *)
Definition scanned (maxd max count : Z) (w : world) (r : Z * bool * Z) (w' : world) : Prop :=
  let '(rc, neg, v) := r in
  exists bs, rstep w w' bs /\ 0 <= rc <= 12 /\ 
    (rc = 0 -> numeral maxd max count bs neg v /\ rfront w = bs ++ rfront w').

Lemma scanned_err maxd max count w w' bs rc neg v :
  rstep w w' bs -> 1 <= rc <= 12 -> scanned maxd max count w (rc, neg, v) w'.
Proof. intros Hs Hrc. exists bs. split; [done|]. split; lia. Qed.

Lemma numeral_sign maxd max lim wrap c s v :
  limit maxd max lim wrap -> (c = c_minus \/ c = c_plus) -> 1 <= zlen s <= maxd ->
  too_big (maxd := maxd) (lim := lim) s = false -> digit_loop wrap 0 s = Some v ->
  numeral maxd max (zlen s) (c :: s) (c =? c_minus) v.
Proof.
  intros L Hc Hl Hb Hv. destruct (convert_sound L s v Hl Hb Hv) as (Hd & -> & Hm).
  constructor; tauto.
Qed.

Lemma is_digit_pos c : (c_0 <? c) && (c <=? c_9) = true -> is_digit c = true /\ c <> c_0 /\ 1 <= c - c_0.
Proof.
  unfold is_digit, c_0, c_9. intros [?%Z.ltb_lt ?%Z.leb_le]%andb_prop.
  split; [|lia]. apply andb_true_intro. split; apply Z.leb_le; lia.
Qed.

Lemma i32_count n : 0 <= n <= 63 -> i32 n = n.
Proof. intros. apply i32_small. lia. Qed.

(** Continuation rule: [k] runs after [bs1] has been consumed. *)
Lemma scanned_trans maxd max count1 count w w1 bs1 r w' :
  rstep w w1 bs1 -> rfront w = bs1 ++ rfront w1 ->
  (forall bs neg v, numeral maxd max count1 bs neg v -> numeral maxd max count (bs1 ++ bs) neg v) ->
  scanned maxd max count1 w1 r w' -> scanned maxd max count w r w'.
Proof.
  intros Hs Hf Hn. destruct r as [[rc neg] v]. intros (bs & Hs2 & Hrc & H2). exists (bs1 ++ bs).
  split; [by eapply rstep_trans|]. split; [done|]. intros [Hb Hf2]%H2.
  split; [by apply Hn|]. by rewrite Hf, Hf2, app_assoc.
Qed.

Section Width.
Context {maxd max : Z} {lim : list Z} {wrap : Z -> Z} (L : limit maxd max lim wrap).
Context (Hmaxd : maxd <= 63).

Lemma over_limit_big s count w :
  zlen s = count ->
  (if count =? maxd then over_limit s (Some lim) else st_ret false) w
  = Ret (too_big (maxd := maxd) (lim := lim) s) w.
Proof. intros <-. unfold too_big, over_limit. by destruct (zlen s =? maxd). Qed.

Lemma disr_value_sound w neg val count :
  wf_read w -> 1 <= count <= 63 ->
  runs (disr_value wrap max maxd (Some lim) neg val count) w (fun '(rc, neg', v) w' =>
    exists s, rstep w w' s /\ 0 <= rc <= 12 /\
      (rc = 0 -> neg' = neg /\ zlen s = count /\ count <= maxd /\ digits s /\ v = dval 0 s
                 /\ v <= max /\ rfront w = s ++ rfront w')).
Proof.
  intros Hw Hc. unfold runs, disr_value.
  destruct (gets_cases w count Hw ltac:(lia)) as (n & s & w1 & E & Hs & Hn).
  rewrite (st_bind_ret _ _ _ _ _ E). rewrite i32_count in * by lia.
  destruct Hn as [(-> & Hl & Hf)|[-> Hn]].
  2: { destruct (Z.eqb_spec n count); [lia|]. by exists []. }
  rewrite Z.eqb_refl. cbn [negb].
  destruct (Z.ltb_spec maxd count); [by exists s|].
  rewrite (st_bind_ret _ _ _ _ _ (over_limit_big s count w1 Hl)).
  destruct (too_big s) eqn:Hb; [by exists s|].
  destruct (digit_loop wrap 0 s) as [v|] eqn:Hv; [|by exists s].
  destruct (convert_sound L s v ltac:(lia) Hb Hv) as (Hd & -> & Hm). by exists s.
Qed.

Lemma disr_count_sound w c count :
  wf_read w -> 1 <= count <= 63 -> is_digit c = true ->
  runs (disr_count wrap maxd (Some lim) c count) w (fun r w' =>
    exists s, rstep w w' s /\
      match r with
      | inl rc => 1 <= rc <= 12
      | inr n => zlen (c :: s) = count /\ (1 <= maxd -> count <= maxd) /\ digits (c :: s)
          /\ n = dval 0 (c :: s) /\ n <= max /\ rfront w = s ++ rfront w'
      end).
Proof.
  intros Hw Hc Hdig. unfold runs, disr_count. destruct (Z.ltb_spec 1 count).
  2: { exists []. split; [by apply rstep_refl|]. split; [rewrite zlen_cons, zlen_nil; lia|].
       split; [lia|]. split; [by repeat constructor|]. split; [done|].
       split; [|done].
       pose proof (lim_pos _ _ _ _ L). apply is_digit_range in Hdig. unfold c_0. lia. }
  destruct (gets_cases w (count - 1) Hw ltac:(lia)) as (n & s & w1 & E & Hs & Hn).
  rewrite (st_bind_ret _ _ _ _ _ E). rewrite !i32_count in * by lia.
  destruct Hn as [(-> & Hl & Hf)|[-> Hn]].
  2: { destruct (Z.eqb_spec n (count - 1)); [lia|]. by exists []. }
  rewrite Z.eqb_refl. cbn [negb].
  destruct (Z.ltb_spec maxd count); [by exists s|].
  assert (Hl' : zlen (c :: s) = count) by (rewrite zlen_cons; lia).
  rewrite (st_bind_ret _ _ _ _ _ (over_limit_big (c :: s) count w1 Hl')).
  destruct (too_big (c :: s)) eqn:Hb; [by exists s|].
  rewrite (digit_loop_first L) by done.
  destruct (digit_loop wrap 0 (c :: s)) as [v|] eqn:Hv; [|by exists s].
  destruct (convert_sound L (c :: s) v ltac:(lia) Hb Hv) as (Hd & -> & Hm). by exists s.
Qed.

Context {lim_of : dis_statics -> Z * option (list Z)}.

Lemma disr_switch_sound again w neg val count :
  wf_read w -> 1 <= count <= 63 -> 1 <= maxd ->
  (forall w' bs, rstep w w' bs -> lim_of (statics w') = (maxd, Some lim)) ->
  (forall w' n, wf_read w' -> (unread w' < unread w)%nat -> 1 <= n ->
     runs (again n) w' (scanned maxd max n w')) ->
  runs (disr_switch wrap max lim_of again neg val count) w (scanned maxd max count w).
Proof.
  intros Hw Hcount Hmax Hlim Hagain. unfold disr_switch.
  destruct (getc_cases w Hw) as (c & w2 & bs & E & Hs & Hc).
  unfold runs. rewrite (st_bind_ret _ _ _ _ _ E). unfold st_bind at 1, st_get.
  rewrite (Hlim _ _ Hs). pose proof (rs_wf _ _ _ Hs) as Hw2.
  destruct ((c =? c_minus) || (c =? c_plus)) eqn:Esign.
  { assert (Hsg : c = c_plus \/ c = c_minus)
      by (apply orb_prop in Esign as [?%Z.eqb_eq|?%Z.eqb_eq]; auto).
    destruct Hc as [[-> Hf]|[_ ?]]; [|unfold c_minus, c_plus in Hsg; lia].
    eapply runs_weaken; [by apply disr_value_sound|].
    intros [[rc neg'] v] w3 (s & Hs3 & Hrc & Hok). exists ([c] ++ s).
    split; [by eapply rstep_trans|]. split; [done|].
    intros (-> & Hl & Hm & Hd & -> & Hv & Hf3)%Hok.
    split; [apply (num_value _ _ _ c s); (done || lia)|]. by rewrite Hf, Hf3. }
  destruct (Z.eqb_spec c c_0) as [|Hc0]; [by eapply scanned_err|].
  destruct ((c_0 <? c) && (c <=? c_9)) eqn:Edig.
  { apply is_digit_pos in Edig as (Hdig & _ & Hpos).
    destruct Hc as [[-> Hf]|[_ ?]]; [|unfold c_0 in *; lia].
    apply runs_bind. eapply runs_weaken; [by apply disr_count_sound|].
    intros r w3 (s & Hs3 & Hr). pose proof (rstep_trans _ _ _ _ _ Hs Hs3) as Hs13.
    destruct r as [rc|n].
    - unfold runs, st_ret. destruct (rc =? DIS_OVERFLOW); by eapply scanned_err.
    - destruct Hr as (Hl & Hm & Hd & -> & Hv & Hf3). eapply runs_weaken.
      + apply Hagain; [by destruct Hs3|apply rstep_unread in Hs13; simpl in Hs13; lia|].
        simpl. apply digits_cons in Hd as [_ Hd].
        pose proof (dval_mono s (10 * 0 + (c - c_0)) Hd ltac:(lia)). lia.
      + intros r w4. apply scanned_trans with (bs1 := [c] ++ s); [done|by rewrite Hf, Hf3|].
        intros bs neg' v Hn. apply (num_count _ _ _ c s); auto. }
  destruct (c =? -1); [by eapply scanned_err|].
  destruct (c =? -2); by eapply scanned_err.
Qed.

End Width.

Lemma disrsi_loop_sound fuel : forall w neg0 val0 count,
  wf_read w -> (unread w < fuel)%nat -> 0 <= count ->
  runs (disrsi_loop fuel neg0 val0 count) w (scanned 10 UINT_MAX count w).
Proof.
  induction fuel as [|fuel IH]; intros w neg0 val0 count Hw Hfuel Hcount; [lia|].
  cbn [disrsi_loop]. unfold runs.
  destruct (Z.eqb_spec count 0); [by eapply scanned_err; [by apply rstep_refl|]|].
  unfold st_bind at 1, st_get.
  destruct (init_ui w Hw) as (w1 & E1 & Hs1 & Hf1 & Hr1 & _).
  rewrite (st_bind_ret _ _ _ _ _ E1). unfold DIS_BUFSIZ.
  destruct (Z.ltb_spec (64 - 1) count); [by eapply scanned_err|].
  eapply runs_weaken; [|intros r w'; by apply scanned_trans with (bs1 := [])].
  pose proof (rstep_unread _ _ _ Hs1) as Hu. simpl in Hu.
  apply (disr_switch_sound limit_ui); [by destruct Hs1|lia|lia| |].
  - intros w' bs Hs. unfold lim_ui. by destruct (ready_ui_step _ _ _ Hr1 Hs) as [-> ->].
  - intros w' n' Hw' Hn' Hp. apply IH; [done|lia|lia].
Qed.

Lemma disrsl_loop_sound fuel : forall w neg0 val0 count,
  wf_read w -> (unread w < fuel)%nat -> 1 <= count ->
  runs (disrsl_loop fuel neg0 val0 count) w (scanned 20 ULONG_MAX count w).
Proof.
  induction fuel as [|fuel IH]; intros w neg0 val0 count Hw Hfuel Hcount; [lia|].
  cbn [disrsl_loop]. unfold runs. destruct (Z.eqb_spec count 0); [lia|].
  destruct (init_ul w Hw) as (w1 & E1 & Hs1 & Hf1 & Hr1).
  rewrite (st_bind_ret _ _ _ _ _ E1). unfold st_bind at 1, st_get. cbn [negb].
  destruct Hr1 as [Em El] eqn:?. unfold lim_ul at 1. rewrite Em, El.
  destruct (Z.ltb_spec 20 count); [by eapply scanned_err|].
  assert (Eb : (if count =? 20 then over_limit (replicate (Z.to_nat 20) 0) (Some ulmax_digits)
                else st_ret false) w1 = Ret false w1) by (by destruct (count =? 20)).
  rewrite (st_bind_ret _ _ _ _ _ Eb).
  eapply runs_weaken; [|intros r w'; by apply scanned_trans with (bs1 := [])].
  pose proof (rstep_unread _ _ _ Hs1) as Hu. simpl in Hu.
  apply (disr_switch_sound limit_ul); [by destruct Hs1|lia|lia| |].
  - intros w' bs Hs. unfold lim_ul. by destruct (ready_ul_step _ _ _ Hr1 Hs) as [-> ->].
  - intros w' n' Hw' Hn' Hp. apply IH; [done|lia|lia].
Qed.

Lemma gets_exact w s rest :
  wf_read w -> rfront w = s ++ rest ->
  exists w', tcp_gets (zlen s) w = Ret (i32 (zlen s), s) w' /\ rstep w w' s /\ rfront w' = rest.
Proof.
  intros Hw Hf. destruct (tcp_gets_ok w (zlen s) Hw) as (w' & E & Hs & Hr).
  { rewrite Hf, zlen_app. pose proof (zlen_nonneg s). pose proof (zlen_nonneg rest). lia. }
  unfold zlen in *. rewrite Nat2Z.id in *. rewrite Hf in *.
  rewrite take_app_length in *. rewrite drop_app_length in Hr. eauto.
Qed.

(** [m] takes exactly [bs] off the front and returns [a]. *)
Definition takes {A} (m : M A) (w : world) (bs : list Z) (rest : list Z) (a : A) : Prop :=
  exists w', m w = Ret a w' /\ rstep w w' bs /\ rfront w' = rest.

Section WidthComplete.
Context {maxd max : Z} {lim : list Z} {wrap : Z -> Z} (L : limit maxd max lim wrap).
Context (Hmaxd : maxd <= 63).

Lemma disr_value_complete w s rest neg val :
  wf_read w -> rfront w = s ++ rest -> digits s -> 1 <= zlen s <= maxd -> dval 0 s <= max ->
  takes (disr_value wrap max maxd (Some lim) neg val (zlen s)) w s rest (0, neg, dval 0 s).
Proof.
  intros Hw Hf Hd Hl Hv. destruct (gets_exact w s rest Hw Hf) as (w' & E & Hs & Hr).
  exists w'. split; [|done]. unfold disr_value. rewrite (st_bind_ret _ _ _ _ _ E), Z.eqb_refl.
  cbn [negb]. destruct (Z.ltb_spec maxd (zlen s)); [lia|].
  rewrite (st_bind_ret _ _ _ _ _ (over_limit_big s (zlen s) w' eq_refl)).
  by destruct (convert_complete L s Hd Hl Hv) as [-> ->].
Qed.

Lemma disr_count_complete w c s rest :
  wf_read w -> rfront w = s ++ rest -> digits (c :: s) -> zlen (c :: s) <= maxd ->
  dval 0 (c :: s) <= max ->
  takes (disr_count wrap maxd (Some lim) c (zlen (c :: s))) w s rest (inr (dval 0 (c :: s))).
Proof.
  intros Hw Hf Hd Hl Hv. pose proof (zlen_nonneg s).
  assert (Hl' : zlen (c :: s) = zlen s + 1) by apply zlen_cons.
  unfold disr_count, takes. destruct (Z.ltb_spec 1 (zlen (c :: s))) as [Hgt|Hle].
  2: { assert (s = []) as -> by (apply nil_length_inv; unfold zlen in *; simpl in *; lia).
       exists w. split; [done|]. by split; [apply rstep_refl|]. }
  destruct (gets_exact w s rest Hw Hf) as (w' & E & Hs & Hr). exists w'. split; [|done].
  replace (zlen (c :: s) - 1) with (zlen s) by lia.
  rewrite (st_bind_ret _ _ _ _ _ E), !i32_count by lia.
  replace (zlen (c :: s) - 1) with (zlen s) by lia. rewrite Z.eqb_refl. cbn [negb].
  destruct (Z.ltb_spec maxd (zlen (c :: s))); [lia|].
  rewrite (st_bind_ret _ _ _ _ _ (over_limit_big (c :: s) _ w' eq_refl)).
  rewrite (digit_loop_first L) by (by apply digits_cons in Hd as [? _]).
  by destruct (convert_complete L (c :: s) Hd ltac:(lia) Hv) as [-> ->].
Qed.

Context {lim_of : dis_statics -> Z * option (list Z)}.

Lemma disr_switch_complete again w rest neg0 val count bs neg v :
  wf_read w -> numeral maxd max count bs neg v -> rfront w = bs ++ rest ->
  (forall w' bs', rstep w w' bs' -> lim_of (statics w') = (maxd, Some lim)) ->
  (forall w' bs' n, wf_read w' -> (length bs' < length bs)%nat -> rfront w' = bs' ++ rest ->
     numeral maxd max n bs' neg v -> takes (again n) w' bs' rest (0, neg, v)) ->
  takes (disr_switch wrap max lim_of again neg0 val count) w bs rest (0, neg, v).
Proof.
  intros Hw Hn Hf Hlim Hagain. pose proof (numeral_count _ _ _ _ _ _ Hn).
  destruct Hn as [count c ds Hc Hd Hl Hm Hv|count c cs bs neg v Hd Hc0 Hl Hm Hv Hn];
    destruct (tcp_getc_ok w c _ Hw Hf) as (w1 & E & Hs & Hf1);
    unfold takes, disr_switch; rewrite (st_bind_ret _ _ _ _ _ E);
    unfold st_bind at 1, st_get; rewrite (Hlim _ _ Hs); pose proof (rs_wf _ _ _ Hs) as Hw1.
  - replace ((c =? c_minus) || (c =? c_plus)) with true by (by destruct Hc as [-> | ->]).
    rewrite <- Hl in *.
    destruct (disr_value_complete w1 ds rest (c =? c_minus) val) as (w2 & E2 & Hs2 & Hr2); [done..|].
    exists w2. split; [done|]. by split; [eapply (rstep_trans _ _ _ [c])|].
  - pose proof (proj1 (digits_cons _ _) Hd) as [Hdig%is_digit_range _].
    unfold c_minus, c_plus, c_0, c_9 in *.
    destruct (Z.eqb_spec c 45), (Z.eqb_spec c 43), (Z.eqb_spec c 48); try lia.
    destruct (Z.ltb_spec 48 c), (Z.leb_spec c 57); try lia. cbn [orb andb].
    change (rfront w1 = (cs ++ bs) ++ rest) in Hf1. rewrite <- app_assoc in Hf1. rewrite <- Hl in Hm |- *.
    destruct (disr_count_complete w1 c cs (bs ++ rest)) as (w2 & E2 & Hs2 & Hr2); [done..|].
    pose proof (rstep_trans _ _ _ _ _ Hs Hs2) as Hs12.
    destruct (Hagain w2 bs (dval 0 (c :: cs))) as (w3 & E3 & Hs3 & Hr3);
      [by destruct Hs2|rewrite length_app; simpl; lia|done|done|].
    exists w3. rewrite (st_bind_ret _ _ _ _ _ E2). split; [done|].
    by split; [eapply rstep_trans|].
Qed.

End WidthComplete.

Lemma takes_after {A} (m : M A) w w1 bs rest a :
  rstep w w1 [] -> takes m w1 bs rest a ->
  exists w', m w1 = Ret a w' /\ rstep w w' bs /\ rfront w' = rest.
Proof.
  intros Hs (w' & E & Hs' & Hr). exists w'. split; [done|]. split; [|done].
  exact (rstep_trans _ _ _ [] _ Hs Hs').
Qed.

Lemma disrsi_loop_complete fuel : forall w rest neg0 val0 count bs neg v,
  wf_read w -> numeral 10 UINT_MAX count bs neg v -> rfront w = bs ++ rest ->
  (length bs <= fuel)%nat ->
  takes (disrsi_loop fuel neg0 val0 count) w bs rest (0, neg, v).
Proof.
  induction fuel as [|fuel IH]; intros w rest neg0 val0 count bs neg v Hw Hn Hf Hfuel.
  { apply numeral_value in Hn. lia. }
  pose proof (numeral_count _ _ _ _ _ _ Hn). cbn [disrsi_loop]. unfold takes.
  destruct (Z.eqb_spec count 0); [lia|]. unfold st_bind at 1, st_get.
  destruct (init_ui w Hw) as (w1 & E1 & Hs1 & Hf1 & Hr1 & _).
  rewrite (st_bind_ret _ _ _ _ _ E1). unfold DIS_BUFSIZ.
  destruct (Z.ltb_spec (64 - 1) count); [lia|].
  apply takes_after; [done|].
  apply (disr_switch_complete limit_ui); [lia|by destruct Hs1|done|by rewrite Hf1| |].
  - intros w' bs' Hs. unfold lim_ui. by destruct (ready_ui_step _ _ _ Hr1 Hs) as [-> ->].
  - intros w' bs' n' Hw' Hlt Hf' Hn'. apply IH; [done|done|done|lia].
Qed.

Lemma disrsl_loop_complete fuel : forall w rest neg0 val0 count bs neg v,
  wf_read w -> numeral 20 ULONG_MAX count bs neg v -> rfront w = bs ++ rest ->
  (length bs <= fuel)%nat ->
  takes (disrsl_loop fuel neg0 val0 count) w bs rest (0, neg, v).
Proof.
  induction fuel as [|fuel IH]; intros w rest neg0 val0 count bs neg v Hw Hn Hf Hfuel.
  { apply numeral_value in Hn. lia. }
  pose proof (numeral_count _ _ _ _ _ _ Hn). cbn [disrsl_loop]. unfold takes.
  destruct (Z.eqb_spec count 0); [lia|].
  destruct (init_ul w Hw) as (w1 & E1 & Hs1 & Hf1 & Hr1).
  rewrite (st_bind_ret _ _ _ _ _ E1). unfold st_bind at 1, st_get. cbn [negb].
  destruct Hr1 as [Em El] eqn:?. unfold lim_ul at 1. rewrite Em, El.
  destruct (Z.ltb_spec 20 count); [lia|].
  assert (Eb : (if count =? 20 then over_limit (replicate (Z.to_nat 20) 0) (Some ulmax_digits)
                else st_ret false) w1 = Ret false w1) by (by destruct (count =? 20)).
  rewrite (st_bind_ret _ _ _ _ _ Eb). apply takes_after; [done|].
  apply (disr_switch_complete limit_ul); [lia|by destruct Hs1|done|by rewrite Hf1| |].
  - intros w' bs' Hs. unfold lim_ul. by destruct (ready_ul_step _ _ _ Hr1 Hs) as [-> ->].
  - intros w' bs' n' Hw' Hlt Hf' Hn'. apply IH; [done|done|done|lia].
Qed.

(** ** The public readers *)

Lemma disrsi_start_sound w : wf_read w -> runs disrsi_start w (scanned 10 UINT_MAX 1 w).
Proof.
  intros Hw. apply disrsi_loop_sound; [done| |lia]. unfold unread, rmeasure. lia.
Qed.

Lemma disrsl_start_sound w : wf_read w -> runs disrsl_start w (scanned 20 ULONG_MAX 1 w).
Proof.
  intros Hw. apply disrsl_loop_sound; [done| |lia]. unfold unread, rmeasure. lia.
Qed.

Lemma front_fuel w bs rest : rfront w = bs ++ rest -> (length bs <= S (rmeasure w))%nat.
Proof.
  intros Hf. pose proof (front_unread w) as Hu. rewrite Hf, length_app in Hu.
  unfold unread, rmeasure in *. lia.
Qed.

Lemma disrsi_start_complete w rest bs neg v :
  wf_read w -> numeral 10 UINT_MAX 1 bs neg v -> rfront w = bs ++ rest ->
  takes disrsi_start w bs rest (0, neg, v).
Proof.
  intros Hw Hn Hf. unfold disrsi_start, disrsi_, takes.
  apply disrsi_loop_complete; [done..|by eapply front_fuel].
Qed.

Lemma disrsl_start_complete w rest bs neg v :
  wf_read w -> numeral 20 ULONG_MAX 1 bs neg v -> rfront w = bs ++ rest ->
  takes disrsl_start w bs rest (0, neg, v).
Proof.
  intros Hw Hn Hf. unfold disrsl_start, disrsl_, takes.
  apply disrsl_loop_complete; [done..|by eapply front_fuel].
Qed.

Lemma rcommit_ret_ok locret w :
  wf_read w ->
  exists w', rcommit_ret locret w = Ret locret w' /\ wf_read w' /\ rback w' = [] /\ rframe w w'
    /\ (if locret =? 0
        then rfront w' = rfront w /\ rmeasure w = (length (rback w) + rmeasure w')%nat
        else rfront w' = rback w ++ rfront w /\ rmeasure w' = rmeasure w).
Proof.
  intros Hw. unfold rcommit_ret, DIS_SUCCESS. destruct (Z.eqb_spec locret 0) as [->|Hne].
  - destruct (tcp_rcommit_true w Hw) as (w' & E & ? & ? & ? & ? & _ & ?).
    exists w'. rewrite (st_bind_ret _ _ _ _ _ E). done.
  - destruct (tcp_rcommit_false w Hw) as (w' & E & ? & ? & ? & ? & _ & ?).
    exists w'. rewrite (st_bind_ret _ _ _ _ _ E). done.
Qed.

(** A conversion that decides the grammar of a width. *)
Record conversion (start : M (Z * bool * Z)) (maxd max : Z) : Prop := {
  conv_sound : forall w, wf_read w -> runs start w (scanned maxd max 1 w);
  conv_complete : forall w rest bs neg v, wf_read w -> numeral maxd max 1 bs neg v ->
    rfront w = bs ++ rest -> takes start w bs rest (0, neg, v)
}.

Lemma conversion_ui : conversion disrsi_start 10 UINT_MAX.
Proof. constructor; [apply disrsi_start_sound|apply disrsi_start_complete]. Qed.

Lemma conversion_ul : conversion disrsl_start 20 ULONG_MAX.
Proof. constructor; [apply disrsl_start_sound|apply disrsl_start_complete]. Qed.

(** A reader that post-processes the triple with [post] and then commits. *)
Lemma commit_reader_decodes start maxd max (post : Z * bool * Z -> Z * Z) bs neg v u :
  conversion start maxd max -> numeral maxd max 1 bs neg v -> post (0, neg, v) = (u, 0) ->
  decodes (let* r := start in let '(value, locret) := post r in
           let* retval := rcommit_ret locret in st_ret (value, retval)) bs (u, 0).
Proof.
  intros [_ Hc] Hn Hp w rest Hw Hb Hf.
  destruct (Hc w rest bs neg v Hw Hn Hf) as (w1 & E & Hs & Hr). pose proof (rs_wf _ _ _ Hs) as Hw1.
  destruct (rcommit_ret_ok 0 w1 Hw1) as (w2 & E2 & Hw2 & Hb2 & Hf2 & Hr2 & Hm2).
  exists w2. rewrite (st_bind_ret _ _ _ _ _ E), Hp, (st_bind_ret _ _ _ _ _ E2).
  destruct Hs as [_ Hsb Hsf Hsm _ _]. rewrite Hb in Hsb. rewrite Hsb in Hm2. simpl in *.
  split; [done|]. split; [done|]. split; [done|]. split; [by rewrite Hr2|].
  split; [by eapply rframe_trans|]. lia.
Qed.

(** What such a reader does on any input: it commits what it has read when it
    succeeds and gives everything back when it does not. *)
Definition read_or_back (maxd max : Z) (post : Z * bool * Z -> Z * Z)
    (w : world) (v rc : Z) (w' : world) : Prop :=
  rleq w w' /\ rback w' = [] /\ 0 <= rc <= 12 /\
  (rc = 0 -> exists bs neg u, numeral maxd max 1 bs neg u /\ post (0, neg, u) = (v, 0)
             /\ rfront w = bs ++ rfront w' /\ (rmeasure w' < rmeasure w)%nat) /\
  (rc <> 0 -> rmeasure w' = rmeasure w /\ exists k, rfront w' = rback w ++ rfront w ++ k).

Lemma commit_reader_run start maxd max (post : Z * bool * Z -> Z * Z) (Q : Z -> Z -> Prop) w :
  conversion start maxd max -> wf_read w ->
  (forall rc neg v, 0 <= rc <= 12 -> (rc = 0 -> 0 <= v <= max) ->
     let '(value, locret) := post (rc, neg, v) in
     Q value locret /\ 0 <= locret <= 12 /\ (locret = 0 -> rc = 0)) ->
  runs (let* r := start in let '(value, locret) := post r in
        let* retval := rcommit_ret locret in st_ret (value, retval)) w
    (fun '(value, rc) w' => Q value rc /\ read_or_back maxd max post w value rc w').
Proof.
  intros [Hc _] Hw Hp. apply runs_bind. eapply runs_weaken; [by apply Hc|].
  intros [[rc neg] v] w1 (bs & Hs & Hrc & Hok).
  specialize (Hp rc neg v Hrc). destruct (post (rc, neg, v)) as [value locret] eqn:Ep.
  destruct Hp as (HQ & Hl & Hl0); [intros [[? _]%numeral_value _]%Hok; done|].
  pose proof (rs_wf _ _ _ Hs) as Hw1.
  destruct (rcommit_ret_ok locret w1 Hw1) as (w2 & E2 & Hw2 & Hb2 & Hf2 & Hr2).
  unfold runs. rewrite (st_bind_ret _ _ _ _ _ E2). split; [done|].
  destruct Hs as [_ Hsb Hsf Hsm [k Hk] _].
  split; [|split; [done|split; [done|]]].
  - split; [done|]. split; [by eapply rframe_trans|]. destruct (locret =? 0); lia.
  - destruct (Z.eqb_spec locret 0) as [->|Hne]; split; try done.
    + intros _. rewrite (Hl0 eq_refl) in *. destruct (Hok eq_refl) as [Hn Hf]. exists bs, neg, v.
      destruct Hr2 as [-> Hm]. do 3 (split; [done|]).
      apply numeral_value in Hn. rewrite Hsb, length_app in Hm. lia.
    + intros _. split; [lia|]. exists k. destruct Hr2 as [-> _].
      by rewrite Hsb, <- app_assoc, Hk.
Qed.

(** The post-processing of each reader. *)
Definition post_unsigned (r : Z * bool * Z) : Z * Z :=
  let '(locret, negate, value) := r in
  if negb (locret =? DIS_SUCCESS) then (0, locret)
  else if negate : bool then (0, DIS_BADSIGN) else (value, locret).

Lemma disr_unsigned_eq start w :
  disr_unsigned start w =
  (let* r := start in let '(value, locret) := post_unsigned r in
   let* retval := rcommit_ret locret in st_ret (value, retval)) w.
Proof.
  unfold disr_unsigned, st_bind at 1. symmetry. unfold st_bind at 1.
  by destruct (start w) as [[[rc neg] v] w1| |].
Qed.

Lemma decodes_ext {A} (m m' : M A) bs a :
  (forall w, m' w = m w) -> decodes m bs a -> decodes m' bs a.
Proof. intros He Hm w rest ???. rewrite He. by apply Hm. Qed.

Lemma disr_unsigned_decodes start maxd max bs v :
  conversion start maxd max -> numeral maxd max 1 bs false v ->
  decodes (disr_unsigned start) bs (v, 0).
Proof.
  intros Hc Hn. eapply decodes_ext; [intros; apply disr_unsigned_eq|].
  by eapply commit_reader_decodes.
Qed.

Lemma disr_unsigned_run start maxd max w :
  0 <= max -> conversion start maxd max -> wf_read w ->
  runs (disr_unsigned start) w (fun '(v, rc) w' =>
    (0 <= v <= max /\ (rc <> 0 -> v = 0)) /\ read_or_back maxd max post_unsigned w v rc w').
Proof.
  intros Hmax Hc Hw. unfold runs. rewrite disr_unsigned_eq.
  apply (commit_reader_run start maxd max post_unsigned
    (fun v rc => 0 <= v <= max /\ (rc <> 0 -> v = 0)) w Hc Hw).
  intros rc neg v Hrc Hv. unfold post_unsigned, DIS_SUCCESS, DIS_BADSIGN.
  destruct (Z.eqb_spec rc 0) as [->|]; simpl; [destruct neg|]; lia.
Qed.

Lemma disrui_decodes v : 0 <= v <= UINT_MAX -> decodes disrui (wire_num c_plus v) (v, 0).
Proof.
  intros Hv. eapply disr_unsigned_decodes; [apply conversion_ui|].
  apply (wire_num_numeral 10 UINT_MAX c_plus v); unfold UINT_MAX, ULONG_MAX in *; lia.
Qed.

Lemma disrul_decodes v : 0 <= v <= ULONG_MAX -> decodes disrul (wire_num c_plus v) (v, 0).
Proof.
  intros Hv. eapply disr_unsigned_decodes; [apply conversion_ul|].
  apply (wire_num_numeral 20 ULONG_MAX c_plus v); unfold ULONG_MAX in *; lia.
Qed.

Lemma disrui_run w :
  wf_read w ->
  runs disrui w (fun '(v, rc) w' =>
    (0 <= v <= UINT_MAX /\ (rc <> 0 -> v = 0)) /\ read_or_back 10 UINT_MAX post_unsigned w v rc w').
Proof. apply disr_unsigned_run; [done|apply conversion_ui]. Qed.

(** The value a signed reader makes of a sign and a magnitude, and its range. *)
Definition signed (neg : bool) (u : Z) : Z := if neg then - u else u.

Lemma disrsi_eq rc (neg : bool) u :
  (rc = 0 -> 0 <= u <= UINT_MAX) ->
  (if rc =? DIS_SUCCESS then
     if (if neg then u <=? u32 (u32 (- (INT_MIN + 1)) + 1) else u <=? INT_MAX) then
       let value := if neg then i32 (u32 (- u)) else i32 u in
       let* retval := rcommit_ret rc in
       st_ret (value, retval)
     else st_ret (if neg then INT_MIN else INT_MAX, DIS_OVERFLOW)
   else if rc =? DIS_OVERFLOW then
     st_ret (if neg then INT_MIN else INT_MAX, rc)
   else st_ret (0, rc)) =
  (if rc =? 0 then
     if (INT_MIN <=? signed neg u) && (signed neg u <=? INT_MAX) then
       let* retval := rcommit_ret 0 in st_ret (signed neg u, retval)
     else st_ret (if neg then INT_MIN else INT_MAX, DIS_OVERFLOW)
   else st_ret (if rc =? DIS_OVERFLOW then if neg then INT_MIN else INT_MAX else 0, rc)).
Proof.
  intros Hu. unfold DIS_SUCCESS. destruct (Z.eqb_spec rc 0) as [->|]; [|by destruct (rc =? DIS_OVERFLOW)].
  specialize (Hu eq_refl). unfold signed, INT_MIN, INT_MAX, UINT_MAX in *.
  replace (u32 (u32 (- (-2147483648 + 1)) + 1)) with 2147483648 by reflexivity.
  destruct neg.
  - destruct (Z.leb_spec u 2147483648), (Z.leb_spec (-2147483648) (- u)), (Z.leb_spec (- u) 2147483647);
      try lia; [|done]. simpl. by rewrite i32_u32 by lia.
  - destruct (Z.leb_spec u 2147483647), (Z.leb_spec (-2147483648) u); try lia; [|done].
    simpl. by rewrite i32_small by lia.
Qed.

(** [disrsi] on any input: no rollback on the error paths. *)
Lemma disrsi_run w :
  wf_read w ->
  runs disrsi w (fun '(v, rc) w' =>
    rleq w w' /\ INT_MIN <= v <= INT_MAX /\ 0 <= rc <= 12 /\
    (rc = 0 -> exists bs neg u, numeral 10 UINT_MAX 1 bs neg u /\ v = signed neg u
       /\ rfront w = bs ++ rfront w' /\ rback w' = [] /\ (rmeasure w' < rmeasure w)%nat) /\
    (rc <> 0 -> exists bs, rstep w w' bs)).
Proof.
  intros Hw. unfold disrsi. apply runs_bind. eapply runs_weaken; [by apply disrsi_start_sound|].
  intros [[rc neg] u] w1 (bs & Hs & Hrc & Hok).
  rewrite disrsi_eq by (intros [[? _]%numeral_value _]%Hok; done).
  assert (Hrl : rleq w w1) by (destruct Hs; split; [done|split; [done|lia]]).
  destruct (Z.eqb_spec rc 0) as [->|Hne].
  - destruct (Hok eq_refl) as [Hn Hf].
    destruct ((INT_MIN <=? signed neg u) && (signed neg u <=? INT_MAX)) eqn:Er.
    + apply andb_prop in Er as [?%Z.leb_le ?%Z.leb_le]. pose proof (rs_wf _ _ _ Hs) as Hw1.
      destruct (rcommit_ret_ok 0 w1 Hw1) as (w2 & E2 & Hw2 & Hb2 & Hf2 & Hr2 & Hm2).
      unfold runs. rewrite (st_bind_ret _ _ _ _ _ E2). destruct Hs as [_ Hsb Hsf Hsm _ _].
      rewrite Hsb, length_app in Hm2. pose proof (numeral_value _ _ _ _ _ _ Hn).
      split; [split; [done|split; [by eapply rframe_trans|lia]]|].
      split; [done|]. split; [done|]. split; [|done]. intros _.
      exists bs, neg, u. do 2 (split; [done|]). split; [by rewrite Hr2|]. split; [done|lia].
    + split; [done|]. split; [by destruct neg|]. split; [done|]. split; [done|]. eauto.
  - split; [done|]. split; [by destruct (rc =? DIS_OVERFLOW), neg|]. split; [done|].
    split; [done|]. eauto.
Qed.

Lemma disrsi_numeral_decodes bs neg u :
  numeral 10 UINT_MAX 1 bs neg u -> INT_MIN <= signed neg u <= INT_MAX ->
  decodes disrsi bs (signed neg u, 0).
Proof.
  intros Hn Hr w rest Hw Hb Hf.
  destruct (disrsi_start_complete w rest bs neg u Hw Hn Hf) as (w1 & E & Hs & Hf1).
  pose proof (rs_wf _ _ _ Hs) as Hw1.
  destruct (rcommit_ret_ok 0 w1 Hw1) as (w2 & E2 & Hw2 & Hb2 & Hf2 & Hr2 & Hm2).
  exists w2. unfold disrsi. rewrite (st_bind_ret _ _ _ _ _ E).
  rewrite disrsi_eq by (intros; by apply numeral_value in Hn as [? _]).
  rewrite Z.eqb_refl, (proj2 (Z.leb_le _ _) (proj1 Hr)), (proj2 (Z.leb_le _ _) (proj2 Hr)).
  cbn [andb]. rewrite (st_bind_ret _ _ _ _ _ E2). destruct Hs as [_ Hsb Hsf Hsm _ _].
  rewrite Hsb, Hb in Hm2. simpl in Hm2. do 3 (split; [done|]). split; [by rewrite Hr2|].
  split; [by eapply rframe_trans|lia].
Qed.

Lemma wire_int_numeral maxd max v :
  - max <= v <= max -> max <= ULONG_MAX -> 20 <= max ->
  (maxd = 20 \/ maxd = 10 /\ max <= UINT_MAX) ->
  numeral maxd max 1 (wire_int v) (v <? 0) (Z.abs v).
Proof.
  intros Hv Hm Hm2 Hw. unfold wire_int. destruct (Z.ltb_spec v 0).
  - rewrite Z.abs_neq by lia. apply (wire_num_numeral maxd max c_minus (- v)); tauto || lia.
  - rewrite Z.abs_eq by lia. apply (wire_num_numeral maxd max c_plus v); tauto || lia.
Qed.

Lemma disrsi_decodes v : INT_MIN <= v <= INT_MAX -> decodes disrsi (wire_int v) (v, 0).
Proof.
  unfold INT_MIN, INT_MAX. intros Hv.
  assert (Ev : signed (v <? 0) (Z.abs v) = v).
  { unfold signed. destruct (Z.ltb_spec v 0); lia. }
  rewrite <- Ev at 2. apply disrsi_numeral_decodes; [|rewrite Ev; done].
  apply wire_int_numeral; unfold UINT_MAX, ULONG_MAX; lia.
Qed.

Lemma disrsl_decodes v : LONG_MIN <= v <= LONG_MAX -> decodes disrsl (wire_int v) (v, 0).
Proof.
  unfold LONG_MIN, LONG_MAX. intros Hv. unfold disrsl.
  set (post := fun r : Z * bool * Z => let '(locret, negate, uvalue) := r in
    if locret =? DIS_SUCCESS then
      if (if negate : bool then uvalue <=? u64 (u64 (- (LONG_MIN + 1)) + 1) else uvalue <=? LONG_MAX)
      then (if negate : bool then i64 (u64 (- uvalue)) else i64 uvalue, locret)
      else (if negate : bool then LONG_MIN else LONG_MAX, DIS_OVERFLOW)
    else if locret =? DIS_OVERFLOW then (if negate : bool then LONG_MIN else LONG_MAX, locret)
    else (0, locret)).
  eapply decodes_ext; [|apply (commit_reader_decodes disrsl_start 20 ULONG_MAX post _ (v <? 0) (Z.abs v));
    [apply conversion_ul|apply wire_int_numeral; unfold ULONG_MAX; lia|]].
  - intros w. unfold st_bind at 1. symmetry. unfold st_bind at 1.
    by destruct (disrsl_start w) as [[[rc neg] u] w1| |].
  - simpl. unfold LONG_MIN, LONG_MAX.
    replace (u64 (u64 (- (-9223372036854775808 + 1)) + 1)) with 9223372036854775808 by reflexivity.
    destruct (Z.ltb_spec v 0).
    + destruct (Z.leb_spec (Z.abs v) 9223372036854775808); [|lia].
      rewrite Z.abs_neq, Z.opp_involutive by lia. unfold i64, u64, wrap_u.
      rewrite wrap_s_mod. f_equal. apply (i64_small v). lia.
    + destruct (Z.leb_spec (Z.abs v) 9223372036854775807); [|lia].
      rewrite Z.abs_eq, i64_small by lia. done.
Qed.

End Readers.

(** ** The integer layer

    [roundtrips enc dec v]: what [enc] writes for [v] is what [dec] reads as [v]. *)
Definition roundtrips {A} (enc : A -> M Z) (dec : M (A * Z)) (v : A) : Prop :=
  exists bs, encodes (enc v) bs 0 /\ decodes dec bs (v, 0).

Section Integers.
Context `{AllocOk}.

Lemma small_signed_eq bits w :
  disr_small_signed bits w =
  (let* r := disrsi_start in
   let '(value, locret) := (let '(locret, negate, uvalue) := r in
     let lo := - 2 ^ (bits - 1) in
     let hi := 2 ^ (bits - 1) - 1 in
     if locret =? DIS_SUCCESS then
       if (if negate : bool then lo <=? i32 (u32 (- uvalue)) else uvalue <=? hi)
       then (wrap_s bits (if negate : bool then u32 (- uvalue) else uvalue), locret)
       else (if negate : bool then lo else hi, DIS_OVERFLOW)
     else if locret =? DIS_OVERFLOW then (if negate : bool then lo else hi, locret)
     else (0, locret)) in
   let* retval := rcommit_ret locret in st_ret (value, retval)) w.
Proof.
  unfold disr_small_signed, st_bind at 1. symmetry. unfold st_bind at 1.
  by destruct (disrsi_start w) as [[[rc neg] u] w1| |].
Qed.

Lemma small_signed_decodes bits v :
  bits = 8 \/ bits = 16 -> - 2 ^ (bits - 1) <= v < 2 ^ (bits - 1) ->
  decodes (disr_small_signed bits) (wire_int v) (v, 0).
Proof.
  intros Hb Hv. assert (- 32768 <= v < 32768) by (destruct Hb as [-> | ->]; simpl in Hv; lia).
  eapply decodes_ext; [intros; apply small_signed_eq|].
  eapply commit_reader_decodes; [apply conversion_ui| |].
  - apply wire_int_numeral; unfold UINT_MAX, ULONG_MAX; lia.
  - cbv beta iota zeta. change (0 =? DIS_SUCCESS) with true. cbv iota.
    assert (1 <= bits <= 32) by (destruct Hb; lia).
    destruct (Z.ltb_spec v 0) as [Hn|Hp].
    + rewrite Z.abs_neq, Z.opp_involutive, i32_u32 by lia.
      destruct (Z.leb_spec (- 2 ^ (bits - 1)) v); [|lia].
      by rewrite wrap_s_u32, wrap_s_cases by lia.
    + rewrite Z.abs_eq by lia. destruct (Z.leb_spec v (2 ^ (bits - 1) - 1)); [|lia].
      by rewrite wrap_s_cases by lia.
Qed.

Lemma small_unsigned_decodes bits v :
  bits = 8 \/ bits = 16 -> 0 <= v < 2 ^ bits ->
  decodes (disr_small_unsigned bits) (wire_num c_plus v) (v, 0).
Proof.
  intros Hb Hv. assert (0 <= v < 65536) by (destruct Hb as [-> | ->]; simpl in Hv; lia).
  eapply decodes_ext;
    [|apply (commit_reader_decodes disrsi_start 10 UINT_MAX (fun r : Z * bool * Z =>
        let '(locret, negate, value) := r in
        let '(value, locret) :=
          if negb (locret =? DIS_SUCCESS) then (0, locret)
          else if negate : bool then (0, DIS_BADSIGN)
          else if 2 ^ bits - 1 <? value then (2 ^ bits - 1, DIS_OVERFLOW) else (value, locret) in
        (wrap_u bits value, locret)) _ false v); [apply conversion_ui| |]].
  - intros w. unfold disr_small_unsigned, st_bind at 1. symmetry. unfold st_bind at 1.
    destruct (disrsi_start w) as [[[rc neg] u] w1| |]; [|done..].
    by destruct (negb (rc =? DIS_SUCCESS)), neg, (2 ^ bits - 1 <? u).
  - apply (wire_num_numeral 10 UINT_MAX c_plus v); unfold UINT_MAX, ULONG_MAX; lia.
  - simpl. destruct (Z.ltb_spec (2 ^ bits - 1) v); [lia|].
    unfold wrap_u. by rewrite Z.mod_small by lia.
Qed.

(** C20: every integer of the C types survives the wire: what [diswui], [diswsi], [diswul]
    and [diswsl] write for a value of their type is read back as that value by the
    reader of the same width. *)
Theorem integers_roundtrip :
  (forall v, 0 <= v <= UINT_MAX -> roundtrips diswui disrui v) /\
  (forall v, INT_MIN <= v <= INT_MAX -> roundtrips diswsi disrsi v) /\
  (forall v, 0 <= v <= ULONG_MAX -> roundtrips diswul disrul v) /\
  (forall v, LONG_MIN <= v <= LONG_MAX -> roundtrips diswsl disrsl v).
Proof.
  repeat split; intros v Hv; eexists; split.
  - by apply diswui_encodes.
  - by apply disrui_decodes.
  - by apply diswsi_encodes.
  - by apply disrsi_decodes.
  - by apply diswul_encodes.
  - by apply disrul_decodes.
  - by apply diswsl_encodes.
  - by apply disrsl_decodes.
Qed.

(** C19: [disrui] decides the numeral grammar.  It always returns, keeps the channel well
    formed and leaves no uncommitted byte behind; it returns 0 exactly when the stream
    starts with a non-negative numeral of at most [UINT_MAX], which it then consumes and
    whose value it returns; otherwise the value is 0 and the stream is what it was. *)
Theorem disrui_decides w :
  wf_read w -> rback w = [] ->
  exists v rc w', disrui w = Ret (v, rc) w' /\ wf_read w' /\ rframe w w' /\ rback w' = [] /\
    (rc = 0 -> exists bs, numeral 10 UINT_MAX 1 bs false v /\ rfront w = bs ++ rfront w') /\
    (rc <> 0 -> v = 0 /\ (exists late, rfront w' = rfront w ++ late) /\
       forall bs u rest, numeral 10 UINT_MAX 1 bs false u -> rfront w <> bs ++ rest).
Proof.
  intros Hw Hb.
  destruct (runs_inv _ _ _ (disrui_run w Hw)) as ([v rc] & w' & E & [_ Hv] & Hr).
  destruct Hr as ((Hw' & Hfr & _) & Hb' & _ & Hok & Hko). exists v, rc, w'.
  do 4 (split; [done|]). split.
  - intros Hrc. destruct (Hok Hrc) as (bs & neg & u & Hn & Hp & Hf & _). unfold post_unsigned in Hp.
    change (0 =? DIS_SUCCESS) with true in Hp. destruct neg; [done|]. injection Hp as ->. eauto.
  - intros Hrc. split; [auto|]. rewrite Hb in Hko. split; [by apply Hko|].
    intros bs u rest Hn Hf.
    destruct (disr_unsigned_decodes disrsi_start 10 UINT_MAX bs u conversion_ui Hn w rest Hw Hb Hf)
      as (w2 & E2 & _). unfold disrui in E. rewrite E2 in E. by injection E as _ <-.
Qed.

(** a well-formed numeral whose value does not fit an [int] makes [disrsi] return
    [DIS_OVERFLOW] with the nearest [int], and, against its description, the stream is
    not reset: the numeral stays consumed, uncommitted. *)
Theorem disrsi_overflow_keeps_position w bs neg u rest :
  wf_read w -> numeral 10 UINT_MAX 1 bs neg u -> rfront w = bs ++ rest ->
  signed neg u < INT_MIN \/ INT_MAX < signed neg u ->
  exists w', disrsi w = Ret (if neg then INT_MIN else INT_MAX, DIS_OVERFLOW) w'
    /\ rback w' = rback w ++ bs /\ rfront w' = rest.
Proof.
  intros Hw Hn Hf Hr.
  destruct (disrsi_start_complete w rest bs neg u Hw Hn Hf) as (w1 & E & Hs & Hf1).
  exists w1. unfold disrsi. rewrite (st_bind_ret _ _ _ _ _ E).
  rewrite disrsi_eq by (intros; by apply numeral_value in Hn as [? _]).
  rewrite Z.eqb_refl. destruct (Z.leb_spec INT_MIN (signed neg u)), (Z.leb_spec (signed neg u) INT_MAX);
    try lia; (split; [done|]); (split; [apply Hs|done]).
Qed.

(** the readers of [short], [signed char], [unsigned short] and [unsigned char] read
    every value of their type back. *)
Theorem small_integers_decode :
  (forall v, -32768 <= v <= 32767 -> decodes disrss (wire_int v) (v, 0)) /\
  (forall v, -128 <= v <= 127 -> decodes disrsc (wire_int v) (v, 0)) /\
  (forall v, 0 <= v <= 65535 -> decodes disrus (wire_num c_plus v) (v, 0)) /\
  (forall v, 0 <= v <= 255 -> decodes disruc (wire_num c_plus v) (v, 0)).
Proof.
  repeat split; intros v Hv;
    [apply (small_signed_decodes 16)|apply (small_signed_decodes 8)|
     apply (small_unsigned_decodes 16)|apply (small_unsigned_decodes 8)];
    first [by left | by right | simpl; lia].
Qed.

(** the range test of the small signed readers is done after the negation has
    wrapped, so magnitudes above [2^31] pass it: [disrss] accepts the numeral of any [-u]
    with [2^31 < u <= UINT_MAX] and returns its low 16 bits, 1 for [-4294967295]. *)
Theorem disrss_accepts_wrapped u :
  2147483648 < u <= UINT_MAX -> decodes disrss (wire_num c_minus u) (i16 (- u), 0).
Proof.
  unfold UINT_MAX. intros Hu. eapply decodes_ext; [intros; apply (small_signed_eq 16)|].
  eapply commit_reader_decodes; [apply conversion_ui| |].
  - apply (wire_num_numeral 10 UINT_MAX c_minus u); unfold UINT_MAX, ULONG_MAX; tauto || lia.
  - cbv beta iota zeta. change (0 =? DIS_SUCCESS) with true. change (c_minus =? c_minus) with true.
    cbv iota. replace (u32 (- u)) with (4294967296 - u).
    + rewrite i32_small by lia. destruct (Z.leb_spec (- 2 ^ (16 - 1)) (4294967296 - u)); [|lia].
      replace (4294967296 - u) with (- u + 65536 * 2 ^ 16) by lia.
      unfold i16, wrap_s. by rewrite Z_mod_plus_full.
    + unfold u32, wrap_u. apply (Z.mod_unique_pos _ _ (-1)); lia.
Qed.

End Integers.

Section IntegerWitnesses.
#[local] Existing Instance generous.
#[local] Existing Instance generous_ok.
Import Sample.

Lemma integers_roundtrip_witness : roundtrips diswsi disrsi (-2147483648).
Proof. apply (proj1 (proj2 integers_roundtrip)). unfold INT_MIN, INT_MAX. lia. Defined.

(** ["2+42"] in two deliveries, then more data. *)
Definition num42 : list read_event := [RdData [50;43]; RdData [52;50;88]].

Lemma disrui_decides_witness :
  exists w', disrui (sample num42 []) = Ret (42, 0) w' /\ rfront w' = [88].
Proof.
  destruct (disrui_decides (sample num42 [])) as (v & rc & w' & E & _ & _ & _ & _ & _);
    [apply sample_read; reflexivity|reflexivity|].
  assert (Hv : match disrui (sample num42 []) with
               | Ret (v, rc) w => (v, rc, rfront w) | _ => (0, 1, []) end = (42, 0, [88]))
    by (vm_compute; reflexivity).
  rewrite E in Hv. injection Hv as -> -> Hf. exists w'. split; [exact E|exact Hf].
Defined.

(** ["210+2147483648"] *)
Definition int_max1 : list Z := [50;49;48;43;50;49;52;55;52;56;51;54;52;56].

Lemma disrsi_overflow_keeps_position_witness :
  exists w', disrsi (sample [RdData int_max1] []) = Ret (INT_MAX, DIS_OVERFLOW) w'
    /\ rback w' = int_max1.
Proof.
  destruct (disrsi_overflow_keeps_position (sample [RdData int_max1] []) int_max1 false 2147483648 [])
    as (w' & E & Hb & _).
  - apply sample_read. reflexivity.
  - apply (wire_num_numeral 10 UINT_MAX c_plus 2147483648); unfold UINT_MAX, ULONG_MAX; tauto || lia.
  - reflexivity.
  - right. reflexivity.
  - exists w'. split; [exact E|exact Hb].
Defined.

Lemma small_integers_decode_witness : decodes disrsc (wire_int (-128)) (-128, 0).
Proof. apply (proj1 (proj2 small_integers_decode)). lia. Defined.

Lemma disrss_accepts_wrapped_witness : decodes disrss (wire_num c_minus 4294967295) (1, 0).
Proof. apply (disrss_accepts_wrapped 4294967295). unfold UINT_MAX. lia. Defined.

End IntegerWitnesses.
