(* ===== verification/DisStr.v ===== *)
(** * Data-is-Strings character strings (src/src/lib/Libdis)

    A string travels as its length, an unsigned integer, and its characters:
    [abc] is [+3abc].  [diswcs] writes counted strings, which may hold NUL
    characters, and [diswst] C strings; [disrst] and [disrcs] read into fresh
    memory, [disrfst] and [disrfcs] into a block of the caller. *)

From S2P Require Import Prelude CLib TcpDis Codec DisInt.
From stdpp Require Import base list numbers option.

Local Open Scope Z_scope.
Local Open Scope st_scope.

Section Ops.
Context `{Platform}.

Definition diswcs (value : option (list Z)) (nchars : Z) : M Z :=
  match value with
  | None => st_ret DIS_NOMALLOC
  | Some v =>
      let* retval := diswui_ (u32 nchars) in
      let* retval :=
        (if (retval =? DIS_SUCCESS) && (0 <? nchars) then
           let* s := st_lift (mem_read v 0 nchars) in
           let* n := tcp_puts s in
           st_ret (if negb (n =? i32 nchars) then DIS_PROTO else retval)
         else st_ret retval) in
      wcommit_ret retval
  end.

(** [#define diswst(chan, value) diswcs(chan, value, strlen(value))]: a C string
    is the list of its characters, [strlen] of a null pointer is undefined. *)
Definition diswst (value : option (list Z)) : M Z :=
  match value with
  | None => st_ub
  | Some v => diswcs (Some (until_nul v)) (zlen (until_nul v))
  end.

(** [memchr(value, 0, n)] *)
Definition has_nul (s : list Z) : bool := existsb (fun c => c =? 0) s.

(** A zeroed block of [count] characters after [tcp_gets] stored [s] in it. *)
Definition filled (count : Z) (s : list Z) : list Z :=
  s ++ replicate (Z.to_nat (count - zlen s)) c_nul.

Definition disrst : M (option (list Z) * Z) :=
  let* (locret, negate, count) := disrsi_start in
  if locret =? DIS_SUCCESS then
    let* (value, locret) :=
      (if negate : bool then st_ret (None, DIS_BADSIGN)
       else if negb (calloc_ok (count + 1)) then st_ret (None, DIS_NOMALLOC)
       else
         let* (n, s) := tcp_gets count in
         st_ret (Some (filled count s),
                 if negb (n =? i32 count) then DIS_PROTO
                 else if has_nul (filled count s) then DIS_NULLSTR else locret)) in
    let* locret := rcommit_ret locret in
    st_ret (if locret =? DIS_SUCCESS then value else None, locret)
  else st_ret (None, locret).

(** The string, [*nchars] and [*retval].  [negate] is tested before the code. *)
Definition disrcs : M (option (list Z) * Z * Z) :=
  let* (locret, negate, count) := disrsi_ ind_negate 0 1 in
  let locret := if negate : bool then DIS_BADSIGN else locret in
  let* (value, locret) :=
    (if locret =? DIS_SUCCESS then
       if negb (calloc_ok (count + 1)) then st_ret (None, DIS_NOMALLOC)
       else
         let* (n, s) := tcp_gets count in
         st_ret (Some (filled count s), if negb (n =? i32 count) then DIS_PROTO else locret)
     else st_ret (None, locret)) in
  let* locret := rcommit_ret locret in
  st_ret (match value with
          | Some v => if locret =? DIS_SUCCESS then (Some v, count, locret) else (None, 0, locret)
          | None => (None, count, locret)
          end).

(** [tcp_rcommit(chan, locret == DIS_SUCCESS) ? DIS_NOCOMMIT : locret] *)
Definition rcommit_nz (locret : Z) : M Z :=
  let* rc := tcp_rcommit (locret =? DIS_SUCCESS) in
  st_ret (if negb (rc =? 0) then DIS_NOCOMMIT else locret).

(** [tcp_gets] of [ct] characters into a block of [cap]. *)
Definition gets_into (cap ct : Z) : M (Z * list Z) :=
  let* (n, s) := tcp_gets ct in
  if zlen s <=? cap then st_ret (n, s) else st_ub.

(** [value] is a block of [cap] characters; the second result is the C string it
    holds afterwards. *)
Definition disrfst (cap achars : Z) : M (Z * list Z) :=
  let* (locret, negate, count) := disrsi_start in
  let* (locret, value) :=
    (if locret =? DIS_SUCCESS then
       if negate : bool then st_ret (DIS_BADSIGN, [])
       else if achars <? count then st_ret (DIS_OVERFLOW, [])
       else
         let* (n, s) := gets_into cap count in
         if negb (n =? i32 count) then st_ret (DIS_PROTO, s)
         else if has_nul s then st_ret (DIS_NULLSTR, s)
         else if count <? cap then st_ret (locret, s) else st_ub
     else st_ret (locret, [])) in
  let* locret := rcommit_nz locret in
  if locret =? DIS_SUCCESS then st_ret (locret, value)
  else if 0 <? cap then st_ret (locret, []) else st_ub.

(** The code, [*nchars] and the characters stored in the block of [cap]. *)
Definition disrfcs (cap achars : Z) : M (Z * Z * list Z) :=
  let* (locret, negate, count) := disrsi_ ind_negate 0 1 in
  let* (locret, value) :=
    (if locret =? DIS_SUCCESS then
       if negate : bool then st_ret (DIS_BADSIGN, [])
       else if achars <? count then st_ret (DIS_OVERFLOW, [])
       else
         let* (n, s) := gets_into cap count in
         st_ret (if negb (n =? i32 count) then DIS_PROTO else locret, s)
     else st_ret (locret, [])) in
  let* locret := rcommit_nz locret in
  st_ret (locret, if locret =? DIS_SUCCESS then count else 0, value).

End Ops.

(** ** Writing strings *)

Definition wire_str (s : list Z) : list Z := wire_num c_plus (zlen s) ++ s.

(** What [disrst] and [disrfst] can return: C strings of less than 2 GiB. *)
Definition cstr (s : list Z) : Prop := nul_free s /\ zlen s <= INT_MAX.

#[export] Instance cstr_dec s : Decision (cstr s).
Proof. unfold cstr. apply _. Defined.

Lemma has_nul_false s : has_nul s = false <-> nul_free s.
Proof.
  induction s as [|c s IH]; simpl; [split; [constructor|done]|].
  unfold nul_free. rewrite orb_false_iff, Forall_cons_iff, IH. by rewrite Z.eqb_neq.
Qed.

Lemma filled_full s : filled (zlen s) s = s.
Proof. unfold filled. rewrite Z.sub_diag. by rewrite app_nil_r. Qed.

Lemma zlen_filled count s : zlen s <= count -> zlen (filled count s) = count.
Proof. intros. unfold filled. rewrite zlen_app, zlen_replicate. lia. Qed.

Section Writers.
Context `{AllocOk}.

Lemma diswui_pending w v :
  wf_write w -> 0 <= v <= UINT_MAX -> wlen w + zlen (wire_num c_plus v) < 2147483648 ->
  exists w', diswui_ v w = Ret 0 w' /\ wf_write w'
    /\ wcommitted w' = wcommitted w /\ wpending w' = wpending w ++ wire_num c_plus v
    /\ wlen w' = wlen w + zlen (wire_num c_plus v) /\ wframe w w'.
Proof.
  intros Hw Hv Hl. destruct (tcp_puts_ok w _ Hw Hl) as (w1 & E & Hr). exists w1. split; [|done].
  unfold diswui_. rewrite discui_image by done. unfold st_bind at 1, st_lift, st_ret at 1.
  rewrite until_nul_id by (apply wire_num_nul_free; [done|unfold UINT_MAX, ULONG_MAX in *; lia]).
  rewrite (st_bind_ret _ _ _ _ _ E).
  pose proof (zlen_nonneg (wire_num c_plus v)). by destruct (Z.ltb_spec (zlen (wire_num c_plus v)) 0); [lia|].
Qed.

Lemma diswcs_encodes s : zlen s <= INT_MAX -> encodes (diswcs (Some s) (zlen s)) (wire_str s) 0.
Proof.
  unfold INT_MAX. intros Hs w Hw Hp Hl. unfold wire_str in Hl. rewrite zlen_app in Hl.
  pose proof (zlen_nonneg s). unfold diswcs. rewrite u32_small by lia.
  destruct (diswui_pending w (zlen s) Hw) as (w1 & E1 & Hw1 & Hc1 & Hp1 & Hl1 & Hf1);
    [unfold UINT_MAX; lia|lia|]. rewrite (st_bind_ret _ _ _ _ _ E1).
  assert (exists w2, (if (0 =? DIS_SUCCESS) && (0 <? zlen s) then
      let* b := st_lift (mem_read s 0 (zlen s)) in
      let* n := tcp_puts b in
      st_ret (if negb (n =? i32 (zlen s)) then DIS_PROTO else 0) else st_ret 0) w1 = Ret 0 w2
    /\ wf_write w2 /\ wcommitted w2 = wcommitted w /\ wpending w2 = wire_str s
    /\ wlen w2 = wlen w + zlen (wire_str s) /\ wframe w w2) as (w2 & E2 & Hw2 & Hc2 & Hp2 & Hl2 & Hf2).
  { rewrite Hp in Hp1. destruct (Z.ltb_spec 0 (zlen s)).
    - destruct (tcp_puts_ok w1 s Hw1) as (w2 & E2 & Hw2 & Hc2 & Hp2 & Hl2 & Hf2); [lia|].
      exists w2. simpl. rewrite mem_read_ok by lia. rewrite Z.add_0_l, slice_all.
      unfold st_bind at 1, st_lift, st_ret at 1.
      rewrite (st_bind_ret _ _ _ _ _ E2), i32_small, Z.eqb_refl by lia.
      split; [done|]. split; [done|]. split; [by rewrite Hc2|]. split; [by rewrite Hp2, Hp1|].
      split; [unfold wire_str; rewrite zlen_app; lia|]. by eapply wframe_trans.
    - assert (s = []) as -> by (apply nil_length_inv; unfold zlen in *; lia).
      exists w1. simpl. split; [done|]. split; [done|]. split; [done|].
      unfold wire_str. rewrite app_nil_r. by rewrite Hp1. }
  rewrite (st_bind_ret _ _ _ _ _ E2).
  destruct (tcp_wcommit_ok true w2 Hw2) as (w3 & E3 & Hw3 & Hp3 & Hc3 & Hl3 & Hf3).
  exists w3. unfold wcommit_ret. simpl. rewrite (st_bind_ret _ _ _ _ _ E3). do 3 (split; [done|]).
  split; [by rewrite Hc3, Hc2, Hp2|]. split; [lia|]. by eapply wframe_trans.
Qed.

Lemma diswst_encodes s : cstr s -> encodes (diswst (Some s)) (wire_str s) 0.
Proof.
  intros [Hn Hl]. unfold diswst. rewrite until_nul_id by done. by apply diswcs_encodes.
Qed.

End Writers.

(** ** Reading strings *)

Section Readers.
Context `{AllocOk}.

Lemma rcommit_nz_eq locret w : wf_read w -> rcommit_nz locret w = rcommit_ret locret w.
Proof.
  intros Hw. unfold rcommit_nz, rcommit_ret. destruct (locret =? DIS_SUCCESS).
  - destruct (tcp_rcommit_true w Hw) as (w' & E & _). by rewrite !(st_bind_ret _ _ _ _ _ E).
  - destruct (tcp_rcommit_false w Hw) as (w' & E & _). by rewrite !(st_bind_ret _ _ _ _ _ E).
Qed.

Lemma disrsi__sound n0 v0 w : wf_read w -> runs (disrsi_ n0 v0 1) w (scanned 10 UINT_MAX 1 w).
Proof.
  intros Hw. apply disrsi_loop_sound; [done| |lia]. unfold unread, rmeasure. lia.
Qed.

(** The two reads behind every string. *)
Lemma read_counted n0 v0 w s rest :
  wf_read w -> zlen s <= INT_MAX -> rfront w = wire_str s ++ rest ->
  exists w1 w2, disrsi_ n0 v0 1 w = Ret (0, false, zlen s) w1
    /\ tcp_gets (zlen s) w1 = Ret (i32 (zlen s), s) w2
    /\ rstep w w2 (wire_str s) /\ rfront w2 = rest.
Proof.
  intros Hw Hl Hf. unfold wire_str in Hf. rewrite <- app_assoc in Hf. pose proof (zlen_nonneg s).
  destruct (disrsi_loop_complete (S (rmeasure w)) w (s ++ rest) n0 v0 1 (wire_num c_plus (zlen s))
    false (zlen s)) as (w1 & E1 & Hs1 & Hf1); [done| |done|by eapply front_fuel|].
  { apply (wire_num_numeral 10 UINT_MAX c_plus); unfold INT_MAX, UINT_MAX, ULONG_MAX in *; lia. }
  destruct (gets_exact w1 s rest) as (w2 & E2 & Hs2 & Hf2); [by destruct Hs1|done|].
  exists w1, w2. split; [done|]. split; [done|]. split; [|done]. by eapply rstep_trans.
Qed.

Lemma commit_counted w w1 bs rest :
  rback w = [] -> rstep w w1 bs -> rfront w1 = rest ->
  exists w2, rcommit_ret 0 w1 = Ret 0 w2 /\ wf_read w2 /\ rback w2 = [] /\ rfront w2 = rest
    /\ rframe w w2 /\ rmeasure w = (length bs + rmeasure w2)%nat.
Proof.
  intros Hb [Hw1 Hsb Hsf Hsm _ _] Hf.
  destruct (rcommit_ret_ok 0 w1 Hw1) as (w2 & E2 & Hw2 & Hb2 & Hf2 & Hr2 & Hm2).
  exists w2. rewrite Hsb, Hb in Hm2. simpl in Hm2. do 3 (split; [done|]).
  split; [by rewrite Hr2|]. split; [by eapply rframe_trans|lia].
Qed.

Lemma disrst_decodes s : cstr s -> decodes disrst (wire_str s) (Some s, 0).
Proof.
  intros [Hn Hl] w rest Hw Hb Hf. pose proof (zlen_nonneg s). unfold INT_MAX in *.
  destruct (read_counted ind_negate (u32 ind_uint) w s rest Hw Hl Hf) as (w1 & w2 & E1 & E2 & Hs & Hf2).
  destruct (commit_counted w w2 _ rest Hb Hs Hf2) as (w3 & E3 & Hr).
  exists w3. split; [|done]. unfold disrst. rewrite (st_bind_ret _ _ _ _ _ E1). simpl.
  rewrite alloc_ok by (unfold ALLOC_MAX; lia). simpl.
  unfold st_bind at 1. rewrite (st_bind_ret _ _ _ _ _ E2), Z.eqb_refl, filled_full.
  simpl. rewrite (proj2 (has_nul_false s) Hn). by rewrite (st_bind_ret _ _ _ _ _ E3).
Qed.

Lemma disrcs_decodes s : zlen s <= INT_MAX -> decodes disrcs (wire_str s) (Some s, zlen s, 0).
Proof.
  intros Hl w rest Hw Hb Hf. pose proof (zlen_nonneg s). unfold INT_MAX in *.
  destruct (read_counted ind_negate 0 w s rest Hw Hl Hf) as (w1 & w2 & E1 & E2 & Hs & Hf2).
  destruct (commit_counted w w2 _ rest Hb Hs Hf2) as (w3 & E3 & Hr).
  exists w3. split; [|done]. unfold disrcs. rewrite (st_bind_ret _ _ _ _ _ E1). simpl.
  rewrite alloc_ok by (unfold ALLOC_MAX; lia). simpl.
  unfold st_bind at 1. rewrite (st_bind_ret _ _ _ _ _ E2), Z.eqb_refl, filled_full.
  simpl. by rewrite (st_bind_ret _ _ _ _ _ E3).
Qed.

Lemma disrfst_decodes cap achars s :
  nul_free s -> zlen s <= achars -> zlen s < cap -> achars <= INT_MAX ->
  decodes (disrfst cap achars) (wire_str s) (0, s).
Proof.
  intros Hn Ha Hc Hl w rest Hw Hb Hf. pose proof (zlen_nonneg s). unfold INT_MAX in *.
  destruct (read_counted ind_negate (u32 ind_uint) w s rest Hw ltac:(unfold INT_MAX; lia) Hf)
    as (w1 & w2 & E1 & E2 & Hs & Hf2).
  destruct (commit_counted w w2 _ rest Hb Hs Hf2) as (w3 & E3 & Hr).
  exists w3. split; [|done]. unfold disrfst. rewrite (st_bind_ret _ _ _ _ _ E1). simpl.
  destruct (Z.ltb_spec achars (zlen s)); [lia|]. unfold gets_into.
  unfold st_bind at 1. unfold st_bind at 1. rewrite (st_bind_ret _ _ _ _ _ E2).
  destruct (Z.leb_spec (zlen s) cap); [|lia]. unfold st_ret at 1. rewrite Z.eqb_refl. simpl.
  rewrite (proj2 (has_nul_false s) Hn). destruct (Z.ltb_spec (zlen s) cap); [|lia].
  unfold st_ret at 1. rewrite <- rcommit_nz_eq in E3 by (by destruct Hs).
  by rewrite (st_bind_ret _ _ _ _ _ E3).
Qed.

Lemma disrfcs_decodes cap achars s :
  zlen s <= achars -> achars <= cap -> achars <= INT_MAX ->
  decodes (disrfcs cap achars) (wire_str s) (0, zlen s, s).
Proof.
  intros Ha Hc Hl w rest Hw Hb Hf. pose proof (zlen_nonneg s). unfold INT_MAX in *.
  destruct (read_counted ind_negate 0 w s rest Hw ltac:(unfold INT_MAX; lia) Hf)
    as (w1 & w2 & E1 & E2 & Hs & Hf2).
  destruct (commit_counted w w2 _ rest Hb Hs Hf2) as (w3 & E3 & Hr).
  exists w3. split; [|done]. unfold disrfcs. rewrite (st_bind_ret _ _ _ _ _ E1). simpl.
  destruct (Z.ltb_spec achars (zlen s)); [lia|]. unfold gets_into.
  unfold st_bind at 1. unfold st_bind at 1. rewrite (st_bind_ret _ _ _ _ _ E2).
  destruct (Z.leb_spec (zlen s) cap); [|lia]. unfold st_ret at 1. rewrite Z.eqb_refl. simpl.
  rewrite <- rcommit_nz_eq in E3 by (by destruct Hs). by rewrite (st_bind_ret _ _ _ _ _ E3).
Qed.

(** ** Strings on any input *)

(** [s] is the string that the input of [w] announces, and [w'] is past it. *)
Definition str_parse (w : world) (s : list Z) (w' : world) : Prop :=
  exists bs, numeral 10 UINT_MAX 1 bs false (zlen s) /\ rfront w = bs ++ s ++ rfront w'.

Lemma commit_sound w w1 bs locret :
  rstep w w1 bs -> (locret = 0 -> bs <> []) ->
  exists w', rcommit_ret locret w1 = Ret locret w' /\ rleq w w' /\ rback w' = []
    /\ (locret = 0 -> (rmeasure w' < rmeasure w)%nat /\ rfront w' = rfront w1).
Proof.
  intros [Hw1 Hsb Hsf Hsm _ _] Hbs.
  destruct (rcommit_ret_ok locret w1 Hw1) as (w2 & E2 & Hw2 & Hb2 & Hf2 & Hr2).
  exists w2. split; [done|]. rewrite Hsb, length_app in Hr2.
  destruct (Z.eqb_spec locret 0) as [->|Hne].
  - destruct Hr2 as [Hr Hm]. destruct bs as [|b bs]; [by destruct (Hbs eq_refl)|]. simpl in Hm.
    split; [|split; [done|]]; [|intros _; split; [lia|done]].
    split; [done|]. split; [by eapply rframe_trans|lia].
  - destruct Hr2 as [Hr Hm]. split; [|by split].
    split; [done|]. split; [by eapply rframe_trans|lia].
Qed.

Lemma numeral_nonempty maxd max count bs neg v s :
  numeral maxd max count bs neg v -> bs ++ s <> [].
Proof.
  intros Hn E. apply numeral_value in Hn as [_ Hn]. apply app_nil in E as [-> _]. simpl in Hn. lia.
Qed.

Lemma scanned_rleq maxd max count w rc neg v w' :
  scanned maxd max count w (rc, neg, v) w' -> rleq w w' /\ 0 <= rc <= 12.
Proof. intros (bs & [] & Hrc & _). split; [|done]. split; [done|]. split; [done|lia]. Qed.

Lemma filled_nul_free count s : zlen s <= count -> nul_free (filled count s) -> filled count s = s.
Proof.
  intros Hl Hn. unfold filled in *. apply Forall_app in Hn as [_ Hn].
  destruct (Z.to_nat (count - zlen s)); [apply app_nil_r|]. by inversion Hn.
Qed.

Lemma commit_fail_run {A} (k : Z -> M A) w w2 bs rc Q :
  rstep w w2 bs -> 1 <= rc <= 12 ->
  (forall w', rleq w w' -> runs (k rc) w' Q) ->
  runs (let* l := rcommit_ret rc in k l) w2 Q.
Proof.
  intros Hs Hrc Hk. destruct (commit_sound w w2 bs rc Hs) as (w3 & E3 & Hle & _); [lia|].
  unfold runs. rewrite (st_bind_ret _ _ _ _ _ E3). by apply Hk.
Qed.

Lemma commit_ok_run {A} (k : Z -> M A) w w2 bs Q :
  rstep w w2 bs -> bs <> [] ->
  (forall w', rleq w w' -> (rmeasure w' < rmeasure w)%nat -> rfront w' = rfront w2 ->
     runs (k 0) w' Q) ->
  runs (let* l := rcommit_ret 0 in k l) w2 Q.
Proof.
  intros Hs Hb Hk. destruct (commit_sound w w2 bs 0 Hs) as (w3 & E3 & Hle & _ & Hm); [done|].
  unfold runs. rewrite (st_bind_ret _ _ _ _ _ E3). destruct (Hm eq_refl). by apply Hk.
Qed.

Lemma nz_run {A} (k : Z -> M A) locret w Q :
  wf_read w -> runs (let* l := rcommit_ret locret in k l) w Q ->
  runs (let* l := rcommit_nz locret in k l) w Q.
Proof.
  intros Hw Hr. unfold runs, st_bind in *. rewrite rcommit_nz_eq by exact Hw. exact Hr.
Qed.

(** The reads behind every string, on any input: the length, when it is one, and
    then that many characters or an error of [tcp_gets]. *)
Lemma length_run {A} n0 v0 (k : Z * bool * Z -> M A) w Q :
  wf_read w ->
  (forall rc neg v w1 bs, rstep w w1 bs -> 1 <= rc <= 12 -> runs (k (rc, neg, v)) w1 Q) ->
  (forall count w1 bs, rstep w w1 bs -> runs (k (0, true, count)) w1 Q) ->
  (forall count w1 bs, rstep w w1 bs -> numeral 10 UINT_MAX 1 bs false count ->
     rfront w = bs ++ rfront w1 -> 0 <= count <= UINT_MAX -> runs (k (0, false, count)) w1 Q) ->
  runs (st_bind (disrsi_ n0 v0 1) k) w Q.
Proof.
  intros Hw Herr Hneg Hok. apply runs_bind. eapply runs_weaken; [by apply disrsi__sound|].
  intros [[rc neg] count] w1 (bs & Hs & Hrc & Hsc).
  destruct (Z.eq_dec rc 0) as [->|]; [|eapply Herr; [done|lia]].
  destruct (Hsc eq_refl) as [Hn Hf]. destruct neg; [by eapply Hneg|].
  eapply Hok; [done..|]. by destruct (numeral_value _ _ _ _ _ _ Hn).
Qed.

Lemma chars_run {A} count (k : Z * list Z -> M A) w w1 bs Q :
  rstep w w1 bs -> 0 <= count ->
  (forall n w2, n < 0 -> rstep w w2 bs -> runs (k (n, [])) w2 Q) ->
  (forall s w2, rstep w w2 (bs ++ s) -> zlen s = count -> rfront w1 = s ++ rfront w2 ->
     runs (k (i32 count, s)) w2 Q) ->
  runs (let* r := tcp_gets count in k r) w1 Q.
Proof.
  intros Hs Hc Herr Hok.
  destruct (gets_cases w1 count (rs_wf _ _ _ Hs) Hc) as (n & s & w2 & E2 & Hs2 & Hn).
  pose proof (rstep_trans _ _ _ _ _ Hs Hs2) as Hs12.
  unfold runs. rewrite (st_bind_ret _ _ _ _ _ E2). destruct Hn as [(-> & Hl & Hf)|[-> Hn]].
  - by apply Hok.
  - apply Herr; [done|]. by rewrite app_nil_r in Hs12.
Qed.

Lemma disrst_run w :
  wf_read w ->
  runs disrst w (fun '(v, rc) w' => rleq w w' /\ 0 <= rc <= 12 /\
    match v with
    | Some s => rc = 0 /\ nul_free s /\ str_parse w s w' /\ (rmeasure w' < rmeasure w)%nat
    | None => rc <> 0
    end).
Proof.
  intros Hw. apply length_run; [done|..].
  - intros rc neg v w1 bs Hs Hrc. destruct (Z.eqb_spec rc DIS_SUCCESS) as [E|]; [unfold DIS_SUCCESS in E; lia|].
    split; [by destruct Hs; split; [done|split; [done|lia]]|]. split; [lia|done].
  - intros count w1 bs Hs. eapply commit_fail_run; [done|done|].
    intros w' Hle. by split.
  - intros count w1 bs Hs Hn Hf Hc. rewrite Z.eqb_refl. unfold UINT_MAX in Hc.
    rewrite alloc_ok by (unfold ALLOC_MAX; lia). cbn [negb]. apply runs_bind.
    apply (chars_run count _ w w1 bs); [done|lia|..].
    + intros n w2 Hn2 Hs2. unfold runs at 1, st_ret at 1.
      destruct (Z.eqb_spec n (i32 count)) as [En|]; [|eapply commit_fail_run; [done|done|by split]].
      destruct (has_nul (filled count [])) eqn:Hnul; [eapply commit_fail_run; [done|done|by split]|].
      apply has_nul_false, filled_nul_free in Hnul; [|rewrite zlen_nil; lia].
      pose proof (zlen_filled count [] ltac:(rewrite zlen_nil; lia)) as Hz.
      rewrite Hnul, zlen_nil in Hz.
      rewrite <- Hz in En. change (i32 0) with 0 in En. lia.
    + intros s w2 Hs2 Hl Hf2. unfold runs at 1, st_ret at 1. rewrite Z.eqb_refl, <- Hl, filled_full.
      cbn [negb]. destruct (has_nul s) eqn:Hnul; [eapply commit_fail_run; [done|done|by split]|].
      eapply commit_ok_run; [done|by eapply numeral_nonempty|].
      intros w' Hle Hm Hf'. rewrite Z.eqb_refl. split; [done|]. split; [done|]. split; [done|].
      split; [by apply has_nul_false|]. split; [|done]. exists bs. rewrite Hl. split; [done|].
      by rewrite Hf, Hf2, Hf'.
Qed.

Lemma disrcs_run w :
  wf_read w ->
  runs disrcs w (fun '(v, nchars, rc) w' => rleq w w' /\ 0 <= rc <= 12 /\
    match v with
    | Some s => rc = 0 /\ nchars = zlen s /\ (rmeasure w' < rmeasure w)%nat
        /\ (str_parse w s w' \/ zlen s > INT_MAX)
    | None => rc <> 0
    end).
Proof.
  intros Hw. apply length_run; [done|..].
  - intros rc neg v w1 bs Hs Hrc. destruct neg.
    { eapply commit_fail_run; [done|done|by split]. }
    cbv zeta. destruct (Z.eqb_spec rc DIS_SUCCESS) as [E|]; [unfold DIS_SUCCESS in E; lia|].
    eapply commit_fail_run; [done|done|]. intros w' Hle. split; [done|]. split; [lia|done].
  - intros count w1 bs Hs. eapply commit_fail_run; [done|done|by split].
  - intros count w1 bs Hs Hn Hf Hc. cbv zeta. rewrite Z.eqb_refl. unfold UINT_MAX in Hc.
    rewrite alloc_ok by (unfold ALLOC_MAX; lia). cbn [negb]. apply runs_bind.
    apply (chars_run count _ w w1 bs); [done|lia|..].
    + intros n w2 Hn2 Hs2. unfold runs at 1, st_ret at 1.
      destruct (Z.eqb_spec n (i32 count)) as [En|]; [|eapply commit_fail_run; [done|done|by split]].
      eapply commit_ok_run; [done|rewrite <- (app_nil_r bs); by eapply numeral_nonempty|].
      intros w' Hle Hm Hf'. split; [done|]. split; [done|]. split; [done|].
      assert (Hz : zlen (filled count []) = count) by (apply zlen_filled; rewrite zlen_nil; lia).
      rewrite Hz. split; [done|]. split; [done|]. right. unfold INT_MAX.
      destruct (Z_lt_le_dec count 2147483648); [|lia]. rewrite i32_small in En by lia. lia.
    + intros s w2 Hs2 Hl Hf2. unfold runs at 1, st_ret at 1. rewrite Z.eqb_refl, <- Hl, filled_full.
      cbn [negb]. eapply commit_ok_run; [done|by eapply numeral_nonempty|].
      intros w' Hle Hm Hf'. split; [done|]. split; [done|]. split; [done|]. split; [done|].
      split; [done|]. left. exists bs. rewrite Hl. split; [done|]. by rewrite Hf, Hf2, Hf'.
Qed.

(** A block larger than the announced maximum is never overrun. *)
Lemma disrfst_run cap achars w :
  wf_read w -> 0 <= achars < cap -> achars <= INT_MAX ->
  runs (disrfst cap achars) w (fun '(rc, s) w' => rleq w w' /\ 0 <= rc <= 12 /\
    nul_free s /\ zlen s <= achars /\
    (rc = 0 -> str_parse w s w' /\ (rmeasure w' < rmeasure w)%nat) /\ (rc <> 0 -> s = [])).
Proof.
  intros Hw Hcap Hmax. unfold INT_MAX in Hmax.
  assert (Hfail : forall rc v w2 bs, rstep w w2 bs -> 1 <= rc <= 12 ->
    runs (let* locret := rcommit_nz rc in
          if locret =? DIS_SUCCESS then st_ret (locret, v)
          else if 0 <? cap then st_ret (locret, []) else st_ub) w2
      (fun '(rc, s) w' => rleq w w' /\ 0 <= rc <= 12 /\ nul_free s /\ zlen s <= achars /\
        (rc = 0 -> str_parse w s w' /\ (rmeasure w' < rmeasure w)%nat) /\ (rc <> 0 -> s = []))).
  { intros rc v w2 bs Hs Hrc. apply nz_run; [by destruct Hs|]. eapply commit_fail_run; [done|done|].
    intros w' Hle. unfold DIS_SUCCESS. destruct (Z.eqb_spec rc 0); [lia|].
    destruct (Z.ltb_spec 0 cap); [|lia]. split; [done|]. split; [lia|]. split; [constructor|].
    split; [rewrite zlen_nil; lia|done]. }
  apply length_run; [done|..].
  - intros rc neg v w1 bs Hs Hrc.
    destruct (Z.eqb_spec rc DIS_SUCCESS) as [E|]; [unfold DIS_SUCCESS in E; lia|].
    by eapply Hfail.
  - intros count w1 bs Hs. by eapply Hfail.
  - intros count w1 bs Hs Hn Hf Hc. rewrite Z.eqb_refl.
    destruct (Z.ltb_spec achars count); [by eapply Hfail|].
    apply runs_bind, runs_bind. unfold gets_into.
    apply (chars_run count _ w w1 bs); [done|lia|..].
    + intros n w2 Hn2 Hs2. rewrite zlen_nil. destruct (Z.leb_spec 0 cap); [|lia].
      unfold runs at 1, st_ret at 1. rewrite i32_small by lia.
      destruct (Z.eqb_spec n count); [lia|]. by eapply Hfail.
    + intros s w2 Hs2 Hl Hf2. destruct (Z.leb_spec (zlen s) cap); [|lia].
      unfold runs at 1, st_ret at 1. rewrite Z.eqb_refl. cbn [negb].
      destruct (has_nul s) eqn:Hnul; [by eapply Hfail|].
      destruct (Z.ltb_spec count cap); [|lia]. unfold runs at 1, st_ret at 1.
      apply nz_run; [by destruct Hs2|].
      eapply commit_ok_run; [done|by eapply numeral_nonempty|].
      intros w' Hle Hm Hf'. split; [done|]. split; [done|]. split; [by apply has_nul_false|].
      split; [lia|]. split; [|done]. intros _. split; [|done]. exists bs. rewrite Hl.
      split; [done|]. by rewrite Hf, Hf2, Hf'.
Qed.

Lemma disrfcs_run cap achars w :
  wf_read w -> 0 <= achars <= cap -> achars <= INT_MAX ->
  runs (disrfcs cap achars) w (fun '(rc, nchars, s) w' => rleq w w' /\ 0 <= rc <= 12 /\
    0 <= nchars <= achars /\
    (rc = 0 -> nchars = zlen s /\ str_parse w s w' /\ (rmeasure w' < rmeasure w)%nat) /\
    (rc <> 0 -> nchars = 0)).
Proof.
  intros Hw Hcap Hmax. unfold INT_MAX in Hmax.
  assert (Hfail : forall rc v count w2 bs, rstep w w2 bs -> 1 <= rc <= 12 ->
    runs (let* locret := rcommit_nz rc in
          st_ret (locret, if locret =? DIS_SUCCESS then count else 0, v)) w2
      (fun '(rc, nchars, s) w' => rleq w w' /\ 0 <= rc <= 12 /\ 0 <= nchars <= achars /\
        (rc = 0 -> nchars = zlen s /\ str_parse w s w' /\ (rmeasure w' < rmeasure w)%nat) /\
        (rc <> 0 -> nchars = 0))).
  { intros rc v count w2 bs Hs Hrc. apply nz_run; [by destruct Hs|].
    eapply commit_fail_run; [done|done|].
    intros w' Hle. unfold DIS_SUCCESS. destruct (Z.eqb_spec rc 0); [lia|].
    split; [done|]. split; [lia|]. split; [lia|done]. }
  apply length_run; [done|..].
  - intros rc neg v w1 bs Hs Hrc.
    destruct (Z.eqb_spec rc DIS_SUCCESS) as [E|]; [unfold DIS_SUCCESS in E; lia|].
    by eapply Hfail.
  - intros count w1 bs Hs. by eapply Hfail.
  - intros count w1 bs Hs Hn Hf Hc. rewrite Z.eqb_refl.
    destruct (Z.ltb_spec achars count); [by eapply Hfail|].
    apply runs_bind, runs_bind. unfold gets_into.
    apply (chars_run count _ w w1 bs); [done|lia|..].
    + intros n w2 Hn2 Hs2. rewrite zlen_nil. destruct (Z.leb_spec 0 cap); [|lia].
      unfold runs at 1, st_ret at 1. rewrite i32_small by lia.
      destruct (Z.eqb_spec n count); [lia|]. by eapply Hfail.
    + intros s w2 Hs2 Hl Hf2. destruct (Z.leb_spec (zlen s) cap); [|lia].
      unfold runs at 1, st_ret at 1. rewrite Z.eqb_refl. cbn [negb].
      apply nz_run; [by destruct Hs2|].
      eapply commit_ok_run; [done|by eapply numeral_nonempty|].
      intros w' Hle Hm Hf'. split; [done|]. split; [done|]. split; [simpl; lia|].
      split; [|done]. intros _. split; [done|]. split; [|done]. exists bs. rewrite Hl.
      split; [done|]. by rewrite Hf, Hf2, Hf'.
Qed.

(** A block smaller than the maximum the caller announces can be overrun. *)
Lemma disrfcs_crashes cap achars s :
  zlen s <= achars -> cap < zlen s -> zlen s <= INT_MAX ->
  crashes (disrfcs cap achars) (wire_str s).
Proof.
  intros Ha Hc Hl w rest Hw Hb Hf.
  destruct (read_counted ind_negate 0 w s rest Hw Hl Hf) as (w1 & w2 & E1 & E2 & Hs & Hf2).
  unfold disrfcs. rewrite (st_bind_ret _ _ _ _ _ E1). simpl.
  destruct (Z.ltb_spec achars (zlen s)); [lia|]. unfold gets_into, st_bind. rewrite E2.
  by destruct (Z.leb_spec (zlen s) cap); [lia|].
Qed.

Lemma disrfst_crashes cap achars s :
  nul_free s -> zlen s <= achars -> cap <= zlen s -> zlen s <= INT_MAX ->
  crashes (disrfst cap achars) (wire_str s).
Proof.
  intros Hn Ha Hc Hl w rest Hw Hb Hf.
  destruct (read_counted ind_negate (u32 ind_uint) w s rest Hw Hl Hf) as (w1 & w2 & E1 & E2 & Hs & Hf2).
  unfold disrfst. rewrite (st_bind_ret _ _ _ _ _ E1). simpl.
  destruct (Z.ltb_spec achars (zlen s)); [lia|]. unfold gets_into, st_bind. rewrite E2.
  destruct (Z.leb_spec (zlen s) cap); [|done]. unfold st_ret at 1. rewrite Z.eqb_refl. simpl.
  rewrite (proj2 (has_nul_false s) Hn). by destruct (Z.ltb_spec (zlen s) cap); [lia|].
Qed.

(** ** The safety interface for the decoders above *)

(** The range of the codes of Libdis. *)
Definition dis_code (rc : Z) : Prop := 0 <= rc <= 12.

Lemma disrui_safe :
  safe disrui (fun '(v, rc) => dis_code rc /\ 0 <= v <= UINT_MAX) (fun '(_, rc) => rc = 0).
Proof.
  intros w Hw. eapply runs_weaken; [by apply disrui_run|].
  intros [v rc] w' [[Hv _] (Hle & _ & Hrc & Hok & _)]. split; [done|]. split; [done|].
  intros (bs & neg & u & _ & _ & _ & Hm)%Hok. done.
Qed.

Lemma disrsi_safe :
  safe disrsi (fun '(v, rc) => dis_code rc /\ INT_MIN <= v <= INT_MAX) (fun '(_, rc) => rc = 0).
Proof.
  intros w Hw. eapply runs_weaken; [by apply disrsi_run|].
  intros [v rc] w' (Hle & Hv & Hrc & Hok & _). split; [done|]. split; [done|].
  intros (bs & neg & u & _ & _ & _ & _ & Hm)%Hok. done.
Qed.

Lemma disrst_safe :
  safe disrst (fun '(v, rc) => dis_code rc /\
      match v with Some s => rc = 0 /\ nul_free s | None => rc <> 0 end)
    (fun '(_, rc) => rc = 0).
Proof.
  intros w Hw. eapply runs_weaken; [by apply disrst_run|].
  intros [[s|] rc] w' (Hle & Hrc & Hok); (split; [done|]); split; try done.
  - split; [done|]. by destruct Hok as (? & ? & _).
  - intros _. by destruct Hok as (_ & _ & _ & ?).
Qed.

Lemma disrcs_safe :
  safe disrcs (fun '(v, n, rc) => dis_code rc /\
      match v with Some s => rc = 0 /\ n = zlen s | None => rc <> 0 end)
    (fun '(_, _, rc) => rc = 0).
Proof.
  intros w Hw. eapply runs_weaken; [by apply disrcs_run|].
  intros [[[s|] n] rc] w' (Hle & Hrc & Hok); (split; [done|]); split; try done.
  - split; [done|]. by destruct Hok as (? & ? & _).
  - intros _. by destruct Hok as (_ & _ & ? & _).
Qed.

Lemma disrfst_safe cap achars :
  0 <= achars < cap -> achars <= INT_MAX ->
  safe (disrfst cap achars) (fun '(rc, s) => dis_code rc /\ nul_free s /\ zlen s <= achars)
    (fun '(rc, _) => rc = 0).
Proof.
  intros Hc Hm w Hw. eapply runs_weaken; [by apply disrfst_run|].
  intros [rc s] w' (Hle & Hrc & Hn & Hl & Hok & _). split; [done|]. split; [done|].
  by intros [_ ?]%Hok.
Qed.

Lemma disrfcs_safe cap achars :
  0 <= achars <= cap -> achars <= INT_MAX ->
  safe (disrfcs cap achars)
    (fun '(rc, n, s) => dis_code rc /\ 0 <= n <= achars /\ (rc = 0 -> n = zlen s))
    (fun '(rc, _, _) => rc = 0).
Proof.
  intros Hc Hm w Hw. eapply runs_weaken; [by apply disrfcs_run|].
  intros [[rc n] s] w' (Hle & Hrc & Hn & Hok & _). split; [done|].
  split; [split; [done|]; split; [done|]; by intros (? & _)%Hok|].
  by intros (_ & _ & ?)%Hok.
Qed.

End Readers.

#[export] Hint Resolve disrui_safe disrsi_safe disrst_safe disrcs_safe : dis.

(** Takes one step of a safety proof: the next primitive, its outcomes named, or a
    branch on a code. *)
Ltac safe_step :=
  lazymatch goal with
  | |- safe (st_bind disrui _) _ _ =>
      eapply safe_bind; [apply disrui_safe|]; intros [? ?] [? ?]
  | |- safe (st_bind disrsi _) _ _ =>
      eapply safe_bind; [apply disrsi_safe|]; intros [? ?] [? ?]
  | |- safe (st_bind disrst _) _ _ =>
      eapply safe_bind; [apply disrst_safe|]; intros [? ?] [? ?]
  | |- safe (st_bind disrcs _) _ _ =>
      eapply safe_bind; [apply disrcs_safe|]; intros [[? ?] ?] [? ?]
  | |- safe (st_bind (disrfst _ _) _) _ _ =>
      eapply safe_bind; [apply disrfst_safe; unfold INT_MAX in *; lia|]; intros [? ?] (? & ? & ?)
  | |- safe (st_bind (st_ret _) _) _ _ =>
      eapply safe_bind; [apply (safe_ret _ (fun x => x = _) (fun _ => False)); [reflexivity|tauto]|];
      intros ? ->
  | |- safe (if negb (?rc =? 0) then _ else _) _ _ => destruct (Z.eqb_spec rc 0); simpl negb; cbv iota
  | |- safe (if ?rc =? 0 then _ else _) _ _ => destruct (Z.eqb_spec rc 0)
  | |- safe (st_ret _) _ _ => apply safe_ret
  end.

(** ** The string layer *)

Section Strings.
Context `{AllocOk}.

(** C23: strings survive the wire.  What [diswst] writes for a C string is read back by
    [disrst], and by [disrfst] into any block with room for the announced maximum and
    the terminator; what [diswcs] writes for a counted string, NUL bytes included, is
    read back with its length by [disrcs], and by [disrfcs] into a block with room for
    the maximum. *)
Theorem strings_roundtrip s cap achars :
  zlen s <= achars <= INT_MAX ->
  exists bs, encodes (diswcs (Some s) (zlen s)) bs 0
    /\ decodes disrcs bs (Some s, zlen s, 0)
    /\ (achars <= cap -> decodes (disrfcs cap achars) bs (0, zlen s, s))
    /\ (nul_free s -> encodes (diswst (Some s)) bs 0 /\ decodes disrst bs (Some s, 0)
        /\ (achars < cap -> decodes (disrfst cap achars) bs (0, s))).
Proof.
  intros Hs. exists (wire_str s). split; [apply diswcs_encodes; lia|].
  split; [apply disrcs_decodes; lia|]. split; [intros; apply disrfcs_decodes; lia|].
  intros Hn. split; [apply diswst_encodes; by split; [|lia]|].
  split; [apply disrst_decodes; by split; [|lia]|]. intros. apply disrfst_decodes; (done || lia).
Qed.

(** on any input [disrfst] stays inside a block with room for the announced maximum
    and the terminator: it returns a Libdis code and leaves a C string of at most that
    many characters; on 0 it is exactly the string the stream announced, now consumed,
    and on any error it is the empty string. *)
Theorem disrfst_stays_in_block cap achars w :
  wf_read w -> 0 <= achars < cap -> achars <= INT_MAX ->
  exists rc s w', disrfst cap achars w = Ret (rc, s) w' /\ rleq w w' /\ dis_code rc
    /\ nul_free s /\ zlen s <= achars
    /\ (rc = 0 -> str_parse w s w') /\ (rc <> 0 -> s = []).
Proof.
  intros Hw Hc Ha.
  destruct (runs_inv _ _ _ (disrfst_run cap achars w Hw Hc Ha))
    as ([rc s] & w' & E & Hle & Hrc & Hn & Hl & Hok & Hko).
  exists rc, s, w'. do 5 (split; [done|]). split; [|done]. by intros [? _]%Hok.
Qed.

(** a caller that announces as many characters as its block has is overrun by a
    string of exactly that length: the terminator is stored one past the block. *)
Theorem disrfst_overruns_by_one cap s :
  nul_free s -> zlen s = cap -> cap <= INT_MAX -> crashes (disrfst cap cap) (wire_str s).
Proof. intros Hn Hl Hc. apply disrfst_crashes; (done || lia). Qed.

(** [disrcs] compares the count as [int] with what [tcp_gets] returned, so the error
    code -2 of an exhausted stream matches the count [4294967294]: a peer that sends just
    that count is answered with success and a string of 4294967294 NUL characters that
    were never sent. *)
Theorem disrcs_phantom_string w :
  wf_read w -> rback w = [] -> rfront w = wire_num c_plus 4294967294 ->
  exists w', disrcs w = Ret (Some (filled 4294967294 []), 4294967294, 0) w'.
Proof.
  intros Hw Hb Hf. rewrite <- (app_nil_r (wire_num _ _)) in Hf.
  destruct (disrsi_loop_complete (S (rmeasure w)) w [] ind_negate 0 1 (wire_num c_plus 4294967294)
    false 4294967294) as (w1 & E1 & Hs1 & Hf1); [done| |done|by eapply front_fuel|].
  { apply (wire_num_numeral 10 UINT_MAX c_plus); unfold UINT_MAX, ULONG_MAX; tauto || lia. }
  destruct (tcp_gets_fail w1 4294967294 (rs_wf _ _ _ Hs1)) as (rc & w2 & E2 & _ & Hs2 & _ & Heof);
    [by rewrite Hf1|].
  rewrite (Heof Hf1) in E2.
  destruct (rcommit_ret_ok 0 w2 (rs_wf _ _ _ Hs2)) as (w3 & E3 & _). exists w3.
  change (disrsi_ ind_negate 0 1 w = Ret (0, false, 4294967294) w1) in E1.
  unfold disrcs. rewrite (st_bind_ret _ _ _ _ _ E1). cbv beta iota zeta.
  change (0 =? DIS_SUCCESS) with true. cbv iota.
  rewrite alloc_ok by (unfold ALLOC_MAX; lia). cbn [negb].
  unfold st_bind at 1. rewrite (st_bind_ret _ _ _ _ _ E2). unfold st_ret at 1.
  change (-2 =? i32 4294967294) with true. cbn [negb]. by rewrite (st_bind_ret _ _ _ _ _ E3).
Qed.

End Strings.

Section StringWitnesses.
#[local] Existing Instance generous.
#[local] Existing Instance generous_ok.
Import Sample.

Lemma strings_roundtrip_witness :
  exists bs, encodes (diswst (Some [97;98])) bs 0 /\ decodes (disrfst 9 8) bs (0, [97;98]).
Proof.
  destruct (strings_roundtrip [97;98] 9 8) as (bs & _ & _ & _ & Hn); [vm_compute; split; discriminate|].
  destruct Hn as (He & _ & Hd); [repeat constructor; discriminate|].
  exists bs. split; [exact He|apply Hd; reflexivity].
Defined.

(** ["+8abc"]: eight characters announced, three sent. *)
Lemma disrfst_stays_in_block_witness :
  exists rc w', disrfst 9 8 (sample [RdData [43;56;97;98;99]] []) = Ret (rc, []) w' /\ rc = DIS_PROTO.
Proof.
  destruct (disrfst_stays_in_block 9 8 (sample [RdData [43;56;97;98;99]] []))
    as (rc & s & w' & E & _ & _ & _ & _ & _ & Hko);
    [apply sample_read; reflexivity|lia|unfold INT_MAX; lia|].
  assert (Hv : match disrfst 9 8 (sample [RdData [43;56;97;98;99]] []) with
               | Ret (rc, _) _ => rc | _ => 0 end = DIS_PROTO) by (vm_compute; reflexivity).
  rewrite E in Hv. subst rc. exists DIS_PROTO, w'. rewrite E, Hko by discriminate. split; reflexivity.
Defined.

Lemma disrfst_overruns_by_one_witness :
  disrfst 3 3 (sample [RdData [43;51;97;98;99]] []) = UB.
Proof.
  apply (disrfst_overruns_by_one 3 [97;98;99]) with (rest := []);
    [repeat constructor; discriminate|reflexivity|unfold INT_MAX; lia|
     apply sample_read; reflexivity|reflexivity|reflexivity].
Defined.

Lemma disrcs_phantom_string_witness :
  exists w', disrcs (sample [RdData (wire_num c_plus 4294967294)] [])
    = Ret (Some (filled 4294967294 []), 4294967294, 0) w'.
Proof.
  apply (disrcs_phantom_string (sample [RdData (wire_num c_plus 4294967294)] []));
    [apply sample_read; vm_compute; reflexivity|reflexivity|vm_compute; reflexivity].
Defined.

End StringWitnesses.
