(* ===== verification/Attrs.v ===== *)
(** * Attribute lists (src/src/lib/Libifl/{enc,dec}_{attrl,attropl,svrattrl}.c)

    Three list types share one wire form: the number of entries and, for each, the
    size of its strings with their NULs, the name, a flag and the resource name,
    the value and the operation.  Clients keep [attrl] and [attropl] lists, the
    server [svrattrl] entries, whose strings live in one block behind the
    structure. *)

From S2P Require Import Prelude CLib TcpDis Codec DisInt DisStr.
From stdpp Require Import base list numbers option.

Local Open Scope Z_scope.
Local Open Scope st_scope.

(** [char *], null or a C string. *)
Abbreviation cptr := (option (list Z)).

(** ** Data *)

Definition SET : Z := 0.

Record attrl := mk_attrl { at_name : cptr; at_resource : cptr; at_value : cptr }.

Record attropl := mk_attropl {
  ao_name : cptr; ao_resource : cptr; ao_value : cptr; ao_op : Z }.

(** [al_data] is the block behind the structure; [al_name] points at its start,
    [al_resc] and [al_value] are offsets in it. *)
Record svrattrl := mk_svrattrl {
  al_tsize : Z; al_nameln : Z; al_rescln : Z; al_valln : Z; al_flags : Z;
  al_resc : option Z; al_value : option Z; al_op : Z; al_data : list Z }.

Definition SIZEOF_SVRATTRL : Z := 88.
Definition SIZEOF_ATTRL : Z := 40.
Definition SIZEOF_ATTROPL : Z := 40.

(** The C string at an offset of the block. *)
Definition al_string (a : svrattrl) (off : Z) : option (list Z) :=
  cstring (drop (Z.to_nat off) (al_data a)).
Definition al_name_str (a : svrattrl) : option (list Z) := al_string a 0.
Definition al_resc_str (a : svrattrl) : cptr := off ← al_resc a; al_string a off.
Definition al_value_str (a : svrattrl) : cptr := off ← al_value a; al_string a off.

Section Ops.
Context `{Platform}.

(** A loop over a list that leaves with the first code that is not 0. *)
Fixpoint encode_each {A} (f : A -> M Z) (l : list A) : M Z :=
  match l with
  | [] => st_ret 0
  | a :: l' => f a >>? encode_each f l'
  end.

(** Entries of [for (i = 0; i < n; ++i)], in order, until one fails.  An item
    returns its code, the entry when the code is 0, and whether the node of this
    turn had been allocated when it failed: the last component of the loop is
    true when the error path frees the node linked last.  A failed allocation
    returns at once. *)
Fixpoint read_list {A} (fuel : nat) (n : Z) (acc : list A)
    (item : M (Z * option A * bool)) : M (Z * list A * bool) :=
  match fuel with
  | O => fun _ => OutOfFuel
  | S fuel' =>
      if 0 <? n then
        let* (rc, x, fresh) := item in
        match x with
        | Some a => read_list fuel' (n - 1) (acc ++ [a]) item
        | None => st_ret (rc, acc, negb fresh && negb (bool_decide (acc = [])))
        end
      else st_ret (0, acc, false)
  end.

(** Every entry consumes input, which bounds the loop. *)
Definition read_n {A} (n : Z) (item : M (Z * option A * bool)) : M (Z * list A * bool) :=
  fun w => read_list (S (rmeasure w)) n [] item w.

Definition strlen0 (s : cptr) : Z := match s with Some v => zlen (until_nul v) | None => 0 end.
Definition or_empty (s : cptr) : cptr := match s with Some v => Some v | None => Some [] end.

(** The resource name and its flag, the same in all three encoders. *)
Definition encode_resource (r : cptr) : M Z :=
  match r with
  | Some _ => diswui 1 >>? diswst r
  | None => diswui 0
  end.

Definition encode_attrl_item (ps : attrl) : M Z :=
  let name_len := 0 in
  let name_len := match at_name ps with
                  | Some s => u32 (name_len + (i32 (strlen0 (Some s)) + 1)) | None => name_len end in
  let name_len := match at_value ps with
                  | Some s => u32 (name_len + (i32 (strlen0 (Some s)) + 1)) | None => name_len end in
  let name_len := match at_resource ps with
                  | Some s => u32 (name_len + strlen0 (Some s) + 1) | None => name_len end in
  diswui name_len >>?
  diswst (or_empty (at_name ps)) >>?
  encode_resource (at_resource ps) >>?
  diswst (or_empty (at_value ps)) >>?
  diswui SET.

Definition encode_DIS_attrl (pattrl : list attrl) : M Z :=
  diswui (u32 (zlen pattrl)) >>? encode_each encode_attrl_item pattrl.

Definition encode_attropl_item (ps : attropl) : M Z :=
  match ao_name ps with
  | None => st_ret 0
  | Some name =>
      let name_len := u32 (strlen0 (Some name) + 1) in
      let name_len := match ao_value ps with
                      | Some s => u32 (name_len + strlen0 (Some s) + 1) | None => name_len end in
      let name_len := match ao_resource ps with
                      | Some s => u32 (name_len + strlen0 (Some s) + 1) | None => name_len end in
      diswui name_len >>?
      diswst (Some name) >>?
      encode_resource (ao_resource ps) >>?
      diswst (or_empty (ao_value ps)) >>?
      diswui (u32 (ao_op ps))
  end.

Definition encode_DIS_attropl (pattropl : list attropl) : M Z :=
  diswui (u32 (zlen pattropl)) >>? encode_each encode_attropl_item pattropl.

Definition encode_svrattrl_item (ps : svrattrl) : M Z :=
  let* name := st_lift (al_name_str ps) in
  let* value := (match al_value ps with
                 | Some off => st_lift (al_string ps off)
                 | None => st_ub
                 end) in
  let* resc := (match al_resc ps with
                | Some off => let* r := st_lift (al_string ps off) in st_ret (Some r)
                | None => st_ret None
                end) in
  let name_len := u32 (i32 (zlen name) + i32 (zlen value) + 2) in
  let name_len := match resc with Some r => u32 (name_len + zlen r + 1) | None => name_len end in
  diswui name_len >>?
  diswst (Some name) >>?
  encode_resource resc >>?
  diswst (Some value) >>?
  diswui (u32 (al_op ps)).

Definition encode_DIS_svrattrl (psattl : list svrattrl) : M Z :=
  diswui (u32 (zlen psattl)) >>? encode_each encode_svrattrl_item psattl.

(** ** Decoders *)

(** One turn of [decode_DIS_attrl]. *)
Definition decode_attrl_item : M (Z * option attrl * bool) :=
  let* (_, rc) := disrui in
  if negb (rc =? 0) then st_ret (rc, None, false)
  else if negb (calloc_ok SIZEOF_ATTRL) then st_ret (DIS_NOMALLOC, None, true)
  else
    let* (name, rc) := disrst in
    if negb (rc =? 0) then st_ret (rc, None, true)
    else
      let* (hasresc, rc) := disrui in
      if negb (rc =? 0) then st_ret (rc, None, true)
      else
        let* (resource, rc) := (if negb (i32 hasresc =? 0) then disrst else st_ret (None, 0)) in
        if negb (rc =? 0) then st_ret (rc, None, true)
        else
          let* (value, rc) := disrst in
          if negb (rc =? 0) then st_ret (rc, None, true)
          else
            let* (_, rc) := disrui in
            if negb (rc =? 0) then st_ret (rc, None, true)
            else st_ret (0, Some (mk_attrl name resource value), true).

(** The code, the list at [*ppatt] and whether its last node has been freed. *)
Definition decode_DIS_attrl : M (Z * list attrl * bool) :=
  let* (numpat, rc) := disrui in
  if negb (rc =? 0) then st_ret (rc, [], false) else read_n numpat decode_attrl_item.

Definition decode_attropl_item : M (Z * option attropl * bool) :=
  let* (_, rc) := disrui in
  if negb (rc =? 0) then st_ret (rc, None, false)
  else if negb (calloc_ok SIZEOF_ATTROPL) then st_ret (DIS_NOMALLOC, None, true)
  else
    let* (name, rc) := disrst in
    if negb (rc =? 0) then st_ret (rc, None, true)
    else
      let* (hasresc, rc) := disrui in
      if negb (rc =? 0) then st_ret (rc, None, true)
      else
        let* (resource, rc) := (if negb (i32 hasresc =? 0) then disrst else st_ret (None, 0)) in
        if negb (rc =? 0) then st_ret (rc, None, true)
        else
          let* (value, rc) := disrst in
          if negb (rc =? 0) then st_ret (rc, None, true)
          else
            let* (op, rc) := disrui in
            if negb (rc =? 0) then st_ret (rc, None, true)
            else st_ret (0, Some (mk_attropl name resource value op), true).

Definition decode_DIS_attropl : M (Z * list attropl * bool) :=
  let* (numpat, rc) := disrui in
  if negb (rc =? 0) then st_ret (rc, [], false) else read_n numpat decode_attropl_item.

(** [disrfcs] into the block at [off] and the NUL behind the string: the block,
    the code and the length including the NUL. *)
Definition read_piece (data : list Z) (off data_len : Z) : M (Z * list Z * Z) :=
  let* (rc, ls, s) := disrfcs (zlen data - off) data_len in
  if negb (rc =? 0) then st_ret (rc, data, ls)
  else
    let* data := st_lift (mem_write data off s) in
    let* data := st_lift (mem_write data (off + ls) [c_nul]) in
    st_ret (rc, data, ls + 1).

(** One turn of [decode_DIS_svrattrl]; [data_len] is an [unsigned int]. *)
Definition decode_svrattrl_item : M (Z * option svrattrl * bool) :=
  let* (data_len, rc) := disrui in
  let data_len := if data_len =? 0 then 1 else data_len in
  if negb (rc =? 0) then st_ret (rc, None, true)
  else
    let tsize := SIZEOF_SVRATTRL + data_len + 2 in
    if negb (calloc_ok tsize) then st_ret (DIS_NOMALLOC, None, true)
    else
      let data := replicate (Z.to_nat (data_len + 2)) c_nul in
      let* (rc, data, nameln) := read_piece data 0 data_len in
      if negb (rc =? 0) then st_ret (rc, None, true)
      else
        let data_len := u32 (data_len - nameln) in
        let* (hasresc, rc) := disrui in
        if negb (rc =? 0) then st_ret (rc, None, true)
        else
          let* (rc, data, resc, rescln) :=
            (if negb (hasresc =? 0) then
               let* (rc, data, ls) := read_piece data nameln data_len in
               st_ret (rc, data, Some nameln, ls)
             else st_ret (0, data, None, 0)) in
          if negb (rc =? 0) then st_ret (rc, None, true)
          else
            let data_len := u32 (data_len - rescln) in
            let value := i32 nameln + i32 rescln in
            let* (rc, data, valln) := read_piece data value data_len in
            if negb (rc =? 0) then st_ret (rc, None, true)
            else
              let* (op, rc) := disrui in
              if negb (rc =? 0) then st_ret (rc, None, true)
              else st_ret (0, Some (mk_svrattrl (i32 tsize) (i32 nameln) (i32 rescln) (i32 valln) 0
                                      resc (Some value) op data), true).

(** The code and the entries appended to [phead]. *)
Definition decode_DIS_svrattrl : M (Z * list svrattrl) :=
  let* (numattr, rc) := disrui in
  if negb (rc =? 0) then st_ret (rc, [])
  else let* (rc, l, _) := read_n numattr decode_svrattrl_item in st_ret (rc, l).

End Ops.

(** ** Lists of items *)

Section ListRules.
Context `{Platform}.

Lemma encodes_seq (m : M Z) (k : M Z) bs1 bs2 rc :
  encodes m bs1 0 -> encodes k bs2 rc -> encodes (m >>? k) (bs1 ++ bs2) rc.
Proof. intros Hm Hk. by eapply encodes_bind; [exact Hm|]. Qed.

Lemma encode_each_encodes {A} (f : A -> M Z) (wf : A -> list Z) l :
  Forall (fun a => encodes (f a) (wf a) 0) l ->
  encodes (encode_each f l) (concat (map wf l)) 0.
Proof.
  induction 1 as [|a l Ha Hl IH]; simpl; [apply encodes_ret|]. by apply encodes_seq.
Qed.

Lemma decodes_seq {A B} (m : M (A * Z)) (k : A -> M B) (err : A -> Z -> M B) bs1 bs2 a b :
  decodes m bs1 (a, 0) -> decodes (k a) bs2 b ->
  decodes (let* (x, rc) := m in if negb (rc =? 0) then err x rc else k x) (bs1 ++ bs2) b.
Proof. intros Hm Hk. by eapply decodes_bind; [exact Hm|]. Qed.

Lemma read_list_decodes {A B} (item : M (Z * option B * bool)) (wf : A -> list Z) (view : A -> B) l :
  Forall (fun a => decodes item (wf a) (0, Some (view a), true)) l ->
  forall fuel acc, (length l < fuel)%nat ->
  decodes (read_list fuel (zlen l) acc item) (concat (map wf l)) (0, acc ++ map view l, false).
Proof.
  induction 1 as [|a l Ha Hl IH]; intros fuel acc Hf; (destruct fuel as [|fuel]; [simpl in Hf; lia|]).
  - simpl. rewrite app_nil_r. apply decodes_ret.
  - cbn [read_list map concat]. rewrite zlen_cons. pose proof (zlen_nonneg l).
    destruct (Z.ltb_spec 0 (zlen l + 1)); [|lia]. eapply decodes_bind; [exact Ha|]. cbv beta iota.
    replace (zlen l + 1 - 1) with (zlen l) by lia.
    replace (acc ++ view a :: map view l) with ((acc ++ [view a]) ++ map view l)
      by (by rewrite <- app_assoc). apply IH. simpl in Hf. lia.
Qed.

Lemma read_n_decodes {A B} (item : M (Z * option B * bool)) (wf : A -> list Z) (view : A -> B) l :
  Forall (fun a => wf a <> [] /\ decodes item (wf a) (0, Some (view a), true)) l ->
  decodes (read_n (zlen l) item) (concat (map wf l)) (0, map view l, false).
Proof.
  intros Hl w rest Hw Hb Hf. unfold read_n.
  apply (read_list_decodes item wf view l) with (acc := []) (fuel := S (rmeasure w)); [| |done..].
  - eapply Forall_impl; [|exact Hl]. by intros a [_ ?].
  - assert (length l <= length (concat (map wf l)))%nat.
    { clear - Hl. induction Hl as [|a l [Ha _] _ IH]; [done|]. simpl. rewrite length_app.
      destruct (wf a); [done|]. simpl. lia. }
    pose proof (front_unread w) as Hu. rewrite Hf, length_app in Hu.
    unfold unread, rmeasure in *. lia.
Qed.

End ListRules.

(** ** The wire form of an entry *)

Definition rsize (r : cptr) : Z := match r with Some s => zlen s + 1 | None => 0 end.

Definition wire_resource (r : cptr) : list Z :=
  match r with
  | Some s => wire_num c_plus 1 ++ wire_str s
  | None => wire_num c_plus 0
  end.

Definition wire_attr (size : Z) (n : list Z) (r : cptr) (v : list Z) (op : Z) : list Z :=
  wire_num c_plus size ++ wire_str n ++ wire_resource r ++ wire_str v ++ wire_num c_plus op.

Lemma wire_num_nonempty v : 0 <= v <= ULONG_MAX -> wire_num c_plus v <> [].
Proof. intros Hv E. pose proof (wire_num_len c_plus v Hv) as Hl. rewrite E, zlen_nil in Hl. lia. Qed.

(** What an entry must satisfy to cross the wire: C strings whose sizes, NULs
    included, add up to less than 2 GiB, and an [unsigned] operation. *)
Record entry_ok (n : list Z) (r : cptr) (v : list Z) (op : Z) : Prop := {
  eo_name : nul_free n;
  eo_resc : forall s, r = Some s -> nul_free s;
  eo_value : nul_free v;
  eo_size : zlen n + zlen v + 2 + rsize r <= INT_MAX;
  eo_op : 0 <= op <= UINT_MAX
}.

(** The announced size leaves room for the three strings. *)
Definition size_ok (size : Z) (n : list Z) (r : cptr) (v : list Z) : Prop :=
  zlen n + 1 + rsize r + zlen v <= size <= INT_MAX.

Lemma rsize_nonneg r : 0 <= rsize r.
Proof. destruct r as [s|]; simpl; [pose proof (zlen_nonneg s)|]; lia. Qed.

Section Items.
Context `{AllocOk}.

Lemma diswui_small v : 0 <= v <= INT_MAX -> encodes (diswui v) (wire_num c_plus v) 0.
Proof. intros. apply diswui_encodes. unfold INT_MAX, UINT_MAX in *. lia. Qed.

Lemma entry_strs n r v op :
  entry_ok n r v op -> cstr n /\ cstr v /\ (forall s, r = Some s -> cstr s).
Proof.
  intros [Hn Hr Hv Hs _]. pose proof (zlen_nonneg n). pose proof (zlen_nonneg v).
  pose proof (rsize_nonneg r). unfold cstr. split; [split; [done|lia]|]. split; [split; [done|lia]|].
  intros s ->. split; [by apply Hr|]. simpl in *. lia.
Qed.

Lemma encode_resource_encodes r :
  (forall s, r = Some s -> cstr s) -> encodes (encode_resource r) (wire_resource r) 0.
Proof.
  intros Hr. unfold encode_resource, wire_resource. destruct r as [s|].
  - apply encodes_seq; [by apply diswui_small|]. apply diswst_encodes. by apply Hr.
  - by apply diswui_small.
Qed.

(** The five writes of an entry. *)
Lemma encode_entry size n r v op :
  0 <= size <= UINT_MAX -> entry_ok n r v op ->
  encodes (diswui size >>? diswst (Some n) >>? encode_resource r >>? diswst (Some v) >>? diswui op)
    (wire_attr size n r v op) 0.
Proof.
  intros Hs He. destruct (entry_strs n r v op He) as (Hn & Hv & Hr). destruct He.
  repeat apply encodes_seq; [by apply diswui_encodes|by apply diswst_encodes|
    by apply encode_resource_encodes|by apply diswst_encodes|by apply diswui_encodes].
Qed.

(** The attribute lists as the wire sees them. *)
Definition attrl_size (a : attrl) : Z :=
  rsize (at_name a) + rsize (at_value a) + rsize (at_resource a).
Definition wire_attrl_item (a : attrl) : list Z :=
  wire_attr (attrl_size a) (default [] (at_name a)) (at_resource a) (default [] (at_value a)) SET.
Definition attrl_ok (a : attrl) : Prop :=
  entry_ok (default [] (at_name a)) (at_resource a) (default [] (at_value a)) SET.

Definition attropl_size (a : attropl) : Z :=
  rsize (ao_name a) + rsize (ao_value a) + rsize (ao_resource a).
Definition wire_attropl_item (a : attropl) : list Z :=
  wire_attr (attropl_size a) (default [] (ao_name a)) (ao_resource a) (default [] (ao_value a)) (ao_op a).
Definition attropl_ok (a : attropl) : Prop :=
  is_Some (ao_name a) /\
  entry_ok (default [] (ao_name a)) (ao_resource a) (default [] (ao_value a)) (ao_op a).

Lemma strlen0_cstr s : nul_free s -> strlen0 (Some s) = zlen s.
Proof. intros. simpl. by rewrite until_nul_id. Qed.

Lemma rsize_default s : rsize s <= zlen (default [] s) + 1.
Proof. destruct s as [s|]; unfold zlen; simpl; unfold zlen; lia. Qed.

Lemma encode_attrl_item_encodes a :
  attrl_ok a -> encodes (encode_attrl_item a) (wire_attrl_item a) 0.
Proof.
  destruct a as [n r v]. unfold attrl_ok, encode_attrl_item, wire_attrl_item, attrl_size. simpl.
  intros Hok. pose proof Hok as [Hn Hr Hv Hs Ho]. unfold INT_MAX in Hs.
  pose proof (rsize_default n). pose proof (rsize_default v). pose proof (rsize_nonneg r).
  pose proof (rsize_nonneg n). pose proof (rsize_nonneg v).
  match goal with |- encodes (diswui ?x >>? _) _ _ =>
    assert (E : x = rsize n + rsize v + rsize r) end.
  { destruct n as [n|], v as [v|], r as [r|]; simpl in *;
      repeat (rewrite until_nul_id by auto); rewrite ?zlen_nil in *;
      zlens; drop_wraps; lia. }
  rewrite E. replace (or_empty n) with (Some (default [] n)) by (by destruct n).
  replace (or_empty v) with (Some (default [] v)) by (by destruct v).
  apply encode_entry; [unfold UINT_MAX; lia|done].
Qed.

Lemma encode_attropl_item_encodes a :
  attropl_ok a -> encodes (encode_attropl_item a) (wire_attropl_item a) 0.
Proof.
  destruct a as [n r v op]. unfold attropl_ok, encode_attropl_item, wire_attropl_item, attropl_size.
  simpl. intros [[n' ->] Hok]. pose proof Hok as [Hn Hr Hv Hs Ho]. unfold INT_MAX in Hs. simpl in *.
  pose proof (rsize_default v). pose proof (rsize_nonneg r). pose proof (rsize_nonneg v).
  pose proof (zlen_nonneg n').
  match goal with |- encodes (diswui ?x >>? _) _ _ =>
    assert (E : x = zlen n' + 1 + rsize v + rsize r) end.
  { destruct v as [v|], r as [r|]; simpl in *;
      repeat (rewrite until_nul_id by auto); rewrite ?zlen_nil in *;
      zlens; drop_wraps; lia. }
  rewrite E. replace (or_empty v) with (Some (default [] v)) by (by destruct v).
  unfold UINT_MAX in *. rewrite (u32_small op) by lia.
  apply encode_entry; [unfold UINT_MAX; lia|done].
Qed.

(** ** Reading entries *)

Lemma decode_resource_decodes r :
  (forall s, r = Some s -> cstr s) ->
  exists bs1 bs2 h, wire_resource r = bs1 ++ bs2 /\ decodes disrui bs1 (h, 0)
    /\ decodes (if negb (i32 h =? 0) then disrst else st_ret (None, 0)) bs2 (r, 0).
Proof.
  intros Hr. unfold wire_resource. destruct r as [s|].
  - exists (wire_num c_plus 1), (wire_str s), 1. split; [done|].
    split; [by apply disrui_decodes|]. apply disrst_decodes. by apply Hr.
  - exists (wire_num c_plus 0), [], 0. split; [by rewrite app_nil_r|].
    split; [by apply disrui_decodes|]. apply decodes_ret.
Qed.

Lemma decode_attrl_item_decodes size n r v op :
  0 <= size <= UINT_MAX -> entry_ok n r v op ->
  decodes decode_attrl_item (wire_attr size n r v op)
    (0, Some (mk_attrl (Some n) r (Some v)), true).
Proof.
  intros Hs He. destruct (entry_strs n r v op He) as (Hn & Hv & Hr). destruct He.
  unfold decode_attrl_item, wire_attr.
  destruct (decode_resource_decodes r Hr) as (b1 & b2 & h & -> & D1 & D2). rewrite <- !app_assoc.
  rewrite alloc_ok by (unfold ALLOC_MAX, SIZEOF_ATTRL; lia). cbn [negb].
  eapply decodes_bind; [by apply disrui_decodes|]. cbn [Z.eqb negb].
  eapply decodes_bind; [by apply disrst_decodes|]. cbn [Z.eqb negb].
  eapply decodes_bind; [exact D1|]. cbn [Z.eqb negb].
  eapply decodes_bind; [exact D2|]. cbn [Z.eqb negb].
  eapply decodes_bind; [by apply disrst_decodes|]. cbn [Z.eqb negb].
  by eapply decodes_last; [by apply disrui_decodes|].
Qed.

Lemma decode_attropl_item_decodes size n r v op :
  0 <= size <= UINT_MAX -> entry_ok n r v op ->
  decodes decode_attropl_item (wire_attr size n r v op)
    (0, Some (mk_attropl (Some n) r (Some v) op), true).
Proof.
  intros Hs He. destruct (entry_strs n r v op He) as (Hn & Hv & Hr). destruct He.
  unfold decode_attropl_item, wire_attr.
  destruct (decode_resource_decodes r Hr) as (b1 & b2 & h & -> & D1 & D2). rewrite <- !app_assoc.
  rewrite alloc_ok by (unfold ALLOC_MAX, SIZEOF_ATTROPL; lia). cbn [negb].
  eapply decodes_bind; [by apply disrui_decodes|]. cbn [Z.eqb negb].
  eapply decodes_bind; [by apply disrst_decodes|]. cbn [Z.eqb negb].
  eapply decodes_bind; [exact D1|]. cbn [Z.eqb negb].
  eapply decodes_bind; [exact D2|]. cbn [Z.eqb negb].
  eapply decodes_bind; [by apply disrst_decodes|]. cbn [Z.eqb negb].
  by eapply decodes_last; [by apply disrui_decodes|].
Qed.

(** *** The server's form *)

(** A string stored behind [p] in a block that is zero from there on. *)
Lemma read_piece_decodes p k dl s :
  zlen s <= dl -> dl <= k -> zlen s < k -> dl <= INT_MAX ->
  decodes (read_piece (p ++ zeros k) (zlen p) dl) (wire_str s)
    (0, (p ++ s ++ [c_nul]) ++ zeros (k - (zlen s + 1)), zlen s + 1).
Proof.
  intros Hs Hd Hk Hm. pose proof (zlen_nonneg s). unfold read_piece.
  rewrite zlen_app, zlen_zeros by lia. replace (zlen p + k - zlen p) with k by lia.
  eapply decodes_last; [by apply disrfcs_decodes|]. cbn [Z.eqb negb].
  unfold st_lift, st_bind, st_ret.
  rewrite mem_write_app by (rewrite zlen_zeros; lia). rewrite drop_zeros by lia.
  rewrite <- zlen_app, app_assoc.
  rewrite mem_write_app by (rewrite zlen_zeros, zlen_cons, zlen_nil by lia; lia).
  simpl length. rewrite (drop_zeros [c_nul]) by (unfold zlen in *; simpl; lia).
  replace (k - zlen s - zlen [c_nul]) with (k - (zlen s + 1)) by (unfold zlen; simpl; lia).
  by rewrite <- !app_assoc.
Qed.

Definition rdata (r : cptr) : list Z := match r with Some s => s ++ [c_nul] | None => [] end.

Lemma zlen_rdata r : zlen (rdata r) = rsize r.
Proof. destruct r as [s|]; [|done]. unfold rdata, rsize. by rewrite zlen_app. Qed.

(** The structure [decode_DIS_svrattrl] builds for an entry. *)
Definition svr_of (size : Z) (n : list Z) (r : cptr) (v : list Z) (op : Z) : svrattrl :=
  mk_svrattrl (i32 (SIZEOF_SVRATTRL + size + 2)) (zlen n + 1) (rsize r) (zlen v + 1) 0
    (match r with Some _ => Some (zlen n + 1) | None => None end)
    (Some (zlen n + 1 + rsize r)) op
    (((n ++ [c_nul]) ++ rdata r) ++ (v ++ [c_nul]) ++
     zeros (size + 2 - (zlen n + 1) - rsize r - (zlen v + 1))).

Lemma svr_of_strings size n r v op :
  entry_ok n r v op ->
  al_name_str (svr_of size n r v op) = Some n /\ al_resc_str (svr_of size n r v op) = r
  /\ al_value_str (svr_of size n r v op) = Some v.
Proof.
  intros [Hn Hr Hv _ _]. unfold al_name_str, al_resc_str, al_value_str, al_string, svr_of. simpl.
  split; [|split].
  - rewrite drop_0, <- !app_assoc. by apply cstring_app.
  - destruct r as [s|]; [|done]. simpl. rewrite <- !app_assoc.
    rewrite (app_assoc n [c_nul]), drop_app_length'; [|rewrite length_app; unfold zlen; simpl; lia].
    apply cstring_app. by apply Hr.
  - rewrite drop_app_length'; [rewrite <- app_assoc; by apply cstring_app|].
    pose proof (zlen_rdata r). rewrite !length_app. unfold zlen in *. simpl. lia.
Qed.

(** The value and the operation, once the name and resource are in place. *)
Lemma decode_value_decodes p k dl v op size rn resc voff :
  zlen v <= dl -> dl <= k -> zlen v < k -> dl <= INT_MAX -> zlen v < INT_MAX ->
  0 <= op <= UINT_MAX -> voff = zlen p ->
  decodes (let* (rc, data, valln) := read_piece (p ++ zeros k) voff dl in
           if negb (rc =? 0) then st_ret (rc, None, true)
           else
             let* (op, rc) := disrui in
             if negb (rc =? 0) then st_ret (rc, None, true)
             else st_ret (0, Some (mk_svrattrl size rn (zlen p - rn) (i32 valln) 0
                                      resc (Some voff) op data), true))
    (wire_str v ++ wire_num c_plus op)
    (0, Some (mk_svrattrl size rn (zlen p - rn) (zlen v + 1) 0 resc (Some voff) op
                (p ++ (v ++ [c_nul]) ++ zeros (k - (zlen v + 1)))), true).
Proof.
  intros Hv Hd Hk Hm Hi Ho ->. pose proof (zlen_nonneg v). unfold INT_MAX in *.
  eapply decodes_bind; [by apply read_piece_decodes|]. cbn [Z.eqb negb].
  eapply decodes_last; [by apply disrui_decodes|]. cbn [Z.eqb negb].
  rewrite i32_small by lia. by rewrite <- !app_assoc.
Qed.

Lemma decode_svrattrl_item_decodes size n r v op :
  size_ok size n r v -> entry_ok n r v op ->
  decodes decode_svrattrl_item (wire_attr size n r v op) (0, Some (svr_of size n r v op), true).
Proof.
  intros Hsz He. destruct (entry_strs n r v op He) as (Hn & Hv & Hr). destruct He as [_ _ _ _ Ho].
  unfold size_ok, INT_MAX, UINT_MAX in *. pose proof (rsize_nonneg r).
  pose proof (zlen_nonneg n). pose proof (zlen_nonneg v).
  unfold decode_svrattrl_item, wire_attr.
  eapply decodes_bind; [by apply disrui_decodes; unfold UINT_MAX; lia|]. cbn [Z.eqb negb].
  destruct (Z.eqb_spec size 0); [lia|]. rewrite alloc_ok by (unfold ALLOC_MAX, SIZEOF_SVRATTRL; lia).
  cbn [negb]. fold (zeros (size + 2)).
  eapply decodes_bind; [apply (read_piece_decodes [] (size + 2) size n); unfold INT_MAX; lia|].
  cbn [Z.eqb negb app]. rewrite (u32_small (size - _)) by lia. rewrite !(i32_small (zlen n + 1)) by lia.
  unfold wire_resource. destruct r as [s|]; simpl rsize in *.
  - pose proof (zlen_nonneg s). rewrite <- (app_assoc (wire_num c_plus 1)).
    eapply decodes_bind; [by apply disrui_decodes|]. cbn [Z.eqb negb].
    assert (En : zlen n + 1 = zlen (n ++ [c_nul])) by (by rewrite zlen_app).
    eapply decodes_bind.
    { rewrite En at 2. eapply decodes_last.
      - apply read_piece_decodes; rewrite <- ?En; unfold INT_MAX; lia.
      - reflexivity. }
    cbn [Z.eqb negb]. rewrite !(i32_small (zlen s + 1)) by lia. rewrite (u32_small _) by lia.
    assert (Ep : zlen ((n ++ [c_nul]) ++ s ++ [c_nul]) = zlen n + 1 + (zlen s + 1))
      by (rewrite !zlen_app; done).
    pose proof (decode_value_decodes ((n ++ [c_nul]) ++ s ++ [c_nul])
      (size + 2 - (zlen n + 1) - (zlen s + 1)) (size - (zlen n + 1) - (zlen s + 1)) v op
      (i32 (SIZEOF_SVRATTRL + size + 2)) (zlen n + 1) (Some (zlen n + 1))
      (zlen n + 1 + (zlen s + 1))) as D.
    rewrite Ep in D. replace (zlen n + 1 + (zlen s + 1) - (zlen n + 1)) with (zlen s + 1) in D by lia.
    apply D; unfold INT_MAX, UINT_MAX; lia.
  - rewrite <- (app_nil_l (wire_str v ++ _)), (app_assoc (wire_num c_plus 0)).
    rewrite <- (app_assoc (wire_num c_plus 0)).
    eapply decodes_bind; [by apply disrui_decodes|]. cbn [Z.eqb negb].
    eapply decodes_bind; [apply decodes_ret|]. cbn [Z.eqb negb].
    rewrite (u32_small _) by lia. change (i32 0) with 0.
    pose proof (decode_value_decodes (n ++ [c_nul]) (size + 2 - (zlen n + 1))
      (size - (zlen n + 1) - 0) v op (i32 (SIZEOF_SVRATTRL + size + 2)) (zlen n + 1) None
      (zlen n + 1 + 0)) as D.
    rewrite zlen_app in D. change (zlen [c_nul]) with 1 in D.
    replace (zlen n + 1 - (zlen n + 1)) with 0 in D by lia.
    unfold svr_of, rdata. simpl rsize. rewrite app_nil_r, !Z.sub_0_r.
    rewrite ?Z.sub_0_r in D.
    apply D; unfold INT_MAX, UINT_MAX; lia.
Qed.

End Items.

(** ** Whole lists

    An abstract entry is what one list element means on the wire. *)

Record entry := mk_entry {
  e_size : Z; e_name : list Z; e_resc : cptr; e_value : list Z; e_op : Z }.

Definition wire_entry (e : entry) : list Z :=
  wire_attr (e_size e) (e_name e) (e_resc e) (e_value e) (e_op e).
Definition wire_entries (es : list entry) : list Z :=
  wire_num c_plus (zlen es) ++ concat (map wire_entry es).

Definition valid_entry (e : entry) : Prop :=
  entry_ok (e_name e) (e_resc e) (e_value e) (e_op e) /\
  size_ok (e_size e) (e_name e) (e_resc e) (e_value e).
Definition valid_entries (es : list entry) : Prop :=
  Forall valid_entry es /\ zlen es <= UINT_MAX.

(** What each encoder puts on the wire for an element. *)
Definition entry_of_attrl (a : attrl) : entry :=
  mk_entry (attrl_size a) (default [] (at_name a)) (at_resource a) (default [] (at_value a)) SET.
Definition entry_of_attropl (a : attropl) : entry :=
  mk_entry (attropl_size a) (default [] (ao_name a)) (ao_resource a) (default [] (ao_value a)) (ao_op a).
Definition entry_of_svr (a : svrattrl) : entry :=
  let n := default [] (al_name_str a) in let v := default [] (al_value_str a) in
  mk_entry (zlen n + zlen v + 2 + rsize (al_resc_str a)) n (al_resc_str a) v (al_op a).

(** What each decoder makes of it. *)
Definition attrl_of (e : entry) : attrl := mk_attrl (Some (e_name e)) (e_resc e) (Some (e_value e)).
Definition attropl_of (e : entry) : attropl :=
  mk_attropl (Some (e_name e)) (e_resc e) (Some (e_value e)) (e_op e).
Definition svrattrl_of (e : entry) : svrattrl :=
  svr_of (e_size e) (e_name e) (e_resc e) (e_value e) (e_op e).

(** The elements the encoders are called with: a name, and for [svrattrl] strings
    inside the block. *)
Definition valid_attrl (a : attrl) : Prop := is_Some (at_name a) /\ valid_entry (entry_of_attrl a).
Definition valid_attropl (a : attropl) : Prop :=
  is_Some (ao_name a) /\ valid_entry (entry_of_attropl a).
Definition valid_svr (a : svrattrl) : Prop :=
  is_Some (al_name_str a) /\ is_Some (al_value_str a) /\ valid_entry (entry_of_svr a)
  /\ (is_Some (al_resc a) -> is_Some (al_resc_str a)).

Section Lists.
Context `{AllocOk}.

Lemma wire_entry_nonempty e : valid_entry e -> wire_entry e <> [].
Proof.
  intros [_ [Hs1 Hs2]] E. apply app_nil in E as [E _]. revert E. apply wire_num_nonempty.
  pose proof (zlen_nonneg (e_name e)). pose proof (zlen_nonneg (e_value e)).
  pose proof (rsize_nonneg (e_resc e)). unfold INT_MAX, ULONG_MAX in *. lia.
Qed.

Lemma size_ok_uint size n r v : size_ok size n r v -> 0 <= size <= UINT_MAX.
Proof.
  unfold size_ok, INT_MAX, UINT_MAX. pose proof (zlen_nonneg n). pose proof (zlen_nonneg v).
  pose proof (rsize_nonneg r). lia.
Qed.

Lemma encode_list_encodes {A} (f : A -> M Z) (g : A -> entry) (P : A -> Prop) l :
  (forall a, P a -> encodes (f a) (wire_entry (g a)) 0) ->
  Forall P l -> zlen l <= UINT_MAX ->
  encodes (diswui (u32 (zlen l)) >>? encode_each f l) (wire_entries (map g l)) 0.
Proof.
  intros Hf Hl Hz. unfold wire_entries. pose proof (zlen_nonneg l). unfold UINT_MAX in Hz.
  rewrite u32_small by lia.
  replace (zlen (map g l)) with (zlen l) by (unfold zlen; by rewrite length_map).
  apply encodes_seq; [apply diswui_encodes; unfold UINT_MAX; lia|].
  rewrite map_map. apply (encode_each_encodes f (fun a => wire_entry (g a))).
  eapply Forall_impl; [|exact Hl]. done.
Qed.

Lemma encode_DIS_attrl_encodes l :
  Forall valid_attrl l -> zlen l <= UINT_MAX ->
  encodes (encode_DIS_attrl l) (wire_entries (map entry_of_attrl l)) 0.
Proof.
  apply encode_list_encodes. intros a [_ [Hok _]]. by apply encode_attrl_item_encodes.
Qed.

Lemma encode_DIS_attropl_encodes l :
  Forall valid_attropl l -> zlen l <= UINT_MAX ->
  encodes (encode_DIS_attropl l) (wire_entries (map entry_of_attropl l)) 0.
Proof.
  apply encode_list_encodes. intros a [Hn [Hok _]]. by apply encode_attropl_item_encodes.
Qed.

Lemma encode_svrattrl_item_encodes a :
  valid_svr a -> encodes (encode_svrattrl_item a) (wire_entry (entry_of_svr a)) 0.
Proof.
  intros ([n Hn] & [v Hv] & Hok & Hr). unfold valid_entry, entry_of_svr in Hok.
  unfold wire_entry, entry_of_svr. rewrite Hn, Hv in *. simpl in *. destruct Hok as [Hok Hsz].
  pose proof (encode_entry _ n (al_resc_str a) v (al_op a) (size_ok_uint _ _ _ _ Hsz) Hok) as He.
  unfold encode_svrattrl_item. rewrite Hn. unfold al_value_str in Hv. unfold al_resc_str in *.
  destruct Hok as [_ _ _ Hs Ho]. unfold size_ok, INT_MAX, UINT_MAX in *.
  pose proof (zlen_nonneg n). pose proof (zlen_nonneg v).
  destruct (al_value a) as [voff|]; [|done]. simpl in Hv. rewrite Hv.
  destruct (al_resc a) as [roff|]; simpl in *.
  - destruct Hr as [r Hr]; [by eexists|]. rewrite Hr in *. simpl in *. pose proof (zlen_nonneg r).
    eapply encodes_ext; [|exact He]. intros w. unfold st_bind at 1 2 3 4, st_lift, st_ret at 1 2 3 4.
    drop_wraps. by replace (zlen n + zlen v + 2 + zlen r + 1) with (zlen n + zlen v + 2 + (zlen r + 1)) by lia.
  - eapply encodes_ext; [|exact He]. intros w. unfold st_bind at 1 2 3, st_lift, st_ret at 1 2 3.
    drop_wraps. by rewrite Z.add_0_r.
Qed.

Lemma encode_DIS_svrattrl_encodes l :
  Forall valid_svr l -> zlen l <= UINT_MAX ->
  encodes (encode_DIS_svrattrl l) (wire_entries (map entry_of_svr l)) 0.
Proof. apply encode_list_encodes, encode_svrattrl_item_encodes. Qed.

Lemma decode_list_decodes {B} (item : M (Z * option B * bool)) (view : entry -> B) es :
  (forall e, valid_entry e -> decodes item (wire_entry e) (0, Some (view e), true)) ->
  valid_entries es ->
  decodes (let* (n, rc) := disrui in
           if negb (rc =? 0) then st_ret (rc, [], false) else read_n n item)
    (wire_entries es) (0, map view es, false).
Proof.
  intros Hi [Hes Hz]. unfold wire_entries. pose proof (zlen_nonneg es).
  eapply decodes_bind; [by apply disrui_decodes|]. cbn [Z.eqb negb].
  apply read_n_decodes. eapply Forall_impl; [|exact Hes].
  intros e He. split; [by apply wire_entry_nonempty|by apply Hi].
Qed.

Lemma decode_DIS_attrl_decodes es :
  valid_entries es -> decodes decode_DIS_attrl (wire_entries es) (0, map attrl_of es, false).
Proof.
  apply decode_list_decodes. intros e [He Hs].
  apply decode_attrl_item_decodes; [by eapply size_ok_uint|done].
Qed.

Lemma decode_DIS_attropl_decodes es :
  valid_entries es -> decodes decode_DIS_attropl (wire_entries es) (0, map attropl_of es, false).
Proof.
  apply decode_list_decodes. intros e [He Hs].
  apply decode_attropl_item_decodes; [by eapply size_ok_uint|done].
Qed.

Lemma decode_DIS_svrattrl_decodes es :
  valid_entries es -> decodes decode_DIS_svrattrl (wire_entries es) (0, map svrattrl_of es).
Proof.
  intros Hes. eapply decodes_ext.
  2: { eapply (decodes_last _ (fun r : Z * list svrattrl * bool => let '(rc, l, _) := r in st_ret (rc, l))
         _ (0, map svrattrl_of es, false)); [|done].
       apply (decode_list_decodes decode_svrattrl_item svrattrl_of es); [|done].
       intros e [He Hs]. by apply decode_svrattrl_item_decodes. }
  intros w. unfold decode_DIS_svrattrl, st_bind.
  destruct (disrui w) as [[n rc] w1| |]; [|done..]. by destruct (negb (rc =? 0)).
Qed.

End Lists.

(** ** Attribute lists from any peer *)

Section Hostile.
Context `{AllocOk}.

Lemma read_list_run {A} (item : M (Z * option A * bool)) (P : A -> Prop) :
  safe item (fun '(rc, x, _) => dis_code rc /\
       match x with Some a => rc = 0 /\ P a | None => rc <> 0 end)
    (fun '(_, x, _) => is_Some x) ->
  forall fuel n acc w, wf_read w -> (rmeasure w < fuel)%nat -> Forall P acc ->
  runs (read_list fuel n acc item) w (fun '(rc, l, _) w' =>
    rleq w w' /\ dis_code rc /\ Forall P l /\ (rc = 0 -> zlen l = zlen acc + Z.max 0 n)).
Proof.
  intros Hi. induction fuel as [|fuel IH]; intros n acc w Hw Hf Hacc; [lia|]. cbn [read_list].
  destruct (Z.ltb_spec 0 n).
  2: { split; [by apply rleq_refl|]. split; [done|]. split; [done|]. lia. }
  apply runs_bind. eapply runs_weaken; [by apply Hi|].
  intros [[rc x] fresh] w1 (Hle & [Hrc Hx] & Hm). destruct x as [a|].
  - destruct Hx as [-> Ha]. eapply runs_weaken; [apply IH|].
    + apply Hle.
    + assert (rmeasure w1 < rmeasure w)%nat by (apply Hm; eauto). lia.
    + apply Forall_app. by repeat constructor.
    + intros [[rc' l] d] w2 (Hle2 & Hrc2 & Hl & Hz). split; [by eapply rleq_trans|].
      split; [done|]. split; [done|]. intros ->. rewrite Hz, zlen_app by done.
      change (zlen [a]) with 1. lia.
  - split; [done|]. split; [done|]. by split.
Qed.

Lemma read_n_safe {A} (item : M (Z * option A * bool)) (P : A -> Prop) n :
  safe item (fun '(rc, x, _) => dis_code rc /\
       match x with Some a => rc = 0 /\ P a | None => rc <> 0 end)
    (fun '(_, x, _) => is_Some x) ->
  safe (read_n n item)
    (fun '(rc, l, _) => dis_code rc /\ Forall P l /\ (rc = 0 -> zlen l = Z.max 0 n)) (fun _ => False).
Proof.
  intros Hi w Hw. unfold read_n, runs. eapply runs_weaken; [by apply (read_list_run item P Hi); [|lia|]|].
  intros [[rc l] d] w' (Hle & Hrc & Hl & Hz). by split.
Qed.

(** The strings a decoder leaves in a list are C strings. *)
Definition clean (s : cptr) : Prop := exists v, s = Some v /\ nul_free v.
Definition clean_or_null (s : cptr) : Prop := s = None \/ clean s.

Lemma opt_resource_safe h :
  safe (if negb (i32 h =? 0) then disrst else st_ret (None, 0))
    (fun '(v, rc) => dis_code rc /\ (rc = 0 -> clean_or_null v)) (fun _ => False).
Proof.
  destruct (negb (i32 h =? 0)).
  - eapply safe_weaken; [apply disrst_safe| |done]. intros [[s|] rc] [? Hs]; split; try done.
    intros _. right. exists s. by destruct Hs.
  - apply safe_ret; [|tauto]. split; [done|]. by left.
Qed.

Lemma clean_disrst v rc :
  match v with Some s => rc = 0 /\ nul_free s | None => rc <> 0 end -> rc = 0 -> clean v.
Proof. destruct v as [s|]; [|done]. intros [_ ?] _. by exists s. Qed.

Lemma decode_attrl_item_safe :
  safe decode_attrl_item (fun '(rc, x, _) => dis_code rc /\ match x with
      | Some a => rc = 0 /\ clean (at_name a) /\ clean_or_null (at_resource a) /\ clean (at_value a)
      | None => rc <> 0 end) (fun '(_, x, _) => is_Some x).
Proof.
  unfold decode_attrl_item. safe_step. safe_step; [|by safe_step; [|intros [[] _]]].
  rewrite alloc_ok by (unfold ALLOC_MAX, SIZEOF_ATTRL; lia). cbn [negb].
  safe_step. safe_step; [|by safe_step; [|intros [[[] _] _]]].
  safe_step. safe_step; [|by safe_step; [|intros [[[[] _] _] _]]].
  eapply safe_bind; [apply opt_resource_safe|]. intros [r rc'] [? Hr].
  safe_step; [|by safe_step; [|tauto]].
  safe_step. safe_step; [|by safe_step; [|tauto]].
  safe_step. safe_step; [|by safe_step; [|tauto]].
  safe_step; [|tauto]. split; [done|]. split; [done|].
  split; [by eapply clean_disrst|]. split; [by apply Hr|by eapply clean_disrst].
Qed.

Lemma decode_attropl_item_safe :
  safe decode_attropl_item (fun '(rc, x, _) => dis_code rc /\ match x with
      | Some a => rc = 0 /\ clean (ao_name a) /\ clean_or_null (ao_resource a) /\ clean (ao_value a)
          /\ 0 <= ao_op a <= UINT_MAX
      | None => rc <> 0 end) (fun '(_, x, _) => is_Some x).
Proof.
  unfold decode_attropl_item. safe_step. safe_step; [|by safe_step; [|intros [[] _]]].
  rewrite alloc_ok by (unfold ALLOC_MAX, SIZEOF_ATTROPL; lia). cbn [negb].
  safe_step. safe_step; [|by safe_step; [|tauto]].
  safe_step. safe_step; [|by safe_step; [|tauto]].
  eapply safe_bind; [apply opt_resource_safe|]. intros [r rc'] [? Hr].
  safe_step; [|by safe_step; [|tauto]].
  safe_step. safe_step; [|by safe_step; [|tauto]].
  safe_step. safe_step; [|by safe_step; [|tauto]].
  safe_step; [|tauto]. split; [done|]. split; [done|].
  split; [by eapply clean_disrst|]. split; [by apply Hr|]. split; [by eapply clean_disrst|done].
Qed.

Lemma decode_DIS_attrl_safe :
  safe decode_DIS_attrl (fun '(rc, l, _) => dis_code rc /\
      Forall (fun a => clean (at_name a) /\ clean_or_null (at_resource a) /\ clean (at_value a)) l)
    (fun '(rc, _, _) => rc = 0).
Proof.
  unfold decode_DIS_attrl. safe_step. safe_step; [|by safe_step; [split|tauto]].
  eapply safe_weaken; [apply (read_n_safe decode_attrl_item _ _ decode_attrl_item_safe)|..].
  - intros [[rc l] d] (? & ? & _). by split.
  - intros [[rc l] d]. tauto.
Qed.

Lemma decode_DIS_attropl_safe :
  safe decode_DIS_attropl (fun '(rc, l, _) => dis_code rc /\
      Forall (fun a => clean (ao_name a) /\ clean_or_null (ao_resource a) /\ clean (ao_value a)
        /\ 0 <= ao_op a <= UINT_MAX) l)
    (fun '(rc, _, _) => rc = 0).
Proof.
  unfold decode_DIS_attropl. safe_step. safe_step; [|by safe_step; [split|tauto]].
  eapply safe_weaken; [apply (read_n_safe decode_attropl_item _ _ decode_attropl_item_safe)|..].
  - intros [[rc l] d] (? & ? & _). by split.
  - intros [[rc l] d]. tauto.
Qed.

(** An entry whose announced size is the length of its name. *)
Lemma decode_svrattrl_item_crashes n v op :
  n <> [] -> 2 <= zlen v -> zlen n < INT_MAX -> zlen v <= INT_MAX ->
  crashes decode_svrattrl_item (wire_attr (zlen n) n None v op).
Proof.
  intros Hne Hv Hn Hvm. unfold INT_MAX in *.
  assert (1 <= zlen n) by (destruct n; [done|rewrite zlen_cons; pose proof (zlen_nonneg n); lia]).
  unfold decode_svrattrl_item, wire_attr.
  eapply crashes_bind; [apply disrui_decodes; unfold UINT_MAX; lia|]. cbn [Z.eqb negb].
  destruct (Z.eqb_spec (zlen n) 0); [lia|]. rewrite alloc_ok by (unfold ALLOC_MAX, SIZEOF_SVRATTRL; lia).
  cbn [negb]. fold (zeros (zlen n + 2)).
  eapply crashes_bind; [apply (read_piece_decodes [] (zlen n + 2) (zlen n) n); unfold INT_MAX; lia|].
  cbn [Z.eqb negb app]. unfold wire_resource.
  eapply crashes_bind; [by apply disrui_decodes|]. cbn [Z.eqb negb].
  rewrite <- (app_nil_l (wire_str v ++ _)). eapply crashes_bind; [apply decodes_ret|]. cbn [Z.eqb negb].
  replace (u32 (u32 (zlen n - (zlen n + 1)) - 0)) with 4294967295
    by (replace (zlen n - (zlen n + 1)) with (-1) by lia; reflexivity).
  intros w rest Hw Hb Hf. rewrite <- app_assoc in Hf. revert Hf.
  apply crashes_first; [|done|done]. unfold read_piece. apply crashes_first.
  apply disrfcs_crashes; [lia| |unfold INT_MAX; lia].
  rewrite i32_small by lia. change (i32 0) with 0.
  rewrite !zlen_app, zlen_zeros by lia. change (zlen [c_nul]) with 1. lia.
Qed.

Lemma crashes_loop {A} (item : M (Z * option A * bool)) n bs :
  0 < n -> crashes item bs -> crashes (read_n n item) bs.
Proof.
  intros Hn Hi w rest Hw Hb Hf. unfold read_n. cbn [read_list].
  destruct (Z.ltb_spec 0 n); [|lia]. unfold st_bind. by rewrite (Hi w rest Hw Hb Hf).
Qed.

(** *** Termination of the server's decoder *)

Lemma rcommit_nz_ends locret :
  0 <= locret <= 12 -> ends (rcommit_nz locret) dis_code (fun _ => False).
Proof.
  intros Hl w Hw. rewrite rcommit_nz_eq by done.
  destruct (rcommit_ret_ok locret w Hw) as (w' & -> & Hw' & _ & Hf & Hr).
  split; [|by split]. split; [done|]. split; [done|]. destruct (locret =? 0); lia.
Qed.

Lemma gets_into_ends cap ct : 0 <= ct -> ends (gets_into cap ct) (fun _ => True) (fun _ => False).
Proof.
  intros Hc w Hw. unfold gets_into.
  destruct (gets_cases w ct Hw Hc) as (n & s & w' & E & [] & _).
  rewrite (st_bind_ret _ _ _ _ _ E). destruct (zlen s <=? cap); [|done].
  split; [|by split]. split; [done|]. split; [done|lia].
Qed.

Lemma disrfcs_ends cap achars :
  ends (disrfcs cap achars) (fun '(rc, _, _) => dis_code rc) (fun _ => False).
Proof.
  unfold disrfcs.
  eapply ends_bind with (P1 := fun '(rc, _, v) => dis_code rc /\ (rc = 0 -> 0 <= v)) (ok1 := fun _ => False).
  { intros w Hw. pose proof (disrsi__sound ind_negate 0 w Hw) as Hs. unfold runs in Hs.
    destruct (disrsi_ ind_negate 0 1 w) as [[[rc neg] v] w'| |]; [|done..].
    destruct (scanned_rleq _ _ _ _ _ _ _ _ Hs) as [Hle Hrc]. split; [done|]. split; [|done].
    split; [done|]. intros ->. destruct Hs as (bs & _ & _ & Hok).
    destruct (Hok eq_refl) as [Hn _]. apply numeral_value in Hn. lia. }
  intros [[rc neg] count] [Hrc Hv].
  eapply ends_bind with (P1 := fun '(rc, _) => dis_code rc) (ok1 := fun _ => False).
  - unfold DIS_SUCCESS. destruct (Z.eqb_spec rc 0) as [->|]; [|by apply ends_ret; [|tauto]].
    destruct neg; [by apply ends_ret; [|tauto]|].
    destruct (achars <? count); [by apply ends_ret; [|tauto]|].
    eapply ends_bind; [apply gets_into_ends; by apply Hv|]. intros [n s] _.
    apply ends_ret; [|tauto]. by destruct (negb (n =? i32 count)).
  - intros [rc' value] Hrc'. eapply ends_bind; [by apply rcommit_nz_ends|].
    intros rc'' Hrc''. by apply ends_ret; [|tauto].
Qed.

Lemma read_piece_ends data off dl :
  ends (read_piece data off dl) (fun '(rc, _, _) => dis_code rc) (fun _ => False).
Proof.
  unfold read_piece. eapply ends_bind; [apply disrfcs_ends|]. intros [[rc ls] s] Hrc.
  destruct (negb (rc =? 0)); [by apply ends_ret; [|tauto]|].
  eapply ends_bind; [by apply (ends_lift _ (fun _ => True))|]. intros d _.
  eapply ends_bind; [by apply (ends_lift _ (fun _ => True))|]. intros d' _.
  by apply ends_ret; [|tauto].
Qed.

Lemma decode_svrattrl_item_ends :
  ends decode_svrattrl_item (fun '(rc, x, _) => dis_code rc /\ (x = None -> rc <> 0))
    (fun '(_, x, _) => is_Some x).
Proof.
  unfold decode_svrattrl_item.
  eapply ends_bind; [apply safe_ends, disrui_safe|]. intros [dl rc] [Hrc Hdl]. cbv zeta.
  destruct (Z.eqb_spec rc 0) as [->|]; cbn [negb]; [|by apply ends_ret; [|intros [[] _]]].
  destruct (negb _); [by apply ends_ret; [|tauto]|].
  eapply ends_bind; [apply read_piece_ends|]. intros [[rc data] nl] Hrc1.
  destruct (Z.eqb_spec rc 0); cbn [negb]; [|by apply ends_ret; [|tauto]].
  eapply ends_bind; [apply safe_ends, disrui_safe|]. intros [h rc2] [Hrc2 _].
  destruct (Z.eqb_spec rc2 0); cbn [negb]; [|by apply ends_ret; [|tauto]].
  eapply ends_bind with (P1 := fun '(rc, _, _, _) => dis_code rc) (ok1 := fun _ => False).
  { destruct (negb (h =? 0)); [|by apply ends_ret; [|tauto]].
    eapply ends_bind; [apply read_piece_ends|]. intros [[? ?] ?] ?. by apply ends_ret; [|tauto]. }
  intros [[[rc3 data3] resc] rl] Hrc3.
  destruct (Z.eqb_spec rc3 0); cbn [negb]; [|by apply ends_ret; [|tauto]].
  eapply ends_bind; [apply read_piece_ends|]. intros [[rc4 data4] vl] Hrc4.
  destruct (Z.eqb_spec rc4 0); cbn [negb]; [|by apply ends_ret; [|tauto]].
  eapply ends_bind; [apply safe_ends, disrui_safe|]. intros [op rc5] [Hrc5 _].
  destruct (Z.eqb_spec rc5 0); cbn [negb]; by apply ends_ret; [|tauto].
Qed.

Lemma read_list_ends {A} (item : M (Z * option A * bool)) (P : Z -> Prop) :
  P 0 ->
  ends item (fun '(rc, x, _) => P rc) (fun '(_, x, _) => is_Some x) ->
  forall fuel n acc w, wf_read w -> (rmeasure w < fuel)%nat ->
  match read_list fuel n acc item w with
  | Ret (rc, _, _) w' => rleq w w' /\ P rc
  | UB => True
  | OutOfFuel => False
  end.
Proof.
  intros H0' Hi. induction fuel as [|fuel IH]; intros n acc w Hw Hf; [lia|]. cbn [read_list].
  destruct (Z.ltb_spec 0 n); [|by split; [apply rleq_refl|]].
  unfold st_bind. specialize (Hi w Hw). destruct (item w) as [[[rc x] fresh] w1| |]; [|done..].
  destruct Hi as (Hle & HP & Hm). destruct x as [a|]; [|done].
  assert (rmeasure w1 < rmeasure w)%nat by (apply Hm; eauto).
  specialize (IH (n - 1) (acc ++ [a]) w1 (proj1 Hle) ltac:(lia)).
  destruct (read_list _ _ _ _ w1) as [[[rc' l] d] w2| |]; [|done..].
  destruct IH as [Hle2 HP2]. split; [by eapply rleq_trans|done].
Qed.

Lemma read_n_ends {A} (item : M (Z * option A * bool)) (P : Z -> Prop) n :
  P 0 -> ends item (fun '(rc, x, _) => P rc) (fun '(_, x, _) => is_Some x) ->
  ends (read_n n item) (fun '(rc, _, _) => P rc) (fun _ => False).
Proof.
  intros HP Hi w Hw. unfold read_n.
  pose proof (read_list_ends item P HP Hi (S (rmeasure w)) n [] w Hw ltac:(lia)) as Hr.
  destruct (read_list _ _ _ _ w) as [[[rc l] d] w'| |]; [|done..]. by destruct Hr.
Qed.

Lemma decode_DIS_svrattrl_ends :
  ends decode_DIS_svrattrl (fun '(rc, _) => dis_code rc) (fun _ => False).
Proof.
  unfold decode_DIS_svrattrl. eapply ends_bind; [apply safe_ends, disrui_safe|].
  intros [n rc] [Hrc _]. destruct (Z.eqb_spec rc 0); cbn [negb]; [|by apply ends_ret; [|tauto]].
  eapply ends_bind.
  - apply (read_n_ends decode_svrattrl_item dis_code); [done|].
    eapply ends_weaken; [apply decode_svrattrl_item_ends| |done]. by intros [[? ?] ?] [? _].
  - intros [[rc' l] d] Hrc'. by apply ends_ret; [|tauto].
Qed.

End Hostile.

(** ** The attribute lists of the protocol *)

(** All three decoders read [bs] as the entries [es]: the client forms hold the
    strings, the server form holds them inside its block. *)
Definition read_by_all `{Platform} (bs : list Z) (es : list entry) : Prop :=
  decodes decode_DIS_attrl bs (0, map attrl_of es, false) /\
  decodes decode_DIS_attropl bs (0, map attropl_of es, false) /\
  exists l, decodes decode_DIS_svrattrl bs (0, l) /\
    map (fun a => (al_name_str a, al_resc_str a, al_value_str a, al_op a)) l =
    map (fun e => (Some (e_name e), e_resc e, Some (e_value e), e_op e)) es.

Section AttributeLists.
Context `{AllocOk}.

Lemma read_by_all_valid es : valid_entries es -> read_by_all (wire_entries es) es.
Proof.
  intros Hes. split; [by apply decode_DIS_attrl_decodes|]. split; [by apply decode_DIS_attropl_decodes|].
  exists (map svrattrl_of es). split; [by apply decode_DIS_svrattrl_decodes|].
  rewrite map_map. apply map_ext_in. intros e He.
  destruct (svr_of_strings (e_size e) (e_name e) (e_resc e) (e_value e) (e_op e)) as (Hn & Hr & Hv).
  { destruct Hes as [Hes _]. rewrite List.Forall_forall in Hes. by destruct (Hes e He). }
  unfold svrattrl_of. rewrite Hn, Hr, Hv. done.
Qed.

Lemma valid_list {A} (f : A -> entry) (P : A -> Prop) l :
  (forall a, P a -> valid_entry (f a)) -> Forall P l -> zlen l <= UINT_MAX ->
  valid_entries (map f l).
Proof.
  intros Hf Hl Hz. split; [|unfold zlen; by rewrite length_map].
  apply Forall_map. eapply Forall_impl; [|exact Hl]. done.
Qed.

(** C21: the three attribute list forms share one wire format: whatever list one of the
    three encoders writes, each of the three decoders reads as the same entries, in
    order, with names, resources, values and operations intact ([attrl] lists carry the
    operation [SET]). *)
Theorem attribute_lists_interoperate :
  (forall l, Forall valid_attrl l -> zlen l <= UINT_MAX ->
     exists bs, encodes (encode_DIS_attrl l) bs 0 /\ read_by_all bs (map entry_of_attrl l)) /\
  (forall l, Forall valid_attropl l -> zlen l <= UINT_MAX ->
     exists bs, encodes (encode_DIS_attropl l) bs 0 /\ read_by_all bs (map entry_of_attropl l)) /\
  (forall l, Forall valid_svr l -> zlen l <= UINT_MAX ->
     exists bs, encodes (encode_DIS_svrattrl l) bs 0 /\ read_by_all bs (map entry_of_svr l)).
Proof.
  split; [|split]; intros l Hl Hz; eexists; split.
  - by apply encode_DIS_attrl_encodes.
  - apply read_by_all_valid, (valid_list _ valid_attrl); [by intros a [_ ?]|done|done].
  - by apply encode_DIS_attropl_encodes.
  - apply read_by_all_valid, (valid_list _ valid_attropl); [by intros a [_ ?]|done|done].
  - by apply encode_DIS_svrattrl_encodes.
  - apply read_by_all_valid, (valid_list _ valid_svr); [by intros a (_ & _ & ? & _)|done|done].
Qed.

(** the client decoders are safe on any input: they return a Libdis code without
    leaving their blocks, every entry of the list they build holds C strings, and
    success has consumed input. *)
Theorem client_lists_safe :
  safe decode_DIS_attrl (fun '(rc, l, _) => dis_code rc /\
      Forall (fun a => clean (at_name a) /\ clean_or_null (at_resource a) /\ clean (at_value a)) l)
    (fun '(rc, _, _) => rc = 0) /\
  safe decode_DIS_attropl (fun '(rc, l, _) => dis_code rc /\
      Forall (fun a => clean (ao_name a) /\ clean_or_null (ao_resource a) /\ clean (ao_value a)
        /\ 0 <= ao_op a <= UINT_MAX) l)
    (fun '(rc, _, _) => rc = 0).
Proof. split; [apply decode_DIS_attrl_safe|apply decode_DIS_attropl_safe]. Qed.

(** the server's decoder subtracts each string and its NUL from the announced size
    without checking it, so an entry whose announced size is the length of its name
    makes the remaining room wrap to [UINT_MAX] and its value is stored past the
    allocated block. *)
Theorem decode_svrattrl_overruns n v op count :
  n <> [] -> 2 <= zlen v -> zlen n < INT_MAX -> zlen v <= INT_MAX -> 1 <= count <= UINT_MAX ->
  crashes decode_DIS_svrattrl (wire_num c_plus count ++ wire_attr (zlen n) n None v op).
Proof.
  intros Hne Hv Hn Hvm Hc. unfold decode_DIS_svrattrl.
  eapply crashes_bind; [apply disrui_decodes; lia|]. cbn [Z.eqb negb].
  apply crashes_first, crashes_loop; [lia|]. by apply decode_svrattrl_item_crashes.
Qed.

(** [encode_DIS_attropl] announces every entry of the list but writes only the named
    ones: the count on the wire is too large by the number of entries without a name. *)
Theorem encode_attropl_skips_unnamed l :
  Forall (fun a => ao_name a = None \/ valid_attropl a) l -> zlen l <= UINT_MAX ->
  encodes (encode_DIS_attropl l)
    (wire_num c_plus (zlen l) ++
     concat (map wire_entry (map entry_of_attropl
       (filter (fun a => is_Some (ao_name a)) l)))) 0.
Proof.
  intros Hl Hz. unfold encode_DIS_attropl. pose proof (zlen_nonneg l). unfold UINT_MAX in Hz.
  rewrite u32_small by lia. apply encodes_seq; [apply diswui_encodes; unfold UINT_MAX; lia|].
  clear Hz. induction Hl as [|a l Ha Hl IH]; [apply encodes_ret|]. cbn [encode_each].
  specialize (IH (zlen_nonneg l)). destruct (ao_name a) as [n|] eqn:En.
  - rewrite filter_cons_True by (by rewrite En). cbn [map concat]. apply encodes_seq; [|done].
    destruct Ha as [|[Hn [Hok _]]]; [done|]. by apply encode_attropl_item_encodes.
  - rewrite filter_cons_False by (rewrite En; apply is_Some_None).
    unfold encode_attropl_item. rewrite En. rewrite <- (app_nil_l (concat _)).
    apply encodes_seq; [apply encodes_ret|done].
Qed.

End AttributeLists.

Section AttributeWitnesses.
#[local] Existing Instance generous.
#[local] Existing Instance generous_ok.
Import Sample.

(** when the size field of a later entry does not parse, [decode_DIS_attrl] frees the
    node it linked last: the list it hands back ends in freed memory.  Here the second of
    two announced entries is the character [x]. *)
Theorem decode_attrl_frees_linked_node :
  exists w', decode_DIS_attrl
      (sample [RdData (wire_num c_plus 2 ++ wire_attr 4 [97] None [98] SET ++ [120])] [])
    = Ret (DIS_NONDIGIT, [mk_attrl (Some [97]) None (Some [98])], true) w'.
Proof. eexists. vm_compute. reflexivity. Qed.

Definition queue_attr : attropl := mk_attropl (Some [113]) (Some [109]) None 2.

Lemma queue_attr_valid : valid_attropl queue_attr.
Proof.
  split; [by eexists|]. split; [constructor|]; simpl.
  - repeat constructor; discriminate.
  - intros s [= <-]. repeat constructor; discriminate.
  - constructor.
  - vm_compute. discriminate.
  - vm_compute. split; discriminate.
  - vm_compute. split; discriminate.
Qed.

Lemma attribute_lists_interoperate_witness :
  exists bs, encodes (encode_DIS_attropl [queue_attr]) bs 0 /\
    decodes decode_DIS_attrl bs (0, [mk_attrl (Some [113]) (Some [109]) (Some [])], false).
Proof.
  destruct (proj1 (proj2 attribute_lists_interoperate) [queue_attr]) as (bs & He & Hd & _);
    [constructor; [apply queue_attr_valid|constructor]|vm_compute; discriminate|].
  exists bs. split; [exact He|exact Hd].
Defined.

(** A list announced with one entry whose size is not a number: ["+1x"]. *)
Lemma client_lists_safe_witness :
  exists rc l rest w', decode_DIS_attrl (sample [RdData [43;49;120]] []) = Ret (rc, l, rest) w'
    /\ rc = DIS_NONDIGIT /\ l = [] /\ rleq (sample [RdData [43;49;120]] []) w'.
Proof.
  destruct (runs_inv _ _ _ (proj1 client_lists_safe (sample [RdData [43;49;120]] [])
    ltac:(apply sample_read; reflexivity))) as ([[rc l] rest] & w' & Ed & Hle & _).
  assert (Hv : match decode_DIS_attrl (sample [RdData [43;49;120]] []) with
               | Ret (rc, l, _) _ => Some (rc, l) | _ => None end = Some (DIS_NONDIGIT, []))
    by (vm_compute; reflexivity).
  rewrite Ed in Hv. injection Hv as -> ->. exists DIS_NONDIGIT, [], rest, w'.
  split; [exact Ed|]. split; [reflexivity|]. split; [reflexivity|exact Hle].
Defined.

Lemma decode_svrattrl_overruns_witness :
  decode_DIS_svrattrl (sample [RdData (wire_num c_plus 1 ++ wire_attr 1 [97] None [98;99] 0)] []) = UB.
Proof.
  apply (decode_svrattrl_overruns [97] [98;99] 0 1) with (rest := []);
    [discriminate|vm_compute; discriminate|reflexivity|vm_compute; discriminate|
     vm_compute; split; discriminate|apply sample_read; vm_compute; reflexivity|reflexivity|reflexivity].
Defined.

Lemma encode_attropl_skips_unnamed_witness :
  encodes (encode_DIS_attropl [mk_attropl None None None 0; queue_attr])
    (wire_num c_plus 2 ++ wire_entry (entry_of_attropl queue_attr) ++ []) 0.
Proof.
  apply (encode_attropl_skips_unnamed [mk_attropl None None None 0; queue_attr]);
    [|vm_compute; discriminate].
  constructor; [left; reflexivity|]. constructor; [right; apply queue_attr_valid|constructor].
Defined.

End AttributeWitnesses.
