(* ===== verification/AttrVal.v ===== *)
(** * Attribute values (src/src/lib/Libattr/attr_fn_{b,c,l,ll,size,time,hold}.c, attr_func.c)

    An attribute has a value and flags; an attribute definition names it and points
    at the functions that decode its value from a string, encode it, set it from
    another value, compare and free it.  This file holds the types without memory of
    their own.  [None] is undefined behaviour: a failed [assert], a signed overflow, an
    access outside a block. *)

From S2P Require Import Prelude CLib TcpDis Codec DisInt DisStr Attrs.
From stdpp Require Import base list numbers option.

Local Open Scope Z_scope.

Definition PBSE_INTERNAL : Z := 15013.
Definition PBSE_BADATVAL : Z := 15016.

Definition UNSET : Z := 1.
Definition INCR : Z := 2.
Definition DECR : Z := 3.
Definition INCR_OLD : Z := 12.

Definition ATR_VFLAG_SET : Z := 1.
Definition ATR_VFLAG_MODIFY : Z := 2.

Definition ATR_SV_BYTESZ : Z := 0.
Definition ATR_SV_WORDSZ : Z := 1.

Definition HOLD_n : Z := 0.
Definition HOLD_u : Z := 1.
Definition HOLD_o : Z := 2.
Definition HOLD_s : Z := 4.
Definition HOLD_a : Z := 8.
Definition HOLD_l : Z := 16.
Definition HOLD_ENCODE_SIZE : Z := 3.

Definition ENCODE_L_BUF_SIZE : Z := 21.
Definition ENCODE_SIZE_SIZE : Z := 23.
Definition ENCODE_TIME_SIZE : Z := 21.
Definition MAXLONGLEN : Z := 33.
Definition MAX_VAL_LEN : nat := 10.
Definition PBS_MAX_TIME : Z := LONG_MAX - 1.

(** ** Data *)

(** [unsigned long], 8 bits and 1 bit. *)
Record size_value := mk_size_value { atsv_num : Z; atsv_shift : Z; atsv_units : Z }.

(** The union of the scalar types.  [at_size] is the largest of them; [at_long],
    [at_ll], [at_char] and [at_bool] lie over the low bytes of [atsv_num]. *)
Definition attr_val : Type := size_value.

Definition at_long (v : attr_val) : Z := i64 (atsv_num v).
Definition at_ll (v : attr_val) : Z := i64 (atsv_num v).
Definition at_char (v : attr_val) : Z := i8 (atsv_num v).
Definition at_bool (v : attr_val) : bool := negb (u8 (atsv_num v) =? 0).

Definition put_long (x : Z) (v : attr_val) : attr_val :=
  mk_size_value (u64 x) (atsv_shift v) (atsv_units v).
Definition put_byte (x : Z) (v : attr_val) : attr_val :=
  mk_size_value (atsv_num v - u8 (atsv_num v) + u8 x) (atsv_shift v) (atsv_units v).
Definition put_bool (b : bool) (v : attr_val) : attr_val := put_byte (if b then 1 else 0) v.

(** [struct pbs_attribute], with the member of the union its type uses. *)
Record attribute (V : Type) := mk_attribute { at_flags : Z; at_type : Z; at_val : V }.
Arguments mk_attribute {V}.
Arguments at_flags {V}.
Arguments at_type {V}.
Arguments at_val {V}.

Notation pbs_attribute := (attribute attr_val).
Notation mk_pbs_attribute := (@mk_attribute attr_val).

Definition is_set {V} (a : attribute V) : bool := negb (Z.land (at_flags a) ATR_VFLAG_SET =? 0).
Definition is_modified {V} (a : attribute V) : bool := negb (Z.land (at_flags a) ATR_VFLAG_MODIFY =? 0).

(** [at_flags |= ATR_VFLAG_SET | ATR_VFLAG_MODIFY] and
    [at_flags = (at_flags & ~ATR_VFLAG_SET) | ATR_VFLAG_MODIFY], with the new value. *)
Definition now_set {V} (a : attribute V) (v : V) : attribute V :=
  mk_attribute (Z.lor (at_flags a) (Z.lor ATR_VFLAG_SET ATR_VFLAG_MODIFY)) (at_type a) v.
Definition now_unset {V} (a : attribute V) (v : V) : attribute V :=
  mk_attribute (Z.lor (Z.ldiff (at_flags a) ATR_VFLAG_SET) ATR_VFLAG_MODIFY) (at_type a) v.
Definition with_val {V} (a : attribute V) (v : V) : attribute V :=
  mk_attribute (at_flags a) (at_type a) v.

(** The functions of a definition.  The name and resource arguments of the decoders and
    the mode and permission arguments of the encoders are unused by these types. *)
Definition decoder (V : Type) : Type := attribute V -> cptr -> option (Z * attribute V).
Definition encoder (V : Type) : Type :=
  attribute V -> list svrattrl -> list Z -> cptr -> option (Z * list svrattrl).
Definition setter (V : Type) : Type := attribute V -> attribute V -> Z -> option (Z * attribute V).
Definition comparer (V : Type) : Type := attribute V -> attribute V -> Z.

Definition no_value (val : cptr) : bool := match val with None | Some [] => true | _ => false end.

(** [assert(new_attr->at_flags & ATR_VFLAG_SET)] in front of a setter. *)
Definition assert_set {V} (new_attr : attribute V) {A} (k : option A) : option A :=
  if is_set new_attr then k else None.

(** Signed [long] arithmetic: undefined when the result does not fit. *)
Definition long_result (z : Z) : option Z :=
  if (LONG_MIN <=? z) && (z <=? LONG_MAX) then Some z else None.

(** [sprintf] into a buffer of [cap] characters. *)
Definition sprintf_into (cap : Z) (text : list Z) : option (list Z) :=
  if zlen text <? cap then Some text else None.

Section Ops.
Context `{Platform}.

(** ** List entries (attr_func.c) *)

(** [None] is the NULL of a failed allocation. *)
Definition attrlist_alloc (szname szresc szval : Z) : option svrattrl :=
  let tsize := SIZEOF_SVRATTRL + szname + szresc + szval in
  if calloc_ok tsize then
    Some (mk_svrattrl (i32 tsize) szname szresc szval 0
            (if 0 <? szresc then Some szname else None) (Some (szname + szresc)) SET
            (replicate (Z.to_nat (szname + szresc + szval)) c_nul))
  else None.

(** The entry is written to without a test for NULL. *)
Definition attrlist_create (aname : list Z) (rname : cptr) (vsize : Z) : option svrattrl :=
  let asz := zlen aname + 1 in
  let rsz := match rname with None => 0 | Some r => zlen r + 1 end in
  pal ← attrlist_alloc (i32 asz) (i32 rsz) vsize;
  data ← mem_write (al_data pal) 0 (aname ++ [c_nul]);
  data ← match rname, al_resc pal with
         | Some r, Some off => mem_write data off (r ++ [c_nul])
         | _, _ => Some data
         end;
  Some (mk_svrattrl (al_tsize pal) (al_nameln pal) (al_rescln pal) (al_valln pal) (al_flags pal)
          (al_resc pal) (al_value pal) (al_op pal) data).

(** The end of every encoder: an entry with room for [vsize] value bytes, the value
    copied into it, the flags of the attribute, linked at the end of the list. *)
Definition append_entry {V} (attr : attribute V) (phead : list svrattrl) (atname : list Z)
    (rsname : cptr) (vsize : Z) (value : list Z) : option (Z * list svrattrl) :=
  pal ← attrlist_create atname rsname vsize;
  off ← al_value pal;
  data ← mem_write (al_data pal) off value;
  Some (1, phead ++ [mk_svrattrl (al_tsize pal) (al_nameln pal) (al_rescln pal) (al_valln pal)
                       (at_flags attr) (al_resc pal) (al_value pal) (al_op pal) data]).

(** ** Long integers (attr_fn_l.c, attr_fn_ll.c) *)

(** An optional sign and nothing but digits. *)
Definition long_syntax (s : list Z) : bool :=
  let pc := match s with c :: t => if (c =? c_plus) || (c =? c_minus) then t else s | [] => s end in
  forallb is_digit pc.

Definition decode_l : decoder attr_val := fun patr val =>
  match val with
  | Some (c :: s) =>
      if negb (long_syntax (c :: s)) then Some (PBSE_BADATVAL, patr)
      else Some (0, now_set patr (put_long (atol (c :: s)) (at_val patr)))
  | _ => Some (0, now_unset patr (put_long 0 (at_val patr)))
  end.

Definition encode_l : encoder attr_val := fun attr phead atname rsname =>
  if negb (is_set attr) then Some (0, phead)
  else
    cvnbuf ← sprintf_into ENCODE_L_BUF_SIZE (print_d (at_long (at_val attr)));
    append_entry attr phead atname rsname (zlen cvnbuf + 1) cvnbuf.

Definition set_l : setter attr_val := fun attr new_attr op =>
  assert_set new_attr
    (if op =? SET then
       Some (0, now_set attr (put_long (at_long (at_val new_attr)) (at_val attr)))
     else if op =? INCR then
       z ← long_result (at_long (at_val attr) + at_long (at_val new_attr));
       Some (0, now_set attr (put_long z (at_val attr)))
     else if op =? DECR then
       z ← long_result (at_long (at_val attr) - at_long (at_val new_attr));
       Some (0, now_set attr (put_long z (at_val attr)))
     else Some (PBSE_INTERNAL, attr)).

Definition comp_l : comparer attr_val := fun attr wth =>
  if at_long (at_val attr) <? at_long (at_val wth) then -1
  else if at_long (at_val wth) <? at_long (at_val attr) then 1 else 0.

(** The value is stored before the bounds are tested. *)
Definition decode_ll : decoder attr_val := fun patr val =>
  match val with
  | Some (c :: s) =>
      let v := put_long (atol (c :: s)) (at_val patr) in
      if (at_ll v =? LONG_MIN) || (at_ll v =? LONG_MAX) then Some (PBSE_BADATVAL, with_val patr v)
      else Some (0, now_set patr v)
  | _ => Some (0, now_unset patr (put_long 0 (at_val patr)))
  end.

Definition encode_ll : encoder attr_val := fun attr phead atname rsname =>
  if negb (is_set attr) then Some (0, phead)
  else
    let cvn := take (Z.to_nat (MAXLONGLEN - 1)) (print_d (at_ll (at_val attr))) in
    append_entry attr phead atname rsname (zlen cvn + 1) cvn.

Definition set_ll : setter attr_val := fun attr new_attr op =>
  assert_set new_attr
    (if op =? SET then
       Some (0, now_set attr (put_long (at_ll (at_val new_attr)) (at_val attr)))
     else if op =? INCR then
       z ← long_result (at_ll (at_val attr) + at_ll (at_val new_attr));
       Some (0, now_set attr (put_long z (at_val attr)))
     else if op =? DECR then
       z ← long_result (at_ll (at_val attr) - at_ll (at_val new_attr));
       Some (0, now_set attr (put_long z (at_val attr)))
     else Some (PBSE_INTERNAL, attr)).

Definition comp_ll : comparer attr_val := fun attr wth =>
  if at_ll (at_val attr) <? at_ll (at_val wth) then -1
  else if at_ll (at_val wth) <? at_ll (at_val attr) then 1 else 0.

(** ** Characters (attr_fn_c.c) *)

Definition decode_c : decoder attr_val := fun patr val =>
  match val with
  | Some (c :: _) => Some (0, now_set patr (put_byte c (at_val patr)))
  | _ => Some (0, now_unset patr (put_byte 0 (at_val patr)))
  end.

Definition encode_c : encoder attr_val := fun attr phead atname rsname =>
  if negb (is_set attr) then Some (0, phead)
  else append_entry attr phead atname rsname 2 [at_char (at_val attr)].

Definition set_c : setter attr_val := fun attr new_attr op =>
  assert_set new_attr
    (let a := at_char (at_val attr) in
     let b := at_char (at_val new_attr) in
     if op =? SET then Some (0, now_set attr (put_byte b (at_val attr)))
     else if op =? INCR then Some (0, now_set attr (put_byte (a + b) (at_val attr)))
     else if op =? DECR then Some (0, now_set attr (put_byte (a - b) (at_val attr)))
     else Some (PBSE_INTERNAL, attr)).

Definition comp_c : comparer attr_val := fun attr wth =>
  if at_char (at_val attr) <? at_char (at_val wth) then -1
  else if at_char (at_val wth) <? at_char (at_val attr) then 1 else 0.

(** ** Booleans (attr_fn_b.c) *)

(** ["True"], ["False"] and the spellings that are compared with. *)
Definition ATR_TRUE : list Z := [84;114;117;101].
Definition ATR_FALSE : list Z := [70;97;108;115;101].
Definition true_words : list (list Z) :=
  [ATR_TRUE; [84;82;85;69]; [116;114;117;101]; [116]; [84]; [49]; [121]; [89]].
Definition false_words : list (list Z) :=
  [ATR_FALSE; [70;65;76;83;69]; [102;97;108;115;101]; [102]; [70]; [48]; [110]; [78]].

Definition decode_b : decoder attr_val := fun patr val =>
  match val with
  | Some (c :: s) =>
      let ucVal := map toupper (take MAX_VAL_LEN (c :: s)) in
      if existsb (str_eq ucVal) true_words then Some (0, now_set patr (put_bool true (at_val patr)))
      else if existsb (str_eq ucVal) false_words then Some (0, now_set patr (put_bool false (at_val patr)))
      else Some (PBSE_BADATVAL, patr)
  | _ => Some (0, now_unset patr (put_bool false (at_val patr)))
  end.

Definition encode_b : encoder attr_val := fun attr phead atname rsname =>
  if negb (is_set attr) then Some (0, phead)
  else
    let value := if at_bool (at_val attr) then ATR_TRUE else ATR_FALSE in
    append_entry attr phead atname rsname (zlen value + 1) value.

Definition set_b : setter attr_val := fun attr new_attr op =>
  assert_set new_attr
    (let a := at_bool (at_val attr) in
     let b := at_bool (at_val new_attr) in
     if op =? SET then Some (0, now_set attr (put_bool b (at_val attr)))
     else if op =? INCR then Some (0, now_set attr (put_bool (a || b) (at_val attr)))
     else if op =? DECR then Some (0, now_set attr (put_bool (a && negb b) (at_val attr)))
     else Some (PBSE_INTERNAL, attr)).

Definition comp_b : comparer attr_val := fun attr wth =>
  if eqb (at_bool (at_val attr)) (at_bool (at_val wth)) then 0 else 1.

(** ** Holds (attr_fn_hold.c) *)

(** The bit of a hold letter. *)
Definition hold_bit (c : Z) : option Z :=
  if c =? 117 then Some HOLD_u else if c =? 111 then Some HOLD_o else if c =? 115 then Some HOLD_s
  else if c =? 97 then Some HOLD_a else if c =? 108 then Some HOLD_l else None.

Fixpoint hold_loop (s : list Z) (v : Z) : Z * Z :=
  match s with
  | [] => (0, v)
  | c :: s' =>
      if c =? 110 then hold_loop s' HOLD_n
      else match hold_bit c with
           | Some b => hold_loop s' (Z.lor v b)
           | None => (PBSE_BADATVAL, v)
           end
  end.

Definition decode_hold : decoder attr_val := fun patr val =>
  match val with
  | Some (c :: s) =>
      let '(rc, v) := hold_loop (c :: s) 0 in
      if rc =? 0 then Some (0, now_set patr (put_long v (at_val patr)))
      else Some (rc, with_val patr (put_long v (at_val patr)))
  | _ => Some (0, now_unset patr (put_long 0 (at_val patr)))
  end.

Definition hold_letters (v : Z) : list Z :=
  if v =? 0 then [110]
  else
    (if negb (Z.land v HOLD_s =? 0) then [115] else []) ++
    (if negb (Z.land v HOLD_o =? 0) then [111] else []) ++
    (if negb (Z.land v HOLD_u =? 0) then [117] else []) ++
    (if negb (Z.land v HOLD_a =? 0) then [97] else []) ++
    (if negb (Z.land v HOLD_l =? 0) then [108] else []).

Definition encode_hold : encoder attr_val := fun attr phead atname rsname =>
  if negb (is_set attr) then Some (0, phead)
  else append_entry attr phead atname rsname (HOLD_ENCODE_SIZE + 1) (hold_letters (at_long (at_val attr))).

Definition set_hold : setter attr_val := fun attr new_attr op =>
  assert_set new_attr
    (let a := at_long (at_val attr) in
     let b := at_long (at_val new_attr) in
     if op =? SET then Some (0, now_set attr (put_long b (at_val attr)))
     else if op =? INCR then Some (0, now_set attr (put_long (Z.lor a b) (at_val attr)))
     else if op =? DECR then Some (0, now_set attr (put_long (Z.land a (Z.lnot b)) (at_val attr)))
     else Some (PBSE_INTERNAL, attr)).

Definition comp_hold : comparer attr_val := fun attr wth =>
  if at_long (at_val attr) =? at_long (at_val wth) then 0 else 1.

(** ** Sizes (attr_fn_size.c) *)

Definition normalize_units (a b : size_value) : size_value * size_value :=
  if (atsv_units a =? ATR_SV_WORDSZ) && negb (atsv_units b =? ATR_SV_WORDSZ) then
    (mk_size_value (u64 (atsv_num a * 4)) (atsv_shift a) ATR_SV_BYTESZ, b)
  else if negb (atsv_units a =? ATR_SV_WORDSZ) && (atsv_units b =? ATR_SV_WORDSZ) then
    (a, mk_size_value (u64 (atsv_num b * 4)) (atsv_shift b) ATR_SV_BYTESZ)
  else (a, b).

(** [((num << adj) >> adj) != num] on [unsigned long]. *)
Definition shift_loses (num adj : Z) : bool :=
  negb (Z.shiftr (u64 (Z.shiftl num adj)) adj =? num).

(** The code and the two adjusted copies. *)
Definition normalize_size (a b : size_value) : Z * size_value * size_value :=
  let '(ta, tb) := normalize_units a b in
  let adj := atsv_shift ta - atsv_shift tb in
  if 0 <? adj then
    if (32 <? adj) || shift_loses (atsv_num ta) adj then (-1, ta, tb)
    else (0, mk_size_value (u64 (Z.shiftl (atsv_num ta) adj)) (atsv_shift tb) (atsv_units ta), tb)
  else if adj <? 0 then
    if (32 <? - adj) || shift_loses (atsv_num tb) (- adj) then (-1, ta, tb)
    else (0, ta, mk_size_value (u64 (Z.shiftl (atsv_num tb) (- adj))) (atsv_shift ta) (atsv_units tb))
  else (0, ta, tb).

(** The shift of a suffix letter. *)
Definition size_suffix (c : Z) : option Z :=
  if is_case c [107; 75] then Some 10 else if is_case c [109; 77] then Some 20
  else if is_case c [103; 71] then Some 30 else if is_case c [116; 84] then Some 40
  else if is_case c [112; 80] then Some 50 else if is_case c [101; 69] then Some 60 else None.

(** [to_size], from the end of the number on. *)
Definition size_units (psize : size_value) (pc : list Z) : Z * size_value :=
  match pc with
  | [] => (PBSE_NONE, psize)
  | c :: _ =>
      if is_case c [98; 66] then (PBSE_NONE, psize)
      else if is_case c [119; 87] then
        (PBSE_NONE, mk_size_value (atsv_num psize) (atsv_shift psize) ATR_SV_WORDSZ)
      else (PBSE_BADATVAL, psize)
  end.

Definition to_size (val : list Z) (psize : size_value) : Z * size_value :=
  let '(n, pc) := strtol val 0 in
  let psize := mk_size_value (u64 n) (atsv_shift psize) ATR_SV_BYTESZ in
  match pc with
  | None => (PBSE_BADATVAL, psize)
  | Some [] => (PBSE_NONE, mk_size_value (atsv_num psize) 0 (atsv_units psize))
  | Some (c :: pc) =>
      match size_suffix c with
      | Some sh => size_units (mk_size_value (atsv_num psize) sh (atsv_units psize)) pc
      | None =>
          if is_case c [98; 66] then
            (match pc with [] => PBSE_NONE | _ => PBSE_BADATVAL end, psize)
          else if is_case c [119; 87] then
            (match pc with [] => PBSE_NONE | _ => PBSE_BADATVAL end,
             mk_size_value (atsv_num psize) (atsv_shift psize) ATR_SV_WORDSZ)
          else (PBSE_BADATVAL, psize)
      end
  end.

Definition from_size (psize : size_value) : list Z :=
  print_u (atsv_num psize) ++
  (if atsv_shift psize =? 10 then [107] else if atsv_shift psize =? 20 then [109]
   else if atsv_shift psize =? 30 then [103] else if atsv_shift psize =? 40 then [116]
   else if atsv_shift psize =? 50 then [112] else []) ++
  (if negb (Z.land (atsv_units psize) ATR_SV_WORDSZ =? 0) then [119] else [98]).

(** ["kb"], ["mb"], ..., ["eb"] behind the number. *)
Definition create_size_string (values : size_value) : list Z :=
  print_u (atsv_num values) ++
  (if atsv_shift values =? 10 then [107;98] else if atsv_shift values =? 20 then [109;98]
   else if atsv_shift values =? 30 then [103;98] else if atsv_shift values =? 40 then [116;98]
   else if atsv_shift values =? 50 then [112;98] else if atsv_shift values =? 60 then [101;98] else []).

Definition decode_size : decoder attr_val := fun patr val =>
  let zero := mk_size_value 0 0 (atsv_units (at_val patr)) in
  match val with
  | Some (c :: s) =>
      let '(rc, v) := to_size (c :: s) zero in
      if negb (rc =? 0) then Some (PBSE_BADATVAL, with_val patr v)
      else Some (0, now_set patr v)
  | _ => Some (0, now_unset patr zero)
  end.

Definition encode_size : encoder attr_val := fun attr phead atname rsname =>
  if negb (is_set attr) then Some (0, phead)
  else
    cvnbuf ← sprintf_into ENCODE_SIZE_SIZE (from_size (at_val attr));
    append_entry attr phead atname rsname (zlen cvnbuf + 1) cvnbuf.

Definition set_size : setter attr_val := fun attr new_attr op =>
  assert_set new_attr
    (if op =? SET then Some (0, now_set attr (at_val new_attr))
     else if (op =? INCR) || (op =? DECR) then
       let '(rc, tmpa, tmpn) := normalize_size (at_val attr) (at_val new_attr) in
       if rc <? 0 then Some (PBSE_BADATVAL, attr)
       else
         let old := atsv_num tmpa in
         let num := u64 (if op =? INCR then old + atsv_num tmpn else old - atsv_num tmpn) in
         if (if op =? INCR then num <? old else old <? num) then Some (PBSE_BADATVAL, attr)
         else Some (0, now_set attr (mk_size_value num (atsv_shift tmpa) (atsv_units tmpa)))
     else Some (PBSE_INTERNAL, attr)).

Definition comp_size : comparer attr_val := fun attr wth =>
  let '(rc, tmpa, tmpw) := normalize_size (at_val attr) (at_val wth) in
  if negb (rc =? 0) then
    if atsv_shift tmpw <? atsv_shift tmpa then 1
    else if atsv_shift tmpa <? atsv_shift tmpw then -1 else 0
  else if atsv_num tmpw <? atsv_num tmpa then 1
  else if atsv_num tmpa <? atsv_num tmpw then -1 else 0.

(** ** Times (attr_fn_time.c) *)

Definition c_colon : Z := 58.
Definition c_dot : Z := 46.

Definition colons (s : list Z) : Z := zlen (filter (fun c => c = c_colon) s).

(** [atoi] of the milliseconds: three characters after the point, ["0"] where there is
    none. *)
Definition msecs (s : list Z) : Z := atoi (take 3 (s ++ [c_0; c_0; c_0])).

(** The second loop of [decode_time] and what follows it: [work] is the field read so
    far.  The days are multiplied in [int]. *)
Definition time_end (work : list Z) (days rv ms : Z) : option (Z * Z) :=
  let rv := rv * 60 + atoi work in
  rv ← (if 0 <? days then if days * 86400 <=? INT_MAX then Some (rv + days * 86400) else None
        else Some rv);
  if PBS_MAX_TIME <? rv then Some (PBSE_BADATVAL, 0)
  else Some (0, if 500 <=? ms then rv + 1 else rv).

Fixpoint time_loop (pc work : list Z) (use_days : bool) (days rv : Z) : option (Z * Z) :=
  match pc with
  | [] => time_end work days rv 0
  | c :: pc' =>
      if c =? c_colon then
        if use_days then time_loop pc' [] false (atoi work) rv
        else time_loop pc' [] false days (rv * 60 + atoi work)
      else if c =? c_dot then time_end work days rv (msecs pc')
      else if negb (is_digit c) then Some (PBSE_BADATVAL, 0)
      else time_loop pc' (work ++ [c]) use_days days rv
  end.

Definition decode_time : decoder attr_val := fun patr val =>
  match val with
  | Some (c :: s) =>
      if negb (calloc_ok (zlen (c :: s) + 1)) then Some (PBSE_BADATVAL, patr)
      else if 3 <? colons (c :: s) then Some (PBSE_BADATVAL, patr)
      else
        r ← time_loop (c :: s) [] (2 <? colons (c :: s)) 0 0;
        let '(rc, rv) := r in
        if negb (rc =? 0) then Some (rc, patr)
        else Some (0, now_set patr (put_long rv (at_val patr)))
  | _ => Some (0, now_unset patr (put_long 0 (at_val patr)))
  end.

(** ["%02d:%02d:%02d"], cut to the size of the buffer. *)
Definition get_time_string (string_size timeval : Z) : list Z :=
  let hr := i32 (Z.quot timeval 3600) in
  let timeval := Z.rem timeval 3600 in
  let min := i32 (Z.quot timeval 60) in
  let sec := i32 (Z.rem timeval 60) in
  take (Z.to_nat (string_size - 1))
    (print_02d hr ++ [c_colon] ++ print_02d min ++ [c_colon] ++ print_02d sec).

Definition encode_time : encoder attr_val := fun attr phead atname rsname =>
  if negb (is_set attr) then Some (0, phead)
  else
    let cvnbuf := get_time_string ENCODE_TIME_SIZE (at_long (at_val attr)) in
    append_entry attr phead atname rsname (zlen cvnbuf + 1) cvnbuf.

End Ops.

(** ** Attributes (attr_func.c) *)

Definition free_null (attr : pbs_attribute) : pbs_attribute :=
  mk_pbs_attribute (Z.ldiff (at_flags attr) ATR_VFLAG_SET) (at_type attr) (mk_size_value 0 0 0).

Definition free_noop {V} (attr : attribute V) : attribute V := attr.

Definition comp_null {V} : comparer V := fun _ _ => 0.

Definition attr_ifelse_long (attr1 attr2 : pbs_attribute) (deflong : Z) : Z :=
  if is_set attr1 then at_long (at_val attr1)
  else if is_set attr2 then at_long (at_val attr2) else deflong.

Definition attr_ifelse_bool (attr1 attr2 : pbs_attribute) (defbool : bool) : bool :=
  if is_set attr1 then at_bool (at_val attr1)
  else if is_set attr2 then at_bool (at_val attr2) else defbool.

(** ** The entries an encoder makes *)

Definition names_ok (n : list Z) (r : cptr) (room : Z) : Prop :=
  nul_free n /\ (forall s, r = Some s -> nul_free s) /\ zlen n + 2 + rsize r + room <= INT_MAX.

(** The entry with name [n], resource [r] and the value bytes [v] in [vsize] bytes. *)
Definition entry_for (flags : Z) (n : list Z) (r : cptr) (vsize : Z) (v : list Z) : svrattrl :=
  mk_svrattrl (i32 (SIZEOF_SVRATTRL + (zlen n + 1) + rsize r + vsize)) (zlen n + 1) (rsize r) vsize flags
    (match r with Some _ => Some (zlen n + 1) | None => None end) (Some (zlen n + 1 + rsize r)) SET
    (((n ++ [c_nul]) ++ rdata r) ++ v ++ zeros (vsize - zlen v)).

Lemma entry_room_nil vsize : zeros (vsize - zlen (@nil Z)) = zeros vsize.
Proof. by rewrite zlen_nil, Z.sub_0_r. Qed.

Section Entries.
Context `{AllocOk}.

Lemma attrlist_create_ok n r vsize :
  names_ok n r vsize -> 0 <= vsize ->
  attrlist_create n r vsize = Some (entry_for 0 n r vsize []).
Proof.
  intros (Hn & Hr & Hs) Hv. pose proof (zlen_nonneg n). pose proof (rsize_nonneg r).
  unfold attrlist_create, attrlist_alloc, INT_MAX in *.
  assert (Er : match r with None => 0 | Some r => zlen r + 1 end = rsize r) by (by destruct r).
  rewrite Er, !i32_small by lia. rewrite alloc_ok by (unfold ALLOC_MAX, SIZEOF_SVRATTRL; lia).
  simpl mbind. unfold option_bind. cbn [al_data al_resc].
  fold (zeros (zlen n + 1 + rsize r + vsize)).
  assert (Es : zlen (n ++ [c_nul]) = zlen n + 1) by (by rewrite zlen_app).
  rewrite mem_write_0 by (rewrite zlen_zeros; lia). rewrite drop_zeros by lia. rewrite Es.
  replace (zlen n + 1 + rsize r + vsize - (zlen n + 1)) with (rsize r + vsize) by lia.
  unfold entry_for. cbn [app]. rewrite entry_room_nil. destruct r as [s|]; simpl rsize in *.
  - pose proof (zlen_nonneg s). destruct (Z.ltb_spec 0 (zlen s + 1)); [|lia].
    assert (Et : zlen (s ++ [c_nul]) = zlen s + 1) by (by rewrite zlen_app).
    simpl mbind. rewrite (mem_write_at (n ++ [c_nul])) by (rewrite ?zlen_zeros; lia).
    rewrite drop_zeros by lia. rewrite Et. replace (zlen s + 1 + vsize - (zlen s + 1)) with vsize by lia.
    simpl rdata. by rewrite <- !app_assoc.
  - simpl. by rewrite app_nil_r.
Qed.

Lemma append_entry_ok {V} (a : attribute V) phead n r vsize v :
  names_ok n r vsize -> zlen v <= vsize ->
  append_entry a phead n r vsize v = Some (1, phead ++ [entry_for (at_flags a) n r vsize v]).
Proof.
  intros Hn Hv. pose proof (zlen_nonneg v). unfold append_entry.
  rewrite attrlist_create_ok by (done || lia). simpl. rewrite entry_room_nil.
  assert (Ep : zlen ((n ++ [c_nul]) ++ rdata r) = zlen n + 1 + rsize r)
    by (rewrite !zlen_app, zlen_rdata; done).
  rewrite (mem_write_at ((n ++ [c_nul]) ++ rdata r)) by (rewrite ?zlen_zeros; lia).
  simpl. by rewrite drop_zeros by lia.
Qed.

(** A value that leaves room for its NUL can be read back from the entry. *)
Lemma entry_for_strings f n r vsize v :
  names_ok n r vsize -> nul_free v -> zlen v < vsize ->
  al_name_str (entry_for f n r vsize v) = Some n /\ al_resc_str (entry_for f n r vsize v) = r /\
  al_value_str (entry_for f n r vsize v) = Some v.
Proof.
  intros (Hn & Hr & Hs) Hv Hl. pose proof (zlen_nonneg v).
  assert (Ez : zeros (vsize - zlen v) = c_nul :: zeros (vsize - zlen v - 1)).
  { replace (vsize - zlen v) with (1 + (vsize - zlen v - 1)) at 1 by lia. by rewrite zeros_app by lia. }
  unfold al_name_str, al_resc_str, al_value_str, al_string, entry_for.
  cbn [al_data al_resc al_value]. rewrite Ez. split; [|split].
  - rewrite drop_0, <- !app_assoc. by apply cstring_app.
  - destruct r as [s|]; [|done]. simpl. rewrite <- !app_assoc.
    rewrite (app_assoc n [c_nul]), drop_app_length'; [|rewrite length_app; unfold zlen; simpl; lia].
    apply cstring_app. by apply Hr.
  - simpl. rewrite drop_app_length'; [by apply cstring_app|].
    pose proof (zlen_rdata r). rewrite !length_app. unfold zlen in *. simpl. lia.
Qed.

Lemma entry_for_valid f n r vsize v :
  names_ok n r vsize -> nul_free v -> zlen v < vsize -> valid_svr (entry_for f n r vsize v).
Proof.
  intros Hn Hv Hl. destruct (entry_for_strings f n r vsize v Hn Hv Hl) as (E1 & E2 & E3).
  destruct Hn as (Hn & Hr & Hs). pose proof (rsize_nonneg r).
  split; [by rewrite E1|]. split; [by rewrite E3|]. split.
  - unfold valid_entry, entry_of_svr. rewrite E1, E2, E3. simpl. split.
    + constructor; done || (unfold SET, UINT_MAX; lia).
    + unfold size_ok. lia.
  - intros Hsome. rewrite E2. destruct r; [done|]. by destruct Hsome.
Qed.
End Entries.
