(* ===== verification/AttrTypes.v ===== *)
(** * What the attribute types promise

    [ScalarType] is the contract of an attribute type with the code that handles
    attributes without knowing their type: what the encoder prints the decoder reads as
    the same value, an empty value unsets, and [SET] copies.  Each type of [AttrVal] is an
    instance; the journey of an attribute through the protocol is proved against the
    contract.  The arithmetic and the order of sizes follow. *)

From S2P Require Import Prelude CLib TcpDis Codec DisInt DisStr Attrs AttrVal.
From stdpp Require Import base list numbers option.

Local Open Scope Z_scope.

(** The value bytes of an entry never exceed [VALUE_ROOM]. *)
Definition VALUE_ROOM : Z := 34.

Class ScalarType `{Platform} {V : Type} (A : Type) (view : V -> A)
    (dec : decoder V) (enc : encoder V) (set : setter V) := {
  text : A -> list Z;
  room : A -> Z;
  good : A -> Prop;
  text_fits : forall x, good x -> nul_free (text x) /\ text x <> [] /\ zlen (text x) < room x;
  enc_unset : forall a ph n r, is_set a = false -> enc a ph n r = Some (0, ph);
  enc_set : forall a ph n r, is_set a = true -> good (view (at_val a)) ->
    names_ok n r (room (view (at_val a))) ->
    enc a ph n r =
      Some (1, ph ++ [entry_for (at_flags a) n r (room (view (at_val a))) (text (view (at_val a)))]);
  dec_text : forall a x, good x -> exists v, dec a (Some (text x)) = Some (0, now_set a v) /\ view v = x;
  dec_empty : forall a val, no_value val = true -> exists v, dec a val = Some (0, now_unset a v);
  set_copies : forall a b, is_set b = true -> good (view (at_val b)) ->
    exists v, set a b SET = Some (0, now_set a v) /\ view v = view (at_val b);
  set_unknown : forall a b op, is_set b = true -> good (view (at_val b)) -> op <> SET -> op <> INCR -> op <> DECR ->
    set a b op = Some (PBSE_INTERNAL, a)
}.

(** ** Flags and the union *)

Lemma flag_bit f : Z.land f 1 = Z.b2z (Z.testbit f 0).
Proof.
  change 1 with (Z.ones 1) at 1. rewrite Z.land_ones by lia. change (2 ^ 1) with 2. by rewrite Z.bit0_mod.
Qed.

Lemma is_set_bit {V} (a : attribute V) : is_set a = Z.testbit (at_flags a) 0.
Proof.
  unfold is_set, ATR_VFLAG_SET. rewrite flag_bit. by destruct (Z.testbit (at_flags a) 0).
Qed.

Lemma is_set_now_set {V} (a : attribute V) v : is_set (now_set a v) = true.
Proof. rewrite is_set_bit. unfold now_set. cbn [at_flags]. by rewrite Z.lor_spec, orb_true_r. Qed.

Lemma is_set_now_unset {V} (a : attribute V) v : is_set (now_unset a v) = false.
Proof.
  rewrite is_set_bit. unfold now_unset. cbn [at_flags].
  by rewrite Z.lor_spec, Z.ldiff_spec, andb_false_r.
Qed.

Lemma is_set_free a : is_set (free_null a) = false.
Proof. rewrite is_set_bit. unfold free_null. cbn [at_flags]. by rewrite Z.ldiff_spec, andb_false_r. Qed.

Lemma at_long_range v : LONG_MIN <= at_long v <= LONG_MAX.
Proof. unfold at_long, LONG_MIN, LONG_MAX. pose proof (i64_range (atsv_num v)). lia. Qed.

Lemma at_long_put x v : LONG_MIN <= x <= LONG_MAX -> at_long (put_long x v) = x.
Proof.
  intros Hx. unfold at_long, put_long. cbn [atsv_num]. unfold i64, u64, wrap_u. rewrite wrap_s_mod.
  apply i64_small. unfold LONG_MIN, LONG_MAX in Hx. lia.
Qed.

Lemma put_byte_low x v : u8 (atsv_num (put_byte x v)) = u8 x.
Proof.
  unfold put_byte. cbn [atsv_num]. unfold u8, wrap_u. change (2 ^ 8) with 256.
  pose proof (Z.div_mod (atsv_num v) 256 ltac:(lia)).
  replace (atsv_num v - atsv_num v mod 256 + x mod 256) with (x mod 256 + (atsv_num v / 256) * 256) by lia.
  by rewrite Z_mod_plus_full, Zmod_mod.
Qed.

Lemma at_char_put x v : at_char (put_byte x v) = i8 x.
Proof.
  unfold at_char, i8. rewrite <- wrap_s_mod, <- (wrap_s_mod 8 x). f_equal. apply put_byte_low.
Qed.

Lemma i8_i8 x : i8 (i8 x) = i8 x.
Proof. apply wrap_s_cases; [lia|]. apply wrap_s_range. lia. Qed.

Lemma at_bool_put b v : at_bool (put_bool b v) = b.
Proof. unfold at_bool, put_bool. rewrite put_byte_low. by destruct b. Qed.

(** ** Printed numbers *)

Lemma zlen_nonempty {A} (l : list A) : 1 <= zlen l -> l <> [].
Proof. intros Hl ->. rewrite zlen_nil in Hl. lia. Qed.


Lemma print_u_fits v k : 0 <= v <= ULONG_MAX -> v < 10 ^ k -> 1 <= k -> 1 <= zlen (print_u v) <= k.
Proof. intros. by apply (canonical_len v); [apply print_u_canonical|..]. Qed.

Lemma print_u_digits v : 0 <= v <= ULONG_MAX -> digits (print_u v).
Proof. intros Hv. by apply print_u_canonical in Hv as []. Qed.

Lemma digits_forallb ds : digits ds -> forallb is_digit ds = true.
Proof. induction 1 as [|c ds Hc _ IH]; [done|]. simpl. by rewrite Hc. Qed.

(** ["%ld"] writes an optional minus and at most 19 digits. *)
Lemma print_d_shape v : LONG_MIN <= v <= LONG_MAX ->
  1 <= zlen (print_d v) <= 20 /\ nul_free (print_d v) /\ long_syntax (print_d v) = true.
Proof.
  unfold LONG_MIN, LONG_MAX, print_d. intros Hv. destruct (Z.ltb_spec v 0) as [Hn|Hn].
  - assert (Hu : 0 <= - v <= ULONG_MAX) by (unfold ULONG_MAX; lia).
    pose proof (print_u_fits (- v) 19 Hu ltac:(lia) ltac:(lia)).
    pose proof (print_u_digits _ Hu) as Hd. rewrite zlen_cons. split; [lia|]. split.
    + constructor; [done|]. by apply digits_nul_free.
    + unfold long_syntax. simpl. by apply digits_forallb.
  - assert (Hu : 0 <= v <= ULONG_MAX) by (unfold ULONG_MAX; lia).
    pose proof (print_u_fits v 19 Hu ltac:(lia) ltac:(lia)).
    pose proof (print_u_digits _ Hu) as Hd. split; [lia|]. split; [by apply digits_nul_free|].
    unfold long_syntax. destruct (print_u v) as [|c ds]; [done|].
    pose proof Hd as [Hc _]%digits_cons. apply is_digit_range in Hc.
    rewrite (proj2 (Z.eqb_neq c c_plus)), (proj2 (Z.eqb_neq c c_minus)) by (unfold c_plus, c_minus; lia).
    by apply digits_forallb.
Qed.

(** ** The instances *)

Section Instances.
Context `{AllocOk}.

(** The clauses every scalar type proves the same way: encoding an unset attribute,
    decoding an empty value and the operations the setters do not know. *)
Ltac scalar_common :=
  match goal with
  | |- forall a ph n r, is_set a = false -> _ => intros a ph n r Hu; unfold_ops; by rewrite Hu
  | |- forall a val, no_value val = true -> _ =>
      intros a [[|? ?]|] ?; [by eexists|done|by eexists]
  | |- forall a b op, is_set b = true -> _ -> op <> SET -> _ =>
      intros a b op Hb _ ???; unfold_ops; unfold assert_set; rewrite Hb;
      by rewrite (proj2 (Z.eqb_neq op SET)), (proj2 (Z.eqb_neq op INCR)), (proj2 (Z.eqb_neq op DECR)) by done
  end
with unfold_ops :=
  unfold encode_l, encode_ll, encode_c, encode_b, encode_hold, encode_size, encode_time,
    set_l, set_ll, set_c, set_b, set_hold, set_size.

Lemma long_text_fits x : LONG_MIN <= x <= LONG_MAX ->
  nul_free (print_d x) /\ print_d x <> [] /\ zlen (print_d x) < zlen (print_d x) + 1.
Proof.
  intros Hx. destruct (print_d_shape x Hx) as (Hl & Hn & _). split; [done|].
  split; [apply zlen_nonempty|]; lia.
Qed.

#[export] Instance long_type : ScalarType Z at_long decode_l encode_l set_l.
Proof.
  refine {| text := print_d; room x := zlen (print_d x) + 1; good x := LONG_MIN <= x <= LONG_MAX;
            text_fits := long_text_fits |}; try scalar_common.
  - intros a ph n r Hs Hx Hn. unfold encode_l. rewrite Hs. simpl.
    destruct (print_d_shape _ Hx) as (Hl & _ & _). unfold sprintf_into, ENCODE_L_BUF_SIZE.
    rewrite (proj2 (Z.ltb_lt _ _)) by lia. simpl. apply append_entry_ok; [done|lia].
  - intros a x Hx. exists (put_long x (at_val a)). split; [|by apply at_long_put].
    destruct (print_d_shape x Hx) as (Hl & _ & Hsyn). unfold decode_l.
    pose proof (atol_print_d x Hx) as Ea. pose proof (zlen_nonempty (print_d x) ltac:(lia)).
    destruct (print_d x) as [|c s]; [done|].
    by rewrite Hsyn, Ea.
  - intros a b Hb _. exists (put_long (at_long (at_val b)) (at_val a)).
    split; [unfold_ops; unfold assert_set; by rewrite Hb|]. apply at_long_put, at_long_range.
Defined.

#[export] Instance ll_type : ScalarType Z at_ll decode_ll encode_ll set_ll.
Proof.
  refine {| text := print_d; room x := zlen (print_d x) + 1; good x := LONG_MIN < x < LONG_MAX |};
    try scalar_common.
  - intros x Hx. apply long_text_fits. lia.
  - intros a ph n r Hs Hx Hn. unfold encode_ll. rewrite Hs. simpl negb. cbv iota.
    destruct (print_d_shape (at_ll (at_val a))) as (Hl & _ & _); [lia|].
    rewrite take_ge by (unfold zlen, MAXLONGLEN in *; lia). apply append_entry_ok; [done|lia].
  - intros a x Hx. exists (put_long x (at_val a)). split; [|apply at_long_put; lia].
    destruct (print_d_shape x) as (Hl & _ & Hsyn); [lia|]. unfold decode_ll.
    pose proof (atol_print_d x ltac:(lia)) as Ea. pose proof (zlen_nonempty (print_d x) ltac:(lia)).
    destruct (print_d x) as [|c s]; [done|]. rewrite Ea. change at_ll with at_long.
    rewrite at_long_put by lia. by rewrite !(proj2 (Z.eqb_neq x _)) by lia.
  - intros a b Hb _. exists (put_long (at_ll (at_val b)) (at_val a)).
    split; [unfold_ops; unfold assert_set; by rewrite Hb|]. apply at_long_put, at_long_range.
Defined.

#[export] Instance char_type : ScalarType Z at_char decode_c encode_c set_c.
Proof.
  refine {| text x := [x]; room _ := 2; good x := i8 x = x /\ x <> 0 |}; try scalar_common.
  - intros x [_ Hx]. split; [by repeat constructor|]. split; [done|]. unfold zlen. simpl. lia.
  - intros a ph n r Hs [Hx _] Hn. unfold encode_c. rewrite Hs. apply append_entry_ok; [done|].
    unfold zlen. simpl. lia.
  - intros a x [Hx _]. exists (put_byte x (at_val a)). split; [done|]. by rewrite at_char_put.
  - intros a b Hb _. exists (put_byte (at_char (at_val b)) (at_val a)).
    split; [unfold_ops; unfold assert_set; by rewrite Hb|]. rewrite at_char_put. apply i8_i8.
Defined.

#[export] Instance bool_type : ScalarType bool at_bool decode_b encode_b set_b.
Proof.
  refine {| text (x : bool) := if x then ATR_TRUE else ATR_FALSE;
            room (x : bool) := zlen (if x then ATR_TRUE else ATR_FALSE) + 1; good _ := True |};
    try scalar_common.
  - intros [] _; vm_compute; (split; [repeat constructor; discriminate|]); done.
  - intros a ph n r Hs _ Hn. unfold encode_b. rewrite Hs. apply append_entry_ok; [done|lia].
  - intros a x _. exists (put_bool x (at_val a)). split; [by destruct x|apply at_bool_put].
  - intros a b Hb _. exists (put_bool (at_bool (at_val b)) (at_val a)).
    split; [unfold_ops; unfold assert_set; by rewrite Hb|]. apply at_bool_put.
Defined.

(** Sets of holds of which at most three letters are printed. *)
Definition few_holds (x : Z) : Prop := 0 <= x < 32 /\ zlen (hold_letters x) <= HOLD_ENCODE_SIZE.

Lemma hold_letters_read x : 0 <= x < 32 ->
  hold_loop (hold_letters x) 0 = (0, x) /\ nul_free (hold_letters x) /\ hold_letters x <> [].
Proof.
  intros Hx. assert (Hall : Forall (fun x => hold_loop (hold_letters x) 0 = (0, x) /\
      nul_free (hold_letters x) /\ hold_letters x <> []) (seqZ 0 32)).
  { vm_compute. repeat (constructor; [split; [done|split; [repeat constructor; discriminate|done]]|]).
    constructor. }
  rewrite list.Forall_forall in Hall. apply Hall, elem_of_seqZ. lia.
Qed.

#[export] Instance hold_type : ScalarType Z at_long decode_hold encode_hold set_hold.
Proof.
  refine {| text := hold_letters; room _ := HOLD_ENCODE_SIZE + 1; good := few_holds |};
    try scalar_common.
  - intros x [Hx Hl]. destruct (hold_letters_read x Hx) as (_ & ? & ?). unfold HOLD_ENCODE_SIZE in *.
    repeat split; done || lia.
  - intros a ph n r Hs [_ Hl] Hn. unfold encode_hold. rewrite Hs. apply append_entry_ok; [done|lia].
  - intros a x [Hx _]. exists (put_long x (at_val a)).
    split; [|apply at_long_put; unfold LONG_MIN, LONG_MAX; lia].
    destruct (hold_letters_read x Hx) as (E & _ & Hne). unfold decode_hold.
    destruct (hold_letters x) as [|c s]; [done|]. by rewrite E.
  - intros a b Hb _. exists (put_long (at_long (at_val b)) (at_val a)).
    split; [unfold_ops; unfold assert_set; by rewrite Hb|]. apply at_long_put, at_long_range.
Defined.

(** *** Times *)

(** The times whose hours fit an [int]. *)
Definition printable_time (t : Z) : Prop := 0 <= t <= INT_MAX * 3600 + 3599.

Lemma print_02d_field v : 0 <= v <= INT_MAX ->
  digits (print_02d v) /\ 2 <= zlen (print_02d v) <= 10 /\ atoi (print_02d v) = v.
Proof.
  unfold INT_MAX, print_02d. intros Hv. rewrite (proj2 (Z.ltb_ge v 0)) by lia.
  destruct (canonical_digits v (print_u v)) as (Hd & Hne & Hval);
    [apply print_u_canonical; unfold ULONG_MAX; lia|].
  assert (Hc : forall ds, digits ds -> ds <> [] -> dval 0 ds = v -> atoi ds = v).
  { intros ds ?? E. unfold atoi, atol. rewrite <- (app_nil_r ds), strtol_digits by done.
    cbn [fst]. rewrite E, clamp_long_id by (unfold LONG_MIN, LONG_MAX; lia). apply i32_small. lia. }
  destruct (Z.ltb_spec v 10).
  - pose proof (print_u_fits v 1 ltac:(unfold ULONG_MAX; lia) ltac:(lia) ltac:(lia)).
    rewrite zlen_cons. split; [by constructor|]. split; [lia|]. by apply Hc; [constructor| |].
  - pose proof (print_u_fits v 10 ltac:(unfold ULONG_MAX; lia) ltac:(lia) ltac:(lia)).
    split; [done|]. split; [|by apply Hc]. split; [|lia].
    destruct (print_u v) as [|c [|d ds]] eqn:E; [done| |rewrite !zlen_cons; pose proof (zlen_nonneg ds); lia].
    apply digits_cons in Hd as [Hc1 _]. apply is_digit_range in Hc1. simpl in Hval. unfold c_0 in Hval. lia.
Qed.

Lemma print_02d_two v : 0 <= v < 60 -> zlen (print_02d v) <= 2.
Proof.
  intros Hv. unfold print_02d. rewrite (proj2 (Z.ltb_ge v 0)) by lia. destruct (Z.ltb_spec v 10).
  - rewrite zlen_cons. pose proof (print_u_fits v 1 ltac:(unfold ULONG_MAX; lia) ltac:(lia) ltac:(lia)). lia.
  - pose proof (print_u_fits v 2 ltac:(unfold ULONG_MAX; lia) ltac:(lia) ltac:(lia)). lia.
Qed.

Lemma time_loop_digits ds rest : forall work ud days rv, digits ds ->
  time_loop (ds ++ rest) work ud days rv = time_loop rest (work ++ ds) ud days rv.
Proof.
  induction ds as [|c ds IH]; intros work ud days rv Hd; [by rewrite app_nil_r|].
  apply digits_cons in Hd as [Hc Hd]. simpl. pose proof (is_digit_range c Hc).
  rewrite (proj2 (Z.eqb_neq c c_colon)), (proj2 (Z.eqb_neq c c_dot)) by (unfold c_colon, c_dot; lia).
  rewrite Hc. simpl. rewrite IH by done. by rewrite <- app_assoc.
Qed.

Lemma colons_digits ds rest : digits ds -> colons (ds ++ rest) = colons rest.
Proof.
  unfold colons. induction 1 as [|c ds Hc _ IH]; [done|]. apply is_digit_range in Hc.
  simpl. rewrite filter_cons_False by (unfold c_colon; lia). done.
Qed.

Lemma colons_colon rest : colons (c_colon :: rest) = colons rest + 1.
Proof. unfold colons. rewrite filter_cons_True by done. by rewrite zlen_cons. Qed.

(** The fields of a printable time. *)
Lemma time_fields t : printable_time t ->
  exists h m s, 0 <= h <= INT_MAX /\ 0 <= m < 60 /\ 0 <= s < 60 /\ t = (h * 60 + m) * 60 + s /\
    get_time_string ENCODE_TIME_SIZE t =
      print_02d h ++ [c_colon] ++ print_02d m ++ [c_colon] ++ print_02d s.
Proof.
  unfold printable_time, INT_MAX. intros Ht.
  pose proof (Z.div_mod t 3600 ltac:(lia)). pose proof (Z.mod_pos_bound t 3600 ltac:(lia)).
  pose proof (Z.div_mod (t mod 3600) 60 ltac:(lia)). pose proof (Z.mod_pos_bound (t mod 3600) 60 ltac:(lia)).
  assert (0 <= t / 3600) by (apply Z.div_pos; lia). assert (0 <= t mod 3600 / 60) by (apply Z.div_pos; lia).
  exists (t / 3600), (t mod 3600 / 60), (t mod 3600 mod 60).
  repeat (split; [lia|]). unfold get_time_string.
  rewrite Z.quot_div_nonneg, Z.rem_mod_nonneg by lia.
  rewrite Z.quot_div_nonneg, Z.rem_mod_nonneg by lia. rewrite !i32_small by lia.
  apply take_ge. pose proof (print_02d_field (t / 3600) ltac:(unfold INT_MAX; lia)) as (_ & ? & _).
  pose proof (print_02d_two (t mod 3600 / 60) ltac:(lia)).
  pose proof (print_02d_two (t mod 3600 mod 60) ltac:(lia)).
  unfold zlen, ENCODE_TIME_SIZE in *. rewrite !length_app. simpl. lia.
Qed.

Lemma time_string_read t : printable_time t ->
  let s := get_time_string ENCODE_TIME_SIZE t in
  colons s = 2 /\ time_loop s [] false 0 0 = Some (0, t) /\ nul_free s /\ 1 <= zlen s <= 20.
Proof.
  intros Ht s. assert (Hl : zlen s <= 20)
    by (subst s; unfold get_time_string, zlen, ENCODE_TIME_SIZE; rewrite length_take; lia).
  destruct (time_fields t Ht) as (h & m & x & Hh & Hm & Hx & Et & Es).
  fold s in Es. rewrite Es in *. clear s Es.
  destruct (print_02d_field h Hh) as (Dh & Lh & Vh).
  destruct (print_02d_field m ltac:(unfold INT_MAX; lia)) as (Dm & Lm & Vm).
  destruct (print_02d_field x ltac:(unfold INT_MAX; lia)) as (Dx & Lx & Vx).
  split; [|split; [|split]].
  - rewrite colons_digits by done. cbn [app]. rewrite colons_colon, colons_digits by done.
    cbn [app]. rewrite colons_colon. rewrite <- (app_nil_r (print_02d x)), colons_digits by done. done.
  - rewrite time_loop_digits by done. cbn [app time_loop]. rewrite time_loop_digits by done.
    cbn [app time_loop]. rewrite <- (app_nil_r (print_02d x)), time_loop_digits by done.
    cbn [app time_loop]. unfold time_end. rewrite Vh, Vm, ?app_nil_r, Vx. simpl.
    change (0 * 60 + h) with h. rewrite <- Et. unfold printable_time, INT_MAX in Ht. unfold PBS_MAX_TIME, LONG_MAX.
    by rewrite (proj2 (Z.ltb_ge _ t)) by lia.
  - unfold nul_free. rewrite !Forall_app. repeat split; try (by apply digits_nul_free);
      by repeat constructor.
  - rewrite zlen_app in *. pose proof (zlen_nonneg ([c_colon] ++ print_02d m ++ [c_colon] ++ print_02d x)). lia.
Qed.

#[export] Instance time_type : ScalarType Z at_long decode_time encode_time set_l.
Proof.
  refine {| text := get_time_string ENCODE_TIME_SIZE;
            room x := zlen (get_time_string ENCODE_TIME_SIZE x) + 1; good := printable_time |};
    try scalar_common.
  - intros x Hx. destruct (time_string_read x Hx) as (_ & _ & Hn & Hl).
    split; [done|]. split; [apply zlen_nonempty|]; lia.
  - intros a ph n r Hs Hx Hn. unfold encode_time. rewrite Hs. apply append_entry_ok; [done|lia].
  - intros a x Hx. exists (put_long x (at_val a)).
    split; [|apply at_long_put; unfold printable_time, INT_MAX, LONG_MIN, LONG_MAX in *; lia].
    destruct (time_string_read x Hx) as (Ec & Et & _ & Hl). unfold decode_time.
    pose proof (zlen_nonempty _ (proj1 Hl)).
    destruct (get_time_string ENCODE_TIME_SIZE x) as [|c s] eqn:E; [done|].
    rewrite alloc_ok by (unfold ALLOC_MAX; lia). cbn [negb]. rewrite Ec.
    change (3 <? 2) with false. change (2 <? 2) with false. by rewrite Et.
  - intros a b Hb _. exists (put_long (at_long (at_val b)) (at_val a)).
    split; [unfold_ops; unfold assert_set; by rewrite Hb|]. apply at_long_put, at_long_range.
Defined.

(** *** Sizes *)

(** The sizes [from_size] prints without losing the multiplier. *)
Definition printable_size (v : size_value) : Prop :=
  0 <= atsv_num v <= LONG_MAX /\ atsv_shift v ∈ [0; 10; 20; 30; 40; 50] /\
  (atsv_units v = ATR_SV_BYTESZ \/ atsv_units v = ATR_SV_WORDSZ).

(** [strtol] stops at the letters and [to_size] takes the multiplier from them. *)
Lemma to_size_text num suf v0 v :
  0 <= num <= LONG_MAX -> stops suf ->
  (let psize := mk_size_value num (atsv_shift v0) ATR_SV_BYTESZ in
   match suf with
   | [] => None
   | c :: pc => match size_suffix c with
                | Some sh => Some (size_units (mk_size_value num sh ATR_SV_BYTESZ) pc)
                | None => if is_case c [98; 66] then
                            Some (match pc with [] => PBSE_NONE | _ => PBSE_BADATVAL end, psize)
                          else if is_case c [119; 87] then
                            Some (match pc with [] => PBSE_NONE | _ => PBSE_BADATVAL end,
                                  mk_size_value num (atsv_shift v0) ATR_SV_WORDSZ)
                          else None
                end
   end) = Some (PBSE_NONE, v) ->
  to_size (print_u num ++ suf) v0 = (PBSE_NONE, v).
Proof.
  intros Hn Hs E. unfold LONG_MAX in Hn. unfold to_size.
  rewrite (strtol_canonical num) by (done || (apply print_u_canonical; unfold ULONG_MAX; lia)).
  rewrite clamp_long_id by (unfold LONG_MIN, LONG_MAX; lia). rewrite u64_small by lia.
  destruct suf as [|c pc]; [done|]. cbn [atsv_num atsv_shift atsv_units].
  destruct (size_suffix c); [congruence|].
  destruct (is_case c [98; 66]); [congruence|]. destruct (is_case c [119; 87]); congruence.
Qed.

Lemma size_text_read v units : printable_size v ->
  to_size (from_size v) (mk_size_value 0 0 units) = (PBSE_NONE, v) /\
  nul_free (from_size v) /\ 1 <= zlen (from_size v) <= 21.
Proof.
  destruct v as [num sh un]. unfold printable_size. cbn [atsv_num atsv_shift atsv_units].
  intros (Hn & Hs & Hu).
  assert (Hb : 0 <= num <= ULONG_MAX) by (unfold LONG_MAX, ULONG_MAX in *; lia).
  pose proof (print_u_fits num 19 Hb ltac:(unfold LONG_MAX in Hn; lia) ltac:(lia)) as Hl.
  pose proof (digits_nul_free _ (print_u_digits num Hb)) as Hf.
  assert (Hgo : forall suf, from_size (mk_size_value num sh un) = print_u num ++ suf ->
    nul_free suf -> zlen suf <= 2 -> to_size (print_u num ++ suf) (mk_size_value 0 0 units)
      = (PBSE_NONE, mk_size_value num sh un) -> 
    to_size (from_size (mk_size_value num sh un)) (mk_size_value 0 0 units) =
      (PBSE_NONE, mk_size_value num sh un) /\
    nul_free (from_size (mk_size_value num sh un)) /\ 1 <= zlen (from_size (mk_size_value num sh un)) <= 21).
  { intros suf E Hs' Hz Ht. rewrite E. split; [done|]. split; [by apply Forall_app|].
    rewrite zlen_app. pose proof (zlen_nonneg suf). lia. }
  rewrite !elem_of_cons, elem_of_nil in Hs.
  destruct Hu as [->| ->]; destruct Hs as [->|[->|[->|[->|[->|[->|[]]]]]]];
    (eapply Hgo; [reflexivity|repeat constructor; discriminate|vm_compute; discriminate|
                  apply to_size_text; done]).
Qed.

#[export] Instance size_type : ScalarType (V := attr_val) size_value (fun v => v) decode_size encode_size set_size.
Proof.
  refine {| text := from_size; room x := zlen (from_size x) + 1; good := printable_size |};
    try scalar_common.
  - intros x Hx. destruct (size_text_read x 0 Hx) as (_ & Hn & Hl).
    split; [done|]. split; [apply zlen_nonempty|]; lia.
  - intros a ph n r Hs Hx Hn. unfold encode_size. rewrite Hs. simpl.
    destruct (size_text_read _ 0 Hx) as (_ & _ & Hl). unfold sprintf_into, ENCODE_SIZE_SIZE.
    rewrite (proj2 (Z.ltb_lt _ _)) by lia. cbn [mbind option_bind]. apply append_entry_ok; [done|lia].
  - intros a x Hx. exists x. split; [|done]. unfold decode_size.
    destruct (size_text_read x (atsv_units (at_val a)) Hx) as (Er & _ & Hl).
    pose proof (zlen_nonempty _ (proj1 Hl)). destruct (from_size x) as [|c s]; [done|]. by rewrite Er.
  - intros a b Hb _. exists (at_val b). split; [unfold_ops; unfold assert_set; by rewrite Hb|done].
Defined.

End Instances.

(** ** From one server to another *)

(** A set attribute [a] with a value in [ok] is encoded as one list entry, the entry
    goes over the wire and is read with the same strings, the decoder sets [fresh] from
    it, and setting any attribute [obj] of the receiver from [fresh] gives it the value
    of [a]. *)
Definition travels `{Platform} {V A} (view : V -> A) (dec : decoder V) (enc : encoder V)
    (set : setter V) (ok : A -> Prop) (lim : A -> Z) : Prop :=
  forall a fresh obj n r, is_set a = true -> ok (view (at_val a)) ->
    names_ok n r (lim (view (at_val a))) ->
  exists l bs e d obj',
    enc a [] n r = Some (1, l) /\ encodes (encode_DIS_svrattrl l) bs 0 /\
    decodes decode_DIS_svrattrl bs (0, [e]) /\
    al_name_str e = Some n /\ al_resc_str e = r /\ al_op e = SET /\
    dec fresh (al_value_str e) = Some (0, d) /\ set obj d SET = Some (0, obj') /\
    is_set obj' = true /\ is_modified obj' = true /\ view (at_val obj') = view (at_val a).

Section Travel.
Context `{AllocOk}.

Lemma is_modified_now_set {V} (a : attribute V) v : is_modified (now_set a v) = true.
Proof.
  unfold is_modified, now_set, ATR_VFLAG_SET, ATR_VFLAG_MODIFY. cbn [at_flags].
  apply negb_true_iff, Z.eqb_neq. intros E. apply (f_equal (fun z => Z.testbit z 1)) in E.
  revert E. by rewrite Z.land_spec, Z.lor_spec, orb_true_r.
Qed.

Lemma names_ok_room n r room1 room2 : names_ok n r room2 -> room1 <= room2 -> names_ok n r room1.
Proof. intros (? & ? & ?) ?. split; [done|]. split; [done|lia]. Qed.

Lemma scalar_travels {V A} view dec enc set (T : @ScalarType _ V A view dec enc set) lim :
  (forall x, good x -> room x <= lim x) -> travels view dec enc set good lim.
Proof.
  intros Hlim a fresh obj n r Hs Hg Hn. destruct (text_fits _ Hg) as (Hnf & _ & Hl).
  assert (Hn' := names_ok_room _ _ _ _ Hn (Hlim _ Hg)).
  set (e := entry_for (at_flags a) n r (room (view (at_val a))) (text (view (at_val a)))).
  assert (Hv : Forall valid_svr [e]) by (constructor; [by apply entry_for_valid|constructor]).
  destruct (entry_for_strings (at_flags a) n r _ _ Hn' Hnf Hl) as (E1 & E2 & E3). fold e in E1, E2, E3.
  destruct (read_by_all_valid (map entry_of_svr [e])) as (_ & _ & l' & Hd & Hm);
    [apply (valid_list _ valid_svr); [by intros ? (_ & _ & ? & _)|done|done]|].
  destruct l' as [|e' [|? ?]]; [done| |done]. simpl in Hm. injection Hm as Hm1 Hm2 Hm3 Hm4.
  rewrite E1, E2, E3 in *. simpl in *.
  destruct (dec_text fresh _ Hg) as (v & Ed & Ev).
  destruct (set_copies obj (now_set fresh v) (is_set_now_set _ _)) as (v' & Es & Ev');
    [unfold now_set; cbn [at_val]; by rewrite Ev|].
  exists [e], (wire_entries (map entry_of_svr [e])), e', (now_set fresh v), (now_set obj v').
  split; [by apply (enc_set a [] n r)|]. split; [by apply encode_DIS_svrattrl_encodes|].
  rewrite Hm1, Hm2, Hm3, Hm4. repeat (split; [done|]).
  split; [apply is_set_now_set|]. split; [apply is_modified_now_set|]. unfold now_set in *. cbn [at_val] in *.
  congruence.
Qed.

(** C35: A set attribute keeps its value when one daemon encodes it into a list entry, sends
    the list and the other decodes the entry and sets its own attribute from it, for the
    values each type can carry: all [long] and boolean values, [long long] values but the
    two extreme ones, characters but NUL, sets of at most three holds
    ([encode_hold_overruns]), times up to 2^31 hours, sizes up to 2^63-1 with multipliers up
    to peta ([from_size_drops_exa]), in bytes and in words; the name of the attribute fits
    the entry. *)
Theorem attribute_values_travel :
  travels at_long decode_l encode_l set_l (fun _ => True) (fun _ => VALUE_ROOM) /\
  travels at_ll decode_ll encode_ll set_ll (fun x => LONG_MIN < x < LONG_MAX) (fun _ => VALUE_ROOM) /\
  travels at_char decode_c encode_c set_c (fun x => x <> 0) (fun _ => VALUE_ROOM) /\
  travels at_bool decode_b encode_b set_b (fun _ => True) (fun _ => VALUE_ROOM) /\
  travels at_long decode_hold encode_hold set_hold few_holds (fun _ => VALUE_ROOM) /\
  travels at_long decode_time encode_time set_l printable_time (fun _ => VALUE_ROOM) /\
  travels (fun v : attr_val => v) decode_size encode_size set_size printable_size (fun _ => VALUE_ROOM).
Proof.
  split; [|split; [|split; [|split; [|split; [|split]]]]].
  - intros a f o n r Hs _ Hn. apply (scalar_travels _ _ _ _ long_type (fun _ => VALUE_ROOM));
      [|done|apply at_long_range|done].
    intros x Hx. simpl. destruct (print_d_shape x Hx) as (? & _). unfold VALUE_ROOM. lia.
  - apply (scalar_travels _ _ _ _ ll_type). intros x Hx. simpl in Hx |- *.
    destruct (print_d_shape x ltac:(lia)) as (? & _). unfold VALUE_ROOM. lia.
  - intros a f o n r Hs Hx Hn. apply (scalar_travels _ _ _ _ char_type (fun _ => VALUE_ROOM));
      [done|done|split; [apply i8_i8|done]|done].
  - apply (scalar_travels _ _ _ _ bool_type). by intros [] _.
  - by apply (scalar_travels _ _ _ _ hold_type).
  - apply (scalar_travels _ _ _ _ time_type). intros x Hx. simpl.
    destruct (time_string_read x Hx) as (_ & _ & _ & ?). unfold VALUE_ROOM. lia.
  - apply (scalar_travels _ _ _ _ size_type). intros x Hx. simpl.
    destruct (size_text_read x 0 Hx) as (_ & _ & ?). unfold VALUE_ROOM. lia.
Qed.

End Travel.

(** ** Arithmetic and order of sizes *)

(** The number of bytes a size stands for. *)
Definition size_bytes (v : size_value) : Z :=
  atsv_num v * 2 ^ atsv_shift v * (if atsv_units v =? ATR_SV_WORDSZ then 4 else 1).

(** The fields within their types, and one of the two units. *)
Definition size_wf (v : size_value) : Prop :=
  0 <= atsv_num v <= ULONG_MAX /\ 0 <= atsv_shift v < 256 /\
  (atsv_units v = ATR_SV_BYTESZ \/ atsv_units v = ATR_SV_WORDSZ).

(** [normalize_size] multiplies a number of words by four without a test when the other
    size is in bytes: then it must be below 2^62. *)
Definition meets (a b : size_value) : Prop :=
  atsv_units a = ATR_SV_WORDSZ -> atsv_units b = ATR_SV_BYTESZ -> 4 * atsv_num a <= ULONG_MAX.

(** Both in the same unit and with the same multiplier. *)
Definition aligned (a b : size_value) : Prop :=
  atsv_shift a = atsv_shift b /\ atsv_units a = atsv_units b.

Lemma normalize_units_ok a b : size_wf a -> size_wf b -> meets a b -> meets b a ->
  exists ta tb, normalize_units a b = (ta, tb) /\ size_wf ta /\ size_wf tb /\
    size_bytes ta = size_bytes a /\ size_bytes tb = size_bytes b /\ atsv_units ta = atsv_units tb /\
    atsv_shift ta = atsv_shift a /\ atsv_shift tb = atsv_shift b.
Proof.
  intros (Na & Sa & Ua) (Nb & Sb & Ub) Mab Mba. unfold meets, normalize_units, size_wf, size_bytes, ULONG_MAX in *.
  destruct Ua as [Ua|Ua], Ub as [Ub|Ub]; try specialize (Mab Ua Ub); try specialize (Mba Ub Ua); rewrite Ua, Ub; simpl;
    eexists _, _; (split; [reflexivity|]); cbn [atsv_num atsv_shift atsv_units];
    rewrite ?u64_small by lia; rewrite ?Ua, ?Ub; simpl; repeat split; lia || by auto.
Qed.

Lemma shift_loses_spec num adj : 0 <= num <= ULONG_MAX -> 0 <= adj ->
  shift_loses num adj = negb (num * 2 ^ adj <=? ULONG_MAX).
Proof.
  intros Hn Ha. unfold shift_loses. f_equal. rewrite Z.shiftl_mul_pow2, Z.shiftr_div_pow2 by lia.
  assert (0 < 2 ^ adj) by (apply Z.pow_pos_nonneg; lia). pose proof (u64_range (num * 2 ^ adj)).
  destruct (Z.leb_spec (num * 2 ^ adj) ULONG_MAX) as [Hl|Hl]; unfold ULONG_MAX in *.
  - rewrite u64_small by nia. apply Z.eqb_eq. by rewrite Z.div_mul by lia.
  - apply Z.eqb_neq. intros E. 
    assert (u64 (num * 2 ^ adj) < num * 2 ^ adj) by lia.
    pose proof (Z.div_mod (u64 (num * 2 ^ adj)) (2 ^ adj) ltac:(lia)).
    pose proof (Z.mod_pos_bound (u64 (num * 2 ^ adj)) (2 ^ adj) ltac:(lia)). nia.
Qed.

(** The unit in which [set_size] counts: the smaller multiplier, words when both are. *)
Definition common_unit (a b : size_value) : Z :=
  2 ^ Z.min (atsv_shift a) (atsv_shift b) *
  (if (atsv_units a =? ATR_SV_WORDSZ) && (atsv_units b =? ATR_SV_WORDSZ) then 4 else 1).

Definition far (a b : size_value) : Prop := 32 < Z.abs (atsv_shift a - atsv_shift b).

(** A number of common units, as a size. *)
Definition counts (a b v : size_value) : Prop :=
  0 <= atsv_num v <= ULONG_MAX /\ forall n, size_bytes (mk_size_value n (atsv_shift v) (atsv_units v)) = n * common_unit a b.

Lemma common_unit_pos a b : size_wf a -> size_wf b -> 0 < common_unit a b.
Proof.
  intros (_ & Sa & _) (_ & Sb & _). unfold common_unit.
  assert (0 < 2 ^ Z.min (atsv_shift a) (atsv_shift b)) by (apply Z.pow_pos_nonneg; lia).
  destruct (_ && _); lia.
Qed.

Lemma size_bytes_shift num sh un adj : 0 <= adj -> 0 <= sh ->
  size_bytes (mk_size_value (num * 2 ^ adj) sh un) = size_bytes (mk_size_value num (sh + adj) un).
Proof. intros. unfold size_bytes. cbn. rewrite Z.pow_add_r by lia. lia. Qed.

Lemma normalize_units_unit a b ta tb : size_wf a -> size_wf b -> normalize_units a b = (ta, tb) ->
  forall n, size_bytes (mk_size_value n (Z.min (atsv_shift a) (atsv_shift b)) (atsv_units ta)) = n * common_unit a b.
Proof.
  intros (_ & _ & Ua) (_ & _ & Ub) E n. unfold normalize_units in E. unfold common_unit, size_bytes.
  destruct Ua as [Ua|Ua], Ub as [Ub|Ub]; rewrite Ua, Ub in *; simpl in *;
    injection E as <- <-; cbn; rewrite ?Ua, ?Ub; simpl; lia.
Qed.

(** Two sizes are brought to their common unit, or lie too far apart, or the one with the
    larger multiplier does not fit. *)
Lemma normalize_size_ok a b : size_wf a -> size_wf b -> meets a b -> meets b a ->
  exists rc ta tb, normalize_size a b = (rc, ta, tb) /\
    ((rc = 0 /\ counts a b ta /\ counts a b tb /\ size_bytes ta = size_bytes a /\ size_bytes tb = size_bytes b) \/
     (rc = -1 /\ atsv_shift ta = atsv_shift a /\ atsv_shift tb = atsv_shift b /\
      (far a b \/
       (atsv_shift b < atsv_shift a /\ ULONG_MAX * common_unit a b < size_bytes a /\
          size_bytes b <= ULONG_MAX * common_unit a b) \/
       (atsv_shift a < atsv_shift b /\ ULONG_MAX * common_unit a b < size_bytes b /\
          size_bytes a <= ULONG_MAX * common_unit a b)))).
Proof.
  intros Ha Hb Mab Mba. destruct (normalize_units_ok a b Ha Hb Mab Mba) as (ta & tb & En & Wa & Wb & Ba & Bb & Eu & Sa & Sb).
  pose proof (normalize_units_unit a b ta tb Ha Hb En) as Hunit. pose proof (common_unit_pos a b Ha Hb) as Hpos.
  unfold normalize_size. rewrite En.
  destruct ta as [na sa ua], tb as [nb sb ub]. cbn [atsv_num atsv_shift atsv_units] in *. subst ub.
  destruct Wa as (Na & Ra & _), Wb as (Nb & Rb & _). cbn [atsv_num atsv_shift atsv_units] in *.
  unfold counts, far. cbn [atsv_num atsv_shift atsv_units]. rewrite <- Ba, <- Bb, <- Sa, <- Sb in *.
  clear Ba Bb Sa Sb En Ha Hb Mab Mba.
  destruct (Z.ltb_spec 0 (sa - sb)) as [H1|H1]; [|destruct (Z.ltb_spec (sa - sb) 0) as [H2|H2]].
  - rewrite Z.min_r in Hunit by lia. rewrite shift_loses_spec by lia.
    destruct (Z.ltb_spec 32 (sa - sb)); [eexists _, _, _; split; [reflexivity|]; right; cbn; lia|].
    rewrite orb_false_l, Z.shiftl_mul_pow2 by lia.
    pose proof (size_bytes_shift na sb ua (sa - sb) ltac:(lia) ltac:(lia)) as Es.
    replace (sb + (sa - sb)) with sa in Es by lia. rewrite <- Es, !Hunit.
    destruct (Z.leb_spec (na * 2 ^ (sa - sb)) ULONG_MAX); simpl negb; cbv iota.
    + eexists _, _, _. split; [reflexivity|]. left. cbn [atsv_num atsv_shift atsv_units].
      rewrite u64_small by (unfold ULONG_MAX in *; nia). rewrite !Hunit. repeat split; try done; try lia; nia.
    + eexists _, _, _. split; [reflexivity|]. right. cbn. repeat split; try lia. right. left. nia.
  - rewrite Z.min_l in Hunit by lia. rewrite shift_loses_spec by lia.
    destruct (Z.ltb_spec 32 (- (sa - sb))); [eexists _, _, _; split; [reflexivity|]; right; cbn; lia|].
    rewrite orb_false_l, Z.shiftl_mul_pow2 by lia.
    pose proof (size_bytes_shift nb sa ua (- (sa - sb)) ltac:(lia) ltac:(lia)) as Es.
    replace (sa + - (sa - sb)) with sb in Es by lia. rewrite <- Es, !Hunit.
    destruct (Z.leb_spec (nb * 2 ^ (- (sa - sb))) ULONG_MAX); simpl negb; cbv iota.
    + eexists _, _, _. split; [reflexivity|]. left. cbn [atsv_num atsv_shift atsv_units].
      rewrite u64_small by (unfold ULONG_MAX in *; nia). rewrite !Hunit. repeat split; try done; try lia; nia.
    + eexists _, _, _. split; [reflexivity|]. right. cbn. repeat split; try lia. right. right. nia.
  - assert (sb = sa) as -> by lia. rewrite Z.min_id in Hunit.
    eexists _, _, _. split; [reflexivity|]. left. cbn. by rewrite !Hunit.
Qed.

Lemma counts_bytes a b v : counts a b v -> size_bytes v = atsv_num v * common_unit a b.
Proof. intros [_ Hv]. destruct v as [n sh un]. apply Hv. Qed.

(** Sizes whose multipliers differ by at most 32 bits are compared by the bytes they stand
    for, whatever their units. *)
Theorem comp_size_orders (a b : pbs_attribute) :
  size_wf (at_val a) -> size_wf (at_val b) -> meets (at_val a) (at_val b) -> meets (at_val b) (at_val a) -> ~ far (at_val a) (at_val b) ->
  comp_size a b = match size_bytes (at_val a) ?= size_bytes (at_val b) with
                  | Lt => -1 | Eq => 0 | Gt => 1 end.
Proof.
  intros Ha Hb Mab Mba Hf. pose proof (common_unit_pos _ _ Ha Hb). unfold comp_size.
  destruct (normalize_size_ok _ _ Ha Hb Mab Mba) as (rc & ta & tb & -> & [(-> & Ca & Cb & Ea & Eb)|(-> & Sa & Sb & Hc)]).
  - rewrite <- Ea, <- Eb, (counts_bytes _ _ _ Ca), (counts_bytes _ _ _ Cb). simpl.
    destruct (Z.ltb_spec (atsv_num tb) (atsv_num ta)); [by rewrite (proj2 (Z.compare_gt_iff _ _)) by nia|].
    destruct (Z.ltb_spec (atsv_num ta) (atsv_num tb)); [by rewrite (proj2 (Z.compare_lt_iff _ _)) by nia|].
    replace (atsv_num tb) with (atsv_num ta) by lia. by rewrite Z.compare_refl.
  - simpl. rewrite Sa, Sb. destruct Hc as [?|[(Hs & ? & ?)|(Hs & ? & ?)]]; [done|..].
    + rewrite (proj2 (Z.ltb_lt _ _) Hs). by rewrite (proj2 (Z.compare_gt_iff _ _)) by lia.
    + rewrite (proj2 (Z.ltb_ge _ _)), (proj2 (Z.ltb_lt _ _) Hs) by lia.
      by rewrite (proj2 (Z.compare_lt_iff _ _)) by lia.
Qed.

(** C39: [INCR] and [DECR] on a size are exact: the attribute then stands for the sum or the
    difference in bytes, or it is left as it was with the code PBSE_BADATVAL, and that
    only when the multipliers are more than 32 bits apart or an operand or the result
    does not fit 64 bits of the common unit.  A number of words that meets a size in bytes
    has to be below 2^62 ([words_wrap] is what happens otherwise). *)
Theorem set_size_exact (a b : pbs_attribute) op :
  size_wf (at_val a) -> size_wf (at_val b) -> meets (at_val a) (at_val b) -> meets (at_val b) (at_val a) ->
  is_set b = true -> op = INCR \/ op = DECR ->
  let want := if op =? INCR then size_bytes (at_val a) + size_bytes (at_val b)
              else size_bytes (at_val a) - size_bytes (at_val b) in
  let limit := ULONG_MAX * common_unit (at_val a) (at_val b) in
  (exists v, set_size a b op = Some (0, now_set a v) /\ size_bytes v = want /\ 0 <= want <= limit) \/
  (set_size a b op = Some (PBSE_BADATVAL, a) /\
   (far (at_val a) (at_val b) \/ limit < size_bytes (at_val a) \/ limit < size_bytes (at_val b) \/
    want < 0 \/ limit < want)).
Proof.
  intros Ha Hb Mab Mba Hs Hop want limit. subst want limit. pose proof (common_unit_pos _ _ Ha Hb) as Hpos.
  unfold set_size, assert_set. rewrite Hs.
  replace (op =? SET) with false by (by destruct Hop as [->| ->]).
  replace ((op =? INCR) || (op =? DECR)) with true by (by destruct Hop as [->| ->]).
  destruct (normalize_size_ok _ _ Ha Hb Mab Mba) as (rc & ta & tb & -> & [(-> & Ca & Cb & Ea & Eb)|(-> & Sa & Sb & Hc)]).
  - rewrite <- Ea, <- Eb, (counts_bytes _ _ _ Ca), (counts_bytes _ _ _ Cb).
    destruct Ca as [Na Ca], Cb as [Nb Cb]. change (0 <? 0) with false. cbv iota.
    set (u := common_unit _ _) in *. unfold u64, wrap_u. change (2 ^ 64) with (ULONG_MAX + 1).
    destruct Hop as [->| ->]; simpl (INCR =? INCR); simpl (DECR =? INCR); cbv iota.
    + destruct (Z_le_gt_dec (atsv_num ta + atsv_num tb) ULONG_MAX).
      * rewrite Z.mod_small, (proj2 (Z.ltb_ge _ (atsv_num ta))) by lia. left. eexists. split; [reflexivity|].
        rewrite Ca. split; nia.
      * replace ((atsv_num ta + atsv_num tb) mod (ULONG_MAX + 1)) with (atsv_num ta + atsv_num tb - (ULONG_MAX + 1))
          by (apply (Z.mod_unique_pos _ _ 1); lia).
        rewrite (proj2 (Z.ltb_lt _ (atsv_num ta))) by lia. right. split; [done|]. repeat right. nia.
    + destruct (Z_le_gt_dec (atsv_num tb) (atsv_num ta)).
      * rewrite Z.mod_small, (proj2 (Z.ltb_ge (atsv_num ta) _)) by lia. left. eexists. split; [reflexivity|].
        rewrite Ca. split; nia.
      * replace ((atsv_num ta - atsv_num tb) mod (ULONG_MAX + 1)) with (atsv_num ta - atsv_num tb + (ULONG_MAX + 1))
          by (apply (Z.mod_unique_pos _ _ (-1)); lia).
        rewrite (proj2 (Z.ltb_lt (atsv_num ta) _)) by lia. right. split; [done|]. right. right. right. left. nia.
  - right. split; [done|]. destruct Hc as [?|[(? & ? & ?)|(? & ? & ?)]]; auto.
Qed.

Section TypeWitnesses.
#[local] Existing Instance generous.
#[local] Existing Instance generous_ok.

(** [mem = 2kb] and [mem = 3kw]. *)
Definition two_kb : pbs_attribute := mk_pbs_attribute ATR_VFLAG_SET 5 (mk_size_value 2 10 ATR_SV_BYTESZ).
Definition three_kw : pbs_attribute := mk_pbs_attribute ATR_VFLAG_SET 5 (mk_size_value 3 10 ATR_SV_WORDSZ).

Lemma attribute_values_travel_witness :
  exists l bs e d o, encode_size two_kb [] [109] None = Some (1, l) /\
    encodes (encode_DIS_svrattrl l) bs 0 /\ decodes decode_DIS_svrattrl bs (0, [e]) /\
    decode_size three_kw (al_value_str e) = Some (0, d) /\
    set_size three_kw d SET = Some (0, o) /\ at_val o = mk_size_value 2 10 ATR_SV_BYTESZ.
Proof.
  destruct attribute_values_travel as (_ & _ & _ & _ & _ & _ & Hs).
  destruct (Hs two_kb three_kw three_kw [109] None)
    as (l & bs & e & d & o & E1 & E2 & E3 & _ & _ & _ & E7 & E8 & _ & _ & E11).
  - reflexivity.
  - split; [vm_compute; split; discriminate|]. split; [right; left|left; reflexivity].
  - split; [repeat constructor; discriminate|]. split; [discriminate|vm_compute; discriminate].
  - exists l, bs, e, d, o. split; [exact E1|]. split; [exact E2|]. split; [exact E3|].
    split; [exact E7|]. split; [exact E8|exact E11].
Defined.

Lemma sizes_wf : size_wf (at_val two_kb) /\ size_wf (at_val three_kw).
Proof.
  split; (split; [vm_compute; split; discriminate|]); (split; [vm_compute; split; [discriminate|reflexivity]|]).
  - left. reflexivity.
  - right. reflexivity.
Qed.

Lemma comp_size_orders_witness : comp_size three_kw two_kb = 1.
Proof.
  rewrite (comp_size_orders three_kw two_kb (proj2 sizes_wf) (proj1 sizes_wf));
    [reflexivity|intros _ _; vm_compute; discriminate|intros Hf; vm_compute in Hf; discriminate..].
Defined.

Lemma set_size_exact_witness :
  exists v, set_size two_kb three_kw INCR = Some (0, now_set two_kb v) /\ size_bytes v = 14336.
Proof.
  destruct (set_size_exact two_kb three_kw INCR (proj1 sizes_wf) (proj2 sizes_wf) ltac:(discriminate)
    ltac:(intros _ _; vm_compute; discriminate) eq_refl (or_introl eq_refl))
    as [(v & E & Ev & _)|(_ & [Hf|[Hf|[Hf|[Hf|Hf]]]])];
    [exists v; split; [exact E|exact Ev]|vm_compute in Hf; discriminate..].
Defined.

(** 2^62 words are 2^64 bytes, which is 0 in an [unsigned long]: with one byte more they
    are one byte, and the change is granted. *)
Theorem words_wrap :
  to_size [52;54;49;49;54;56;54;48;49;56;52;50;55;51;56;55;57;48;52;119] (mk_size_value 0 0 0)
    = (PBSE_NONE, mk_size_value (2 ^ 62) 0 ATR_SV_WORDSZ) /\
  set_size (mk_pbs_attribute ATR_VFLAG_SET 5 (mk_size_value (2 ^ 62) 0 ATR_SV_WORDSZ))
    (mk_pbs_attribute ATR_VFLAG_SET 5 (mk_size_value 1 0 ATR_SV_BYTESZ)) INCR
  = Some (0, now_set (mk_pbs_attribute ATR_VFLAG_SET 5 (mk_size_value (2 ^ 62) 0 ATR_SV_WORDSZ))
              (mk_size_value 1 0 ATR_SV_BYTESZ)).
Proof. split; vm_compute; reflexivity. Qed.

(** Multipliers more than 32 bits apart decide the comparison alone: no petabytes
    compare greater than five bytes. *)
Theorem comp_size_misorders :
  comp_size (mk_pbs_attribute 1 5 (mk_size_value 0 50 0)) (mk_pbs_attribute 1 5 (mk_size_value 5 0 0)) = 1.
Proof. reflexivity. Qed.

(** Four holds fill the four bytes of the value and leave no NUL; five are written past
    the block. *)
Theorem encode_hold_overruns :
  (exists e, encode_hold (mk_pbs_attribute 1 3 (mk_size_value 15 0 0)) [] [104] None = Some (1, [e])
     /\ al_value_str e = None) /\
  encode_hold (mk_pbs_attribute 1 3 (mk_size_value 31 0 0)) [] [104] None = None.
Proof. split; [eexists; split; reflexivity|reflexivity]. Qed.

(** A size in exabytes is printed without its multiplier. *)
Theorem from_size_drops_exa units :
  to_size [49; 101; 98] (mk_size_value 0 0 units) = (PBSE_NONE, mk_size_value 1 60 ATR_SV_BYTESZ) /\
  from_size (mk_size_value 1 60 ATR_SV_BYTESZ) = [49; 98].
Proof. split; reflexivity. Qed.

End TypeWitnesses.
