(* ===== verification/AttrAtomic.v ===== *)
(** * Setting attributes from a request (src/src/lib/Libattr/attr_atomic.c)

    A modification request is a list of entries, each naming an attribute of an object.
    [attr_atomic_set] builds the new values beside the old ones, so that a refused
    request changes nothing: it finds each attribute in the table of definitions, checks
    the access, decodes the value and sets the new attribute from it.  The functions of
    the table are those of the types of [AttrVal], or any others: the theorems hold for
    every table.  The two marks the code leaves in the entries themselves (the operation
    it falls back to, the value cut at [:gpus=]) are used in the same turn of the loop
    only.  [None] is undefined behaviour. *)

From S2P Require Import Prelude CLib TcpDis Codec DisInt DisStr Attrs AttrVal AttrTypes.
From stdpp Require Import base list numbers option.

Local Open Scope Z_scope.

Definition PBSE_NOATTR : Z := 15002.
Definition PBSE_ATTRRO : Z := 15003.
Definition PBSE_UNKRESC : Z := 15037.
Definition PBSE_CANT_EDIT_NODES : Z := 15166.

Definition ATR_DFLAG_SvWR : Z := 512.
Definition ATR_DFLAG_WRACC : Z := 1706.
Definition ATR_DFLAG_ACCESS : Z := 2047.
Definition ATR_TYPE_RESC : Z := 6.

(** ["Resource_List"], ["ncpus"], ["gpus"] and [":gpus="]. *)
Definition ATTR_l : list Z := [82;101;115;111;117;114;99;101;95;76;105;115;116].
Definition s_ncpus : list Z := [110;99;112;117;115].
Definition s_gpus : list Z := [103;112;117;115].
Definition s_colon_gpus : list Z := [58;103;112;117;115;61].

(** ** Data *)

(** What the union of an attribute holds: a scalar, a string, or the pointer to the
    vector of resources ([at_ptr]); a resource is its definition and its value. *)
Inductive value :=
  | VScalar (v : attr_val)
  | VStr (s : cptr)
  | VResc (rs : option (list (Z * attribute value))).

Abbreviation attr := (attribute value).

(** The entry of the table of definitions for one attribute; [at_action], which no
    function here calls, is left out. *)
Record attribute_def := mk_attribute_def {
  ad_name : list Z;
  at_decode : attr -> list Z -> cptr -> cptr -> Z -> option (Z * attr);
  at_encode : attr -> list svrattrl -> list Z -> cptr -> Z -> Z -> option (Z * list svrattrl);
  at_set : attr -> attr -> Z -> option (Z * attr);
  at_comp : attr -> attr -> Z;
  at_free : attr -> attr;
  ad_flags : Z;
  ad_type : Z }.

(** The union is all zeros: a NULL pointer for the types that hold one. *)
Definition clear_attr (pdef : attribute_def) : attr :=
  mk_attribute 0 (ad_type pdef)
    (if ad_type pdef =? ATR_TYPE_RESC then VResc None
     else if ad_type pdef =? 3 then VStr None
     else VScalar (mk_size_value 0 0 0)).

(** The strings compare equal but for the case of letters. *)
Fixpoint str_nc_cmp (s1 s2 : list Z) : Z :=
  match s1, s2 with
  | [], [] => 0
  | c1 :: s1', c2 :: s2' => if negb (tolower c1 =? tolower c2) then -1 else str_nc_cmp s1' s2'
  | _, _ => -1
  end.

Fixpoint find_attr_from (index : Z) (defs : list attribute_def) (name : list Z) : Z :=
  match defs with
  | [] => -1
  | d :: defs' => if str_nc_cmp (ad_name d) name =? 0 then index else find_attr_from (index + 1) defs' name
  end.

(** The table has [limit] entries. *)
Definition find_attr (defs : list attribute_def) (name : list Z) : Z := find_attr_from 0 defs name.

Definition unmodified {V} (a : attribute V) : attribute V :=
  mk_attribute (Z.ldiff (at_flags a) ATR_VFLAG_MODIFY) (at_type a) (at_val a).
Definition modified {V} (a : attribute V) : attribute V :=
  mk_attribute (Z.lor (at_flags a) ATR_VFLAG_MODIFY) (at_type a) (at_val a).

(** [at_flags &= ~ATR_VFLAG_MODIFY], and within the resources of a resource list. *)
Definition clear_modify (a : attr) : option attr :=
  let a := unmodified a in
  if at_type a =? ATR_TYPE_RESC then
    match at_val a with
    | VResc rs =>
        Some (mk_attribute (at_flags a) (at_type a)
                (VResc (map (fun r => (fst r, unmodified (snd r))) <$> rs)))
    | _ => None
    end
  else Some a.

(** [plist->al_op] with the operations that are not for setting replaced by [SET]. *)
Definition set_op (op : Z) : Z :=
  if negb (op =? INCR) && negb (op =? DECR) && negb (op =? SET) && negb (op =? INCR_OLD) then SET else op.

(** A string member of an entry, NULL or a string inside the block. *)
Definition al_cstr (e : svrattrl) (p : option Z) : option cptr :=
  match p with None => Some None | Some off => Some <$> al_string e off end.

(** [strstr]: what lies before the first occurrence of [pat] in [s], and after it. *)
Fixpoint strstr (s pat : list Z) : option (list Z * list Z) :=
  if bool_decide (take (length pat) s = pat) then Some ([], drop (length pat) s)
  else match s with
       | [] => None
       | c :: s' => '(b, a) ← strstr s' pat; Some (c :: b, a)
       end.

(** [rc] of a decoder, the unknown resource forgiven. *)
Definition forgive (unkn rc : Z) : Z := if (rc =? PBSE_UNKRESC) && (0 <? unkn) then 0 else rc.

(** ** One entry *)

(** Where the loop goes after an entry: on, with the new attributes, or out of the loop
    with a code. *)
Inductive verdict A := Next (a : A) | Break (rc : Z) (a : A).
Arguments Next {A} a.
Arguments Break {A} rc a.

Section Atomic.
Context `{Platform}.

(** The special case of [Resource_List.ncpus]: the code, [temp] and the value string that
    is left when the [:gpus=] part has been cut off. *)
Definition gpu_case (unkn : Z) (d : attribute_def) (temp : attr) (name : list Z) (resc val : cptr)
    : option (Z * attr * cptr) :=
  if str_eq name ATTR_l then
    r ← resc;
    if str_eq r s_ncpus then
      v ← val;
      match strstr v s_colon_gpus with
      | Some (before, gpuval) =>
          if calloc_ok (zlen gpuval + 1) then
            x ← at_decode d temp name (Some s_gpus) (Some gpuval) ATR_DFLAG_ACCESS;
            let '(rc, temp) := x in Some (forgive unkn rc, temp, Some before)
          else Some (0, temp, Some before)
      | None =>
          x ← at_decode d temp name (Some s_gpus) None ATR_DFLAG_ACCESS;
          let '(rc, temp) := x in Some (forgive unkn rc, temp, val)
      end
    else Some (0, temp, val)
  else Some (0, temp, val).

(** The new attribute [new_attr] of definition [d] after an entry that may be set. *)
Definition set_entry (unkn privil : Z) (d : attribute_def) (old new_attr : attr)
    (name : list Z) (resc val : cptr) (op : Z) : option (verdict attr) :=
  let temp := clear_attr d in
  g ← gpu_case unkn d temp name resc val;
  let '(rc, temp, val) := g in
  if negb (rc =? 0) then Some (Break rc new_attr)
  else
    x ← at_decode d temp name resc val privil;
    let '(rc, temp) := x in
    let rc := forgive unkn rc in
    if negb (rc =? 0) then Some (Break rc new_attr)
    else
      (* duplicate the current value, if set and not already duplicated *)
      y ← (if is_set old && negb (is_set new_attr) then
             x ← at_set d new_attr old SET;
             let '(rc, a) := x in
             if negb (rc =? 0) then Some (Break rc a) else (a ← clear_modify a; Some (Next a))
           else Some (Next new_attr));
      match y with
      | Break rc a => Some (Break rc a)
      | Next a =>
          if is_set temp then
            x ← at_set d a temp (set_op op);
            let '(rc, a) := x in
            if negb (rc =? 0) then Some (Break rc a) else Some (Next a)
          else if is_modified temp then Some (Next (modified (at_free d a)))
          else Some (Next a)
      end.

(** The index an entry is for, or that the attribute is not known. *)
Definition entry_index (defs : list attribute_def) (unkn : Z) (name : list Z) : option nat :=
  let index := find_attr defs name in
  if index <? 0 then if unkn <? 0 then None else Some (Z.to_nat unkn) else Some (Z.to_nat index).

Definition may_write (d : attribute_def) (privil : Z) : bool :=
  negb (Z.land (Z.land (Z.land (ad_flags d) ATR_DFLAG_ACCESS) privil) ATR_DFLAG_WRACC =? 0).

Definition from_daemon (privil : Z) : bool := negb (Z.land privil ATR_DFLAG_SvWR =? 0).

(** One turn of the loop of [attr_atomic_set] over the arrays. *)
Definition atomic_step (old : list attr) (defs : list attribute_def) (unkn privil : Z)
    (new_attr : list attr) (e : svrattrl) : option (verdict (list attr)) :=
  name ← al_name_str e;
  match entry_index defs unkn name with
  | None => Some (Break PBSE_NOATTR new_attr)
  | Some index =>
      d ← defs !! index;
      if negb (may_write d privil) then
        if from_daemon privil then Some (Next new_attr) else Some (Break PBSE_ATTRRO new_attr)
      else
        o ← old !! index;
        n ← new_attr !! index;
        resc ← al_cstr e (al_resc e);
        val ← al_cstr e (al_value e);
        v ← set_entry unkn privil d o n name resc val (al_op e);
        match v with
        | Next n => Some (Next (<[index := n]> new_attr))
        | Break rc n => Some (Break rc (<[index := n]> new_attr))
        end
  end.

(** The loop: the code, the position of the entry it stopped at and the new array. *)
Fixpoint atomic_loop (old : list attr) (defs : list attribute_def) (unkn privil : Z)
    (plist : list svrattrl) (listidx : Z) (new_attr : list attr) : option (Z * Z * list attr) :=
  match plist with
  | [] => Some (PBSE_NONE, listidx, new_attr)
  | e :: plist' =>
      v ← atomic_step old defs unkn privil new_attr e;
      match v with
      | Next new_attr => atomic_loop old defs unkn privil plist' (listidx + 1) new_attr
      | Break rc new_attr => Some (rc, listidx + 1, new_attr)
      end
  end.

(** The code, [*badattr] when it was written, and the new array: freed when the code is
    not 0. *)
Definition attr_atomic_set (plist : list svrattrl) (old : list attr) (defs : list attribute_def)
    (unkn privil : Z) : option (Z * option Z * list attr) :=
  x ← atomic_loop old defs unkn privil plist 0 (map clear_attr defs);
  let '(rc, listidx, new_attr) := x in
  if negb (rc =? 0) then Some (rc, Some listidx, zip_with at_free defs new_attr)
  else Some (0, None, new_attr).

(** ** Node attributes and the end of an array *)

Definition ND_ATR_properties : nat := 3.
Definition ND_ATR_ntype : nat := 4.
Definition ND_ATR_ttl : nat := 17.
Definition ND_ATR_acl : nat := 18.
Definition ND_ATR_requestid : nat := 19.

Definition edits_nodes_file (index : nat) : bool :=
  bool_decide (index ∈ [ND_ATR_properties; ND_ATR_ntype; ND_ATR_ttl; ND_ATR_acl; ND_ATR_requestid]).

(** The new attribute after an entry: it is changed in place. *)
Definition node_set_entry (unkn : Z) (d : attribute_def) (new_attr : attr)
    (name : list Z) (resc val : cptr) (op : Z) : option (verdict attr) :=
  x ← at_decode d (clear_attr d) name resc val 0;
  let '(rc, temp) := x in
  let rc := forgive unkn rc in
  if negb (rc =? 0) then Some (Break rc new_attr)
  else
    let a := unmodified new_attr in
    if is_set temp then
      x ← at_set d a temp (set_op op);
      let '(rc, a) := x in
      if negb (rc =? 0) then Some (Break rc a) else Some (Next a)
    else if is_modified temp then Some (Next (modified (at_free d a)))
    else Some (Next a).

Definition node_step (defs : list attribute_def) (unkn privil : Z) (dont_update_nodes_file : bool)
    (new_attr : list attr) (e : svrattrl) : option (verdict (list attr)) :=
  name ← al_name_str e;
  match entry_index defs unkn name with
  | None => Some (Break PBSE_NOATTR new_attr)
  | Some index =>
      if (0 <=? find_attr defs name) && dont_update_nodes_file && edits_nodes_file index
      then Some (Break PBSE_CANT_EDIT_NODES new_attr)
      else
        d ← defs !! index;
        if negb (may_write d privil) then
          if from_daemon privil then Some (Next new_attr) else Some (Break PBSE_ATTRRO new_attr)
        else
          n ← new_attr !! index;
          resc ← al_cstr e (al_resc e);
          val ← al_cstr e (al_value e);
          v ← node_set_entry unkn d n name resc val (al_op e);
          match v with
          | Next n => Some (Next (<[index := n]> new_attr))
          | Break rc n => Some (Break rc (<[index := n]> new_attr))
          end
  end.

Fixpoint node_loop (defs : list attribute_def) (unkn privil : Z) (dont_update_nodes_file : bool)
    (plist : list svrattrl) (listidx : Z) (new_attr : list attr) : option (Z * Z * list attr) :=
  match plist with
  | [] => Some (PBSE_NONE, listidx, new_attr)
  | e :: plist' =>
      v ← node_step defs unkn privil dont_update_nodes_file new_attr e;
      match v with
      | Next new_attr => node_loop defs unkn privil dont_update_nodes_file plist' (listidx + 1) new_attr
      | Break rc new_attr => Some (rc, listidx + 1, new_attr)
      end
  end.

Definition attr_atomic_node_set (plist : list svrattrl) (new_attr : list attr) (defs : list attribute_def)
    (unkn privil : Z) (dont_update_nodes_file : bool) : option (Z * option Z * list attr) :=
  x ← node_loop defs unkn privil dont_update_nodes_file plist 0 new_attr;
  let '(rc, listidx, new_attr) := x in
  Some (rc, if negb (rc =? 0) then Some listidx else None, new_attr).

(** The attributes of the array as they are when the array itself is freed. *)
Definition attr_atomic_kill (temp : list attr) (defs : list attribute_def) : list attr :=
  zip_with at_free defs temp.

(** ** What becomes of one attribute *)

(** The entry is for attribute [i], and the requester may write it. *)
Definition concerns (defs : list attribute_def) (unkn privil : Z) (i : nat) (e : svrattrl) : bool :=
  match al_name_str e with
  | Some name =>
      match entry_index defs unkn name with
      | Some j => bool_decide (j = i) &&
                  match defs !! j with Some d => may_write d privil | None => false end
      | None => false
      end
  | None => false
  end.

(** The entries for one attribute, applied one after the other; [None] when one of them
    is refused. *)
Fixpoint replay (unkn privil : Z) (d : attribute_def) (old cur : attr) (es : list svrattrl) : option attr :=
  match es with
  | [] => Some cur
  | e :: es' =>
      name ← al_name_str e;
      resc ← al_cstr e (al_resc e);
      val ← al_cstr e (al_value e);
      v ← set_entry unkn privil d old cur name resc val (al_op e);
      match v with
      | Next cur => replay unkn privil d old cur es'
      | Break _ _ => None
      end
  end.

Definition entries_for (defs : list attribute_def) (unkn privil : Z) (i : nat) (plist : list svrattrl)
    : list svrattrl := List.filter (concerns defs unkn privil i) plist.

(** Each attribute of [new_attr] is [cur]'s after its own entries. *)
Definition each_replayed (old : list attr) (defs : list attribute_def) (unkn privil : Z)
    (plist : list svrattrl) (cur new_attr : list attr) : Prop :=
  length new_attr = length cur /\
  forall i d o c, defs !! i = Some d -> old !! i = Some o -> cur !! i = Some c ->
    new_attr !! i = replay unkn privil d o c (entries_for defs unkn privil i plist).

Lemma atomic_step_next old defs unkn privil cur e cur' :
  atomic_step old defs unkn privil cur e = Some (Next cur') ->
  length cur' = length cur /\
  forall i d o c, defs !! i = Some d -> old !! i = Some o -> cur !! i = Some c ->
    cur' !! i = replay unkn privil d o c (if concerns defs unkn privil i e then [e] else []).
Proof.
  unfold atomic_step, concerns. destruct (al_name_str e) as [name|] eqn:En; [|done]. cbn [mbind option_bind].
  destruct (entry_index defs unkn name) as [j|]; [|done].
  destruct (defs !! j) as [dj|] eqn:Ed; [|done]. cbn [mbind option_bind].
  destruct (may_write dj privil) eqn:Ew; cbn [negb].
  2:{ destruct (from_daemon privil); [|done]. intros [= <-]. split; [done|]. intros i d o c _ _ Hc.
      by rewrite andb_false_r. }
  destruct (old !! j) as [oj|] eqn:Eo; [|done]. destruct (cur !! j) as [cj|] eqn:Ec; [|done].
  cbn [mbind option_bind]. destruct (al_cstr e (al_resc e)) as [resc|] eqn:Er; [|done].
  destruct (al_cstr e (al_value e)) as [val|] eqn:Ev; [|done]. cbn [mbind option_bind].
  destruct (set_entry _ _ _ _ _ _ _ _ _) as [[n|rc n]|] eqn:Es; [|done..]. cbn [mbind option_bind].
  intros [= <-]. split; [by rewrite length_insert|]. intros i d o c Hd Ho Hc.
  destruct (bool_decide_reflect (j = i)) as [->|Hj]; cbn [andb].
  - rewrite Hd in Ed. rewrite Ho in Eo. rewrite Hc in Ec. simplify_eq.
    rewrite list_lookup_insert_eq by (by eapply lookup_lt_Some).
    cbn [replay]. rewrite En, Er, Ev. cbn [mbind option_bind]. by rewrite Es.
  - by rewrite list_lookup_insert_ne.
Qed.

Lemma replay_app unkn privil d o es1 : forall c es2,
  replay unkn privil d o c (es1 ++ es2) =
  (c' ← replay unkn privil d o c es1; replay unkn privil d o c' es2).
Proof.
  induction es1 as [|e es1 IH]; intros c es2; [done|]. cbn [app replay].
  destruct (al_name_str e); [|done]. cbn [mbind option_bind].
  destruct (al_cstr e (al_resc e)); [|done]. cbn [mbind option_bind].
  destruct (al_cstr e (al_value e)); [|done]. cbn [mbind option_bind].
  destruct (set_entry _ _ _ _ _ _ _ _ _) as [[?|? ?]|]; [|done..]. apply IH.
Qed.

(** Why an entry ends the loop. *)
Definition refused (old : list attr) (defs : list attribute_def) (unkn privil : Z) (cur : list attr)
    (e : svrattrl) (rc : Z) : Prop :=
  exists name, al_name_str e = Some name /\
    match entry_index defs unkn name with
    | None => rc = PBSE_NOATTR
    | Some i => exists d, defs !! i = Some d /\
        if may_write d privil then
          exists o c c' resc val, old !! i = Some o /\ cur !! i = Some c /\
            al_cstr e (al_resc e) = Some resc /\ al_cstr e (al_value e) = Some val /\
            set_entry unkn privil d o c name resc val (al_op e) = Some (Break rc c')
        else from_daemon privil = false /\ rc = PBSE_ATTRRO
    end.

Lemma atomic_step_break old defs unkn privil cur e rc cur' :
  atomic_step old defs unkn privil cur e = Some (Break rc cur') ->
  length cur' = length cur /\ refused old defs unkn privil cur e rc.
Proof.
  unfold atomic_step, refused. destruct (al_name_str e) as [name|]; [|done]. cbn [mbind option_bind].
  destruct (entry_index defs unkn name) as [j|] eqn:Ej.
  2:{ intros [= <- <-]. split; [done|]. exists name. by rewrite Ej. }
  destruct (defs !! j) as [dj|] eqn:Ed; [|done]. cbn [mbind option_bind].
  destruct (may_write dj privil) eqn:Ew; cbn [negb].
  2:{ destruct (from_daemon privil) eqn:Ef; [done|]. intros [= <- <-]. split; [done|].
      exists name. rewrite Ej. split; [done|]. exists dj. by rewrite Ew. }
  destruct (old !! j) as [oj|] eqn:Eo; [|done]. destruct (cur !! j) as [cj|] eqn:Ec; [|done].
  cbn [mbind option_bind]. destruct (al_cstr e (al_resc e)) as [resc|] eqn:Er; [|done].
  destruct (al_cstr e (al_value e)) as [val|] eqn:Ev; [|done]. cbn [mbind option_bind].
  destruct (set_entry _ _ _ _ _ _ _ _ _) as [[n|rc' n]|] eqn:Es; [done| |done]. cbn [mbind option_bind].
  intros [= <- <-]. split; [by rewrite length_insert|]. exists name. rewrite Ej. split; [done|].
  exists dj. rewrite Ew. split; [done|]. by exists oj, cj, n, resc, val.
Qed.

(** [set_entry] never stops with code 0. *)
Lemma set_entry_break unkn privil d o c name resc val op rc c' :
  set_entry unkn privil d o c name resc val op = Some (Break rc c') -> rc <> 0.
Proof.
  unfold set_entry. destruct (gpu_case _ _ _ _ _ _) as [[[rc1 t1] v1]|]; [|done]. cbn [mbind option_bind].
  destruct (Z.eqb_spec rc1 0); [|by intros [= <- <-]]. cbn [negb].
  destruct (at_decode _ _ _ _ _ _) as [[rc2 t2]|]; [|done]. cbn [mbind option_bind].
  destruct (Z.eqb_spec (forgive unkn rc2) 0); [|by intros [= <- <-]]. cbn [negb].
  destruct (is_set o && negb (is_set c)).
  - destruct (at_set d c o SET) as [[rc3 a]|]; [|done]. cbn [mbind option_bind].
    destruct (Z.eqb_spec rc3 0); [|by intros [= <- <-]]. cbn [negb].
    destruct (clear_modify a) as [a'|]; [|done]. cbn [mbind option_bind].
    destruct (is_set t2); [|by destruct (is_modified t2)].
    destruct (at_set d a' t2 _) as [[rc4 a4]|]; [|done]. cbn [mbind option_bind].
    destruct (Z.eqb_spec rc4 0); [done|by intros [= <- <-]].
  - cbn [mbind option_bind]. destruct (is_set t2); [|by destruct (is_modified t2)].
    destruct (at_set d c t2 _) as [[rc4 a4]|]; [|done]. cbn [mbind option_bind].
    destruct (Z.eqb_spec rc4 0); [done|by intros [= <- <-]].
Qed.

Lemma refused_nonzero old defs unkn privil cur e rc : refused old defs unkn privil cur e rc -> rc <> 0.
Proof.
  intros (name & _ & Hm). destruct (entry_index defs unkn name) as [i|]; [|by subst rc].
  destruct Hm as (d & _ & Hm). destruct (may_write d privil).
  - destruct Hm as (o & c & c' & resc & val & _ & _ & _ & _ & Hs). by eapply set_entry_break.
  - by destruct Hm as [_ ->].
Qed.

(** A requester that is not a daemon gets past the entries it may write only. *)
Definition writable (defs : list attribute_def) (unkn privil : Z) (e : svrattrl) : Prop :=
  exists name i d, al_name_str e = Some name /\ entry_index defs unkn name = Some i /\
    defs !! i = Some d /\ may_write d privil = true.

Lemma atomic_step_writable old defs unkn privil cur e cur' :
  atomic_step old defs unkn privil cur e = Some (Next cur') -> from_daemon privil = false ->
  writable defs unkn privil e.
Proof.
  unfold atomic_step. destruct (al_name_str e) as [name|] eqn:En; [|done]. cbn [mbind option_bind].
  destruct (entry_index defs unkn name) as [j|] eqn:Ej; [|done].
  destruct (defs !! j) as [dj|] eqn:Ed; [|done]. cbn [mbind option_bind].
  destruct (may_write dj privil) eqn:Ew; cbn [negb]; [|by destruct (from_daemon privil)].
  intros _ _. by exists name, j, dj.
Qed.

(** The loop, up to its end or to the entry that is refused. *)
Lemma atomic_loop_cases old defs unkn privil plist : forall k cur rc k' new_attr,
  atomic_loop old defs unkn privil plist k cur = Some (rc, k', new_attr) ->
  (rc = 0 /\ k' = k + zlen plist /\ each_replayed old defs unkn privil plist cur new_attr /\
   (from_daemon privil = false -> Forall (writable defs unkn privil) plist)) \/
  (exists done_ e rest mid, plist = done_ ++ e :: rest /\ k' = k + zlen done_ + 1 /\
   atomic_loop old defs unkn privil done_ k cur = Some (0, k + zlen done_, mid) /\
   length mid = length cur /\ length new_attr = length cur /\ refused old defs unkn privil mid e rc).
Proof.
  induction plist as [|e plist IH]; intros k cur rc k' new_attr; cbn [atomic_loop].
  { intros [= <- <- <-]. left. change (zlen (@nil svrattrl)) with 0. split; [done|]. split; [lia|]. split; [|constructor].
    split; [done|]. intros i d o c _ _ Hc. exact Hc. }
  destruct (atomic_step old defs unkn privil cur e) as [[cur1|rc1 cur1]|] eqn:Es; [| |done];
    cbn [mbind option_bind].
  - destruct (atomic_step_next _ _ _ _ _ _ _ Es) as [Hlen Hst]. intros Hl.
    destruct (IH _ _ _ _ _ Hl) as [(-> & -> & [Hl2 Hr] & Hw)|(dn & e' & rest & mid & -> & -> & Hm & Hlm & Hln & Hrf)].
    + left. rewrite zlen_cons. split; [done|]. split; [lia|]. split.
      * split; [lia|]. intros i d o c Hd Ho Hc. pose proof (Hst i d o c Hd Ho Hc) as H1.
        destruct (lookup_lt_is_Some_2 cur1 i) as [c1 Hc1]; [rewrite Hlen; by eapply lookup_lt_Some|].
        rewrite (Hr i d o c1 Hd Ho Hc1). rewrite Hc1 in H1. unfold entries_for. cbn [List.filter].
        destruct (concerns defs unkn privil i e).
        -- etransitivity; [|symmetry; apply (replay_app _ _ _ _ [e])]. by rewrite <- H1.
        -- simpl in H1. congruence.
      * intros Hf. constructor; [by eapply atomic_step_writable|auto].
    + right. exists (e :: dn), e', rest, mid. rewrite zlen_cons. split; [done|]. split; [lia|].
      split; [cbn [atomic_loop]; rewrite Es; cbn [mbind option_bind]; rewrite Hm; do 3 f_equal; lia|].
      split; [lia|]. split; [lia|done].
  - intros [= <- <- <-]. destruct (atomic_step_break _ _ _ _ _ _ _ _ Es) as [Hlen Hrf].
    right. exists [], e, plist, cur. change (zlen (@nil svrattrl)) with 0. split; [done|]. split; [lia|].
    split; [simpl; do 3 f_equal; lia|]. done.
Qed.

(** ** When the functions of the table are defined, so is the result *)

(** The strings of an entry lie inside its block; an entry for a resource has a resource
    and a value. *)
Definition entry_wf (e : svrattrl) : Prop :=
  exists name resc val, al_name_str e = Some name /\ al_cstr e (al_resc e) = Some resc /\
    al_cstr e (al_value e) = Some val /\ (name = ATTR_l -> is_Some resc /\ is_Some val).

(** The attribute holds what its definition says: the type, and that member of the union. *)
Definition same_kind (v w : value) : bool :=
  match v, w with
  | VScalar _, VScalar _ | VStr _, VStr _ | VResc _, VResc _ => true
  | _, _ => false
  end.

Definition well_typed (d : attribute_def) (a : attr) : Prop :=
  at_type a = ad_type d /\ same_kind (at_val a) (at_val (clear_attr d)) = true.

(** On attributes of their type the functions of a definition are defined and return
    such attributes. *)
Record def_ok (d : attribute_def) : Prop := {
  decode_ok : forall a n r v p, well_typed d a ->
    exists rc a', at_decode d a n r v p = Some (rc, a') /\ well_typed d a';
  set_ok : forall a b op, well_typed d a -> well_typed d b -> is_set b = true ->
    exists rc a', at_set d a b op = Some (rc, a') /\ well_typed d a';
  free_ok : forall a, well_typed d a -> well_typed d (at_free d a) }.

Lemma clear_attr_typed d : well_typed d (clear_attr d).
Proof.
  split; [done|]. unfold clear_attr. cbn [at_val].
  destruct (ad_type d =? ATR_TYPE_RESC); [done|]. by destruct (ad_type d =? 3).
Qed.

Lemma clear_modify_typed d a : well_typed d a -> exists a', clear_modify a = Some a' /\ well_typed d a'.
Proof.
  intros [Ht Hk]. unfold clear_modify, unmodified. cbn [at_type at_val at_flags]. rewrite Ht.
  unfold clear_attr in Hk. cbn [at_val] in Hk. destruct (ad_type d =? ATR_TYPE_RESC) eqn:Er.
  - destruct (at_val a) as [v|v|rs]; try done. eexists. split; [reflexivity|]. split; [done|].
    unfold clear_attr. cbn [at_val]. by rewrite Er.
  - eexists. split; [reflexivity|]. split; [done|]. unfold clear_attr. cbn [at_val]. by rewrite Er.
Qed.

Lemma find_attr_from_range defs name : forall k, 0 <= k ->
  find_attr_from k defs name = -1 \/ k <= find_attr_from k defs name < k + zlen defs.
Proof.
  induction defs as [|d defs IH]; intros k Hk; [by left|]. cbn [find_attr_from]. rewrite zlen_cons.
  pose proof (zlen_nonneg defs). destruct (str_nc_cmp (ad_name d) name =? 0); [right; lia|].
  destruct (IH (k + 1)); [lia|by left|right; lia].
Qed.

Lemma entry_index_range defs unkn name i : unkn < zlen defs -> entry_index defs unkn name = Some i ->
  (i < length defs)%nat.
Proof.
  unfold entry_index, find_attr. intros Hu.
  destruct (find_attr_from_range defs name 0 ltac:(lia)) as [->|Hr]; unfold zlen in *.
  - simpl. destruct (Z.ltb_spec unkn 0); [done|]. intros [= <-]. lia.
  - destruct (Z.ltb_spec (find_attr_from 0 defs name) 0); [lia|]. intros [= <-]. lia.
Qed.

Lemma gpu_case_defined unkn d temp name resc val :
  def_ok d -> well_typed d temp -> (name = ATTR_l -> is_Some resc /\ is_Some val) ->
  exists rc temp' val', gpu_case unkn d temp name resc val = Some (rc, temp', val') /\ well_typed d temp'.
Proof.
  intros Hd Ht Hn. unfold gpu_case, str_eq.
  destruct (bool_decide_reflect (name = ATTR_l)) as [E|]; [|by eexists _, _, _].
  destruct (Hn E) as [[r ->] [v ->]]. cbn [mbind option_bind].
  destruct (bool_decide (r = s_ncpus)); [|by eexists _, _, _].
  destruct (strstr v s_colon_gpus) as [[b g]|].
  - destruct (calloc_ok _); [|by eexists _, _, _].
    destruct (decode_ok d Hd temp name (Some s_gpus) (Some g) ATR_DFLAG_ACCESS Ht) as (rc & t & -> & ?).
    by eexists _, _, _.
  - destruct (decode_ok d Hd temp name (Some s_gpus) None ATR_DFLAG_ACCESS Ht) as (rc & t & -> & ?).
    by eexists _, _, _.
Qed.

Definition result_of {A} (v : verdict A) : A := match v with Next a => a | Break _ a => a end.

Lemma set_entry_defined unkn privil d o c name resc val op :
  def_ok d -> well_typed d o -> well_typed d c -> (name = ATTR_l -> is_Some resc /\ is_Some val) ->
  exists v, set_entry unkn privil d o c name resc val op = Some v /\ well_typed d (result_of v).
Proof.
  intros Hd Ho Hc Hn. unfold set_entry.
  destruct (gpu_case_defined unkn d (clear_attr d) name resc val Hd (clear_attr_typed d) Hn)
    as (rc1 & t1 & v1 & -> & Ht1).
  cbn [mbind option_bind]. destruct (negb _); [by eexists|].
  destruct (decode_ok d Hd t1 name resc v1 privil Ht1) as (rc2 & t2 & -> & Ht2). cbn [mbind option_bind].
  destruct (negb _); [by eexists|].
  assert (Hlast : forall a, well_typed d a -> exists v, (if is_set t2 then
      x ← at_set d a t2 (set_op op); let '(rc, a) := x in
      if negb (rc =? 0) then Some (Break rc a) else Some (Next a)
    else if is_modified t2 then Some (Next (modified (at_free d a))) else Some (Next a)) = Some v
    /\ well_typed d (result_of v)).
  { intros a Ha. destruct (is_set t2) eqn:Et.
    - destruct (set_ok d Hd a t2 (set_op op) Ha Ht2 Et) as (rc & a' & -> & ?). cbn [mbind option_bind].
      destruct (negb _); by eexists.
    - destruct (is_modified t2); eexists; (split; [reflexivity|]); [by apply (free_ok d Hd)|done]. }
  destruct (is_set o) eqn:Eo; cbn [andb]; [|by apply Hlast]. destruct (negb (is_set c)); [|by apply Hlast].
  destruct (set_ok d Hd c o SET Hc Ho Eo) as (rc & a' & -> & Ha'). cbn [mbind option_bind].
  destruct (negb _); [by eexists|]. destruct (clear_modify_typed d a' Ha') as (a'' & -> & ?).
  cbn [mbind option_bind]. by apply Hlast.
Qed.

(** The array holds attributes of the types of the table. *)
Definition array_ok (defs : list attribute_def) (arr : list attr) : Prop := Forall2 well_typed defs arr.

Lemma atomic_step_defined old defs unkn privil cur e :
  array_ok defs old -> array_ok defs cur -> unkn < zlen defs -> entry_wf e -> Forall def_ok defs ->
  exists v, atomic_step old defs unkn privil cur e = Some v /\ array_ok defs (result_of v).
Proof.
  intros Ho Hc Hu (name & resc & val & En & Er & Ev & Hn) Hd. unfold atomic_step.
  rewrite En. cbn [mbind option_bind]. destruct (entry_index defs unkn name) as [i|] eqn:Ei; [|by eexists].
  pose proof (entry_index_range _ _ _ _ Hu Ei) as Hi.
  destruct (lookup_lt_is_Some_2 defs i Hi) as [d Ed]. rewrite Ed. cbn [mbind option_bind].
  destruct (negb (may_write d privil)); [destruct (from_daemon privil); by eexists|].
  destruct (Forall2_lookup_l _ _ _ _ _ Ho Ed) as (o & -> & Hto).
  destruct (Forall2_lookup_l _ _ _ _ _ Hc Ed) as (c & -> & Htc).
  cbn [mbind option_bind]. rewrite Er, Ev. cbn [mbind option_bind].
  rewrite list.Forall_forall in Hd. pose proof (Hd d (list_elem_of_lookup_2 _ _ _ Ed)) as Hdd.
  destruct (set_entry_defined unkn privil d o c name resc val (al_op e) Hdd Hto Htc Hn) as (v & -> & Hv).
  cbn [mbind option_bind].
  assert (Hins : forall n, well_typed d n -> array_ok defs (<[i := n]> cur)).
  { intros n Hw. rewrite <- (list_insert_id defs i d Ed). by apply Forall2_insert. }
  destruct v; eexists; (split; [reflexivity|]); by apply Hins.
Qed.

Lemma atomic_loop_defined old defs unkn privil plist : forall k cur,
  array_ok defs old -> array_ok defs cur -> unkn < zlen defs ->
  Forall entry_wf plist -> Forall def_ok defs -> is_Some (atomic_loop old defs unkn privil plist k cur).
Proof.
  induction plist as [|e plist IH]; intros k cur Ho Hc Hu Hp Hd; [by eexists|].
  apply list.Forall_cons in Hp as [He Hp]. cbn [atomic_loop].
  destruct (atomic_step_defined old defs unkn privil cur e Ho Hc Hu He Hd) as ([cur1|rc1 cur1] & -> & Hv);
    cbn [mbind option_bind]; [by apply IH|by eexists].
Qed.

(** ** What a request asks for *)

(** The values of a type apart from how an attribute holds them: [m_read] of the union, what
    it is when nothing was set, what a value string asks for (a value, or to unset the
    attribute; [None] is an error) and what an operation makes of two values. *)
Record meaning (A : Type) := {
  m_read : value -> A;
  m_nothing : A;
  m_parse : cptr -> option (option A);
  m_apply : Z -> A -> A -> option A }.
Arguments m_read {A} _ _.
Arguments m_nothing {A} _.
Arguments m_parse {A} _ _.
Arguments m_apply {A} _ _ _ _.

Definition means {A} (m : meaning A) (a : attr) : option A :=
  if is_set a then Some (m_read m (at_val a)) else None.

(** What a definition owes its meaning: its decoder reads the strings, its setter does the
    operations (setting copies), its free function leaves nothing.  It is no resource list. *)
Class Means (d : attribute_def) {A} (m : meaning A) : Prop := {
  mean_type : ad_type d <> ATR_TYPE_RESC;
  mean_name : str_nc_cmp (ad_name d) ATTR_l <> 0;
  mean_clear : m_read m (at_val (clear_attr d)) = m_nothing m;
  mean_decode : forall n r v p rc t, at_decode d (clear_attr d) n r v p = Some (rc, t) ->
    rc <> PBSE_UNKRESC /\ (rc = 0 -> m_parse m v = Some (means m t) /\ (is_set t = false -> is_modified t = true));
  mean_set : forall a b op a', at_set d a b op = Some (0, a') ->
    is_set a' = true /\ (well_typed d a -> well_typed d a')
    /\ m_apply m op (m_read m (at_val a)) (m_read m (at_val b)) = Some (m_read m (at_val a'));
  mean_copy : forall x y, m_apply m SET x y = Some y;
  mean_free : forall a, well_typed d a -> is_set (at_free d a) = false /\ well_typed d (at_free d a)
    /\ m_read m (at_val (at_free d a)) = m_nothing m }.

(** What the entries for an attribute make of it, from the value [old] the object has.  An
    entry works on what the entries before it have made; where that is unset, for the
    first entry and after one that unset the attribute, it works on [old]. *)
Section Requested.
Context {A : Type} (m : meaning A) (old : option A).

Definition after_entry (cur : option A) (e : svrattrl) : option (option A) :=
  val ← al_cstr e (al_value e);
  y ← m_parse m val;
  match y with
  | Some y =>
      let start := match cur with Some x => Some x | None => old end in
      z ← m_apply m (set_op (al_op e)) (default (m_nothing m) start) y; Some (Some z)
  | None => Some None
  end.

Fixpoint requested (cur : option A) (es : list svrattrl) : option (option A) :=
  match es with
  | [] => Some cur
  | e :: es' => cur' ← after_entry cur e; requested cur' es'
  end.
End Requested.

Section Meaning.
Context (unkn privil : Z) (d : attribute_def) {A : Type} (m : meaning A) `{Hm : !Means d m}.

(** A new attribute under way: of its type, and with nothing in it while it is unset *)
Definition under_way (a : attr) : Prop :=
  well_typed d a /\ (is_set a = false -> m_read m (at_val a) = m_nothing m).

Lemma under_way_read a : under_way a -> m_read m (at_val a) = default (m_nothing m) (means m a).
Proof. intros [_ Hn]. unfold means. destruct (is_set a); [done|]. by rewrite Hn. Qed.

Lemma is_set_modified {V} (a : attribute V) : is_set (modified a) = is_set a.
Proof. unfold is_set, modified. cbn [at_flags]. by rewrite Z.land_lor_distr_l, Z.lor_0_r. Qed.

Lemma forgive_known n r v p rc t : at_decode d (clear_attr d) n r v p = Some (rc, t) -> forgive unkn rc = rc.
Proof.
  intros E. destruct (mean_decode n r v p rc t E) as [Hne _]. unfold forgive.
  by rewrite (proj2 (Z.eqb_neq _ _) Hne).
Qed.

Lemma set_entry_means o c name resc val op c' :
  name <> ATTR_l -> under_way c -> set_entry unkn privil d o c name resc val op = Some (Next c') ->
  under_way c' /\ (y ← m_parse m val;
    match y with
    | Some y => z ← m_apply m (set_op op) (default (m_nothing m)
                     (match means m c with Some x => Some x | None => means m o end)) y; Some (Some z)
    | None => Some None
    end) = Some (means m c').
Proof.
  intros Hname Hc. unfold set_entry, gpu_case, str_eq. rewrite bool_decide_eq_false_2 by done. cbn [mbind option_bind].
  change (negb (0 =? 0)) with false. cbv iota.
  destruct (at_decode d (clear_attr d) name resc val privil) as [[rc t]|] eqn:Ed; [|done]. cbn [mbind option_bind].
  rewrite (forgive_known _ _ _ _ _ _ Ed). destruct (mean_decode _ _ _ _ _ _ Ed) as [_ Hrc].
  destruct (Z.eqb_spec rc 0) as [->|]; [|done]. cbn [negb]. destruct (Hrc eq_refl) as [Hp Hmod].
  rewrite Hp. cbn [mbind option_bind].
  (* the value the entry works on *)
  set (start := match means m c with Some x => Some x | None => means m o end).
  match goal with |- (y ← ?dup; _) = _ -> _ => assert (forall a, dup = Some (Next a) ->
    well_typed d a /\ m_read m (at_val a) = default (m_nothing m) start) as Hdup end.
  { unfold start. pose proof (under_way_read c Hc) as Hr. unfold means in *. destruct Hc as [Ht Hn].
    destruct (is_set o) eqn:Eo, (is_set c) eqn:Es; cbn [andb negb]; intros a Ea; try (injection Ea as <-; done).
    destruct (at_set d c o SET) as [[rc a1]|] eqn:E1; [|done]. cbn [mbind option_bind] in Ea.
    destruct (Z.eqb_spec rc 0) as [->|]; [|done]. cbn [negb] in Ea. destruct (mean_set _ _ _ _ E1) as (_ & Et & Ev).
    rewrite mean_copy in Ev. injection Ev as Ev. pose proof (Et Ht) as Ht1.
    destruct (clear_modify_typed d a1 Ht1) as (a2 & E2 & Ht2). rewrite E2 in Ea. cbn [mbind option_bind] in Ea.
    injection Ea as <-. split; [done|]. unfold clear_modify, unmodified in E2. cbn [at_type at_val at_flags] in E2.
    rewrite (proj1 Ht1), (proj2 (Z.eqb_neq _ _) mean_type) in E2. injection E2 as <-. cbn [at_val]. by rewrite Ev. }
  match goal with |- (y ← ?dup; _) = _ -> _ => destruct dup as [[a|]|]; cbn [mbind option_bind]; [|done..] end.
  destruct (Hdup a eq_refl) as [Ht Hv]. unfold means at 1. destruct (is_set t) eqn:Et.
  - destruct (at_set d a t (set_op op)) as [[rc a1]|] eqn:E1; [|done]. cbn [mbind option_bind].
    destruct (Z.eqb_spec rc 0) as [->|]; [|done]. cbn [negb]. intros [= <-].
    destruct (mean_set _ _ _ _ E1) as (Hs & Ht1 & Ev). rewrite Hv in Ev. rewrite Ev. cbn [mbind option_bind].
    unfold means, under_way. rewrite Hs. split; [split; [by apply Ht1|done]|done].
  - rewrite (Hmod eq_refl). intros [= <-]. destruct (mean_free a Ht) as (Hs & Hft & Hfr).
    unfold means, under_way. rewrite is_set_modified, Hs. cbn [modified at_val].
    split; [split; [exact Hft|done]|done].
Qed.

Lemma replay_means o es : forall c a,
  Forall (fun e => al_name_str e <> Some ATTR_l) es -> under_way c -> replay unkn privil d o c es = Some a ->
  requested m (means m o) (means m c) es = Some (means m a).
Proof.
  induction es as [|e es IH]; intros c a Hes Hc E; cbn [replay] in E; [by injection E as <-|].
  apply list.Forall_cons in Hes as [He Hes]. destruct (al_name_str e) as [name|]; [|done]. cbn [mbind option_bind] in E.
  destruct (al_cstr e (al_resc e)) as [resc|]; [|done]. cbn [mbind option_bind] in E.
  cbn [requested]. unfold after_entry. destruct (al_cstr e (al_value e)) as [val|]; [|done]. cbn [mbind option_bind] in *.
  destruct (set_entry _ _ _ _ _ _ _ _ _) as [[c1|]|] eqn:E1; [|done..]. cbn [mbind option_bind] in E.
  assert (name <> ATTR_l) as Hname by congruence.
  destruct (set_entry_means _ _ _ _ _ _ _ Hname Hc E1) as [Hc1 Hv].
  destruct (m_parse m val) as [y|]; [|done]. cbn [mbind option_bind] in *. rewrite Hv. cbn [mbind option_bind].
  by apply IH.
Qed.
End Meaning.

Lemma find_attr_from_matches defs name : forall k i d, 0 <= k ->
  find_attr_from k defs name = k + Z.of_nat i -> defs !! i = Some d -> str_nc_cmp (ad_name d) name = 0.
Proof.
  induction defs as [|d0 defs IH]; intros k i d Hk E Hd; [done|]. cbn [find_attr_from] in E.
  destruct (Z.eqb_spec (str_nc_cmp (ad_name d0) name) 0) as [E0|].
  - assert (i = O) as -> by lia. by injection Hd as <-.
  - destruct i as [|i].
    + destruct (find_attr_from_range defs name (k + 1)); lia.
    + apply (IH (k + 1) i d); [lia|lia|done].
Qed.

Lemma entry_index_known defs unkn name i : entry_index defs unkn name = Some i -> Z.of_nat i <> unkn ->
  0 <= find_attr defs name.
Proof.
  unfold entry_index. destruct (Z.ltb_spec (find_attr defs name) 0); [|done].
  destruct (Z.ltb_spec unkn 0); [done|]. intros [= <-]. lia.
Qed.

(** An entry for an attribute that has a name of its own is not for the resource list. *)
Lemma entries_for_named defs unkn privil i d plist :
  defs !! i = Some d -> str_nc_cmp (ad_name d) ATTR_l <> 0 -> Z.of_nat i <> unkn ->
  Forall (fun e => al_name_str e <> Some ATTR_l) (entries_for defs unkn privil i plist).
Proof.
  intros Hd Hn Hu. apply list.Forall_forall. unfold entries_for. intros e He E.
  apply list_elem_of_In, filter_In in He as [_ He]. unfold concerns in He. rewrite E in He.
  destruct (entry_index defs unkn ATTR_l) as [j|] eqn:Ej; [|done].
  apply andb_prop in He as [Hji _]. apply bool_decide_eq_true in Hji as ->.
  pose proof (entry_index_known _ _ _ _ Ej Hu) as Hf. unfold entry_index, find_attr in *.
  rewrite (proj2 (Z.ltb_ge _ _) Hf) in Ej. injection Ej as Ej. apply Hn.
  apply (find_attr_from_matches defs ATTR_l 0 i d); [lia|lia|done].
Qed.

(** C34: A request to set attributes is granted or refused as a whole.  Granted, an
    attribute no entry is for is left unset, and any other whose type has a [Means] ([long],
    [long long], boolean, holds: [long_means], [ll_means], [bool_means], [hold_means]; not
    the catch-all) has the value the entries for it ask for, in their
    order and whatever the other entries are: an entry without a value unsets it, any other
    sets, adds or takes off its value on what the entries before it made of the old value
    (on the old value again after an entry that unset it).  A requester who is not a daemon
    could write all that was named.  Refused, the position of the first bad entry is
    reported with the reason, the entries before it alone would have been granted, and
    every new attribute has been freed.  There is a result whenever the functions of the
    table have one. *)
Theorem attr_atomic_set_decides plist old defs unkn privil :
  (array_ok defs old -> unkn < zlen defs -> Forall entry_wf plist -> Forall def_ok defs ->
   is_Some (attr_atomic_set plist old defs unkn privil)) /\
  forall rc bad new_attr, attr_atomic_set plist old defs unkn privil = Some (rc, bad, new_attr) ->
    (rc = 0 /\ bad = None /\ length new_attr = length defs /\
     (forall i d o, defs !! i = Some d -> old !! i = Some o ->
        let es := entries_for defs unkn privil i plist in
        exists a, new_attr !! i = Some a /\ (es = [] -> a = clear_attr d) /\
          forall A (m : meaning A), Means d m -> Z.of_nat i <> unkn ->
            requested m (means m o) None es = Some (means m a)) /\
     (from_daemon privil = false -> Forall (writable defs unkn privil) plist)) \/
    (rc <> 0 /\ exists good_ e rest mid arr, plist = good_ ++ e :: rest /\ bad = Some (zlen good_ + 1) /\
     attr_atomic_set good_ old defs unkn privil = Some (0, None, mid) /\
     refused old defs unkn privil mid e rc /\
     length arr = length defs /\ new_attr = zip_with at_free defs arr).
Proof.
  split.
  - intros Ho Hu Hp Hd. unfold attr_atomic_set.
    destruct (atomic_loop_defined old defs unkn privil plist 0 (map clear_attr defs)) as [[[rc k] n] ->];
      [done| |done..|cbn [mbind option_bind]; destruct (negb _); by eexists].
    apply Forall2_fmap_r, Forall_Forall2_diag, list.Forall_forall. intros d _. apply clear_attr_typed.
  - intros rc bad new_attr. unfold attr_atomic_set at 1.
    destruct (atomic_loop _ _ _ _ _ _ _) as [[[rc1 k] n]|] eqn:El; [|done]. cbn [mbind option_bind].
    destruct (atomic_loop_cases _ _ _ _ _ _ _ _ _ _ El)
      as [(-> & -> & [Hlen Hr] & Hw)|(dn & e & rest & mid & -> & -> & Hm & Hlm & Hln & Hrf)].
    + intros [= <- <- <-]. left. rewrite length_map in Hlen. do 3 (split; [done|]). split; [|done].
      intros i d o Hd Ho. destruct (lookup_lt_is_Some_2 n i) as [a Ha]; [rewrite Hlen; by eapply lookup_lt_Some|].
      pose proof (Hr i d o (clear_attr d) Hd Ho) as Hi. rewrite list_lookup_fmap, Hd in Hi. specialize (Hi eq_refl).
      rewrite Ha in Hi. symmetry in Hi. exists a. split; [done|]. split; [intros Hes; rewrite Hes in Hi; by injection Hi|].
      intros A m Hm Hu. apply (replay_means unkn privil d m o _ (clear_attr d)); [|split; [apply clear_attr_typed|intros _; apply mean_clear]|done].
      by eapply entries_for_named; [|apply mean_name|].
    + pose proof (refused_nonzero _ _ _ _ _ _ _ Hrf) as Hnz.
      rewrite (proj2 (Z.eqb_neq rc1 0) Hnz). cbn [negb]. intros [= <- <- <-]. right. split; [done|].
      exists dn, e, rest, mid, n. split; [done|]. split; [f_equal; lia|].
      split; [unfold attr_atomic_set; by rewrite Hm|]. split; [done|]. split; [|done].
      by rewrite Hln, length_map.
Qed.

(** ** Node attributes *)

Lemma node_step_protects defs unkn privil dont new_attr e v i d :
  node_step defs unkn privil dont new_attr e = Some v -> defs !! i = Some d ->
  may_write d privil = false \/ (dont = true /\ edits_nodes_file i = true /\ Z.of_nat i <> unkn) ->
  result_of v !! i = new_attr !! i.
Proof.
  unfold node_step. intros Hs Hd Hp. destruct (al_name_str e) as [name|]; [|done]. cbn [mbind option_bind] in Hs.
  destruct (entry_index defs unkn name) as [j|] eqn:Ej; [|by simplify_eq].
  destruct ((0 <=? find_attr defs name) && dont && edits_nodes_file j) eqn:Ex; [by simplify_eq|].
  destruct (defs !! j) as [dj|] eqn:Edj; [|done]. cbn [mbind option_bind] in Hs.
  destruct (may_write dj privil) eqn:Ew; cbn [negb] in Hs.
  2:{ destruct (from_daemon privil); by simplify_eq. }
  destruct (new_attr !! j) as [n|]; [|done]. cbn [mbind option_bind] in Hs.
  destruct (al_cstr e (al_resc e)) as [resc|]; [|done]. destruct (al_cstr e (al_value e)) as [val|]; [|done].
  cbn [mbind option_bind] in Hs.
  destruct (node_set_entry _ _ _ _ _ _ _) as [v'|]; [|done]. cbn [mbind option_bind] in Hs.
  assert (j <> i) as Hji.
  { intros ->. destruct Hp as [Hp|(-> & He & Hu)]; [congruence|].
    rewrite (proj2 (Z.leb_le _ _) (entry_index_known _ _ _ _ Ej Hu)), He in Ex. done. }
  destruct v'; simplify_eq; by apply list_lookup_insert_ne.
Qed.

Lemma node_loop_protects defs unkn privil dont i d plist : forall k new_attr rc k' new_attr',
  node_loop defs unkn privil dont plist k new_attr = Some (rc, k', new_attr') -> defs !! i = Some d ->
  may_write d privil = false \/ (dont = true /\ edits_nodes_file i = true /\ Z.of_nat i <> unkn) ->
  new_attr' !! i = new_attr !! i.
Proof.
  induction plist as [|e plist IH]; intros k new_attr rc k' new_attr' Hs Hd Hp; cbn [node_loop] in Hs.
  { by simplify_eq. }
  destruct (node_step defs unkn privil dont new_attr e) as [v|] eqn:Es; [|done]. cbn [mbind option_bind] in Hs.
  pose proof (node_step_protects _ _ _ _ _ _ _ _ _ Es Hd Hp) as Hi.
  destruct v as [n1|rc1 n1]; cbn [result_of] in *; [|by simplify_eq].
  rewrite <- Hi. by eapply IH.
Qed.

(** C40: However a request to change the attributes of a node ends, it leaves alone every
    attribute the requester may not write, and, when the nodes file is not to be
    updated, the attributes that are kept there (the catch-all at [unkn] apart). *)
Theorem attr_atomic_node_set_protects plist new_attr defs unkn privil dont rc bad new_attr' i d :
  attr_atomic_node_set plist new_attr defs unkn privil dont = Some (rc, bad, new_attr') ->
  defs !! i = Some d ->
  may_write d privil = false \/ (dont = true /\ edits_nodes_file i = true /\ Z.of_nat i <> unkn) ->
  new_attr' !! i = new_attr !! i.
Proof.
  unfold attr_atomic_node_set. destruct (node_loop _ _ _ _ _ _ _) as [[[rc' k'] n']|] eqn:El; [|done].
  intros Hs Hd Hp. cbn [mbind option_bind] in Hs. simplify_eq. by eapply node_loop_protects.
Qed.

End Atomic.

(** ** The scalar types in a table *)

Definition lift_decode (dec : decoder attr_val) : attr -> list Z -> cptr -> cptr -> Z -> option (Z * attr) :=
  fun a _ _ val _ =>
    match at_val a with
    | VScalar v =>
        x ← dec (mk_attribute (at_flags a) (at_type a) v) val;
        let '(rc, b) := x in Some (rc, mk_attribute (at_flags b) (at_type b) (VScalar (at_val b)))
    | _ => None
    end.

Definition lift_set (set : setter attr_val) : attr -> attr -> Z -> option (Z * attr) := fun a b op =>
  match at_val a, at_val b with
  | VScalar v, VScalar w =>
      x ← set (mk_attribute (at_flags a) (at_type a) v) (mk_attribute (at_flags b) (at_type b) w) op;
      let '(rc, c) := x in Some (rc, mk_attribute (at_flags c) (at_type c) (VScalar (at_val c)))
  | _, _ => None
  end.

Definition lift_free (free : pbs_attribute -> pbs_attribute) : attr -> attr := fun a =>
  match at_val a with
  | VScalar v => let b := free (mk_attribute (at_flags a) (at_type a) v) in
                 mk_attribute (at_flags b) (at_type b) (VScalar (at_val b))
  | _ => a
  end.

(** A definition in the style of the tables of the server. *)
Definition scalar_def (name : list Z) (dec : decoder attr_val) (enc : encoder attr_val)
    (set : setter attr_val) (comp : comparer attr_val) (flags type : Z) : attribute_def :=
  mk_attribute_def name (lift_decode dec)
    (fun a l n r _ _ => match at_val a with
                        | VScalar v => enc (mk_attribute (at_flags a) (at_type a) v) l n r
                        | _ => None
                        end)
    (lift_set set)
    (fun a b => match at_val a, at_val b with
                | VScalar v, VScalar w => comp (mk_attribute (at_flags a) (at_type a) v)
                                            (mk_attribute (at_flags b) (at_type b) w)
                | _, _ => 0
                end)
    (lift_free free_null) flags type.

(** The functions return attributes of the type they were given. *)
Definition keeps_type (r : option (Z * pbs_attribute)) (a : pbs_attribute) : Prop :=
  exists rc b, r = Some (rc, b) /\ at_type b = at_type a.

Lemma scalar_def_ok name dec enc set comp flags type :
  type <> ATR_TYPE_RESC -> type <> 3 ->
  (forall a val, keeps_type (dec a val) a) ->
  (forall a b op, is_set b = true -> keeps_type (set a b op) a) ->
  def_ok (scalar_def name dec enc set comp flags type).
Proof.
  intros Hr Hs Hdec Hset.
  assert (Hk : forall a, well_typed (scalar_def name dec enc set comp flags type) a ->
    exists v, at_val a = VScalar v).
  { intros a [_ Hk]. unfold clear_attr in Hk. cbn [ad_type scalar_def] in Hk.
    rewrite (proj2 (Z.eqb_neq _ _) Hr), (proj2 (Z.eqb_neq _ _) Hs) in Hk. cbn [at_val] in Hk.
    destruct (at_val a) as [v|v|rs]; try done. by exists v. }
  assert (Hw : forall f v, well_typed (scalar_def name dec enc set comp flags type)
                             (mk_attribute f type (VScalar v))).
  { intros f v. split; [done|]. unfold clear_attr. cbn [ad_type scalar_def].
    by rewrite (proj2 (Z.eqb_neq _ _) Hr), (proj2 (Z.eqb_neq _ _) Hs). }
  constructor.
  - intros a n r v p Ha. destruct (Hk a Ha) as [w Ew]. destruct Ha as [Ht _]. cbn [at_decode scalar_def ad_type] in *.
    unfold lift_decode. rewrite Ew.
    destruct (Hdec (mk_attribute (at_flags a) (at_type a) w) v) as (rc & b & -> & Eb).
    eexists _, _. split; [reflexivity|]. rewrite Eb. cbn [at_type]. rewrite Ht. apply Hw.
  - intros a b op Ha Hb Hset_b. destruct (Hk a Ha) as [w Ew], (Hk b Hb) as [w' Ew']. destruct Ha as [Ht _].
    cbn [at_set scalar_def ad_type] in *. unfold lift_set. rewrite Ew, Ew'.
    destruct (Hset (mk_attribute (at_flags a) (at_type a) w) (mk_attribute (at_flags b) (at_type b) w') op Hset_b)
      as (rc & c & -> & Ec).
    eexists _, _. split; [reflexivity|]. rewrite Ec. cbn [at_type]. rewrite Ht. apply Hw.
  - intros a Ha. destruct (Hk a Ha) as [w Ew]. destruct Ha as [Ht _]. cbn [at_free scalar_def ad_type] in *.
    unfold lift_free. rewrite Ew. cbn. rewrite Ht. apply Hw.
Qed.

Ltac keeps := unfold keeps_type; repeat (case_match; simplify_eq/=); eexists _, _; (split; [reflexivity|done]).

Lemma bool_keeps_type : (forall a val, keeps_type (decode_b a val) a) /\
  (forall a b op, is_set b = true -> keeps_type (set_b a b op) a).
Proof.
  split.
  - intros a [[|c s]|]; unfold decode_b; keeps.
  - intros a b op Hb. unfold set_b, assert_set. rewrite Hb. keeps.
Qed.

Lemma size_keeps_type : (forall a val, keeps_type (decode_size a val) a) /\
  (forall a b op, is_set b = true -> keeps_type (set_size a b op) a).
Proof.
  split.
  - intros a [[|c s]|]; unfold decode_size; keeps.
  - intros a b op Hb. unfold set_size, assert_set. rewrite Hb. keeps.
Qed.

(** *** Numbers, booleans and holds *)

(** The meaning of a scalar type, from that of its functions *)
Definition scalar_meaning {A} (read : attr_val -> A) (nothing : A) (parse : cptr -> option (option A))
    (apply : Z -> A -> A -> option A) : meaning A := {|
  m_read := fun v => match v with VScalar v => read v | _ => nothing end;
  m_nothing := nothing; m_parse := parse; m_apply := apply |}.

Lemma scalar_def_means {A} name dec enc set comp flags type (read : attr_val -> A) nothing parse apply :
  type <> ATR_TYPE_RESC -> type <> 3 -> str_nc_cmp name ATTR_l <> 0 -> read (mk_size_value 0 0 0) = nothing ->
  (forall a v rc t, dec a v = Some (rc, t) -> rc <> PBSE_UNKRESC /\
     (rc = 0 -> parse v = Some (if is_set t then Some (read (at_val t)) else None)
                /\ (is_set t = false -> is_modified t = true))) ->
  (forall a b op a', set a b op = Some (0, a') ->
     is_set a' = true /\ at_type a' = at_type a /\ apply op (read (at_val a)) (read (at_val b)) = Some (read (at_val a'))) ->
  (forall x y, apply SET x y = Some y) ->
  Means (scalar_def name dec enc set comp flags type) (scalar_meaning read nothing parse apply).
Proof.
  intros Hr Hs Hname H0 Hdec Hset Hcopy. set (d := scalar_def _ _ _ _ _ _ _).
  assert (at_val (clear_attr d) = VScalar (mk_size_value 0 0 0)) as Hc.
  { unfold clear_attr, d. cbn [ad_type scalar_def]. by rewrite (proj2 (Z.eqb_neq _ _) Hr), (proj2 (Z.eqb_neq _ _) Hs). }
  assert (forall f v, well_typed d (mk_attribute f type (VScalar v))) as Hw by (intros f v; split; [done|by rewrite Hc]).
  constructor; cbn [m_read m_nothing m_parse m_apply scalar_meaning]; try done.
  - by rewrite Hc.
  - intros n r v p rc t. unfold d. cbn [at_decode scalar_def]. unfold lift_decode. fold d. rewrite Hc.
    destruct (dec _ v) as [[rc1 b]|] eqn:E; [|done]. cbn [mbind option_bind]. intros [= <- <-]. exact (Hdec _ _ _ _ E).
  - intros a b op a'. unfold d at 1. cbn [at_set scalar_def]. unfold lift_set.
    destruct (at_val a) as [x| |], (at_val b) as [y| |]; try done.
    destruct (set _ _ op) as [[rc c]|] eqn:E; [|done]. cbn [mbind option_bind]. intros [= -> <-].
    destruct (Hset _ _ _ _ E) as (E1 & E2 & E3). split; [exact E1|]. split; [|exact E3]. intros [Ht _].
    rewrite E2. cbn [at_type]. rewrite Ht. apply Hw.
  - intros a [Ht Hk]. rewrite Hc in Hk. destruct (at_val a) as [x| |] eqn:Ex; try done.
    assert (at_free d a = mk_attribute (at_flags (free_null (mk_attribute (at_flags a) type x))) type
                            (VScalar (at_val (free_null (mk_attribute (at_flags a) type x))))) as ->.
    { unfold d at 1. cbn [at_free scalar_def]. unfold lift_free. rewrite Ex, Ht. done. }
    split; [apply is_set_free|]. split; [apply Hw|]. exact H0.
Qed.

(** A number: what [atol] makes of a string of digits; sums and differences of [long]s. *)
Definition long_parse (s : cptr) : option (option Z) :=
  match s with
  | Some (c :: s) => if long_syntax (c :: s) then Some (Some (atol (c :: s))) else None
  | _ => Some None
  end.
Definition long_apply (op x y : Z) : option Z :=
  if op =? SET then Some y else if op =? INCR then long_result (x + y)
  else if op =? DECR then long_result (x - y) else None.

(** A boolean: adding is "or", taking off is "and not". *)
Definition bool_parse (s : cptr) : option (option bool) :=
  match s with
  | Some (c :: s) =>
      let word := map toupper (take MAX_VAL_LEN (c :: s)) in
      if existsb (str_eq word) true_words then Some (Some true)
      else if existsb (str_eq word) false_words then Some (Some false) else None
  | _ => Some None
  end.
Definition bool_apply (op : Z) (x y : bool) : option bool :=
  if op =? SET then Some y else if op =? INCR then Some (x || y)
  else if op =? DECR then Some (x && negb y) else None.

Lemma atol_range s : LONG_MIN <= atol s <= LONG_MAX.
Proof.
  unfold atol, strtol. repeat case_match; simpl; unfold clamp_long, LONG_MIN, LONG_MAX; lia.
Qed.

Lemma is_modified_now_unset {V} (a : attribute V) v : is_modified (now_unset a v) = true.
Proof.
  unfold is_modified, now_unset, ATR_VFLAG_MODIFY. cbn [at_flags].
  apply negb_true_iff, Z.eqb_neq. intros E. apply (f_equal (fun z => Z.testbit z 1)) in E.
  revert E. by rewrite Z.land_spec, Z.lor_spec, orb_true_r.
Qed.

Lemma at_long_put_any x v : at_long (put_long x v) = i64 x.
Proof. unfold at_long, put_long. cbn [atsv_num]. unfold i64, u64, wrap_u. by rewrite wrap_s_mod. Qed.

Lemma set_l_applies (a b : pbs_attribute) op a' : set_l a b op = Some (0, a') ->
  is_set a' = true /\ at_type a' = at_type a
  /\ long_apply op (at_long (at_val a)) (at_long (at_val b)) = Some (at_long (at_val a')).
Proof.
  unfold set_l, assert_set, long_apply, long_result. destruct (is_set b); [|done].
  destruct (op =? SET); [intros [= <-]; rewrite is_set_now_set; do 2 (split; [done|]);
    cbn [at_val now_set]; by rewrite at_long_put by apply at_long_range|].
  destruct (op =? INCR); [|destruct (op =? DECR); [|done]]; (destruct ((LONG_MIN <=? _) && _) eqn:E; [|done]);
    cbn [mbind option_bind]; intros [= <-]; rewrite is_set_now_set; (do 2 (split; [done|]));
    cbn [at_val now_set]; apply andb_prop in E as [?%Z.leb_le ?%Z.leb_le]; by rewrite at_long_put by lia.
Qed.

Lemma long_means `{Platform} name flags type :
  type <> ATR_TYPE_RESC -> type <> 3 -> str_nc_cmp name ATTR_l <> 0 ->
  Means (scalar_def name decode_l encode_l set_l comp_l flags type) (scalar_meaning at_long 0 long_parse long_apply).
Proof.
  intros Hr Hs Hn. apply scalar_def_means; try done; [|exact set_l_applies].
  - intros a v rc t. unfold decode_l, long_parse. destruct v as [[|c s]|]; [|destruct (long_syntax (c :: s)); cbn [negb]|];
      intros [= <- <-]; (split; [discriminate|]); intros H0; try discriminate H0;
      rewrite ?is_set_now_set, ?is_set_now_unset, ?is_modified_now_unset; try done.
    split; [|done]. cbn [at_val now_set]. by rewrite at_long_put by apply atol_range.
Qed.

Lemma bool_means `{Platform} name flags type :
  type <> ATR_TYPE_RESC -> type <> 3 -> str_nc_cmp name ATTR_l <> 0 ->
  Means (scalar_def name decode_b encode_b set_b comp_b flags type) (scalar_meaning at_bool false bool_parse bool_apply).
Proof.
  intros Hr Hs Hn. apply scalar_def_means; try done.
  - intros a v rc t. unfold decode_b, bool_parse. cbv zeta.
    destruct v as [[|c s]|]; [|repeat destruct (existsb _ _)|];
      intros [= <- <-]; (split; [discriminate|]); intros H0; try discriminate H0;
      rewrite ?is_set_now_set, ?is_set_now_unset, ?is_modified_now_unset; try done;
      (split; [|done]); cbn [at_val now_set]; by rewrite at_bool_put.
  - intros a b op a'. unfold set_b, assert_set, bool_apply. cbv zeta. destruct (is_set b); [|done].
    destruct (op =? SET); [|destruct (op =? INCR); [|destruct (op =? DECR); [|done]]];
      intros [= <-]; rewrite is_set_now_set; (do 2 (split; [done|])); cbn [at_val now_set]; by rewrite at_bool_put.
Qed.

(** A [long long]: any text, but the two extreme values are refused. *)
Definition ll_parse (s : cptr) : option (option Z) :=
  match s with
  | Some (c :: s) =>
      let v := atol (c :: s) in if (v =? LONG_MIN) || (v =? LONG_MAX) then None else Some (Some v)
  | _ => Some None
  end.

Lemma ll_means `{Platform} name flags type :
  type <> ATR_TYPE_RESC -> type <> 3 -> str_nc_cmp name ATTR_l <> 0 ->
  Means (scalar_def name decode_ll encode_ll set_ll comp_ll flags type) (scalar_meaning at_long 0 ll_parse long_apply).
Proof.
  intros Hr Hs Hn. apply scalar_def_means; try done; [|exact set_l_applies].
  intros a v rc t. unfold decode_ll, ll_parse. cbv zeta. change at_ll with at_long.
  destruct v as [[|c s]|]; [|rewrite at_long_put by apply atol_range; destruct (_ || _)|];
    intros [= <- <-]; (split; [discriminate|]); intros H0; try discriminate H0;
    rewrite ?is_set_now_set, ?is_set_now_unset, ?is_modified_now_unset; try done.
  split; [|done]. cbn [at_val now_set]. by rewrite at_long_put by apply atol_range.
Qed.

(** Holds: a set of bits; adding joins the sets, taking off removes. *)
Definition hold_parse (s : cptr) : option (option Z) :=
  match s with
  | Some (c :: s) =>
      Some <$> foldl (fun acc c => v ← acc; if c =? 110 then Some HOLD_n else Z.lor v <$> hold_bit c) (Some 0) (c :: s)
  | _ => Some None
  end.
Definition hold_apply (op x y : Z) : option Z :=
  if op =? SET then Some y else if op =? INCR then Some (i64 (Z.lor x y))
  else if op =? DECR then Some (i64 (Z.land x (Z.lnot y))) else None.

Definition hold_byte (v : Z) : Prop := 0 <= v < 256.

Lemma hold_bit_byte v c b : hold_byte v -> hold_bit c = Some b -> hold_byte (Z.lor v b).
Proof.
  intros Hv Hb. assert (Z.lor v b = Z.land (Z.lor v b) (Z.ones 8)) as ->.
  { rewrite Z.land_lor_distr_l. f_equal; [by rewrite Z.land_ones, Z.mod_small by (unfold hold_byte in *; lia)|].
    unfold hold_bit in Hb. repeat case_match; by simplify_eq. }
  rewrite Z.land_ones by lia. apply Z.mod_pos_bound. done.
Qed.

Lemma hold_loop_parse s v : hold_byte v ->
  match foldl (fun acc c => v ← acc; if c =? 110 then Some HOLD_n else Z.lor v <$> hold_bit c) (Some v) s with
  | Some u => hold_loop s v = (0, u) /\ hold_byte u
  | None => fst (hold_loop s v) = PBSE_BADATVAL
  end.
Proof.
  revert v. induction s as [|c s IH]; intros v Hv; cbn [foldl hold_loop mbind option_bind]; [done|].
  destruct (c =? 110); [by apply IH|]. destruct (hold_bit c) as [b|] eqn:Eb; cbn [fmap option_fmap option_map].
  - apply IH. by eapply hold_bit_byte.
  - clear IH. induction s as [|c' s IH]; [done|exact IH].
Qed.

Lemma hold_means `{Platform} name flags type :
  type <> ATR_TYPE_RESC -> type <> 3 -> str_nc_cmp name ATTR_l <> 0 ->
  Means (scalar_def name decode_hold encode_hold set_hold comp_hold flags type)
    (scalar_meaning at_long 0 hold_parse hold_apply).
Proof.
  intros Hr Hs Hn. apply scalar_def_means; try done.
  - intros a v rc t. unfold decode_hold, hold_parse. destruct v as [[|c s]|].
    1, 3: intros [= <- <-]; by rewrite is_set_now_unset, is_modified_now_unset.
    pose proof (hold_loop_parse (c :: s) 0 ltac:(unfold hold_byte; lia)) as Hp. destruct (foldl _ _ _) as [u|].
    + destruct Hp as [-> Hu]. intros [= <- <-]. split; [discriminate|]. intros _. rewrite is_set_now_set. split; [|done].
      cbn [at_val now_set fmap option_fmap option_map]. rewrite at_long_put; [done|]. unfold LONG_MIN, LONG_MAX, hold_byte in *. lia.
    + destruct (hold_loop (c :: s) 0) as [rc' u]. cbn [fst] in Hp. subst rc'. intros [= <- <-]. by split.
  - intros a b op a'. unfold set_hold, assert_set, hold_apply. cbv zeta. destruct (is_set b); [|done].
    destruct (op =? SET); [|destruct (op =? INCR); [|destruct (op =? DECR); [|done]]];
      intros [= <-]; rewrite is_set_now_set; (do 2 (split; [done|])); cbn [at_val now_set].
    + by rewrite at_long_put by apply at_long_range.
    + by rewrite at_long_put_any.
    + by rewrite at_long_put_any.
Qed.

Section AtomicWitnesses.
#[local] Existing Instance generous.
#[local] Existing Instance generous_ok.

(** [rerunable], which users may write, and [mem], which only the server may. *)
Definition table : list attribute_def :=
  [scalar_def [114] decode_b encode_b set_b comp_b 3 18;
   scalar_def [109] decode_size encode_size set_size comp_size 512 5].

Definition values : list attr :=
  [mk_attribute 1 18 (VScalar (mk_size_value 0 0 0)); mk_attribute 1 5 (VScalar (mk_size_value 2 10 0))].

(** [r = True] and [m = 1kb]. *)
Definition set_r : svrattrl := mk_svrattrl 0 2 0 5 0 None (Some 2) SET [114;0;84;114;117;101;0].
Definition set_m : svrattrl := mk_svrattrl 0 2 0 4 0 None (Some 2) SET [109;0;49;107;98;0].

Lemma table_ok : Forall def_ok table.
Proof.
  constructor; [|constructor; [|constructor]]; apply scalar_def_ok;
    try discriminate; apply bool_keeps_type || apply size_keeps_type.
Qed.

Lemma set_r_wf : entry_wf set_r.
Proof. exists [114], None, (Some [84;114;117;101]). by repeat split. Qed.

(** A number holding 5, and the request to add 4 and then take off 2. *)
Definition number : attribute_def := scalar_def [110] decode_l encode_l set_l comp_l 3 1.
Definition five : attr := mk_attribute 1 1 (VScalar (mk_size_value 5 0 0)).
Definition add_take : list svrattrl :=
  [mk_svrattrl 0 2 0 2 0 None (Some 2) INCR [110;0;52;0]; mk_svrattrl 0 2 0 2 0 None (Some 2) DECR [110;0;50;0]].

(** A user may set the one and not the other: the request for both is refused at its
    second entry.  Adding 4 to 5 and taking off 2 gives 7. *)
Lemma attr_atomic_set_decides_witness :
  is_Some (attr_atomic_set [set_r] values table (-1) 3) /\
  (exists arr, attr_atomic_set [set_r; set_m] values table (-1) 3 =
    Some (PBSE_ATTRRO, Some 2, zip_with at_free table arr) /\ length arr = 2%nat) /\
  exists a, attr_atomic_set add_take [five] [number] (-1) 3 = Some (0, None, [a]) /\
    means (scalar_meaning at_long 0 long_parse long_apply) a = Some 7.
Proof.
  split; [|split].
  - apply (proj1 (attr_atomic_set_decides [set_r] values table (-1) 3)).
    + constructor; [split; reflexivity|]. constructor; [split; reflexivity|constructor].
    + reflexivity.
    + constructor; [apply set_r_wf|constructor].
    + apply table_ok.
  - destruct (attr_atomic_set [set_r; set_m] values table (-1) 3) as [[[rc bad] arr0]|] eqn:E;
      [|vm_compute in E; discriminate].
    destruct (proj2 (attr_atomic_set_decides [set_r; set_m] values table (-1) 3) _ _ _ E)
      as [(-> & _)|(_ & g & e & rest & mid & arr & _ & Eb & _ & _ & Hl & ->)];
      [vm_compute in E; discriminate|].
    assert (Hv : match attr_atomic_set [set_r; set_m] values table (-1) 3 with
                 | Some (rc, bad, _) => (rc, bad) | None => (0, None) end = (PBSE_ATTRRO, Some 2))
      by (vm_compute; reflexivity).
    rewrite E in Hv. injection Hv as -> ->. exists arr. split; [reflexivity|exact Hl].
  - destruct (attr_atomic_set add_take [five] [number] (-1) 3) as [[[rc bad] n]|] eqn:E;
      [|vm_compute in E; discriminate].
    destruct (proj2 (attr_atomic_set_decides add_take [five] [number] (-1) 3) _ _ _ E)
      as [(-> & -> & Hl & Hv & _)|(Hrc & _)]; [|by vm_compute in E; injection E as <- _ _].
    destruct (Hv 0%nat number five eq_refl eq_refl) as (a & Ha & _ & Hm). exists a. split.
    + destruct n as [|b [|c n]]; try discriminate Hl. cbn in Ha. by injection Ha as ->.
    + specialize (Hm Z _ (long_means [110] 3 1 ltac:(discriminate) ltac:(discriminate) ltac:(discriminate))
        ltac:(discriminate)).
      assert (Hr : requested (scalar_meaning at_long 0 long_parse long_apply)
                (means (scalar_meaning at_long 0 long_parse long_apply) five) None
                (entries_for [number] (-1) 3 0 add_take) = Some (Some 7)) by (vm_compute; reflexivity).
      rewrite Hr in Hm. by injection Hm as <-.
Defined.

(** The same attributes as those of a node: the user's request does not reach [mem]. *)
Lemma attr_atomic_node_set_protects_witness :
  exists rc bad new_attr, attr_atomic_node_set [set_r; set_m] values table (-1) 3 false = Some (rc, bad, new_attr)
    /\ rc = PBSE_ATTRRO /\ new_attr !! 1%nat = values !! 1%nat.
Proof.
  destruct (attr_atomic_node_set [set_r; set_m] values table (-1) 3 false) as [[[rc bad] n]|] eqn:E;
    [|vm_compute in E; discriminate].
  exists rc, bad, n. split; [reflexivity|]. split.
  - assert (Hv : match attr_atomic_node_set [set_r; set_m] values table (-1) 3 false with
                 | Some (rc, _, _) => rc | None => 0 end = PBSE_ATTRRO) by (vm_compute; reflexivity).
    rewrite E in Hv. exact Hv.
  - apply (attr_atomic_node_set_protects _ _ _ _ _ _ _ _ _ 1 (scalar_def [109] decode_size encode_size set_size comp_size 512 5) E);
      [reflexivity|left; reflexivity].
Defined.

(** Unsetting [mem] and then adding 1kb in one request gives 3kb: the old 2kb are
    duplicated again because the new attribute is no longer set. *)
Example unset_then_add_revives :
  (x ← attr_atomic_set [mk_svrattrl 0 2 0 1 0 None (Some 2) SET [109;0;0];
                        mk_svrattrl 0 2 0 4 0 None (Some 2) INCR [109;0;49;107;98;0]] values table (-1) 512;
   snd x !! 1%nat) = Some (mk_attribute 3 5 (VScalar (mk_size_value 3 10 0))).
Proof. vm_compute. reflexivity. Qed.

End AtomicWitnesses.
