(* ===== verification/AttrStr.v ===== *)
(** * String attributes (src/src/lib/Libattr/attr_fn_str.c)

    The value of a string attribute is a block of its own or NULL.  [INCR] concatenates,
    [DECR] removes occurrences of a string, in a loop that moves the tail of the string
    down over each of them.  [None] is undefined behaviour; a failed allocation is the
    code PBSE_SYSTEM. *)

From S2P Require Import Prelude CLib TcpDis Codec DisInt DisStr Attrs AttrVal AttrTypes.
From stdpp Require Import base list numbers option.

Local Open Scope Z_scope.

Definition PBSE_SYSTEM : Z := 15012.

(** The attribute with [at_str] pointing at the string, or NULL. *)
Abbreviation str_attribute := (attribute cptr).

Definition unset_flag {V} (a : attribute V) (v : V) : attribute V :=
  mk_attribute (Z.ldiff (at_flags a) ATR_VFLAG_SET) (at_type a) v.

Section Strings.
Context `{Platform}.

Definition decode_str : decoder cptr := fun patr val =>
  match val with
  | Some (c :: s) =>
      if calloc_ok (zlen (c :: s) + 1) then Some (0, now_set patr (Some (c :: s)))
      else Some (PBSE_SYSTEM, with_val patr None)
  | _ => Some (0, now_unset patr None)
  end.

Definition encode_str : encoder cptr := fun attr phead atname rsname =>
  if negb (is_set attr) then Some (0, phead)
  else match at_val attr with
       | Some (c :: s) => append_entry attr phead atname rsname (zlen (c :: s) + 1) (c :: s)
       | _ => Some (0, phead)
       end.

(** The loop of [DECR]: [p] walks from the end to the start of the string; where [b] is
    found the rest is moved down over it, which leaves [p] at the new end. *)
Fixpoint decr_loop (fuel : nat) (b s : list Z) (p : Z) : option (list Z) :=
  match fuel with
  | O => None
  | S fuel' =>
      if p <? 0 then Some s
      else if bool_decide (take (length b) (drop (Z.to_nat p) s) = b) then
        let s := take (Z.to_nat p) s ++ drop (Z.to_nat p + length b) s in
        decr_loop fuel' b s (zlen s + 1 - 1)
      else decr_loop fuel' b s (p - 1)
  end.

(** Enough for every occurrence to be followed by a walk over the whole string. *)
Definition decr_fuel (s : list Z) : nat := S (length s) * S (S (length s)).

(** The flags at the end: a string that has become empty is not set. *)
Definition str_done (attr : str_attribute) (v : cptr) : str_attribute :=
  match v with
  | Some (_ :: _) => now_set attr v
  | _ => unset_flag attr v
  end.

Definition set_str : setter cptr := fun attr new_attr op =>
  new_str ← at_val new_attr;
  assert_set new_attr
    (let op := if (op =? INCR) && match at_val attr with None => true | Some _ => false end then SET else op in
     if op =? SET then
       if calloc_ok (zlen new_str + 1) then Some (0, str_done attr (Some new_str))
       else Some (PBSE_SYSTEM, attr)
     else if op =? INCR then
       old ← at_val attr;
       if calloc_ok (zlen new_str + 1 + zlen old + 1) then Some (0, str_done attr (Some (old ++ new_str)))
       else Some (PBSE_SYSTEM, attr)
     else if op =? DECR then
       match at_val attr, new_str with
       | None, _ => Some (0, str_done attr None)
       | Some s, [] => Some (0, str_done attr (Some s))
       | Some s, b =>
           s ← decr_loop (decr_fuel s) b s (zlen s - zlen b);
           Some (0, str_done attr (Some s))
       end
     else Some (PBSE_INTERNAL, attr)).

(** [strcmp] *)
Fixpoint strcmp (a b : list Z) : Z :=
  match a, b with
  | [], [] => 0
  | [], _ :: _ => -1
  | _ :: _, [] => 1
  | x :: a', y :: b' => if u8 x <? u8 y then -1 else if u8 y <? u8 x then 1 else strcmp a' b'
  end.

(** [with->at_val.at_str] is not tested for NULL. *)
Definition comp_str (attr with_ : str_attribute) : option Z :=
  match at_val attr, at_val with_ with
  | None, _ => Some (-1)
  | Some _, None => None
  | Some a, Some b => Some (strcmp a b)
  end.

Definition free_str (attr : str_attribute) : str_attribute := unset_flag attr None.

Definition replace_attr_string (attr : str_attribute) (newval : cptr) : str_attribute :=
  let a := free_str attr in
  mk_attribute (Z.lor (at_flags a) ATR_VFLAG_SET) (at_type a) newval.

(** ** Removing every occurrence *)

(** [b] occurs in [s] at position [p]. *)
Definition at_pos (b s : list Z) (p : nat) : Prop := take (length b) (drop p s) = b.

Lemma at_pos_split b s p : at_pos b s p -> s = take p s ++ b ++ drop (p + length b) s.
Proof.
  unfold at_pos. intros E. rewrite <- (take_drop p s) at 1. f_equal.
  rewrite <- (take_drop (length b) (drop p s)) at 1. by rewrite E, drop_drop.
Qed.

Lemma at_pos_app b l r : at_pos b (l ++ b ++ r) (length l).
Proof. unfold at_pos. by rewrite drop_app_length, take_app_length. Qed.

Lemma at_pos_bound b s p : b <> [] -> at_pos b s p -> (p + length b <= length s)%nat.
Proof.
  unfold at_pos. intros Hb E. apply (f_equal length) in E. rewrite length_take, length_drop in E.
  assert (length b <> 0)%nat by (by destruct b). lia.
Qed.

(** [s'] is [s] with some occurrences of [b] cut out one after the other. *)
Inductive cut (b : list Z) : list Z -> list Z -> Prop :=
  | cut_done s : cut b s s
  | cut_more l r s' : cut b (l ++ r) s' -> cut b (l ++ b ++ r) s'.

Lemma decr_loop_removes b : b <> [] -> forall fuel s p,
  p <= zlen s -> (forall q, (Z.to_nat (p + 1) <= q)%nat -> ~ at_pos b s q) ->
  (length s * S (S (length s)) + Z.to_nat (p + 1) < fuel)%nat ->
  exists s', decr_loop fuel b s p = Some s' /\ cut b s s' /\ forall q, ~ at_pos b s' q.
Proof.
  intros Hb. induction fuel as [|fuel IH]; intros s p Hp Hno Hf; [lia|]. cbn [decr_loop].
  destruct (Z.ltb_spec p 0) as [Hneg|Hpos].
  { exists s. split; [done|]. split; [constructor|]. intros q. apply Hno. lia. }
  destruct (bool_decide_reflect (take (length b) (drop (Z.to_nat p) s) = b)) as [E|E].
  - set (s1 := take (Z.to_nat p) s ++ drop (Z.to_nat p + length b) s).
    pose proof (at_pos_bound b s (Z.to_nat p) Hb E) as Hl.
    assert (Hs1 : (length s1 + length b = length s)%nat)
      by (unfold s1; rewrite length_app, length_take, length_drop; lia).
    assert (0 < length b)%nat by (destruct b; [done|simpl; lia]).
    destruct (IH s1 (zlen s1 + 1 - 1)) as (s' & Es & Hc & Hn).
    + unfold zlen. lia.
    + intros q Hq Ha%at_pos_bound; [|done]. unfold zlen in Hq. lia.
    + unfold zlen. replace (Z.to_nat (Z.of_nat (length s1) + 1 - 1 + 1)) with (S (length s1)) by lia.
      assert (length s1 + 1 <= length s)%nat by lia. nia.
    + exists s'. split; [done|]. split; [|done]. rewrite (at_pos_split b s (Z.to_nat p) E). by constructor.
  - destruct (IH s (p - 1)) as (s' & Es & Hc & Hn); [lia| |lia|by exists s'].
    intros q Hq Ha. destruct (decide (q = Z.to_nat p)) as [->|]; [done|]. apply (Hno q); [lia|done].
Qed.

(** The string type keeps the contract of the attribute types. *)
Context {Hall : AllocOk}.

Lemma str_done_nonempty attr s : s <> [] -> str_done attr (Some s) = now_set attr (Some s).
Proof. by destruct s. Qed.

#[export] Instance str_type :
  ScalarType (V := cptr) (list Z) (default []) decode_str encode_str set_str.
Proof.
  refine {| text s := s; room s := zlen s + 1;
            good s := s <> [] /\ nul_free s /\ zlen s + 1 <= INT_MAX |}.
  - intros s (Hn & Hf & _). repeat split; [done|done|lia].
  - intros a ph n r Hs. unfold encode_str. by rewrite Hs.
  - intros a ph n r Hs (Hne & _) Hn. unfold encode_str. rewrite Hs. cbn [negb].
    destruct (at_val a) as [[|c s]|]; [done| |done]. apply append_entry_ok; [done|lia].
  - intros a s (Hne & _ & Hl). exists (Some s). split; [|done]. unfold decode_str. destruct s as [|c s]; [done|].
    rewrite alloc_ok; [done|]. pose proof (zlen_nonneg (c :: s)). unfold INT_MAX, ALLOC_MAX in *. lia.
  - intros a [[|c s]|] Hv; [by eexists|done|by eexists].
  - intros a b Hb (Hne & _ & Hl). destruct (at_val b) as [s|] eqn:Eb; [|done]. simpl in *. exists (Some s).
    split; [|done]. unfold set_str, assert_set. rewrite Eb, Hb. cbn [mbind option_bind].
    change ((SET =? INCR) && _) with false. cbv iota. change (SET =? SET) with true. cbv iota.
    rewrite alloc_ok by (pose proof (zlen_nonneg s); unfold INT_MAX, ALLOC_MAX in *; lia).
    by rewrite str_done_nonempty.
  - intros a b op Hb (Hne & _) H1 H2 H3. destruct (at_val b) as [s|] eqn:Eb; [|done].
    unfold set_str, assert_set. rewrite Eb, Hb. cbn [mbind option_bind].
    rewrite (proj2 (Z.eqb_neq op INCR) H2). cbn [andb].
    by rewrite (proj2 (Z.eqb_neq op SET) H1), (proj2 (Z.eqb_neq op INCR) H2), (proj2 (Z.eqb_neq op DECR) H3).
Defined.

(** A string attribute travels from one daemon to another like the scalar ones, and the
    operations on strings are: [SET] copies, [INCR] appends, to a NULL as to nothing, and
    [DECR] cuts occurrences of the string out until none is left, in a loop that ends;
    the attribute is set exactly when the string left is not empty. *)
Theorem string_attributes :
  travels (default []) decode_str encode_str set_str
    (fun s => s <> [] /\ nul_free s /\ zlen s + 1 <= INT_MAX) (fun s => zlen s + 1) /\
  forall a b s t, is_set b = true -> at_val b = Some t -> t <> [] -> s = default [] (at_val a) ->
    zlen s + zlen t + 2 <= ALLOC_MAX ->
    set_str a b INCR = Some (0, now_set a (Some (s ++ t))) /\
    (at_val a <> None -> exists s', set_str a b DECR = Some (0, str_done a (Some s')) /\ cut t s s' /\
       (forall l r, s' <> l ++ t ++ r) /\
       is_set (str_done a (Some s')) = negb (bool_decide (s' = []))).
Proof.
  split; [by apply (scalar_travels _ _ _ _ str_type)|].
  intros a b s t Hb Et Hne Es Hl. pose proof (zlen_nonneg s). pose proof (zlen_nonneg t).
  unfold set_str, assert_set. rewrite Et, Hb. cbn [mbind option_bind]. split.
  - destruct (at_val a) as [u|] eqn:Ea; simpl in Es; subst s; cbn [andb].
    + change (INCR =? INCR) with true. cbn [andb]. change (INCR =? SET) with false. cbv iota.
      cbn [mbind option_bind]. rewrite alloc_ok by lia. rewrite str_done_nonempty; [done|].
      destruct u; [done|discriminate].
    + change (INCR =? INCR) with true. cbn [andb]. change (SET =? SET) with true. cbv iota.
      rewrite alloc_ok by (rewrite zlen_nil in *; lia). by rewrite str_done_nonempty.
  - intros Ha. destruct (at_val a) as [u|] eqn:Ea; [|done]. simpl in Es. subst u.
    change (DECR =? INCR) with false. cbn [andb]. change (DECR =? SET) with false. cbv iota.
    change (DECR =? DECR) with true. cbv iota. destruct t as [|c t]; [done|].
    destruct (decr_loop_removes (c :: t) Hne (decr_fuel s) s (zlen s - zlen (c :: t)))
      as (s' & E & Hc & Hno).
    + lia.
    + intros q Hq Hq2%at_pos_bound; [|done]. unfold zlen in Hq. lia.
    + unfold decr_fuel, zlen. simpl length. nia.
    + rewrite E. cbn [mbind option_bind]. exists s'. split; [done|]. split; [done|]. split.
      * intros l r ->. apply (Hno (length l)), at_pos_app.
      * destruct s'; simpl; [|by rewrite is_set_now_set].
        rewrite is_set_bit. unfold unset_flag. cbn [at_flags]. by rewrite Z.ldiff_spec, andb_false_r.
Qed.

End Strings.

Section StringWitnesses.
#[local] Existing Instance generous.
#[local] Existing Instance generous_ok.

(** ["aXbXc"] without ["X"]. *)
Lemma string_attributes_witness :
  exists s', set_str (mk_attribute 1 3 (Some [97;88;98;88;99])) (mk_attribute 1 3 (Some [88])) DECR
    = Some (0, str_done (mk_attribute 1 3 (Some [97;88;98;88;99])) (Some s')) /\
    forall l r, s' <> l ++ [88] ++ r.
Proof.
  destruct (proj2 string_attributes (mk_attribute 1 3 (Some [97;88;98;88;99])) (mk_attribute 1 3 (Some [88]))
    [97;88;98;88;99] [88]) as (_ & Hd);
    [reflexivity|reflexivity|discriminate|reflexivity|vm_compute; discriminate|].
  destruct Hd as (s' & E & _ & Hn & _); [discriminate|]. exists s'. split; [exact E|exact Hn].
Defined.

(** Not only a match at the end is stripped. *)
Example decr_removes_all :
  set_str (mk_attribute 1 3 (Some [97;88;98;88;99])) (mk_attribute 1 3 (Some [88])) DECR
  = Some (0, mk_attribute 3 3 (Some [97;98;99])).
Proof. reflexivity. Qed.

End StringWitnesses.
