(* ===== verification/Csv.v ===== *)
(** * Comma separated lists (src/src/lib/Libcsv/csv.c, attr_fn_str.c)

    [csv_nth] copies an item of a list into the next of 32 static buffers and returns a
    pointer into it, so an item lives until 32 more have been taken.  The buffers are
    the state; a [char *] is a string of the caller's or a place in a buffer.  [UB] is a
    string that runs out of its buffer. *)

From S2P Require Import Prelude CLib TcpDis Codec DisInt DisStr Attrs AttrVal AttrTypes AttrStr.
From stdpp Require Import base list numbers option.

Local Open Scope Z_scope.
Local Open Scope st_scope.

Definition NBUFFERS : Z := 32.
Definition BUFFER_SIZE : Z := 128.
Definition c_comma : Z := 44.

Record ring := mk_ring { rg_buf : list (list Z); rg_index : Z }.
Abbreviation R := (ST ring).

Inductive cref := Own (s : list Z) | InRing (b off : nat).

(** The string a pointer points at, now. *)
Definition deref (p : cref) : R (list Z) := fun r =>
  match p with
  | Own s => Ret s r
  | InRing b off => match buf ← rg_buf r !! b; cstring (drop off buf) with
                    | Some s => Ret s r
                    | None => UB
                    end
  end.

Definition ref_add (p : cref) (n : nat) : cref :=
  match p with Own s => Own (drop n s) | InRing b off => InRing b (off + n) end.

(** [strchr] *)
Fixpoint strchr (c : Z) (s : list Z) : option (list Z) :=
  match s with
  | [] => None
  | x :: s' => if x =? c then Some s else strchr c s'
  end.

Definition isalpha (c : Z) : bool := ((65 <=? c) && (c <=? 90)) || ((97 <=? c) && (c <=? 122)).

(** ** Lengths and items *)

Fixpoint commas (s : list Z) : Z :=
  match s with
  | [] => 0
  | x :: s' => if x =? c_comma then 1 + commas s' else commas s'
  end.

Definition csv_length (csv_str : cptr) : Z :=
  match csv_str with
  | None | Some [] => 0
  | Some s => 1 + commas s
  end.

(** [cp] behind [n] commas. *)
Fixpoint skip_items (n : nat) (cp : list Z) : option (list Z) :=
  match n with
  | O => Some cp
  | S n' => match strchr c_comma cp with
            | Some (_ :: cp') => skip_items n' cp'
            | _ => None
            end
  end.

(** The next buffer, cleared. *)
Definition next_buffer : R nat := fun r =>
  let i := rg_index r + 1 in
  let i := if NBUFFERS <=? i then 0 else i in
  Ret (Z.to_nat i) (mk_ring (<[Z.to_nat i := zeros BUFFER_SIZE]> (rg_buf r)) i).

Definition fill (b : nat) (content : list Z) : R unit :=
  st_modify (fun r => mk_ring (<[b := content]> (rg_buf r)) (rg_index r)).

Definition csv_nth (csv_str : cptr) (n : nat) : R (option cref) :=
  match csv_str with
  | None | Some [] => st_ret None
  | Some s =>
      match skip_items n s with
      | None => st_ret None
      | Some cp =>
          let* b := next_buffer in
          match strchr c_comma cp with
          | Some tp =>
              let k := zlen cp - zlen tp in
              if BUFFER_SIZE <? k then st_ret None
              else fill b (take (Z.to_nat k) cp ++ zeros (BUFFER_SIZE - k)) >>>
                   st_ret (Some (InRing b 0))
          | None =>
              let t := take (Z.to_nat (BUFFER_SIZE - 1)) cp in
              fill b (t ++ zeros (BUFFER_SIZE - zlen t)) >>> st_ret (Some (InRing b 0))
          end
      end
  end.

(** [while (isspace(\*cp)) cp++] *)
Fixpoint spaces (s : list Z) : nat :=
  match s with c :: s' => if isspace c then S (spaces s') else O | [] => O end.

Definition skip_ws (p : cref) : R cref :=
  let* s := deref p in st_ret (ref_add p (spaces s)).

(** ** Searching *)

(** From item [i] on, [n] of them left. *)
Fixpoint find_loop (csv_str : cptr) (search_str : cref) (search_length : nat) (n i : nat) : R (option cref) :=
  match n with
  | O => st_ret None
  | S n' =>
      let* p := csv_nth csv_str i in
      match p with
      | None => find_loop csv_str search_str search_length n' (S i)
      | Some p =>
          let* p := skip_ws p in
          let* cp := deref p in
          if (search_length <=? length cp)%nat && negb (isalpha (nth search_length cp 0)) then
            let* now := deref search_str in
            if bool_decide (take search_length cp = take search_length now) then st_ret (Some p)
            else find_loop csv_str search_str search_length n' (S i)
          else find_loop csv_str search_str search_length n' (S i)
      end
  end.

Definition csv_find_string (csv_str : cptr) (search_str : option cref) : R (option cref) :=
  match search_str with
  | None => st_ret None
  | Some p =>
      let* s := deref p in
      find_loop csv_str p (length s) (Z.to_nat (csv_length csv_str)) 0
  end.

Definition csv_find_value (csv_str : cptr) (search_str : option cref) : R (option cref) :=
  let* p := csv_find_string csv_str search_str in
  match p with
  | None => st_ret None
  | Some p =>
      let* cp := deref p in
      match strchr 61 cp with
      | Some vp => st_ret (Some (ref_add p (length cp - length vp + 1)))
      | None => st_ret None
      end
  end.

(** ** Attributes that are lists *)

Section CsvAttributes.
Context `{Platform}.

Fixpoint remove_loop (src model_pattern : cptr) (n i : nat) (result : list Z) : R (list Z) :=
  match n with
  | O => st_ret result
  | S n' =>
      let* p := csv_nth src i in
      match p with
      | None => remove_loop src model_pattern n' (S i) result
      | Some p =>
          let* item := skip_ws p in
          let* s := deref item in
          if negb (zlen s =? 0) then
            let* found := csv_find_string model_pattern (Some item) in
            match found with
            | None =>
                let* s := deref item in
                remove_loop src model_pattern n' (S i)
                  (result ++ (if negb (zlen result =? 0) then [c_comma] else []) ++ s)
            | Some _ => remove_loop src model_pattern n' (S i) result
            end
          else remove_loop src model_pattern n' (S i) result
      end
  end.

Definition remove_from_csv (src model_pattern : cptr) : R cptr :=
  let* result := remove_loop src model_pattern (Z.to_nat (csv_length src)) 0 [] in
  if negb (zlen result =? 0) && calloc_ok (zlen result + 1) then st_ret (Some result) else st_ret None.

(** The code, the attribute and [new_attr], whose string [INCR] replaces. *)
Definition set_str_csv (attr new_attr : str_attribute) (op : Z) : R (Z * str_attribute * str_attribute) :=
  match at_val new_attr with
  | None => st_ub
  | Some new_str =>
      if negb (is_set new_attr) then st_ub
      else
        let op := if (op =? INCR) && match at_val attr with None => true | Some _ => false end then SET else op in
        if op =? SET then
          if calloc_ok (zlen new_str + 1) then st_ret (0, now_set attr (Some new_str), new_attr)
          else st_ret (PBSE_SYSTEM, attr, new_attr)
        else if (op =? INCR_OLD) || (op =? INCR) then
          let* new_data := remove_from_csv (Some new_str) (at_val attr) in
          let new_attr := with_val new_attr new_data in
          match new_data with
          | None => st_ret (0, attr, new_attr)
          | Some d =>
              if calloc_ok (zlen d + 1 + match at_val attr with Some s => zlen s | None => 0 end + 1) then
                st_ret (0, now_set attr (Some (match at_val attr with
                                               | Some s => s ++ [c_comma] ++ d
                                               | None => d
                                               end)), new_attr)
              else st_ret (PBSE_SYSTEM, attr, new_attr)
          end
        else if op =? DECR then
          match at_val attr, new_str with
          | None, _ | _, [] => st_ret (0, attr, new_attr)
          | Some s, _ =>
              let* new_data := remove_from_csv (Some s) (Some new_str) in
              st_ret (0, now_set attr new_data, new_attr)
          end
        else st_ret (PBSE_INTERNAL, attr, new_attr)
  end.

End CsvAttributes.

(** ** The items of a list *)

Fixpoint items (s : list Z) : list (list Z) :=
  match s with
  | [] => [[]]
  | c :: s' => if c =? c_comma then [] :: items s'
               else match items s' with x :: xs => (c :: x) :: xs | [] => [[c]] end
  end.

Definition trim (s : list Z) : list Z := drop (spaces s) s.

Lemma items_nonempty s : items s <> [].
Proof. destruct s as [|c s]; simpl; [done|]. destruct (c =? c_comma); [done|]. by destruct (items s). Qed.

Lemma commas_items s : 1 + commas s = zlen (items s).
Proof.
  induction s as [|c s IH]; [done|]. simpl. destruct (c =? c_comma); [rewrite zlen_cons; lia|].
  pose proof (items_nonempty s). destruct (items s) as [|x xs]; [done|]. rewrite zlen_cons in *. lia.
Qed.

Lemma csv_length_items s : s <> [] -> csv_length (Some s) = zlen (items s).
Proof. destruct s; [done|]. intros _. apply commas_items. Qed.

(** The first item ends at the first comma. *)
Lemma items_strchr s x xs : items s = x :: xs ->
  match xs with
  | [] => strchr c_comma s = None /\ s = x
  | _ => exists t, strchr c_comma s = Some (c_comma :: t) /\ s = x ++ c_comma :: t /\ items t = xs
  end.
Proof.
  revert x xs. induction s as [|c s IH]; simpl; intros x xs; [by intros [= <- <-]|].
  destruct (Z.eqb_spec c c_comma) as [->|Hc].
  - intros [= <- <-]. pose proof (items_nonempty s). destruct (items s) as [|y ys] eqn:E; [done|].
    by exists s.
  - pose proof (items_nonempty s). destruct (items s) as [|y ys] eqn:E; [done|]. intros [= <- <-].
    specialize (IH y ys eq_refl). destruct ys as [|z zs].
    + destruct IH as [-> ->]. done.
    + destruct IH as (t & -> & -> & Ht). by exists t.
Qed.

Lemma skip_items_ok n : forall s, (n < length (items s))%nat ->
  exists cp, skip_items n s = Some cp /\ items cp = drop n (items s).
Proof.
  induction n as [|n IH]; intros s Hn; [by exists s|]. cbn [skip_items].
  destruct (items s) as [|x xs] eqn:E; [simpl in Hn; lia|]. pose proof (items_strchr s x xs E) as Hs.
  destruct xs as [|y ys]; [simpl in Hn; lia|]. destruct Hs as (t & -> & _ & Et).
  destruct (IH t) as (cp & Ec & Ei); [rewrite Et; simpl in *; lia|]. exists cp. split; [done|].
  by rewrite Ei, Et.
Qed.

Lemma items_nul_free s : nul_free s -> Forall nul_free (items s).
Proof.
  induction 1 as [|c s Hc _ IH]; simpl; [by repeat constructor|].
  destruct (c =? c_comma); [constructor; [constructor|done]|].
  destruct (items s) as [|x xs]; [by repeat constructor|].
  apply list.Forall_cons in IH as [Hx Hxs]. by repeat constructor.
Qed.

(** ** The ring *)

Record ring_ok (r : ring) : Prop := {
  ro_count : length (rg_buf r) = 32%nat;
  ro_index : 0 <= rg_index r < NBUFFERS }.

(** The index [k] buffers further on. *)
Definition ahead (r : ring) (k : nat) : nat := Z.to_nat ((rg_index r + Z.of_nat k) mod NBUFFERS).

Lemma ahead_bound r k : (ahead r k < 32)%nat.
Proof. unfold ahead, NBUFFERS. pose proof (Z.mod_pos_bound (rg_index r + Z.of_nat k) 32). lia. Qed.

(** An item in a buffer: its characters, then zeros. *)
Definition slot (x : list Z) : list Z := x ++ zeros (BUFFER_SIZE - zlen x).

Definition short (x : list Z) : Prop := nul_free x /\ zlen x < BUFFER_SIZE.

Lemma slot_cstring x off : short x -> (off <= length x)%nat -> cstring (drop off (slot x)) = Some (drop off x).
Proof.
  intros [Hn Hl] Ho. unfold slot. rewrite drop_app_le by lia.
  replace (BUFFER_SIZE - zlen x) with (1 + (BUFFER_SIZE - zlen x - 1)) by lia.
  rewrite zeros_app by lia. apply cstring_app. by apply Forall_drop.
Qed.

(** The ring after [x] has been stored in the next buffer. *)
Definition stored (r : ring) (x : list Z) : ring :=
  mk_ring (<[ahead r 1 := slot x]> (rg_buf r)) (Z.of_nat (ahead r 1)).

Lemma stored_ok r x : ring_ok r -> ring_ok (stored r x).
Proof.
  intros [Hc Hi]. pose proof (ahead_bound r 1). constructor; simpl; [by rewrite length_insert|].
  unfold NBUFFERS. lia.
Qed.

Lemma ahead_stored r x k : ring_ok r -> ahead (stored r x) k = ahead r (S k).
Proof.
  intros [_ Hi]. unfold ahead, stored, ahead. cbn [rg_index]. unfold NBUFFERS in *. f_equal.
  rewrite Z2Nat.id by (apply Z.mod_pos_bound; lia). rewrite Zplus_mod_idemp_l. f_equal. lia.
Qed.

Lemma csv_nth_ok s n x r : ring_ok r -> s <> [] -> items s !! n = Some x -> short x ->
  csv_nth (Some s) n r = Ret (Some (InRing (ahead r 1) 0)) (stored r x).
Proof.
  intros [Hc Hi] Hs Hx [Hnf Hl]. unfold csv_nth. destruct s as [|c s]; [done|].
  destruct (skip_items_ok n (c :: s)) as (cp & -> & Ei); [by eapply lookup_lt_Some|].
  rewrite (drop_S _ x n Hx) in Ei. pose proof (items_strchr cp x _ Ei) as Hf.
  unfold next_buffer, st_bind. unfold NBUFFERS in *.
  assert (Eb : (if 32 <=? rg_index r + 1 then 0 else rg_index r + 1) = Z.of_nat (ahead r 1)).
  { unfold ahead, NBUFFERS. rewrite Z2Nat.id by (apply Z.mod_pos_bound; lia).
    destruct (Z.leb_spec 32 (rg_index r + 1)); [|symmetry; apply Z.mod_small; lia].
    replace (rg_index r + Z.of_nat 1) with 32 by lia. done. }
  rewrite Eb, Nat2Z.id. pose proof (ahead_bound r 1). pose proof (zlen_nonneg x).
  assert (Hfin : forall content, content = slot x ->
    (fill (ahead r 1) content >>> st_ret (Some (InRing (ahead r 1) 0)))
      (mk_ring (<[ahead r 1 := zeros BUFFER_SIZE]> (rg_buf r)) (Z.of_nat (ahead r 1)))
    = Ret (Some (InRing (ahead r 1) 0)) (stored r x)).
  { intros content ->. unfold fill, st_modify, st_bind, st_ret, stored. cbn [rg_buf rg_index].
    by rewrite list_insert_insert_eq. }
  destruct (drop (S n) (items (c :: s))) as [|y ys].
  - destruct Hf as [-> ->]. apply Hfin. unfold slot. rewrite take_ge by (unfold zlen, BUFFER_SIZE in *; lia). done.
  - destruct Hf as (t & -> & -> & _). rewrite zlen_app. replace (zlen x + zlen (c_comma :: t) - zlen (c_comma :: t)) with (zlen x) by lia.
    rewrite (proj2 (Z.ltb_ge _ _)) by lia. apply Hfin. unfold slot. f_equal.
    unfold zlen. by rewrite Nat2Z.id, take_app_length.
Qed.

Lemma stored_lookup r x : ring_ok r -> rg_buf (stored r x) !! ahead r 1 = Some (slot x).
Proof.
  intros [Hc _]. pose proof (ahead_bound r 1). unfold stored. cbn [rg_buf].
  by rewrite list_lookup_insert_eq by (rewrite Hc; lia).
Qed.

Lemma spaces_le s : (spaces s <= length s)%nat.
Proof. induction s as [|c s IH]; simpl; [lia|]. destruct (isspace c); lia. Qed.

(** The pointer [p] points at [s]. *)
Definition points (r : ring) (p : cref) (s : list Z) : Prop := deref p r = Ret s r.

Lemma points_slot r b x off : rg_buf r !! b = Some (slot x) -> short x -> (off <= length x)%nat ->
  points r (InRing b off) (drop off x).
Proof. intros Hb Hx Ho. unfold points, deref. rewrite Hb. simpl. by rewrite slot_cstring. Qed.

Lemma skip_ws_slot r b x : rg_buf r !! b = Some (slot x) -> short x ->
  skip_ws (InRing b 0) r = Ret (InRing b (spaces x)) r /\ points r (InRing b (spaces x)) (trim x).
Proof.
  intros Hb Hx. pose proof (points_slot r b x 0 Hb Hx ltac:(lia)) as H0. rewrite drop_0 in H0.
  split; [|by apply points_slot; [..|apply spaces_le]].
  unfold skip_ws. rewrite (st_bind_ret _ _ _ _ _ H0). done.
Qed.

(** [p] stays what it is while up to [n] more items are taken. *)
Definition survives (r : ring) (p : cref) (n : nat) : Prop :=
  match p with Own _ => True | InRing b _ => forall k, (1 <= k <= n)%nat -> ahead r k <> b end.

Lemma survives_stored r p n x : ring_ok r -> survives r p (S n) -> survives (stored r x) p n.
Proof.
  intros Hr Hs. destruct p as [s|b off]; [done|]. intros k Hk. rewrite ahead_stored by done. apply Hs. lia.
Qed.

Lemma points_stored r p n x s : survives r p (S n) -> points r p s -> points (stored r x) p s.
Proof.
  intros Hs Hp. destruct p as [t|b off]; unfold points, deref in *.
  - injection Hp as ->. done.
  - specialize (Hs 1%nat ltac:(lia)). unfold stored. cbn [rg_buf]. rewrite list_lookup_insert_ne by done.
    destruct (buf ← rg_buf r !! b; cstring (drop off buf)) as [u|]; [|done]. by injection Hp as ->.
Qed.

(** What the search takes for the entry [it]: [it] itself, or [it] followed by anything
    but a letter. *)
Definition is_match (it p : list Z) : bool :=
  (length it <=? length p)%nat && negb (isalpha (nth (length it) p 0)) &&
  bool_decide (take (length it) p = it).

Definition found (pat : cptr) (it : list Z) : bool :=
  match pat with
  | None | Some [] => false
  | Some s => existsb (fun x => is_match it (trim x)) (items s)
  end.

Lemma find_loop_ok pat p it n : forall i r,
  ring_ok r -> pat <> [] -> Forall short (items pat) -> (n + i = length (items pat))%nat ->
  points r p it -> survives r p n ->
  exists res r', find_loop (Some pat) p (length it) n i r = Ret res r' /\ ring_ok r' /\ points r' p it /\
    bool_decide (is_Some res) = existsb (fun x => is_match it (trim x)) (drop i (items pat)).
Proof.
  induction n as [|n IH]; intros i r Hr Hne Hsh Hn Hp Hs.
  { exists None, r. rewrite drop_ge by lia. done. }
  destruct (lookup_lt_is_Some_2 (items pat) i) as [x Hx]; [lia|].
  pose proof (proj1 (list.Forall_lookup short (items pat)) Hsh i x Hx) as Hxs.
  cbn [find_loop]. rewrite (st_bind_ret _ _ _ _ _ (csv_nth_ok pat i x r Hr Hne Hx Hxs)).
  pose proof (stored_ok r x Hr) as Hr1. pose proof (points_stored r p n x it Hs Hp) as Hp1.
  pose proof (survives_stored r p n x Hr Hs) as Hs1.
  destruct (skip_ws_slot (stored r x) _ x (stored_lookup r x Hr) Hxs) as [Ew Hw].
  rewrite (st_bind_ret _ _ _ _ _ Ew), (st_bind_ret _ _ _ _ _ Hw).
  rewrite (drop_S _ x i Hx). cbn [existsb]. unfold is_match at 1.
  destruct (IH (S i) (stored r x) Hr1 Hne Hsh ltac:(lia) Hp1 Hs1) as (res & r' & El & Hr' & Hp' & Hres).
  destruct ((length it <=? length (trim x))%nat && negb (isalpha (nth (length it) (trim x) 0))); cbn [andb orb].
  2:{ exists res, r'. by rewrite El. }
  rewrite (st_bind_ret _ _ _ _ _ Hp1). rewrite (take_ge it) by lia.
  destruct (bool_decide (take (length it) (trim x) = it)); cbn [orb]; [|by exists res, r'].
  eexists _, _. split; [reflexivity|]. split; [done|]. split; [done|]. by rewrite bool_decide_eq_true_2.
Qed.

Lemma csv_find_string_ok pat p it r :
  ring_ok r -> (forall s, pat = Some s -> Forall short (items s) /\ survives r p (length (items s))) ->
  points r p it ->
  exists res r', csv_find_string pat (Some p) r = Ret res r' /\ ring_ok r' /\ points r' p it /\
    bool_decide (is_Some res) = found pat it.
Proof.
  intros Hr Hpat Hp. unfold csv_find_string. rewrite (st_bind_ret _ _ _ _ _ Hp).
  destruct pat as [[|c s]|]; [by exists None, r| |by exists None, r].
  destruct (Hpat _ eq_refl) as [Hsh Hsv]. rewrite csv_length_items by done. unfold zlen. rewrite Nat2Z.id.
  destruct (find_loop_ok (c :: s) p it (length (items (c :: s))) 0 r) as (res & r' & E & Hr' & Hp' & Hres);
    [done|done|done|lia|done|done|]. exists res, r'. split; [done|]. split; [done|]. split; [done|].
  by rewrite Hres, drop_0.
Qed.

(** ** Lists without the items of another *)

Definition keep (pat : cptr) (it : list Z) : bool := negb (bool_decide (it = [])) && negb (found pat it).

(** The items of [s] that are kept, without their leading spaces. *)
Definition kept (s : list Z) (pat : cptr) : list (list Z) := List.filter (keep pat) (map trim (items s)).

Definition join_onto (acc : list Z) (l : list (list Z)) : list Z :=
  foldl (fun acc s => acc ++ (if negb (zlen acc =? 0) then [c_comma] else []) ++ s) acc l.

Definition csv_ok (s : list Z) : Prop := Forall short (items s).

(** Few enough items that an item of the other list survives the search. *)
Definition pattern_ok (pat : cptr) : Prop :=
  forall s, pat = Some s -> csv_ok s /\ (length (items s) < 32)%nat.

Lemma latest_survives r x n off : ring_ok r -> (n < 32)%nat -> survives (stored r x) (InRing (ahead r 1) off) n.
Proof.
  intros Hr Hn k Hk. rewrite ahead_stored by done. unfold ahead, NBUFFERS. destruct Hr as [_ Hi].
  unfold NBUFFERS in Hi.
  pose proof (Z.mod_pos_bound (rg_index r + Z.of_nat (S k)) 32 ltac:(lia)).
  pose proof (Z.mod_pos_bound (rg_index r + Z.of_nat 1) 32 ltac:(lia)).
  pose proof (Z.div_mod (rg_index r + Z.of_nat (S k)) 32 ltac:(lia)).
  pose proof (Z.div_mod (rg_index r + Z.of_nat 1) 32 ltac:(lia)).
  intros E%Z2Nat.inj; lia.
Qed.

Section CsvProofs.
Context `{AllocOk}.

Lemma remove_loop_ok src pat n : forall i acc r,
  ring_ok r -> src <> [] -> csv_ok src -> pattern_ok pat -> (n + i = length (items src))%nat ->
  exists r', remove_loop (Some src) pat n i acc r =
    Ret (join_onto acc (List.filter (keep pat) (map trim (drop i (items src))))) r' /\ ring_ok r'.
Proof.
  induction n as [|n IH]; intros i acc r Hr Hne Hs Hp Hn.
  { exists r. by rewrite drop_ge by lia. }
  destruct (lookup_lt_is_Some_2 (items src) i) as [x Hx]; [lia|].
  pose proof (proj1 (list.Forall_lookup short (items src)) Hs i x Hx) as Hxs.
  cbn [remove_loop]. rewrite (st_bind_ret _ _ _ _ _ (csv_nth_ok src i x r Hr Hne Hx Hxs)).
  pose proof (stored_ok r x Hr) as Hr1.
  destruct (skip_ws_slot (stored r x) _ x (stored_lookup r x Hr) Hxs) as [Ew Hw].
  rewrite (st_bind_ret _ _ _ _ _ Ew), (st_bind_ret _ _ _ _ _ Hw), (drop_S _ x i Hx).
  cbn [map List.filter]. unfold keep at 1.
  destruct (trim x) as [|c t] eqn:Et.
  { change (negb (bool_decide ([] = []))) with false. cbn [andb negb]. rewrite zlen_nil.
    change (negb (0 =? 0)) with false. cbv iota. apply IH; try done; lia. }
  rewrite bool_decide_eq_false_2 by done. cbn [negb andb].
  replace (zlen (c :: t) =? 0) with false
    by (symmetry; apply Z.eqb_neq; rewrite zlen_cons; pose proof (zlen_nonneg t); lia).
  cbn [negb]. rewrite <- Et in *.
  destruct (csv_find_string_ok pat (InRing (ahead r 1) (spaces x)) (trim x) (stored r x)) as (res & r2 & Ef & Hr2 & Hp2 & Hres);
    [done| |done|].
  { intros s ->. destruct (Hp s eq_refl) as [? ?]. split; [done|]. by apply latest_survives. }
  rewrite (st_bind_ret _ _ _ _ _ Ef), <- Hres. destruct res as [q|].
  - rewrite bool_decide_eq_true_2 by done. cbn [negb]. apply IH; try done; lia.
  - rewrite bool_decide_eq_false_2 by apply is_Some_None. cbn [negb].
    rewrite (st_bind_ret _ _ _ _ _ Hp2). unfold join_onto. cbn [foldl]. apply IH; try done; lia.
Qed.

(** The joined list, or NULL for none. *)
Definition joined (l : list (list Z)) : cptr := match l with [] => None | _ => Some (join_onto [] l) end.

Lemma join_onto_nonempty l : forall acc, acc <> [] -> join_onto acc l <> [].
Proof.
  unfold join_onto. induction l as [|s l IH]; intros acc Ha; [done|]. simpl. apply IH.
  by destruct acc.
Qed.

Lemma remove_from_csv_ok src pat r :
  ring_ok r -> csv_ok src -> pattern_ok pat -> zlen (join_onto [] (kept src pat)) < ALLOC_MAX ->
  exists r', remove_from_csv (Some src) pat r = Ret (joined (kept src pat)) r' /\ ring_ok r'.
Proof.
  intros Hr Hs Hp Hl. unfold remove_from_csv. destruct src as [|c src].
  { simpl. exists r. unfold kept, st_bind. simpl. done. }
  rewrite csv_length_items by done. unfold zlen at 1. rewrite Nat2Z.id.
  destruct (remove_loop_ok (c :: src) pat (length (items (c :: src))) 0 [] r) as (r' & E & Hr');
    [done|done|done|done|lia|]. rewrite drop_0 in E. fold (kept (c :: src) pat) in E.
  exists r'. rewrite (st_bind_ret _ _ _ _ _ E). split; [|done].
  assert (Hne : Forall (fun s => s <> []) (kept (c :: src) pat)).
  { unfold kept. apply list.Forall_forall. intros s [_ Hk]%list_elem_of_In%filter_In.
    unfold keep in Hk. apply andb_prop in Hk as [Hk _]. by apply negb_true_iff, bool_decide_eq_false in Hk. }
  pose proof (zlen_nonneg (join_onto [] (kept (c :: src) pat))).
  destruct (kept (c :: src) pat) as [|s l]; [done|]. apply list.Forall_cons in Hne as [Hs0 _].
  assert (Hj : join_onto [] (s :: l) <> []) by (apply (join_onto_nonempty l s); done).
  rewrite alloc_ok by lia. replace (zlen (join_onto [] (s :: l)) =? 0) with false; [done|].
  symmetry. apply Z.eqb_neq. destruct (join_onto [] (s :: l)); [done|]. rewrite zlen_cons.
  pose proof (zlen_nonneg l0). lia.
Qed.

(** On lists of fewer than 32 items of fewer than 128 characters, [INCR] appends those
    items of the new list that the search does not find in the old one, in their order
    and without leading spaces, and leaves the attribute alone when there are none; [DECR]
    leaves the items of the old list that it does not find in the new one.  The search
    takes an item for another one that starts with it and goes on with anything but a
    letter. *)
Theorem set_str_csv_ok a b s t r :
  ring_ok r -> is_set b = true -> at_val a = Some s -> at_val b = Some t -> t <> [] ->
  pattern_ok (Some s) -> pattern_ok (Some t) ->
  zlen s + zlen (join_onto [] (kept t (Some s))) + 2 <= ALLOC_MAX ->
  zlen (join_onto [] (kept s (Some t))) < ALLOC_MAX ->
  (exists b' r', set_str_csv a b INCR r =
     Ret (0, match kept t (Some s) with
             | [] => a
             | l => now_set a (Some (s ++ [c_comma] ++ join_onto [] l))
             end, b') r' /\ ring_ok r') /\
  (exists r', set_str_csv a b DECR r = Ret (0, now_set a (joined (kept s (Some t))), b) r' /\ ring_ok r').
Proof.
  intros Hr Hb Ea Eb Ht Hps Hpt Hl1 Hl2. unfold set_str_csv. rewrite Ea, Eb, Hb. cbn [negb]. rewrite !andb_false_r.
  destruct (Hps s eq_refl) as [Hs _]. destruct (Hpt t eq_refl) as [Hts _].
  pose proof (zlen_nonneg s). pose proof (zlen_nonneg (join_onto [] (kept t (Some s)))). split.
  - change (INCR =? SET) with false. change ((INCR =? INCR_OLD) || (INCR =? INCR)) with true. cbv iota.
    destruct (remove_from_csv_ok t (Some s) r Hr Hts Hps) as (r' & E & Hr'); [lia|].
    rewrite (st_bind_ret _ _ _ _ _ E). destruct (kept t (Some s)) as [|x l]; [by eexists _, r'|].
    cbn [joined]. rewrite alloc_ok by lia. by eexists _, r'.
  - change (DECR =? SET) with false. change ((DECR =? INCR_OLD) || (DECR =? INCR)) with false.
    change (DECR =? DECR) with true. cbv iota. destruct t as [|c t]; [done|].
    destruct (remove_from_csv_ok s (Some (c :: t)) r Hr Hs Hpt) as (r' & E & Hr'); [lia|].
    exists r'. by rewrite (st_bind_ret _ _ _ _ _ E).
Qed.

End CsvProofs.

Section CsvWitnesses.
#[local] Existing Instance generous.
#[local] Existing Instance generous_ok.

Definition start : ring := mk_ring (replicate 32 (zeros BUFFER_SIZE)) 0.

Lemma start_ok : ring_ok start.
Proof. by constructor. Qed.

Definition list_attr (s : list Z) : str_attribute := mk_attribute 1 3 (Some s).

(** ["ab,c"] and ["c,d"]. *)
Lemma set_str_csv_ok_witness :
  exists b' r', set_str_csv (list_attr [97;98;44;99]) (list_attr [99;44;100]) INCR start =
    Ret (0, now_set (list_attr [97;98;44;99]) (Some [97;98;44;99;44;100]), b') r'.
Proof.
  destruct (set_str_csv_ok (list_attr [97;98;44;99]) (list_attr [99;44;100]) [97;98;44;99] [99;44;100] start
    start_ok eq_refl eq_refl eq_refl) as [(b' & r' & E & _) _].
  - discriminate.
  - intros s [= <-]. split; [|vm_compute; lia].
    repeat (constructor; [split; [repeat constructor; discriminate|reflexivity]|]). constructor.
  - intros s [= <-]. split; [|vm_compute; lia].
    repeat (constructor; [split; [repeat constructor; discriminate|reflexivity]|]). constructor.
  - vm_compute. discriminate.
  - reflexivity.
  - exists b', r'. exact E.
Defined.

(** Whether the attribute is left as it was. *)
Definition unchanged (s t : list Z) : bool :=
  match set_str_csv (list_attr s) (list_attr t) INCR start with
  | Ret (0, a, _) _ => bool_decide (at_val a = Some s)
  | _ => false
  end.

(** ["n1"] is not added to ["n10"]. *)
Example csv_prefix_found : unchanged [110;49;48] [110;49] = true.
Proof. vm_compute. reflexivity. Qed.

(** With 32 items in the list the item that is searched for is overwritten by the last of
    them and found: ["z"] is not added to 32 times ["a"]. *)
Example csv_ring_overwritten :
  unchanged (join_onto [] (replicate 32 [97])) [122] = true /\
  unchanged (join_onto [] (replicate 31 [97])) [122] = false.
Proof. split; vm_compute; reflexivity. Qed.

(** Removing the last item leaves the attribute set with no string, and setting another
    attribute from it runs into the [assert]. *)
Example csv_emptied_asserts :
  match set_str_csv (list_attr [97]) (list_attr [97]) DECR start with
  | Ret (0, a, _) r =>
      is_set a = true /\ at_val a = None /\ set_str_csv (mk_attribute 0 3 None) a SET r = UB
  | _ => False
  end.
Proof. vm_compute. repeat split. Qed.

End CsvWitnesses.
