(* ===== verification/Arst.v ===== *)
(** * Attributes that are arrays of strings (src/src/lib/Libattr/attr_fn_arst.c)

    The value is one block of pointer slots ([as_string], [as_npointers] of them,
    [as_usedptr] in use) and one block of characters ([as_buf]) in which the strings lie one
    behind the other, each with its NUL, up to [as_next].  The operations move characters
    within that block and adjust the pointers.  Positions are offsets in a block; a slot that
    holds no pointer into the buffer (NULL, never written, or computed from one of these) is
    [None].  As a result [None] is undefined behaviour: an access outside a block, a string
    without an end, a signed overflow. *)

From S2P Require Import Prelude CLib TcpDis Codec DisInt DisStr Attrs AttrVal AttrTypes AttrStr.
From stdpp Require Import base list numbers option.

Local Open Scope Z_scope.

Definition MERGE : Z := 11.
Definition ATR_ENCODE_CLIENT : Z := 0.
Definition ATR_ENCODE_SAVE : Z := 3.
Definition ATR_TYPE_ARST : Z := 4.
(** [sizeof(struct array_strings)] with its one slot, and the size of a slot. *)
Definition SIZEOF_ARST : Z := 40.
Definition SIZEOF_PTR : Z := 8.

Definition c_nl : Z := 10.
Definition c_comma : Z := 44.
Definition c_bslash : Z := 92.
Definition c_equal : Z := 61.

(** ** Data *)

Record array_strings := mk_array_strings {
  as_npointers : Z; as_usedptr : Z; as_bufsize : Z;
  as_buf : option (list Z); as_next : Z; as_string : list (option Z)
}.

(** [at_arst], which may be NULL. *)
Abbreviation arst_attribute := (attribute (option array_strings)).

(** The character at a position of a block. *)
Definition char_at (b : list Z) (i : Z) : option Z := if 0 <=? i then b !! Z.to_nat i else None.

(** The string that starts at a position of a block. *)
Definition str_at (b : list Z) (i : Z) : option (list Z) :=
  if 0 <=? i then cstring (drop (Z.to_nat i) b) else None.

(** [pas->as_string[j]] and the string it points at. *)
Definition slot (pas : array_strings) (j : Z) : option Z :=
  if 0 <=? j then mjoin (as_string pas !! Z.to_nat j) else None.
Definition get_string (pas : array_strings) (j : Z) : option (list Z) :=
  off ← slot pas j; b ← as_buf pas; str_at b off.

(** [pas->as_string[j] = v] *)
Definition set_slot (slots : list (option Z)) (j : Z) (v : option Z) : option (list (option Z)) :=
  if (0 <=? j) && (j <? zlen slots) then Some (<[Z.to_nat j := v]> slots) else None.

(** [as_string[k] + d] *)
Definition move_ptr (d : Z) (p : option Z) : option Z := (fun off => off + d) <$> p.

(** The strings of the slots in use, as the loops over them read them. *)
Definition strings_of (pas : array_strings) : option (list (list Z)) :=
  mapM (get_string pas) (seqZ 0 (as_usedptr pas)).

(** The first index, from [i] on, at which a test holds; [n] are left. *)
Fixpoint scan (test : Z -> option bool) (n : nat) (i : Z) : option (option Z) :=
  match n with
  | O => Some None
  | S n' => b ← test i; if b : bool then Some (Some i) else scan test n' (i + 1)
  end.

Definition scan_strings (pas : array_strings) (test : list Z -> option bool) : option (option Z) :=
  scan (fun j => s ← get_string pas j; test s) (Z.to_nat (as_usedptr pas)) 0.

(** ** parse_comma_string *)

(** The blanks, other than a newline, at the start. *)
Fixpoint lead_blanks (s : list Z) : nat :=
  match s with
  | c :: s' => if negb (c =? c_nl) && isspace c && negb (c =? 0) then S (lead_blanks s') else O
  | [] => O
  end.

Definition is_sep (c : Z) : bool := (c =? c_comma) || (c =? c_nl).

(** How far it is to the comma, the newline or the NUL that ends the element. *)
Fixpoint to_sep (s : list Z) : nat :=
  match s with
  | [] => O
  | c :: s' =>
      if c =? 0 then O
      else if c =? c_bslash then
        match s' with
        | d :: s'' => if d =? 0 then 1%nat else S (S (to_sep s''))
        | [] => 1%nat
        end
      else if is_sep c then O else S (to_sep s')
  end.

(** The blanks in front of [back], which is [n], become NULs. *)
Fixpoint strip_back (b : list Z) (n : nat) : option (list Z) :=
  match n with
  | O => None
  | S m => c ← b !! m; if isspace c then strip_back (<[m := 0]> b) m else Some b
  end.

(** The buffer afterwards, the position of the element ([None] is NULL) and [*ptr]. *)
Definition parse_comma_string (b : list Z) (pc : nat) : option (list Z * option nat * nat) :=
  c ← b !! pc;
  if c =? 0 then Some (b, None, pc)
  else
    let rv := (pc + lead_blanks (drop pc b))%nat in
    let pc := (rv + to_sep (drop rv b))%nat in
    b ← strip_back b pc;
    c ← b !! pc;
    if negb (c =? 0) then Some (<[pc := 0]> b, Some rv, S pc) else Some (b, Some rv, pc).

(** ** decode_arst_direct *)

(** The loop that counts the elements: where it stops and the count. *)
Fixpoint count_loop (s : list Z) (pc ns : Z) : Z * Z :=
  match s with
  | [] => (pc, ns)
  | c :: s' =>
      if c =? c_bslash then
        match s' with
        | [] => (pc + 1, ns)
        | _ :: s'' => count_loop s'' (pc + 2) ns
        end
      else count_loop s' (pc + 1) (if is_sep c then ns + 1 else ns)
  end.

(** An element without its back-slashes. *)
Fixpoint unescape (s : list Z) : list Z :=
  match s with
  | [] => []
  | c :: s' =>
      if c =? c_bslash then match s' with [] => [] | d :: s'' => d :: unescape s'' end
      else c :: unescape s'
  end.

(** The loop that copies the elements: [j] are stored, at most [n] more; [tmpval] is parsed
    from [ptr] on, the next character goes to [pc] of [pbuf]. *)
Fixpoint copy_loop (n : nat) (tmpval : list Z) (ptr : nat) (pbuf : list Z) (pc : Z)
    (slots : list (option Z)) (j : Z) : option (list Z * Z * list (option Z) * Z) :=
  '(tmpval, pstr, ptr) ← parse_comma_string tmpval ptr;
  match pstr, n with
  | Some rv, S n' =>
      slots ← set_slot slots j (Some pc);
      s ← cstring (drop rv tmpval);
      let s := unescape s in
      pbuf ← mem_write pbuf pc (s ++ [c_nul]);
      copy_loop n' tmpval ptr pbuf (pc + zlen s + 1) slots (j + 1)
  | _, _ => Some (pbuf, pc, slots, j)
  end.

Section Arst.
Context `{Platform}.

Definition decode_arst_direct (patr : arst_attribute) (val : list Z) : option (Z * arst_attribute) :=
  let ssize := zlen val + 1 in
  if negb (calloc_ok ssize) then Some (PBSE_SYSTEM, patr)
  else
    let '(pc, ns) := count_loop val 0 1 in
    let pc := pc - 1 in
    c ← char_at val pc;
    strip ← (if is_sep c then (d ← char_at val (pc - 1); Some (negb (d =? c_bslash))) else Some false);
    let tmpval := if strip : bool then take (Z.to_nat pc) val ++ [c_nul; c_nul] else val ++ [c_nul] in
    let ns := if strip then ns - 1 else ns in
    let ssize := if strip then ssize - 1 else ssize in
    if negb (calloc_ok ssize) then Some (PBSE_SYSTEM, patr)
    else
      let ns := if ns <? 1 then 1 else ns in
      if negb (calloc_ok ((ns - 1) * SIZEOF_PTR + SIZEOF_ARST)) then Some (PBSE_SYSTEM, patr)
      else
        '(pbuf, pc, slots, j) ←
          copy_loop (Z.to_nat ns) tmpval 0 (zeros ssize) 0 (replicate (Z.to_nat ns) None) 0;
        Some (0, now_set patr (Some (mk_array_strings ns j ssize (Some pbuf) pc slots))).

Definition free_arst (attr : arst_attribute) : arst_attribute := unset_flag attr None.

(** ** encode_arst *)

Definition needs_escape (c : Z) : bool :=
  (c =? 34) || (c =? 39) || (c =? c_comma) || (c =? c_bslash) || (c =? c_nl).

Definition encode_char (separator c : Z) : list Z :=
  if c =? 0 then [separator] else if needs_escape c then [c_bslash; c] else [c].

Definition encode_arst (attr : arst_attribute) (phead : list svrattrl) (atname : list Z) (rsname : cptr)
    (mode : Z) : option (Z * list svrattrl) :=
  if negb (is_set attr) then Some (0, phead)
  else match at_val attr with
  | None => Some (0, phead)
  | Some pas =>
      if as_usedptr pas =? 0 then Some (0, phead)
      else
        let i := i32 (as_next pas) in
        let save := mode =? ATR_ENCODE_SAVE in
        let separator := if save then c_nl else c_comma in
        b ← as_buf pas;
        from ← mem_read b 0 (as_next pas);
        let j := (if save then i + 1 else i) + zlen (base.filter (fun c => needs_escape c = true) from) in
        let text := mjoin (encode_char separator <$> from) in
        let value := if save then text ++ [c_nul] else take (length text - 1) text ++ [c_nul] in
        append_entry attr phead atname rsname (j + 1) value
  end.

(** ** copy_arst *)

(** The inner [None] is the NULL that is returned. *)
Definition copy_arst (to_copy : option array_strings) : option (option array_strings) :=
  match to_copy with
  | None => Some None
  | Some pas =>
      if as_npointers pas <? 1 then Some None
      else if negb (calloc_ok (SIZEOF_ARST + (as_npointers pas - 1) * SIZEOF_PTR)) then Some None
      else if negb (calloc_ok (as_bufsize pas)) then Some None
      else
        b ← as_buf pas;
        buf ← mem_read b 0 (as_bufsize pas);
        let used := Z.to_nat (as_usedptr pas) in
        Some (Some (mk_array_strings (as_npointers pas) (as_usedptr pas) (as_bufsize pas) (Some buf)
                      (as_next pas) (take used (as_string pas)
                                     ++ replicate (Z.to_nat (as_npointers pas) - used) None)))
  end.

(** ** set_arst *)

(** [strcpy(pas->as_next, s)], the next slot and [as_next] moved on. *)
Definition append_string (pas : array_strings) (s : list Z) : option array_strings :=
  b ← as_buf pas;
  b ← mem_write b (as_next pas) (s ++ [c_nul]);
  slots ← set_slot (as_string pas) (as_usedptr pas) (Some (as_next pas));
  Some (mk_array_strings (as_npointers pas) (as_usedptr pas + 1) (as_bufsize pas) (Some b)
          (as_next pas + zlen s + 1) slots).

(** The position of the first ['=']. *)
Fixpoint key_len (s : list Z) : option Z :=
  match s with
  | [] => None
  | c :: s' => if c =? c_equal then Some 0 else Z.add 1 <$> key_len s'
  end.

(** [!strncmp(a, b, len) && len == len2], [len2] being the length of the key of [b], 0 when
    it has none; the first [len] characters of [a] are before its end. *)
Definition same_key (len : Z) (a b : list Z) : bool :=
  bool_decide (take (Z.to_nat len) a = take (Z.to_nat len) b) && (len =? default 0 (key_len b)).

(** A string of [newpas] is passed over when its key is in [pas]. *)
Definition merge_string (op : Z) (pas : array_strings) (s : list Z) : option array_strings :=
  found ← (if op =? MERGE then
             match key_len s with
             | Some len => scan_strings pas (fun t => Some (same_key len s t))
             | None => Some None
             end
           else Some None);
  match found with
  | Some _ => Some pas
  | None => append_string pas s
  end.

(** More room for characters and for pointers, at the head of [MERGE]; a code that is not 0
    is returned. *)
Definition grow_buf (pas : array_strings) (nsize : Z) : option (Z * array_strings) :=
  let used := as_next pas in
  if as_bufsize pas - used <? nsize then
    need ← int_result (as_bufsize pas + 2 * nsize);
    if negb (calloc_ok need) then Some (PBSE_SYSTEM, pas)
    else
      let pc := match as_buf pas with
                | Some b => b ++ zeros (need - as_bufsize pas)
                | None => zeros need
                end in
      Some (0, mk_array_strings (as_npointers pas) (as_usedptr pas) need (Some pc) used (as_string pas))
  else Some (0, pas).

Definition grow_slots (pas newpas : array_strings) : option (Z * array_strings) :=
  j ← int_result (as_usedptr pas + as_usedptr newpas);
  if as_npointers pas <? j then
    j ← int_result (3 * j);
    let j := j / 2 in
    if negb (calloc_ok (u64 (i32 (SIZEOF_ARST + (j - 1) * SIZEOF_PTR)))) then Some (PBSE_SYSTEM, pas)
    else Some (0, mk_array_strings j (as_usedptr pas) (as_bufsize pas) (as_buf pas) (as_next pas)
                    (as_string pas ++ replicate (Z.to_nat (j - as_npointers pas)) None))
  else Some (0, pas).

Fixpoint fold_strings (step : array_strings -> list Z -> option array_strings) (pas : array_strings)
    (ss : list (list Z)) : option array_strings :=
  match ss with
  | [] => Some pas
  | s :: ss' => pas ← step pas s; fold_strings step pas ss'
  end.

(** The cases [INCR_OLD] and [MERGE], and the end of [SET]. *)
Definition merge_case (op : Z) (pas newpas : array_strings) : option (Z * array_strings) :=
  let nsize := as_next newpas in
  '(rc, pas) ← grow_buf pas nsize;
  if negb (rc =? 0) then Some (rc, pas)
  else
    '(rc, pas) ← grow_slots pas newpas;
    if negb (rc =? 0) then Some (rc, pas)
    else
      ss ← strings_of newpas;
      pas ← fold_strings (merge_string op) pas ss;
      Some (0, pas).

(** The head of [SET]: no strings, and a buffer that is large enough. *)
Definition clear_for (pas : array_strings) (nsize : Z) : option (Z * array_strings) :=
  let slots := replicate (Z.to_nat (as_usedptr pas)) None ++ drop (Z.to_nat (as_usedptr pas)) (as_string pas) in
  if as_bufsize pas <? nsize then
    nsize ← int_result (nsize + nsize / 2);
    if negb (calloc_ok nsize) then
      Some (PBSE_SYSTEM, mk_array_strings (as_npointers pas) 0 0 None 0 slots)
    else Some (0, mk_array_strings (as_npointers pas) 0 nsize (Some (zeros nsize)) 0 slots)
  else match as_buf pas with
  | None => Some (PBSE_SYSTEM, mk_array_strings (as_npointers pas) 0 0 None 0 slots)
  | Some b => Some (0, mk_array_strings (as_npointers pas) 0 (as_bufsize pas)
                         (Some (zeros (as_bufsize pas))) 0 slots)
  end.

(** [INCR]: into a new value, the new strings first, then the old ones whose key is not
    among the keys of the new ones. *)
Definition incr_case (pas newpas : array_strings) : option (Z * array_strings) :=
  total ← int_result (as_usedptr pas + as_usedptr newpas);
  j ← int_result (3 * total / 2);
  if negb (calloc_ok (u64 (i32 (SIZEOF_ARST + (j - 1) * SIZEOF_PTR)))) then Some (PBSE_SYSTEM, pas)
  else
    need ← int_result (2 * (as_next newpas + as_next pas));
    if negb (calloc_ok need) then Some (PBSE_SYSTEM, pas)
    else
      let tmp := mk_array_strings j 0 need (Some (zeros need)) 0 (replicate (Z.to_nat j) None) in
      news ← strings_of newpas;
      tmp ← fold_strings append_string tmp news;
      olds ← strings_of pas;
      tmp ← fold_strings (fun tmp s =>
              found ← match key_len s with
                      | Some len => scan_strings newpas (fun t => Some (same_key len s t))
                      | None => Some None
                      end;
              match found with Some _ => Some tmp | None => append_string tmp s end) tmp olds;
      Some (0, tmp).

(** [DECR] of one string: the characters behind it move down over it and the pointers
    behind its own move up one slot. *)
Definition remove_string (pas : array_strings) (s : list Z) : option array_strings :=
  found ← scan_strings pas (fun t => Some (str_eq t s));
  match found with
  | None => Some pas
  | Some i =>
      off ← slot pas i;
      b ← as_buf pas;
      let nsize := zlen s + 1 in
      let need := as_next pas - (off + nsize) in
      tail ← mem_read b (off + nsize) need;
      b ← mem_write b off tail;
      let k := Z.to_nat i in
      Some (mk_array_strings (as_npointers pas) (as_usedptr pas - 1) (as_bufsize pas) (Some b)
              (as_next pas - nsize)
              (take k (as_string pas)
               ++ (move_ptr (- nsize) <$> drop (S k) (as_string pas)) ++ [None]))
  end.

(** The value made for an attribute that has none, or the code that is returned. *)
Definition new_arst (newpas : array_strings) : Z + array_strings :=
  let j := as_npointers newpas in
  if j <? 1 then inl PBSE_INTERNAL
  else if negb (calloc_ok (u64 (i32 (SIZEOF_ARST + (j - 1) * SIZEOF_PTR)))) then inl PBSE_SYSTEM
  else inr (mk_array_strings j 0 0 None 0 (replicate (Z.to_nat j) None)).

(** The [switch]. *)
Definition set_cases (op : Z) (pas newpas : array_strings) : option (Z * array_strings) :=
  if op =? SET then
    '(rc, pas) ← clear_for pas (as_next newpas);
    if negb (rc =? 0) then Some (rc, pas) else merge_case op pas newpas
  else if (op =? INCR_OLD) || (op =? MERGE) then merge_case op pas newpas
  else if op =? INCR then incr_case pas newpas
  else if op =? DECR then
    ss ← strings_of newpas;
    pas ← fold_strings remove_string pas ss;
    Some (0, pas)
  else Some (PBSE_INTERNAL, pas).

Definition set_arst (attr new_attr : arst_attribute) (op : Z) : option (Z * arst_attribute) :=
  assert_set new_attr
    match at_val new_attr with
    | None => Some (PBSE_INTERNAL, attr)
    | Some newpas =>
        match match at_val attr with Some pas => inr pas | None => new_arst newpas end with
        | inl rc => Some (rc, attr)
        | inr pas =>
            let op := if (op =? INCR) && match as_buf pas with None => true | Some _ => false end then SET else op in
            '(rc, pas) ← set_cases op pas newpas;
            if negb (rc =? 0) then Some (rc, with_val attr (Some pas))
            else Some (0, now_set attr (Some pas))
        end
    end.

Definition set_acl_arst (attr new_attr : arst_attribute) (op : Z) : option (Z * arst_attribute) :=
  assert_set new_attr
    match at_val new_attr with
    | None =>
        if op =? SET then Some (PBSE_NONE, now_set (free_arst attr) None) else Some (PBSE_NONE, attr)
    | Some _ =>
        '(rc, attr) ← set_arst attr new_attr op;
        if negb (rc =? PBSE_NONE) then Some (rc, attr)
        else
          pas ← at_val attr;
          if as_usedptr pas =? 0 then Some (PBSE_NONE, now_set (free_arst attr) None)
          else Some (PBSE_NONE, attr)
    end.

(** ** decode_arst *)

Definition clear_modify {V} (a : attribute V) : attribute V :=
  mk_attribute (Z.ldiff (at_flags a) ATR_VFLAG_MODIFY) (at_type a) (at_val a).

Definition decode_arst : decoder (option array_strings) := fun patr val =>
  match val with
  | None | Some [] => Some (0, clear_modify (free_arst patr))
  | Some val =>
      match is_set patr, at_val patr with
      | true, Some _ =>
          '(rc, temp) ← decode_arst_direct (mk_attribute 0 0 None) val;
          if negb (rc =? 0) then Some (rc, patr) else set_arst patr temp INCR
      | _, _ => decode_arst_direct patr val
      end
  end.

Definition decode_acl_arst : decoder (option array_strings) := fun patr val =>
  match val with
  | None | Some [] => Some (0, now_set (free_arst patr) None)
  | Some _ => decode_arst patr val
  end.

(** The old strings are merged onto the new ones. *)
Definition decode_arst_merge : decoder (option array_strings) := fun patr val =>
  match val with
  | None | Some [] => Some (0, clear_modify (free_arst patr))
  | Some val =>
      match is_set patr, at_val patr with
      | true, Some _ =>
          '(rc, new_attr) ← decode_arst_direct (mk_attribute 0 0 None) val;
          if negb (rc =? 0) then Some (rc, patr)
          else set_arst (with_val patr (at_val new_attr)) (mk_attribute ATR_VFLAG_SET 0 (at_val patr)) MERGE
      | _, _ => decode_arst_direct patr val
      end
  end.

(** ** comp_arst, arst_string *)

(** Every string of [wth] is in [attr]. *)
Fixpoint comp_loop (apa : array_strings) (bs : list (list Z)) : option Z :=
  match bs with
  | [] => Some 0
  | b :: bs' =>
      found ← scan_strings apa (fun a => Some (str_eq b a));
      match found with Some _ => comp_loop apa bs' | None => Some 1 end
  end.

Definition comp_arst (attr wth : arst_attribute) : option Z :=
  match at_val attr, at_val wth with
  | Some apa, Some bpb =>
      if negb (at_type attr =? ATR_TYPE_ARST) || negb (at_type wth =? ATR_TYPE_ARST) then Some 1
      else bs ← strings_of bpb; comp_loop apa bs
  | _, _ => Some 1
  end.

(** The first string that begins with [str]; the inner [None] is NULL. *)
Definition arst_string (str : list Z) (pattr : arst_attribute) : option (option (list Z)) :=
  if negb (at_type pattr =? ATR_TYPE_ARST) || negb (is_set pattr) then Some None
  else
    parst ← at_val pattr;
    found ← scan_strings parst (fun s => Some (bool_decide (take (length str) s = str)));
    match found with
    | Some i => Some <$> get_string parst i
    | None => Some None
    end.

End Arst.
