(* ===== verification/ArstSpec.v ===== *)
(** * Arrays of strings implement lists of strings

    [holds pas l]: the blocks of [pas] hold the strings [l].  The operations of [Arst.v] on
    the blocks are operations on lists; [set_arst_refines] says which. *)

From S2P Require Import Prelude CLib TcpDis Codec DisInt DisStr Attrs AttrVal AttrTypes AttrStr Arst.
From stdpp Require Import base list numbers option.

Local Open Scope Z_scope.

(** ** The strings in the buffer *)

(** The strings one behind the other, and where each of them starts. *)
Fixpoint pack (l : list (list Z)) : list Z :=
  match l with
  | [] => []
  | s :: l' => s ++ 0 :: pack l'
  end.

Fixpoint offs (base : Z) (l : list (list Z)) : list Z :=
  match l with
  | [] => []
  | s :: l' => base :: offs (base + zlen s + 1) l'
  end.

Lemma pack_app l1 l2 : pack (l1 ++ l2) = pack l1 ++ pack l2.
Proof. induction l1 as [|s l1 IH]; [done|]. simpl. by rewrite IH, <- app_assoc. Qed.

Lemma zlen_pack_cons s l : zlen (pack (s :: l)) = zlen s + 1 + zlen (pack l).
Proof. simpl. rewrite zlen_app, zlen_cons. lia. Qed.

Lemma zlen_pack_app l1 l2 : zlen (pack (l1 ++ l2)) = zlen (pack l1) + zlen (pack l2).
Proof. by rewrite pack_app, zlen_app. Qed.

Lemma zlen_pack_one s : zlen (pack [s]) = zlen s + 1.
Proof. rewrite zlen_pack_cons. simpl. rewrite zlen_nil. lia. Qed.

Lemma offs_app b l1 l2 : offs b (l1 ++ l2) = offs b l1 ++ offs (b + zlen (pack l1)) l2.
Proof.
  revert b. induction l1 as [|s l1 IH]; intros b; simpl.
  - f_equal. rewrite zlen_nil. lia.
  - f_equal. rewrite IH, zlen_app, zlen_cons. do 2 f_equal. lia.
Qed.

Lemma length_offs b l : length (offs b l) = length l.
Proof. revert b. induction l as [|s l IH]; intros b; [done|]. simpl. by rewrite IH. Qed.

Lemma offs_shift b d l : offs (b + d) l = (fun x => x + d) <$> offs b l.
Proof.
  revert b. induction l as [|s l IH]; intros b; [done|]. simpl. f_equal. rewrite <- IH. f_equal. lia.
Qed.

(** ** Representation *)

Record holds (pas : array_strings) (l : list (list Z)) : Prop := {
  h_used : as_usedptr pas = zlen l;
  h_free : Forall nul_free l;
  h_next : as_next pas = zlen (pack l);
  h_buf : match as_buf pas with
          | Some b => zlen b = as_bufsize pas /\ exists r, b = pack l ++ r
          | None => l = [] /\ as_bufsize pas = 0
          end;
  h_slots : exists r, as_string pas = (Some <$> offs 0 l) ++ r;
  h_count : zlen (as_string pas) = as_npointers pas
}.

(** Room for [c] more characters and [n] more strings. *)
Definition has_room (pas : array_strings) (c n : Z) : Prop :=
  (exists b, as_buf pas = Some b) /\ as_next pas + c <= as_bufsize pas /\ as_usedptr pas + n <= as_npointers pas.

Lemma str_at_pack l1 s l2 r : nul_free s -> str_at (pack (l1 ++ s :: l2) ++ r) (zlen (pack l1)) = Some s.
Proof.
  intros Hs. unfold str_at. pose proof (zlen_nonneg (pack l1)).
  rewrite (proj2 (Z.leb_le _ _)) by lia. rewrite pack_app, <- app_assoc. unfold zlen.
  rewrite Nat2Z.id, drop_app_length. simpl. rewrite <- app_assoc. by apply cstring_app.
Qed.

Section Holds.
Context pas l (Hh : holds pas l).

Lemma holds_length : Z.to_nat (as_usedptr pas) = length l.
Proof. rewrite (h_used _ _ Hh). unfold zlen. lia. Qed.

Lemma holds_slot l1 s l2 : l = l1 ++ s :: l2 -> slot pas (zlen l1) = Some (zlen (pack l1)).
Proof.
  intros ->. unfold slot. pose proof (zlen_nonneg l1). rewrite (proj2 (Z.leb_le _ _)) by lia.
  destruct (h_slots _ _ Hh) as [r ->]. unfold zlen at 1. rewrite Nat2Z.id.
  rewrite lookup_app_l by (rewrite length_fmap, length_offs, length_app; simpl; lia).
  rewrite offs_app, list_lookup_fmap, lookup_app_r by (by rewrite length_offs).
  rewrite length_offs, Nat.sub_diag. done.
Qed.

Lemma holds_get l1 s l2 : l = l1 ++ s :: l2 -> get_string pas (zlen l1) = Some s.
Proof.
  intros E. unfold get_string. rewrite (holds_slot l1 s l2 E). simpl.
  pose proof (h_buf _ _ Hh) as Hb. destruct (as_buf pas) as [b|].
  - destruct Hb as [_ [r ->]]. simpl. subst l. apply str_at_pack.
    pose proof (h_free _ _ Hh) as [_ Hf]%Forall_app. by inversion Hf.
  - destruct Hb as [-> _]. by destruct l1.
Qed.

Lemma holds_strings : strings_of pas = Some l.
Proof.
  unfold strings_of. rewrite (h_used _ _ Hh). apply mapM_Some.
  apply Forall2_same_length_lookup_2.
  - unfold zlen. rewrite length_seqZ. lia.
  - intros i x y Hx Hy. apply lookup_seqZ in Hx as [-> _]. rewrite Z.add_0_l.
    replace (Z.of_nat i) with (zlen (take i l));
      [by eapply holds_get; rewrite take_drop_middle|].
    unfold zlen. rewrite length_take. apply lookup_lt_Some in Hy. lia.
Qed.

(** A scan over the strings finds the first that passes. *)
Lemma scan_from f l2 : forall l1, l = l1 ++ l2 ->
  scan (fun j => s ← get_string pas j; Some (f s)) (length l2) (zlen l1)
  = Some ((fun p => zlen l1 + Z.of_nat (fst p)) <$> list_find (fun t => f t = true) l2).
Proof.
  induction l2 as [|s l2 IH]; intros l1 E; [done|]. cbn [length scan].
  rewrite (holds_get _ _ _ E). cbn [mbind option_bind]. simpl. destruct (decide (f s = true)) as [Hf|Hf].
  - rewrite Hf. simpl. do 2 f_equal. lia.
  - destruct (f s); [done|]. replace (zlen l1 + 1) with (zlen (l1 ++ [s])) by (rewrite zlen_app; done).
    rewrite IH by (by rewrite <- app_assoc). f_equal. rewrite <- option_fmap_compose.
    apply option_fmap_ext. intros [i x]. simpl. rewrite zlen_app. unfold zlen. simpl. lia.
Qed.

Lemma holds_scan f :
  scan_strings pas (fun t => Some (f t)) = Some ((fun p => Z.of_nat (fst p)) <$> list_find (fun t => f t = true) l).
Proof.
  unfold scan_strings. rewrite holds_length. change 0 with (zlen (A := list Z) []).
  rewrite scan_from by done. f_equal.
Qed.

Lemma append_string_ok s :
  nul_free s -> has_room pas (zlen s + 1) 1 ->
  exists pas', append_string pas s = Some pas' /\ holds pas' (l ++ [s])
    /\ forall c n, has_room pas (zlen s + 1 + c) (1 + n) -> has_room pas' c n.
Proof.
  intros Hs ([b Eb] & Hc & Hn). destruct Hh as [Hu Hf Hx Hb [r Hr] Hl]. unfold append_string.
  rewrite Eb in *. destruct Hb as [Hz [q Hq]]. cbn [mbind option_bind].
  assert (zlen b = zlen (pack l) + zlen q) by (subst b; by rewrite zlen_app).
  subst b. rewrite Hx, mem_write_app by (rewrite zlen_app, zlen_cons, zlen_nil; lia).
  cbn [mbind option_bind]. unfold set_slot. pose proof (zlen_nonneg l).
  rewrite Hu, Hl, (proj2 (Z.leb_le _ _)), (proj2 (Z.ltb_lt _ _)) by lia. cbn [andb mbind option_bind].
  eexists. split; [done|]. split.
  - constructor; cbn [as_usedptr as_next as_buf as_bufsize as_string as_npointers].
    + by rewrite zlen_app.
    + apply Forall_app. by split; [|constructor].
    + rewrite zlen_pack_app, zlen_pack_one. lia.
    + split; [|].
      * rewrite <- Hz, !zlen_app. unfold zlen. rewrite !length_drop, !length_app. simpl.
        unfold zlen in *. rewrite ?length_app in *. simpl in *. lia.
      * exists (drop (length (s ++ [c_nul])) q). rewrite pack_app. simpl. by rewrite <- !app_assoc.
    + rewrite Hr. exists (drop 1 r). unfold zlen. rewrite Nat2Z.id, insert_app_r_alt by (by rewrite length_fmap, length_offs).
      rewrite length_fmap, length_offs, Nat.sub_diag, offs_app, fmap_app, <- app_assoc. f_equal.
      destruct r as [|x r]; [|done]. exfalso. rewrite Hr in Hl. unfold zlen in *.
      rewrite length_app, length_fmap, length_offs in Hl. simpl in Hl. lia.
    + rewrite <- Hl. unfold zlen. by rewrite length_insert.
  - intros c n (_ & Hc' & Hn'). split; [by eexists|]. cbn [as_usedptr as_next as_buf as_bufsize as_npointers]. lia.
Qed.

End Holds.

(** ** The operations as list operations *)

(** Some string of [l] has the key of [s]. *)
Definition keyed (l : list (list Z)) (s : list Z) : bool :=
  match key_len s with Some len => existsb (same_key len s) l | None => false end.

Definition merge_into (l ss : list (list Z)) : list (list Z) :=
  foldl (fun l s => if keyed l s then l else l ++ [s]) l ss.

(** Without the first occurrence of [s]. *)
Fixpoint remove1 (s : list Z) (l : list (list Z)) : list (list Z) :=
  match l with
  | [] => []
  | t :: l' => if str_eq t s then l' else t :: remove1 s l'
  end.

Definition arst_result (op : Z) (old new : list (list Z)) : list (list Z) :=
  if op =? SET then new
  else if op =? INCR_OLD then old ++ new
  else if op =? MERGE then merge_into old new
  else if op =? INCR then new ++ filter (fun s => keyed new s = false) old
  else foldl (fun l s => remove1 s l) old new.

Lemma find_existsb {A} (f : A -> bool) l :
  existsb f l = match list_find (fun t => f t = true) l with Some _ => true | None => false end.
Proof.
  induction l as [|t l IH]; [done|]. simpl. destruct (decide (f t = true)) as [->|Hf]; [done|].
  rewrite IH. destruct (f t); [done|]. simpl. by destruct (list_find _ l).
Qed.

Lemma zlen_pack_ge l : zlen l <= zlen (pack l).
Proof.
  induction l as [|s l IH]; [done|]. rewrite zlen_pack_cons, zlen_cons. pose proof (zlen_nonneg s). lia.
Qed.

Lemma fold_strings_app step pas ss1 ss2 :
  fold_strings step pas (ss1 ++ ss2) = (pas' ← fold_strings step pas ss1; fold_strings step pas' ss2).
Proof.
  revert pas. induction ss1 as [|s ss1 IH]; intros pas; [done|]. simpl.
  destruct (step pas s) as [pas'|]; simpl; [apply IH|done].
Qed.

(** Folding a step that appends the string or passes over it, as a test on what is there
    and the string says. *)
Lemma fold_select step (skip : list (list Z) -> list Z -> bool) ss : forall pas l,
  (forall pas l s, holds pas l ->
     step pas s = if skip l s then Some pas else append_string pas s) ->
  holds pas l -> Forall nul_free ss -> has_room pas (zlen (pack ss)) (zlen ss) ->
  exists pas', fold_strings step pas ss = Some pas'
    /\ holds pas' (foldl (fun l s => if skip l s then l else l ++ [s]) l ss)
    /\ forall c n, has_room pas (zlen (pack ss) + c) (zlen ss + n) -> has_room pas' c n.
Proof.
  induction ss as [|s ss IH]; intros pas l Hstep Hh Hf Hr.
  - exists pas. split; [done|]. split; [done|]. intros c n H. exact H.
  - apply Forall_cons_1 in Hf as [Hs Hf]. rewrite zlen_pack_cons, zlen_cons in *.
    pose proof (zlen_nonneg s). pose proof (zlen_nonneg (pack ss)). pose proof (zlen_nonneg ss).
    cbn [fold_strings foldl]. rewrite (Hstep _ _ _ Hh). destruct (skip l s).
    + cbn [mbind option_bind]. destruct Hr as (? & ? & ?).
      destruct (IH pas l) as (pas' & E & Hh' & Hr'); [done|done|done|split; [done|lia]|].
      exists pas'. split; [done|]. split; [done|]. intros c n (? & ? & ?). apply Hr'. split; [done|lia].
    + destruct (append_string_ok pas l Hh s Hs) as (pas1 & E1 & Hh1 & Hr1).
      { destruct Hr as (? & ? & ?). split; [done|lia]. }
      rewrite E1. cbn [mbind option_bind].
      destruct (IH pas1 (l ++ [s])) as (pas' & E & Hh' & Hr'); [done|done|done| |].
      { apply Hr1. by rewrite Z.add_comm with (n := 1). }
      exists pas'. split; [done|]. split; [done|]. intros c n (? & ? & ?). apply Hr', Hr1. split; [done|lia].
Qed.

Lemma foldl_app {A} (l ss : list A) : foldl (fun l s => l ++ [s]) l ss = l ++ ss.
Proof. revert l. induction ss as [|s ss IH]; intros l; simpl; [by rewrite app_nil_r|]. by rewrite IH, <- app_assoc. Qed.

Lemma foldl_filter {A} (f : A -> bool) ss : forall l : list A,
  foldl (fun l s => if f s then l else l ++ [s]) l ss = l ++ filter (fun s => f s = false) ss.
Proof.
  induction ss as [|s ss IH]; intros l; simpl; [by rewrite app_nil_r|]. rewrite IH.
  rewrite filter_cons. destruct (f s) eqn:E; simpl; [done|]. by rewrite <- app_assoc.
Qed.

Lemma merge_string_skips op pas l s :
  holds pas l ->
  merge_string op pas s = if (op =? MERGE) && keyed l s then Some pas else append_string pas s.
Proof.
  intros Hh. unfold merge_string, keyed. destruct (op =? MERGE); [|done]. destruct (key_len s) as [len|]; [|done].
  rewrite (holds_scan _ _ Hh (same_key len s)), find_existsb. cbn [mbind option_bind].
  by destruct (list_find _ l).
Qed.

(** ** Room *)

(** 128 MiB of strings: the sizes computed from fewer fit an [int]. *)
Definition ARST_MAX : Z := 134217728.

Section Room.
Context `{Platform} {Hall : AllocOk}.

Lemma slots_alloc j : 0 <= j <= 3 * ARST_MAX / 2 -> calloc_ok (u64 (i32 (SIZEOF_ARST + (j - 1) * SIZEOF_PTR))) = true.
Proof.
  intros Hj. unfold SIZEOF_ARST, SIZEOF_PTR. change (3 * ARST_MAX / 2) with 201326592 in Hj.
  rewrite i32_small, u64_small by lia. apply alloc_ok. unfold ALLOC_MAX. lia.
Qed.

Lemma grow_buf_ok pas l nsize :
  holds pas l -> 0 < nsize ->
  (as_bufsize pas - as_next pas < nsize -> as_bufsize pas + 2 * nsize <= ARST_MAX) ->
  exists pas', grow_buf pas nsize = Some (0, pas') /\ holds pas' l
    /\ (exists b, as_buf pas' = Some b) /\ as_next pas' + nsize <= as_bufsize pas'
    /\ as_usedptr pas' = as_usedptr pas /\ as_npointers pas' = as_npointers pas.
Proof.
  intros [Hu Hf Hx Hb Hr Hl] Hn Hsz. unfold grow_buf, ARST_MAX in *. pose proof (zlen_nonneg (pack l)).
  assert (0 <= as_bufsize pas).
  { destruct (as_buf pas) as [b|]; [destruct Hb as [<- _]; apply zlen_nonneg|lia]. }
  destruct (Z.ltb_spec (as_bufsize pas - as_next pas) nsize) as [Hc|Hc].
  - specialize (Hsz Hc). rewrite int_result_ok by (unfold INT_MIN, INT_MAX; lia). cbn [mbind option_bind].
    rewrite alloc_ok by (unfold ALLOC_MAX; lia). cbn [negb].
    eexists. split; [done|]. cbn [as_buf as_next as_bufsize as_usedptr as_npointers].
    assert (zlen (pack l) <= as_bufsize pas).
    { destruct (as_buf pas) as [b|]; [destruct Hb as [<- [q ->]]; rewrite zlen_app; pose proof (zlen_nonneg q); lia|].
      destruct Hb as [-> _]. done. }
    split; [|split; [by eexists|lia]].
    constructor; cbn [as_buf as_next as_bufsize as_usedptr as_npointers as_string]; try done.
    destruct (as_buf pas) as [b|].
    + destruct Hb as [Hz [q ->]]. split; [rewrite zlen_app, zlen_zeros by lia; lia|].
      exists (q ++ zeros (as_bufsize pas + 2 * nsize - as_bufsize pas)). by rewrite <- app_assoc.
    + destruct Hb as [-> _]. split; [apply zlen_zeros; lia|]. by eexists.
  - exists pas. split; [done|]. split; [done|]. split; [|lia].
    destruct (as_buf pas) as [b|]; [by eexists|]. destruct Hb as [-> Hb]. simpl in *. rewrite zlen_nil in *. lia.
Qed.

Lemma grow_slots_ok pas l newpas :
  holds pas l -> 0 <= as_usedptr newpas -> zlen l + as_usedptr newpas <= ARST_MAX ->
  exists pas', grow_slots pas newpas = Some (0, pas') /\ holds pas' l
    /\ as_usedptr pas' + as_usedptr newpas <= as_npointers pas' /\ as_buf pas' = as_buf pas
    /\ as_next pas' = as_next pas /\ as_bufsize pas' = as_bufsize pas.
Proof.
  intros [Hu Hf Hx Hb [r Hr] Hl] Hn Hsz. unfold grow_slots. pose proof (zlen_nonneg l). unfold ARST_MAX in *.
  rewrite int_result_ok by (unfold INT_MIN, INT_MAX; lia). cbn [mbind option_bind].
  destruct (Z.ltb_spec (as_npointers pas) (as_usedptr pas + as_usedptr newpas)) as [Hc|Hc].
  - rewrite int_result_ok by (unfold INT_MIN, INT_MAX; lia). cbn [mbind option_bind].
    set (j := 3 * (as_usedptr pas + as_usedptr newpas) / 2).
    assert (as_usedptr pas + as_usedptr newpas <= j <= 201326592).
    { unfold j. Z.to_euclidean_division_equations. lia. }
    rewrite slots_alloc by (change (3 * ARST_MAX / 2) with 201326592; lia). cbn [negb].
    eexists. split; [done|]. cbn [as_buf as_next as_bufsize as_usedptr as_npointers]. split; [|repeat split; lia].
    constructor; cbn [as_buf as_next as_bufsize as_usedptr as_npointers as_string]; try done.
    + exists (r ++ replicate (Z.to_nat (j - as_npointers pas)) None). by rewrite Hr, <- app_assoc.
    + rewrite zlen_app, zlen_replicate, Hl. lia.
  - exists pas. split; [done|]. split; [by constructor; eauto|]. repeat split; lia.
Qed.

Lemma clear_for_ok pas l nsize :
  holds pas l -> 0 < nsize -> as_bufsize pas + 2 * nsize <= ARST_MAX ->
  exists pas', clear_for pas nsize = Some (0, pas') /\ holds pas' []
    /\ nsize <= as_bufsize pas'.
Proof.
  intros [Hu Hf Hx Hb [r Hr] Hl] Hn Hsz. unfold clear_for, ARST_MAX in *.
  assert (0 <= as_bufsize pas).
  { destruct (as_buf pas) as [b|]; [destruct Hb as [<- _]; apply zlen_nonneg|lia]. }
  assert (Hs : zlen (replicate (Z.to_nat (as_usedptr pas)) None ++ drop (Z.to_nat (as_usedptr pas)) (as_string pas))
             = as_npointers pas).
  { rewrite <- Hl, zlen_app, zlen_replicate, zlen_drop; [rewrite Hu; pose proof (zlen_nonneg l); lia|].
    rewrite Hu, Hr. unfold zlen. rewrite length_app, length_fmap, length_offs. lia. }
  destruct (Z.ltb_spec (as_bufsize pas) nsize) as [Hc|Hc].
  - assert (0 <= nsize / 2 <= nsize) by (Z.to_euclidean_division_equations; lia).
    rewrite int_result_ok by (unfold INT_MIN, INT_MAX; lia). cbn [mbind option_bind].
    rewrite alloc_ok by (unfold ALLOC_MAX; lia). cbn [negb]. eexists. split; [done|]. split; [|simpl; lia].
    constructor; cbn [as_buf as_next as_bufsize as_usedptr as_npointers as_string]; try done; [|by eexists].
    split; [apply zlen_zeros; lia|]. by eexists.
  - destruct (as_buf pas) as [b|]; [|lia]. eexists. split; [done|]. split; [|simpl; lia].
    constructor; cbn [as_buf as_next as_bufsize as_usedptr as_npointers as_string]; try done; [|by eexists].
    split; [apply zlen_zeros; lia|]. by eexists.
Qed.

End Room.

(** ** Removing a string *)

Lemma find_remove1 s l :
  match list_find (fun t => str_eq t s = true) l with
  | Some (i, x) => exists l1 l2, l = l1 ++ s :: l2 /\ i = length l1 /\ remove1 s l = l1 ++ l2
  | None => remove1 s l = l
  end.
Proof.
  induction l as [|t l IH]; [done|]. simpl. destruct (decide (str_eq t s = true)) as [E|E].
  - rewrite E. apply bool_decide_eq_true in E as ->. by exists [], l.
  - destruct (str_eq t s); [done|]. destruct (list_find _ l) as [[i x]|]; simpl; [|by rewrite IH].
    destruct IH as (l1 & l2 & -> & -> & ->). by exists (t :: l1), l2.
Qed.

Lemma remove_string_ok pas l s :
  holds pas l -> exists pas', remove_string pas s = Some pas' /\ holds pas' (remove1 s l).
Proof.
  intros Hh. unfold remove_string. rewrite (holds_scan _ _ Hh (fun t => str_eq t s)). cbn [mbind option_bind].
  pose proof (find_remove1 s l) as Hf. destruct (list_find _ l) as [[i x]|]; simpl; [|exists pas; by rewrite Hf].
  destruct Hf as (l1 & l2 & El & -> & ->). change (Z.of_nat (length l1)) with (zlen l1).
  rewrite (holds_slot _ _ Hh _ _ _ El). cbn [mbind option_bind].
  destruct Hh as [Hu Hf Hx Hb [r Hr] Hl]. destruct (as_buf pas) as [b|]; [|destruct Hb as [-> _]; by destruct l1].
  destruct Hb as [Hz [q ->]]. cbn [mbind option_bind]. subst l. rewrite pack_app in *. cbn [pack] in *.
  set (o := zlen (pack l1)) in *. set (n := zlen s + 1) in *. pose proof (zlen_nonneg (pack l1)).
  pose proof (zlen_nonneg s). pose proof (zlen_nonneg (pack l2)). pose proof (zlen_nonneg q).
  assert (Eb : (pack l1 ++ s ++ 0 :: pack l2) ++ q = (pack l1 ++ s ++ [0]) ++ pack l2 ++ q)
    by (by rewrite <- !app_assoc).
  rewrite !zlen_app, zlen_cons in *. fold o in Hx.
  assert (Ho : zlen (pack l1 ++ s ++ [0]) = o + n) by (rewrite !zlen_app; unfold o, n, zlen; simpl; lia).
  rewrite mem_read_ok by (rewrite ?zlen_app, ?zlen_cons; unfold o, n in *; lia).
  cbn [mbind option_bind]. rewrite Eb, slice_app_r, slice_app_l by (rewrite Ho; lia).
  rewrite Ho. replace (o + n - (o + n)) with 0 by lia.
  replace (o + n + (as_next pas - (o + n)) - (o + n)) with (zlen (pack l2)) by (unfold n in *; lia).
  rewrite slice_all, <- Eb, <- app_assoc. unfold o.
  rewrite mem_write_app by (rewrite !zlen_app, zlen_cons; lia). cbn [mbind option_bind].
  eexists. split; [done|].
  constructor; cbn [as_buf as_next as_bufsize as_usedptr as_npointers as_string].
  - rewrite Hu, !zlen_app, zlen_cons. lia.
  - apply Forall_app in Hf as [Hf1 Hf2]. inversion Hf2. by apply Forall_app.
  - rewrite zlen_pack_app. unfold o, n in *. lia.
  - split.
    + rewrite <- Hz. unfold o, zlen in *. rewrite !length_app, length_drop, !length_app. simpl.
      lia.
    + rewrite pack_app. eexists. by rewrite <- !app_assoc.
  - rewrite Hr, offs_app. cbn [offs]. rewrite !fmap_app, <- app_assoc.
    unfold zlen at 1. rewrite Nat2Z.id.
    rewrite take_app_length' by (by rewrite length_fmap, length_offs).
    eexists. rewrite offs_app, fmap_app, <- !app_assoc. f_equal.
    unfold zlen at 1. rewrite Nat2Z.id.
    rewrite drop_app_ge by (rewrite length_fmap, length_offs; lia).
    rewrite length_fmap, length_offs, Nat.sub_succ_l, Nat.sub_diag by done.
    rewrite fmap_cons, <- app_comm_cons, skipn_cons, drop_0, fmap_app, <- app_assoc. f_equal.
    fold o. rewrite Z.add_0_l, <- (Z.add_assoc o), offs_shift, <- !list_fmap_compose.
    apply list_fmap_ext. intros ? x' _. unfold move_ptr, n. simpl. f_equal. lia.
  - rewrite <- Hl, Hr. unfold zlen. rewrite Nat2Z.id. rewrite !length_app, length_take, length_fmap, length_drop.
    rewrite length_app, length_fmap, length_offs, length_app. simpl. lia.
Qed.

(** ** set_arst *)

(** The strings of a value that may be NULL, and the size of its buffer. *)
Definition value_holds (v : option array_strings) (l : list (list Z)) : Prop :=
  match v with Some pas => holds pas l | None => l = [] end.
Definition value_size (v : option array_strings) : Z :=
  match v with Some pas => as_bufsize pas | None => 0 end.

Definition arst_op (op : Z) : Prop := op ∈ [SET; INCR; DECR; MERGE; INCR_OLD].

Lemma holds_size pas l : holds pas l -> zlen (pack l) <= as_bufsize pas.
Proof.
  intros [_ _ _ Hb _ _]. destruct (as_buf pas) as [b|].
  - destruct Hb as [<- [q ->]]. rewrite zlen_app. pose proof (zlen_nonneg q). lia.
  - by destruct Hb as [-> ->].
Qed.

Section Set_.
Context `{Platform} {Hall : AllocOk}.

Lemma merge_case_ok op pas l newpas new :
  holds pas l -> holds newpas new -> new <> [] ->
  (as_bufsize pas - as_next pas < as_next newpas -> as_bufsize pas + 2 * as_next newpas <= ARST_MAX) ->
  zlen l + zlen new <= ARST_MAX ->
  exists pas', merge_case op pas newpas = Some (0, pas')
    /\ holds pas' (if op =? MERGE then merge_into l new else l ++ new).
Proof.
  intros Hh Hn Hne Hsz Hct. unfold merge_case. rewrite (h_next _ _ Hn) in *.
  assert (0 < zlen (pack new)).
  { pose proof (zlen_pack_ge new). destruct new; [done|]. rewrite zlen_cons in *. pose proof (zlen_nonneg new). lia. }
  destruct (grow_buf_ok pas l (zlen (pack new))) as (p1 & -> & Hh1 & Hb1 & Hr1 & Hu1 & _); [done|done|done|].
  cbn [mbind option_bind]. simpl negb. cbv iota. pose proof (h_used _ _ Hn) as Hu. pose proof (zlen_nonneg new).
  destruct (grow_slots_ok p1 l newpas) as (p2 & -> & Hh2 & Hr2 & Eb2 & En2 & Es2); [done|lia|lia|].
  cbn [mbind option_bind]. simpl negb. cbv iota. rewrite (holds_strings _ _ Hn). cbn [mbind option_bind].
  destruct (fold_select (merge_string op) (fun l s => (op =? MERGE) && keyed l s) new p2 l) as (p3 & -> & Hh3 & _).
  - intros. by apply merge_string_skips.
  - done.
  - apply (h_free _ _ Hn).
  - split; [by rewrite Eb2|]. rewrite En2, Es2, <- Hu. lia.
  - cbn [mbind option_bind]. exists p3. split; [done|]. destruct (op =? MERGE); [done|].
    by rewrite <- (foldl_app l new).
Qed.

Lemma incr_case_ok pas l newpas new :
  holds pas l -> holds newpas new -> as_bufsize pas + 2 * as_next newpas <= ARST_MAX ->
  exists pas', incr_case pas newpas = Some (0, pas')
    /\ holds pas' (new ++ filter (fun s => keyed new s = false) l).
Proof.
  intros Hh Hn Hsz. unfold incr_case. pose proof (holds_size _ _ Hh). pose proof (zlen_pack_ge new).
  pose proof (zlen_pack_ge l). pose proof (zlen_nonneg new). pose proof (zlen_nonneg l).
  rewrite (h_next _ _ Hn), (h_next _ _ Hh), (h_used _ _ Hn), (h_used _ _ Hh) in *.
  set (t := zlen l + zlen new). set (c := zlen (pack new) + zlen (pack l)).
  assert (0 <= t <= c /\ c <= ARST_MAX) as [Ht Hc] by (unfold t, c; lia).
  rewrite (int_result_ok t) by (unfold ARST_MAX, INT_MIN, INT_MAX in *; lia). cbn [mbind option_bind].
  assert (t <= 3 * t / 2 <= 3 * ARST_MAX / 2)
    by (change (3 * ARST_MAX / 2) with 201326592; unfold ARST_MAX in *; Z.to_euclidean_division_equations; lia).
  rewrite (int_result_ok (3 * t / 2)) by (change (3 * ARST_MAX / 2) with 201326592 in *; unfold INT_MIN, INT_MAX; lia).
  cbn [mbind option_bind]. rewrite slots_alloc by lia. cbn [negb].
  rewrite (int_result_ok (2 * c)) by (unfold ARST_MAX, INT_MIN, INT_MAX in *; lia). cbn [mbind option_bind].
  rewrite alloc_ok by (unfold ALLOC_MAX, ARST_MAX in *; lia). cbn [negb].
  rewrite (holds_strings _ _ Hn), (holds_strings _ _ Hh). cbn [mbind option_bind].
  destruct (fold_select append_string (fun _ _ => false) new
              (mk_array_strings (3 * t / 2) 0 (2 * c) (Some (zeros (2 * c))) 0 (replicate (Z.to_nat (3 * t / 2)) None)) [])
    as (p1 & -> & Hh1 & Hr1).
  - done.
  - constructor; simpl; try done; [| |rewrite zlen_replicate; lia].
    + split; [apply zlen_zeros; lia|]. by eexists.
    + by eexists.
  - apply (h_free _ _ Hn).
  - split; [by eexists|]. simpl. unfold t, c in *. lia.
  - cbn [mbind option_bind].
    match goal with |- context [fold_strings ?f p1 l] => set (step := f) end.
    destruct (fold_select step (fun _ s => keyed new s) l p1 (foldl (fun l s => l ++ [s]) [] new))
      as (p2 & -> & Hh2 & _); [| done | apply (h_free _ _ Hh) | |].
    + intros p m s Hp. unfold step, keyed. destruct (key_len s) as [len|]; [|done].
      rewrite (holds_scan _ _ Hn (same_key len s)), find_existsb. cbn [mbind option_bind]. by destruct (list_find _ new).
    + apply Hr1. split; [by eexists|]. simpl. unfold t, c in *. lia.
    + cbn [mbind option_bind]. exists p2. split; [done|].
      by rewrite (foldl_filter (keyed new) l), foldl_app in Hh2.
Qed.

Lemma fold_remove_ok ss : forall pas l, holds pas l ->
  exists pas', fold_strings remove_string pas ss = Some pas' /\ holds pas' (foldl (fun l s => remove1 s l) l ss).
Proof.
  induction ss as [|s ss IH]; intros pas l Hh; [by exists pas|]. cbn [fold_strings foldl].
  destruct (remove_string_ok pas l s Hh) as (p1 & -> & Hh1). cbn [mbind option_bind]. by apply IH.
Qed.

(** The value an operation starts from. *)
Lemma start_holds v l newpas new :
  value_holds v l -> holds newpas new -> new <> [] -> as_npointers newpas <= ARST_MAX ->
  exists pas, match v with Some pas => inr pas | None => new_arst newpas end = inr pas
    /\ holds pas l /\ as_bufsize pas = value_size v.
Proof.
  intros Hv [_ _ _ _ [r Hr] Hl] Hne Hnp. destruct v as [p|]; simpl in *; [by exists p|]. subst l.
  assert (1 <= as_npointers newpas).
  { rewrite <- Hl, Hr. unfold zlen. rewrite length_app, length_fmap, length_offs. destruct new; [done|]. simpl. lia. }
  unfold new_arst. rewrite (proj2 (Z.ltb_ge _ _)) by lia.
  rewrite slots_alloc by (change (3 * ARST_MAX / 2) with 201326592; unfold ARST_MAX in *; lia).
  eexists. split; [done|]. split; [|done]. constructor; simpl; try done; [by eexists|]. rewrite zlen_replicate. lia.
Qed.

Lemma set_cases_ok op pas old newpas new :
  holds pas old -> holds newpas new -> new <> [] -> arst_op op ->
  as_bufsize pas + 2 * as_next newpas <= ARST_MAX ->
  exists pas', set_cases op pas newpas = Some (0, pas') /\ holds pas' (arst_result op old new).
Proof.
  intros Hh Hn Hne Hop Hsz. pose proof (holds_size _ _ Hh). pose proof (h_next _ _ Hn) as Hnx.
  pose proof (zlen_pack_ge old). pose proof (zlen_pack_ge new). pose proof (zlen_nonneg new). pose proof (zlen_nonneg old).
  assert (0 < as_next newpas).
  { rewrite Hnx. destruct new as [|s new]; [done|]. rewrite zlen_cons in *. pose proof (zlen_nonneg new). lia. }
  unfold arst_op in Hop. rewrite !elem_of_cons, elem_of_nil in Hop. unfold set_cases.
  destruct Hop as [->|[->|[->|[->|[->|[]]]]]]; unfold arst_result; simpl Z.eqb; cbn [orb]; cbv iota.
  - destruct (clear_for_ok pas old (as_next newpas)) as (p1 & -> & Hh1 & Hr1); [done|done|done|].
    cbn [mbind option_bind]. simpl negb. cbv iota.
    destruct (merge_case_ok SET p1 [] newpas new) as (p2 & E2 & Hh2); [done|done|done| |rewrite zlen_nil; lia|by exists p2].
    rewrite (h_next _ _ Hh1). simpl. rewrite zlen_nil. lia.
  - by apply incr_case_ok.
  - rewrite (holds_strings _ _ Hn). cbn [mbind option_bind].
    destruct (fold_remove_ok new pas old Hh) as (p1 & -> & Hh1). by exists p1.
  - by apply (merge_case_ok MERGE); auto; lia.
  - by apply (merge_case_ok INCR_OLD); auto; lia.
Qed.

(** C29: [set_arst] implements the operations on lists of strings: [SET] replaces the list,
    [INCR_OLD] appends, [MERGE] appends the strings whose key is not there yet, [INCR] puts
    the new strings in front of the old ones whose key they do not redefine (the comment
    above the function promises to append them), [DECR] removes one occurrence of each.
    The characters moved and the pointers adjusted stay inside the blocks, and every later
    read of the value sees exactly that list. *)
Theorem set_arst_refines (attr new_attr : arst_attribute) newpas old new op :
  is_set new_attr = true -> at_val new_attr = Some newpas -> holds newpas new -> new <> [] ->
  value_holds (at_val attr) old -> arst_op op ->
  value_size (at_val attr) + 2 * as_next newpas <= ARST_MAX -> as_npointers newpas <= ARST_MAX ->
  exists pas, set_arst attr new_attr op = Some (0, now_set attr (Some pas))
    /\ holds pas (arst_result op old new) /\ strings_of pas = Some (arst_result op old new).
Proof.
  intros Hs Ev Hn Hne Ho Hop Hsz Hnp. unfold set_arst, assert_set. rewrite Hs, Ev.
  destruct (start_holds _ _ _ _ Ho Hn Hne Hnp) as (pas0 & -> & Hh & Hbs). rewrite <- Hbs in Hsz.
  set (op' := if (op =? INCR) && _ then SET else op).
  assert (arst_op op' /\ arst_result op' old new = arst_result op old new) as [Hop' <-].
  { unfold op'. destruct (Z.eqb_spec op INCR) as [->|]; [|done]. pose proof (h_buf _ _ Hh) as Hb.
    destruct (as_buf pas0); [done|]. destruct Hb as [-> _]. split; [by left|].
    change (new = new ++ []). by rewrite app_nil_r. }
  destruct (set_cases_ok op' pas0 old newpas new) as (pas & -> & Hp); [done..|].
  exists pas. split; [done|]. eauto using holds_strings.
Qed.

End Set_.
