(* ===== verification/ArstText.v ===== *)
(** * The text of an array of strings

    What [decode_arst] makes of a text, and that it undoes [encode_arst].  The text is split
    at the commas and newlines that no back-slash escapes; each field loses the blanks at its
    ends and its back-slashes. *)

From S2P Require Import Prelude CLib TcpDis Codec DisInt DisStr Attrs AttrVal AttrTypes AttrStr Arst ArstSpec.
From stdpp Require Import base list numbers option.

Local Open Scope Z_scope.

(** ** The grammar *)

Definition onto (p : list Z) (fs : list (list Z)) : list (list Z) :=
  match fs with [] => [p] | f :: fs' => (p ++ f) :: fs' end.

(** The fields of a text; a lone back-slash at the end belongs to the last. *)
Fixpoint fields (s : list Z) : list (list Z) :=
  match s with
  | [] => [[]]
  | c :: s' =>
      if c =? c_bslash then match s' with [] => [[c]] | d :: s'' => onto [c; d] (fields s'') end
      else if is_sep c then [] :: fields s' else onto [c] (fields s')
  end.

(** Without the blanks at the end. *)
Fixpoint rstrip (s : list Z) : list Z :=
  match s with
  | [] => []
  | c :: s' => match rstrip s' with
               | [] => if isspace c then [] else [c]
               | r => c :: r
               end
  end.

Definition trim (f : list Z) : list Z := rstrip (drop (lead_blanks f) f).

(** An empty last field does not count. *)
Fixpoint keep (fs : list (list Z)) : list (list Z) :=
  match fs with
  | [] => []
  | [f] => match f with [] => [] | _ => [f] end
  | f :: fs' => f :: keep fs'
  end.

Definition elems (s : list Z) : list (list Z) := (fun f => unescape (trim f)) <$> keep (fields s).

(** A separator at the very end is cut off, unless a back-slash is in front of it. *)
Definition body (val : list Z) : list Z :=
  match reverse val with
  | c :: d :: r => if is_sep c && negb (d =? c_bslash) then reverse (d :: r) else val
  | _ => val
  end.

Definition elements (val : list Z) : list (list Z) := elems (body val).

(** The first field has something in it. *)
Definition starts_well (s : list Z) : Prop := exists f fs, fields s = f :: fs /\ rstrip f <> [].

(** ** Fields *)

Lemma fields_ne s : exists f fs, fields s = f :: fs.
Proof.
  destruct s as [|c [|d s]]; simpl; [by eauto|..]; repeat (case_match; simpl; eauto); unfold onto;
    repeat (case_match; simpl; eauto).
Qed.

(** The first field, what ends it, and the fields of the rest. *)
Lemma fields_split tail s : nul_free s ->
  (fields s = [s] /\ to_sep (s ++ 0 :: tail) = length s) \/
  (exists f c s', is_sep c = true /\ s = f ++ c :: s' /\ fields s = f :: fields s'
     /\ to_sep (s ++ 0 :: tail) = length f).
Proof.
  induction s as [s IH] using (induction_ltof1 _ (@length Z)). unfold ltof in IH. intros Hf.
  destruct s as [|c s]; [by left|]. apply Forall_cons_1 in Hf as [Hc Hf]. cbn [app to_sep fields].
  rewrite (proj2 (Z.eqb_neq c 0)) by done. destruct (c =? c_bslash) eqn:Ec.
  - destruct s as [|d s]; [by left|]. apply Forall_cons_1 in Hf as [Hd Hf].
    rewrite <- app_comm_cons, (proj2 (Z.eqb_neq d 0)) by done.
    destruct (IH s) as [[-> ->]|(f & e & s' & He & -> & -> & ->)]; [simpl; lia|done|by left|right].
    by exists (c :: d :: f), e, s'.
  - destruct (is_sep c) eqn:Es; [right; by exists [], c, s|].
    destruct (IH s) as [[-> ->]|(f & e & s' & He & -> & -> & ->)]; [simpl; lia|done|by left|right].
    by exists (c :: f), e, s'.
Qed.

(** ** Blanks *)

Lemma rstrip_snoc s c : rstrip (s ++ [c]) = if isspace c then rstrip s else s ++ [c].
Proof.
  induction s as [|d s IH]; [done|]. simpl. rewrite IH. destruct (isspace c); [done|]. by destruct s.
Qed.

Lemma rstrip_blanks p s : rstrip s <> [] -> rstrip (p ++ s) = p ++ rstrip s.
Proof. intros Hs. induction p as [|c p IH]; [done|]. simpl. rewrite IH. by destruct (rstrip s), p. Qed.

Lemma rstrip_free s : nul_free s -> nul_free (rstrip s).
Proof.
  induction 1 as [|c s Hc Hs IH]; [constructor|]. simpl. destruct (rstrip s); [|by constructor].
  destruct (isspace c); by repeat constructor.
Qed.

Lemma rstrip_length s : (length (rstrip s) <= length s)%nat.
Proof. induction s as [|c s IH]; [done|]. simpl. destruct (rstrip s), (isspace c); simpl in *; lia. Qed.

(** What [strip_back] leaves of a buffer: NULs for the blanks at the end of [f].  It stops
    in front of the field or, when that is blank, at the character before. *)
Lemma strip_back_ok f : forall pre rest,
  rstrip f <> [] \/ (exists p c, pre = p ++ [c] /\ isspace c = false) ->
  strip_back (pre ++ f ++ rest) (length (pre ++ f))
  = Some (pre ++ rstrip f ++ replicate (length f - length (rstrip f)) 0 ++ rest).
Proof.
  induction f as [|c f IH] using rev_ind; intros pre rest Hs.
  - destruct Hs as [Hs|(p & c & -> & Hc)]; [done|]. rewrite app_nil_r, length_app, Nat.add_1_r. cbn [strip_back].
    replace ((p ++ [c]) ++ [] ++ rest) with (p ++ c :: rest) by (by rewrite <- app_assoc).
    rewrite list_lookup_middle by done. cbn [mbind option_bind]. rewrite Hc. simpl. by rewrite <- app_assoc.
  - rewrite !length_app, rstrip_snoc in *. rewrite Nat.add_assoc, Nat.add_1_r, <- length_app. cbn [strip_back].
    replace (pre ++ (f ++ [c]) ++ rest) with ((pre ++ f) ++ c :: rest) by (by rewrite <- !app_assoc).
    rewrite list_lookup_middle by done. cbn [mbind option_bind].
    destruct (isspace c) eqn:Ec.
    + rewrite insert_app_r_alt, Nat.sub_diag by done. simpl (<[_ := _]> _). rewrite <- app_assoc, IH by done. do 2 f_equal. f_equal.
      pose proof (rstrip_length f). replace (length f + length [c] - length (rstrip f))%nat
        with (length f - length (rstrip f) + 1)%nat by (simpl; lia).
      by rewrite replicate_add, <- app_assoc.
    + rewrite length_app, Nat.sub_diag. simpl. by rewrite <- !app_assoc.
Qed.

Lemma lead_blanks_split f t rest : t = c_nl \/ isspace t = false ->
  exists bl core, f = bl ++ core /\ length bl = lead_blanks f /\ lead_blanks (f ++ t :: rest) = length bl
    /\ Forall (fun c => c <> c_nl /\ isspace c = true) bl
    /\ match core with [] => True | c :: _ => isspace c = true -> c = c_nl \/ c = 0 end.
Proof.
  intros Ht. induction f as [|c f IH].
  - exists [], []. simpl. by destruct Ht as [->| ->]; rewrite ?andb_false_r.
  - simpl. destruct (negb (c =? c_nl) && isspace c && negb (c =? 0)) eqn:E.
    + destruct IH as (bl & core & -> & Hl & -> & Hb & Hc). exists (c :: bl), core.
      rewrite !andb_true_iff, negb_true_iff, Z.eqb_neq in E. simpl. rewrite Hl. do 3 (split; [done|]). split; [|done].
      constructor; [tauto|done].
    + exists [], (c :: f). do 4 (split; [done|]). intros Hc. rewrite Hc in E.
      destruct (Z.eqb_spec c c_nl); [by left|]. destruct (Z.eqb_spec c 0); [by right|done].
Qed.

Lemma rstrip_all s : Forall (fun c => c <> c_nl /\ isspace c = true) s -> rstrip s = [].
Proof. induction 1 as [|c s [_ Hc] _ IH]; [done|]. simpl. by rewrite IH, Hc. Qed.

Lemma rstrip_head c s : isspace c = false -> rstrip (c :: s) <> [].
Proof. intros Hc. simpl. destruct (rstrip s); [by rewrite Hc|done]. Qed.

Lemma to_sep_blanks bl s : Forall (fun c => c <> c_nl /\ isspace c = true) bl ->
  to_sep (bl ++ s) = (length bl + to_sep s)%nat.
Proof.
  induction 1 as [|c bl [Hn Hc] _ IH]; [done|]. cbn [app to_sep length]. rewrite IH. unfold isspace in Hc.
  rewrite orb_true_iff, andb_true_iff, Z.eqb_eq, !Z.leb_le in Hc. unfold c_nl, c_bslash, is_sep, c_comma in *.
  zb; simpl; done || lia.
Qed.

Lemma cstring_zeros s k rest : nul_free s -> cstring (s ++ replicate k 0 ++ 0 :: rest) = Some s.
Proof. intros Hs. destruct k; by apply cstring_app. Qed.

(** One field is parsed: it is the next element, trimmed. *)
Lemma parse_field pre f t rest :
  nul_free f -> t = 0 \/ is_sep t = true -> f <> [] \/ t <> 0 -> to_sep (f ++ t :: rest) = length f ->
  rstrip f <> [] \/ (exists p c, pre = p ++ [c] /\ isspace c = false) ->
  exists pre' rv, length pre' = (length pre + length f)%nat
    /\ parse_comma_string (pre ++ f ++ t :: rest) (length pre)
       = Some (pre' ++ 0 :: rest, Some rv, if t =? 0 then length pre' else S (length pre'))
    /\ cstring (drop rv (pre' ++ 0 :: rest)) = Some (trim f).
Proof.
  intros Hf Ht Hne Hs Hb.
  assert (Ht' : t = c_nl \/ isspace t = false).
  { destruct Ht as [->|Ht]; [by right|]. unfold is_sep in Ht. apply orb_prop in Ht as [->%Z.eqb_eq| ->%Z.eqb_eq];
      [by right|by left]. }
  destruct (lead_blanks_split f t rest Ht') as (bl & core & Ef & Hbl & Hl & Hbs & Hc).
  assert (Hcore : to_sep (core ++ t :: rest) = length core).
  { rewrite Ef, <- app_assoc, to_sep_blanks, length_app in Hs by done. lia. }
  assert (Hstrip : core = [] \/ rstrip core <> []).
  { destruct core as [|c core]; [by left|right]. apply rstrip_head. destruct (isspace c) eqn:Ec; [|done].
    destruct (Hc eq_refl) as [->| ->]; [done|]. rewrite Ef in Hf. apply Forall_app in Hf as [_ Hf]. by inversion Hf. }
  exists (pre ++ rstrip f ++ replicate (length f - length (rstrip f)) 0), (length pre + length bl)%nat.
  pose proof (rstrip_length f) as Hlen. split; [rewrite !length_app, length_replicate; lia|]. split.
  - unfold parse_comma_string.
    assert (exists c0, (pre ++ f ++ t :: rest) !! length pre = Some c0 /\ c0 <> 0) as (c0 & -> & Hc0).
    { rewrite lookup_app_r, Nat.sub_diag by done. destruct f as [|c0 f]; simpl; [exists t; split; [done|tauto]|].
      exists c0. by inversion Hf. }
    cbn [mbind option_bind]. rewrite (proj2 (Z.eqb_neq c0 0)) by done. rewrite drop_app_length, Hl.
    replace (drop (length pre + length bl) (pre ++ f ++ t :: rest)) with (core ++ t :: rest)
      by (rewrite <- drop_drop, drop_app_length, Ef, <- app_assoc, drop_app_length; done).
    rewrite Hcore. replace (length pre + length bl + length core)%nat with (length (pre ++ f))
      by (rewrite Ef, !length_app; lia).
    rewrite strip_back_ok by done. cbn [mbind option_bind].
    set (pre' := pre ++ rstrip f ++ replicate (length f - length (rstrip f)) 0).
    replace (pre ++ rstrip f ++ replicate (length f - length (rstrip f)) 0 ++ t :: rest) with (pre' ++ t :: rest)
      by (unfold pre'; by rewrite <- !app_assoc).
    replace (length (pre ++ f)) with (length pre') by (unfold pre'; rewrite !length_app, length_replicate; lia).
    rewrite list_lookup_middle by done. cbn [mbind option_bind].
    destruct (Z.eqb_spec t 0) as [->|]; simpl negb; cbv iota; [done|].
    by rewrite insert_app_r_alt, Nat.sub_diag by done.
  - rewrite <- drop_drop, <- !app_assoc, drop_app_length. unfold trim. rewrite <- Hbl, Ef, drop_app_length.
    destruct Hstrip as [->|Hn].
    + rewrite app_nil_r, (rstrip_all bl) by done. simpl. rewrite Nat.sub_0_r.
      by rewrite drop_app_length' by (by rewrite length_replicate).
    + rewrite rstrip_blanks by done. rewrite <- app_assoc, drop_app_length. apply cstring_zeros, rstrip_free.
      rewrite Ef in Hf. by apply Forall_app in Hf as [_ Hf].
Qed.

(** ** The elements *)

Lemma unescape_free s : nul_free s -> nul_free (unescape s).
Proof.
  induction s as [s IH] using (induction_ltof1 _ (@length Z)). unfold ltof in IH. intros Hf.
  destruct s as [|c s]; [constructor|]. apply Forall_cons_1 in Hf as [Hc Hf]. cbn [unescape].
  destruct (c =? c_bslash).
  - destruct s as [|d s]; [constructor|]. apply Forall_cons_1 in Hf as [Hd Hf]. constructor; [done|].
    apply IH; [simpl; lia|done].
  - constructor; [done|]. apply IH; [simpl; lia|done].
Qed.

Lemma unescape_length s : (length (unescape s) <= length s)%nat.
Proof.
  induction s as [s IH] using (induction_ltof1 _ (@length Z)). unfold ltof in IH.
  destruct s as [|c s]; [done|]. cbn [unescape]. destruct (c =? c_bslash).
  - destruct s as [|d s]; [simpl; lia|]. simpl. specialize (IH s). simpl in IH. lia.
  - simpl. specialize (IH s). simpl in IH. lia.
Qed.

Lemma trim_free s : nul_free s -> nul_free (trim s).
Proof. intros. apply rstrip_free. by apply Forall_drop. Qed.

Lemma trim_length s : (length (trim s) <= length s)%nat.
Proof. unfold trim. pose proof (rstrip_length (drop (lead_blanks s) s)). rewrite length_drop in *. lia. Qed.

Lemma elems_one s : fields s = [s] -> elems s = match s with [] => [] | _ => [unescape (trim s)] end.
Proof. unfold elems. intros ->. by destruct s. Qed.

Lemma elems_more f c s' : fields (f ++ c :: s') = f :: fields s' ->
  elems (f ++ c :: s') = unescape (trim f) :: elems s'.
Proof. unfold elems. intros ->. destruct (fields_ne s') as (g & fs & ->). done. Qed.

(** The elements need no more room than the text and its NUL. *)
Lemma elems_room s : nul_free s ->
  Forall nul_free (elems s) /\ zlen (pack (elems s)) <= zlen s + 1 /\ zlen (elems s) <= zlen (fields s).
Proof.
  induction s as [s IH] using (induction_ltof1 _ (@length Z)). unfold ltof in IH. intros Hf.
  destruct (fields_split [] s Hf) as [[E _]|(f & c & s' & Hc & -> & E & _)].
  - rewrite (elems_one _ E), E. destruct s as [|c s]; [done|]. split; [|split].
    + constructor; [|constructor]. by apply unescape_free, trim_free.
    + rewrite zlen_pack_one. unfold zlen.
      pose proof (unescape_length (trim (c :: s))). pose proof (trim_length (c :: s)). lia.
    + done.
  - rewrite (elems_more _ _ _ E), E. apply Forall_app in Hf as [Hf Hf']. inversion Hf'; subst.
    destruct (IH s') as (HA & HB & HC); [rewrite length_app; simpl; lia|done|]. split; [|split].
    + constructor; [by apply unescape_free, trim_free|done].
    + rewrite zlen_pack_cons, zlen_app, zlen_cons.
      pose proof (unescape_length (trim f)). pose proof (trim_length f). unfold zlen in *. lia.
    + rewrite !zlen_cons. lia.
Qed.

(** The state of the copy when the strings [done] are stored. *)
Definition copied (done_ : list (list Z)) (k m : Z) : list Z * Z * list (option Z) * Z :=
  (pack done_ ++ zeros k, zlen (pack done_), (Some <$> offs 0 done_) ++ replicate (Z.to_nat m) None, zlen done_).

(** One more string is stored. *)
Lemma copy_store done_ s k m :
  zlen s + 1 <= k -> 1 <= m ->
  set_slot ((Some <$> offs 0 done_) ++ replicate (Z.to_nat m) None) (zlen done_) (Some (zlen (pack done_)))
    = Some ((Some <$> offs 0 (done_ ++ [s])) ++ replicate (Z.to_nat (m - 1)) None)
  /\ mem_write (pack done_ ++ zeros k) (zlen (pack done_)) (s ++ [c_nul])
    = Some (pack (done_ ++ [s]) ++ zeros (k - (zlen s + 1))).
Proof.
  intros Hk Hm. pose proof (zlen_nonneg done_). pose proof (zlen_nonneg s). split.
  - unfold set_slot. rewrite (proj2 (Z.leb_le _ _)), (proj2 (Z.ltb_lt _ _)); [|unfold zlen;
      rewrite length_app, length_fmap, length_offs, length_replicate; lia|lia]. cbn [andb]. f_equal.
    unfold zlen at 1. rewrite Nat2Z.id, insert_app_r_alt by (by rewrite length_fmap, length_offs).
    rewrite length_fmap, length_offs, Nat.sub_diag, offs_app, fmap_app, <- app_assoc. f_equal.
    replace (Z.to_nat m) with (S (Z.to_nat (m - 1))) by lia. done.
  - rewrite mem_write_app by (rewrite zlen_app, zlen_zeros by lia; unfold zlen in *; simpl; lia).
    f_equal. rewrite drop_zeros by (rewrite zlen_app; unfold zlen in *; simpl; lia).
    rewrite pack_app. simpl. rewrite <- !app_assoc. simpl. do 5 f_equal. rewrite zlen_app. done.
Qed.

Lemma parse_end pre tail : parse_comma_string (pre ++ 0 :: tail) (length pre) = Some (pre ++ 0 :: tail, None, length pre).
Proof. unfold parse_comma_string. by rewrite list_lookup_middle. Qed.

(** The loop stores the elements of what is left of the text. *)
Lemma copy_loop_ok rem : forall n pre tail done_ k m,
  nul_free rem ->
  (starts_well rem \/ exists p c, pre = p ++ [c] /\ isspace c = false) ->
  zlen (elems rem) <= Z.of_nat n -> zlen (elems rem) <= m -> zlen (pack (elems rem)) <= k ->
  let '(pbuf, pc, slots, j) := copied done_ k m in
  copy_loop n (pre ++ rem ++ 0 :: tail) (length pre) pbuf pc slots j
  = Some (copied (done_ ++ elems rem) (k - zlen (pack (elems rem))) (m - zlen (elems rem))).
Proof.
  induction rem as [rem IH] using (induction_ltof1 _ (@length Z)). unfold ltof in IH.
  intros n pre tail done_ k m Hf Hst Hn Hm Hk. cbn [copied].
  destruct (fields_split tail rem Hf) as [[E Hs]|(f & c & rem' & Hc & -> & E & Hs)].
  - rewrite (elems_one _ E) in *. destruct rem as [|c rem].
    + rewrite app_nil_l, app_nil_r, Z.sub_0_r, Z.sub_0_r. destruct n; cbn [copy_loop]; by rewrite parse_end.
    + set (f := c :: rem) in *. destruct n as [|n]; [unfold zlen in Hn; simpl in Hn; lia|].
      destruct (parse_field pre f 0 tail) as (pre' & rv & Hl & Hp & Hv); [done|by left|by left|done| |].
      { destruct Hst as [(g & gs & Eg & Hg)|Hst]; [left|by right]. rewrite E in Eg. by injection Eg as <- _. }
      cbn [copy_loop]. rewrite Hp. cbn [mbind option_bind]. simpl (0 =? 0). cbv iota.
      rewrite zlen_pack_one in *. rewrite zlen_cons, zlen_nil in Hm.
      destruct (copy_store done_ (unescape (trim f)) k m) as [-> Hw]; [lia|lia|]. cbn [mbind option_bind].
      rewrite Hv. cbn [mbind option_bind]. rewrite Hw. cbn [mbind option_bind].
      destruct n; cbn [copy_loop]; rewrite parse_end; cbn [mbind option_bind]; unfold copied;
        rewrite zlen_pack_app, zlen_pack_one, zlen_app; change (zlen [unescape (trim f)]) with 1;
        by rewrite Z.add_assoc.
  - rewrite (elems_more _ _ _ E) in *. rewrite zlen_pack_cons, zlen_cons in *.
    assert (Hc0 : c <> 0) by (intros ->; done).
    pose proof (zlen_nonneg (elems rem')). pose proof (zlen_nonneg (pack (elems rem'))).
    destruct n as [|n]; [lia|]. apply Forall_app in Hf as [Hf Hf']. inversion Hf'; subst.
    destruct (parse_field pre f c (rem' ++ 0 :: tail)) as (pre' & rv & Hl & Hp & Hv);
      [done|by right|by right| | |].
    { by rewrite <- app_assoc in Hs. }
    { destruct Hst as [(g & gs & Eg & Hg)|Hst]; [left|by right]. rewrite E in Eg. by injection Eg as <- _. }
    cbn [copy_loop]. rewrite <- app_assoc. simpl ((c :: rem') ++ _). rewrite Hp. cbn [mbind option_bind].
    rewrite (proj2 (Z.eqb_neq c 0)) by done.
    destruct (copy_store done_ (unescape (trim f)) k m) as [-> Hw]; [lia|lia|]. cbn [mbind option_bind].
    rewrite Hv. cbn [mbind option_bind]. rewrite Hw. cbn [mbind option_bind].
    replace (S (length pre')) with (length (pre' ++ [0])) by (rewrite length_app; simpl; lia).
    replace (pre' ++ 0 :: rem' ++ 0 :: tail) with ((pre' ++ [0]) ++ rem' ++ 0 :: tail) by (by rewrite <- app_assoc).
    assert (Hlen : (length rem' < length (f ++ c :: rem'))%nat) by (rewrite length_app; simpl; lia).
    specialize (IH rem' Hlen n (pre' ++ [0]) tail (done_ ++ [unescape (trim f)])
                  (k - (zlen (unescape (trim f)) + 1)) (m - 1)).
    unfold copied at 1 in IH. rewrite zlen_pack_app, zlen_pack_one, zlen_app, Z.add_assoc in IH.
    change (zlen [unescape (trim f)]) with 1 in IH.
    rewrite IH; [|done|right; by exists pre', 0|lia|lia|lia].
    rewrite <- app_assoc. simpl ([_] ++ _). do 2 f_equal; lia.
Qed.

(** ** Decoding *)

Lemma zlen_onto p fs : fs <> [] -> zlen (onto p fs) = zlen fs.
Proof. by destruct fs. Qed.

Lemma count_loop_ok s : forall pc ns, count_loop s pc ns = (pc + zlen s, ns + zlen (fields s) - 1).
Proof.
  induction s as [s IH] using (induction_ltof1 _ (@length Z)). unfold ltof in IH. intros pc ns.
  assert (Hne : forall s, fields s <> []) by (intros x; destruct (fields_ne x) as (? & ? & ->); done).
  destruct s as [|c s]; [unfold zlen; simpl; f_equal; lia|]. cbn [count_loop fields].
  destruct (c =? c_bslash).
  - destruct s as [|d s]; [unfold zlen; simpl; f_equal; lia|]. rewrite IH, zlen_onto by (done || (simpl; lia)).
    rewrite !zlen_cons. f_equal; lia.
  - rewrite IH by (simpl; lia). destruct (is_sep c); [|rewrite zlen_onto by done]; rewrite !zlen_cons; f_equal; lia.
Qed.

Lemma fields_snoc_sep s d c : is_sep c = true -> d <> c_bslash ->
  (zlen (fields (s ++ [d])) + 1 <= zlen (fields ((s ++ [d]) ++ [c]))).
Proof.
  intros Hc Hd. rewrite <- app_assoc. simpl app.
  assert (Hne : forall s, fields s <> []) by (intros x; destruct (fields_ne x) as (? & ? & ->); done).
  assert (Hcb : (c =? c_bslash) = false) by (destruct (Z.eqb_spec c c_bslash) as [->|]; done).
  induction s as [s IH] using (induction_ltof1 _ (@length Z)). unfold ltof in IH.
  destruct s as [|e s].
  - cbn [app fields]. rewrite (proj2 (Z.eqb_neq _ _) Hd), Hcb, Hc. destruct (is_sep d); unfold zlen; simpl; lia.
  - cbn [app fields]. destruct (e =? c_bslash).
    + destruct s as [|x s]; [cbn [app fields]; rewrite Hcb, Hc; unfold zlen; simpl; lia|]. cbn [app].
      rewrite !zlen_onto by done. apply IH. simpl. lia.
    + destruct (is_sep e); [rewrite !zlen_cons|rewrite !zlen_onto by done]; specialize (IH s); simpl in IH; lia.
Qed.

(** The two shapes of a text: a separator is cut off its end, or not. *)
Lemma body_cases val : val <> [] ->
  (exists s d c, val = (s ++ [d]) ++ [c] /\ is_sep c = true /\ d <> c_bslash /\ body val = s ++ [d]) \/
  (body val = val /\ exists s c, val = s ++ [c] /\
     (is_sep c = true -> s = [] \/ exists s', s = s' ++ [c_bslash])).
Proof.
  intros Hne. destruct val as [|c s _] using rev_ind; [done|]. unfold body. rewrite reverse_snoc.
  destruct s as [|d s _] using rev_ind; [right; split; [done|]; exists [], c; eauto|]. rewrite reverse_snoc.
  destruct (is_sep c) eqn:Ec; cbn [andb]; [|right; split; [done|]; exists (s ++ [d]), c; by rewrite Ec].
  destruct (Z.eqb_spec d c_bslash) as [->|Hd]; cbn [negb].
  - right. split; [done|]. exists (s ++ [c_bslash]), c. split; [done|]. eauto.
  - left. exists s, d, c. by rewrite reverse_cons, reverse_involutive.
Qed.

Lemma char_at_last s c : char_at (s ++ [c]) (zlen (s ++ [c]) - 1) = Some c.
Proof.
  unfold char_at, zlen. rewrite length_app. simpl. rewrite (proj2 (Z.leb_le _ _)) by lia.
  replace (Z.to_nat (Z.of_nat (length s + 1) - 1)) with (length s) by lia. by rewrite list_lookup_middle.
Qed.

Lemma char_at_before s d c : char_at ((s ++ [d]) ++ [c]) (zlen ((s ++ [d]) ++ [c]) - 1 - 1) = Some d.
Proof.
  unfold char_at, zlen. rewrite <- app_assoc, !length_app. simpl. rewrite (proj2 (Z.leb_le _ _)) by lia.
  replace (Z.to_nat (Z.of_nat (length s + 2) - 1 - 1)) with (length s) by lia. by rewrite list_lookup_middle.
Qed.

Lemma elements_free val : nul_free val -> nul_free (body val).
Proof.
  intros Hf. destruct (decide (val = [])) as [->|Hne]; [done|].
  destruct (body_cases val Hne) as [(s & d & c & -> & _ & _ & ->)|[-> _]]; [|done].
  by apply Forall_app in Hf as [Hf _].
Qed.

Lemma fields_count val : zlen (fields val) <= zlen val + 1.
Proof.
  assert (Hne : forall s, fields s <> []) by (intros x; destruct (fields_ne x) as (? & ? & ->); done).
  induction val as [s IH] using (induction_ltof1 _ (@length Z)). unfold ltof in IH.
  destruct s as [|c s]; [done|]. pose proof (IH s ltac:(simpl; lia)) as Hs. cbn [fields]. rewrite zlen_cons.
  destruct (c =? c_bslash).
  - destruct s as [|d s]; [done|]. pose proof (IH s ltac:(simpl; lia)). rewrite zlen_onto, zlen_cons by done. lia.
  - destruct (is_sep c); [rewrite zlen_cons|rewrite zlen_onto by done]; lia.
Qed.

Lemma starts_well_ne s : starts_well s -> s <> [].
Proof. intros (f & fs & E & Hr) ->. by injection E as <- <-. Qed.

(** The end of the text: what is copied, its size and the number of slots. *)
Lemma strip_end val : starts_well (body val) ->
  exists strip : bool, exists ns tail,
    (c ← char_at val (zlen val - 1);
     if is_sep c then (d ← char_at val (zlen val - 1 - 1); Some (negb (d =? c_bslash))) else Some false) = Some strip /\
    (if strip then take (Z.to_nat (zlen val - 1)) val ++ [c_nul; c_nul] else val ++ [c_nul]) = body val ++ 0 :: tail /\
    (if strip then zlen val + 1 - 1 else zlen val + 1) = zlen (body val) + 1 /\
    (if strip then 1 + zlen (fields val) - 1 - 1 else 1 + zlen (fields val) - 1) = ns /\
    zlen (fields (body val)) <= ns <= zlen val + 1.
Proof.
  intros Hst. pose proof (fields_count val).
  assert (Hne : val <> []) by (intros ->; by apply starts_well_ne in Hst).
  destruct (body_cases val Hne) as [(s & d & c & -> & Hc & Hd & Eb)|(Eb & s & c & -> & Hc)]; rewrite Eb in *.
  - exists true, (zlen (fields ((s ++ [d]) ++ [c])) - 1), [0]. rewrite char_at_last. cbn [mbind option_bind].
    rewrite Hc, char_at_before. cbn [mbind option_bind]. rewrite (proj2 (Z.eqb_neq d c_bslash)) by done.
    split; [done|]. split; [|split; [|split; [lia|]]].
    + rewrite zlen_app. replace (zlen (s ++ [d]) + zlen [c] - 1) with (zlen (s ++ [d])) by (unfold zlen; simpl; lia).
      unfold zlen. by rewrite Nat2Z.id, take_app_length.
    + rewrite (zlen_app _ [c]). unfold zlen. simpl. lia.
    + pose proof (fields_snoc_sep s d c Hc Hd). lia.
  - exists false, (zlen (fields (s ++ [c]))), []. rewrite char_at_last. cbn [mbind option_bind].
    split; [|repeat split; lia]. destruct (is_sep c) eqn:Ec; [|done].
    destruct (Hc eq_refl) as [->|[s' ->]]; [|by rewrite char_at_before].
    destruct Hst as (f & fs & Ef & Hr). cbn [app fields] in Ef. rewrite Ec in Ef.
    destruct (Z.eqb_spec c c_bslash) as [->|]; [done|]. by injection Ef as <- <-.
Qed.

Section Decode.
Context `{Platform} {Hall : AllocOk}.

(** Decoding stores the elements of the text, in a block of the text's size. *)
Lemma decode_direct_run patr val :
  nul_free val -> starts_well (body val) -> zlen val <= ARST_MAX ->
  exists pas, decode_arst_direct patr val = Some (0, now_set patr (Some pas)) /\ holds pas (elements val)
    /\ as_bufsize pas <= zlen val + 1 /\ as_npointers pas <= zlen val + 1.
Proof.
  intros Hf Hst Hsz. unfold decode_arst_direct, elements. unfold ARST_MAX in *.
  rewrite count_loop_ok, Z.add_0_l. cbv zeta. pose proof (zlen_nonneg val).
  rewrite alloc_ok by (unfold ALLOC_MAX; lia). cbn [negb].
  pose proof (elements_free val Hf) as Hbf. destruct (elems_room _ Hbf) as (Hef & Her & Hec).
  destruct (strip_end val Hst) as (strip & ns & tail & E1 & E2 & E3 & E4 & E5).
  destruct (char_at val (zlen val - 1)) as [c|]; [|done]. cbn [mbind option_bind] in *.
  rewrite E1. cbn [mbind option_bind]. rewrite E2, E3, E4.
  pose proof (zlen_nonneg (body val)). assert (zlen (body val) + 1 <= zlen val + 1) by (rewrite <- E3; destruct strip; lia).
  rewrite alloc_ok by (unfold ALLOC_MAX; lia). cbn [negb].
  assert (1 <= ns).
  { destruct (fields_ne (body val)) as (f & fs & Ef). rewrite Ef, zlen_cons in E5. pose proof (zlen_nonneg fs). lia. }
  rewrite (proj2 (Z.ltb_ge ns 1)) by lia.
  rewrite alloc_ok by (unfold ALLOC_MAX, SIZEOF_PTR, SIZEOF_ARST; lia). cbn [negb].
  pose proof (copy_loop_ok (body val) (Z.to_nat ns) [] tail [] (zlen (body val) + 1) ns Hbf (or_introl Hst)) as Hcp.
  unfold copied at 1 in Hcp. simpl app in Hcp. cbn [length offs fmap list_fmap pack] in Hcp.
  change (zlen (A := Z) []) with 0 in Hcp. change (zlen (A := list Z) []) with 0 in Hcp.
  rewrite Hcp by lia. cbn [mbind option_bind]. unfold copied.
  eexists. split; [done|]. split; [|simpl; lia].
  constructor; cbn [as_buf as_next as_bufsize as_usedptr as_npointers as_string]; try done.
  - split; [|by eexists]. rewrite zlen_app, zlen_zeros by lia. lia.
  - by eexists.
  - rewrite zlen_app, zlen_replicate. pose proof (zlen_nonneg (elems (body val))). unfold zlen in *.
    rewrite length_fmap, length_offs. lia.
Qed.

End Decode.

(** ** Encoding *)

(** The characters of a string with back-slashes; the strings with the separator behind
    each, which is what replaces the NULs. *)
Definition esc (sep : Z) (s : list Z) : list Z := mjoin (encode_char sep <$> s).

Lemma esc_cons sep c s : esc sep (c :: s) = encode_char sep c ++ esc sep s.
Proof. done. Qed.

Lemma esc_one sep c : esc sep [c] = encode_char sep c.
Proof. unfold esc. simpl. by rewrite app_nil_r. Qed.

Lemma esc_app sep s t : esc sep (s ++ t) = esc sep s ++ esc sep t.
Proof. unfold esc. by rewrite fmap_app, join_app. Qed.

Lemma esc_pack sep s l : esc sep (pack (s :: l)) = esc sep s ++ sep :: esc sep (pack l).
Proof. simpl. by rewrite esc_app. Qed.

(** An escaped string is one field, and unescaping gives it back. *)
Lemma fields_esc sep s rest : nul_free s -> is_sep sep = true ->
  fields (esc sep s ++ sep :: rest) = esc sep s :: fields rest /\ fields (esc sep s) = [esc sep s]
  /\ unescape (esc sep s) = s.
Proof.
  intros Hf Hs. assert (Hsb : (sep =? c_bslash) = false) by (destruct (Z.eqb_spec sep c_bslash) as [->|]; done).
  induction Hf as [|c s Hc Hf (IH1 & IH2 & IH3)]; [simpl; rewrite Hsb, Hs; done|].
  rewrite esc_cons. unfold encode_char. rewrite (proj2 (Z.eqb_neq c 0)) by done.
  destruct (needs_escape c) eqn:En; cbn [app fields unescape].
  - change (c_bslash =? c_bslash) with true. cbv iota. by rewrite IH1, IH2, IH3.
  - unfold needs_escape in En. rewrite !orb_false_iff in En. destruct En as [[[[_ _] E1] E2] E3].
    unfold is_sep at 1 2. rewrite E1, E2, E3. cbn [orb]. by rewrite IH1, IH2, IH3.
Qed.

(** No blank at the ends. *)
Definition tidy (s : list Z) : Prop :=
  nul_free s /\ (forall c t, s = c :: t -> isspace c = false) /\ (forall c t, s = t ++ [c] -> isspace c = false).

Lemma rstrip_esc sep s : tidy s -> rstrip (esc sep s) = esc sep s.
Proof.
  intros (Hf & _ & Hl). destruct s as [|c s _] using rev_ind; [done|]. pose proof (Hl c s eq_refl) as Hc.
  rewrite esc_app, esc_one. unfold encode_char.
  apply Forall_app in Hf as [_ Hf]. inversion Hf; subst. rewrite (proj2 (Z.eqb_neq c 0)) by done.
  destruct (needs_escape c); [|by rewrite rstrip_snoc, Hc].
  change [c_bslash; c] with ([c_bslash] ++ [c]). rewrite app_assoc. by rewrite rstrip_snoc, Hc.
Qed.

Lemma trim_esc sep s : tidy s -> trim (esc sep s) = esc sep s.
Proof.
  intros Ht. unfold trim.
  assert (lead_blanks (esc sep s) = O) as ->; [|rewrite drop_0; by apply rstrip_esc].
  destruct Ht as (Hf & Hh & _). destruct s as [|c s]; [done|]. pose proof (Hh c s eq_refl) as Hc.
  rewrite esc_cons. unfold encode_char. inversion Hf; subst. rewrite (proj2 (Z.eqb_neq c 0)) by done.
  destruct (needs_escape c); cbn [app lead_blanks]; [done|]. by rewrite Hc, andb_false_r.
Qed.

Lemma esc_ne sep s : s <> [] -> esc sep s <> [].
Proof. destruct s as [|c s]; [done|]. rewrite esc_cons. unfold encode_char. by repeat case_match. Qed.

(** The text of a list: the fields with the separator between them. *)
Fixpoint text_of (sep : Z) (l : list (list Z)) : list Z :=
  match l with
  | [] => []
  | [s] => esc sep s
  | s :: l' => esc sep s ++ sep :: text_of sep l'
  end.

Lemma text_of_pack sep l : l <> [] -> esc sep (pack l) = text_of sep l ++ [sep].
Proof.
  intros Hne. induction l as [|s l IH]; [done|]. rewrite esc_pack. destruct l as [|t l]; [done|].
  rewrite IH by done. cbn [text_of]. by rewrite <- app_assoc.
Qed.

Lemma elems_text sep l : is_sep sep = true -> Forall tidy l -> l <> [] -> (forall l', l <> l' ++ [[]]) ->
  elems (text_of sep l) = l /\ elems (text_of sep l ++ [sep]) = l.
Proof.
  intros Hs Hl. induction Hl as [|s l Ht Hl IH]; intros Hne Hlast; [done|].
  pose proof (trim_esc sep s Ht) as Etr. destruct Ht as (Hf & _).
  destruct (fields_esc sep s [] Hf Hs) as (E1 & E2 & E3).
  destruct l as [|t l].
  - cbn [text_of]. split.
    + rewrite (elems_one _ E2). assert (esc sep s <> []) as Hn by (apply esc_ne; intros ->; by specialize (Hlast [])).
      destruct (esc sep s) eqn:Ee; [done|by rewrite Etr, E3].
    + rewrite (elems_more _ _ _ E1), Etr, E3. done.
  - destruct IH as [IH1 IH2]; [done|intros l' E; apply (Hlast (s :: l')); by rewrite E|]. cbn [text_of] in *.
    destruct (fields_esc sep s (text_of sep (t :: l)) Hf Hs) as (E4 & _ & _).
    destruct (fields_esc sep s (text_of sep (t :: l) ++ [sep]) Hf Hs) as (E5 & _ & _).
    rewrite <- app_assoc. cbn [text_of] in *. split.
    + by rewrite (elems_more _ _ _ E4), Etr, E3, IH1.
    + simpl ((sep :: _) ++ _). by rewrite (elems_more _ _ _ E5), Etr, E3, IH2.
Qed.

Lemma text_snoc sep l s : exists p, text_of sep (l ++ [s]) = p ++ esc sep s.
Proof.
  induction l as [|t l [p IH]]; [by exists []|]. exists (esc sep t ++ sep :: p). cbn [app text_of].
  rewrite <- app_assoc. simpl. rewrite <- IH. by destruct l.
Qed.

(** Lists that a text can stand for: every string tidy, the first and the last not empty. *)
Definition printable (l : list (list Z)) : Prop :=
  Forall tidy l /\ l <> [] /\ (forall l', l <> [] :: l') /\ (forall l', l <> l' ++ [[]]).

Lemma elements_text sep l : is_sep sep = true -> printable l ->
  forall v, v = text_of sep l \/ v = text_of sep l ++ [sep] -> elements v = l /\ starts_well (body v).
Proof.
  intros Hs (Ht & Hne & Hfirst & Hlast) v Hv. destruct (elems_text sep l Hs Ht Hne Hlast) as [E1 E2].
  assert (Hb : body v = text_of sep l \/ body v = text_of sep l ++ [sep]).
  { assert (v <> []) as Hvn by (destruct Hv as [->| ->]; [|by destruct (text_of sep l)]; intros E;
      rewrite E in E1; by destruct l).
    destruct (body_cases v Hvn) as [(s & d & c & -> & Hc & Hd & ->)|[-> _]]; [|tauto].
    destruct Hv as [Hv|[-> _]%app_inj_2]; [|by left|done]. exfalso. revert Hv Hlast Ht.
    destruct l as [|t l _] using rev_ind; [done|]. destruct (text_snoc sep l t) as [p ->].
    intros Hv Hlast Ht. destruct t as [|x t _] using rev_ind; [by apply (Hlast l)|].
    rewrite esc_app, esc_one in Hv. unfold encode_char in Hv. apply Forall_app in Ht as [_ Ht].
    inversion Ht as [|? ? (Hf & _)]; subst. apply Forall_app in Hf as [_ Hf]. inversion Hf; subst.
    rewrite (proj2 (Z.eqb_neq x 0)) in Hv by done. destruct (needs_escape x) eqn:En.
    - change [c_bslash; x] with ([c_bslash] ++ [x]) in Hv. rewrite !app_assoc in Hv.
      apply app_inj_2 in Hv as [Hv _]; [|done]. by apply app_inj_2 in Hv as [_ [= ->]].
    - rewrite app_assoc in Hv. apply app_inj_2 in Hv as [_ [= ->]]; [|done].
      unfold is_sep in Hc. unfold needs_escape in En. rewrite !orb_false_iff in En.
      destruct En as [[[_ E3] _] E4]. by rewrite E3, E4 in Hc. }
  split; [unfold elements; by destruct Hb as [->| ->]|].
  destruct l as [|s l]; [done|]. apply Forall_cons_1 in Ht as [Hts _]. pose proof Hts as (Hf & _).
  assert (Hse : rstrip (esc sep s) <> []).
  { rewrite rstrip_esc by done. apply esc_ne. intros ->. by apply (Hfirst l). }
  destruct l as [|t l].
  - destruct (fields_esc sep s [] Hf Hs) as (E3 & E4 & _).
    destruct Hb as [->| ->]; cbn [text_of]; [by exists (esc sep s), []|by exists (esc sep s), [[]]].
  - cbn [text_of] in *. destruct Hb as [->| ->]; [|rewrite <- app_assoc; simpl ((sep :: _) ++ _)];
      eexists (esc sep s), _; (split; [by apply fields_esc|done]).
Qed.

Section RoundTrip.
Context `{Platform} {Hall : AllocOk}.

(** C32: Decoding a text whose first field is not blank ([starts_well]; see
    [decode_leading_comma] for one that starts with a comma) into an attribute without a
    value stores its fields.  The text is cut at the commas and newlines that are not
    escaped, a trailing one does not count, blanks around a field are dropped and
    back-slashes removed; all of it happens inside the blocks. *)
Theorem decode_arst_elements (patr : arst_attribute) val :
  at_val patr = None -> nul_free val -> starts_well (body val) -> zlen val <= ARST_MAX ->
  exists pas, decode_arst patr (Some val) = Some (0, now_set patr (Some pas)) /\ holds pas (elements val).
Proof.
  intros Hv Hf Hst Hsz. destruct (decode_direct_run patr val Hf Hst Hsz) as (pas & E & Hh & _).
  exists pas. split; [|done]. unfold decode_arst. destruct val as [|c val]; [by apply starts_well_ne in Hst|].
  rewrite Hv. by destruct (is_set patr).
Qed.

Lemma filter_le {A} (P : A -> Prop) `{forall x, Decision (P x)} (l : list A) : zlen (base.filter P l) <= zlen l.
Proof. unfold zlen. pose proof (length_filter P l). lia. Qed.

Lemma esc_length sep s :
  zlen (esc sep s) <= zlen s + zlen (base.filter (fun c => needs_escape c = true) s).
Proof.
  induction s as [|c s IH]; [done|]. rewrite esc_cons, zlen_app, zlen_cons, filter_cons. unfold encode_char.
  destruct (c =? 0); [case_decide; rewrite ?zlen_cons; unfold zlen in *; simpl in *; lia|].
  destruct (decide (needs_escape c = true)) as [->|Hn]; [rewrite zlen_cons; unfold zlen in *; simpl in *; lia|].
  destruct (needs_escape c); [done|]. unfold zlen in *; simpl in *; lia.
Qed.

Lemma entry_for_nul f n r vsize v : zlen v < vsize -> entry_for f n r vsize (v ++ [c_nul]) = entry_for f n r vsize v.
Proof.
  intros Hl. unfold entry_for. do 2 f_equal. rewrite zlen_app, <- app_assoc. f_equal.
  change (zlen [c_nul]) with 1. replace (vsize - zlen v) with (1 + (vsize - (zlen v + 1))) by lia.
  by rewrite zeros_app by (pose proof (zlen_nonneg v); lia).
Qed.

(** What [encode_arst] links to the list. *)
Lemma encode_arst_text (attr : arst_attribute) pas l phead n r mode :
  is_set attr = true -> at_val attr = Some pas -> holds pas l -> l <> [] -> Forall nul_free l ->
  names_ok n r (2 * as_next pas + 2) -> 2 * as_next pas + 2 <= ARST_MAX ->
  let sep := if mode =? ATR_ENCODE_SAVE then c_nl else c_comma in
  let v := if mode =? ATR_ENCODE_SAVE then text_of sep l ++ [sep] else text_of sep l in
  exists vsize, encode_arst attr phead n r mode = Some (1, phead ++ [entry_for (at_flags attr) n r vsize v])
    /\ zlen v < vsize <= 2 * as_next pas + 2.
Proof.
  intros Hs Ev Hh Hne Hf Hn Hsz sep v. unfold encode_arst. rewrite Hs, Ev. cbn [negb].
  destruct Hh as [Hu _ Hx Hb _ _]. pose proof (zlen_nonneg (pack l)).
  destruct l as [|s0 l0]; [done|]. set (l := s0 :: l0) in *.
  rewrite (proj2 (Z.eqb_neq (as_usedptr pas) 0)) by (rewrite Hu; unfold l; rewrite zlen_cons; pose proof (zlen_nonneg l0); lia).
  destruct (as_buf pas) as [b|]; [|by destruct Hb]. destruct Hb as [_ [q ->]]. cbn [mbind option_bind].
  rewrite Hx in *. rewrite mem_read_prefix. cbn [mbind option_bind]. fold sep.
  change (mjoin (encode_char sep <$> pack l)) with (esc sep (pack l)).
  pose proof (esc_length sep (pack l)) as He.
  pose proof (filter_le (fun c => needs_escape c = true) (pack l)) as Hfl.
  pose proof (zlen_nonneg (base.filter (fun c => needs_escape c = true) (pack l))).
  rewrite (text_of_pack sep l) in * by done. rewrite zlen_app in He. change (zlen [sep]) with 1 in He.
  unfold ARST_MAX in Hsz. rewrite i32_small by lia.
  set (k := zlen (base.filter _ (pack l))) in *. pose proof (zlen_nonneg (text_of sep l)).
  unfold v. destruct (mode =? ATR_ENCODE_SAVE) eqn:Em.
  - exists (zlen (pack l) + 1 + k + 1). rewrite zlen_app. change (zlen [sep]) with 1. split; [|lia].
    rewrite append_entry_ok; [|apply (names_ok_room _ _ _ _ Hn); lia|rewrite !zlen_app; unfold zlen in *; simpl in *; lia].
    rewrite entry_for_nul; [done|]. rewrite zlen_app. change (zlen [sep]) with 1. lia.
  - exists (zlen (pack l) + k + 1). split; [|lia].
    rewrite length_app, Nat.add_sub, take_app_length.
    rewrite append_entry_ok; [|apply (names_ok_room _ _ _ _ Hn); lia|rewrite !zlen_app; unfold zlen in *; simpl in *; lia].
    rewrite entry_for_nul; [done|]. lia.
Qed.

Lemma esc_free sep s : nul_free s -> sep <> 0 -> nul_free (esc sep s).
Proof.
  intros Hf Hs. induction Hf as [|c s Hc Hf IH]; [constructor|]. rewrite esc_cons. apply Forall_app. split; [|done].
  unfold encode_char. repeat case_match; repeat constructor; done.
Qed.

Lemma text_free sep l : Forall nul_free l -> sep <> 0 -> nul_free (text_of sep l).
Proof.
  intros Hf Hs. induction Hf as [|s l Hc Hf IH]; [constructor|]. cbn [text_of].
  destruct l as [|t l]; [by apply esc_free|]. apply Forall_app. split; [by apply esc_free|]. by constructor.
Qed.

(** C33: A list of strings survives being encoded, for a client or for the file the server
    saves its state in, and decoded again, if it is [printable]: not empty, its first and
    last string not empty, and no string with blanks at its ends. *)
Theorem arst_roundtrip (attr fresh : arst_attribute) pas l phead n r mode :
  is_set attr = true -> at_val attr = Some pas -> holds pas l -> printable l -> at_val fresh = None ->
  names_ok n r (2 * as_next pas + 2) -> 2 * as_next pas + 2 <= ARST_MAX ->
  exists e v pas', encode_arst attr phead n r mode = Some (1, phead ++ [e])
    /\ al_name_str e = Some n /\ al_value_str e = Some v
    /\ decode_arst fresh (Some v) = Some (0, now_set fresh (Some pas')) /\ holds pas' l.
Proof.
  intros Hs Ev Hh Hp Hfr Hn Hsz.
  destruct (encode_arst_text attr pas l phead n r mode Hs Ev Hh) as (vsize & E & Hv); [apply Hp|by destruct Hh|done|done|].
  set (sep := if mode =? ATR_ENCODE_SAVE then c_nl else c_comma) in *.
  set (v := if mode =? ATR_ENCODE_SAVE then text_of sep l ++ [sep] else text_of sep l) in *.
  assert (Hsep : is_sep sep = true /\ sep <> 0) by (unfold sep; by destruct (mode =? ATR_ENCODE_SAVE)).
  assert (Hvf : nul_free v).
  { pose proof (text_free sep l (h_free _ _ Hh) (proj2 Hsep)). unfold v. destruct (mode =? ATR_ENCODE_SAVE); [|done].
    apply Forall_app. split; [done|]. constructor; [tauto|constructor]. }
  destruct (elements_text sep l (proj1 Hsep) Hp v) as [Ee Hst].
  { unfold v. destruct (mode =? ATR_ENCODE_SAVE); tauto. }
  destruct (decode_direct_run fresh v Hvf Hst) as (pas' & Ed & Hh' & _); [lia|]. rewrite Ee in Hh'.
  destruct (entry_for_strings (at_flags attr) n r vsize v) as (E1 & _ & E3); [apply (names_ok_room _ _ _ _ Hn); lia|done|lia|].
  eexists _, v, pas'. split; [exact E|]. split; [done|]. split; [done|]. split; [|done].
  unfold decode_arst. destruct v as [|c v']; [by apply starts_well_ne in Hst|]. rewrite Hfr. by destruct (is_set fresh).
Qed.

End RoundTrip.

Section ArstWitnesses.
#[local] Existing Instance generous.
#[local] Existing Instance generous_ok.

(** ["A=1", "b,c"] decoded from a text, and ["A=2", "d"]. *)
Definition two_pas : array_strings :=
  mk_array_strings 2 2 10 (Some [65;61;49;0;98;44;99;0;0;0]) 8 [Some 0; Some 4].
Definition other_pas : array_strings := mk_array_strings 2 2 7 (Some [65;61;50;0;100;0;0]) 6 [Some 0; Some 4].

Lemma two_holds : holds two_pas [[65;61;49]; [98;44;99]].
Proof.
  constructor; try reflexivity.
  - repeat constructor; discriminate.
  - split; [reflexivity|]. exists [0; 0]. reflexivity.
  - exists []. reflexivity.
Defined.

Lemma other_holds : holds other_pas [[65;61;50]; [100]].
Proof.
  constructor; try reflexivity.
  - repeat constructor; discriminate.
  - split; [reflexivity|]. exists [0]. reflexivity.
  - exists []. reflexivity.
Defined.

Lemma set_arst_refines_witness :
  exists pas, set_arst (mk_attribute 1 4 (Some two_pas)) (mk_attribute 1 4 (Some other_pas)) INCR
              = Some (0, now_set (mk_attribute 1 4 (Some two_pas)) (Some pas))
    /\ strings_of pas = Some [[65;61;50]; [100]; [98;44;99]].
Proof.
  destruct (set_arst_refines (mk_attribute 1 4 (Some two_pas)) (mk_attribute 1 4 (Some other_pas)) other_pas
              [[65;61;49]; [98;44;99]] [[65;61;50]; [100]] INCR) as (pas & E & _ & Hs).
  - reflexivity.
  - reflexivity.
  - exact other_holds.
  - discriminate.
  - exact two_holds.
  - right. left.
  - vm_compute. discriminate.
  - vm_compute. discriminate.
  - exists pas. split; [exact E|exact Hs].
Defined.

(** [" x , y\,z,"] *)
Lemma decode_arst_elements_witness :
  exists pas, decode_arst (mk_attribute 0 4 None) (Some [32;120;32;44;32;121;92;44;122;44])
              = Some (0, now_set (mk_attribute 0 4 None) (Some pas)) /\ holds pas [[120]; [121;44;122]].
Proof.
  apply (decode_arst_elements (mk_attribute 0 4 None) [32;120;32;44;32;121;92;44;122;44]).
  - reflexivity.
  - repeat constructor; discriminate.
  - eexists _, _. split; [reflexivity|]. discriminate.
  - vm_compute. discriminate.
Defined.

Lemma arst_roundtrip_witness :
  exists e v pas', encode_arst (mk_attribute 1 4 (Some two_pas)) [] [97] None ATR_ENCODE_SAVE = Some (1, [e])
    /\ al_value_str e = Some v
    /\ decode_arst (mk_attribute 0 4 None) (Some v) = Some (0, now_set (mk_attribute 0 4 None) (Some pas'))
    /\ holds pas' [[65;61;49]; [98;44;99]].
Proof.
  destruct (arst_roundtrip (mk_attribute 1 4 (Some two_pas)) (mk_attribute 0 4 None) two_pas
              [[65;61;49]; [98;44;99]] [] [97] None ATR_ENCODE_SAVE) as (e & v & pas' & E1 & _ & E2 & E3 & E4).
  - reflexivity.
  - reflexivity.
  - exact two_holds.
  - split; [|split; [discriminate|split; [discriminate|]]].
    + repeat constructor; try discriminate; intros c t E; destruct t as [|x [|y [|z t]]]; simplify_eq/=;
        try reflexivity; by destruct t.
    + intros [|x [|y [|z l']]]; discriminate.
  - reflexivity.
  - split; [repeat constructor; discriminate|]. split; [discriminate|vm_compute; discriminate].
  - vm_compute. discriminate.
  - exists e, v, pas'. split; [exact E1|]. split; [exact E2|]. split; [exact E3|exact E4].
Defined.

(** The comparison only looks for the strings of the second list in the first: ["a", "b"] and
    ["a"]. *)
Example comp_arst_one_sided :
  let two := mk_attribute 1 ATR_TYPE_ARST (Some (mk_array_strings 2 2 4 (Some [97;0;98;0]) 4 [Some 0; Some 2])) in
  let one := mk_attribute 1 ATR_TYPE_ARST (Some (mk_array_strings 1 1 2 (Some [97;0]) 2 [Some 0])) in
  comp_arst two one = Some 0 /\ comp_arst one two = Some 1.
Proof. vm_compute. split; reflexivity. Qed.

(** A text that begins with a separator is read in front of its block. *)
Example decode_leading_comma : decode_arst (mk_attribute 0 4 None) (Some [44; 97]) = None.
Proof. vm_compute. reflexivity. Qed.

(** An empty last string does not come back, and an empty first one makes a text that
    begins with a separator. *)
Example empty_ends_lost :
  elements (text_of c_comma [[97]; []]) = [[97]] /\ text_of c_comma [[]; [98]] = [c_comma; 98].
Proof. vm_compute. by split. Qed.

(** A blank at the end of a string, escaped or not, does not come back: ["a "] and ["b\n"]. *)
Example trailing_blank_lost :
  elements (text_of c_comma [[97; 32]; [98; 10]]) = [[97]; [98]].
Proof. vm_compute. reflexivity. Qed.

End ArstWitnesses.
