(* ===== verification/Acl.v ===== *)
(** * Access control lists (src/src/lib/Libattr/attr_fn_acl.c)

    A list of the users, groups or hosts that may use the server or a queue is an array of
    strings ([Arst.v]); an entry begins with ['+'] or ['-'], or neither, and its host part may
    be a pattern.  The list is kept in an order, and a name is looked up from the front.
    A C string that is only read is the list of its characters, a pointer into it the rest of
    the list; the order functions, which the code gives pointers into the buffers, work on
    blocks and offsets.  [None] is undefined behaviour. *)

From S2P Require Import Prelude CLib TcpDis Codec DisInt DisStr Attrs AttrVal AttrTypes AttrStr Arst.
From stdpp Require Import base list numbers option.

Local Open Scope Z_scope.

Definition ACL_Host : Z := 1.
Definition ACL_User : Z := 2.
Definition ACL_Group : Z := 3.
Definition ACL_Gid : Z := 4.
Definition ACL_User_Host : Z := 5.
Definition PBSE_DUPLIST : Z := 15057.

Definition c_at : Z := 64.
Definition c_star : Z := 42.
Definition c_lbr : Z := 91.
Definition c_rbr : Z := 93.
(** ["LOCAL"] *)
Definition LOCAL : list Z := [76;79;67;65;76].

Definition strcasecmp_eq (a b : list Z) : bool := bool_decide (map tolower a = map tolower b).

(** ** Patterns *)

(** Where a character is next; the loop does not stop at the end of the string. *)
Fixpoint find_char (c : Z) (s : list Z) : option (list Z) :=
  match s with
  | [] => None
  | d :: s' => if d =? c then Some s else find_char c s'
  end.

Fixpoint skip_digits (s : list Z) : list Z :=
  match s with
  | c :: s' => if is_digit c then skip_digits s' else s
  | [] => []
  end.

(** The outer [None] is undefined behaviour, the inner one the return of 1; otherwise the new
    positions in the entry and in the name. *)
Definition acl_check_range (pm pc : list Z) : option (option (list Z * list Z)) :=
  let pm := match pm with c :: pm' => if c =? c_lbr then pm' else pm | [] => pm end in
  let low := atoi pm in
  pm ← find_char c_minus pm;
  let pm := drop 1 pm in
  let high := atoi pm in
  pm ← find_char c_rbr pm;
  let pm := drop 1 pm in
  let num := atoi pc in
  if (num <? low) || (high <? num) then Some None
  else Some (Some (pm, skip_digits pc)).

(** The first rest of [pc], not empty, that [pm] equals. *)
Fixpoint has_tail (pm pc : list Z) : bool :=
  match pc with
  | [] => false
  | _ :: pc' => strcasecmp_eq pm pc || has_tail pm pc'
  end.

(** [None] is the return of 1; both positions are at their ends otherwise. *)
Definition acl_wildcard_check (pm pc : list Z) : option (list Z * list Z) :=
  match pm with
  | c :: pm' =>
      if negb (c =? c_star) then None
      else match pm' with
           | [] => Some ([], [])
           | _ => if has_tail pm' pc then Some ([], []) else None
           end
  | [] => None
  end.

(** The tests after the loop. *)
Definition match_end (pc pm : list Z) : Z :=
  match pc, pm with
  | _ :: _, _ => 1
  | [], [] => 0
  | [], [c] => if c =? c_star then 0 else 1
  | [], _ => 1
  end.

(** The loop of [hacl_match] and of [match_strings]; the pattern gets shorter. *)
Fixpoint match_loop (fuel : nat) (pc pm : list Z) : option Z :=
  match fuel with
  | O => None
  | S fuel' =>
      match pc, pm with
      | c :: pc', m :: pm' =>
          if m =? c_lbr then
            r ← acl_check_range pm pc;
            match r with
            | None => Some 1
            | Some (pm, pc) => match_loop fuel' pc pm
            end
          else if m =? c_star then
            match acl_wildcard_check pm pc with
            | None => Some 1
            | Some (pm, pc) => match_loop fuel' pc pm
            end
          else if negb (tolower c =? tolower m) then Some 1
          else match_loop fuel' pc' pm'
      | _, _ => Some (match_end pc pm)
      end
  end.

(** 0 is a match. *)
Definition hacl_match (can : cptr) (master : list Z) : option Z :=
  match can with
  | None => Some 0
  | Some can => if str_eq can LOCAL then Some 0 else match_loop (S (length master)) can master
  end.

Definition match_strings (can master : list Z) : option Z := match_loop (S (length master)) can master.

(** The user names from the second character on: where both are when that of the entry
    ends, [None] at a difference. *)
Fixpoint user_loop (master can : list Z) : option (list Z * list Z) :=
  match master with
  | [] => Some (master, can)
  | m :: master' =>
      if m =? c_at then Some (master, can)
      else match can with
           | c :: can' => if m =? c then user_loop master' can' else None
           | [] => None
           end
  end.

(** Two empty strings are run through. *)
Definition user_match (can master : list Z) : option Z :=
  match master, can with
  | [], [] => None
  | m :: master', c :: can' =>
      if negb (m =? c) then Some 1
      else match user_loop master' can' with
           | None => Some 1
           | Some ([], can) =>
               match can with
               | [] => Some 0
               | c :: _ => if c =? c_at then Some 0 else Some 1
               end
           | Some (_ :: mhost, can) =>
               match can with
               | c :: chost => if c =? c_at then hacl_match (Some chost) mhost else Some 1
               | [] => Some 1
               end
           end
  | _, _ => Some 1
  end.

(** [strchr(s, '@') + 1] *)
Fixpoint after_at (s : list Z) : option (list Z) :=
  match s with
  | [] => None
  | c :: s' => if c =? c_at then Some s' else after_at s'
  end.

(** Both halves are meant to be compared; the first comparison is of the whole strings. *)
Definition uhacl_match (can : cptr) (master : list Z) : option Z :=
  match can with
  | None => Some 0
  | Some can =>
      if str_eq can LOCAL then Some 0
      else match after_at can with
      | None | Some [] => Some 1
      | Some pchost =>
          match after_at master with
          | None | Some [] => Some 1
          | Some pmhost =>
              r ← match_strings can master;
              if negb (r =? 0) then Some 1
              else
                r ← match_strings pchost pmhost;
                if negb (r =? 0) then Some 1 else Some 0
          end
      end
  end.

Section Acl.
(** The group database and the name of the server's host. *)
Context `{Platform} (getgrnam : list Z -> option Z) (server_host : list Z).

Definition gid_match (group1 group2 : list Z) : Z :=
  if str_eq group1 group2 then 0
  else match getgrnam group1, getgrnam group2 with
       | Some gid1, Some gid2 => if gid1 =? gid2 then 0 else 1
       | _, _ => 1
       end.

(** The match function of a type, for a name that is not NULL. *)
Definition acl_match (type : Z) (name pstr : list Z) : option Z :=
  if type =? ACL_Host then hacl_match (Some name) pstr
  else if type =? ACL_User then user_match name pstr
  else if type =? ACL_Gid then Some (gid_match name pstr)
  else if type =? ACL_User_Host then uhacl_match (Some name) pstr
  else Some (if str_eq name pstr then 0 else 1).

(** ** Looking a name up *)

Definition is_sign (c : Z) : bool := (c =? c_plus) || (c =? c_minus).

(** An entry without its sign. *)
Definition unsigned_entry (e : list Z) : list Z :=
  match e with c :: e' => if is_sign c then e' else e | [] => e end.

Fixpoint acl_loop (es : list (list Z)) (name : cptr) (type default_rtn : Z) : option Z :=
  match es with
  | [] => Some default_rtn
  | e :: es' =>
      let default_rtn := match e with
                         | [c] => if c =? c_plus then 1 else if c =? c_minus then 0 else default_rtn
                         | _ => default_rtn
                         end in
      m ← match name with None => Some 1 | Some n => acl_match type n (unsigned_entry e) end;
      if m =? 0 then Some (match e with c :: _ => if c =? c_minus then 0 else 1 | [] => 1 end)
      else acl_loop es' name type default_rtn
  end.

Definition acl_check_my_array_string (pas : option array_strings) (name : cptr) (type : Z) : option Z :=
  match pas with
  | None => Some 0
  | Some pas => es ← strings_of pas; acl_loop es name type 0
  end.

Definition acl_check (pattr : arst_attribute) (name : cptr) (type : Z) : option Z :=
  let no_list :=
    if negb (type =? ACL_Host) then Some 0
    else r ← hacl_match name server_host; Some (if r =? 0 then 1 else 0) in
  if negb (is_set pattr) then no_list
  else match at_val pattr with
       | None => no_list
       | Some pas => if as_usedptr pas =? 0 then no_list
                     else acl_check_my_array_string (Some pas) name type
       end.

(** ** The order *)

(** [p1] and [p2] walk back from the ends of the strings at [s1] and [s2]. *)
Fixpoint host_loop (fuel : nat) (b1 b2 : list Z) (s1 s2 p1 p2 : Z) : option Z :=
  match fuel with
  | O => None
  | S fuel' =>
      c1 ← char_at b1 p1;
      c2 ← char_at b2 p2;
      let d := c2 - c1 in
      if (s1 <? p1) && (s2 <? p2) then
        if negb (d =? 0) then Some d else host_loop fuel' b1 b2 s1 s2 (p1 - 1) (p2 - 1)
      else if (p1 =? s1) && (p2 =? s2) then
        if c1 =? c_star then Some 1 else if c2 =? c_star then Some (-1) else Some d
      else if p1 =? s1 then Some 1
      else Some (-1)
  end.

Definition skip_sign (b : list Z) (s : Z) : option Z :=
  c ← char_at b s; Some (if is_sign c then s + 1 else s).

Definition host_order (b1 : list Z) (s1 : Z) (b2 : list Z) (s2 : Z) : option Z :=
  s1 ← skip_sign b1 s1;
  s2 ← skip_sign b2 s2;
  t1 ← str_at b1 s1;
  t2 ← str_at b2 s2;
  host_loop (S (length t1)) b1 b2 s1 s2 (s1 + zlen t1 - 1) (s2 + zlen t2 - 1).

(** The comparison of the names goes on with the hosts behind the character that ends both,
    an ['@'] or a NUL. *)
Fixpoint user_order_loop (fuel : nat) (b1 b2 : list Z) (s1 s2 : Z) : option Z :=
  match fuel with
  | O => None
  | S fuel' =>
      c1 ← char_at b1 s1;
      c2 ← char_at b2 s2;
      let d := c1 - c2 in
      if negb (d =? 0) then Some d
      else if (c1 =? c_at) || (c1 =? 0) then host_order b1 (s1 + 1) b2 (s2 + 1)
      else user_order_loop fuel' b1 b2 (s1 + 1) (s2 + 1)
  end.

Definition user_order (b1 : list Z) (s1 : Z) (b2 : list Z) (s2 : Z) : option Z :=
  s1 ← skip_sign b1 s1;
  s2 ← skip_sign b2 s2;
  user_order_loop (S (length b1)) b1 b2 s1 s2.

(** ** Setting *)

(** Some string is twice in the new list, or in both. *)
Definition chk_dup_acl (olds news : list (list Z)) : bool :=
  negb (bool_decide (NoDup news)) || existsb (fun s => existsb (str_eq s) olds) news.

Section Order.
Context (order_func : list Z -> Z -> list Z -> Z -> option Z).

(** One string of [newpas] is put in front of the first that comes after it: the characters
    from there on move up, and the pointers behind. *)
Definition insert_string (newpas pas : array_strings) (i : Z) : option array_strings :=
  nb ← as_buf newpas;
  no ← slot newpas i;
  s ← str_at nb no;
  b ← as_buf pas;
  found ← scan (fun j => o ← slot pas j; r ← order_func b o nb no; Some (0 <? r))
            (Z.to_nat (as_usedptr pas)) 0;
  let offset := zlen s + 1 in
  let used := Z.to_nat (as_usedptr pas) in
  '(b, slots) ←
    match found with
    | Some j =>
        where_ ← slot pas j;
        tail ← mem_read b where_ (as_next pas - where_);
        b ← mem_write b (where_ + offset) tail;
        b ← mem_write b where_ (s ++ [c_nul]);
        if as_usedptr pas <? zlen (as_string pas) then
          let k := Z.to_nat j in
          Some (b, take k (as_string pas) ++ [Some where_]
                   ++ (move_ptr offset <$> take (used - k) (drop k (as_string pas)))
                   ++ drop (S used) (as_string pas))
        else None
    | None =>
        b ← mem_write b (as_next pas) (s ++ [c_nul]);
        slots ← set_slot (as_string pas) (as_usedptr pas) (Some (as_next pas));
        Some (b, slots)
    end;
  Some (mk_array_strings (as_npointers pas) (as_usedptr pas + 1) (as_bufsize pas) (Some b)
          (as_next pas + offset) slots).

Fixpoint insert_strings (newpas pas : array_strings) (n : nat) (i : Z) : option array_strings :=
  match n with
  | O => Some pas
  | S n' => pas ← insert_string newpas pas i; insert_strings newpas pas n' (i + 1)
  end.

(** The buffer is copied into a larger one, not reallocated. *)
Definition acl_grow_buf (pas : array_strings) (nsize : Z) : option (Z * array_strings) :=
  let used := as_next pas in
  if as_bufsize pas - used <? nsize then
    need ← int_result (as_bufsize pas + 2 * nsize);
    if negb (calloc_ok need) then Some (PBSE_SYSTEM, pas)
    else
      pc ← match as_buf pas with
           | Some b => old ← mem_read b 0 used; mem_write (zeros need) 0 old
           | None => Some (zeros need)
           end;
      Some (0, mk_array_strings (as_npointers pas) (as_usedptr pas) need (Some pc) used (as_string pas))
  else Some (0, pas).

(** The cases [INCR] and [INCR_OLD], and the end of [SET]. *)
Definition acl_incr (pas newpas : array_strings) : option (Z * array_strings) :=
  olds ← strings_of pas;
  news ← strings_of newpas;
  if chk_dup_acl olds news then Some (PBSE_DUPLIST, pas)
  else
    '(rc, pas) ← acl_grow_buf pas (as_next newpas);
    if negb (rc =? 0) then Some (rc, pas)
    else
      '(rc, pas) ← grow_slots pas newpas;
      if negb (rc =? 0) then Some (rc, pas)
      else
        pas ← insert_strings newpas pas (Z.to_nat (as_usedptr newpas)) 0;
        Some (0, pas).

(** The head of [SET]. *)
Definition acl_clear (pas : array_strings) (nsize : Z) : option (Z * array_strings) :=
  let slots := replicate (Z.to_nat (as_usedptr pas)) None ++ drop (Z.to_nat (as_usedptr pas)) (as_string pas) in
  if as_bufsize pas <? nsize then
    nsize ← int_result (nsize + nsize / 2);
    if negb (calloc_ok nsize) then
      Some (PBSE_SYSTEM, mk_array_strings (as_npointers pas) 0 0 None 0 slots)
    else Some (0, mk_array_strings (as_npointers pas) 0 nsize (Some (zeros nsize)) 0 slots)
  else Some (0, mk_array_strings (as_npointers pas) 0 (as_bufsize pas)
                  ((fun _ => zeros (as_bufsize pas)) <$> as_buf pas) 0 slots).

Definition acl_cases (op : Z) (pas newpas : array_strings) : option (Z * array_strings) :=
  if op =? SET then
    if as_usedptr newpas =? 0 then
      Some (0, mk_array_strings (as_npointers pas) 0 (as_bufsize pas) (as_buf pas) 0
                 (replicate (Z.to_nat (as_usedptr pas)) None ++ drop (Z.to_nat (as_usedptr pas)) (as_string pas)))
    else
      '(rc, pas) ← acl_clear pas (as_next newpas);
      if negb (rc =? 0) then Some (rc, pas) else acl_incr pas newpas
  else if (op =? INCR_OLD) || (op =? INCR) then acl_incr pas newpas
  else if op =? DECR then
    ss ← strings_of newpas;
    pas ← fold_strings remove_string pas ss;
    Some (0, pas)
  else Some (PBSE_INTERNAL, pas).

Definition new_acl (newpas : array_strings) : Z + array_strings :=
  let i := as_npointers newpas in
  if negb (calloc_ok (u64 ((i - 1) * SIZEOF_PTR + SIZEOF_ARST))) then inl PBSE_SYSTEM
  else inr (mk_array_strings i 0 0 None 0 (replicate (Z.to_nat i) None)).

Definition set_allacl (attr new_attr : arst_attribute) (op : Z) : option (Z * arst_attribute) :=
  assert_set new_attr
    match at_val new_attr with
    | None => Some (PBSE_INTERNAL, attr)
    | Some newpas =>
        match match at_val attr with Some pas => inr pas | None => new_acl newpas end with
        | inl rc => Some (rc, attr)
        | inr pas =>
            '(rc, pas) ← acl_cases op pas newpas;
            if negb (rc =? 0) then Some (rc, with_val attr (Some pas))
            else Some (0, now_set attr (Some pas))
        end
    end.

End Order.

Definition set_uacl : arst_attribute -> arst_attribute -> Z -> option (Z * arst_attribute) :=
  set_allacl user_order.
Definition set_hostacl : arst_attribute -> arst_attribute -> Z -> option (Z * arst_attribute) :=
  set_allacl host_order.

End Acl.
