(* ===== verification/AclSpec.v ===== *)
(** * Access control lists are kept in order

    What [set_hostacl] does to the list of entries: new ones are inserted at their place in
    an order that puts a host in front of the patterns that cover it. *)

From S2P Require Import Prelude CLib TcpDis Codec DisInt DisStr Attrs AttrVal AttrTypes AttrStr Arst ArstSpec Acl.
From Stdlib Require Import Sorted.
From stdpp Require Import base list numbers option sets list_relations.

Local Open Scope Z_scope.

(** ** Inserting a string *)

(** In front of the first string that comes after [x]. *)
Fixpoint insert_acl (after : list Z -> list Z -> bool) (x : list Z) (l : list (list Z)) : list (list Z) :=
  match l with
  | [] => [x]
  | y :: l' => if after y x then x :: l else y :: insert_acl after x l'
  end.

Lemma scan_list (test : Z -> option bool) (f : list Z -> bool) l2 : forall l1,
  (forall k1 y k2, l1 ++ l2 = k1 ++ y :: k2 -> test (zlen k1) = Some (f y)) ->
  scan test (length l2) (zlen l1) = Some ((fun p => zlen l1 + Z.of_nat (fst p)) <$> list_find (fun t => f t = true) l2).
Proof.
  induction l2 as [|y l2 IH]; intros l1 Ht; [done|]. cbn [length scan].
  rewrite (Ht l1 y l2 eq_refl). cbn [mbind option_bind]. simpl. destruct (decide (f y = true)) as [Hf|Hf].
  - rewrite Hf. simpl. do 2 f_equal. lia.
  - destruct (f y); [done|]. replace (zlen l1 + 1) with (zlen (l1 ++ [y])) by (rewrite zlen_app; done).
    rewrite IH by (intros k1 z k2; rewrite <- app_assoc; apply Ht). f_equal. rewrite <- option_fmap_compose.
    apply option_fmap_ext. intros [i x]. simpl. rewrite zlen_app. unfold zlen. simpl. lia.
Qed.

Lemma find_insert after x l :
  match list_find (fun y => after y x = true) l with
  | Some (i, y) => exists l1 l2, l = l1 ++ y :: l2 /\ i = length l1 /\ insert_acl after x l = l1 ++ x :: y :: l2
  | None => insert_acl after x l = l ++ [x]
  end.
Proof.
  induction l as [|y l IH]; [done|]. simpl. destruct (decide (after y x = true)) as [E|E].
  - rewrite E. by exists [], l.
  - destruct (after y x); [done|]. destruct (list_find _ l) as [[i z]|]; simpl; [|by rewrite IH].
    destruct IH as (l1 & l2 & -> & -> & ->). by exists (y :: l1), l2.
Qed.

(** Characters from [p] on are moved up and others put in their place. *)
Lemma shift_up p T q s :
  zlen s <= zlen q ->
  (b ← mem_write (p ++ T ++ q) (zlen p + zlen s) T; mem_write b (zlen p) s)
  = Some (p ++ s ++ T ++ drop (length s) q).
Proof.
  intros Hl. set (X := take (length s) (T ++ q)). set (R := drop (length s) (T ++ q)).
  assert (HX : length X = length s) by (unfold X; rewrite length_take, length_app; unfold zlen in *; lia).
  assert (HR : length R = (length T + length q - length s)%nat) by (unfold R; by rewrite length_drop, length_app).
  assert (E : p ++ T ++ q = (p ++ X) ++ R) by (unfold X, R; by rewrite <- app_assoc, take_drop).
  rewrite E, (mem_write_at (p ++ X) R T); [|unfold zlen; rewrite length_app; lia|unfold zlen in *; lia].
  cbn [mbind option_bind]. rewrite <- app_assoc, mem_write_app by (rewrite zlen_app; unfold zlen in *; lia).
  do 3 f_equal. rewrite drop_app_length' by done. f_equal.
  unfold R. rewrite drop_drop, Nat.add_comm, <- drop_drop, drop_app_length. done.
Qed.

(** The pointers after an insertion in front of [y]. *)
Lemma insert_slots l1 y l2 x r :
  let slots := (Some <$> offs 0 (l1 ++ y :: l2)) ++ r in
  take (length l1) slots ++ [Some (zlen (pack l1))]
    ++ (move_ptr (zlen x + 1) <$> take (length (l1 ++ y :: l2) - length l1) (drop (length l1) slots))
    ++ drop (S (length (l1 ++ y :: l2))) slots
  = (Some <$> offs 0 (l1 ++ x :: y :: l2)) ++ drop 1 r.
Proof.
  intros slots. unfold slots. rewrite !offs_app, !fmap_app, <- !app_assoc.
  rewrite take_app_length', (drop_app_length' (Some <$> offs 0 l1)) by (by rewrite length_fmap, length_offs).
  f_equal. rewrite length_app, Nat.add_comm, Nat.add_sub.
  rewrite take_app_length' by (by rewrite length_fmap, length_offs).
  rewrite (app_assoc (Some <$> offs 0 l1)), (drop_app_ge _ r)
    by (rewrite length_app, !length_fmap, !length_offs; cbn [length]; lia).
  rewrite length_app, !length_fmap, !length_offs.
  replace (S (length (y :: l2) + length l1) - (length l1 + length (y :: l2)))%nat with 1%nat by lia.
  change (offs (0 + zlen (pack l1)) (x :: y :: l2))
    with (0 + zlen (pack l1) :: offs (0 + zlen (pack l1) + zlen x + 1) (y :: l2)).
  rewrite fmap_cons. cbn [app]. rewrite <- Z.add_assoc, (offs_shift (0 + zlen (pack l1))), <- !list_fmap_compose.
  do 2 f_equal.
Qed.

Section Insert.
(** An order function that, on strings in their buffers, says what [after] says. *)
Context (order_func : list Z -> Z -> list Z -> Z -> option Z) (after : list Z -> list Z -> bool)
  (ok : list Z -> Prop).
Context (order_after : forall l1 s l2 q k1 t k2 r,
  ok s -> ok t -> nul_free s -> nul_free t ->
  exists d, order_func (pack (l1 ++ s :: l2) ++ q) (zlen (pack l1)) (pack (k1 ++ t :: k2) ++ r) (zlen (pack k1)) = Some d
    /\ (0 <? d) = after s t).

Lemma insert_string_ok pas l newpas k1 x k2 :
  holds pas l -> holds newpas (k1 ++ x :: k2) -> Forall ok l -> ok x -> has_room pas (zlen x + 1) 1 ->
  exists pas', insert_string order_func newpas pas (zlen k1) = Some pas' /\ holds pas' (insert_acl after x l)
    /\ forall c n, has_room pas (zlen x + 1 + c) (1 + n) -> has_room pas' c n.
Proof.
  intros Hh Hn Hok Hx ([b Eb] & Hc & Hct). unfold insert_string.
  rewrite (holds_slot _ _ Hn _ _ _ eq_refl). pose proof Hn as [_ Hnf _ Hnb _ _].
  destruct (as_buf newpas) as [nb|]; [|by destruct Hnb, k1]. destruct Hnb as [_ [nq ->]]. cbn [mbind option_bind].
  apply Forall_app in Hnf as [_ Hnf]. apply Forall_cons_1 in Hnf as [Hxf _].
  rewrite str_at_pack by done. cbn [mbind option_bind]. rewrite Eb. cbn [mbind option_bind].
  pose proof Hh as [Hu Hf Hnx Hb [r Hr] Hl]. rewrite Eb in Hb. destruct Hb as [Hz [q ->]].
  rewrite (holds_length _ _ Hh). change 0 with (zlen (A := list Z) []) at 2.
  rewrite (scan_list _ (fun y => after y x) l []).
  2:{ intros m1 y m2 El. rewrite app_nil_l in El. rewrite (holds_slot _ _ Hh _ _ _ El). cbn [mbind option_bind].
      rewrite El in Hok, Hf |- *. apply Forall_app in Hok as [_ Hok]. apply Forall_app in Hf as [_ Hf].
      inversion Hok; subst. inversion Hf; subst.
      destruct (order_after m1 y m2 q k1 x k2 nq) as (d & -> & Ed); [done..|]. cbn [mbind option_bind]. by rewrite Ed. }
  cbn [mbind option_bind]. pose proof (find_insert after x l) as Hfi. pose proof (zlen_nonneg x).
  rewrite Hnx in Hc. rewrite zlen_app in Hz. pose proof (zlen_nonneg l).
  destruct (list_find _ l) as [[i y]|].
  - destruct Hfi as (l1 & l2 & El & -> & ->). cbn [fmap option_fmap option_map fst].
    replace (zlen (A := list Z) [] + Z.of_nat (length l1)) with (zlen l1) by (unfold zlen; simpl; lia).
    rewrite (holds_slot _ _ Hh _ _ _ El). cbn [mbind option_bind].
    assert (Ep : pack l ++ q = pack l1 ++ pack (y :: l2) ++ q) by (by rewrite El, pack_app, app_assoc).
    assert (Epl : zlen (pack l) = zlen (pack l1) + zlen (pack (y :: l2))) by (by rewrite El, zlen_pack_app).
    assert (Enat : Z.to_nat (zlen l1) = length l1) by (unfold zlen; lia).
    pose proof (zlen_nonneg (pack l1)). pose proof (zlen_nonneg (pack (y :: l2))).
    rewrite Ep, mem_read_ok by (rewrite ?zlen_app; lia).
    rewrite slice_app_r, slice_app_l by lia. rewrite Z.sub_diag.
    replace (zlen (pack l1) + (as_next pas - zlen (pack l1)) - zlen (pack l1)) with (zlen (pack (y :: l2))) by lia.
    rewrite slice_all. cbn [mbind option_bind].
    pose proof (shift_up (pack l1) (pack (y :: l2)) q (x ++ [c_nul])) as Hsh.
    replace (zlen (x ++ [c_nul])) with (zlen x + 1) in Hsh by (rewrite zlen_app; done). specialize (Hsh ltac:(lia)).
    destruct (mem_write _ (zlen (pack l1) + (zlen x + 1)) _) as [b1|]; [|done]. cbn [mbind option_bind] in Hsh |- *.
    rewrite Hsh. cbn [mbind option_bind]. rewrite (proj2 (Z.ltb_lt _ _)) by lia. cbn [mbind option_bind].
    eexists. split; [done|]. split.
    + constructor; cbn [as_buf as_next as_bufsize as_usedptr as_npointers as_string].
      * rewrite Hu, El, !zlen_app, !zlen_cons. lia.
      * rewrite El in Hf. apply Forall_app in Hf as [? ?]. apply Forall_app. split; [done|]. by constructor.
      * rewrite zlen_pack_app, !zlen_pack_cons in *. lia.
      * split.
        -- rewrite !zlen_app in *. unfold zlen in *. rewrite length_drop, length_app. cbn [length]. lia.
        -- exists (drop (length (x ++ [c_nul])) q). rewrite pack_app. cbn [pack]. rewrite <- !app_assoc. cbn [app]. by rewrite <- app_assoc.
      * exists (drop 1 r). rewrite Enat, Hr, El. apply insert_slots.
      * rewrite <- Hl, Enat, Hr, El, insert_slots. unfold zlen. rewrite !length_app, length_drop, !length_fmap, !length_offs.
        rewrite Hr, El in Hl. rewrite Hu, El in Hct. unfold zlen in Hl, Hct.
        rewrite !length_app, length_fmap, length_offs, length_app in *. cbn [length] in *. lia.
    + intros c n (_ & ? & ?). split; [by eexists|]. simpl. lia.
  - rewrite Hfi. cbn [fmap option_fmap option_map].
    destruct (append_string_ok pas l Hh x Hxf) as (pas' & Ea & Hh' & Hr'); [split; [by eexists|]; lia|].
    exists pas'. split; [|done]. revert Ea. unfold append_string. rewrite Eb. cbn [mbind option_bind].
    destruct (mem_write _ _ _) as [b1|]; [|done]. cbn [mbind option_bind].
    destruct (set_slot _ _ _) as [sl|]; [|done]. cbn [mbind option_bind]. intros [= <-].
    do 2 f_equal. lia.
Qed.

(** ** Setting the list *)

Definition insert_all (l ss : list (list Z)) : list (list Z) := foldl (fun l x => insert_acl after x l) l ss.

Lemma insert_acl_perm x l : insert_acl after x l ≡ₚ x :: l.
Proof.
  induction l as [|y l IH]; [done|]. simpl. destruct (after y x); [done|]. by rewrite IH, Permutation_swap.
Qed.

Lemma insert_all_perm l ss : insert_all l ss ≡ₚ l ++ ss.
Proof.
  revert l. induction ss as [|s ss IH]; intros l; simpl; [by rewrite app_nil_r|].
  rewrite IH, insert_acl_perm. by rewrite <- Permutation_middle.
Qed.

Lemma insert_strings_ok newpas ss : forall k1 pas l,
  holds newpas (k1 ++ ss) -> holds pas l -> Forall ok l -> Forall ok ss ->
  has_room pas (zlen (pack ss)) (zlen ss) ->
  exists pas', insert_strings order_func newpas pas (length ss) (zlen k1) = Some pas' /\ holds pas' (insert_all l ss).
Proof.
  induction ss as [|s ss IH]; intros k1 pas l Hn Hh Hl Hs Hr; [by exists pas|].
  apply Forall_cons_1 in Hs as [Hs Hss]. rewrite zlen_pack_cons, zlen_cons in Hr. cbn [length insert_strings].
  pose proof (zlen_nonneg s). pose proof (zlen_nonneg ss). pose proof (zlen_nonneg (pack ss)).
  destruct (insert_string_ok pas l newpas k1 s ss) as (p1 & -> & Hh1 & Hr1); [done|done|done|done| |].
  { destruct Hr as (? & ? & ?). split; [done|lia]. }
  cbn [mbind option_bind]. replace (zlen k1 + 1) with (zlen (k1 ++ [s])) by (rewrite zlen_app; done).
  apply IH; [by rewrite <- app_assoc|done| |done|apply Hr1; by rewrite (Z.add_comm 1)].
  rewrite insert_acl_perm. by constructor.
Qed.

Context `{Platform} {Hall : AllocOk}.

Lemma acl_grow_buf_ok pas l nsize :
  holds pas l -> 0 < nsize ->
  (as_bufsize pas - as_next pas < nsize -> as_bufsize pas + 2 * nsize <= ARST_MAX) ->
  exists pas', acl_grow_buf pas nsize = Some (0, pas') /\ holds pas' l
    /\ (exists b, as_buf pas' = Some b) /\ as_next pas' + nsize <= as_bufsize pas'
    /\ as_usedptr pas' = as_usedptr pas /\ as_npointers pas' = as_npointers pas.
Proof.
  intros Hh Hn Hsz. pose proof (holds_size _ _ Hh). destruct Hh as [Hu Hf Hx Hb Hr Hl].
  unfold acl_grow_buf, ARST_MAX in *. pose proof (zlen_nonneg (pack l)).
  destruct (Z.ltb_spec (as_bufsize pas - as_next pas) nsize) as [Hc|Hc].
  - specialize (Hsz Hc). rewrite int_result_ok by (unfold INT_MIN, INT_MAX; lia). cbn [mbind option_bind].
    rewrite alloc_ok by (unfold ALLOC_MAX; lia). cbn [negb].
    set (need := as_bufsize pas + 2 * nsize) in *.
    assert (exists pc, match as_buf pas with
              | Some b => old ← mem_read b 0 (as_next pas); mem_write (zeros need) 0 old
              | None => Some (zeros need)
              end = Some (pack l ++ pc) /\ zlen (pack l ++ pc) = need) as (pc & -> & Hpc).
    { destruct (as_buf pas) as [b|].
      - destruct Hb as [Hz [q ->]]. rewrite Hx, mem_read_prefix. cbn [mbind option_bind].
        rewrite mem_write_0, drop_zeros by (rewrite ?zlen_zeros; lia). eexists. split; [done|].
        rewrite zlen_app, zlen_zeros; lia.
      - destruct Hb as [-> _]. exists (zeros need). split; [done|]. simpl. rewrite zlen_zeros; lia. }
    cbn [mbind option_bind]. eexists. split; [done|]. split; [|split; [by eexists|simpl; unfold need; lia]].
    constructor; simpl; try done. split; [done|]. by eexists.
  - exists pas. split; [done|]. split; [done|]. split; [|lia].
    destruct (as_buf pas) as [b|]; [by eexists|]. destruct Hb as [-> Hb]. simpl in *. rewrite zlen_nil in *. lia.
Qed.

Lemma acl_incr_ok pas l newpas new :
  holds pas l -> holds newpas new -> new <> [] -> Forall ok l -> Forall ok new ->
  (as_bufsize pas - as_next pas < as_next newpas -> as_bufsize pas + 2 * as_next newpas <= ARST_MAX) ->
  zlen l + zlen new <= ARST_MAX ->
  exists pas', acl_incr order_func pas newpas = Some (if chk_dup_acl l new then PBSE_DUPLIST else 0, pas')
    /\ holds pas' (if chk_dup_acl l new then l else insert_all l new).
Proof.
  intros Hh Hn Hne Hl Hnk Hsz Hct. unfold acl_incr. rewrite (holds_strings _ _ Hh), (holds_strings _ _ Hn).
  cbn [mbind option_bind]. destruct (chk_dup_acl l new); [by exists pas|].
  rewrite (h_next _ _ Hn) in *. pose proof (zlen_nonneg new).
  assert (0 < zlen (pack new)).
  { pose proof (zlen_pack_ge new). destruct new; [done|]. rewrite zlen_cons in *. pose proof (zlen_nonneg new). lia. }
  destruct (acl_grow_buf_ok pas l (zlen (pack new))) as (p1 & -> & Hh1 & Hb1 & Hr1 & Hu1 & _); [done|done|done|].
  cbn [mbind option_bind]. simpl negb. cbv iota. pose proof (h_used _ _ Hn) as Hu.
  destruct (grow_slots_ok p1 l newpas) as (p2 & -> & Hh2 & Hr2 & Eb2 & En2 & Es2); [done|lia|lia|].
  cbn [mbind option_bind]. simpl negb. cbv iota. rewrite (holds_length _ _ Hn).
  destruct (insert_strings_ok newpas new [] p2 l) as (p3 & E3 & Hh3); [done|done|done|done| |].
  - split; [by rewrite Eb2|]. rewrite En2, Es2, <- Hu. lia.
  - change (zlen (A := list Z) []) with 0 in E3. rewrite E3. cbn [mbind option_bind]. by exists p3.
Qed.

Lemma acl_clear_ok pas l nsize :
  holds pas l -> 0 < nsize -> as_bufsize pas + 2 * nsize <= ARST_MAX ->
  exists pas', acl_clear pas nsize = Some (0, pas') /\ holds pas' [] /\ nsize <= as_bufsize pas'.
Proof.
  intros Hh Hn Hsz. destruct (clear_for_ok pas l nsize Hh Hn Hsz) as (pas' & E & Hh' & Hs).
  exists pas'. split; [|done]. revert E. unfold clear_for, acl_clear. destruct (as_bufsize pas <? nsize); [done|].
  by destruct (as_buf pas).
Qed.

(** The list a [SET] starts from is empty. *)
Definition acl_base (op : Z) (old : list (list Z)) : list (list Z) := if op =? SET then [] else old.

Lemma acl_start v l newpas new :
  value_holds v l -> holds newpas new -> new <> [] -> as_npointers newpas <= ARST_MAX ->
  exists pas, match v with Some pas => inr pas | None => new_acl newpas end = inr pas
    /\ holds pas l /\ as_bufsize pas = value_size v.
Proof.
  intros Ho Hn Hne Hnp. destruct (start_holds _ _ _ _ Ho Hn Hne Hnp) as (pas0 & Epas & Hh).
  exists pas0. split; [|done]. destruct v; [done|]. revert Epas. unfold new_arst, new_acl.
  destruct (Z.ltb_spec (as_npointers newpas) 1); [done|]. destruct (calloc_ok (u64 (i32 _))); [|done]. intros [= <-].
  rewrite u64_small by (unfold ARST_MAX, SIZEOF_PTR, SIZEOF_ARST in *; lia).
  by rewrite alloc_ok by (unfold ALLOC_MAX, ARST_MAX, SIZEOF_PTR, SIZEOF_ARST in *; lia).
Qed.

Lemma set_allacl_run (attr new_attr : arst_attribute) newpas old new op :
  is_set new_attr = true -> at_val new_attr = Some newpas -> holds newpas new -> new <> [] ->
  value_holds (at_val attr) old -> Forall ok old -> Forall ok new -> op ∈ [SET; INCR; INCR_OLD] ->
  value_size (at_val attr) + 2 * as_next newpas <= ARST_MAX -> as_npointers newpas <= ARST_MAX ->
  let base := acl_base op old in
  exists pas,
    set_allacl order_func attr new_attr op
      = Some (if chk_dup_acl base new then (PBSE_DUPLIST, with_val attr (Some pas)) else (0, now_set attr (Some pas)))
    /\ holds pas (if chk_dup_acl base new then base else insert_all base new).
Proof.
  intros Hs Ev Hn Hne Ho Hok Hnk Hop Hsz Hnp base. unfold set_allacl, assert_set. rewrite Hs, Ev.
  destruct (acl_start _ _ _ _ Ho Hn Hne Hnp) as (pas0 & -> & Hh & Hbs). rewrite <- Hbs in Hsz.
  pose proof (holds_size _ _ Hh). pose proof (zlen_pack_ge old). pose proof (zlen_nonneg old).
  pose proof (zlen_pack_ge new). pose proof (h_next _ _ Hn) as Hnx. pose proof (h_used _ _ Hn) as Hu.
  assert (1 <= zlen new) by (destruct new; [done|]; rewrite zlen_cons; pose proof (zlen_nonneg new); lia).
  enough (exists pas, acl_cases order_func op pas0 newpas = Some (if chk_dup_acl base new then PBSE_DUPLIST else 0, pas)
            /\ holds pas (if chk_dup_acl base new then base else insert_all base new)) as (pas & -> & Hp).
  { exists pas. split; [|done]. cbn [mbind option_bind]. by destruct (chk_dup_acl base new). }
  unfold acl_cases, base, acl_base. destruct (Z.eqb_spec op SET) as [->|Hns].
  - rewrite (proj2 (Z.eqb_neq (as_usedptr newpas) 0)) by lia.
    destruct (acl_clear_ok pas0 old (as_next newpas)) as (p1 & -> & Hh1 & Hr1); [done|lia|done|].
    cbn [mbind option_bind]. simpl negb. cbv iota. apply acl_incr_ok; try done.
    + rewrite (h_next _ _ Hh1). simpl. rewrite zlen_nil. lia.
    + change (zlen (A := list Z) []) with 0. lia.
  - assert ((op =? INCR_OLD) || (op =? INCR) = true) as ->.
    { rewrite !elem_of_cons, elem_of_nil in Hop. destruct Hop as [?|[->|[->|[]]]]; done. }
    apply acl_incr_ok; try done; lia.
Qed.

(** Removing entries; the order does not matter. *)
Lemma set_allacl_decr (attr new_attr : arst_attribute) newpas old new :
  is_set new_attr = true -> at_val new_attr = Some newpas -> holds newpas new -> new <> [] ->
  value_holds (at_val attr) old -> as_npointers newpas <= ARST_MAX ->
  exists pas', set_allacl order_func attr new_attr DECR = Some (0, now_set attr (Some pas'))
    /\ holds pas' (foldl (fun l s => remove1 s l) old new).
Proof.
  intros Hs Ev Hn Hne Ho Hnp. unfold set_allacl, assert_set. rewrite Hs, Ev.
  destruct (acl_start _ _ _ _ Ho Hn Hne Hnp) as (pas0 & -> & Hh & _). unfold acl_cases.
  simpl Z.eqb. cbn [orb]. cbv iota. rewrite (holds_strings _ _ Hn). cbn [mbind option_bind].
  destruct (fold_remove_ok new pas0 old Hh) as (p1 & -> & Hh1). by exists p1.
Qed.

End Insert.

(** ** The order of hosts *)

(** [host_order] on two hosts, read from their ends. *)
Fixpoint rord (r1 r2 : list Z) : Z :=
  match r1, r2 with
  | x :: r1', y :: r2' =>
      match r1', r2' with
      | _ :: _, _ :: _ => if negb (y - x =? 0) then y - x else rord r1' r2'
      | [], [] => if x =? c_star then 1 else if y =? c_star then -1 else y - x
      | [], _ => 1
      | _, [] => -1
      end
  | _, _ => 0
  end.

(** Of two entries; a sign alone has no host. *)
Definition horder (s t : list Z) : Z :=
  match unsigned_entry s, unsigned_entry t with
  | [], _ => -1
  | [_], [] => 1
  | _, [] => -1
  | u, v => rord (reverse u) (reverse v)
  end.

Definition host_after (s t : list Z) : bool := 0 <? horder s t.

Lemma char_at_mid p c q : char_at (p ++ c :: q) (zlen p) = Some c.
Proof.
  unfold char_at, zlen. rewrite (proj2 (Z.leb_le _ _)) by lia. by rewrite Nat2Z.id, list_lookup_middle.
Qed.

Lemma host_loop_ok p1 p2 r1 : forall r2 fuel x1 x2,
  r1 <> [] -> r2 <> [] -> (length r1 <= fuel)%nat ->
  host_loop fuel (p1 ++ reverse r1 ++ x1) (p2 ++ reverse r2 ++ x2) (zlen p1) (zlen p2)
    (zlen p1 + zlen r1 - 1) (zlen p2 + zlen r2 - 1) = Some (rord r1 r2).
Proof.
  induction r1 as [|x r1 IH]; intros r2 fuel x1 x2 H1 H2 Hf; [done|]. destruct r2 as [|y r2]; [done|].
  destruct fuel as [|fuel]; [simpl in Hf; lia|]. cbn [host_loop]. rewrite !reverse_cons, <- !app_assoc.
  assert (Ec : forall p (r : list Z) c x, char_at (p ++ reverse r ++ [c] ++ x) (zlen p + zlen (c :: r) - 1) = Some c).
  { intros p r c z. rewrite app_assoc. replace (zlen p + zlen (c :: r) - 1) with (zlen (p ++ reverse r));
      [apply char_at_mid|]. unfold zlen. rewrite length_app, length_reverse. simpl. lia. }
  rewrite !Ec. cbn [mbind option_bind]. rewrite !zlen_cons. cbn [rord].
  destruct r1 as [|x' r1], r2 as [|y' r2]; rewrite ?zlen_cons, ?zlen_nil.
  - rewrite (proj2 (Z.ltb_ge (zlen p1) _)), (proj2 (Z.eqb_eq (_ + _ - 1) (zlen p1))),
      (proj2 (Z.eqb_eq (_ + _ - 1) (zlen p2))) by lia. cbn [andb]. by repeat case_match.
  - pose proof (zlen_nonneg r2). rewrite (proj2 (Z.ltb_ge (zlen p1) _)), (proj2 (Z.eqb_eq (_ + _ - 1) (zlen p1))),
      (proj2 (Z.eqb_neq (_ + _ - 1) (zlen p2))) by lia. done.
  - pose proof (zlen_nonneg r1). rewrite (proj2 (Z.ltb_lt (zlen p1) _)), (proj2 (Z.ltb_ge (zlen p2) _)),
      (proj2 (Z.eqb_neq (_ + _ - 1) (zlen p1))) by lia. done.
  - pose proof (zlen_nonneg r1). pose proof (zlen_nonneg r2).
    rewrite (proj2 (Z.ltb_lt (zlen p1) _)), (proj2 (Z.ltb_lt (zlen p2) _)) by lia. cbn [andb].
    destruct (negb (y - x =? 0)); [done|].
    specialize (IH (y' :: r2) fuel ([x] ++ x1) ([y] ++ x2)). rewrite !zlen_cons in IH.
    rewrite <- IH; [|done|done|simpl in *; lia]. f_equal; lia.
Qed.

Lemma str_at_mid p u rest : nul_free u -> str_at (p ++ u ++ 0 :: rest) (zlen p) = Some u.
Proof.
  intros Hu. unfold str_at, zlen. rewrite (proj2 (Z.leb_le _ _)) by lia. rewrite Nat2Z.id, drop_app_length.
  by apply cstring_app.
Qed.

(** An entry in its block: where its host starts. *)
Lemma skip_sign_ok p s rest : s <> [] -> nul_free s ->
  exists p', p ++ s ++ 0 :: rest = p' ++ unsigned_entry s ++ 0 :: rest
    /\ skip_sign (p ++ s ++ 0 :: rest) (zlen p) = Some (zlen p')
    /\ (unsigned_entry s = [] -> exists p0 c, p' = p0 ++ [c]) /\ nul_free (unsigned_entry s).
Proof.
  intros Hne Hf. destruct s as [|c s]; [done|]. unfold skip_sign. rewrite <- app_comm_cons, char_at_mid.
  cbn [mbind option_bind unsigned_entry]. destruct (is_sign c).
  - exists (p ++ [c]). split; [by rewrite <- app_assoc|]. split; [f_equal; rewrite zlen_app; done|].
    split; [by eexists _, _|by inversion Hf].
  - by exists p.
Qed.

Lemma host_order_after l1 s l2 q k1 t k2 r :
  s <> [] -> t <> [] -> nul_free s -> nul_free t ->
  exists d, host_order (pack (l1 ++ s :: l2) ++ q) (zlen (pack l1)) (pack (k1 ++ t :: k2) ++ r) (zlen (pack k1)) = Some d
    /\ (0 <? d) = host_after s t.
Proof.
  intros Hs Ht Hsf Htf. exists (horder s t). split; [|done]. unfold host_order.
  assert (Ep : forall k1 t k2 r, pack (k1 ++ t :: k2) ++ r = pack k1 ++ t ++ 0 :: (pack k2 ++ r)).
  { intros. rewrite pack_app. cbn [pack]. by rewrite <- !app_assoc, <- app_comm_cons. }
  rewrite !Ep. set (x1 := pack l2 ++ q). set (x2 := pack k2 ++ r).
  destruct (skip_sign_ok (pack l1) s x1 Hs Hsf) as (p1 & E1 & -> & Hp1 & Hu).
  destruct (skip_sign_ok (pack k1) t x2 Ht Htf) as (p2 & E2 & -> & Hp2 & Hv).
  cbn [mbind option_bind]. rewrite E1, E2. unfold horder.
  set (u := unsigned_entry s) in *. set (v := unsigned_entry t) in *.
  rewrite !str_at_mid by done. cbn [mbind option_bind].
  assert (Hbare : forall (p0 : list Z) c rest, char_at ((p0 ++ [c]) ++ rest) (zlen (p0 ++ [c]) + zlen (A := Z) [] - 1) = Some c).
  { intros. rewrite <- app_assoc. replace (zlen (p0 ++ [c]) + zlen [] - 1) with (zlen p0)
      by (unfold zlen; rewrite length_app; simpl; lia). apply char_at_mid. }
  assert (Hlast : forall (p w x : list Z), w <> [] -> exists c, char_at (p ++ w ++ 0 :: x) (zlen p + zlen w - 1) = Some c).
  { intros p w x Hw. destruct w as [|c w _] using rev_ind; [done|]. exists c. rewrite <- app_assoc, app_assoc.
    replace (zlen p + zlen (w ++ [c]) - 1) with (zlen (p ++ w)) by (unfold zlen; rewrite !length_app; simpl; lia).
    apply char_at_mid. }
  assert (Hcu : exists c, char_at (p1 ++ u ++ 0 :: x1) (zlen p1 + zlen u - 1) = Some c).
  { destruct (decide (u = [])) as [->|]; [|by apply Hlast]. destruct (Hp1 eq_refl) as (p0 & c & ->). exists c. apply Hbare. }
  assert (Hcv : exists c, char_at (p2 ++ v ++ 0 :: x2) (zlen p2 + zlen v - 1) = Some c).
  { destruct (decide (v = [])) as [->|]; [|by apply Hlast]. destruct (Hp2 eq_refl) as (p0 & c & ->). exists c. apply Hbare. }
  destruct Hcu as [cu Hcu], Hcv as [cv Hcv]. pose proof (zlen_nonneg u). pose proof (zlen_nonneg v).
  destruct (decide (u = [])) as [Eu|Eu]; [|destruct (decide (v = [])) as [Ev|Ev]].
  - cbn [host_loop]. rewrite Hcu, Hcv. cbn [mbind option_bind]. rewrite Eu. change (zlen (A := Z) []) with 0.
    rewrite (proj2 (Z.ltb_ge (zlen p1) _)), (proj2 (Z.eqb_neq (_ + _ - 1) (zlen p1))) by lia. done.
  - cbn [host_loop]. rewrite Hcu, Hcv. cbn [mbind option_bind]. rewrite Ev. change (zlen (A := Z) []) with 0.
    rewrite (proj2 (Z.ltb_ge (zlen p2) _)), (proj2 (Z.eqb_neq (_ + _ - 1) (zlen p2))), !andb_false_r by lia. cbv iota.
    destruct u as [|c [|c' u']]; [done| |]; rewrite !zlen_cons.
    + by rewrite (proj2 (Z.eqb_eq (_ + _ - 1) _)) by (rewrite zlen_nil; lia).
    + by rewrite (proj2 (Z.eqb_neq (_ + _ - 1) _)) by (pose proof (zlen_nonneg u'); lia).
  - rewrite <- (reverse_involutive u) at 1 2 3. rewrite <- (reverse_involutive v) at 1 2.
    replace (zlen (reverse (reverse u))) with (zlen (reverse u)) by (unfold zlen; by rewrite !length_reverse).
    replace (zlen (reverse (reverse v))) with (zlen (reverse v)) by (unfold zlen; by rewrite !length_reverse).
    rewrite host_loop_ok.
    + by destruct u as [|? [|]], v.
    + intros E%(f_equal reverse). by rewrite reverse_involutive in E.
    + intros E%(f_equal reverse). by rewrite reverse_involutive in E.
    + rewrite !length_reverse. lia.
Qed.

(** ** The list stays in order *)

(** [r1] does not come after [r2]. *)
Fixpoint rle (r1 r2 : list Z) : bool :=
  match r1, r2 with
  | x :: r1', y :: r2' =>
      match r1', r2' with
      | _ :: _, _ :: _ => if x =? y then rle r1' r2' else y <? x
      | [], [] => (y =? c_star) || (negb (x =? c_star) && (y <=? x))
      | [], _ => false
      | _, [] => true
      end
  | _, _ => true
  end.

Definition hle (u v : list Z) : Prop := rle (reverse u) (reverse v) = true.

(** The hosts of a list of entries. *)
Definition hosts (l : list (list Z)) : list (list Z) := base.filter (fun u => u <> []) (unsigned_entry <$> l).

Definition acl_sorted (l : list (list Z)) : Prop := StronglySorted hle (hosts l).

Lemma rord_le r1 : forall r2, r1 <> [] -> r2 <> [] -> rord r1 r2 <= 0 -> rle r1 r2 = true.
Proof.
  induction r1 as [|x r1 IH]; intros [|y r2] H1 H2; try done. cbn [rord rle].
  destruct r1 as [|x' r1], r2 as [|y' r2]; try done.
  - zb; simpl; try done; lia.
  - destruct (Z.eqb_spec (y - x) 0); simpl negb; cbv iota; intros Hr.
    + replace (x =? y) with true by (symmetry; apply Z.eqb_eq; lia). by apply IH.
    + replace (x =? y) with false by (symmetry; apply Z.eqb_neq; lia). apply Z.ltb_lt. lia.
Qed.

Lemma rord_gt r1 : forall r2, r1 <> [] -> r2 <> [] -> 0 < rord r1 r2 -> rle r2 r1 = true.
Proof.
  induction r1 as [|x r1 IH]; intros [|y r2] H1 H2; try done. cbn [rord rle].
  destruct r1 as [|x' r1], r2 as [|y' r2]; try done.
  - zb; simpl; try done; lia.
  - destruct (Z.eqb_spec (y - x) 0); simpl negb; cbv iota; intros Hr.
    + replace (y =? x) with true by (symmetry; apply Z.eqb_eq; lia). by apply IH.
    + replace (y =? x) with false by (symmetry; apply Z.eqb_neq; lia). apply Z.ltb_lt. lia.
Qed.

Lemma rle_trans r1 : forall r2 r3, r2 <> [] -> rle r1 r2 = true -> rle r2 r3 = true -> rle r1 r3 = true.
Proof.
  induction r1 as [|x r1 IH]; intros [|y r2] [|z r3] Hne H1 H2; try done. cbn [rle] in *.
  destruct r1 as [|x' r1], r2 as [|y' r2], r3 as [|z' r3]; try done.
  - revert H1 H2. zb; simpl; try done; lia.
  - destruct (Z.eqb_spec x y) as [->|], (Z.eqb_spec y z) as [->|].
    + destruct (Z.eqb_spec z z); [|done]. by apply (IH (y' :: r2)).
    + destruct (Z.eqb_spec y z); [done|done].
    + destruct (Z.eqb_spec x z); [done|done].
    + apply Z.ltb_lt in H1, H2. destruct (Z.eqb_spec x z); [lia|]. apply Z.ltb_lt. lia.
Qed.

Lemma hosts_cons e l : hosts (e :: l) = match unsigned_entry e with [] => hosts l | u => u :: hosts l end.
Proof. unfold hosts. rewrite fmap_cons, filter_cons. destruct (unsigned_entry e); case_decide; done. Qed.

Lemma rev_ne (u : list Z) : u <> [] -> reverse u <> [].
Proof. intros Hu E%(f_equal reverse). by rewrite reverse_involutive in E. Qed.

Lemma hosts_perm l l' : l ≡ₚ l' -> hosts l ≡ₚ hosts l'.
Proof. intros E. unfold hosts. by rewrite E. Qed.

Lemma insert_acl_sorted x l : acl_sorted l -> acl_sorted (insert_acl host_after x l).
Proof.
  unfold acl_sorted. induction l as [|y l IH]; intros Hs.
  - simpl. rewrite hosts_cons. destruct (unsigned_entry x); repeat constructor.
  - cbn [insert_acl]. destruct (unsigned_entry y) as [|cy uy] eqn:Ey.
    { unfold host_after at 1, horder. rewrite Ey. rewrite hosts_cons, Ey in *. simpl. rewrite hosts_cons, Ey. by apply IH. }
    rewrite (hosts_cons y), Ey in Hs. apply StronglySorted_inv in Hs as [Hs Hf]. specialize (IH Hs).
    pose proof (hosts_perm _ _ (insert_acl_perm host_after x l)) as Hp. rewrite hosts_cons in Hp.
    destruct (unsigned_entry x) as [|cx ux] eqn:Ex.
    { destruct (host_after y x); rewrite !hosts_cons, ?Ex, ?Ey; [by constructor|]. constructor; [done|]. by rewrite Hp. }
    assert (Hny : reverse (cy :: uy) <> []) by (by apply rev_ne).
    assert (Hnx : reverse (cx :: ux) <> []) by (by apply rev_ne).
    assert (Ea : host_after y x = (0 <? rord (reverse (cy :: uy)) (reverse (cx :: ux)))).
    { unfold host_after, horder. rewrite Ex, Ey. by destruct uy. }
    rewrite Ea. destruct (Z.ltb_spec 0 (rord (reverse (cy :: uy)) (reverse (cx :: ux)))) as [Hgt|Hle].
    + apply rord_gt in Hgt; [|done|done]. rewrite !hosts_cons, Ex, Ey. constructor; [by constructor|].
      constructor; [done|]. eapply Forall_impl; [exact Hf|]. intros v Hv. by apply (rle_trans _ (reverse (cy :: uy))).
    + apply rord_le in Hle; [|done|done]. rewrite hosts_cons, Ey. constructor; [done|]. rewrite Hp. by constructor.
Qed.

Lemma insert_all_sorted ss : forall l, acl_sorted l -> acl_sorted (insert_all host_after l ss).
Proof. induction ss as [|s ss IH]; intros l Hs; [done|]. by apply IH, insert_acl_sorted. Qed.

(** ** The invariant of a host list *)

Record acl_wf (l : list (list Z)) : Prop := {
  wf_entries : Forall (fun e => e <> []) l;
  wf_nodup : NoDup l;
  wf_sorted : acl_sorted l
}.

Lemma remove1_spec s l : NoDup l -> NoDup (remove1 s l) /\ forall e, e ∈ remove1 s l <-> e ∈ l /\ e <> s.
Proof.
  induction 1 as [|t l Ht Hn [IH1 IH2]]; simpl; [split; [constructor|set_solver]|].
  destruct (bool_decide_reflect (t = s)) as [->|Hne]; unfold str_eq.
  - rewrite bool_decide_true by done. split; [done|]. intros e. rewrite elem_of_cons.
    split; [|naive_solver]. intros He. split; [by right|]. by intros ->.
  - rewrite bool_decide_false by done. split; [constructor; [rewrite IH2; tauto|done]|].
    intros e. rewrite !elem_of_cons, IH2. naive_solver.
Qed.

Lemma remove_all_spec ss : forall l, NoDup l ->
  NoDup (foldl (fun l s => remove1 s l) l ss) /\
  forall e, e ∈ foldl (fun l s => remove1 s l) l ss <-> e ∈ l /\ e ∉ ss.
Proof.
  induction ss as [|s ss IH]; intros l Hl; cbn [foldl]; [split; [done|set_solver]|].
  destruct (remove1_spec s l Hl) as [H1 H2]. destruct (IH _ H1) as [H3 H4]. split; [done|].
  intros e. rewrite H4, H2, not_elem_of_cons. tauto.
Qed.

Lemma remove_sorted s l : acl_sorted l -> acl_sorted (remove1 s l) /\ Forall (fun u => u ∈ hosts l) (hosts (remove1 s l)).
Proof.
  unfold acl_sorted. induction l as [|t l IH]; intros Hs; [split; [done|constructor]|].
  assert (Hself : forall m : list (list Z), Forall (fun u => u ∈ m) m) by (intros m; by apply Forall_forall).
  cbn [remove1]. rewrite hosts_cons in Hs. rewrite (hosts_cons t l). destruct (unsigned_entry t) as [|c u] eqn:Et.
  - destruct (str_eq t s); [split; [done|apply Hself]|]. rewrite hosts_cons, Et. by apply IH.
  - apply StronglySorted_inv in Hs as [Hs Hf]. destruct (IH Hs) as [IH1 IH2].
    assert (Hin : forall m, Forall (fun v => v ∈ hosts l) m -> Forall (fun v => v ∈ (c :: u) :: hosts l) m).
    { intros m Hm. eapply Forall_impl; [exact Hm|]. intros v Hv. by right. }
    destruct (str_eq t s); [split; [done|by apply Hin, Hself]|]. rewrite hosts_cons, Et. split.
    + constructor; [done|]. eapply Forall_impl; [exact IH2|]. intros v Hv. simpl in Hv.
      rewrite Forall_forall in Hf. by apply Hf.
    + constructor; [by left|]. by apply Hin.
Qed.

Lemma remove_all_sorted ss : forall l, acl_sorted l -> acl_sorted (foldl (fun l s => remove1 s l) l ss).
Proof. induction ss as [|s ss IH]; intros l Hs; [done|]. by apply IH, remove_sorted. Qed.

(** No duplicates are added. *)
Lemma chk_dup_nodup olds news : chk_dup_acl olds news = false -> NoDup olds -> NoDup (olds ++ news).
Proof.
  unfold chk_dup_acl. rewrite orb_false_iff, negb_false_iff, bool_decide_eq_true. intros [Hn He] Ho.
  apply NoDup_app. split; [done|]. split; [|done]. intros x Hx Hx'.
  assert (existsb (fun s => existsb (str_eq s) olds) news = true); [|congruence].
  apply existsb_exists. exists x. split; [by apply list_elem_of_In|]. apply existsb_exists. exists x.
  split; [by apply list_elem_of_In|]. unfold str_eq. by rewrite bool_decide_true.
Qed.
