(* ===== verification/AclCheck.v ===== *)
(** * Looking a host up in an access control list

    The entries of a host list that the documentation describes are host names, ["*"] and
    ["*."] with a domain, with or without a sign.  On such entries [hacl_match] is the covering
    of a name by a pattern, and the order [AclSpec.v] keeps makes the front-to-back search of
    [acl_check] find the most specific of the entries that cover a host. *)

From S2P Require Import Prelude CLib TcpDis Codec DisInt DisStr Attrs AttrVal AttrTypes AttrStr Arst ArstSpec Acl AclSpec.
From Stdlib Require Import Sorted.
From stdpp Require Import base list numbers option sets list_relations.

Local Open Scope Z_scope.

Definition c_dot : Z := 46.

(** ** Patterns *)

(** A character that stands for itself, in its lower-case form. *)
Definition plain (c : Z) : Prop := c <> c_star /\ c <> c_lbr /\ tolower c = c /\ c <> 0.

(** The host part of an entry: a name, everything, or a domain. *)
Inductive pattern : Type := PName (u : list Z) | PAll | PDomain (d : list Z).

Definition pattern_text (p : pattern) : list Z :=
  match p with PName u => u | PAll => [c_star] | PDomain d => c_star :: c_dot :: d end.

Definition pattern_ok (p : pattern) : Prop :=
  match p with
  | PName u => u <> [] /\ Forall plain u
  | PAll => True
  | PDomain d => Forall plain d
  end.

(** The hosts a pattern covers. *)
Definition covers (p : pattern) (h : list Z) : Prop :=
  match p with
  | PName u => u = h
  | PAll => True
  | PDomain d => exists x, h = x ++ c_dot :: d
  end.

(** A host name as the server has it: lower case, not empty, not beginning with a dot. *)
Definition good_host (h : list Z) : Prop := Forall plain h /\ exists c h', h = c :: h' /\ c <> c_dot.

Lemma plain_lower s : Forall plain s -> map tolower s = s.
Proof. induction 1 as [|c s (_ & _ & Hc & _) _ IH]; [done|]. simpl. by rewrite Hc, IH. Qed.

Lemma has_tail_iff m pm pc : Forall plain (m :: pm) -> Forall plain pc ->
  has_tail (m :: pm) pc = true <-> exists x, pc = x ++ m :: pm.
Proof.
  intros Hm Hc. induction Hc as [|c pc Hc Hpc IH]; cbn [has_tail].
  - split; [done|]. intros [x Hx]. by destruct x.
  - unfold strcasecmp_eq. rewrite (plain_lower (m :: pm)), (plain_lower (c :: pc)) by (done || by constructor).
    rewrite orb_true_iff, bool_decide_eq_true, IH. split.
    + intros [->|[x ->]]; [by exists []|by exists (c :: x)].
    + intros [[|d x] E]; [left; by rewrite E|right]. injection E as -> ->. by exists x.
Qed.

Lemma match_name fuel u : forall h, Forall plain u -> Forall plain h -> (length u < fuel)%nat ->
  match_loop fuel h u = Some (if bool_decide (u = h) then 0 else 1).
Proof.
  revert u. induction fuel as [|fuel IH]; intros u h Hu Hh Hf; [lia|]. cbn [match_loop].
  destruct h as [|c h], u as [|m u]; try done.
  - simpl. inversion Hu as [|? ? (Hs & _)]; subst. destruct u; [|done]. by rewrite (proj2 (Z.eqb_neq _ _) Hs).
  - inversion Hu as [|? ? (Hs & Hb & Hlm & _) Hu']; subst. inversion Hh as [|? ? (_ & _ & Hlc & _) Hh']; subst.
    rewrite (proj2 (Z.eqb_neq _ _) Hb), (proj2 (Z.eqb_neq _ _) Hs), Hlm, Hlc.
    destruct (Z.eqb_spec c m) as [->|Hne]; simpl negb; cbv iota.
    + rewrite IH by (done || (simpl in Hf; lia)). f_equal.
      destruct (bool_decide_reflect (u = h)), (bool_decide_reflect (m :: u = m :: h)); congruence.
    + rewrite bool_decide_false by congruence. done.
Qed.

(** [hacl_match] decides whether a pattern covers a host. *)
Lemma hacl_match_covers p h : pattern_ok p -> good_host h ->
  exists r, hacl_match (Some h) (pattern_text p) = Some r /\ (r = 0 <-> covers p h).
Proof.
  intros Hp [Hh (c & h' & Eh & Hc)]. unfold hacl_match.
  assert (str_eq h LOCAL = false) as ->.
  { unfold str_eq. apply bool_decide_false. intros ->. by inversion Hh as [|? ? (_ & _ & Hl & _)]. }
  destruct p as [u| |d]; cbn [pattern_text pattern_ok covers] in *.
  - destruct Hp as [_ Hu]. rewrite match_name by (done || lia). eexists. split; [done|].
    destruct (bool_decide_reflect (u = h)); [done|]. by split.
  - subst h. by exists 0.
  - subst h. cbn [match_loop length]. change (c_star =? c_lbr) with false. change (c_star =? c_star) with true. cbv iota.
    cbn [acl_wildcard_check]. change (c_star =? c_star) with true. simpl negb. cbv iota.
    assert (Hd : Forall plain (c_dot :: d)) by (constructor; [done|done]).
    pose proof (has_tail_iff c_dot d (c :: h') Hd Hh) as Ht. destruct (has_tail (c_dot :: d) (c :: h')).
    + exists 0. split; [done|]. split; [intros _; by apply Ht|done].
    + exists 1. split; [done|]. split; [done|]. intros Hx. by apply Ht in Hx.
Qed.

(** ** Specificity *)

(** Every host the first covers, the second covers. *)
Definition at_least_as_specific (p p' : pattern) : Prop := forall h, good_host h -> covers p h -> covers p' h.

Lemma rle_tail r : forall x y s t, rle (r ++ x :: s) (r ++ y :: t) = rle (x :: s) (y :: t).
Proof.
  induction r as [|c r IH]; intros x y s t; [done|]. rewrite <- !app_comm_cons. cbn [rle].
  destruct (r ++ x :: s) as [|a1 l1] eqn:E1; [by destruct r|]. destruct (r ++ y :: t) as [|a2 l2] eqn:E2; [by destruct r|].
  rewrite Z.eqb_refl, <- E1, <- E2. apply IH.
Qed.

(** Two patterns cover a host and the first is not behind the second: it is the more
    specific one. *)
Lemma order_specific p p' h :
  pattern_ok p -> pattern_ok p' -> good_host h -> covers p h -> covers p' h ->
  hle (pattern_text p) (pattern_text p') -> at_least_as_specific p p'.
Proof.
  intros Hp Hp' [Hh (c & h' & Eh & Hc)] Hcv Hcv' Hle g Hg Hgc. unfold hle in Hle.
  destruct p' as [u'| |d']; cbn [pattern_text covers pattern_ok] in *; [|done|].
  - subst u'. destruct p as [u| |d]; cbn [pattern_text covers pattern_ok] in *; [by subst| |].
    + exfalso. change (reverse [c_star]) with [c_star] in Hle. destruct Hp' as [Hne _].
      destruct h as [|x h _] using rev_ind; [done|]. rewrite reverse_snoc in Hle.
      destruct (reverse h) as [|y r] eqn:Er; [|done]. cbn [rle] in Hle.
      apply Forall_app in Hh as [_ Hh]. inversion Hh as [|? ? (Hs & _)]; subst.
      rewrite (proj2 (Z.eqb_neq _ _) Hs) in Hle. done.
    + exfalso. destruct Hcv as [x ->]. rewrite !reverse_cons, reverse_app, reverse_cons in Hle.
      rewrite <- !app_assoc in Hle. destruct x as [|e x]; [by injection Eh as <-|].
      rewrite reverse_cons in Hle. cbn [app] in Hle. rewrite rle_tail in Hle. cbn [rle] in Hle.
      destruct (reverse x ++ [e]) as [|f r] eqn:Er; [by destruct (reverse x)|]. rewrite Z.eqb_refl in Hle.
      cbn [rle] in Hle. destruct r as [|g' r]; [|done].
      apply Forall_app in Hh as [Hx _]. assert (Hfx : plain f).
      { rewrite Forall_forall in Hx. apply Hx. rewrite <- (reverse_involutive (e :: x)), reverse_cons, Er. set_solver. }
      destruct Hfx as (Hs & _). rewrite (proj2 (Z.eqb_neq _ _) Hs) in Hle. done.
  - destruct p as [u| |d]; cbn [pattern_text covers pattern_ok] in *; [by subst| |].
    + exfalso. change (reverse [c_star]) with [c_star] in Hle. rewrite !reverse_cons in Hle.
      destruct (reverse d' ++ [c_dot]) as [|a r] eqn:E0; [by destruct (reverse d')|]. cbn [app rle] in Hle.
      destruct (r ++ [c_star]) as [|b m] eqn:E; [by destruct r|done].
    + destruct Hcv as [x E], Hcv' as [x' E']. destruct Hgc as [y ->].
      assert (exists z, c_dot :: d = z ++ c_dot :: d') as [z ->]; [|by exists (y ++ z); rewrite <- app_assoc].
      rewrite E in E'. clear -Hle E'.
      destruct (app_eq_inv x (c_dot :: d) x' (c_dot :: d') E') as [(k & E1 & E2)|(k & E1 & E2)]; [|by exists k].
      destruct k as [|a k]; [by exists []|]. exfalso.
      rewrite !(reverse_cons _ c_star), E2, reverse_app, <- app_assoc in Hle.
      rewrite (reverse_cons k a), <- app_assoc in Hle. simpl app in Hle.
      assert (Hx : exists b m, reverse k ++ a :: [c_star] = b :: m /\ m <> []).
      { destruct (reverse k) as [|b m]; [by exists a, [c_star]|]. exists b, (m ++ [a; c_star]). by destruct m. }
      destruct Hx as (b & m & Em & Hm). rewrite Em, rle_tail in Hle. by destruct m.
Qed.

(** ** The search *)

(** The pattern of an entry. *)
Definition entry_pattern (e : list Z) (p : pattern) : Prop := pattern_ok p /\ unsigned_entry e = pattern_text p.

(** A sign alone, or a pattern with or without a sign. *)
Definition entry_ok (e : list Z) : Prop := e = [c_plus] \/ e = [c_minus] \/ exists p, entry_pattern e p.

(** What an entry says of the hosts it covers, and what a sign alone says of all others. *)
Definition allows (e : list Z) : Z := match e with c :: _ => if c =? c_minus then 0 else 1 | [] => 1 end.

Definition default_step (d : Z) (e : list Z) : Z :=
  match e with [c] => if c =? c_plus then 1 else if c =? c_minus then 0 else d | _ => d end.
Definition default_of (l : list (list Z)) : Z := foldl default_step 0 l.

Lemma pattern_text_ne p : pattern_ok p -> pattern_text p <> [].
Proof. by destruct p as [u| |d]; [intros [? _]| |]. Qed.

Lemma same_text p p' : pattern_ok p -> pattern_ok p' -> pattern_text p = pattern_text p' -> at_least_as_specific p p'.
Proof.
  intros Hp Hp' E h Hh Hc. destruct (hacl_match_covers p h Hp Hh) as (r & Er & Hr).
  destruct (hacl_match_covers p' h Hp' Hh) as (r' & Er' & Hr'). rewrite <- E, Er in Er'. injection Er' as <-.
  by apply Hr', Hr.
Qed.

Lemma hosts_elem e l : e ∈ l -> unsigned_entry e <> [] -> unsigned_entry e ∈ hosts l.
Proof.
  intros He Hu. unfold hosts. apply list_elem_of_filter. split; [done|]. by apply list_elem_of_fmap_2.
Qed.

Section Check.
Context `{Platform} (getgrnam : list Z -> option Z) (server_host : list Z).

Lemma entry_match e h : entry_ok e -> good_host h ->
  exists r, hacl_match (Some h) (unsigned_entry e) = Some r /\ (r = 0 <-> exists p, entry_pattern e p /\ covers p h).
Proof.
  assert (Hbare : forall e, unsigned_entry e = [] -> good_host h ->
    exists r, hacl_match (Some h) (unsigned_entry e) = Some r /\ (r = 0 <-> exists p, entry_pattern e p /\ covers p h)).
  { intros e' Eu [Hh (c & h' & -> & Hc)]. exists 1. rewrite Eu. split.
    - unfold hacl_match. replace (str_eq (c :: h') LOCAL) with false; [done|]. symmetry. apply bool_decide_false.
      intros E. rewrite E in Hh. by inversion Hh as [|? ? (_ & _ & Hl & _)].
    - split; [done|]. intros (p & [Hp Ep] & _). apply pattern_text_ne in Hp. congruence. }
  intros [->|[->|(p & Hp & Ep)]] Hh; [by apply Hbare|by apply Hbare|].
  rewrite Ep. destruct (hacl_match_covers p h Hp Hh) as (r & -> & Hr). exists r. split; [done|]. rewrite Hr. split.
  - intros Hc. by exists p.
  - intros (p' & [Hp' Ep'] & Hc'). rewrite Ep in Ep'. by apply (same_text p' p).
Qed.

Lemma acl_loop_specific h l : forall d,
  good_host h -> Forall entry_ok l -> acl_sorted l ->
  exists r, acl_loop getgrnam l (Some h) ACL_Host d = Some r /\
    ((exists e p, e ∈ l /\ entry_pattern e p /\ covers p h /\ r = allows e /\
        forall e' p', e' ∈ l -> entry_pattern e' p' -> covers p' h -> at_least_as_specific p p') \/
     ((forall e p, e ∈ l -> entry_pattern e p -> ~ covers p h) /\ r = foldl default_step d l)).
Proof.
  induction l as [|e l IH]; intros d Hh Hok Hs.
  { exists d. split; [done|]. right. split; [|done]. intros e p He. by apply not_elem_of_nil in He. }
  apply Forall_cons_1 in Hok as [He Hok]. cbn [acl_loop]. unfold acl_match. simpl (ACL_Host =? ACL_Host). cbv iota.
  destruct (entry_match e h He Hh) as (m & -> & Hm). cbn [mbind option_bind].
  unfold acl_sorted in Hs. rewrite hosts_cons in Hs. destruct (Z.eqb_spec m 0) as [->|Hm0].
  - exists (allows e). split; [done|]. left. destruct (proj1 Hm eq_refl) as (p & [Hp Ep] & Hc).
    exists e, p. split; [by left|]. split; [done|]. split; [done|]. split; [done|].
    intros e' p' [->|He']%elem_of_cons [Hp' Ep'] Hc'; [apply same_text; congruence|].
    apply (order_specific p p' h); try done. rewrite <- Ep, <- Ep'.
    pose proof (pattern_text_ne p Hp) as Hne. rewrite <- Ep in Hne. destruct (unsigned_entry e) as [|x u]; [done|].
    apply StronglySorted_inv in Hs as [_ Hf]. rewrite Forall_forall in Hf. apply Hf, hosts_elem; [done|].
    rewrite Ep'. by apply pattern_text_ne.
  - assert (Hs' : acl_sorted l) by (destruct (unsigned_entry e); [done|by apply StronglySorted_inv in Hs as [? _]]).
    assert (Hn : forall p, entry_pattern e p -> ~ covers p h) by (intros p Hp Hc; apply Hm0, Hm; eauto).
    destruct (IH (default_step d e) Hh Hok Hs') as (r & Er & Hr). exists r. split; [exact Er|].
    destruct Hr as [(e1 & p & He1 & Hp & Hc & -> & Hspec)|[Hnone ->]].
    + left. exists e1, p. split; [by right|]. split; [done|]. split; [done|]. split; [done|].
      intros e' p' [->|He']%elem_of_cons Hp' Hc'; [by apply Hn in Hp'|by apply (Hspec e' p')].
    + right. split; [|done]. intros e' p' [->|He']%elem_of_cons Hp'; [by apply Hn|by apply (Hnone e' p')].
Qed.

(** C30: A host is judged by the most specific entry that covers it.  In a list ordered as
    [set_hostacl] keeps it, whose entries, signs apart, are lower-case names, ["*"], or
    ["*."] and a lower-case domain ([entry_ok]: no other use of the star), the entry that
    decides covers the host and every other entry that covers the host covers all the hosts
    it covers; a lower-case host no entry covers gets the default the last lone sign sets,
    or is refused. *)
Theorem acl_check_most_specific (attr : arst_attribute) pas l h :
  is_set attr = true -> at_val attr = Some pas -> holds pas l -> l <> [] ->
  acl_sorted l -> Forall entry_ok l -> good_host h ->
  exists r, acl_check getgrnam server_host attr (Some h) ACL_Host = Some r /\
    ((exists e p, e ∈ l /\ entry_pattern e p /\ covers p h /\ r = allows e /\
        forall e' p', e' ∈ l -> entry_pattern e' p' -> covers p' h -> at_least_as_specific p p') \/
     ((forall e p, e ∈ l -> entry_pattern e p -> ~ covers p h) /\ r = default_of l)).
Proof.
  intros Hset Ev Hh Hne Hs Hok Hg. unfold acl_check. rewrite Hset, Ev. cbn [negb].
  rewrite (proj2 (Z.eqb_neq (as_usedptr pas) 0)).
  - unfold acl_check_my_array_string. rewrite (holds_strings _ _ Hh). cbn [mbind option_bind].
    by apply acl_loop_specific.
  - rewrite (h_used _ _ Hh). destruct l as [|e l]; [done|]. rewrite zlen_cons. pose proof (zlen_nonneg l). lia.
Qed.

End Check.

Section KeepOrder.
Context `{Platform} {Hall : AllocOk}.

(** C31: Host lists stay in order.  [SET], [INCR] and [DECR] on a list without duplicates, in
    the order of [host_order], give such a list again, of exactly the entries asked for; an
    entry that would be there twice is refused with PBSE_DUPLIST. *)
Theorem set_hostacl_keeps_order (attr new_attr : arst_attribute) newpas old new op :
  is_set new_attr = true -> at_val new_attr = Some newpas -> holds newpas new -> new <> [] ->
  Forall (fun e => e <> []) new -> value_holds (at_val attr) old -> acl_wf old ->
  op ∈ [SET; INCR; INCR_OLD; DECR] ->
  value_size (at_val attr) + 2 * as_next newpas <= ARST_MAX -> as_npointers newpas <= ARST_MAX ->
  exists rc attr' l, set_hostacl attr new_attr op = Some (rc, attr') /\ value_holds (at_val attr') l /\ acl_wf l /\
    if op =? DECR then rc = 0 /\ forall e, e ∈ l <-> e ∈ old /\ e ∉ new
    else if chk_dup_acl (acl_base op old) new then rc = PBSE_DUPLIST /\ l = acl_base op old
    else rc = 0 /\ l ≡ₚ acl_base op old ++ new.
Proof.
  intros Hs Ev Hn Hne Hnk Ho [Hok Hnd Hso] Hop Hsz Hnp. unfold set_hostacl.
  assert (Hd : op = DECR \/ op <> DECR /\ op ∈ [SET; INCR; INCR_OLD]).
  { rewrite !elem_of_cons, elem_of_nil in *. destruct Hop as [->|[->|[->|[->|[]]]]]; [right..|by left];
      (split; [done|tauto]). }
  destruct Hd as [->|[Hd Hop']].
  - destruct (set_allacl_decr host_order attr new_attr newpas old new) as (pas & E & Hh); [done..|].
    destruct (remove_all_spec new old Hnd) as [Hnd' Hel].
    eexists _, _, _. split; [exact E|]. split; [exact Hh|]. split; [|done].
    constructor; [|done|by apply remove_all_sorted]. apply Forall_forall. intros e [He _]%Hel.
    rewrite Forall_forall in Hok. by apply Hok.
  - rewrite (proj2 (Z.eqb_neq op DECR) Hd).
    destruct (set_allacl_run host_order host_after (fun e => e <> []) host_order_after attr new_attr newpas old new op)
      as (pas & E & Hh); [done..|]. set (b := acl_base op old) in *.
    assert (Hb : acl_wf b) by (unfold b, acl_base; destruct (op =? SET); [repeat constructor|done]).
    destruct Hb as [Hb1 Hb2 Hb3]. destruct (chk_dup_acl b new) eqn:Edup.
    + eexists _, _, b. split; [exact E|]. split; [exact Hh|]. by repeat split.
    + pose proof (insert_all_perm host_after b new) as Hp.
      eexists _, _, (insert_all host_after b new). split; [exact E|]. split; [exact Hh|]. split; [|done]. constructor.
      * rewrite Hp. by apply Forall_app.
      * rewrite Hp. by apply chk_dup_nodup.
      * by apply insert_all_sorted.
Qed.

End KeepOrder.

Section AclWitnesses.
#[local] Existing Instance generous.
#[local] Existing Instance generous_ok.

(** ["-b.x"], then ["+*.x"], then ["-"]. *)
Definition acl_example : list (list Z) := [[45;98;46;120]; [43;42;46;120]; [45]].
Definition acl_pas : array_strings :=
  mk_array_strings 3 3 12 (Some (pack acl_example)) 12 [Some 0; Some 5; Some 10].

Lemma acl_pas_holds : holds acl_pas acl_example.
Proof.
  constructor; try reflexivity.
  - repeat constructor; discriminate.
  - split; [reflexivity|]. exists []. by rewrite app_nil_r.
  - exists []. reflexivity.
Defined.

Lemma acl_example_sorted : acl_sorted acl_example.
Proof. repeat constructor. Defined.

(** The host ["b.x"] is refused although its domain is allowed. *)
Lemma acl_check_most_specific_witness :
  acl_check (fun _ => None) [115] (mk_attribute 1 8 (Some acl_pas)) (Some [98;46;120]) ACL_Host = Some 0 /\
  exists r, acl_check (fun _ => None) [115] (mk_attribute 1 8 (Some acl_pas)) (Some [99;46;120]) ACL_Host = Some r /\
    ((exists e p, e ∈ acl_example /\ entry_pattern e p /\ covers p [99;46;120] /\ r = allows e /\
        forall e' p', e' ∈ acl_example -> entry_pattern e' p' -> covers p' [99;46;120] -> at_least_as_specific p p') \/
     ((forall e p, e ∈ acl_example -> entry_pattern e p -> ~ covers p [99;46;120]) /\ r = default_of acl_example)).
Proof.
  split; [vm_compute; reflexivity|].
  apply (acl_check_most_specific (fun _ => None) [115] (mk_attribute 1 8 (Some acl_pas)) acl_pas acl_example [99;46;120]).
  - reflexivity.
  - reflexivity.
  - exact acl_pas_holds.
  - discriminate.
  - exact acl_example_sorted.
  - constructor; [|constructor; [|constructor; [|constructor]]].
    + right. right. exists (PName [98;46;120]). repeat constructor; discriminate.
    + right. right. exists (PDomain [120]). repeat constructor; discriminate.
    + right. left. reflexivity.
  - split; [repeat constructor; discriminate|]. exists 99, [46;120]. split; [reflexivity|discriminate].
Defined.

(** ["+*.x"] is added to ["-b.x"] and ["-"]. *)
Lemma set_hostacl_keeps_order_witness :
  exists rc attr' l,
    set_hostacl (mk_attribute 1 8 (Some (mk_array_strings 2 2 7 (Some [45;98;46;120;0;45;0]) 7 [Some 0; Some 5])))
      (mk_attribute 1 8 (Some (mk_array_strings 1 1 5 (Some [43;42;46;120;0]) 5 [Some 0]))) INCR = Some (rc, attr')
    /\ value_holds (at_val attr') l /\ acl_wf l /\ rc = 0 /\ l ≡ₚ [[45;98;46;120]; [45]; [43;42;46;120]].
Proof.
  destruct (set_hostacl_keeps_order
    (mk_attribute 1 8 (Some (mk_array_strings 2 2 7 (Some [45;98;46;120;0;45;0]) 7 [Some 0; Some 5])))
    (mk_attribute 1 8 (Some (mk_array_strings 1 1 5 (Some [43;42;46;120;0]) 5 [Some 0])))
    (mk_array_strings 1 1 5 (Some [43;42;46;120;0]) 5 [Some 0]) [[45;98;46;120]; [45]] [[43;42;46;120]] INCR)
    as (rc & attr' & l & E & Hv & Hw & Hr).
  - reflexivity.
  - reflexivity.
  - constructor; try reflexivity; [repeat constructor; discriminate|split; [reflexivity|exists []; reflexivity]|exists []; reflexivity].
  - discriminate.
  - repeat constructor; discriminate.
  - constructor; try reflexivity; [repeat constructor; discriminate|split; [reflexivity|exists []; reflexivity]|exists []; reflexivity].
  - constructor; [repeat constructor; discriminate| |repeat constructor].
    constructor; [|constructor; [|constructor]]; rewrite ?elem_of_cons, elem_of_nil; [intros [E|[]]; discriminate E|intros []].
  - right. left.
  - vm_compute. discriminate.
  - vm_compute. discriminate.
  - exists rc, attr', l. split; [exact E|]. split; [exact Hv|]. split; [exact Hw|]. exact Hr.
Defined.

(** ["*@*"] is meant to be everybody everywhere and matches nobody: ["a@h"]. *)
Example star_at_star_matches_nobody : uhacl_match (Some [97;64;104]) [42;64;42] = Some 1.
Proof. vm_compute. reflexivity. Qed.

(** A range is matched by no digits at all: ["n[0-4].x"] and the host ["n.x"]. *)
Example range_matches_no_digits : hacl_match (Some [110;46;120]) [110;91;48;45;52;93;46;120] = Some 0.
Proof. vm_compute. reflexivity. Qed.

(** An entry with a bracket and no dash, ["n[1]"], is read beyond its end. *)
Example range_without_dash_overruns : hacl_match (Some [110;49]) [110;91;49;93] = None.
Proof. vm_compute. reflexivity. Qed.

(** Two entries for one user that differ in their sign, ["+a"] and ["-a"], are compared
    behind their ends. *)
Example user_order_overruns : user_order [43;97;0] 0 [45;97;0] 0 = None.
Proof. vm_compute. reflexivity. Qed.

(** Without the dot a pattern comes in front of the name it covers: ["+*x.y"] and ["-x.y"];
    the refusal of ["x.y"] is never reached. *)
Example star_without_dot_hides_name :
  insert_all host_after [] [[45;120;46;121]; [43;42;120;46;121]] = [[43;42;120;46;121]; [45;120;46;121]]
  /\ acl_loop (fun _ => None) [[43;42;120;46;121]; [45;120;46;121]] (Some [120;46;121]) ACL_Host 0 = Some 1.
Proof. vm_compute. split; reflexivity. Qed.

End AclWitnesses.
