(* ===== verification/Requests.v ===== *)
(** * Batch requests (src/src/lib/Libifl/enc_*.c and dec_*.c)

    One encoder per kind of request, used by clients and by servers that talk to
    each other, and one decoder that fills the request structure of the receiving
    daemon.  A decoder leaves with the first error; the fields it has not reached
    keep the zero the constructor of [batch_request] gave them. *)

From S2P Require Import Prelude CLib TcpDis Codec DisInt DisStr Attrs.
From stdpp Require Import base list numbers option.

Local Open Scope Z_scope.
Local Open Scope st_scope.

(** ** Limits and codes (server_limits.h, pbs_ifl.h, libpbs.h, pbs_error_db.h) *)

Definition PBS_BATCH_PROT_TYPE : Z := 2.
Definition PBS_BATCH_PROT_VER : Z := 2.
Definition PBS_MAXUSER : Z := 32.
Definition PBS_MAXGRPN : Z := 16.
Definition PBS_MAXGPUID : Z := 16.
Definition PBS_MAXHOSTNAME : Z := 1024.
Definition PBS_MAXSVRJOBID : Z := 1046.
Definition PBS_MAXCLTJOBID : Z := 2084.
Definition PBS_MAXDEST : Z := 1024.
Definition PBS_MAXCREDENTIAL_LEN : Z := 2048.
Definition PBS_SIGNAMESZ : Z := 16.
Definition PBSE_RMSYSTEM : Z := 15205.

(** ** The request structure *)

Record rqfpair := mk_rqfpair { fp_flag : Z; fp_local : cptr; fp_rmt : cptr }.
Definition SIZEOF_RQFPAIR : Z := 48.

(** The union [rq_ind]; character arrays are the C strings they hold. *)
Inductive indep_request : Type :=
| rq_none
| rq_authen (rq_port : Z) (rq_cred : list Z)
| rq_queuejob (rq_jid rq_destin : list Z) (rq_attr : list svrattrl)
| rq_jobcred (rq_type : Z) (rq_data : cptr) (rq_size : Z)
| rq_jobfile (rq_sequence rq_type rq_size : Z) (rq_jobid : list Z) (rq_data : cptr)
| rq_commit (rq_jid : list Z)
| rq_manager (rq_cmd rq_objtype : Z) (rq_objname : list Z) (rq_attr : list svrattrl)
| rq_message (rq_jid : list Z) (rq_file : Z) (rq_text : cptr)
| rq_move (rq_jid rq_destin : list Z)
| rq_register (rq_owner rq_parent rq_child : list Z) (rq_dependtype rq_op rq_cost : Z)
| rq_rescq (rq_rhandle rq_num : Z) (rq_list : list (list Z))
| rq_run (rq_jid : list Z) (rq_destin : cptr) (rq_resch : Z)
| rq_select (rq_attr : list svrattrl)
| rq_select_status (rq_select rq_attr : list svrattrl)
| rq_shutdown (manner : Z)
| rq_powerstate (state : Z)
| rq_signal (rq_jid rq_signame : list Z)
| rq_status (rq_id : list Z) (rq_attr : list svrattrl)
| rq_track (rq_jid : list Z) (rq_hopcount : Z) (rq_location : list Z) (rq_state0 : Z)
| rq_gpuctrl (rq_momnode rq_gpuid : list Z) (rq_gpumode rq_reset_perm rq_reset_vol : Z)
| rq_cpyfile (rq_jobid rq_owner rq_user rq_group : list Z) (rq_dir : Z) (rq_pair : list rqfpair)
| rq_returnfiles (rq_jobid : list Z) (rq_return_stdout rq_return_stderr : Z)
| rq_jobobit (rq_jid : list Z) (rq_status : Z) (rq_attr : list svrattrl).

Section Encoders.
Context `{Platform}.

(** [>>!] is [(rc = f(...) != 0) || ...], where the comparison binds tighter. *)

Definition encode_DIS_ReqHdr (reqt : Z) (user : cptr) : M Z :=
  diswui PBS_BATCH_PROT_TYPE >>? diswui PBS_BATCH_PROT_VER >>? diswui (u32 reqt) >>? diswst user.

Definition encode_DIS_ReqExtend (extend : cptr) : M Z :=
  match extend with
  | Some (c :: s) =>
      if c =? 0 then diswui 0 else diswui 1 >>? diswst (Some (c :: s))
  | _ => diswui 0
  end.

Definition encode_rqfpair (p : rqfpair) : M Z :=
  diswui (u32 (fp_flag p)) >>! diswst (fp_local p) >>! diswst (or_empty (fp_rmt p)) >>! st_ret 0.

Definition encode_DIS_CopyFiles (jobid owner user group : list Z) (dir : Z) (pairs : list rqfpair) : M Z :=
  diswst (Some jobid) >>! diswst (Some owner) >>! diswst (Some user) >>! diswst (Some group) >>!
  diswui (u32 dir) >>! diswui (u32 (zlen pairs)) >>! encode_each encode_rqfpair pairs.

Definition encode_DIS_GpuCtrl (node gpuid : cptr) (gpumode reset_perm reset_vol : Z) : M Z :=
  diswst node >>! diswst gpuid >>! diswui (u32 gpumode) >>! diswui (u32 reset_perm) >>!
  diswui (u32 reset_vol) >>! encode_DIS_ReqExtend None.

(** [encode_DIS_Resc] of pbsD_resc.c; [ct] is the number of strings. *)
Definition encode_DIS_Resc (rlist : list (list Z)) (rh : Z) : M Z :=
  diswsi rh >>? diswui (u32 (zlen rlist)) >>? encode_each (fun s => diswst (Some s)) rlist.

Definition encode_DIS_JobCred (type : Z) (cred : cptr) (len : Z) : M Z :=
  diswui (u32 type) >>? diswcs cred (u64 len).

Definition encode_DIS_JobFile (seq : Z) (buf : cptr) (len : Z) (jobid : cptr) (which : Z) : M Z :=
  diswui (u32 seq) >>! diswui (u32 which) >>! diswui (u32 len) >>! diswst (or_empty jobid) >>!
  diswcs buf (u64 len) >>! st_ret 0.

Definition encode_DIS_JobId (jobid : cptr) : M Z := diswst jobid.

Definition encode_DIS_JobObit (jid : list Z) (status : Z) (attr : list svrattrl) : M Z :=
  diswst (Some jid) >>! diswsi status >>! encode_DIS_svrattrl attr >>! st_ret 0.

Definition encode_DIS_Manage (command objtype : Z) (objname : cptr) (aoplp : list attropl) : M Z :=
  diswui (u32 command) >>! diswui (u32 objtype) >>! diswst objname >>! encode_DIS_attropl aoplp.

Definition encode_DIS_MoveJob (jobid destin : cptr) : M Z :=
  diswst jobid >>! diswst destin >>! st_ret 0.

Definition encode_DIS_MessageJob (jobid : cptr) (fileopt : Z) (msg : cptr) : M Z :=
  diswst jobid >>! diswui (u32 fileopt) >>! diswst msg >>! st_ret 0.

(** [power_state] is an [unsigned short]. *)
Definition encode_DIS_PowerState (power_state : Z) : M Z := diswui (u16 power_state).

Definition encode_DIS_QueueJob (jobid destin : cptr) (aoplp : list attropl) : M Z :=
  diswst (or_empty jobid) >>! diswst (or_empty destin) >>! encode_DIS_attropl aoplp.

Definition encode_DIS_Register (owner parent child : list Z) (dependtype op cost : Z) : M Z :=
  diswst (Some owner) >>! diswst (Some parent) >>! diswst (Some child) >>!
  diswui (u32 dependtype) >>! diswui (u32 op) >>! diswsl cost >>! st_ret 0.

Definition encode_DIS_ReturnFiles (jobid : list Z) (return_stdout return_stderr : Z) : M Z :=
  diswst (Some jobid) >>! diswsi return_stdout >>! diswsi return_stderr >>! st_ret 0.

Definition encode_DIS_RunJob (jobid where_ : cptr) (resch : Z) : M Z :=
  diswst jobid >>! diswst where_ >>! diswui (u32 resch) >>! st_ret 0.

Definition encode_DIS_ShutDown (manner : Z) : M Z := diswui (u32 manner).

Definition encode_DIS_SignalJob (jobid signal : cptr) : M Z :=
  diswst jobid >>! diswst signal >>! st_ret 0.

Definition encode_DIS_Status (objid : cptr) (pattrl : list attrl) : M Z :=
  diswst objid >>! encode_DIS_attrl pattrl >>! st_ret 0.

(** [rq_state] is a [char] array. *)
Definition encode_DIS_TrackJob (jid : list Z) (hopcount : Z) (location : list Z) (state0 : Z) : M Z :=
  diswst (Some jid) >>! diswui (u32 hopcount) >>! diswst (Some location) >>!
  diswuc (i8 state0) >>! st_ret 0.

End Encoders.

Section Decoders.
Context `{Platform}.

(** A [char x[n + 1]] field read with limit [n]. *)
Definition disr_field (n : Z) : M (Z * list Z) := disrfst (n + 1) n.

Definition decode_DIS_ReqHdr : M (Z * Z * Z * list Z) :=
  let* (proto_ver, rc) := disrui in
  let* (rq_type, rc) := (if rc =? 0 then disrui else st_ret (-1, rc)) in
  if negb (rc =? 0) then st_ret (rc, i32 proto_ver, i32 rq_type, [])
  else
    let* (rc, user) := disr_field PBS_MAXUSER in
    st_ret (rc, i32 proto_ver, i32 rq_type, user).

Definition decode_DIS_ReqExtend : M (Z * cptr) :=
  let* (i, rc) := disrui in
  if rc =? 0 then
    if negb (i32 i =? 0) then let* (s, rc) := disrst in st_ret (rc, s) else st_ret (rc, None)
  else st_ret (rc, None).

Definition decode_DIS_Authen : M (Z * indep_request) :=
  let* (port, rc) := disrui in st_ret (rc, rq_authen port []).

(** [rq_cred] has [PBS_MAXCREDENTIAL_LEN] characters. *)
Definition decode_DIS_AltAuthen : M (Z * indep_request) :=
  let* (port, rc) := disrui in
  if negb (rc =? 0) then st_ret (rc, rq_authen port [])
  else
    let* (rc, cred) := disrfst PBS_MAXCREDENTIAL_LEN PBS_MAXCREDENTIAL_LEN in
    st_ret (rc, rq_authen port cred).

Definition decode_rqfpair : M (Z * option rqfpair * bool) :=
  if negb (calloc_ok SIZEOF_RQFPAIR) then st_ret (DIS_NOMALLOC, None, true)
  else
    let* (flag, rc) := disrui in
    if negb (rc =? 0) then st_ret (rc, None, true)
    else
      let* (local, rc) := disrst in
      if negb (rc =? 0) then st_ret (rc, None, true)
      else
        let* (rmt, rc) := disrst in
        if negb (rc =? 0) then st_ret (rc, None, true)
        else st_ret (0, Some (mk_rqfpair (i32 flag) local rmt), true).

(** [while (pair_ct--)] counts an [int] down to 0 through the negative numbers,
    which is the number of turns of the unsigned value. *)
Definition decode_DIS_CopyFiles : M (Z * indep_request) :=
  let* (rc, jobid) := disr_field PBS_MAXSVRJOBID in
  if negb (rc =? 0) then st_ret (rc, rq_cpyfile jobid [] [] [] 0 [])
  else
    let* (rc, owner) := disr_field PBS_MAXUSER in
    if negb (rc =? 0) then st_ret (rc, rq_cpyfile jobid owner [] [] 0 [])
    else
      let* (rc, user) := disr_field PBS_MAXUSER in
      if negb (rc =? 0) then st_ret (rc, rq_cpyfile jobid owner user [] 0 [])
      else
        let* (rc, group) := disr_field PBS_MAXGRPN in
        if negb (rc =? 0) then st_ret (rc, rq_cpyfile jobid owner user group 0 [])
        else
          let* (dir, rc) := disrui in
          if negb (rc =? 0) then st_ret (rc, rq_cpyfile jobid owner user group (i32 dir) [])
          else
            let* (pair_ct, rc) := disrui in
            if negb (rc =? 0) then st_ret (rc, rq_cpyfile jobid owner user group (i32 dir) [])
            else
              let* (rc, pairs, _) := read_n pair_ct decode_rqfpair in
              st_ret (rc, rq_cpyfile jobid owner user group (i32 dir) pairs).

Definition decode_DIS_GpuCtrl : M (Z * indep_request) :=
  let* (rc, node) := disr_field PBS_MAXHOSTNAME in
  if negb (rc =? 0) then st_ret (rc, rq_gpuctrl node [] 0 0 0)
  else
    let* (rc, gpuid) := disr_field PBS_MAXGPUID in
    if negb (rc =? 0) then st_ret (rc, rq_gpuctrl node gpuid 0 0 0)
    else
      let* (mode, rc) := disrui in
      if negb (rc =? 0) then st_ret (rc, rq_gpuctrl node gpuid (i32 mode) 0 0)
      else
        let* (perm, rc) := disrui in
        if negb (rc =? 0) then st_ret (rc, rq_gpuctrl node gpuid (i32 mode) (i32 perm) 0)
        else
          let* (vol, rc) := disrui in
          st_ret (rc, rq_gpuctrl node gpuid (i32 mode) (i32 perm) (i32 vol)).

Definition decode_DIS_JobCred : M (Z * indep_request) :=
  let* (type, rc) := disrui in
  if negb (rc =? 0) then st_ret (rc, rq_jobcred (i32 type) None 0)
  else
    let* (data, rqsize, rc) := disrcs in
    st_ret (rc, rq_jobcred (i32 type) data (i64 rqsize)).

Definition decode_DIS_JobFile : M (Z * indep_request) :=
  let* (seq, rc) := disrui in
  if negb (rc =? 0) then st_ret (rc, rq_jobfile (i32 seq) 0 0 [] None)
  else
    let* (type, rc) := disrui in
    if negb (rc =? 0) then st_ret (rc, rq_jobfile (i32 seq) (i32 type) 0 [] None)
    else
      let* (size, rc) := disrui in
      if negb (rc =? 0) then st_ret (rc, rq_jobfile (i32 seq) (i32 type) size [] None)
      else
        let* (rc, jobid) := disr_field PBS_MAXSVRJOBID in
        if negb (rc =? 0) then st_ret (rc, rq_jobfile (i32 seq) (i32 type) size jobid None)
        else
          let* (data, amt, rc) := disrcs in
          let rc := if negb (i64 amt =? size) && (rc =? 0) then DIS_EOD else rc in
          st_ret (rc, rq_jobfile (i32 seq) (i32 type) size jobid
                        (if negb (rc =? 0) then None else data)).

Definition decode_DIS_JobId : M (Z * indep_request) :=
  let* (rc, jobid) := disr_field PBS_MAXSVRJOBID in st_ret (rc, rq_commit jobid).

Definition decode_DIS_JobObit : M (Z * indep_request) :=
  let* (rc, jid) := disr_field PBS_MAXSVRJOBID in
  if negb (rc =? 0) then st_ret (rc, rq_jobobit jid 0 [])
  else
    let* (status, rc) := disrsi in
    if negb (rc =? 0) then st_ret (rc, rq_jobobit jid status [])
    else
      let* (rc, attr) := decode_DIS_svrattrl in
      st_ret (rc, rq_jobobit jid status attr).

Definition decode_DIS_Manage : M (Z * indep_request) :=
  let* (cmd, rc) := disrui in
  if negb (rc =? 0) then st_ret (rc, rq_manager (i32 cmd) 0 [] [])
  else
    let* (objtype, rc) := disrui in
    if negb (rc =? 0) then st_ret (rc, rq_manager (i32 cmd) (i32 objtype) [] [])
    else
      let* (rc, objname) := disr_field PBS_MAXSVRJOBID in
      if negb (rc =? 0) then st_ret (rc, rq_manager (i32 cmd) (i32 objtype) objname [])
      else
        let* (rc, attr) := decode_DIS_svrattrl in
        st_ret (rc, rq_manager (i32 cmd) (i32 objtype) objname attr).

(** [PBS_MAXSVRJOBID > PBS_MAXDEST ? PBS_MAXSVRJOBID : PBS_MAXDEST] *)
Definition MAXID : Z := if PBS_MAXDEST <? PBS_MAXSVRJOBID then PBS_MAXSVRJOBID else PBS_MAXDEST.

Definition decode_DIS_MoveJob : M (Z * indep_request) :=
  let* (rc, jid) := disr_field PBS_MAXSVRJOBID in
  if negb (rc =? 0) then st_ret (rc, rq_move jid [])
  else let* (rc, destin) := disr_field MAXID in st_ret (rc, rq_move jid destin).

Definition decode_DIS_MessageJob : M (Z * indep_request) :=
  let* (rc, jid) := disr_field PBS_MAXSVRJOBID in
  if negb (rc =? 0) then st_ret (rc, rq_message jid 0 None)
  else
    let* (file, rc) := disrui in
    if negb (rc =? 0) then st_ret (rc, rq_message jid (i32 file) None)
    else let* (text, rc) := disrst in st_ret (rc, rq_message jid (i32 file) text).

Definition decode_DIS_PowerState : M (Z * indep_request) :=
  let* (state, rc) := disrui in st_ret (rc, rq_powerstate (i32 state)).

Definition decode_DIS_QueueJob : M (Z * indep_request) :=
  let* (rc, jid) := disr_field PBS_MAXSVRJOBID in
  if negb (rc =? 0) then st_ret (rc, rq_queuejob jid [] [])
  else
    let* (rc, destin) := disr_field PBS_MAXDEST in
    if negb (rc =? 0) then st_ret (rc, rq_queuejob jid destin [])
    else
      let* (rc, attr) := decode_DIS_svrattrl in
      st_ret (rc, rq_queuejob jid destin attr).

Definition decode_DIS_Register : M (Z * indep_request) :=
  let* (rc, owner) := disr_field PBS_MAXUSER in
  if negb (rc =? 0) then st_ret (rc, rq_register owner [] [] 0 0 0)
  else
    let* (rc, parent) := disr_field PBS_MAXSVRJOBID in
    if negb (rc =? 0) then st_ret (rc, rq_register owner parent [] 0 0 0)
    else
      let* (rc, child) := disr_field PBS_MAXCLTJOBID in
      if negb (rc =? 0) then st_ret (rc, rq_register owner parent child 0 0 0)
      else
        let* (dt, rc) := disrui in
        if negb (rc =? 0) then st_ret (rc, rq_register owner parent child (i32 dt) 0 0)
        else
          let* (op, rc) := disrui in
          if negb (rc =? 0) then st_ret (rc, rq_register owner parent child (i32 dt) (i32 op) 0)
          else
            let* (cost, rc) := disrsl in
            st_ret (rc, rq_register owner parent child (i32 dt) (i32 op) cost).

Definition decode_rescl_item : M (Z * option (list Z) * bool) :=
  let* (s, rc) := disrst in
  st_ret (rc, if rc =? 0 then s else None, true).

(** An array of [ct] pointers, with [ct] converted to [size_t]; a negative
    [ct] runs no turn of the loops. *)
Definition decode_DIS_Rescl : M (Z * indep_request) :=
  let* (rhandle, rc) := disrsi in
  if negb (rc =? 0) then st_ret (rc, rq_rescq rhandle 0 [])
  else
    let* (uct, rc) := disrui in
    let ct := i32 uct in
    if negb (rc =? 0) then st_ret (rc, rq_rescq rhandle 0 [])
    else if negb (ct =? 0) then
      if negb (calloc_ok (u64 ct * 8)) then st_ret (PBSE_RMSYSTEM, rq_rescq rhandle ct [])
      else
        let* (rc, l, _) := read_n ct decode_rescl_item in
        st_ret (rc, rq_rescq rhandle ct l)
    else st_ret (rc, rq_rescq rhandle ct []).

Definition decode_DIS_ReturnFiles : M (Z * indep_request) :=
  let* (rc, jobid) := disr_field PBS_MAXSVRJOBID in
  if negb (rc =? 0) then st_ret (rc, rq_returnfiles jobid 0 0)
  else
    let* (out, rc) := disrsi in
    if negb (rc =? 0) then st_ret (rc, rq_returnfiles jobid out 0)
    else let* (err, rc) := disrsi in st_ret (rc, rq_returnfiles jobid out err).

Definition decode_DIS_RunJob : M (Z * indep_request) :=
  let* (rc, jid) := disr_field PBS_MAXSVRJOBID in
  if negb (rc =? 0) then st_ret (rc, rq_run jid None 0)
  else
    let* (destin, rc) := disrst in
    if negb (rc =? 0) then st_ret (rc, rq_run jid destin 0)
    else let* (resch, rc) := disrui in st_ret (rc, rq_run jid destin resch).

Definition decode_DIS_ShutDown : M (Z * indep_request) :=
  let* (manner, rc) := disrui in st_ret (rc, rq_shutdown (i32 manner)).

Definition decode_DIS_SignalJob : M (Z * indep_request) :=
  let* (rc, jid) := disr_field PBS_MAXSVRJOBID in
  if negb (rc =? 0) then st_ret (rc, rq_signal jid [])
  else let* (rc, signame) := disr_field PBS_SIGNAMESZ in st_ret (rc, rq_signal jid signame).

Definition decode_DIS_Status : M (Z * indep_request) :=
  let* (rc, id) := disr_field MAXID in
  if negb (rc =? 0) then st_ret (rc, rq_status id [])
  else let* (rc, attr) := decode_DIS_svrattrl in st_ret (rc, rq_status id attr).

Definition decode_DIS_TrackJob : M (Z * indep_request) :=
  let* (rc, jid) := disr_field PBS_MAXSVRJOBID in
  if negb (rc =? 0) then st_ret (rc, rq_track jid 0 [] 0)
  else
    let* (hop, rc) := disrui in
    if negb (rc =? 0) then st_ret (rc, rq_track jid (i32 hop) [] 0)
    else
      let* (rc, location) := disr_field PBS_MAXDEST in
      if negb (rc =? 0) then st_ret (rc, rq_track jid (i32 hop) location 0)
      else
        let* (state0, rc) := disruc in
        st_ret (rc, rq_track jid (i32 hop) location (i8 state0)).

End Decoders.

(** ** Requests as clients make them

    One constructor per encoder with the arguments a caller passes; the GPU
    control request, whose encoder writes an extension of its own, is treated
    apart. *)

Inductive body : Type :=
| QueueJob (jid destin : list Z) (attrs : list attropl)
| JobCred (type : Z) (cred : list Z)
| JobFile (seq which : Z) (jobid buf : list Z)
| JobId (jid : list Z)
| Manage (command objtype : Z) (objname : list Z) (attrs : list attropl)
| MessageJob (jid : list Z) (fileopt : Z) (msg : list Z)
| ShutDown (manner : Z)
| SignalJob (jid sig : list Z)
| Status (id : list Z) (attrs : list attrl)
| MoveJob (jid destin : list Z)
| RunJob (jid where_ : list Z) (resch : Z)
| Select (attrs : list attropl)
| SelStatAttr (attrs : list attropl) (want : list attrl)
| Resc (rhandle : Z) (rlist : list (list Z))
| TrackJob (jid : list Z) (hop : Z) (location : list Z) (state0 : Z)
| RegisterDep (owner parent child : list Z) (dependtype op cost : Z)
| JobObit (jid : list Z) (status : Z) (attrs : list svrattrl)
| CopyFiles (jobid owner user group : list Z) (dir : Z) (pairs : list rqfpair)
| ReturnFiles (jobid : list Z) (out err : Z)
| PowerState (state : Z).

(** What its encoder writes. *)
Definition encode_body `{Platform} (b : body) : M Z :=
  match b with
  | QueueJob jid destin l => encode_DIS_QueueJob (Some jid) (Some destin) l
  | JobCred type cred => encode_DIS_JobCred type (Some cred) (zlen cred)
  | JobFile seq which jobid buf => encode_DIS_JobFile seq (Some buf) (zlen buf) (Some jobid) which
  | JobId jid => encode_DIS_JobId (Some jid)
  | Manage c t n l => encode_DIS_Manage c t (Some n) l
  | MessageJob jid f m => encode_DIS_MessageJob (Some jid) f (Some m)
  | ShutDown m => encode_DIS_ShutDown m
  | SignalJob jid s => encode_DIS_SignalJob (Some jid) (Some s)
  | Status id l => encode_DIS_Status (Some id) l
  | MoveJob jid d => encode_DIS_MoveJob (Some jid) (Some d)
  | RunJob jid w r => encode_DIS_RunJob (Some jid) (Some w) r
  | Select l => encode_DIS_attropl l
  | SelStatAttr l want => encode_DIS_attropl l >>? encode_DIS_attrl want
  | Resc rh l => encode_DIS_Resc l rh
  | TrackJob jid h l s => encode_DIS_TrackJob jid h l s
  | RegisterDep o p c d op cost => encode_DIS_Register o p c d op cost
  | JobObit jid s l => encode_DIS_JobObit jid s l
  | CopyFiles j o u g d l => encode_DIS_CopyFiles j o u g d l
  | ReturnFiles j o e => encode_DIS_ReturnFiles j o e
  | PowerState s => encode_DIS_PowerState s
  end.

(** The decoder [dis_request_read] calls for it. *)
Definition decode_body `{Platform} (b : body) : M (Z * indep_request) :=
  match b with
  | QueueJob _ _ _ => decode_DIS_QueueJob
  | JobCred _ _ => decode_DIS_JobCred
  | JobFile _ _ _ _ => decode_DIS_JobFile
  | JobId _ => decode_DIS_JobId
  | Manage _ _ _ _ => decode_DIS_Manage
  | MessageJob _ _ _ => decode_DIS_MessageJob
  | ShutDown _ => decode_DIS_ShutDown
  | SignalJob _ _ => decode_DIS_SignalJob
  | Status _ _ => decode_DIS_Status
  | MoveJob _ _ => decode_DIS_MoveJob
  | RunJob _ _ _ => decode_DIS_RunJob
  | Select _ => let* (rc, l) := decode_DIS_svrattrl in st_ret (rc, rq_select l)
  | SelStatAttr _ _ =>
      let* (_, l) := decode_DIS_svrattrl in
      let* (rc, a) := decode_DIS_svrattrl in
      st_ret (rc, rq_select_status l a)
  | Resc _ _ => decode_DIS_Rescl
  | TrackJob _ _ _ _ => decode_DIS_TrackJob
  | RegisterDep _ _ _ _ _ _ => decode_DIS_Register
  | JobObit _ _ _ => decode_DIS_JobObit
  | CopyFiles _ _ _ _ _ _ => decode_DIS_CopyFiles
  | ReturnFiles _ _ _ => decode_DIS_ReturnFiles
  | PowerState _ => decode_DIS_PowerState
  end.

Definition svr_list_of_attropl (l : list attropl) : list svrattrl :=
  map svrattrl_of (map entry_of_attropl l).

(** The structure the receiver ends up with. *)
Definition view_body (b : body) : indep_request :=
  match b with
  | QueueJob jid destin l => rq_queuejob jid destin (svr_list_of_attropl l)
  | JobCred type cred => rq_jobcred type (Some cred) (zlen cred)
  | JobFile seq which jobid buf => rq_jobfile seq which (zlen buf) jobid (Some buf)
  | JobId jid => rq_commit jid
  | Manage c t n l => rq_manager c t n (svr_list_of_attropl l)
  | MessageJob jid f m => rq_message jid f (Some m)
  | ShutDown m => rq_shutdown m
  | SignalJob jid s => rq_signal jid s
  | Status id l => rq_status id (map svrattrl_of (map entry_of_attrl l))
  | MoveJob jid d => rq_move jid d
  | RunJob jid w r => rq_run jid (Some w) r
  | Select l => rq_select (svr_list_of_attropl l)
  | SelStatAttr l want =>
      rq_select_status (svr_list_of_attropl l) (map svrattrl_of (map entry_of_attrl want))
  | Resc rh l => rq_rescq rh (zlen l) l
  | TrackJob jid h l s => rq_track jid h l s
  | RegisterDep o p c d op cost => rq_register o p c d op cost
  | JobObit jid s l => rq_jobobit jid s (map svrattrl_of (map entry_of_svr l))
  | CopyFiles j o u g d l =>
      rq_cpyfile j o u g d
        (map (fun p => mk_rqfpair (fp_flag p) (fp_local p) (or_empty (fp_rmt p))) l)
  | ReturnFiles j o e => rq_returnfiles j o e
  | PowerState s => rq_powerstate s
  end.

(** Strings that fit the receiver's field, and C [int]s. *)
Definition field (n : Z) (s : list Z) : Prop := nul_free s /\ zlen s <= n.
Definition int_ok (x : Z) : Prop := INT_MIN <= x <= INT_MAX.

#[export] Instance field_dec n s : Decision (field n s).
Proof. unfold field. apply _. Defined.
#[export] Instance int_ok_dec x : Decision (int_ok x).
Proof. unfold int_ok. apply _. Defined.

Definition pair_ok (p : rqfpair) : Prop :=
  int_ok (fp_flag p) /\ (exists s, fp_local p = Some s /\ cstr s) /\
  (forall s, fp_rmt p = Some s -> cstr s).

Definition attropls_ok (l : list attropl) : Prop := Forall valid_attropl l /\ zlen l <= UINT_MAX.

Definition body_ok (b : body) : Prop :=
  match b with
  | QueueJob jid destin l => field PBS_MAXSVRJOBID jid /\ field PBS_MAXDEST destin /\ attropls_ok l
  | JobCred type cred => int_ok type /\ zlen cred <= INT_MAX
  | JobFile seq which jobid buf =>
      int_ok seq /\ int_ok which /\ field PBS_MAXSVRJOBID jobid /\ zlen buf <= INT_MAX
  | JobId jid => field PBS_MAXSVRJOBID jid
  | Manage c t n l => int_ok c /\ int_ok t /\ field PBS_MAXSVRJOBID n /\ attropls_ok l
  | MessageJob jid f m => field PBS_MAXSVRJOBID jid /\ int_ok f /\ cstr m
  | ShutDown m => int_ok m
  | SignalJob jid s => field PBS_MAXSVRJOBID jid /\ field PBS_SIGNAMESZ s
  | Status id l => field MAXID id /\ Forall valid_attrl l /\ zlen l <= UINT_MAX
  | MoveJob jid d => field PBS_MAXSVRJOBID jid /\ field MAXID d
  | RunJob jid w r => field PBS_MAXSVRJOBID jid /\ cstr w /\ 0 <= r <= UINT_MAX
  | Select l => attropls_ok l
  | SelStatAttr l want => attropls_ok l /\ Forall valid_attrl want /\ zlen want <= UINT_MAX
  | Resc rh l => int_ok rh /\ Forall cstr l /\ zlen l <= INT_MAX
  | TrackJob jid h l s =>
      field PBS_MAXSVRJOBID jid /\ int_ok h /\ field PBS_MAXDEST l /\ 0 <= s <= 127
  | RegisterDep o p c d op cost =>
      field PBS_MAXUSER o /\ field PBS_MAXSVRJOBID p /\ field PBS_MAXCLTJOBID c /\
      int_ok d /\ int_ok op /\ LONG_MIN <= cost <= LONG_MAX
  | JobObit jid s l =>
      field PBS_MAXSVRJOBID jid /\ int_ok s /\ Forall valid_svr l /\ zlen l <= UINT_MAX
  | CopyFiles j o u g d l =>
      field PBS_MAXSVRJOBID j /\ field PBS_MAXUSER o /\ field PBS_MAXUSER u /\
      field PBS_MAXGRPN g /\ int_ok d /\ Forall pair_ok l /\ zlen l <= UINT_MAX
  | ReturnFiles j o e => field PBS_MAXSVRJOBID j /\ int_ok o /\ int_ok e
  | PowerState s => 0 <= s <= 65535
  end.

Definition wire_uint (x : Z) : list Z := wire_num c_plus (u32 x).
Definition wire_pair (p : rqfpair) : list Z :=
  wire_uint (fp_flag p) ++ wire_str (default [] (fp_local p)) ++ wire_str (default [] (fp_rmt p)) ++ [].
Definition wire_attropls (l : list attropl) : list Z := wire_entries (map entry_of_attropl l).

(** The bytes between. *)
Definition wire_body (b : body) : list Z :=
  match b with
  | QueueJob jid destin l => wire_str jid ++ wire_str destin ++ wire_attropls l
  | JobCred type cred => wire_uint type ++ wire_str cred
  | JobFile seq which jobid buf =>
      wire_uint seq ++ wire_uint which ++ wire_uint (zlen buf) ++ wire_str jobid ++ wire_str buf ++ []
  | JobId jid => wire_str jid
  | Manage c t n l => wire_uint c ++ wire_uint t ++ wire_str n ++ wire_attropls l
  | MessageJob jid f m => wire_str jid ++ wire_uint f ++ wire_str m ++ []
  | ShutDown m => wire_uint m
  | SignalJob jid s => wire_str jid ++ wire_str s ++ []
  | Status id l => wire_str id ++ wire_entries (map entry_of_attrl l) ++ []
  | MoveJob jid d => wire_str jid ++ wire_str d ++ []
  | RunJob jid w r => wire_str jid ++ wire_str w ++ wire_uint r ++ []
  | Select l => wire_attropls l
  | SelStatAttr l want => wire_attropls l ++ wire_entries (map entry_of_attrl want)
  | Resc rh l => wire_int rh ++ wire_uint (zlen l) ++ concat (map wire_str l)
  | TrackJob jid h l s => wire_str jid ++ wire_uint h ++ wire_str l ++ wire_uint s ++ []
  | RegisterDep o p c d op cost =>
      wire_str o ++ wire_str p ++ wire_str c ++ wire_uint d ++ wire_uint op ++ wire_int cost ++ []
  | JobObit jid s l => wire_str jid ++ wire_int s ++ wire_entries (map entry_of_svr l) ++ []
  | CopyFiles j o u g d l =>
      wire_str j ++ wire_str o ++ wire_str u ++ wire_str g ++ wire_uint d ++
      wire_uint (zlen l) ++ concat (map wire_pair l)
  | ReturnFiles j o e => wire_str j ++ wire_int o ++ wire_int e ++ []
  | PowerState s => wire_uint s
  end.

Section RoundTrip.
Context `{AllocOk}.

Lemma encodes_seq1 (m : M Z) (k : M Z) bs1 bs2 rc :
  encodes m bs1 0 -> encodes k bs2 rc -> encodes (m >>! k) (bs1 ++ bs2) rc.
Proof. intros Hm Hk. by eapply encodes_bind; [exact Hm|]. Qed.

Lemma field_cstr n s : field n s -> n <= INT_MAX -> cstr s.
Proof. intros [? ?] ?. split; [done|lia]. Qed.

Lemma diswui_uint x : encodes (diswui (u32 x)) (wire_uint x) 0.
Proof. apply diswui_encodes. pose proof (u32_range x). unfold UINT_MAX. lia. Qed.

Lemma disrui_uint x : decodes disrui (wire_uint x) (u32 x, 0).
Proof. apply disrui_decodes. pose proof (u32_range x). unfold UINT_MAX. lia. Qed.

Lemma disr_field_decodes n s :
  n < INT_MAX -> field n s -> decodes (disr_field n) (wire_str s) (0, s).
Proof. intros Hn [Hf Hl]. apply disrfst_decodes; (done || lia). Qed.

Lemma diswst_field n s : n <= INT_MAX -> field n s -> encodes (diswst (Some s)) (wire_str s) 0.
Proof. intros Hn Hf. apply diswst_encodes. by eapply field_cstr. Qed.

Lemma int_ok_u32 x : int_ok x -> i32 (u32 x) = x.
Proof. unfold int_ok, INT_MIN, INT_MAX. intros. apply i32_u32. lia. Qed.

Lemma attropls_valid l : attropls_ok l -> valid_entries (map entry_of_attropl l).
Proof.
  intros [Hl Hz]. split; [|unfold zlen in *; by rewrite length_map].
  apply Forall_map. eapply Forall_impl; [|exact Hl]. by intros a [_ ?].
Qed.

Lemma diswuc_char s : 0 <= s <= 127 -> encodes (diswuc (i8 s)) (wire_uint s) 0.
Proof.
  intros Hs. unfold diswuc. replace (i8 s) with s; [apply diswui_uint|].
  symmetry. apply wrap_s_cases; simpl; lia.
Qed.

Lemma disruc_char s : 0 <= s <= 127 -> decodes disruc (wire_uint s) (s, 0).
Proof.
  intros Hs. unfold disruc, disr_small_unsigned.
  set (post := fun r : Z * bool * Z => let '(locret, negate, value) := r in
    if negb (locret =? DIS_SUCCESS) then (0, locret)
    else if negate : bool then (0, DIS_BADSIGN)
    else if 2 ^ 8 - 1 <? value then (2 ^ 8 - 1, DIS_OVERFLOW) else (value, locret)).
  eapply decodes_ext; [|eapply decodes_last with (a := (s, 0));
    [apply (commit_reader_decodes disrsi_start 10 UINT_MAX post _ false s);
      [apply conversion_ui| |]|]].
  - intros w. instantiate (1 := fun '(value, retval) => st_ret (wrap_u 8 value, retval)).
    unfold st_bind. destruct (disrsi_start w) as [[[rc neg] u] w1| |]; [|done..].
    simpl. destruct (negb (rc =? DIS_SUCCESS)); [by destruct (rcommit_ret rc w1)|].
    destruct neg; [by destruct (rcommit_ret DIS_BADSIGN w1)|].
    by destruct (2 ^ 8 - 1 <? u).
  - unfold wire_uint. rewrite u32_small by lia.
    apply (wire_num_numeral 10 UINT_MAX c_plus s); unfold UINT_MAX, ULONG_MAX; lia.
  - change (post (0, false, s)) with (if 2 ^ 8 - 1 <? s then (2 ^ 8 - 1, DIS_OVERFLOW) else (s, 0)).
    change (2 ^ 8 - 1) with 255. by destruct (Z.ltb_spec 255 s); [lia|].
  - simpl. unfold wrap_u. by rewrite Z.mod_small by (simpl; lia).
Qed.

Lemma diswcs_u64 s : zlen s <= INT_MAX -> encodes (diswcs (Some s) (u64 (zlen s))) (wire_str s) 0.
Proof.
  intros Hs. pose proof (zlen_nonneg s). unfold INT_MAX in *.
  rewrite u64_small by lia. by apply diswcs_encodes.
Qed.

(** Splits a sequence of writes and closes its leaves. *)
Ltac enc :=
  first
    [ apply diswui_uint
    | eapply diswst_field; [|eassumption]; done
    | apply diswst_encodes; assumption
    | apply diswsi_encodes; assumption
    | apply diswsl_encodes; split; assumption
    | apply diswcs_u64; assumption
    | apply diswuc_char; split; assumption
    | apply encode_DIS_attropl_encodes; assumption
    | apply encode_DIS_attrl_encodes; assumption
    | apply encode_DIS_svrattrl_encodes; assumption
    | apply encodes_ret
    | apply encodes_seq1; enc
    | apply encodes_seq; enc
    | idtac ].

Lemma encode_rqfpair_encodes p : pair_ok p -> encodes (encode_rqfpair p) (wire_pair p) 0.
Proof.
  intros (Hf & (s & Hl & Hs) & Hr). unfold encode_rqfpair, wire_pair. rewrite Hl. simpl default.
  enc. destruct (fp_rmt p) as [r|]; apply diswst_encodes; [by apply Hr|by split; [constructor|]].
Qed.

Lemma encode_body_encodes b : body_ok b -> encodes (encode_body b) (wire_body b) 0.
Proof.
  destruct b; simpl body_ok; intros; destruct_all;
    repeat match goal with Hx : attropls_ok _ |- _ => destruct Hx end;
    cbn [encode_body wire_body];
    unfold encode_DIS_QueueJob, encode_DIS_JobCred, encode_DIS_JobFile, encode_DIS_JobId,
      encode_DIS_Manage, encode_DIS_MessageJob, encode_DIS_ShutDown, encode_DIS_SignalJob,
      encode_DIS_Status, encode_DIS_MoveJob, encode_DIS_RunJob, encode_DIS_TrackJob, encode_DIS_Resc,
      encode_DIS_Register, encode_DIS_JobObit, encode_DIS_CopyFiles, encode_DIS_ReturnFiles,
      encode_DIS_PowerState, or_empty; enc.
  - apply (encode_each_encodes (fun s => diswst (Some s)) wire_str).
    eapply Forall_impl; [apply diswst_encodes|done].
  - apply (encode_each_encodes encode_rqfpair wire_pair).
    eapply Forall_impl; [apply encode_rqfpair_encodes|done].
  - unfold u16, wrap_u. rewrite Z.mod_small by (simpl; lia).
    unfold wire_uint. rewrite u32_small by lia. apply diswui_encodes. unfold UINT_MAX. lia.
Qed.

(** The counterpart for reads. *)
Ltac dec_leaf :=
  first
    [ apply disrui_uint
    | eapply disr_field_decodes; [|eassumption]; done
    | apply disrst_decodes; assumption
    | apply disrsi_decodes; assumption
    | apply disrsl_decodes; split; assumption
    | apply disrcs_decodes; assumption
    | apply disruc_char; split; assumption
    | apply decode_DIS_svrattrl_decodes; assumption ].
Ltac dec :=
  repeat (eapply decodes_bind; [dec_leaf|]; cbv beta iota; change (negb (0 =? 0)) with false; cbv iota);
  try (eapply decodes_last; [dec_leaf|]; cbv beta iota; change (negb (0 =? 0)) with false; cbv iota;
       rewrite ?int_ok_u32 by assumption; try reflexivity).

Lemma i64_zlen (s : list Z) : zlen s <= INT_MAX -> i64 (zlen s) = zlen s.
Proof. intros. pose proof (zlen_nonneg s). unfold INT_MAX in *. apply i64_small. lia. Qed.

Lemma u32_zlen (s : list Z) : zlen s <= INT_MAX -> u32 (zlen s) = zlen s.
Proof. intros. pose proof (zlen_nonneg s). unfold INT_MAX in *. apply u32_small. lia. Qed.

Lemma i8_small z : -128 <= z < 128 -> i8 z = z.
Proof. intros. apply wrap_s_cases; simpl; lia. Qed.

Lemma attrls_valid l :
  Forall valid_attrl l -> zlen l <= UINT_MAX -> valid_entries (map entry_of_attrl l).
Proof.
  intros Hl Hz. split; [|unfold zlen in *; by rewrite length_map].
  apply Forall_map. eapply Forall_impl; [|exact Hl]. by intros a [_ ?].
Qed.

Lemma svrs_valid l :
  Forall valid_svr l -> zlen l <= UINT_MAX -> valid_entries (map entry_of_svr l).
Proof.
  intros Hl Hz. split; [|unfold zlen in *; by rewrite length_map].
  apply Forall_map. eapply Forall_impl; [|exact Hl]. by intros a (_ & _ & ? & _).
Qed.

Lemma decode_rqfpair_decodes p :
  pair_ok p ->
  decodes decode_rqfpair (wire_pair p)
    (0, Some (mk_rqfpair (fp_flag p) (fp_local p) (or_empty (fp_rmt p))), true).
Proof.
  intros (Hf & (s & Hl & Hs) & Hr). unfold decode_rqfpair, wire_pair.
  rewrite alloc_ok by (unfold ALLOC_MAX, SIZEOF_RQFPAIR; lia). cbn [negb].
  rewrite app_nil_r, Hl. simpl default.
  assert (Hr' : exists r, or_empty (fp_rmt p) = Some r /\ default [] (fp_rmt p) = r /\ cstr r).
  { destruct (fp_rmt p) as [r|]; eexists; (split; [done|]); split; [done| |done|];
      [by apply Hr|by split; [constructor|]]. }
  destruct Hr' as (r & -> & -> & Hc). dec.
Qed.

Lemma wire_pair_nonempty p : wire_pair p <> [].
Proof.
  intros E. apply app_nil in E as [E _]. revert E. apply wire_num_nonempty.
  pose proof (u32_range (fp_flag p)). unfold ULONG_MAX. lia.
Qed.

Lemma wire_str_nonempty s : zlen s <= INT_MAX -> wire_str s <> [].
Proof.
  intros Hl E. apply app_nil in E as [E _]. revert E. apply wire_num_nonempty.
  pose proof (zlen_nonneg s). unfold INT_MAX, ULONG_MAX in *. lia.
Qed.

Lemma decode_DIS_Rescl_decodes rh l :
  int_ok rh -> Forall cstr l -> zlen l <= INT_MAX ->
  decodes decode_DIS_Rescl (wire_int rh ++ wire_uint (zlen l) ++ concat (map wire_str l))
    (0, rq_rescq rh (zlen l) l).
Proof.
  intros Hr Hl Hz. unfold decode_DIS_Rescl. pose proof (zlen_nonneg l). unfold INT_MAX in Hz.
  eapply decodes_bind; [by apply disrsi_decodes|]. cbv beta iota.
  change (negb (0 =? 0)) with false. cbv iota.
  eapply decodes_bind; [apply disrui_uint|]. cbv beta iota zeta.
  change (negb (0 =? 0)) with false. cbv iota.
  rewrite u32_small, i32_small by lia. destruct (Z.eqb_spec (zlen l) 0) as [E|E].
  - destruct l as [|s l]; [apply decodes_ret|]. rewrite zlen_cons in E. pose proof (zlen_nonneg l). lia.
  - cbn [negb]. rewrite u64_small, alloc_ok by (unfold ALLOC_MAX; lia). cbn [negb].
    eapply decodes_last; [apply (read_n_decodes _ wire_str id)|cbv beta iota; by rewrite map_id].
    eapply Forall_impl; [|exact Hl]. intros s [Hn Hs]. split; [by apply wire_str_nonempty|].
    unfold decode_rescl_item. by eapply decodes_last; [by apply disrst_decodes|].
Qed.

Lemma decode_body_decodes b : body_ok b -> decodes (decode_body b) (wire_body b) (0, view_body b).
Proof.
  destruct b; simpl body_ok; intros; destruct_all;
    repeat match goal with Hx : attropls_ok _ |- _ => apply attropls_valid in Hx end;
    cbn [decode_body wire_body view_body]; rewrite ?app_nil_r;
    unfold decode_DIS_QueueJob, decode_DIS_JobCred, decode_DIS_JobFile, decode_DIS_JobId,
      decode_DIS_Manage, decode_DIS_MessageJob, decode_DIS_ShutDown, decode_DIS_SignalJob,
      decode_DIS_Status, decode_DIS_MoveJob, decode_DIS_RunJob, decode_DIS_TrackJob,
      decode_DIS_Register, decode_DIS_JobObit, decode_DIS_CopyFiles, decode_DIS_ReturnFiles,
      decode_DIS_PowerState, wire_attropls, svr_list_of_attropl.
  all: try (by apply decode_DIS_Rescl_decodes).
  all: dec.
  - by rewrite i64_zlen.
  - by rewrite i64_zlen, u32_zlen, Z.eqb_refl.
  - eapply decodes_last; [by apply decode_DIS_svrattrl_decodes, attrls_valid|done].
  - by rewrite u32_small by (unfold UINT_MAX in *; lia).
  - eapply decodes_last; [by apply decode_DIS_svrattrl_decodes, attrls_valid|done].
  - by rewrite i8_small by lia.
  - eapply decodes_last; [by apply decode_DIS_svrattrl_decodes, svrs_valid|done].
  - rewrite int_ok_u32 by assumption. unfold UINT_MAX in *. pose proof (zlen_nonneg pairs).
    rewrite u32_small by lia. eapply decodes_last; [|].
    + apply read_n_decodes. eapply Forall_impl; [|eassumption].
      intros p Hp. split; [apply wire_pair_nonempty|by apply decode_rqfpair_decodes].
    + done.
  - by rewrite int_ok_u32 by (unfold int_ok, INT_MIN, INT_MAX; lia).
Qed.

End RoundTrip.
