(* ===== verification/DisRead.v ===== *)
(** * Reading a request (src/src/server/dis_read.c, incoming_request.c)

    [dis_request_read] decodes the header, dispatches on the request type, decodes
    the body and the extension, and maps every failure to a PBS error number.
    The server has peeked at the protocol type before it is called; the MOM build
    reads it here.  [get_protocol_type] is the peek. *)

From S2P Require Import Prelude CLib TcpDis Codec DisInt DisStr Attrs Requests.
From stdpp Require Import base list numbers option.

Local Open Scope Z_scope.
Local Open Scope st_scope.

Definition PBSE_UNKREQ : Z := 15005.
Definition PBSE_DISPROTO : Z := 15058.
Definition EOF : Z := -1.

(** ** Request types (pbs_batchreqtype_db.h) *)

Definition PBS_BATCH_QueueJob : Z := 1.
Definition PBS_BATCH_JobCred : Z := 2.
Definition PBS_BATCH_jobscript : Z := 3.
Definition PBS_BATCH_RdytoCommit : Z := 4.
Definition PBS_BATCH_Commit : Z := 5.
Definition PBS_BATCH_DeleteJob : Z := 6.
Definition PBS_BATCH_HoldJob : Z := 7.
Definition PBS_BATCH_LocateJob : Z := 8.
Definition PBS_BATCH_Manager : Z := 9.
Definition PBS_BATCH_MessJob : Z := 10.
Definition PBS_BATCH_ModifyJob : Z := 11.
Definition PBS_BATCH_MoveJob : Z := 12.
Definition PBS_BATCH_ReleaseJob : Z := 13.
Definition PBS_BATCH_Rerun : Z := 14.
Definition PBS_BATCH_RunJob : Z := 15.
Definition PBS_BATCH_SelectJobs : Z := 16.
Definition PBS_BATCH_Shutdown : Z := 17.
Definition PBS_BATCH_SignalJob : Z := 18.
Definition PBS_BATCH_StatusJob : Z := 19.
Definition PBS_BATCH_StatusQue : Z := 20.
Definition PBS_BATCH_StatusSvr : Z := 21.
Definition PBS_BATCH_TrackJob : Z := 22.
Definition PBS_BATCH_AsyrunJob : Z := 23.
Definition PBS_BATCH_Rescq : Z := 24.
Definition PBS_BATCH_ReserveResc : Z := 25.
Definition PBS_BATCH_ReleaseResc : Z := 26.
Definition PBS_BATCH_CheckpointJob : Z := 27.
Definition PBS_BATCH_AsyModifyJob : Z := 28.
Definition PBS_BATCH_QueueJob2 : Z := 29.
Definition PBS_BATCH_Commit2 : Z := 30.
Definition PBS_BATCH_jobscript2 : Z := 31.
Definition PBS_BATCH_StageIn : Z := 48.
Definition PBS_BATCH_AuthenUser : Z := 49.
Definition PBS_BATCH_OrderJob : Z := 50.
Definition PBS_BATCH_SelStat : Z := 51.
Definition PBS_BATCH_RegistDep : Z := 52.
Definition PBS_BATCH_ReturnFiles : Z := 53.
Definition PBS_BATCH_CopyFiles : Z := 54.
Definition PBS_BATCH_DelFiles : Z := 55.
Definition PBS_BATCH_JobObit : Z := 56.
Definition PBS_BATCH_MvJobFile : Z := 57.
Definition PBS_BATCH_StatusNode : Z := 58.
Definition PBS_BATCH_Disconnect : Z := 59.
Definition PBS_BATCH_AltAuthenUser : Z := 61.
Definition PBS_BATCH_GpuCtrl : Z := 62.
Definition PBS_BATCH_DeleteReservation : Z := 63.
Definition PBS_BATCH_SelStatAttr : Z := 64.
Definition PBS_BATCH_ChangePowerState : Z := 65.
Definition PBS_BATCH_ModifyNode : Z := 66.
Definition PBS_BATCH_CEILING : Z := 67.

(** The part of [batch_request] that reading fills. *)
Record batch_request := mk_batch_request {
  rq_type : Z; rq_user : list Z; rq_extend : cptr; rq_ind : indep_request }.

Section Ops.
Context `{Platform}.

(** [dis_emsg[rc]] for a log line: the table has an entry for each DIS code. *)
Definition dis_emsg (rc : Z) : M unit :=
  if (0 <=? rc) && (rc <? 13) then st_ret tt else st_ub.

(** The [switch] on the request type; [mom] is the [PBS_MOM] build. *)
Definition decode_request (mom : bool) (t : Z) : option (M (Z * indep_request)) :=
  if is_case t [PBS_BATCH_QueueJob; PBS_BATCH_QueueJob2] then Some decode_DIS_QueueJob
  else if is_case t [PBS_BATCH_JobCred] then Some decode_DIS_JobCred
  else if is_case t [PBS_BATCH_jobscript; PBS_BATCH_jobscript2; PBS_BATCH_MvJobFile]
  then Some decode_DIS_JobFile
  else if is_case t [PBS_BATCH_RdytoCommit; PBS_BATCH_Commit; PBS_BATCH_Commit2; PBS_BATCH_Rerun]
  then Some decode_DIS_JobId
  else if is_case t [PBS_BATCH_DeleteJob; PBS_BATCH_HoldJob; PBS_BATCH_CheckpointJob;
                     PBS_BATCH_ModifyJob; PBS_BATCH_AsyModifyJob]
  then Some decode_DIS_Manage
  else if is_case t [PBS_BATCH_MessJob] then Some decode_DIS_MessageJob
  else if is_case t [PBS_BATCH_Shutdown] then Some decode_DIS_ShutDown
  else if is_case t [PBS_BATCH_SignalJob] then Some decode_DIS_SignalJob
  else if is_case t [PBS_BATCH_StatusJob] then Some decode_DIS_Status
  else if is_case t [PBS_BATCH_GpuCtrl] then Some decode_DIS_GpuCtrl
  else if mom then
    if is_case t [PBS_BATCH_DeleteReservation] then Some (st_ret (0, rq_none))
    else if is_case t [PBS_BATCH_ReturnFiles] then Some decode_DIS_ReturnFiles
    else if is_case t [PBS_BATCH_CopyFiles; PBS_BATCH_DelFiles] then Some decode_DIS_CopyFiles
    else if is_case t [PBS_BATCH_ChangePowerState] then Some decode_DIS_PowerState
    else None
  else
    if is_case t [PBS_BATCH_LocateJob] then Some decode_DIS_JobId
    else if is_case t [PBS_BATCH_ModifyNode; PBS_BATCH_Manager; PBS_BATCH_ReleaseJob]
    then Some decode_DIS_Manage
    else if is_case t [PBS_BATCH_MoveJob; PBS_BATCH_OrderJob] then Some decode_DIS_MoveJob
    else if is_case t [PBS_BATCH_RunJob; PBS_BATCH_AsyrunJob; PBS_BATCH_StageIn]
    then Some decode_DIS_RunJob
    else if is_case t [PBS_BATCH_SelectJobs; PBS_BATCH_SelStat]
    then Some (let* (rc, l) := decode_DIS_svrattrl in st_ret (rc, rq_select l))
    else if is_case t [PBS_BATCH_SelStatAttr]
    then Some (let* (_, l) := decode_DIS_svrattrl in
               let* (rc, a) := decode_DIS_svrattrl in
               st_ret (rc, rq_select_status l a))
    else if is_case t [PBS_BATCH_StatusNode; PBS_BATCH_StatusQue; PBS_BATCH_StatusSvr]
    then Some decode_DIS_Status
    else if is_case t [PBS_BATCH_TrackJob] then Some decode_DIS_TrackJob
    else if is_case t [PBS_BATCH_Rescq; PBS_BATCH_ReserveResc; PBS_BATCH_ReleaseResc]
    then Some decode_DIS_Rescl
    else if is_case t [PBS_BATCH_RegistDep] then Some decode_DIS_Register
    else if is_case t [PBS_BATCH_AuthenUser] then Some decode_DIS_Authen
    else if is_case t [PBS_BATCH_AltAuthenUser] then Some decode_DIS_AltAuthen
    else if is_case t [PBS_BATCH_JobObit] then Some decode_DIS_JobObit
    else None.

(** The body of [dis_request_read] once the header is known to be good. *)
Definition read_body (mom : bool) (t : Z) (user : list Z) : M (Z * batch_request) :=
  if t =? PBS_BATCH_Disconnect then
    st_ret (PBSE_SOCKET_CLOSE, mk_batch_request t user None rq_none)
  else match decode_request mom t with
  | None => st_ret (PBSE_UNKREQ, mk_batch_request t user None rq_none)
  | Some decode =>
      let* (rc, ind) := decode in
      if rc =? DIS_SUCCESS then
        let* (rc, ext) := decode_DIS_ReqExtend in
        if negb (rc =? 0) then
          dis_emsg rc >>> st_ret (PBSE_DISPROTO, mk_batch_request t user ext ind)
        else st_ret (0, mk_batch_request t user ext ind)
      else if negb (rc =? PBSE_UNKREQ) then
        dis_emsg rc >>> st_ret (PBSE_DISPROTO, mk_batch_request t user None ind)
      else st_ret (rc, mk_batch_request t user None ind)
  end.

Definition dis_request_read (mom : bool) : M (Z * batch_request) :=
  (if mom then disrui else st_ret (PBS_BATCH_PROT_TYPE, 0)) >>>
  let* (rc, proto_ver, t, user) := decode_DIS_ReqHdr in
  let request := mk_batch_request t user None rq_none in
  if negb (rc =? 0) then
    if rc =? DIS_EOF then st_ret (EOF, request)
    else dis_emsg rc >>> st_ret (PBSE_DISPROTO, request)
  else if negb (proto_ver =? PBS_BATCH_PROT_VER) then st_ret (PBSE_DISPROTO, request)
  else if (t <? 0) || (PBS_BATCH_CEILING <=? t) then st_ret (PBSE_DISPROTO, request)
  else read_body mom t user.

(** [get_protocol_type]; [busy] is the thread pool's answer, and the second peek is
    made when the first timed out and the configured timeout is the longer one. *)
Definition SHORT_TIMEOUT : Z := 5.

Definition get_protocol_type (incoming_timeout : Z) (busy : bool) : M (Z * Z) :=
  let timeout := if incoming_timeout <? SHORT_TIMEOUT then u32 incoming_timeout else SHORT_TIMEOUT in
  let* (pt, rc) := disrui_peek in
  let* w := st_get in
  if negb (IsTimeout (chan w) =? 0) && (timeout <? incoming_timeout) && negb busy then
    st_modify (fun w => set_errs 0 (ReadErrno (chan w)) (SelectErrno (chan w)) w) >>>
    let* (pt, rc) := disrui_peek in st_ret (i32 pt, rc)
  else st_ret (i32 pt, rc).

End Ops.

(** ** Whole requests *)

Definition wire_ext (ext : cptr) : list Z :=
  match ext with Some s => wire_num c_plus 1 ++ wire_str s | None => wire_num c_plus 0 end.

Definition ext_ok (ext : cptr) : Prop := forall s, ext = Some s -> cstr s /\ s <> [].

Definition wire_hdr (t : Z) (user : list Z) : list Z :=
  wire_num c_plus PBS_BATCH_PROT_VER ++ wire_uint t ++ wire_str user.

Definition wire_request (t : Z) (user : list Z) (b : body) (ext : cptr) : list Z :=
  wire_num c_plus PBS_BATCH_PROT_TYPE ++ wire_hdr t user ++ wire_body b ++ wire_ext ext.

(** A client's message: header, body, extension. *)
Definition send_request `{Platform} (t : Z) (user : list Z) (b : body) (ext : cptr) : M Z :=
  encode_DIS_ReqHdr t (Some user) >>? encode_body b >>? encode_DIS_ReqExtend ext.

(** A server's: [process_pbs_server_port] asks [get_protocol_type], whose peek leaves
    the number in the buffer, and has [process_request] read the request. *)
Definition server_read `{Platform} (incoming_timeout : Z) (busy : bool) :
    M (Z * (Z * batch_request)) :=
  let* (pt, _) := get_protocol_type incoming_timeout busy in
  let* (rc, rq) := dis_request_read false in
  st_ret (rc, (pt, rq)).

(** The same with a single peek, which is all it takes when nothing times out. *)
Definition peek_read `{Platform} : M (Z * (Z * batch_request)) :=
  let* (pt, _) := disrui_peek in
  let* (rc, rq) := dis_request_read false in
  st_ret (rc, (pt, rq)).

Section RoundTrip.
Context `{AllocOk}.

Lemma encode_hdr_encodes t user :
  field PBS_MAXUSER user ->
  encodes (encode_DIS_ReqHdr t (Some user)) (wire_num c_plus PBS_BATCH_PROT_TYPE ++ wire_hdr t user) 0.
Proof.
  intros Hu. unfold encode_DIS_ReqHdr, wire_hdr.
  repeat apply encodes_seq; [by apply diswui_encodes|by apply diswui_encodes|apply diswui_uint|].
  eapply diswst_field; [|exact Hu]. done.
Qed.

Lemma encode_ext_encodes ext : ext_ok ext -> encodes (encode_DIS_ReqExtend ext) (wire_ext ext) 0.
Proof.
  intros He. unfold encode_DIS_ReqExtend, wire_ext.
  destruct ext as [s|]; [|by apply diswui_encodes].
  destruct (He s eq_refl) as [[Hn Hl] Hne]. destruct s as [|c s]; [done|].
  assert (c <> 0) by (by inversion Hn). destruct (Z.eqb_spec c 0); [done|].
  apply encodes_seq; [by apply diswui_encodes|]. by apply diswst_encodes.
Qed.

Lemma send_request_encodes t user b ext :
  field PBS_MAXUSER user -> body_ok b -> ext_ok ext ->
  encodes (send_request t user b ext) (wire_request t user b ext) 0.
Proof.
  intros Hu Hb He. unfold send_request, wire_request. rewrite app_assoc.
  apply encodes_seq; [by apply encode_hdr_encodes|].
  apply encodes_seq; [by apply encode_body_encodes|by apply encode_ext_encodes].
Qed.

Lemma decode_ext_decodes ext : ext_ok ext -> decodes decode_DIS_ReqExtend (wire_ext ext) (0, ext).
Proof.
  intros He. unfold decode_DIS_ReqExtend, wire_ext. destruct ext as [s|].
  - destruct (He s eq_refl) as [Hs _].
    eapply decodes_bind; [by apply disrui_decodes|]. cbv beta iota.
    change (negb (i32 1 =? 0)) with true. change (0 =? 0) with true. cbv iota.
    by eapply decodes_last; [by apply disrst_decodes|].
  - by eapply decodes_last; [by apply disrui_decodes|].
Qed.

(** Header fields after the version. *)
Lemma decode_type_user t user :
  int_ok t -> field PBS_MAXUSER user ->
  decodes (let* (rq_type, rc) := disrui in
           if negb (rc =? 0) then st_ret (rc, PBS_BATCH_PROT_VER, i32 rq_type, [])
           else let* (rc, user) := disr_field PBS_MAXUSER in
                st_ret (rc, PBS_BATCH_PROT_VER, i32 rq_type, user))
    (wire_uint t ++ wire_str user) (0, PBS_BATCH_PROT_VER, t, user).
Proof.
  intros Ht Hu. eapply decodes_bind; [apply disrui_uint|]. cbv beta iota.
  change (negb (0 =? 0)) with false. cbv iota.
  eapply decodes_last; [by apply disr_field_decodes|]. cbv beta iota. by rewrite int_ok_u32.
Qed.

Lemma read_body_decodes mom t user d bs ind ext :
  decode_request mom t = Some d -> t <> PBS_BATCH_Disconnect -> decodes d bs (0, ind) -> ext_ok ext ->
  decodes (read_body mom t user) (bs ++ wire_ext ext) (0, mk_batch_request t user ext ind).
Proof.
  intros Hd Ht Hb He. unfold read_body. destruct (Z.eqb_spec t PBS_BATCH_Disconnect); [done|].
  rewrite Hd. eapply decodes_bind; [exact Hb|]. cbv beta iota.
  change (0 =? DIS_SUCCESS) with true. cbv iota.
  by eapply decodes_last; [by apply decode_ext_decodes|].
Qed.

Lemma decode_hdr_decodes t user :
  int_ok t -> field PBS_MAXUSER user ->
  decodes decode_DIS_ReqHdr (wire_hdr t user) (0, PBS_BATCH_PROT_VER, t, user).
Proof.
  intros Ht Hu. unfold decode_DIS_ReqHdr, wire_hdr.
  eapply decodes_bind; [by apply disrui_decodes|]. by apply decode_type_user.
Qed.

(** The types [decode_request] serves are in range and never a disconnect. *)
Lemma decode_request_range mom t d :
  decode_request mom t = Some d -> 0 <= t < PBS_BATCH_CEILING /\ t <> PBS_BATCH_Disconnect.
Proof.
  unfold decode_request, is_case. cbn [existsb]. intros Hd.
  assert (Hin : In t [1;2;3;4;5;6;7;8;9;10;11;12;13;14;15;16;17;18;19;20;21;22;23;24;25;26;27;28;29;
    30;31;48;49;50;51;52;53;54;55;56;57;58;61;62;63;64;65;66]).
  { revert Hd. destruct mom;
    repeat match goal with
    | |- context [t =? ?c] => destruct (Z.eqb_spec t c) as [->|]; [intros _; by vm_compute; tauto|]
    end; simpl; discriminate. }
  unfold PBS_BATCH_CEILING, PBS_BATCH_Disconnect. simpl in Hin. lia.
Qed.

Lemma after_hdr_decodes mom t user d bs ind ext :
  decode_request mom t = Some d -> decodes d bs (0, ind) -> ext_ok ext ->
  decodes
    (let request := mk_batch_request t user None rq_none in
     if negb (0 =? 0) then
       if 0 =? DIS_EOF then st_ret (EOF, request)
       else dis_emsg 0 >>> st_ret (PBSE_DISPROTO, request)
     else if negb (PBS_BATCH_PROT_VER =? PBS_BATCH_PROT_VER) then st_ret (PBSE_DISPROTO, request)
     else if (t <? 0) || (PBS_BATCH_CEILING <=? t) then st_ret (PBSE_DISPROTO, request)
     else read_body mom t user)
    (bs ++ wire_ext ext) (0, mk_batch_request t user ext ind).
Proof.
  intros Hd Hb He. destruct (decode_request_range mom t _ Hd) as [Hr Ht].
  change (negb (0 =? 0)) with false. change (negb (PBS_BATCH_PROT_VER =? PBS_BATCH_PROT_VER)) with false.
  cbv beta iota zeta. destruct (Z.ltb_spec t 0), (Z.leb_spec PBS_BATCH_CEILING t); try lia.
  by eapply read_body_decodes.
Qed.

Lemma mom_read_decodes t user b ext :
  decode_request true t = Some (decode_body b) -> field PBS_MAXUSER user -> body_ok b -> ext_ok ext ->
  decodes (dis_request_read true) (wire_request t user b ext)
    (0, mk_batch_request t user ext (view_body b)).
Proof.
  intros Hd Hu Hb He. destruct (decode_request_range true t _ Hd) as [Hr _].
  unfold dis_request_read, wire_request. eapply decodes_bind; [by apply disrui_decodes|].
  eapply decodes_bind;
    [apply decode_hdr_decodes; [|done]|by eapply after_hdr_decodes; [|apply decode_body_decodes|]].
  unfold int_ok, INT_MIN, INT_MAX, PBS_BATCH_CEILING in *. lia.
Qed.

(** *** With uncommitted bytes behind the cursor *)

Definition decodes_after {A} (p : list Z) (m : M A) (bs : list Z) (a : A) : Prop :=
  forall w rest, wf_read w -> rback w = p -> rfront w = bs ++ rest ->
  exists w', m w = Ret a w' /\ wf_read w' /\ rback w' = [] /\ rfront w' = rest
    /\ rframe w w' /\ rmeasure w = (length p + length bs + rmeasure w')%nat.

Lemma disrui_after p v :
  0 <= v <= UINT_MAX -> decodes_after p disrui (wire_num c_plus v) (v, 0).
Proof.
  intros Hv w rest Hw Hb Hf.
  destruct (disrsi_start_complete w rest (wire_num c_plus v) false v Hw) as (w1 & E & Hs & Hr);
    [apply (wire_num_numeral 10 UINT_MAX c_plus v); unfold UINT_MAX, ULONG_MAX in *; lia|done|].
  destruct (rcommit_ret_ok 0 w1 (rs_wf _ _ _ Hs)) as (w2 & E2 & Hw2 & Hb2 & Hf2 & Hr2 & Hm2).
  exists w2. unfold disrui. rewrite disr_unsigned_eq, (st_bind_ret _ _ _ _ _ E). simpl.
  rewrite (st_bind_ret _ _ _ _ _ E2). destruct Hs as [_ Hsb Hsf Hsm _ _].
  rewrite Hsb, Hb, length_app in Hm2. do 3 (split; [done|]). split; [by rewrite Hr2|].
  split; [by eapply rframe_trans|lia].
Qed.

Lemma decodes_after_bind {A B} p (m : M A) (k : A -> M B) bs1 bs2 a b :
  decodes_after p m bs1 a -> decodes (k a) bs2 b -> decodes_after p (st_bind m k) (bs1 ++ bs2) b.
Proof.
  intros Hm Hk w rest Hw Hb Hf. rewrite <- app_assoc in Hf.
  destruct (Hm w _ Hw Hb Hf) as (w1 & E1 & Hw1 & Hb1 & Hf1 & Hfr1 & Hm1).
  destruct (Hk w1 _ Hw1 Hb1 Hf1) as (w2 & E2 & Hw2 & Hb2 & Hf2 & Hfr2 & Hm2).
  exists w2. rewrite (st_bind_ret _ _ _ _ _ E1). do 4 (split; [done|]).
  split; [by eapply rframe_trans|]. rewrite length_app. lia.
Qed.

(** A peeked number stays in the buffer until the next reader commits it. *)
Lemma peek_decodes {B} (k : Z * Z -> M B) v bs b :
  0 <= v <= UINT_MAX -> decodes_after (wire_num c_plus v) (k (v, 0)) bs b ->
  decodes (let* r := disrui_peek in k r) (wire_num c_plus v ++ bs) b.
Proof.
  intros Hv Hk w rest Hw Hb Hf. rewrite <- app_assoc in Hf.
  destruct (disrsi_start_complete w (bs ++ rest) (wire_num c_plus v) false v Hw) as (w1 & E & Hs & Hr);
    [apply (wire_num_numeral 10 UINT_MAX c_plus v); unfold UINT_MAX, ULONG_MAX in *; lia|done|].
  destruct Hs as [Hw1 Hsb Hsf Hsm _ _]. rewrite Hb in Hsb.
  destruct (Hk w1 rest Hw1 Hsb Hr) as (w2 & E2 & Hw2 & Hb2 & Hf2 & Hfr2 & Hm2).
  exists w2. unfold disrui_peek. unfold st_bind at 1. rewrite (st_bind_ret _ _ _ _ _ E).
  simpl. split; [done|]. do 3 (split; [done|]). split; [by eapply rframe_trans|].
  rewrite length_app. lia.
Qed.

Lemma decodes_after_ext {A} p (m m' : M A) bs a :
  (forall w, m' w = m w) -> decodes_after p m bs a -> decodes_after p m' bs a.
Proof. intros He Hm w rest ???. rewrite He. by apply Hm. Qed.

Lemma server_reads t user d bs ind ext :
  decode_request false t = Some d -> field PBS_MAXUSER user -> decodes d bs (0, ind) -> ext_ok ext ->
  decodes peek_read
    (wire_num c_plus PBS_BATCH_PROT_TYPE ++ wire_hdr t user ++ bs ++ wire_ext ext)
    (0, (PBS_BATCH_PROT_TYPE, mk_batch_request t user ext ind)).
Proof.
  intros Hd Hu Hb He. destruct (decode_request_range false t _ Hd) as [Hr _].
  assert (Ht : int_ok t) by (unfold int_ok, INT_MIN, INT_MAX, PBS_BATCH_CEILING in *; lia).
  unfold peek_read. apply peek_decodes; [done|]. cbv beta iota.
  rewrite <- (app_nil_r (wire_hdr t user ++ _)).
  apply decodes_after_bind with (a := (0, mk_batch_request t user ext ind)); [|apply decodes_ret].
  eapply decodes_after_ext; [intros; unfold dis_request_read, st_bind at 1, st_ret at 1; reflexivity|].
  apply decodes_after_bind with (a := (0, PBS_BATCH_PROT_VER, t, user));
    [|by eapply after_hdr_decodes]. unfold decode_DIS_ReqHdr, wire_hdr.
  eapply decodes_after_bind; [by apply disrui_after|]. by apply decode_type_user.
Qed.

Lemma peek_read_decodes t user b ext :
  decode_request false t = Some (decode_body b) -> field PBS_MAXUSER user -> body_ok b -> ext_ok ext ->
  decodes peek_read (wire_request t user b ext)
    (0, (PBS_BATCH_PROT_TYPE, mk_batch_request t user ext (view_body b))).
Proof. intros Hd Hu Hb He. eapply server_reads; [done|done| |done]. by apply decode_body_decodes. Qed.

End RoundTrip.

(** ** Requests across the network *)

(** A request as a client issues it, and what its receiver makes of it. *)
Record outgoing := mk_outgoing {
  o_type : Z; o_user : list Z; o_body : body; o_ext : cptr }.

Definition send `{Platform} (o : outgoing) : M Z :=
  send_request (o_type o) (o_user o) (o_body o) (o_ext o).
Definition wire_outgoing (o : outgoing) : list Z :=
  wire_request (o_type o) (o_user o) (o_body o) (o_ext o).
Definition received (o : outgoing) : batch_request :=
  mk_batch_request (o_type o) (o_user o) (o_ext o) (view_body (o_body o)).

(** The server ([mom = false]) or the MOM decodes the type as this kind of body, and
    the fields are within their limits. *)
Definition serves `{Platform} (mom : bool) (o : outgoing) : Prop :=
  decode_request mom (o_type o) = Some (decode_body (o_body o)) /\
  field PBS_MAXUSER (o_user o) /\ body_ok (o_body o) /\ ext_ok (o_ext o).

#[export] Instance peek_codec `{AllocOk} :
  Codec send peek_read (serves false) (fun o => (PBS_BATCH_PROT_TYPE, received o)).
Proof.
  refine {| wire := wire_outgoing |}; intros o (Hd & Hu & Hb & He).
  - by apply send_request_encodes.
  - by apply peek_read_decodes.
Defined.

(** *** A conversion that succeeds has not timed out *)

(** Started with no timeout pending, [m] leaves none or returns a result of [bad]. *)
Definition quiet {A} (m : M A) (bad : A -> Prop) : Prop :=
  forall w a w', IsTimeout (chan w) = 0 -> m w = Ret a w' -> IsTimeout (chan w') = 0 \/ bad a.

(** [m] returns only results of [P]. *)
Definition only {A} (m : M A) (P : A -> Prop) : Prop := forall w a w', m w = Ret a w' -> P a.

Lemma quiet_bind_only {A B} (m : M A) (k : A -> M B) (P R : A -> Prop) (Q : B -> Prop) :
  quiet m P -> only m R -> (forall a, R a -> quiet (k a) Q) -> (forall a, P a -> only (k a) Q) ->
  quiet (st_bind m k) Q.
Proof.
  intros Hm Hr Hk Hp w b w2 Hw. unfold st_bind. destruct (m w) as [a w1| |] eqn:E; [|done..].
  intros Ek. destruct (Hm _ _ _ Hw E) as [H1|H1]; [|right; by eapply Hp].
  eapply Hk; [by eapply Hr|exact H1|exact Ek].
Qed.

Lemma quiet_bind {A B} (m : M A) (k : A -> M B) (P : A -> Prop) (Q : B -> Prop) :
  quiet m P -> (forall a, quiet (k a) Q) -> (forall a, P a -> only (k a) Q) -> quiet (st_bind m k) Q.
Proof. intros Hm Hk. by apply (quiet_bind_only m k P (fun _ => True)). Qed.

Lemma only_ret {A} (a : A) P : P a -> only (st_ret a) P.
Proof. by intros HP w a' w' [= <- _]. Qed.

Lemma quiet_ret {A} (a : A) Q : quiet (st_ret a) Q.
Proof. intros w a' w' Hw [= _ <-]. by left. Qed.

Lemma quiet_get Q : quiet st_get Q.
Proof. intros w a w' Hw [= _ <-]. by left. Qed.

Lemma quiet_lift {A} (o : option A) Q : quiet (st_lift o) Q.
Proof. destruct o; [apply quiet_ret|done]. Qed.

Lemma quiet_st_modify f Q :
  (forall w, IsTimeout (chan w) = 0 -> IsTimeout (chan (f w)) = 0) -> quiet (st_modify f) Q.
Proof. intros Hf w a w' Hw [= _ <-]. left. by apply Hf. Qed.

Lemma quiet_ub {A} (Q : A -> Prop) : quiet st_ub Q.
Proof. done. Qed.

(** Steps that never time out. *)
Lemma quiet_pure {A B} (m : M A) (k : A -> M B) Q :
  quiet m (fun _ => False) -> (forall a, quiet (k a) Q) -> quiet (st_bind m k) Q.
Proof. intros Hm Hk. by eapply quiet_bind; [exact Hm|exact Hk|]. Qed.

Ltac quiet_step :=
  first
    [ apply quiet_ret | apply quiet_get | apply quiet_lift | apply quiet_ub
    | apply quiet_st_modify; done
    | apply quiet_pure; [by quiet_step|intros]
    | match goal with
      | |- quiet (if ?b then _ else _) _ => destruct b
      | |- quiet (match ?x with _ => _ end) _ => destruct x
      end ].

Section Quiet.
Context `{Platform}.

Lemma tcp_read_quiet rl al : quiet (tcp_read rl al) (fun r => fst (fst r) <> PBSE_NONE).
Proof.
  unfold tcp_read. do 3 quiet_step. cbv zeta.
  intros w r w2 Hw. unfold socket_read, st_bind at 1.
  destruct (net_in w) as [|[bs|e] l].
  - intros [= <- <-]. by right.
  - assert (Hq : forall m, quiet m (fun r : Z * Z * Z => r.1.1 <> PBSE_NONE) ->
      m (set_net_in l w) = Ret r w2 -> IsTimeout (chan w2) = 0 \/ r.1.1 <> PBSE_NONE)
      by (intros m Hm; by apply Hm). apply Hq. repeat quiet_step.
  - destruct e; intros [= <- <-]; (by left) || by right.
Qed.

Lemma tcp_gets_loop_quiet fuel ct dr da :
  quiet (tcp_gets_loop fuel ct dr da) (fun r => fst r < 0).
Proof.
  revert dr da. induction fuel as [|fuel IH]; intros dr da; [done|]. cbn [tcp_gets_loop].
  destruct (u64 da <? ct); [|repeat quiet_step].
  eapply quiet_bind; [apply tcp_read_quiet| |].
  - intros [[rc r] a]. destruct (rc =? PBSE_NONE); [apply IH|apply quiet_ret].
  - intros [[rc r] a] Hrc. simpl in Hrc. destruct (Z.eqb_spec rc PBSE_NONE); [done|].
    apply only_ret. destruct (r =? 0); simpl; lia.
Qed.

Lemma tcp_gets_quiet ct : quiet (tcp_gets ct) (fun r => fst r < 0).
Proof. unfold tcp_gets. quiet_step. apply tcp_gets_loop_quiet. Qed.

Lemma tcp_getc_quiet : quiet tcp_getc (fun c => c < 0).
Proof.
  unfold tcp_getc. eapply quiet_bind; [apply tcp_gets_quiet| |].
  - intros [rc l]. repeat quiet_step.
  - intros [rc l] Hrc. simpl in Hrc. destruct (Z.ltb_spec rc 0); [by apply only_ret|lia].
Qed.

(** A count that passed the test against [DIS_BUFSIZ] is no error code of [tcp_gets]. *)
Lemma disr_value_quiet wrap MAX maxd lim neg v count :
  0 <= count < DIS_BUFSIZ ->
  quiet (disr_value wrap MAX maxd lim neg v count) (fun r => fst (fst r) <> DIS_SUCCESS).
Proof.
  intros Hc. unfold disr_value. eapply quiet_bind; [apply tcp_gets_quiet| |]; intros [n l].
  - quiet_step; [quiet_step|]. quiet_step; [quiet_step|]. apply quiet_pure;
      [unfold over_limit; repeat quiet_step|intros big; repeat quiet_step].
  - simpl. intros Hn. unfold DIS_BUFSIZ in Hc. rewrite i32_small by lia.
    destruct (Z.eqb_spec n count); [lia|by apply only_ret].
Qed.

Lemma disr_count_quiet wrap maxd lim c count :
  0 <= count < DIS_BUFSIZ -> quiet (disr_count wrap maxd lim c count) (fun r => r = inl DIS_EOD).
Proof.
  intros Hc. unfold disr_count. destruct (Z.ltb_spec 1 count); [|quiet_step].
  eapply quiet_bind; [apply tcp_gets_quiet| |]; intros [n l].
  - quiet_step; [quiet_step|]. quiet_step; [quiet_step|]. apply quiet_pure;
      [unfold over_limit; repeat quiet_step|intros big; repeat quiet_step].
  - simpl. intros Hn. unfold DIS_BUFSIZ in Hc. rewrite i32_small by lia.
    destruct (Z.eqb_spec n (count - 1)); [lia|by apply only_ret].
Qed.

Lemma digit_loop_nonneg wrap s acc v :
  (forall z, 0 <= wrap z) -> 0 <= acc -> digit_loop wrap acc s = Some v -> 0 <= v.
Proof.
  intros Hw. revert acc. induction s as [|c s IH]; intros acc Ha; [by intros [= <-]|].
  simpl. destruct (is_digit c); [|done]. by apply IH.
Qed.

Lemma disr_count_nonneg wrap maxd lim c count :
  (forall z, 0 <= wrap z) -> c_0 < c ->
  only (disr_count wrap maxd lim c count) (fun r => forall n, r = inr n -> 0 <= n).
Proof.
  intros Hw Hc w r w' E n ->. revert E. unfold disr_count. destruct (1 <? count).
  - unfold st_bind. destruct (tcp_gets (count - 1) w) as [[k l] w1| |]; [|done..].
    destruct (negb _); [done|]. destruct (maxd <? count); [done|].
    match goal with |- match ?m with _ => _ end = _ -> _ => destruct m as [[|] w2| |] end; try done.
    destruct (digit_loop wrap (c - c_0) l) eqn:Ed; [|done]. intros [= <- _].
    eapply digit_loop_nonneg; [done| |done]. lia.
  - intros [= <- _]. lia.
Qed.

Lemma disr_switch_quiet wrap MAX lim_of again neg v count :
  0 <= count < DIS_BUFSIZ -> (forall z, 0 <= wrap z) ->
  (forall n, 0 <= n -> quiet (again n) (fun r => fst (fst r) <> DIS_SUCCESS)) ->
  quiet (disr_switch wrap MAX lim_of again neg v count) (fun r => fst (fst r) <> DIS_SUCCESS).
Proof.
  intros Hc Hw Ha. unfold disr_switch. eapply quiet_bind; [apply tcp_getc_quiet| |]; intros c.
  - quiet_step. destruct (lim_of (statics a)) as [maxd lim].
    quiet_step; [by apply disr_value_quiet|]. quiet_step; [quiet_step|].
    destruct (Z.ltb_spec c_0 c), (c <=? c_9); cbn [andb]; [|repeat quiet_step..].
    eapply quiet_bind_only; [by apply disr_count_quiet|by apply disr_count_nonneg| |].
    + intros [rc|n] Hn; [quiet_step|by apply Ha, Hn].
    + intros ? ->. by apply only_ret.
  - intros Hn w r w' E. simpl in Hn. revert E. unfold st_bind, st_get. destruct (lim_of (statics w)) as [maxd lim].
    unfold c_minus, c_plus, c_0, c_9.
    destruct (Z.eqb_spec c 45), (Z.eqb_spec c 43), (Z.eqb_spec c 48), (Z.ltb_spec 48 c); try lia.
    cbn [orb andb]. destruct (c =? -1), (c =? -2); intros [= <- _]; discriminate.
Qed.

Lemma disiui_quiet Q : quiet disiui_ Q.
Proof. unfold disiui_. repeat quiet_step. Qed.

Lemma disrsi_loop_quiet fuel neg v count :
  0 <= count -> quiet (disrsi_loop fuel neg v count) (fun r => fst (fst r) <> DIS_SUCCESS).
Proof.
  revert count. induction fuel as [|fuel IH]; intros count Hc; [done|]. cbn [disrsi_loop].
  quiet_step; [quiet_step|]. quiet_step. apply quiet_pure.
  { quiet_step; [apply disiui_quiet|quiet_step]. }
  intros _. destruct (Z.ltb_spec (DIS_BUFSIZ - 1) count); [quiet_step|].
  apply disr_switch_quiet; [lia| |exact IH]. intros z. apply u32_range.
Qed.

(** A peek that returns a number has not timed out, and then [get_protocol_type] makes
    no second one. *)
Lemma disrui_peek_quiet : quiet disrui_peek (fun r => fst r = 0).
Proof.
  unfold disrui_peek.
  eapply quiet_bind; [intros w a w'; by apply (disrsi_loop_quiet (S (rmeasure w)))| |].
  - intros [[rc neg] v]. quiet_step.
  - intros [[rc neg] v] Hrc. apply only_ret. simpl in Hrc.
    by destruct (Z.eqb_spec rc DIS_SUCCESS).
Qed.

Lemma server_read_peeks incoming_timeout busy w rc rq w' :
  IsTimeout (chan w) = 0 -> peek_read w = Ret (rc, (PBS_BATCH_PROT_TYPE, rq)) w' ->
  server_read incoming_timeout busy w = Ret (rc, (PBS_BATCH_PROT_TYPE, rq)) w'.
Proof.
  intros Hw. unfold peek_read, server_read, get_protocol_type, st_bind, st_get.
  destruct (disrui_peek w) as [[pt prc] w1| |] eqn:E; [|done..].
  destruct (dis_request_read false w1) as [[rc1 rq1] w2| |] eqn:Er; [|done..].
  intros [= -> -> -> ->]. destruct (disrui_peek_quiet w _ w1 Hw E) as [->|]; [|done].
  change (negb (0 =? 0)) with false. cbv beta iota zeta delta [andb st_ret]. by rewrite Er.
Qed.
End Quiet.

#[export] Instance mom_codec `{AllocOk} : Codec send (dis_request_read true) (serves true) received.
Proof.
  refine {| wire := wire_outgoing |}; intros o (Hd & Hu & Hb & He).
  - by apply send_request_encodes.
  - by apply mom_read_decodes.
Defined.

Section Requests.
Context `{AllocOk}.

(** C1: a request reaches the server intact.  Let [o] be a request of one of the kinds of
    [body] of a type the server serves ([serves]), its strings within the receiver's fields
    and its wire image [deliverable].  Its encoders return 0 on a fresh channel; unless a
    write fails outright the flush returns 0 and has sent exactly the request.  A server
    with a fresh channel whose kernel delivers those bytes, cut in any way and followed by
    anything [deliverable], learns the protocol type from [get_protocol_type], whatever the
    configured timeout, and reads the request with code 0, its type, user, fields and
    extension as sent, and nothing more.  [AuthenUser], which trqauthd prints as a text,
    [AltAuthenUser] and [GpuCtrl] are no kinds of [body]. *)
Theorem request_reaches_server o fdc fds chc chs wrc rds incoming_timeout busy :
  serves false o -> deliverable (wire_outgoing o) ->
  DIS_tcp_setup fdc = Some chc -> DIS_tcp_setup fds = Some chs ->
  crosses send (server_read incoming_timeout busy) o (wire_outgoing o)
    (0, (PBS_BATCH_PROT_TYPE, received o)) chc chs wrc rds.
Proof.
  intros Ho Hd Hc Hs. apply (crosses_mono send peek_read).
  - intros ws. apply server_read_peeks. destruct (setup_fresh fds chs Hs) as (buf & [-> _ _]). done.
  - exact (codec_crosses send peek_read (serves false)
      (fun o => (PBS_BATCH_PROT_TYPE, received o)) o fdc fds chc chs wrc rds Ho Hd Hc Hs).
Qed.

(** and so does a request a server sends to the MOM, whose build of
    [dis_request_read] reads the protocol type itself. *)
Theorem request_reaches_mom o fdc fds chc chs wrc rds :
  serves true o -> deliverable (wire_outgoing o) ->
  DIS_tcp_setup fdc = Some chc -> DIS_tcp_setup fds = Some chs ->
  crosses send (dis_request_read true) o (wire_outgoing o) (0, received o) chc chs wrc rds.
Proof.
  intros Ho Hd Hc Hs. exact (codec_crosses send (dis_request_read true) (serves true) received
    o fdc fds chc chs wrc rds Ho Hd Hc Hs).
Qed.

(** How a request whose header parses is refused. *)
Definition refusal (mom : bool) (ver t : Z) : option Z :=
  if negb (i32 ver =? PBS_BATCH_PROT_VER) then Some PBSE_DISPROTO
  else if (t <? 0) || (PBS_BATCH_CEILING <=? t) then Some PBSE_DISPROTO
  else if t =? PBS_BATCH_Disconnect then Some PBSE_SOCKET_CLOSE
  else match decode_request mom t with None => Some PBSE_UNKREQ | Some _ => None end.

(** C26: a request with a foreign protocol version or a type out of range is refused with
    [PBSE_DISPROTO], a disconnect is [PBSE_SOCKET_CLOSE], a type the daemon does not
    serve is [PBSE_UNKREQ]; in each case exactly the header has been consumed. *)
Theorem dis_request_read_refuses mom ver t user rc :
  0 <= ver <= UINT_MAX -> int_ok t -> field PBS_MAXUSER user -> refusal mom ver t = Some rc ->
  decodes (dis_request_read mom)
    ((if mom then wire_num c_plus PBS_BATCH_PROT_TYPE else []) ++
     wire_num c_plus ver ++ wire_uint t ++ wire_str user)
    (rc, mk_batch_request t user None rq_none).
Proof.
  intros Hv Ht Hu Hr. unfold dis_request_read.
  apply decodes_bind with (a := (PBS_BATCH_PROT_TYPE, 0));
    [destruct mom; [by apply disrui_decodes|apply decodes_ret]|].
  eapply decodes_last.
  - unfold decode_DIS_ReqHdr. eapply decodes_bind; [by apply disrui_decodes|]. cbv beta iota.
    eapply decodes_bind; [apply disrui_uint|]. cbv beta iota. change (negb (0 =? 0)) with false. cbv iota.
    eapply decodes_last; [by apply disr_field_decodes|reflexivity].
  - cbv beta iota zeta. rewrite int_ok_u32 by done. change (negb (0 =? 0)) with false. cbv iota.
    unfold refusal in Hr. unfold read_body.
    destruct (negb (i32 ver =? PBS_BATCH_PROT_VER)); [by injection Hr as <-|].
    destruct ((t <? 0) || (PBS_BATCH_CEILING <=? t)); [by injection Hr as <-|].
    destruct (t =? PBS_BATCH_Disconnect); [by injection Hr as <-|].
    destruct (decode_request mom t); [done|by injection Hr as <-].
Qed.

End Requests.

Section RequestWitnesses.
#[local] Existing Instance generous.
#[local] Existing Instance generous_ok.
Import Sample.

(** [pbs_sigjob] of job 17 with signal 9 by user u. *)
Definition signal17 : outgoing :=
  mk_outgoing PBS_BATCH_SignalJob [117] (SignalJob [49;55] [57]) None.

Lemma signal17_ok mom : serves mom signal17.
Proof.
  split; [destruct mom; reflexivity|]. repeat split; try (repeat constructor; discriminate);
    try (vm_compute; discriminate); try discriminate.
Qed.

Lemma signal17_deliverable : deliverable (wire_outgoing signal17).
Proof. split; [vm_compute; reflexivity|right; vm_compute; reflexivity]. Qed.

Definition chan_of (fd : Z) : tcp_chan :=
  mk_tcp_chan (DIS_tcp_clear fresh_buf) (DIS_tcp_clear fresh_buf) 0 0 0 fd.

Lemma request_reaches_server_witness :
  crosses send (server_read 300 true) signal17 (wire_outgoing signal17)
    (0, (PBS_BATCH_PROT_TYPE, mk_batch_request 18 [117] None (rq_signal [49;55] [57])))
    (chan_of 3) (chan_of 4) [WrIntr; WrSome 5] [RdData (wire_outgoing signal17)].
Proof.
  apply (request_reaches_server signal17 3 4);
    [apply signal17_ok|apply signal17_deliverable|apply setup_some; lia|apply setup_some; lia].
Defined.

Lemma request_reaches_mom_witness :
  crosses send (dis_request_read true) signal17 (wire_outgoing signal17)
    (0, mk_batch_request 18 [117] None (rq_signal [49;55] [57]))
    (chan_of 3) (chan_of 4) [WrIntr; WrSome 5] [RdData (wire_outgoing signal17)].
Proof.
  apply (request_reaches_mom signal17 3 4);
    [apply signal17_ok|apply signal17_deliverable|apply setup_some; lia|apply setup_some; lia].
Defined.

Lemma dis_request_read_refuses_witness :
  decodes (dis_request_read true)
    (wire_num c_plus 2 ++ wire_num c_plus 2 ++ wire_uint 21 ++ wire_str [117])
    (PBSE_UNKREQ, mk_batch_request 21 [117] None rq_none).
Proof.
  apply (dis_request_read_refuses true 2 21 [117] PBSE_UNKREQ);
    [unfold UINT_MAX; lia|unfold int_ok, INT_MIN, INT_MAX; lia| |reflexivity].
  split; [repeat constructor; discriminate|vm_compute; discriminate].
Defined.

(** the peek at the protocol type is not rolled back when it times out, so its retry
    goes on in the middle of the number: of the request header ["+2+22+19"] a server that
    receives the first character, then nothing for five seconds, then the rest, takes the
    protocol type for 22 instead of 2. *)
Theorem get_protocol_type_retry_misreads :
  let peek rd := match get_protocol_type 300 false (sample rd []) with
                 | Ret r _ => Some r | _ => None end in
  peek [RdData [43;50;43;50;50;43;49;57]] = Some (2, 0) /\
  peek [RdData [43]; RdErr SockTimeout; RdData [50;43;50;50;43;49;57]] = Some (22, 0).
Proof. vm_compute. split; reflexivity. Qed.

(** the first code of a [SelStatAttr] request is discarded: a request whose selection
    list is cut off by a name longer than announced is accepted with no selection, and
    the rest of its bytes is read as the list of attributes to return. *)
Theorem selstatattr_accepts_broken_list :
  exists d l w', decode_request false PBS_BATCH_SelStatAttr = Some d /\
    decode_DIS_svrattrl (sample [RdData [43;49;43;48;43;50;43;48;43;48;43;48;43;48;43;48;
                                         43;48;43;48;43;48;43;48;43;48]] []) =
      Ret (DIS_OVERFLOW, []) w' /\
    match d (sample [RdData [43;49;43;48;43;50;43;48;43;48;43;48;43;48;43;48;
                             43;48;43;48;43;48;43;48;43;48]] []) with
    | Ret r _ => r = (0, rq_select_status [] l) /\ length l = 2%nat
    | _ => False
    end.
Proof. eexists _, _, _. split; [reflexivity|]. vm_compute. repeat split. Qed.

End RequestWitnesses.
