(* ===== verification/Hostile.v ===== *)
(** * Requests from any peer

    What [dis_request_read] does on input nobody vouches for: every decoder comes to
    an end, and those without an attribute list stay inside their blocks whatever
    they are sent. *)

From S2P Require Import Prelude CLib TcpDis Codec DisInt DisStr Attrs Requests DisRead.
From stdpp Require Import base list numbers option.

Local Open Scope Z_scope.
Local Open Scope st_scope.

(** ** Requests from any peer *)

Section Hostile.
Context `{AllocOk}.

Lemma disr_field_safe n :
  0 <= n < INT_MAX ->
  safe (disr_field n) (fun '(rc, s) => dis_code rc /\ field n s) (fun '(rc, _) => rc = 0).
Proof.
  intros Hn. eapply safe_weaken; [apply (disrfst_safe (n + 1) n); lia| |done].
  intros [rc s] (? & ? & ?). by split.
Qed.

(** Readers that commit, with any post-processing that keeps the codes in range. *)
Lemma commit_reader_safe start maxd max (post : Z * bool * Z -> Z * Z) :
  conversion start maxd max ->
  (forall rc neg v, 0 <= rc <= 12 -> 0 <= snd (post (rc, neg, v)) <= 12) ->
  (forall rc neg v, snd (post (rc, neg, v)) = 0 -> rc = 0) ->
  safe (let* r := start in let '(value, locret) := post r in
        let* retval := rcommit_ret locret in st_ret (value, retval))
    (fun '(_, rc) => dis_code rc) (fun '(_, rc) => rc = 0).
Proof.
  intros Hc Hr H0' w Hw.
  eapply runs_weaken; [apply (commit_reader_run start maxd max post (fun _ _ => True) w Hc Hw)|].
  - intros rc neg v Hrc _. specialize (Hr rc neg v Hrc). specialize (H0' rc neg v).
    destruct (post (rc, neg, v)) as [value locret]. simpl in *. auto.
  - intros [v rc] w' [_ (Hle & _ & Hrc & Hok & _)]. split; [done|]. split; [done|].
    intros (bs & neg & u & _ & _ & _ & Hm)%Hok. done.
Qed.

Lemma disrsl_safe : safe disrsl (fun '(_, rc) => dis_code rc) (fun '(_, rc) => rc = 0).
Proof.
  intros w Hw. pose proof (commit_reader_safe disrsl_start 20 ULONG_MAX
    (fun r : Z * bool * Z => let '(locret, negate, uvalue) := r in
      if locret =? DIS_SUCCESS then
        if (if negate : bool then uvalue <=? u64 (u64 (- (LONG_MIN + 1)) + 1) else uvalue <=? LONG_MAX)
        then (if negate : bool then i64 (u64 (- uvalue)) else i64 uvalue, locret)
        else (if negate : bool then LONG_MIN else LONG_MAX, DIS_OVERFLOW)
      else if locret =? DIS_OVERFLOW then (if negate : bool then LONG_MIN else LONG_MAX, locret)
      else (0, locret)) conversion_ul) as Hs.
  unfold disrsl, runs. unfold safe, runs in Hs. unfold st_bind at 1 in Hs. unfold st_bind at 1.
  specialize (Hs ltac:(intros rc neg v ?; unfold DIS_SUCCESS, DIS_OVERFLOW;
    destruct (rc =? 0), (rc =? 1); try destruct (if neg then _ else _); simpl; lia)
    ltac:(intros rc neg v; unfold DIS_SUCCESS, DIS_OVERFLOW;
    destruct (Z.eqb_spec rc 0), (Z.eqb_spec rc 1); try destruct (if neg then _ else _); simpl; lia) w Hw).
  by destruct (disrsl_start w) as [[[rc neg] v] w1| |].
Qed.

Lemma disruc_safe : safe disruc (fun '(_, rc) => dis_code rc) (fun '(_, rc) => rc = 0).
Proof.
  intros w Hw. pose proof (commit_reader_safe disrsi_start 10 UINT_MAX
    (fun r : Z * bool * Z => let '(locret, negate, value) := r in
      let '(value, locret) :=
        if negb (locret =? DIS_SUCCESS) then (0, locret)
        else if negate : bool then (0, DIS_BADSIGN)
        else if 2 ^ 8 - 1 <? value then (2 ^ 8 - 1, DIS_OVERFLOW) else (value, locret) in
      (wrap_u 8 value, locret)) conversion_ui) as Hs.
  unfold disruc, disr_small_unsigned, runs. unfold safe, runs in Hs.
  unfold st_bind at 1 in Hs. unfold st_bind at 1.
  specialize (Hs ltac:(intros rc neg v ?; unfold DIS_SUCCESS, DIS_OVERFLOW, DIS_BADSIGN;
    destruct (rc =? 0), neg; try destruct (2 ^ 8 - 1 <? v); simpl; lia)
    ltac:(intros rc neg v; unfold DIS_SUCCESS, DIS_OVERFLOW, DIS_BADSIGN;
    destruct (Z.eqb_spec rc 0), neg; try destruct (2 ^ 8 - 1 <? v); simpl; lia) w Hw).
  destruct (disrsi_start w) as [[[rc neg] v] w1| |]; [|done..].
  by destruct (negb (rc =? DIS_SUCCESS)), neg, (2 ^ 8 - 1 <? v).
Qed.

(** One step of a safety proof of a decoder. *)
Ltac dstep :=
  lazymatch goal with
  | |- safe (st_bind (disr_field _) _) _ _ =>
      eapply safe_bind; [apply disr_field_safe; done|]; intros [? ?] [? ?]
  | |- safe (st_bind disrsl _) _ _ =>
      eapply safe_bind; [apply disrsl_safe|]; intros [? ?] ?
  | |- safe (st_bind disruc _) _ _ =>
      eapply safe_bind; [apply disruc_safe|]; intros [? ?] ?
  | |- safe (st_ret _) _ _ => apply safe_ret; [done|tauto]
  | _ => safe_step
  end.

Definition code_only {A} (r : Z * A) : Prop := dis_code (fst r).

Lemma decode_rqfpair_safe :
  safe decode_rqfpair (fun '(rc, x, _) => dis_code rc /\
      match x with Some _ => rc = 0 /\ True | None => rc <> 0 end) (fun '(_, x, _) => is_Some x).
Proof.
  unfold decode_rqfpair. rewrite alloc_ok by (unfold ALLOC_MAX, SIZEOF_RQFPAIR; lia). cbn [negb].
  safe_step. safe_step; [|by safe_step; [|intros [[] _]]].
  safe_step. safe_step; [|by safe_step; [|tauto]].
  safe_step. safe_step; by safe_step; [|tauto].
Qed.

(** The decoders without an attribute list: no input makes them misbehave. *)
Lemma decode_DIS_JobFile_safe : safe decode_DIS_JobFile code_only (fun _ => False).
Proof.
  unfold decode_DIS_JobFile, code_only. repeat dstep. cbv zeta. apply safe_ret; [|tauto].
  cbn [fst]. by destruct (_ && _).
Qed.

Lemma decode_DIS_CopyFiles_safe : safe decode_DIS_CopyFiles code_only (fun _ => False).
Proof.
  unfold decode_DIS_CopyFiles, code_only. repeat dstep.
  eapply safe_bind; [apply (read_n_safe decode_rqfpair _ _ decode_rqfpair_safe)|].
  intros [[? ?] ?] (? & _). dstep.
Qed.

Lemma plain_decoders_safe d :
  In d [decode_DIS_JobCred; decode_DIS_JobFile; decode_DIS_JobId; decode_DIS_MessageJob;
        decode_DIS_ShutDown; decode_DIS_SignalJob; decode_DIS_GpuCtrl; decode_DIS_MoveJob;
        decode_DIS_RunJob; decode_DIS_TrackJob; decode_DIS_Register; decode_DIS_Authen;
        decode_DIS_ReturnFiles; decode_DIS_CopyFiles; decode_DIS_PowerState; st_ret (0, rq_none)] ->
  safe d code_only (fun _ => False).
Proof.
  intros Hd. simpl in Hd.
  repeat destruct Hd as [<-|Hd]; try apply decode_DIS_JobFile_safe; try apply decode_DIS_CopyFiles_safe;
    [unfold decode_DIS_JobCred|unfold decode_DIS_JobId|unfold decode_DIS_MessageJob|
     unfold decode_DIS_ShutDown|unfold decode_DIS_SignalJob|unfold decode_DIS_GpuCtrl|
     unfold decode_DIS_MoveJob|unfold decode_DIS_RunJob|unfold decode_DIS_TrackJob|
     unfold decode_DIS_Register|unfold decode_DIS_Authen|unfold decode_DIS_ReturnFiles|
     unfold decode_DIS_PowerState| |]; try done; unfold code_only; repeat dstep.
Qed.

(** The request types whose decoders a malformed body can drive out of bounds:
    those with a [svrattrl] list, the alternate authentication, whose credential
    field is one character short, and the resource requests, whose count can make
    the error text lookup run off its table. *)
Definition exposed (t : Z) : bool :=
  is_case t [PBS_BATCH_QueueJob; PBS_BATCH_QueueJob2; PBS_BATCH_DeleteJob; PBS_BATCH_HoldJob;
    PBS_BATCH_CheckpointJob; PBS_BATCH_ModifyJob; PBS_BATCH_AsyModifyJob; PBS_BATCH_StatusJob;
    PBS_BATCH_ModifyNode; PBS_BATCH_Manager; PBS_BATCH_ReleaseJob; PBS_BATCH_SelectJobs;
    PBS_BATCH_SelStat; PBS_BATCH_SelStatAttr; PBS_BATCH_StatusNode; PBS_BATCH_StatusQue;
    PBS_BATCH_StatusSvr; PBS_BATCH_Rescq; PBS_BATCH_ReserveResc; PBS_BATCH_ReleaseResc;
    PBS_BATCH_AltAuthenUser; PBS_BATCH_JobObit].

(** Decides a property of [decode_request mom t] case by case. *)
Ltac each_type t :=
  repeat match goal with
  | |- context [t =? ?c] => destruct (Z.eqb_spec t c) as [->|]
  end.

Lemma decode_request_plain mom t d :
  exposed t = false -> decode_request mom t = Some d -> safe d code_only (fun _ => False).
Proof.
  intros He Hd. apply plain_decoders_safe. revert He Hd.
  unfold exposed, decode_request, is_case. cbn [existsb].
  destruct mom; each_type t; simpl orb; cbv iota; intros He Hd; try discriminate He;
    try discriminate Hd; injection Hd as <-; simpl; tauto.
Qed.

Definition dis_or_rm (rc : Z) : Prop := dis_code rc \/ rc = PBSE_RMSYSTEM.

Lemma svrattrl_tail_ends {A} (f : list svrattrl -> A) (ok : Z * A -> Prop) :
  (forall r, ~ ok r) ->
  ends (let* (rc, l) := decode_DIS_svrattrl in st_ret (rc, f l)) (fun '(rc, _) => dis_or_rm rc) ok.
Proof.
  intros Hok. eapply ends_bind; [apply decode_DIS_svrattrl_ends|].
  intros [rc l] Hrc. apply ends_ret; [by left|]. intros [Ho _]. by apply (Hok (rc, f l)).
Qed.

Ltac estep :=
  lazymatch goal with
  | |- ends (st_bind disrui _) _ _ => eapply ends_bind; [apply safe_ends, disrui_safe|]; intros [? ?] [? ?]
  | |- ends (st_bind disrsi _) _ _ => eapply ends_bind; [apply safe_ends, disrsi_safe|]; intros [? ?] [? ?]
  | |- ends (st_bind disrst _) _ _ => eapply ends_bind; [apply safe_ends, disrst_safe|]; intros [? ?] [? ?]
  | |- ends (st_bind (disr_field _) _) _ _ =>
      eapply ends_bind; [apply safe_ends, disr_field_safe; done|]; intros [? ?] [? ?]
  | |- ends (st_bind decode_DIS_svrattrl _) _ _ =>
      eapply ends_bind; [apply decode_DIS_svrattrl_ends|]; intros [? ?] ?
  | |- ends (if ?b then _ else _) _ _ => destruct b
  | |- ends (st_ret _) _ _ => apply ends_ret; [first [done | left; done | right; done]|tauto]
  end.

Lemma disrfst_ends cap achars :
  0 <= achars -> ends (disrfst cap achars) (fun '(rc, _) => dis_code rc) (fun _ => False).
Proof.
  intros Ha. unfold disrfst, disrsi_start.
  eapply ends_bind with (P1 := fun '(rc, _, v) => dis_code rc /\ (rc = 0 -> 0 <= v)) (ok1 := fun _ => False).
  { intros w Hw. pose proof (disrsi__sound ind_negate (u32 ind_uint) w Hw) as Hs. unfold runs in Hs.
    destruct (disrsi_ ind_negate (u32 ind_uint) 1 w) as [[[rc neg] v] w'| |]; [|done..].
    destruct (scanned_rleq _ _ _ _ _ _ _ _ Hs) as [Hle Hrc]. split; [done|]. split; [|done].
    split; [done|]. intros ->. destruct Hs as (bs & _ & _ & Hok).
    destruct (Hok eq_refl) as [Hn _]. apply numeral_value in Hn. lia. }
  intros [[rc neg] count] [Hrc Hv].
  eapply ends_bind with (P1 := fun '(rc, _) => dis_code rc) (ok1 := fun _ => False).
  - unfold DIS_SUCCESS. destruct (Z.eqb_spec rc 0) as [->|]; [|by apply ends_ret; [|tauto]].
    destruct neg; [by apply ends_ret; [|tauto]|].
    destruct (achars <? count); [by apply ends_ret; [|tauto]|].
    eapply ends_bind; [apply gets_into_ends; by apply Hv|]. intros [n s] _.
    destruct (negb (n =? i32 count)); [by apply ends_ret; [|tauto]|].
    destruct (has_nul s); [by apply ends_ret; [|tauto]|].
    destruct (count <? cap); [by apply ends_ret; [|tauto]|apply ends_ub].
  - intros [rc' value] Hrc'. eapply ends_bind; [by apply rcommit_nz_ends|].
    intros rc'' Hrc''. destruct (rc'' =? DIS_SUCCESS); [by apply ends_ret; [|tauto]|].
    destruct (0 <? cap); [by apply ends_ret; [|tauto]|apply ends_ub].
Qed.

Lemma decode_rescl_item_safe :
  safe decode_rescl_item (fun '(rc, x, _) => dis_code rc /\
      match x with Some _ => rc = 0 /\ True | None => rc <> 0 end) (fun '(_, x, _) => is_Some x).
Proof.
  unfold decode_rescl_item. safe_step. apply safe_ret.
  - split; [done|]. destruct (Z.eqb_spec z 0) as [->|]; [|done].
    by destruct o.
  - destruct (Z.eqb_spec z 0); [tauto|]. by intros [[] _].
Qed.

Lemma decode_DIS_Rescl_ends :
  ends decode_DIS_Rescl (fun '(rc, _) => dis_or_rm rc) (fun _ => False).
Proof.
  unfold decode_DIS_Rescl. estep. estep; [estep|]. estep. cbv zeta. estep; [estep|].
  estep; [|estep]. estep; [estep|].
  eapply ends_bind; [apply safe_ends, (read_n_safe decode_rescl_item _ _ decode_rescl_item_safe)|].
  intros [[rc l'] d] (? & _). estep.
Qed.

(** Every decoder comes to an end. *)
Lemma decode_request_ends mom t d :
  decode_request mom t = Some d -> ends d (fun '(rc, _) => dis_or_rm rc) (fun _ => False).
Proof.
  intros Hd. destruct (exposed t) eqn:He.
  2: { eapply ends_weaken; [apply safe_ends; by eapply decode_request_plain| |done].
       intros [rc r] Hc. by left. }
  revert He Hd. unfold exposed, decode_request, is_case. cbn [existsb].
  destruct mom; each_type t; simpl orb; cbv iota; intros He Hd; try discriminate He;
    try discriminate Hd; injection Hd as <-.
  all: try (unfold decode_DIS_QueueJob, decode_DIS_Manage, decode_DIS_Status, decode_DIS_JobObit;
            repeat estep; fail).
  1-3: apply decode_DIS_Rescl_ends.
  unfold decode_DIS_AltAuthen. estep. estep; [estep|].
  eapply ends_bind; [by apply disrfst_ends|]. intros [rc cred] Hrc. estep.
Qed.

(** ** What [dis_request_read] returns *)

Definition read_code (rc : Z) : Prop :=
  In rc [0; EOF; PBSE_DISPROTO; PBSE_UNKREQ; PBSE_SOCKET_CLOSE].

Lemma dis_emsg_safe rc : dis_code rc -> safe (dis_emsg rc) (fun _ => True) (fun _ => False).
Proof.
  unfold dis_code, dis_emsg. intros Hrc.
  destruct (Z.leb_spec 0 rc), (Z.ltb_spec rc 13); try lia. apply safe_ret; [done|tauto].
Qed.

Lemma dis_emsg_ends rc : ends (dis_emsg rc) (fun _ => True) (fun _ => False).
Proof. unfold dis_emsg. destruct (_ && _); [by apply ends_ret; [|tauto]|apply ends_ub]. Qed.

Lemma decode_ext_safe : safe decode_DIS_ReqExtend code_only (fun _ => False).
Proof.
  unfold decode_DIS_ReqExtend, code_only. safe_step. safe_step; [|dstep].
  destruct (negb (i32 z =? 0)); [|dstep]. safe_step. dstep.
Qed.

Lemma read_body_safe mom t user :
  exposed t = false -> safe (read_body mom t user) (fun '(rc, _) => read_code rc) (fun _ => False).
Proof.
  intros He. unfold read_body, read_code.
  destruct (t =? PBS_BATCH_Disconnect); [apply safe_ret; [simpl|]; tauto|].
  destruct (decode_request mom t) as [d|] eqn:Hd; [|apply safe_ret; [simpl|]; tauto].
  eapply safe_bind; [by eapply decode_request_plain|]. intros [rc ind] Hrc. unfold code_only in Hrc.
  simpl in Hrc. unfold DIS_SUCCESS. safe_step.
  - eapply safe_bind; [apply decode_ext_safe|]. intros [rc' ext] Hrc'.
    safe_step; [apply safe_ret; [simpl|]; tauto|].
    eapply safe_bind; [by apply dis_emsg_safe|]. intros [] _. apply safe_ret; [simpl|]; tauto.
  - destruct (Z.eqb_spec rc PBSE_UNKREQ); cbn [negb]; [apply safe_ret; [subst; simpl|]; tauto|].
    eapply safe_bind; [by apply dis_emsg_safe|]. intros [] _. apply safe_ret; [simpl|]; tauto.
Qed.

Lemma read_body_ends mom t user :
  ends (read_body mom t user) (fun '(rc, _) => read_code rc) (fun _ => False).
Proof.
  unfold read_body, read_code.
  destruct (t =? PBS_BATCH_Disconnect); [apply ends_ret; [simpl|]; tauto|].
  destruct (decode_request mom t) as [d|] eqn:Hd; [|apply ends_ret; [simpl|]; tauto].
  eapply ends_bind; [by eapply decode_request_ends|]. intros [rc ind] Hrc.
  destruct (rc =? DIS_SUCCESS).
  - eapply ends_bind; [apply safe_ends, decode_ext_safe|]. intros [rc' ext] Hrc'.
    destruct (negb (rc' =? 0)); [|apply ends_ret; [simpl|]; tauto].
    eapply ends_bind; [apply dis_emsg_ends|]. intros [] _. apply ends_ret; [simpl|]; tauto.
  - destruct (Z.eqb_spec rc PBSE_UNKREQ); cbn [negb]; [apply ends_ret; [subst; simpl|]; tauto|].
    eapply ends_bind; [apply dis_emsg_ends|]. intros [] _. apply ends_ret; [simpl|]; tauto.
Qed.

Lemma decode_hdr_safe :
  safe decode_DIS_ReqHdr (fun '(rc, _, _, user) => dis_code rc /\ field PBS_MAXUSER user)
    (fun _ => False).
Proof.
  unfold decode_DIS_ReqHdr. safe_step.
  eapply safe_bind with (P1 := fun '(_, rc) => dis_code rc) (ok1 := fun _ => False).
  { destruct (Z.eqb_spec z0 0); [|apply safe_ret; [done|tauto]].
    eapply safe_weaken; [apply disrui_safe| |done]. by intros [? ?] [? _]. }
  intros [ty rc] Hrc. safe_step; [|apply safe_ret; [by split; [|split; [constructor|]]|tauto]].
  dstep. apply safe_ret; [done|tauto].
Qed.

(** Everything up to the body. *)
Definition hdr_checked `{Platform} (mom : bool) (k : Z -> list Z -> M (Z * batch_request)) :
    M (Z * batch_request) :=
  (if mom then disrui else st_ret (PBS_BATCH_PROT_TYPE, 0)) >>>
  let* (rc, proto_ver, t, user) := decode_DIS_ReqHdr in
  let request := mk_batch_request t user None rq_none in
  if negb (rc =? 0) then
    if rc =? DIS_EOF then st_ret (EOF, request)
    else dis_emsg rc >>> st_ret (PBSE_DISPROTO, request)
  else if negb (proto_ver =? PBS_BATCH_PROT_VER) then st_ret (PBSE_DISPROTO, request)
  else if (t <? 0) || (PBS_BATCH_CEILING <=? t) then st_ret (PBSE_DISPROTO, request)
  else k t user.

(** The header either settles the request or hands over to the body. *)
Lemma hdr_checked_cases mom w :
  wf_read w ->
  (exists rc rq w', rleq w w' /\ read_code rc /\ forall k, hdr_checked mom k w = Ret (rc, rq) w') \/
  (exists t user w1, rleq w w1 /\ 0 <= t < PBS_BATCH_CEILING
     /\ forall k, hdr_checked mom k w = k t user w1).
Proof.
  intros Hw. unfold hdr_checked, read_code.
  assert (exists r0 w0, (if mom then disrui else st_ret (PBS_BATCH_PROT_TYPE, 0)) w = Ret r0 w0
    /\ rleq w w0) as (r0 & w0 & E0 & Hle0).
  { destruct mom; [|eexists _, w; split; [done|by apply rleq_refl]].
    destruct (runs_inv _ _ _ (disrui_safe w Hw)) as (a & w0 & E & Hle & _). eauto. }
  destruct (runs_inv _ _ _ (decode_hdr_safe w0 (proj1 Hle0)))
    as ([[[rc ver] t] user] & w1 & E1 & Hle1 & [Hrc _] & _).
  pose proof (rleq_trans _ _ _ Hle0 Hle1) as Hle.
  assert (Ek : forall k : Z * Z * Z * list Z -> M (Z * batch_request),
    st_bind (if mom then disrui else st_ret (PBS_BATCH_PROT_TYPE, 0))
      (fun _ => st_bind decode_DIS_ReqHdr k) w = k (rc, ver, t, user) w1).
  { intros k. by rewrite (st_bind_ret _ _ _ _ _ E0), (st_bind_ret _ _ _ _ _ E1). }
  destruct (Z.eqb_spec rc 0) as [->|Hne].
  - destruct (ver =? PBS_BATCH_PROT_VER) eqn:Ev.
    + destruct ((t <? 0) || (PBS_BATCH_CEILING <=? t)) eqn:Et.
      * left. eexists _, _, w1. split; [done|]. split; [|intros k; rewrite Ek; simpl; rewrite Ev, Et; done].
        simpl. tauto.
      * right. exists t, user, w1. apply orb_false_elim in Et as [?%Z.ltb_ge ?%Z.leb_gt].
        split; [done|]. split; [done|]. intros k. rewrite Ek. simpl. rewrite Ev.
        destruct (Z.ltb_spec t 0), (Z.leb_spec PBS_BATCH_CEILING t); try lia. done.
    + left. eexists _, _, w1. split; [done|]. split; [|intros k; rewrite Ek; simpl; rewrite Ev; done].
      simpl. tauto.
  - assert (Ed : dis_emsg rc w1 = Ret tt w1).
    { unfold dis_emsg, dis_code in *. by destruct (Z.leb_spec 0 rc), (Z.ltb_spec rc 13); try lia. }
    left. destruct (rc =? DIS_EOF) eqn:Eeof; eexists _, _, w1; (split; [done|]);
      (split; [|intros k; rewrite Ek; cbv zeta; rewrite (proj2 (Z.eqb_neq _ _) Hne), Eeof; cbn [negb];
                rewrite ?(st_bind_ret _ _ _ _ _ Ed); done]); simpl; tauto.
Qed.

(** C3: Reading a request comes to an end on any bytes a peer sends, however the network cuts
    them, as long as less than 512 MiB are outstanding and there is no NUL byte among them
    once the buffer has to grow ([wf_read]).  It returns 0, [EOF], [PBSE_DISPROTO],
    [PBSE_UNKREQ] or [PBSE_SOCKET_CLOSE], keeps the channel well formed and touches only its
    read side; it can leave its blocks only when the header announced one of the [exposed]
    request types: those with an attribute list, the alternate authentication and the
    resource requests, whose error text is looked up beyond its table when the memory for
    their list is refused. *)
Theorem dis_request_read_total mom w :
  wf_read w ->
  match dis_request_read mom w with
  | Ret (rc, _) w' => rleq w w' /\ read_code rc
  | UB => exists t user w1, 0 <= t < PBS_BATCH_CEILING /\ exposed t = true
      /\ hdr_checked mom (fun t user => st_ret (0, mk_batch_request t user None rq_none)) w
         = Ret (0, mk_batch_request t user None rq_none) w1
  | OutOfFuel => False
  end.
Proof.
  intros Hw. change (dis_request_read mom w) with (hdr_checked mom (read_body mom) w).
  destruct (hdr_checked_cases mom w Hw)
    as [(rc & rq & w' & Hle & Hrc & Ek)|(t & user & w1 & Hle & Ht & Ek)]; rewrite Ek; [done|].
  destruct (exposed t) eqn:He.
  - pose proof (read_body_ends mom t user w1 (proj1 Hle)) as Hb.
    destruct (read_body mom t user w1) as [[rc rq] w'| |]; [|exists t, user, w1; by rewrite Ek|done].
    destruct Hb as (Hle' & Hrc & _). split; [by eapply rleq_trans|done].
  - pose proof (read_body_safe mom t user He w1 (proj1 Hle)) as Hb. unfold runs in Hb.
    destruct (read_body mom t user w1) as [[rc rq] w'| |]; [|done..].
    destruct Hb as (Hle' & Hrc & _). split; [by eapply rleq_trans|done].
Qed.

(** A body that drives its decoder out of bounds does so through the whole reader. *)
Lemma crashes_request mom t user d bs :
  decode_request mom t = Some d -> field PBS_MAXUSER user -> crashes d bs ->
  crashes (dis_request_read mom)
    ((if mom then wire_num c_plus PBS_BATCH_PROT_TYPE else []) ++ wire_hdr t user ++ bs).
Proof.
  intros Hd Hu Hc. destruct (decode_request_range mom t d Hd) as [Hr Ht]. unfold dis_request_read.
  apply crashes_bind with (a := (PBS_BATCH_PROT_TYPE, 0));
    [destruct mom; [by apply disrui_decodes|apply decodes_ret]|].
  eapply crashes_bind.
  - apply decode_hdr_decodes; [|done]. unfold int_ok, INT_MIN, INT_MAX, PBS_BATCH_CEILING in *. lia.
  - cbv beta iota zeta. change (negb (0 =? 0)) with false.
    change (negb (PBS_BATCH_PROT_VER =? PBS_BATCH_PROT_VER)) with false. cbv iota.
    destruct (Z.ltb_spec t 0), (Z.leb_spec PBS_BATCH_CEILING t); try lia. cbn [orb].
    unfold read_body. destruct (Z.eqb_spec t PBS_BATCH_Disconnect); [done|]. rewrite Hd.
    by apply crashes_first.
Qed.

(** an alternate authentication request whose credential has exactly the announced
    maximum of 2048 characters makes the server store the terminator outside the
    [rq_cred] array, which has 2048 characters in all. *)
Theorem altauthen_overruns_credential port user cred :
  0 <= port <= UINT_MAX -> field PBS_MAXUSER user ->
  nul_free cred -> zlen cred = PBS_MAXCREDENTIAL_LEN ->
  crashes (dis_request_read false)
    (wire_hdr PBS_BATCH_AltAuthenUser user ++ wire_num c_plus port ++ wire_str cred).
Proof.
  intros Hp Hu Hn Hl. apply (crashes_request false _ user decode_DIS_AltAuthen); [done|done|].
  unfold decode_DIS_AltAuthen. eapply crashes_bind; [by apply disrui_decodes|]. cbv beta iota.
  change (negb (0 =? 0)) with false. cbv iota. apply crashes_first, disrfst_crashes; [done|lia|lia|].
  rewrite Hl. done.
Qed.

End Hostile.

Section HostileWitnesses.
#[local] Existing Instance generous.
#[local] Existing Instance generous_ok.
Import Sample.

(** ["+2+2+7x"]: a user name that is not a counted string. *)
Definition bad_header : list read_event := [RdData [43;50;43;50;43;55;120]].

Lemma dis_request_read_total_witness :
  exists rq w', dis_request_read true (sample bad_header []) = Ret (PBSE_DISPROTO, rq) w'
    /\ rleq (sample bad_header []) w'.
Proof.
  pose proof (dis_request_read_total true (sample bad_header [])
    ltac:(apply sample_read; reflexivity)) as Ht.
  assert (Hv : match dis_request_read true (sample bad_header []) with
               | Ret (rc, _) _ => Some rc | _ => None end = Some PBSE_DISPROTO)
    by (vm_compute; reflexivity).
  destruct (dis_request_read true (sample bad_header [])) as [[rc rq] w'| |]; try discriminate Hv.
  injection Hv as ->. exists rq, w'. split; [reflexivity|exact (proj1 Ht)].
Defined.

Lemma altauthen_overruns_credential_witness :
  crashes (dis_request_read false)
    (wire_hdr PBS_BATCH_AltAuthenUser [117] ++ wire_num c_plus 15001 ++
     wire_str (replicate (Z.to_nat 2048) 97)).
Proof.
  apply (altauthen_overruns_credential 15001 [117]).
  - unfold UINT_MAX. lia.
  - split; [repeat constructor; discriminate|vm_compute; discriminate].
  - apply Forall_replicate. discriminate.
  - reflexivity.
Defined.

End HostileWitnesses.
