(* ===== verification/Replies.v ===== *)
(** * Batch replies (src/src/lib/Libifl/enc_reply.c, dec_rpyc.c, dec_rpys.c)

    The server encodes a reply with [encode_DIS_reply]; commands decode it with
    [decode_DIS_replyCmd], into attribute lists of the client form, and other
    servers with [decode_DIS_replySvr]. *)

From S2P Require Import Prelude CLib TcpDis Codec DisInt DisStr Attrs Requests DisRead Hostile.
From stdpp Require Import base list numbers option.

Local Open Scope Z_scope.
Local Open Scope st_scope.

Definition BATCH_REPLY_CHOICE_NULL : Z := 1.
Definition BATCH_REPLY_CHOICE_Queue : Z := 2.
Definition BATCH_REPLY_CHOICE_RdytoCom : Z := 3.
Definition BATCH_REPLY_CHOICE_Commit : Z := 4.
Definition BATCH_REPLY_CHOICE_Select : Z := 5.
Definition BATCH_REPLY_CHOICE_Status : Z := 6.
Definition BATCH_REPLY_CHOICE_Text : Z := 7.
Definition BATCH_REPLY_CHOICE_Locate : Z := 8.
Definition BATCH_REPLY_CHOICE_RescQuery : Z := 9.

Definition SIZEOF_BRP_SELECT : Z := 1056.
Definition SIZEOF_BRP_STATUS : Z := 1104.
Definition SIZEOF_BRP_CMDSTAT : Z := 1072.

(** ** Data *)

Record brp_status := mk_brp_status {
  bs_objtype : Z; bs_objname : list Z; bs_attr : list svrattrl }.
Record brp_cmdstat := mk_brp_cmdstat {
  bc_objtype : Z; bc_objname : list Z; bc_attrl : list attrl }.

(** The union [brp_un]; the status lists of servers and commands differ. *)
Inductive reply_un : Type :=
| brp_none
| brp_jid (jid : list Z)
| brp_select (jobids : list (list Z))
| brp_stat (l : list brp_status)
| brp_statc (l : list brp_cmdstat)
| brp_txt (str : cptr) (txtlen : Z)
| brp_locate (dest : list Z)
| brp_rescq (number : Z) (avail alloc resvd down : list Z).

Record batch_reply := mk_batch_reply {
  brp_code : Z; brp_auxcode : Z; brp_choice : Z; brp_un : reply_un }.

Section Ops.
Context `{Platform}.

(** [for (i = 0; i < n && rc == 0; ++i) rc = diswui(chan, a[i])] *)
Fixpoint encode_ints (n : Z) (l : list Z) : M Z :=
  if 0 <? n then
    match l with
    | [] => st_ub
    | x :: l' => diswui (u32 x) >>? encode_ints (n - 1) l'
    end
  else st_ret 0.

Definition encode_brp_status (s : brp_status) : M Z :=
  diswui (u32 (bs_objtype s)) >>? diswst (Some (bs_objname s)) >>? encode_DIS_svrattrl (bs_attr s).

(** The union member is the one the choice names. *)
Definition encode_DIS_reply (reply : batch_reply) : M Z :=
  diswui PBS_BATCH_PROT_TYPE >>? diswui PBS_BATCH_PROT_VER >>?
  diswsi (brp_code reply) >>? diswsi (brp_auxcode reply) >>? diswui (u32 (brp_choice reply)) >>?
  let choice := brp_choice reply in
  if choice =? BATCH_REPLY_CHOICE_NULL then st_ret 0
  else if is_case choice [BATCH_REPLY_CHOICE_Queue; BATCH_REPLY_CHOICE_RdytoCom;
                          BATCH_REPLY_CHOICE_Commit] then
    match brp_un reply with brp_jid s => diswst (Some s) >>? st_ret 0 | _ => st_ub end
  else if choice =? BATCH_REPLY_CHOICE_Select then
    match brp_un reply with
    | brp_select l =>
        diswui (u32 (zlen l)) >>? encode_each (fun s => diswst (Some s)) l >>? st_ret 0
    | _ => st_ub
    end
  else if choice =? BATCH_REPLY_CHOICE_Status then
    match brp_un reply with
    | brp_stat l => diswui (u32 (zlen l)) >>? encode_each encode_brp_status l >>? st_ret 0
    | _ => st_ub
    end
  else if choice =? BATCH_REPLY_CHOICE_Text then
    match brp_un reply with
    | brp_txt str len => diswcs str len >>? st_ret 0
    | _ => st_ub
    end
  else if choice =? BATCH_REPLY_CHOICE_Locate then
    match brp_un reply with brp_locate s => diswst (Some s) >>? st_ret 0 | _ => st_ub end
  else if choice =? BATCH_REPLY_CHOICE_RescQuery then
    match brp_un reply with
    | brp_rescq n avail alloc resvd down =>
        diswui (u32 n) >>? encode_ints n avail >>? encode_ints n alloc >>?
        encode_ints n resvd >>? encode_ints n down >>? st_ret 0
    | _ => st_ub
    end
  else st_ret (-1).

(** The header of a reply: an error, or the code, auxcode and choice. *)
Definition decode_reply_hdr : M (Z * batch_reply) :=
  let fail rc := st_ret (rc, mk_batch_reply 0 0 0 brp_none) in
  let* (i, rc) := disrui in
  if negb (rc =? 0) then fail rc
  else if negb (i32 i =? PBS_BATCH_PROT_TYPE) then fail DIS_PROTO
  else
    let* (i, rc) := disrui in
    if negb (rc =? 0) then fail rc
    else if negb (i32 i =? PBS_BATCH_PROT_VER) then fail DIS_PROTO
    else
      let* (code, rc) := disrsi in
      if negb (rc =? 0) then st_ret (rc, mk_batch_reply code 0 0 brp_none)
      else
        let* (aux, rc) := disrsi in
        if negb (rc =? 0) then st_ret (rc, mk_batch_reply code aux 0 brp_none)
        else
          let* (choice, rc) := disrui in
          st_ret (rc, mk_batch_reply code aux (i32 choice) brp_none).

Definition decode_select_item (cap limit : Z) : M (Z * option (list Z) * bool) :=
  if negb (calloc_ok SIZEOF_BRP_SELECT) then st_ret (DIS_NOMALLOC, None, true)
  else
    let* (rc, s) := disrfst cap limit in
    st_ret (rc, if rc =? 0 then Some s else None, true).

Definition decode_statc_item : M (Z * option brp_cmdstat * bool) :=
  if negb (calloc_ok SIZEOF_BRP_CMDSTAT) then st_ret (DIS_NOMALLOC, None, true)
  else
    let* (objtype, rc) := disrui in
    let* (rc, name) := (if rc =? 0 then disr_field MAXID else st_ret (rc, [])) in
    if negb (rc =? 0) then st_ret (rc, None, true)
    else
      let* (rc, l, _) := decode_DIS_attrl in
      if negb (rc =? 0) then st_ret (rc, None, true)
      else st_ret (0, Some (mk_brp_cmdstat (i32 objtype) name l), true).

Definition decode_int_item : M (Z * option Z * bool) :=
  let* (v, rc) := disrui in st_ret (rc, if rc =? 0 then Some (i32 v) else None, true).

(** The next of the four arrays, unless an earlier one failed. *)
Definition decode_ints (rc n : Z) : M (Z * list Z) :=
  if rc =? 0 then let* (rc, l, _) := read_n n decode_int_item in st_ret (rc, l)
  else st_ret (rc, []).

Definition decode_reply_rescq : M (Z * reply_un) :=
  let* (uct, rc) := disrui in
  if negb (rc =? 0) then st_ret (rc, brp_rescq 0 [] [] [] [])
  else
    let ct := i32 uct in
    if negb (calloc_ok (u64 ct * 4)) then st_ret (DIS_NOMALLOC, brp_rescq ct [] [] [] [])
    else
      let* (rc, avail) := decode_ints 0 ct in
      let* (rc, alloc) := decode_ints rc ct in
      let* (rc, resvd) := decode_ints rc ct in
      let* (rc, down) := decode_ints rc ct in
      st_ret (rc, brp_rescq ct avail alloc resvd down).

Definition set_un (r : batch_reply) (u : reply_un) : batch_reply :=
  mk_batch_reply (brp_code r) (brp_auxcode r) (brp_choice r) u.

Definition decode_DIS_replyCmd : M (Z * batch_reply) :=
  let* (rc, reply) := decode_reply_hdr in
  let ret u := st_ret (fst u, set_un reply (snd u)) in
  if negb (rc =? 0) then st_ret (rc, reply)
  else
    let choice := brp_choice reply in
    if choice =? BATCH_REPLY_CHOICE_NULL then st_ret (0, reply)
    else if is_case choice [BATCH_REPLY_CHOICE_Queue; BATCH_REPLY_CHOICE_RdytoCom;
                            BATCH_REPLY_CHOICE_Commit] then
      let* (rc, jid) := disr_field PBS_MAXSVRJOBID in ret (rc, brp_jid jid)
    else if choice =? BATCH_REPLY_CHOICE_Select then
      let* (ct, rc) := disrui in
      if negb (rc =? 0) then ret (rc, brp_select [])
      else
        let* (rc, l, _) := read_n ct (decode_select_item (PBS_MAXSVRJOBID + 1) PBS_MAXSVRJOBID) in
        ret (rc, brp_select l)
    else if choice =? BATCH_REPLY_CHOICE_Status then
      let* (ct, rc) := disrui in
      if negb (rc =? 0) then ret (rc, brp_statc [])
      else
        let* (rc, l, _) := read_n ct decode_statc_item in
        ret (rc, brp_statc l)
    else if choice =? BATCH_REPLY_CHOICE_Text then
      let* (str, len, rc) := disrcs in ret (rc, brp_txt str len)
    else if choice =? BATCH_REPLY_CHOICE_Locate then
      let* (rc, dest) := disr_field PBS_MAXDEST in ret (rc, brp_locate dest)
    else if choice =? BATCH_REPLY_CHOICE_RescQuery then
      let* u := decode_reply_rescq in ret u
    else ret (-1, brp_none).

(** The status loop of [decode_DIS_replySvr] links the entry before it decodes its
    attributes and goes on when that fails. *)
Fixpoint svr_status_loop (fuel : nat) (n rc : Z) (acc : list brp_status) : M (Z * list brp_status) :=
  match fuel with
  | O => fun _ => OutOfFuel
  | S fuel' =>
      if 0 <? n then
        if negb (calloc_ok SIZEOF_BRP_STATUS) then st_ret (DIS_NOMALLOC, acc)
        else
          let* (objtype, rc) := disrui in
          let* (rc, name) :=
            (if rc =? 0 then disrfst (MAXID + 1) (PBS_MAXSVRJOBID + 1) else st_ret (rc, [])) in
          if negb (rc =? 0) then st_ret (rc, acc)
          else
            let* (rc, l) := decode_DIS_svrattrl in
            svr_status_loop fuel' (n - 1) rc (acc ++ [mk_brp_status (i32 objtype) name l])
      else st_ret (rc, acc)
  end.

Definition svr_status (n : Z) : M (Z * list brp_status) :=
  fun w => svr_status_loop (S (rmeasure w)) n 0 [] w.

Definition decode_DIS_replySvr : M (Z * batch_reply) :=
  let* (rc, reply) := decode_reply_hdr in
  let ret u := st_ret (fst u, set_un reply (snd u)) in
  if negb (rc =? 0) then st_ret (rc, reply)
  else
    let choice := brp_choice reply in
    if choice =? BATCH_REPLY_CHOICE_NULL then st_ret (0, reply)
    else if is_case choice [BATCH_REPLY_CHOICE_Queue; BATCH_REPLY_CHOICE_RdytoCom;
                            BATCH_REPLY_CHOICE_Commit] then
      let* (rc, jid) := disrfst (PBS_MAXSVRJOBID + 1) (PBS_MAXSVRJOBID + 1) in ret (rc, brp_jid jid)
    else if choice =? BATCH_REPLY_CHOICE_Select then
      let* (ct, rc) := disrui in
      if negb (rc =? 0) then ret (rc, brp_select [])
      else
        let* (rc, l, _) :=
          read_n ct (decode_select_item (PBS_MAXSVRJOBID + 1) (PBS_MAXSVRJOBID + 1)) in
        ret (rc, brp_select l)
    else if choice =? BATCH_REPLY_CHOICE_Status then
      let* (ct, rc) := disrui in
      if negb (rc =? 0) then ret (rc, brp_stat [])
      else let* (rc, l) := svr_status ct in ret (rc, brp_stat l)
    else if choice =? BATCH_REPLY_CHOICE_Text then
      let* (str, len, rc) := disrcs in ret (rc, brp_txt str len)
    else if choice =? BATCH_REPLY_CHOICE_Locate then
      let* (rc, dest) := disrfst (PBS_MAXDEST + 1) (PBS_MAXDEST + 1) in ret (rc, brp_locate dest)
    else ret (-1, brp_none).

(** [DIS_reply_read] of dis_read.c. *)
Definition DIS_reply_read : M (Z * batch_reply) := decode_DIS_replySvr.

End Ops.

(** ** Replies as servers make them *)

Definition status_ok (s : brp_status) : Prop :=
  int_ok (bs_objtype s) /\ field MAXID (bs_objname s) /\ Forall valid_svr (bs_attr s)
  /\ zlen (bs_attr s) <= UINT_MAX.

Definition un_ok (choice : Z) (u : reply_un) : Prop :=
  match u with
  | brp_none => choice = BATCH_REPLY_CHOICE_NULL
  | brp_jid s =>
      In choice [BATCH_REPLY_CHOICE_Queue; BATCH_REPLY_CHOICE_RdytoCom; BATCH_REPLY_CHOICE_Commit]
      /\ field PBS_MAXSVRJOBID s
  | brp_select l =>
      choice = BATCH_REPLY_CHOICE_Select /\ Forall (field PBS_MAXSVRJOBID) l /\ zlen l <= UINT_MAX
  | brp_stat l => choice = BATCH_REPLY_CHOICE_Status /\ Forall status_ok l /\ zlen l <= UINT_MAX
  | brp_statc _ => False
  | brp_txt s n =>
      choice = BATCH_REPLY_CHOICE_Text /\ exists v, s = Some v /\ n = zlen v /\ zlen v <= INT_MAX
  | brp_locate s => choice = BATCH_REPLY_CHOICE_Locate /\ field PBS_MAXDEST s
  | brp_rescq n a b c d =>
      choice = BATCH_REPLY_CHOICE_RescQuery /\ n <= INT_MAX /\
      zlen a = n /\ zlen b = n /\ zlen c = n /\ zlen d = n /\
      Forall int_ok a /\ Forall int_ok b /\ Forall int_ok c /\ Forall int_ok d
  end.

Definition reply_ok (r : batch_reply) : Prop :=
  int_ok (brp_code r) /\ int_ok (brp_auxcode r) /\ un_ok (brp_choice r) (brp_un r).

Definition wire_status (s : brp_status) : list Z :=
  wire_uint (bs_objtype s) ++ wire_str (bs_objname s) ++ wire_entries (map entry_of_svr (bs_attr s)).

Definition wire_ints (l : list Z) : list Z := concat (map wire_uint l).

Definition wire_un (u : reply_un) : list Z :=
  match u with
  | brp_none | brp_statc _ => []
  | brp_jid s | brp_locate s => wire_str s
  | brp_select l => wire_uint (zlen l) ++ concat (map wire_str l)
  | brp_stat l => wire_uint (zlen l) ++ concat (map wire_status l)
  | brp_txt s _ => wire_str (default [] s)
  | brp_rescq n a b c d => wire_uint n ++ wire_ints a ++ wire_ints b ++ wire_ints c ++ wire_ints d
  end.

Definition wire_reply (r : batch_reply) : list Z :=
  wire_num c_plus PBS_BATCH_PROT_TYPE ++ wire_num c_plus PBS_BATCH_PROT_VER ++
  wire_int (brp_code r) ++ wire_int (brp_auxcode r) ++ wire_uint (brp_choice r) ++ wire_un (brp_un r).

(** What a command makes of it: the client form of the status lists. *)
Definition cmdstat_of (s : brp_status) : brp_cmdstat :=
  mk_brp_cmdstat (bs_objtype s) (bs_objname s) (map attrl_of (map entry_of_svr (bs_attr s))).
Definition view_cmd (r : batch_reply) : batch_reply :=
  set_un r (match brp_un r with brp_stat l => brp_statc (map cmdstat_of l) | u => u end).

Section RoundTrip.
Context `{AllocOk}.

Lemma encodes_tail (m : M Z) bs : encodes m bs 0 -> encodes (m >>? st_ret 0) bs 0.
Proof. intros Hm. by eapply encodes_last; [exact Hm|]. Qed.

Lemma encode_ints_encodes l : encodes (encode_ints (zlen l) l) (wire_ints l) 0.
Proof.
  induction l as [|x l IH]; [apply encodes_ret|].
  unfold wire_ints. cbn [encode_ints map concat]. pose proof (zlen_nonneg l). rewrite zlen_cons.
  destruct (Z.ltb_spec 0 (zlen l + 1)); [|lia]. replace (zlen l + 1 - 1) with (zlen l) by lia.
  apply encodes_seq; [apply diswui_uint|done].
Qed.

Lemma encode_status_encodes s : status_ok s -> encodes (encode_brp_status s) (wire_status s) 0.
Proof.
  intros (Ht & Hn & Ha & Hz). unfold encode_brp_status, wire_status.
  apply encodes_seq; [apply diswui_uint|]. apply encodes_seq.
  - eapply diswst_field; [|exact Hn]. done.
  - by apply encode_DIS_svrattrl_encodes.
Qed.

Lemma encode_un_encodes choice u :
  un_ok choice u ->
  encodes
    (if choice =? BATCH_REPLY_CHOICE_NULL then st_ret 0
     else if is_case choice [BATCH_REPLY_CHOICE_Queue; BATCH_REPLY_CHOICE_RdytoCom;
                             BATCH_REPLY_CHOICE_Commit] then
       match u with brp_jid s => diswst (Some s) >>? st_ret 0 | _ => st_ub end
     else if choice =? BATCH_REPLY_CHOICE_Select then
       match u with
       | brp_select l =>
           diswui (u32 (zlen l)) >>? encode_each (fun s => diswst (Some s)) l >>? st_ret 0
       | _ => st_ub
       end
     else if choice =? BATCH_REPLY_CHOICE_Status then
       match u with
       | brp_stat l => diswui (u32 (zlen l)) >>? encode_each encode_brp_status l >>? st_ret 0
       | _ => st_ub
       end
     else if choice =? BATCH_REPLY_CHOICE_Text then
       match u with brp_txt str len => diswcs str len >>? st_ret 0 | _ => st_ub end
     else if choice =? BATCH_REPLY_CHOICE_Locate then
       match u with brp_locate s => diswst (Some s) >>? st_ret 0 | _ => st_ub end
     else if choice =? BATCH_REPLY_CHOICE_RescQuery then
       match u with
       | brp_rescq n avail alloc resvd down =>
           diswui (u32 n) >>? encode_ints n avail >>? encode_ints n alloc >>?
           encode_ints n resvd >>? encode_ints n down >>? st_ret 0
       | _ => st_ub
       end
     else st_ret (-1)) (wire_un u) 0.
Proof.
  destruct u as [|s|l|l|l|s n|s|n a b c d]; simpl un_ok; intros Hu.
  - rewrite Hu. apply encodes_ret.
  - destruct Hu as [Hc Hs].
    assert (He : encodes (diswst (Some s) >>? st_ret 0) (wire_str s) 0)
      by (apply encodes_tail; eapply diswst_field; [|exact Hs]; done).
    by destruct Hc as [<-|[<-|[<-|[]]]].
  - destruct Hu as (-> & Hl & Hz). apply encodes_seq; [apply diswui_uint|]. apply encodes_tail.
    apply (encode_each_encodes (fun s => diswst (Some s)) wire_str).
    eapply Forall_impl; [|exact Hl]. intros s Hs. eapply diswst_field; [|exact Hs]. done.
  - destruct Hu as (-> & Hl & Hz). apply encodes_seq; [apply diswui_uint|]. apply encodes_tail.
    apply (encode_each_encodes encode_brp_status wire_status).
    eapply Forall_impl; [|exact Hl]. apply encode_status_encodes.
  - done.
  - destruct Hu as (-> & v & -> & -> & Hv). apply encodes_tail. by apply diswcs_encodes.
  - destruct Hu as [-> Hs]. apply encodes_tail. eapply diswst_field; [|exact Hs]. done.
  - destruct Hu as (-> & Hn & Ha & Hb & Hc & Hd & _).
    apply encodes_seq; [apply diswui_uint|].
    apply encodes_seq; [rewrite <- Ha; apply encode_ints_encodes|].
    apply encodes_seq; [rewrite <- Hb; apply encode_ints_encodes|].
    apply encodes_seq; [rewrite <- Hc; apply encode_ints_encodes|].
    apply encodes_tail. rewrite <- Hd. apply encode_ints_encodes.
Qed.

Lemma encode_reply_encodes r : reply_ok r -> encodes (encode_DIS_reply r) (wire_reply r) 0.
Proof.
  intros (Hc & Ha & Hu). unfold encode_DIS_reply, wire_reply.
  apply encodes_seq; [by apply diswui_encodes|]. apply encodes_seq; [by apply diswui_encodes|].
  apply encodes_seq; [by apply diswsi_encodes|]. apply encodes_seq; [by apply diswsi_encodes|].
  apply encodes_seq; [apply diswui_uint|]. by apply encode_un_encodes.
Qed.

(** *** Reading *)

Lemma wire_reply_hdr r :
  wire_reply r =
  (wire_num c_plus PBS_BATCH_PROT_TYPE ++ wire_num c_plus PBS_BATCH_PROT_VER ++
   wire_int (brp_code r) ++ wire_int (brp_auxcode r) ++ wire_uint (brp_choice r)) ++ wire_un (brp_un r).
Proof. unfold wire_reply. by rewrite <- !app_assoc. Qed.

Lemma decode_reply_hdr_decodes r :
  int_ok (brp_code r) -> int_ok (brp_auxcode r) -> int_ok (brp_choice r) ->
  decodes decode_reply_hdr
    (wire_num c_plus PBS_BATCH_PROT_TYPE ++ wire_num c_plus PBS_BATCH_PROT_VER ++
     wire_int (brp_code r) ++ wire_int (brp_auxcode r) ++ wire_uint (brp_choice r))
    (0, set_un r brp_none).
Proof.
  intros Hc Ha Hch. unfold decode_reply_hdr.
  eapply decodes_bind; [by apply disrui_decodes|]. cbv beta iota zeta.
  change (negb (i32 PBS_BATCH_PROT_TYPE =? PBS_BATCH_PROT_TYPE)) with false.
  change (negb (0 =? 0)) with false. cbv iota.
  eapply decodes_bind; [by apply disrui_decodes|]. cbv beta iota zeta.
  change (negb (i32 PBS_BATCH_PROT_VER =? PBS_BATCH_PROT_VER)) with false.
  change (negb (0 =? 0)) with false. cbv iota.
  eapply decodes_bind; [by apply disrsi_decodes|]. cbv beta iota. change (negb (0 =? 0)) with false.
  eapply decodes_bind; [by apply disrsi_decodes|]. cbv beta iota. change (negb (0 =? 0)) with false.
  eapply decodes_last; [apply disrui_uint|]. cbv beta iota. by rewrite int_ok_u32.
Qed.

Lemma decode_select_item_decodes s :
  field PBS_MAXSVRJOBID s ->
  decodes (decode_select_item (PBS_MAXSVRJOBID + 1) PBS_MAXSVRJOBID) (wire_str s) (0, Some s, true).
Proof.
  intros Hs. unfold decode_select_item.
  rewrite alloc_ok by (unfold ALLOC_MAX, SIZEOF_BRP_SELECT; lia). cbn [negb].
  by eapply decodes_last; [by apply (disr_field_decodes PBS_MAXSVRJOBID s)|].
Qed.

Lemma decode_statc_item_decodes s :
  status_ok s -> decodes decode_statc_item (wire_status s) (0, Some (cmdstat_of s), true).
Proof.
  intros (Ht & Hn & Ha & Hz). unfold decode_statc_item, wire_status.
  rewrite alloc_ok by (unfold ALLOC_MAX, SIZEOF_BRP_CMDSTAT; lia). cbn [negb].
  eapply decodes_bind; [apply disrui_uint|]. cbv beta iota. change (0 =? 0) with true. cbv iota.
  eapply decodes_bind; [by apply disr_field_decodes|]. cbv beta iota.
  change (negb (0 =? 0)) with false. cbv iota.
  eapply decodes_last; [by apply decode_DIS_attrl_decodes, svrs_valid|]. cbv beta iota.
  change (negb (0 =? 0)) with false. cbv iota. by rewrite int_ok_u32.
Qed.

Lemma decode_ints_decodes l :
  Forall int_ok l -> decodes (decode_ints 0 (zlen l)) (wire_ints l) (0, l).
Proof.
  intros Hl. unfold decode_ints. change (0 =? 0) with true. cbv iota.
  apply decodes_last with (a := (0, map (fun x => x) l, false)); [|by rewrite map_id].
  unfold wire_ints. apply (read_n_decodes decode_int_item wire_uint (fun x => x)).
  eapply Forall_impl; [|exact Hl]. intros x Hx. split.
  - apply wire_num_nonempty. pose proof (u32_range x). unfold ULONG_MAX. lia.
  - eapply decodes_last; [apply disrui_uint|]. cbv beta iota. by rewrite int_ok_u32.
Qed.

Lemma count_uint {A} (l : list A) : zlen l <= UINT_MAX -> u32 (zlen l) = zlen l.
Proof. intros. pose proof (zlen_nonneg l). apply u32_small. unfold UINT_MAX in *. lia. Qed.

Lemma decode_rescq_decodes n a b c d :
  un_ok BATCH_REPLY_CHOICE_RescQuery (brp_rescq n a b c d) ->
  decodes decode_reply_rescq (wire_un (brp_rescq n a b c d)) (0, brp_rescq n a b c d).
Proof.
  intros (_ & Hn & Ha & Hb & Hc & Hd & Fa & Fb & Fc & Fd). unfold decode_reply_rescq, wire_un.
  pose proof (zlen_nonneg a). unfold INT_MAX in Hn.
  eapply decodes_bind; [apply disrui_uint|]. cbv beta iota zeta. change (negb (0 =? 0)) with false.
  cbv iota. rewrite int_ok_u32 by (unfold int_ok, INT_MIN, INT_MAX; lia).
  rewrite u64_small by lia. rewrite alloc_ok by (unfold ALLOC_MAX; lia). cbn [negb].
  eapply decodes_bind; [rewrite <- Ha; by apply decode_ints_decodes|]. cbv beta iota.
  eapply decodes_bind; [rewrite <- Hb; by apply decode_ints_decodes|]. cbv beta iota.
  eapply decodes_bind; [rewrite <- Hc; by apply decode_ints_decodes|]. cbv beta iota.
  by eapply decodes_last; [rewrite <- Hd; by apply decode_ints_decodes|].
Qed.

Lemma un_choice_int choice u : un_ok choice u -> int_ok choice.
Proof.
  unfold int_ok, INT_MIN, INT_MAX.
  destruct u; simpl; unfold BATCH_REPLY_CHOICE_NULL, BATCH_REPLY_CHOICE_Queue,
    BATCH_REPLY_CHOICE_RdytoCom, BATCH_REPLY_CHOICE_Commit, BATCH_REPLY_CHOICE_Select,
    BATCH_REPLY_CHOICE_Status, BATCH_REPLY_CHOICE_Text, BATCH_REPLY_CHOICE_Locate,
    BATCH_REPLY_CHOICE_RescQuery; intros; destruct_all; lia.
Qed.

Lemma decode_replyCmd_decodes r :
  reply_ok r -> decodes decode_DIS_replyCmd (wire_reply r) (0, view_cmd r).
Proof.
  intros (Hc & Ha & Hu). pose proof (un_choice_int _ _ Hu) as Hch. destruct r as [code aux choice u].
  simpl in *. unfold decode_DIS_replyCmd. rewrite wire_reply_hdr.
  cbn [brp_code brp_auxcode brp_choice brp_un].
  eapply decodes_bind;
    [apply (decode_reply_hdr_decodes (mk_batch_reply code aux choice u)); assumption|].
  cbv beta iota zeta. change (negb (0 =? 0)) with false. cbv iota. unfold set_un, view_cmd.
  cbn [brp_code brp_auxcode brp_choice brp_un fst snd].
  destruct u as [|s|l|l|l|s n|s|n a b c d]; simpl un_ok in Hu.
  - rewrite Hu. apply decodes_ret.
  - destruct Hu as [Hin Hs].
    assert (Hd : decodes (let* (rc, jid) := disr_field PBS_MAXSVRJOBID in
       st_ret (rc, mk_batch_reply code aux choice (brp_jid jid))) (wire_un (brp_jid s))
       (0, mk_batch_reply code aux choice (brp_jid s)))
      by (by eapply decodes_last; [by apply disr_field_decodes|]).
    by destruct Hin as [<-|[<-|[<-|[]]]].
  - destruct Hu as (-> & Hl & Hz). simpl. eapply decodes_bind; [apply disrui_uint|]. cbv beta iota.
    change (negb (0 =? 0)) with false. cbv iota. rewrite count_uint by done.
    apply decodes_last with (a := (0, map (fun x => x) l, false)); [|by rewrite map_id].
    apply (read_n_decodes _ wire_str (fun x => x)). eapply Forall_impl; [|exact Hl].
    intros s Hs. split; [apply wire_str_nonempty; by apply (field_cstr PBS_MAXSVRJOBID)|].
    by apply decode_select_item_decodes.
  - destruct Hu as (-> & Hl & Hz). simpl. eapply decodes_bind; [apply disrui_uint|]. cbv beta iota.
    change (negb (0 =? 0)) with false. cbv iota. rewrite count_uint by done.
    apply decodes_last with (a := (0, map cmdstat_of l, false)); [|reflexivity].
    apply (read_n_decodes _ wire_status cmdstat_of). eapply Forall_impl; [|exact Hl].
    intros s Hs. split; [|by apply decode_statc_item_decodes].
    intros E. apply app_nil in E as [E _]. revert E. apply wire_num_nonempty.
    pose proof (u32_range (bs_objtype s)). unfold ULONG_MAX. lia.
  - done.
  - destruct Hu as (-> & v & -> & -> & Hv). by eapply decodes_last; [by apply disrcs_decodes|].
  - destruct Hu as [-> Hs]. by eapply decodes_last; [by apply disr_field_decodes|].
  - destruct Hu as (-> & Hu). by eapply decodes_last; [by apply decode_rescq_decodes|].
Qed.

End RoundTrip.

(** ** Replies read by servers *)

(** The server form keeps the attributes inside their blocks. *)
Definition svrstat_of (s : brp_status) : brp_status :=
  mk_brp_status (bs_objtype s) (bs_objname s) (map svrattrl_of (map entry_of_svr (bs_attr s))).
Definition view_svr (r : batch_reply) : batch_reply :=
  set_un r (match brp_un r with brp_stat l => brp_stat (map svrstat_of l) | u => u end).

(** The choices [decode_DIS_replySvr] knows. *)
Definition svr_choice (r : batch_reply) : Prop := brp_choice r <> BATCH_REPLY_CHOICE_RescQuery.

Section ServerSide.
Context `{AllocOk}.

Lemma svr_field_decodes n s :
  0 <= n < INT_MAX -> field n s -> decodes (disrfst (n + 1) (n + 1)) (wire_str s) (0, s).
Proof.
  intros Hn [Hf Hl]. apply disrfst_decodes; (done || lia).
Qed.

Lemma svr_status_loop_decodes l :
  Forall status_ok l -> forall fuel acc, (length l < fuel)%nat ->
  decodes (svr_status_loop fuel (zlen l) 0 acc) (concat (map wire_status l))
    (0, acc ++ map svrstat_of l).
Proof.
  induction 1 as [|s l (Ht & Hn & Ha & Hz) Hl IH]; intros fuel acc Hf;
    (destruct fuel as [|fuel]; [simpl in Hf; lia|]).
  - simpl. rewrite app_nil_r. apply decodes_ret.
  - cbn [svr_status_loop map concat]. rewrite zlen_cons. pose proof (zlen_nonneg l).
    destruct (Z.ltb_spec 0 (zlen l + 1)); [|lia].
    rewrite alloc_ok by (unfold ALLOC_MAX, SIZEOF_BRP_STATUS; lia). cbn [negb].
    unfold wire_status at 1. rewrite <- !app_assoc.
    eapply decodes_bind; [apply disrui_uint|]. cbv beta iota. change (0 =? 0) with true. cbv iota.
    eapply decodes_bind; [by apply (svr_field_decodes PBS_MAXSVRJOBID)|]. cbv beta iota.
    change (negb (0 =? 0)) with false. cbv iota.
    eapply decodes_bind; [by apply decode_DIS_svrattrl_decodes, svrs_valid|]. cbv beta iota.
    rewrite int_ok_u32 by done. replace (zlen l + 1 - 1) with (zlen l) by lia.
    change (mk_brp_status (bs_objtype s) (bs_objname s) (map svrattrl_of (map entry_of_svr (bs_attr s))))
      with (svrstat_of s).
    replace (acc ++ svrstat_of s :: map svrstat_of l) with ((acc ++ [svrstat_of s]) ++ map svrstat_of l)
      by (by rewrite <- app_assoc). apply IH. simpl in Hf. lia.
Qed.

Lemma wire_status_nonempty s : wire_status s <> [].
Proof.
  intros E. apply app_nil in E as [E _]. revert E. apply wire_num_nonempty.
  pose proof (u32_range (bs_objtype s)). unfold ULONG_MAX. lia.
Qed.

Lemma svr_status_decodes l :
  Forall status_ok l ->
  decodes (svr_status (zlen l)) (concat (map wire_status l)) (0, map svrstat_of l).
Proof.
  intros Hl w rest Hw Hb Hf. unfold svr_status.
  apply (svr_status_loop_decodes l Hl) with (acc := []); [|done..].
  assert (length l <= length (concat (map wire_status l)))%nat.
  { clear. induction l as [|s l IH]; [done|]. simpl. rewrite length_app.
    pose proof (wire_status_nonempty s). destruct (wire_status s); [done|]. simpl. lia. }
  pose proof (front_unread w) as Hu. rewrite Hf, length_app in Hu. unfold unread, rmeasure in *. lia.
Qed.

Lemma decode_select_svr_decodes s :
  field PBS_MAXSVRJOBID s ->
  decodes (decode_select_item (PBS_MAXSVRJOBID + 1) (PBS_MAXSVRJOBID + 1)) (wire_str s) (0, Some s, true).
Proof.
  intros Hs. unfold decode_select_item.
  rewrite alloc_ok by (unfold ALLOC_MAX, SIZEOF_BRP_SELECT; lia). cbn [negb].
  by eapply decodes_last; [by apply (svr_field_decodes PBS_MAXSVRJOBID s)|].
Qed.

Lemma decode_replySvr_decodes r :
  reply_ok r -> svr_choice r -> decodes decode_DIS_replySvr (wire_reply r) (0, view_svr r).
Proof.
  intros (Hc & Ha & Hu) Hsvr. pose proof (un_choice_int _ _ Hu) as Hch. destruct r as [code aux choice u].
  unfold svr_choice in Hsvr. simpl in *. unfold decode_DIS_replySvr. rewrite wire_reply_hdr.
  cbn [brp_code brp_auxcode brp_choice brp_un].
  eapply decodes_bind;
    [apply (decode_reply_hdr_decodes (mk_batch_reply code aux choice u)); assumption|].
  cbv beta iota zeta. change (negb (0 =? 0)) with false. cbv iota. unfold set_un, view_svr.
  cbn [brp_code brp_auxcode brp_choice brp_un fst snd].
  destruct u as [|s|l|l|l|s n|s|n a b c d]; simpl un_ok in Hu.
  - rewrite Hu. apply decodes_ret.
  - destruct Hu as [Hin Hs].
    assert (Hd : decodes (let* (rc, jid) := disrfst (PBS_MAXSVRJOBID + 1) (PBS_MAXSVRJOBID + 1) in
       st_ret (rc, mk_batch_reply code aux choice (brp_jid jid))) (wire_un (brp_jid s))
       (0, mk_batch_reply code aux choice (brp_jid s)))
      by (by eapply decodes_last; [by apply svr_field_decodes|]).
    by destruct Hin as [<-|[<-|[<-|[]]]].
  - destruct Hu as (-> & Hl & Hz). simpl. eapply decodes_bind; [apply disrui_uint|]. cbv beta iota.
    change (negb (0 =? 0)) with false. cbv iota. rewrite count_uint by done.
    apply decodes_last with (a := (0, map (fun x => x) l, false)); [|by rewrite map_id].
    apply (read_n_decodes _ wire_str (fun x => x)). eapply Forall_impl; [|exact Hl].
    intros s Hs. split; [apply wire_str_nonempty; by apply (field_cstr PBS_MAXSVRJOBID)|].
    by apply decode_select_svr_decodes.
  - destruct Hu as (-> & Hl & Hz). simpl. eapply decodes_bind; [apply disrui_uint|]. cbv beta iota.
    change (negb (0 =? 0)) with false. cbv iota. rewrite count_uint by done.
    by eapply decodes_last; [by apply svr_status_decodes|].
  - done.
  - destruct Hu as (-> & v & -> & -> & Hv). by eapply decodes_last; [by apply disrcs_decodes|].
  - destruct Hu as [-> Hs]. by eapply decodes_last; [by apply svr_field_decodes|].
  - by destruct Hu as (-> & Hu).
Qed.

End ServerSide.

#[export] Instance reply_codec `{AllocOk} :
  Codec encode_DIS_reply decode_DIS_replyCmd reply_ok view_cmd.
Proof.
  refine {| wire := wire_reply |}; intros r Hr.
  - by apply encode_reply_encodes.
  - by apply decode_replyCmd_decodes.
Defined.

#[export] Instance reply_svr_codec `{AllocOk} :
  Codec encode_DIS_reply DIS_reply_read (fun r => reply_ok r /\ svr_choice r) view_svr.
Proof.
  refine {| wire := wire_reply |}; intros r [Hr Hc].
  - by apply encode_reply_encodes.
  - by apply decode_replySvr_decodes.
Defined.

Section ReplyTrip.
Context `{AllocOk}.

(** C4: the reply a server encodes and flushes is the reply a command decodes, whatever
    its kind: codes, job ids, selections, status lists with all their attributes, texts,
    locations and resource counts, however the network cuts the bytes. *)
Theorem reply_reaches_command r fds fdc chs chc wrs rdc :
  reply_ok r -> deliverable (wire_reply r) ->
  DIS_tcp_setup fds = Some chs -> DIS_tcp_setup fdc = Some chc ->
  crosses encode_DIS_reply decode_DIS_replyCmd r (wire_reply r) (0, view_cmd r) chs chc wrs rdc.
Proof.
  intros Hr Hd Hs Hc. exact (codec_crosses encode_DIS_reply decode_DIS_replyCmd reply_ok view_cmd
    r fds fdc chs chc wrs rdc Hr Hd Hs Hc).
Qed.

(** another server reads it too, with the attributes in the server form, unless it
    carries resource counts, which [decode_DIS_replySvr] has no case for. *)
Theorem reply_reaches_server r fds fdc chs chc wrs rdc :
  reply_ok r -> svr_choice r -> deliverable (wire_reply r) ->
  DIS_tcp_setup fds = Some chs -> DIS_tcp_setup fdc = Some chc ->
  crosses encode_DIS_reply DIS_reply_read r (wire_reply r) (0, view_svr r) chs chc wrs rdc.
Proof.
  intros Hr Hk Hd Hs Hc. exact (codec_crosses encode_DIS_reply DIS_reply_read
    (fun r => reply_ok r /\ svr_choice r) view_svr r fds fdc chs chc wrs rdc (conj Hr Hk) Hd Hs Hc).
Qed.

(** a server that reads a reply whose job id has [PBS_MAXSVRJOBID + 1] characters
    stores the terminator past the array of the reply: the limit passed to [disrfst] is
    the size of the array, one more than its room for characters. *)
Theorem replySvr_overruns_jobid code aux choice jid :
  int_ok code -> int_ok aux ->
  In choice [BATCH_REPLY_CHOICE_Queue; BATCH_REPLY_CHOICE_RdytoCom; BATCH_REPLY_CHOICE_Commit] ->
  nul_free jid -> zlen jid = PBS_MAXSVRJOBID + 1 ->
  crashes DIS_reply_read (wire_reply (mk_batch_reply code aux choice (brp_jid jid))).
Proof.
  intros Hc Ha Hin Hn Hl. unfold DIS_reply_read, decode_DIS_replySvr. rewrite wire_reply_hdr.
  cbn [brp_code brp_auxcode brp_choice brp_un].
  eapply crashes_bind.
  - apply (decode_reply_hdr_decodes (mk_batch_reply code aux choice (brp_jid jid)));
      [assumption..|]. simpl. by destruct Hin as [<-|[<-|[<-|[]]]].
  - cbv beta iota zeta. change (negb (0 =? 0)) with false. cbv iota. unfold set_un.
    cbn [brp_code brp_auxcode brp_choice brp_un fst snd].
    assert (Hd : crashes (let* (rc, jid) := disrfst (PBS_MAXSVRJOBID + 1) (PBS_MAXSVRJOBID + 1) in
       st_ret (rc, mk_batch_reply code aux choice (brp_jid jid))) (wire_un (brp_jid jid))).
    { apply crashes_first, disrfst_crashes; [done|lia|lia|]. rewrite Hl. done. }
    by destruct Hin as [<-|[<-|[<-|[]]]].
Qed.

End ReplyTrip.

(** ** Replies from any server *)

(** A branch that returns without having to consume input. *)
Ltac sret := apply safe_ret; [first [done | by left | by right]|tauto].

Section AnyReply.
Context `{AllocOk}.

Lemma decode_reply_hdr_safe :
  safe decode_reply_hdr (fun '(rc, r) => dis_code rc) (fun _ => False).
Proof.
  unfold decode_reply_hdr. cbv zeta. safe_step. safe_step; [|sret].
  destruct (negb (i32 z =? _)); [sret|]. safe_step. safe_step; [|sret].
  destruct (negb (i32 z1 =? _)); [sret|].
  safe_step. safe_step; [|sret]. safe_step. safe_step; [|sret]. safe_step. sret.
Qed.

(** One entry of the loops below: a code, and the entry when it is 0. *)
Definition item_safe {A} (item : M (Z * option A * bool)) : Prop :=
  safe item (fun '(rc, x, _) => dis_code rc /\
      match x with Some _ => rc = 0 /\ True | None => rc <> 0 end) (fun '(_, x, _) => is_Some x).

Lemma read_code_item {A} (rc : Z) (a : A) :
  dis_code rc -> dis_code rc /\
    match (if rc =? 0 then Some a else None) with Some _ => rc = 0 /\ True | None => rc <> 0 end.
Proof. intros. split; [done|]. by destruct (Z.eqb_spec rc 0). Qed.

Lemma decode_select_item_safe cap limit :
  0 <= limit < cap -> limit <= INT_MAX -> item_safe (decode_select_item cap limit).
Proof.
  intros Hc Hl. unfold item_safe, decode_select_item.
  rewrite alloc_ok by (unfold ALLOC_MAX, SIZEOF_BRP_SELECT; lia). cbn [negb].
  eapply safe_bind; [by apply disrfst_safe|]. intros [rc s] (Hrc & _).
  apply safe_ret; [by apply read_code_item|]. destruct (Z.eqb_spec rc 0); [tauto|].
  by intros [[] _].
Qed.

Lemma decode_int_item_safe : item_safe decode_int_item.
Proof.
  unfold item_safe, decode_int_item. safe_step.
  apply safe_ret; [by apply read_code_item|]. destruct (Z.eqb_spec z0 0); [tauto|]. by intros [[] _].
Qed.

Lemma decode_statc_item_safe : item_safe decode_statc_item.
Proof.
  unfold item_safe, decode_statc_item.
  rewrite alloc_ok by (unfold ALLOC_MAX, SIZEOF_BRP_CMDSTAT; lia). cbn [negb].
  safe_step.
  eapply safe_bind with (P1 := fun '(rc, _) => dis_code rc) (ok1 := fun '(rc, _) => z0 <> 0 /\ rc = 0).
  { destruct (Z.eqb_spec z0 0).
    - eapply safe_weaken; [by apply disr_field_safe| |].
      + by intros [? ?] [? _].
      + intros [? ?]. tauto.
    - sret. }
  intros [rc name] Hrc. safe_step; [|apply safe_ret; [done|]; by intros [[[] _] _]].
  eapply safe_bind; [apply decode_DIS_attrl_safe|]. intros [[rc' l] d] [Hrc' _].
  safe_step; [|apply safe_ret; [done|]; by intros [[[[] _] _] _]].
  sret.
Qed.

Lemma decode_ints_safe rc n :
  dis_code rc -> safe (decode_ints rc n) (fun '(rc, _) => dis_code rc) (fun _ => False).
Proof.
  intros Hrc. unfold decode_ints. destruct (rc =? 0); [|sret].
  eapply safe_bind; [apply (read_n_safe decode_int_item _ _ decode_int_item_safe)|].
  intros [[rc' l] d] (? & _). sret.
Qed.

Lemma decode_reply_rescq_safe :
  safe decode_reply_rescq (fun '(rc, _) => dis_code rc) (fun _ => False).
Proof.
  unfold decode_reply_rescq. safe_step. safe_step; [|sret]. cbv zeta. destruct (negb _); [sret|].
  do 4 (eapply safe_bind; [by apply decode_ints_safe|]; intros [? ?] ?). sret.
Qed.

Lemma reply_list_safe {A} ct (item : M (Z * option A * bool)) (f : list A -> reply_un) r ok :
  item_safe item -> (forall x, ~ ok x) ->
  safe (let* (rc, l, _) := read_n ct item in st_ret (fst (rc, f l), set_un r (snd (rc, f l))))
    (fun '(rc, _) => dis_code rc \/ rc = -1) ok.
Proof.
  intros Hi Hok. eapply safe_bind; [apply (read_n_safe item (fun _ => True) ct Hi)|].
  intros [[rc' l] d] (? & _). apply safe_ret; [by left|]. by intros [?%Hok _].
Qed.

(** The whole decoder, with its lists of jobs, statuses and resource counts. *)
Lemma decode_DIS_replyCmd_safe :
  safe decode_DIS_replyCmd (fun '(rc, _) => dis_code rc \/ rc = -1) (fun _ => False).
Proof.
  unfold decode_DIS_replyCmd. eapply safe_bind; [apply decode_reply_hdr_safe|].
  intros [rc r] Hrc. cbv zeta.
  safe_step; [|sret].
  destruct (brp_choice r =? _); [sret|].
  destruct (is_case _ _); [eapply safe_bind; [by apply disr_field_safe|]; intros [? ?] [? _];
    sret|].
  destruct (brp_choice r =? _).
  { safe_step. safe_step; [|sret].
    apply reply_list_safe; [by apply decode_select_item_safe|tauto]. }
  destruct (brp_choice r =? _).
  { safe_step. safe_step; [|sret].
    apply reply_list_safe; [apply decode_statc_item_safe|tauto]. }
  destruct (brp_choice r =? _); [safe_step; sret|].
  destruct (brp_choice r =? _); [eapply safe_bind; [by apply disr_field_safe|]; intros [? ?] [? _];
    sret|].
  destruct (brp_choice r =? _); [|sret].
  eapply safe_bind; [apply decode_reply_rescq_safe|]. intros [rc' u] Hrc'. sret.
Qed.

End AnyReply.

Section ReplyWitnesses.
#[local] Existing Instance generous.
#[local] Existing Instance generous_ok.

(** The status of job 17: one attribute. *)
Definition status17 : batch_reply :=
  mk_batch_reply 0 0 BATCH_REPLY_CHOICE_Status
    (brp_stat [mk_brp_status 2 [49;55] [svr_of 4 [97] None [98] SET]]).

Lemma status17_ok : reply_ok status17.
Proof.
  split; [vm_compute; split; discriminate|]. split; [vm_compute; split; discriminate|].
  split; [reflexivity|]. split; [|vm_compute; discriminate]. constructor; [|constructor].
  split; [vm_compute; split; discriminate|].
  split; [split; [repeat constructor; discriminate|vm_compute; discriminate]|].
  split; [|vm_compute; discriminate]. constructor; [|constructor].
  split; [by eexists|]. split; [by eexists|]. split; [|by intros [? ?]].
  split; [constructor; simpl|vm_compute; split; discriminate].
  - repeat constructor; discriminate.
  - intros s. discriminate.
  - repeat constructor; discriminate.
  - vm_compute. discriminate.
  - vm_compute. split; discriminate.
Qed.

Lemma status17_deliverable : deliverable (wire_reply status17).
Proof. split; [vm_compute; reflexivity|right; vm_compute; reflexivity]. Qed.

Lemma reply_reaches_command_witness :
  crosses encode_DIS_reply decode_DIS_replyCmd status17 (wire_reply status17)
    (0, mk_batch_reply 0 0 BATCH_REPLY_CHOICE_Status
          (brp_statc [mk_brp_cmdstat 2 [49;55] [mk_attrl (Some [97]) None (Some [98])]]))
    (chan_of 3) (chan_of 4) [WrSome 2] [RdData (wire_reply status17)].
Proof.
  apply (reply_reaches_command status17 3 4);
    [apply status17_ok|apply status17_deliverable|apply setup_some; lia|apply setup_some; lia].
Defined.

Lemma reply_reaches_server_witness :
  crosses encode_DIS_reply DIS_reply_read status17 (wire_reply status17) (0, view_svr status17)
    (chan_of 3) (chan_of 4) [WrSome 2] [RdData (wire_reply status17)].
Proof.
  apply (reply_reaches_server status17 3 4);
    [apply status17_ok|discriminate|apply status17_deliverable|apply setup_some; lia|apply setup_some; lia].
Defined.

Lemma replySvr_overruns_jobid_witness :
  crashes DIS_reply_read (wire_reply (mk_batch_reply 0 0 BATCH_REPLY_CHOICE_Queue
    (brp_jid (replicate (Z.to_nat 1047) 49)))).
Proof.
  apply replySvr_overruns_jobid.
  - vm_compute. split; discriminate.
  - vm_compute. split; discriminate.
  - left. reflexivity.
  - apply Forall_replicate. discriminate.
  - reflexivity.
Defined.

End ReplyWitnesses.
