(* ===== verification/Client.v ===== *)
(** * The client library (src/src/lib/Libifl/PBSD_*.c, pbsD_*.c)

    A call of the batch interface checks its arguments, sends one request on the
    connection's socket and reads the reply on a second channel of the same socket.
    The entry [connection[c]] of the connection table is part of the state, with its
    mutex: locking a mutex that is held and unlocking one that is not are undefined
    for the default mutexes of [pbs_original_connect].  The error text of a
    connection is not modelled; the lookups in [dis_emsg] that make it are. *)

From S2P Require Import Prelude CLib TcpDis Codec DisInt DisStr Attrs Requests DisRead Hostile Replies.
From stdpp Require Import base list numbers option.

Local Open Scope Z_scope.
Local Open Scope st_scope.

Definition PBSE_IVALREQ : Z := 15004.
Definition PBSE_SYSTEM : Z := 15012.
Definition PBSE_PROTOCOL : Z := 15033.
Definition PBSE_BAD_PARAMETER : Z := 15122.
Definition PBSE_EOF : Z := 15171.
Definition PBS_NET_MAX_CONNECTIONS : Z := 65535.
Definition SIZEOF_BATCH_REPLY : Z := 1064.
Definition MGR_CMD_DELETE : Z := 1.
Definition MGR_CMD_SET : Z := 2.
Definition MGR_OBJ_JOB : Z := 2.

(** [ATTR_h], ["Hold_Types"]; [PURGECOMP], ["purgecomplete="]; and ["u"]. *)
Definition ATTR_h : list Z := [72;111;108;100;95;84;121;112;101;115].
Definition PURGECOMP : list Z := [112;117;114;103;101;99;111;109;112;108;101;116;101;61].
Definition hold_u : list Z := [117].

(** ** State *)

(** [ch_mutex]: whether this thread holds the mutex. *)
Record connection := mk_connection { ch_socket : Z; ch_errno : Z; ch_mutex : bool }.

(** The process, [connection[c]] and the caller's [*local_errno]. *)
Record cstate := mk_cstate { cw : world; cn : connection; local_errno : Z }.

Definition C (A : Type) : Type := ST cstate A.

Definition io {A} (m : M A) : C A := fun s =>
  match m (cw s) with
  | Ret a w => Ret a (mk_cstate w (cn s) (local_errno s))
  | UB => UB
  | OutOfFuel => OutOfFuel
  end.

Definition set_mutex (b : bool) (s : cstate) : cstate :=
  mk_cstate (cw s) (mk_connection (ch_socket (cn s)) (ch_errno (cn s)) b) (local_errno s).

Definition pthread_mutex_lock : C unit := fun s =>
  if ch_mutex (cn s) then UB else Ret tt (set_mutex true s).
Definition pthread_mutex_unlock : C unit := fun s =>
  if ch_mutex (cn s) then Ret tt (set_mutex false s) else UB.

Definition set_ch_errno (e : Z) : C unit := st_modify (fun s =>
  mk_cstate (cw s) (mk_connection (ch_socket (cn s)) e (ch_mutex (cn s))) (local_errno s)).
Definition set_local_errno (e : Z) : C unit := st_modify (fun s => mk_cstate (cw s) (cn s) e).

Definition get_ch_errno : C Z := let* s := st_get in st_ret (ch_errno (cn s)).
Definition get_socket : C Z := let* s := st_get in st_ret (ch_socket (cn s)).

(** [(c < 0) || (c >= PBS_NET_MAX_CONNECTIONS)] *)
Definition bad_conn (c : Z) : bool := (c <? 0) || (PBS_NET_MAX_CONNECTIONS <=? c).

(** [(s == NULL) || ( *s == '\0')] *)
Definition no_string (s : cptr) : bool :=
  match s with None => true | Some [] => true | Some (x :: _) => x =? 0 end.

Section Ops.
Context `{Platform}.

(** ** Replies *)

Definition set_pbs_errno_from_dis_errcode (dis_errcode : Z) : Z :=
  if is_case dis_errcode [DIS_OVERFLOW; DIS_HUGEVAL; DIS_BADSIGN; DIS_LEADZRO; DIS_NONDIGIT;
       DIS_NULLSTR; DIS_EOD; DIS_PROTO; DIS_NOCOMMIT; DIS_INVALID] then PBSE_PROTOCOL
  else if dis_errcode =? DIS_NOMALLOC then PBSE_MEM_MALLOC
  else if dis_errcode =? DIS_EOF then PBSE_EOF
  else dis_errcode.

Definition PBSD_rdrpy (c : Z) : C (option batch_reply) :=
  if bad_conn c then st_ret None
  else
    let* sock := get_socket in
    if negb (calloc_ok SIZEOF_BATCH_REPLY) then
      set_ch_errno PBSE_SYSTEM >>> set_local_errno PBSE_SYSTEM >>> st_ret None
    else match DIS_tcp_setup sock with
    | None => set_local_errno PBSE_MEM_MALLOC >>> st_ret None
    | Some ch =>
        io (st_modify (set_chan ch)) >>>
        let* (rc, reply) := io decode_DIS_replyCmd in
        if negb (rc =? 0) then
          let* s := st_get in
          let rc := if IsTimeout (chan (cw s)) =? 1 then PBSE_TIMEOUT else rc in
          let e := set_pbs_errno_from_dis_errcode rc in
          set_local_errno e >>> set_ch_errno e >>>
          (if (0 <=? rc) && (rc <=? DIS_INVALID) then io (dis_emsg rc) else st_ret tt) >>>
          st_ret None
        else
          set_ch_errno (brp_code reply) >>> set_local_errno (brp_code reply) >>> st_ret (Some reply)
    end.

(** ** Requests *)

(** The three encoders in the [||] chain of every call; [user] is [pbs_current_user]. *)
Definition request (function : Z) (user : list Z) (body : M Z) (extend : cptr) : M Z :=
  encode_DIS_ReqHdr function (Some user) >>? body >>? encode_DIS_ReqExtend extend.

(** [DIS_tcp_setup] on the connection's socket, then the encoders. *)
Definition open_and_encode (m : M Z) (null_rc : Z) (ok : C Z) : C Z :=
  let* sock := get_socket in
  match DIS_tcp_setup sock with
  | None => pthread_mutex_unlock >>> st_ret null_rc
  | Some ch =>
      io (st_modify (set_chan ch)) >>>
      let* rc := io m in
      if negb (rc =? 0) then io (dis_emsg rc) >>> pthread_mutex_unlock >>> st_ret PBSE_PROTOCOL
      else ok
  end.

Definition PBSD_sig_put (user : list Z) (c : Z) (jobid signal extend : cptr) : C Z :=
  if bad_conn c then st_ret PBSE_IVALREQ
  else
    pthread_mutex_lock >>>
    open_and_encode (request PBS_BATCH_SignalJob user (encode_DIS_SignalJob jobid signal) extend)
      PBSE_PROTOCOL
      (let* f := io DIS_tcp_wflush in
       pthread_mutex_unlock >>>
       st_ret (if negb (f =? 0) then PBSE_PROTOCOL else 0)).

Definition PBSD_async_sig_put (user : list Z) (c : Z) (jobid signal extend : cptr) : C Z :=
  if bad_conn c then st_ret PBSE_IVALREQ
  else
    pthread_mutex_lock >>>
    open_and_encode (request PBS_BATCH_SignalJob user (encode_DIS_SignalJob jobid signal) extend)
      PBSE_PROTOCOL
      (pthread_mutex_unlock >>>
       let* f := io DIS_tcp_wflush in
       st_ret (if negb (f =? 0) then PBSE_PROTOCOL else 0)).

Definition PBSD_mgr_put (user : list Z) (c function command objtype : Z) (objname : cptr)
    (aoplp : list attropl) (extend : cptr) : C Z :=
  if bad_conn c then st_ret PBSE_BAD_PARAMETER
  else
    pthread_mutex_lock >>>
    open_and_encode (request function user (encode_DIS_Manage command objtype objname aoplp) extend)
      PBSE_PROTOCOL
      (let* f := io DIS_tcp_wflush in
       let* rc := (if negb (f =? 0) then pthread_mutex_unlock >>> st_ret PBSE_PROTOCOL else st_ret 0) in
       pthread_mutex_unlock >>> st_ret rc).

Definition PBSD_msg_put (user : list Z) (c : Z) (jobid : cptr) (fileopt : Z) (msg extend : cptr) : C Z :=
  if bad_conn c then st_ret PBSE_IVALREQ
  else
    pthread_mutex_lock >>>
    open_and_encode (request PBS_BATCH_MessJob user (encode_DIS_MessageJob jobid fileopt msg) extend)
      PBSE_MEM_MALLOC
      (pthread_mutex_unlock >>>
       let* f := io DIS_tcp_wflush in
       st_ret (if negb (f =? 0) then PBSE_PROTOCOL else 0)).

Definition PBSD_status_put (user : list Z) (c function : Z) (id : cptr) (attrib : list attrl)
    (extend : cptr) : C Z :=
  if bad_conn c then st_ret PBSE_IVALREQ
  else
    pthread_mutex_lock >>>
    open_and_encode (request function user (encode_DIS_Status id attrib) extend)
      PBSE_MEM_MALLOC
      (pthread_mutex_unlock >>>
       io DIS_tcp_wflush >>>
       st_ret PBSE_NONE).

Definition PBSD_gpu_put (user : list Z) (c : Z) (node gpuid : cptr) (gpumode reset_perm reset_vol : Z)
    (extend : cptr) : C Z :=
  if bad_conn c then st_ret PBSE_IVALREQ
  else
    let* sock := get_socket in
    match DIS_tcp_setup sock with
    | None => st_ret PBSE_PROTOCOL
    | Some ch =>
        io (st_modify (set_chan ch)) >>>
        let* rc := io (request PBS_BATCH_GpuCtrl user
                         (encode_DIS_GpuCtrl node gpuid gpumode reset_perm reset_vol) extend) in
        if negb (rc =? 0) then
          pthread_mutex_lock >>> io (dis_emsg rc) >>> pthread_mutex_unlock >>> st_ret PBSE_PROTOCOL
        else
          let* f := io DIS_tcp_wflush in
          st_ret (if negb (f =? 0) then PBSE_PROTOCOL else 0)
    end.

(** ** Calls *)

(** The tail of the calls that send a request themselves: lock, send, read the reply,
    return [connection[c].ch_errno]. *)
Definition direct_call (c : Z) (m : M Z) : C Z :=
  pthread_mutex_lock >>>
  open_and_encode m PBSE_PROTOCOL
    (let* f := io DIS_tcp_wflush in
     if negb (f =? 0) then pthread_mutex_unlock >>> st_ret PBSE_PROTOCOL
     else
       PBSD_rdrpy c >>>
       let* rc := get_ch_errno in
       pthread_mutex_unlock >>> st_ret rc).

Definition pbs_movejob_err (user : list Z) (c : Z) (jobid destin extend : cptr) : C Z :=
  if bad_conn c then st_ret PBSE_IVALREQ
  else if no_string jobid then st_ret PBSE_IVALREQ
  else direct_call c (request PBS_BATCH_MoveJob user (encode_DIS_MoveJob jobid (or_empty destin)) extend).

Definition pbs_orderjob_err (user : list Z) (c : Z) (job1 job2 extend : cptr) : C Z :=
  if no_string job1 || no_string job2 then st_ret PBSE_IVALREQ
  else if bad_conn c then st_ret PBSE_IVALREQ
  else direct_call c (request PBS_BATCH_OrderJob user (encode_DIS_MoveJob job1 job2) extend).

Definition pbs_asyrunjob_err (user : list Z) (c : Z) (jobid location extend : cptr) : C Z :=
  if no_string jobid then st_ret PBSE_IVALREQ
  else if bad_conn c then st_ret PBSE_IVALREQ
  else direct_call c (request PBS_BATCH_AsyrunJob user
                        (encode_DIS_RunJob jobid (or_empty location) 0) extend).

Definition pbs_stagein (user : list Z) (c : Z) (jobid location extend : cptr) : C Z :=
  if no_string jobid then st_ret PBSE_IVALREQ
  else if bad_conn c then st_ret PBSE_IVALREQ
  else direct_call c (request PBS_BATCH_StageIn user
                        (encode_DIS_RunJob jobid (or_empty location) 0) extend).

Definition pbs_rerunjob_err (user : list Z) (c : Z) (jobid extend : cptr) : C Z :=
  if no_string jobid then st_ret PBSE_IVALREQ
  else if bad_conn c then st_ret PBSE_IVALREQ
  else direct_call c (request PBS_BATCH_Rerun user (encode_DIS_JobId jobid) extend).

Definition pbs_terminate_err (user : list Z) (c manner : Z) (extend : cptr) : C Z :=
  if bad_conn c then st_ret PBSE_IVALREQ
  else direct_call c (request PBS_BATCH_Shutdown user (encode_DIS_ShutDown manner) extend).

(** [rc] is the caller's [*local_errno]. *)
Definition pbs_runjob_err (user : list Z) (c : Z) (jobid location extend : cptr) : C Z :=
  if no_string jobid then set_local_errno PBSE_IVALREQ >>> st_ret (- PBSE_IVALREQ)
  else if bad_conn c then st_ret (- PBSE_IVALREQ)
  else
    pthread_mutex_lock >>>
    let* sock := get_socket in
    match DIS_tcp_setup sock with
    | None => pthread_mutex_unlock >>> set_local_errno PBSE_PROTOCOL >>> st_ret PBSE_PROTOCOL
    | Some ch =>
        io (st_modify (set_chan ch)) >>>
        let* rc := io (request PBS_BATCH_RunJob user
                         (encode_DIS_RunJob jobid (or_empty location) 0) extend) in
        set_local_errno rc >>>
        if negb (rc =? 0) then io (dis_emsg rc) >>> pthread_mutex_unlock >>> st_ret PBSE_PROTOCOL
        else
          let* f := io DIS_tcp_wflush in
          set_local_errno f >>>
          if negb (f =? 0) then pthread_mutex_unlock >>> st_ret PBSE_PROTOCOL
          else
            PBSD_rdrpy c >>>
            pthread_mutex_unlock >>>
            let* s := st_get in st_ret (local_errno s)
    end.

(** A request sent by one of the functions above, then the reply. *)
Definition read_answer (c : Z) : C Z :=
  pthread_mutex_lock >>> PBSD_rdrpy c >>>
  let* rc := get_ch_errno in
  pthread_mutex_unlock >>> st_ret rc.

Definition pbs_sigjob_err (user : list Z) (c : Z) (jobid signal extend : cptr) : C Z :=
  if no_string jobid || no_string signal then st_ret PBSE_IVALREQ
  else if bad_conn c then st_ret PBSE_IVALREQ
  else
    let* rc := PBSD_sig_put user c jobid signal extend in
    if negb (rc =? 0) then st_ret rc else read_answer c.

(** The second half of the argument check tests [jobid] again, not [signal]. *)
Definition pbs_sigjobasync_err (user : list Z) (c : Z) (jobid signal extend : cptr) : C Z :=
  if no_string jobid || bool_decide (signal = None) then st_ret PBSE_IVALREQ
  else if bad_conn c then st_ret PBSE_IVALREQ
  else
    let* rc := PBSD_async_sig_put user c jobid signal extend in
    if negb (rc =? 0) then st_ret rc else read_answer c.

Definition pbs_msgjob_err (user : list Z) (c : Z) (jobid : cptr) (fileopt : Z) (msg extend : cptr) : C Z :=
  if no_string jobid || no_string msg then st_ret PBSE_IVALREQ
  else if bad_conn c then st_ret PBSE_IVALREQ
  else
    pthread_mutex_lock >>>
    let* rc := PBSD_msg_put user c jobid fileopt msg extend in
    if negb (rc =? 0) then
      (if (0 <=? rc) && (rc <=? DIS_INVALID) then io (dis_emsg rc) else st_ret tt) >>>
      pthread_mutex_unlock >>> st_ret PBSE_PROTOCOL
    else
      PBSD_rdrpy c >>>
      let* rc := get_ch_errno in
      pthread_mutex_unlock >>> st_ret rc.

Definition PBSD_manager (user : list Z) (c function command objtype : Z) (objname : cptr)
    (aoplp : list attropl) (extend : cptr) : C Z :=
  if bad_conn c then st_ret PBSE_IVALREQ
  else
    let* rc := PBSD_mgr_put user c function command objtype objname aoplp extend in
    if negb (rc =? 0) then st_ret rc else read_answer c.

(** [strncmp(extend, PURGECOMP, strlen(PURGECOMP))] is 0. *)
Definition is_purge (extend : cptr) : bool :=
  match extend with
  | None => false
  | Some e => bool_decide (take (length PURGECOMP) e = PURGECOMP)
  end.

Definition pbs_deljob_err (user : list Z) (c : Z) (jobid extend : cptr) : C Z :=
  if bad_conn c then st_ret PBSE_IVALREQ
  else if negb (is_purge extend) && no_string jobid then st_ret PBSE_IVALREQ
  else PBSD_manager user c PBS_BATCH_DeleteJob MGR_CMD_DELETE MGR_OBJ_JOB jobid [] extend.

Definition hold_attr (holdtype : cptr) : attropl :=
  mk_attropl (Some ATTR_h) None (if no_string holdtype then Some hold_u else holdtype) SET.

Definition pbs_holdjob_err (user : list Z) (c : Z) (jobid holdtype extend : cptr) : C Z :=
  if no_string jobid then st_ret PBSE_IVALREQ
  else if bad_conn c then st_ret PBSE_IVALREQ
  else PBSD_manager user c PBS_BATCH_HoldJob MGR_CMD_SET MGR_OBJ_JOB jobid [hold_attr holdtype] extend.

Definition pbs_rlsjob_err (user : list Z) (c : Z) (jobid holdtype extend : cptr) : C Z :=
  if no_string jobid || (c <? 0) then st_ret PBSE_IVALREQ
  else PBSD_manager user c PBS_BATCH_ReleaseJob MGR_CMD_SET MGR_OBJ_JOB jobid [hold_attr holdtype] extend.

Definition pbs_checkpointjob_err (user : list Z) (c : Z) (jobid extend : cptr) : C Z :=
  if no_string jobid then st_ret PBSE_IVALREQ
  else if bad_conn c then st_ret PBSE_IVALREQ
  else PBSD_manager user c PBS_BATCH_CheckpointJob MGR_CMD_SET MGR_OBJ_JOB jobid [] extend.

Definition pbs_manager_err (user : list Z) (c command objtype : Z) (objname : cptr)
    (attrib : list attropl) (extend : cptr) : C Z :=
  PBSD_manager user c PBS_BATCH_Manager command objtype objname attrib extend.

Definition pbs_modify_node_err (user : list Z) (c command objtype : Z) (objname : cptr)
    (attrib : list attropl) (extend : cptr) : C Z :=
  PBSD_manager user c PBS_BATCH_ModifyNode command objtype objname attrib extend.

Definition pbs_gpumode_err (user : list Z) (c : Z) (node gpuid : cptr) (gpumode : Z) : C Z :=
  if bool_decide (node = None) || (gpumode <? 0) || (3 <? gpumode) || bool_decide (gpuid = None)
  then st_ret PBSE_IVALREQ
  else if bad_conn c then st_ret PBSE_IVALREQ
  else
    let* rc := PBSD_gpu_put user c node gpuid gpumode (-1) (-1) None in
    if negb (rc =? 0) then st_ret rc else PBSD_rdrpy c >>> get_ch_errno.

Definition pbs_gpureset_err (user : list Z) (c : Z) (node gpuid : cptr) (permanent vol : Z) : C Z :=
  if bool_decide (node = None) || (negb (permanent =? 1) && negb (permanent =? 0)) ||
     (negb (vol =? 1) && negb (vol =? 0)) || bool_decide (gpuid = None) ||
     ((permanent =? 1) && (vol =? 1))
  then st_ret PBSE_IVALREQ
  else
    let* rc := PBSD_gpu_put user c node gpuid (-1) permanent vol None in
    if negb (rc =? 0) then st_ret rc else PBSD_rdrpy c >>> get_ch_errno.

End Ops.

(** ** What a call does *)

(** A connection nobody else is using, and a network that takes what is written. *)
Record ready (s : cstate) : Prop := {
  rd_sock : 0 <= ch_socket (cn s);
  rd_mutex : ch_mutex (cn s) = false;
  rd_wr : ~ In WrFail (net_wr (cw s));
  rd_in : deliverable (all_data (net_in (cw s)));
  rd_statics : wf_statics (statics (cw s))
}.

(** The call sends exactly [o], and when the server answers with [r] it returns the
    code of [r], leaves it in [ch_errno] and [*local_errno], and releases the mutex. *)
Definition answered (f : C Z) (o : outgoing) : Prop :=
  forall s r, ready s -> deliverable (wire_outgoing o) -> reply_ok r ->
  delivers (net_in (cw s)) (wire_reply r) ->
  exists w', f s = Ret (brp_code r)
      (mk_cstate w' (mk_connection (ch_socket (cn s)) (brp_code r) false) (brp_code r))
    /\ net_out w' = net_out (cw s) ++ wire_outgoing o.

Section Calls.
Context `{AllocOk}.

Lemma io_ret {A} (m : M A) s a w : m (cw s) = Ret a w -> io m s = Ret a (mk_cstate w (cn s) (local_errno s)).
Proof. intros E. unfold io. by rewrite E. Qed.

Lemma io_bind {A B} (m : M A) (k : A -> C B) s a w :
  m (cw s) = Ret a w -> (let* x := io m in k x) s = k a (mk_cstate w (cn s) (local_errno s)).
Proof. intros E. by rewrite (st_bind_ret _ _ _ _ _ (io_ret m s a w E)). Qed.

(** Sending: the shared front half. *)
Lemma open_ok m bs null_rc (ok : C Z) s :
  0 <= ch_socket (cn s) -> encodes m bs 0 -> zlen bs < 2147483648 ->
  exists w1 f w2, DIS_tcp_wflush w1 = Ret f w2
    /\ net_in w2 = net_in (cw s) /\ statics w2 = statics (cw s)
    /\ (~ In WrFail (net_wr (cw s)) -> f = 0) /\ (f = 0 \/ f = -1)
    /\ (f = 0 -> net_out w2 = net_out (cw s) ++ bs)
    /\ open_and_encode m null_rc ok s = ok (mk_cstate w1 (cn s) (local_errno s)).
Proof.
  intros Hs He Hl. pose proof (setup_some _ Hs) as Hsetup.
  destruct (encode_and_flush _ _ m bs (cw s) Hsetup He Hl) as (w1 & f & w2 & E1 & E2 & Hr).
  exists w1, f, w2. split; [done|]. destruct Hr as (? & ? & ? & ? & ?). do 5 (split; [done|]).
  unfold open_and_encode, get_socket, st_bind at 1 2, st_get, st_ret at 1. rewrite Hsetup.
  unfold st_bind at 1, io at 1, st_modify. by rewrite (io_bind _ _ _ 0 w1).
Qed.

(** Receiving. *)
Lemma PBSD_rdrpy_ok c s r :
  bad_conn c = false -> 0 <= ch_socket (cn s) -> deliverable (all_data (net_in (cw s))) ->
  wf_statics (statics (cw s)) -> reply_ok r -> delivers (net_in (cw s)) (wire_reply r) ->
  exists w', PBSD_rdrpy c s = Ret (Some (view_cmd r))
      (mk_cstate w' (mk_connection (ch_socket (cn s)) (brp_code r) (ch_mutex (cn s))) (brp_code r))
    /\ net_out w' = net_out (cw s).
Proof.
  intros Hc Hs Hd Hst Hr [rest Hf]. pose proof (setup_some _ Hs) as Hsetup.
  destruct (setup_wf_world _ _ (cw s) Hsetup Hd Hst) as (Hw & Hb & Hfr). rewrite Hf in Hfr.
  destruct (decode_replyCmd_decodes r Hr _ rest Hw Hb Hfr) as (w' & E & _ & _ & _ & (_ & _ & _ & Ho) & _).
  exists w'. split; [|done]. unfold PBSD_rdrpy. rewrite Hc.
  unfold get_socket, st_bind at 1 2, st_get, st_ret at 1.
  rewrite alloc_ok by (unfold ALLOC_MAX, SIZEOF_BATCH_REPLY; lia). cbn [negb]. rewrite Hsetup.
  unfold st_bind at 1, io at 1, st_modify. by rewrite (io_bind _ _ _ (0, view_cmd r) w').
Qed.

Lemma direct_call_answered c m o :
  bad_conn c = false -> encodes m (wire_outgoing o) 0 -> answered (direct_call c m) o.
Proof.
  intros Hc He s r [Hs Hmu Hwr Hin Hst] [Hdel _] Hr Hdv. unfold direct_call, st_bind at 1, pthread_mutex_lock.
  rewrite Hmu.
  match goal with |- context [open_and_encode _ _ ?k ?s1] =>
    destruct (open_ok m _ PBSE_PROTOCOL k s1 Hs He) as (w1 & f & w2 & E & Hi & Hst2 & Hf & _ & Ho & ->);
      [lia|]
  end.
  simpl in *. specialize (Hf Hwr) as ->. rewrite (io_bind _ _ _ 0 w2) by done. simpl.
  destruct (PBSD_rdrpy_ok c (mk_cstate w2 (mk_connection (ch_socket (cn s)) (ch_errno (cn s)) true)
    (local_errno s)) r) as (w3 & E3 & Ho3); simpl; [done|done|by rewrite Hi|by rewrite Hst2|done|by rewrite Hi|].
  rewrite (st_bind_ret _ _ _ _ _ E3). exists w3. split; [reflexivity|]. simpl in Ho3. rewrite Ho3. auto.
Qed.

Lemma read_answer_ok c s r :
  bad_conn c = false -> 0 <= ch_socket (cn s) -> ch_mutex (cn s) = false ->
  deliverable (all_data (net_in (cw s))) -> wf_statics (statics (cw s)) -> reply_ok r ->
  delivers (net_in (cw s)) (wire_reply r) ->
  exists w', read_answer c s = Ret (brp_code r)
      (mk_cstate w' (mk_connection (ch_socket (cn s)) (brp_code r) false) (brp_code r))
    /\ net_out w' = net_out (cw s).
Proof.
  intros Hc Hs Hmu Hin Hst Hr Hdv. unfold read_answer, st_bind at 1, pthread_mutex_lock. rewrite Hmu.
  destruct (PBSD_rdrpy_ok c (set_mutex true s) r) as (w3 & E3 & Ho3); [done..|].
  rewrite (st_bind_ret _ _ _ _ _ E3). exists w3. by split.
Qed.

(** A [put] followed by the answer; [put] comes back with 0 and the mutex released. *)
Lemma put_answered c (put : C Z) o :
  bad_conn c = false ->
  (forall s, ready s -> deliverable (wire_outgoing o) ->
     exists w', put s = Ret 0 (mk_cstate w' (mk_connection (ch_socket (cn s)) (ch_errno (cn s)) false)
                                 (local_errno s))
       /\ net_out w' = net_out (cw s) ++ wire_outgoing o
       /\ net_in w' = net_in (cw s) /\ statics w' = statics (cw s)) ->
  answered (let* rc := put in if negb (rc =? 0) then st_ret rc else read_answer c) o.
Proof.
  intros Hc Hp s r Hrd Hdel Hr Hdv. destruct (Hp s Hrd Hdel) as (w1 & E & Ho & Hi & Hst).
  destruct Hrd as [Hs Hmu Hwr Hin Hst0]. rewrite (st_bind_ret _ _ _ _ _ E). simpl.
  destruct (read_answer_ok c (mk_cstate w1 (mk_connection (ch_socket (cn s)) (ch_errno (cn s)) false)
    (local_errno s)) r) as (w2 & E2 & Ho2); simpl;
    [done|done|done|by rewrite Hi|by rewrite Hst|done|by rewrite Hi|].
  exists w2. split; [exact E2|]. simpl in Ho2. by rewrite Ho2.
Qed.

(** What follows the encoders in the [put] functions: the flush and the unlock, in
    either order. *)
Definition flushes (k : C Z) : Prop :=
  forall w1 w2 sock e le, DIS_tcp_wflush w1 = Ret 0 w2 ->
  k (mk_cstate w1 (mk_connection sock e true) le) = Ret 0 (mk_cstate w2 (mk_connection sock e false) le).

Lemma put_ok m o null_rc k s :
  flushes k -> encodes m (wire_outgoing o) 0 -> ready s -> deliverable (wire_outgoing o) ->
  exists w', (pthread_mutex_lock >>> open_and_encode m null_rc k) s =
      Ret 0 (mk_cstate w' (mk_connection (ch_socket (cn s)) (ch_errno (cn s)) false) (local_errno s))
    /\ net_out w' = net_out (cw s) ++ wire_outgoing o
    /\ net_in w' = net_in (cw s) /\ statics w' = statics (cw s).
Proof.
  intros Hk He [Hs Hmu Hwr Hin Hst] [Hdel _]. unfold st_bind at 1, pthread_mutex_lock. rewrite Hmu.
  destruct (open_ok m _ null_rc k (set_mutex true s) Hs He)
    as (w1 & f & w2 & E & Hi & Hst2 & Hf & _ & Ho & ->); [lia|].
  simpl in *. specialize (Hf Hwr) as ->. exists w2. rewrite (Hk _ _ _ _ _ E). auto.
Qed.

Lemma flushes_then_unlock :
  flushes (let* f := io DIS_tcp_wflush in pthread_mutex_unlock >>>
           st_ret (if negb (f =? 0) then PBSE_PROTOCOL else 0)).
Proof. intros w1 w2 sock e le E. by rewrite (io_bind _ _ _ 0 w2). Qed.

Lemma unlock_then_flushes :
  flushes (pthread_mutex_unlock >>> let* f := io DIS_tcp_wflush in
           st_ret (if negb (f =? 0) then PBSE_PROTOCOL else 0)).
Proof. intros w1 w2 sock e le E. unfold st_bind at 1, pthread_mutex_unlock. simpl. by rewrite (io_bind _ _ _ 0 w2). Qed.

Lemma mgr_flushes :
  flushes (let* f := io DIS_tcp_wflush in
           let* rc := (if negb (f =? 0) then pthread_mutex_unlock >>> st_ret PBSE_PROTOCOL else st_ret 0) in
           pthread_mutex_unlock >>> st_ret rc).
Proof. intros w1 w2 sock e le E. by rewrite (io_bind _ _ _ 0 w2). Qed.

Lemma no_string_field n s : field n s -> s <> [] -> no_string (Some s) = false.
Proof.
  intros [Hn _] Hne. destruct s as [|x s]; [done|]. simpl. apply Z.eqb_neq. by inversion Hn.
Qed.

Lemma request_encodes t user b ext :
  field PBS_MAXUSER user -> body_ok b -> ext_ok ext ->
  encodes (request t user (encode_body b) ext) (wire_outgoing (mk_outgoing t user b ext)) 0.
Proof. apply send_request_encodes. Qed.

Lemma PBSD_manager_answered user c t cmd objtype name attrs ext :
  bad_conn c = false -> field PBS_MAXUSER user -> body_ok (Manage cmd objtype name attrs) -> ext_ok ext ->
  answered (PBSD_manager user c t cmd objtype (Some name) attrs ext)
    (mk_outgoing t user (Manage cmd objtype name attrs) ext).
Proof.
  intros Hc Hu Hb He. unfold PBSD_manager. rewrite Hc. apply put_answered; [done|].
  intros s Hs Hd. unfold PBSD_mgr_put. rewrite Hc. apply put_ok; [apply mgr_flushes| |done|done].
  by apply (request_encodes t user (Manage cmd objtype name attrs) ext).
Qed.

Lemma PBSD_sig_put_ok user c jid sig ext s :
  bad_conn c = false -> field PBS_MAXUSER user -> body_ok (SignalJob jid sig) -> ext_ok ext ->
  let o := mk_outgoing PBS_BATCH_SignalJob user (SignalJob jid sig) ext in
  ready s -> deliverable (wire_outgoing o) ->
  exists w', PBSD_sig_put user c (Some jid) (Some sig) ext s =
      Ret 0 (mk_cstate w' (mk_connection (ch_socket (cn s)) (ch_errno (cn s)) false) (local_errno s))
    /\ net_out w' = net_out (cw s) ++ wire_outgoing o
    /\ net_in w' = net_in (cw s) /\ statics w' = statics (cw s).
Proof.
  intros Hc Hu Hb He o Hs Hd. unfold PBSD_sig_put. rewrite Hc.
  apply put_ok; [apply flushes_then_unlock| |done|done]. by apply request_encodes.
Qed.

Lemma PBSD_async_sig_put_ok user c jid sig ext s :
  bad_conn c = false -> field PBS_MAXUSER user -> body_ok (SignalJob jid sig) -> ext_ok ext ->
  let o := mk_outgoing PBS_BATCH_SignalJob user (SignalJob jid sig) ext in
  ready s -> deliverable (wire_outgoing o) ->
  exists w', PBSD_async_sig_put user c (Some jid) (Some sig) ext s =
      Ret 0 (mk_cstate w' (mk_connection (ch_socket (cn s)) (ch_errno (cn s)) false) (local_errno s))
    /\ net_out w' = net_out (cw s) ++ wire_outgoing o
    /\ net_in w' = net_in (cw s) /\ statics w' = statics (cw s).
Proof.
  intros Hc Hu Hb He o Hs Hd. unfold PBSD_async_sig_put. rewrite Hc.
  apply put_ok; [apply unlock_then_flushes| |done|done]. by apply request_encodes.
Qed.

(** [pbs_runjob_err] works through [*local_errno]. *)
Lemma pbs_runjob_answered user c jid loc ext :
  bad_conn c = false -> jid <> [] -> field PBS_MAXUSER user -> body_ok (RunJob jid loc 0) -> ext_ok ext ->
  answered (pbs_runjob_err user c (Some jid) (Some loc) ext)
    (mk_outgoing PBS_BATCH_RunJob user (RunJob jid loc 0) ext).
Proof.
  intros Hc Hj Hu Hb He s r [Hs Hmu Hwr Hin Hst] [Hdel _] Hr Hdv. pose proof (setup_some _ Hs) as Hsetup.
  unfold pbs_runjob_err. rewrite (no_string_field PBS_MAXSVRJOBID jid) by (by try apply Hb). rewrite Hc.
  destruct (encode_and_flush _ _ (request PBS_BATCH_RunJob user (encode_body (RunJob jid loc 0)) ext) _
    (cw s) Hsetup (request_encodes _ _ _ _ Hu Hb He)) as (w1 & f & w2 & E1 & E2 & Hi & Hst2 & Hf & _ & Ho);
    [lia|]. specialize (Hf Hwr) as ->.
  unfold st_bind at 1, pthread_mutex_lock. rewrite Hmu.
  unfold get_socket, st_bind at 1 2, st_get, st_ret at 1. cbn [cn ch_socket set_mutex]. rewrite Hsetup.
  unfold st_bind at 1, io at 1, st_modify. rewrite (io_bind _ _ _ 0 w1) by exact E1.
  unfold st_bind at 1, set_local_errno at 1, st_modify. simpl. rewrite (io_bind _ _ _ 0 w2) by exact E2.
  unfold st_bind at 1, set_local_errno at 1, st_modify. simpl.
  destruct (PBSD_rdrpy_ok c (mk_cstate w2 (mk_connection (ch_socket (cn s)) (ch_errno (cn s)) true) 0) r)
    as (w3 & E3 & Ho3); simpl; [done|done|by rewrite Hi|by rewrite Hst2|done|by rewrite Hi|].
  rewrite (st_bind_ret _ _ _ _ _ E3). exists w3. split; [reflexivity|]. simpl in Ho3. rewrite Ho3. auto.
Qed.

Lemma job_manage_ok cmd jid l :
  field PBS_MAXSVRJOBID jid -> 0 <= cmd <= 6 -> Forall valid_attropl l /\ zlen l <= UINT_MAX ->
  body_ok (Manage cmd MGR_OBJ_JOB jid l).
Proof.
  intros Hj Hc Hl. unfold body_ok, int_ok, INT_MIN, INT_MAX, MGR_OBJ_JOB.
  split; [lia|]. split; [lia|]. by split.
Qed.

(** C2: Fifteen calls of the batch interface, those that send one request and read one
    answer: moving, ordering, running (three ways), rerunning, terminating, signalling (two
    ways), deleting, checkpointing, holding and releasing a job, managing and modifying a
    node.  Each sends exactly the request it stands for and returns the server's answer: on
    an idle connection whose writes do not fail ([ready]), with arguments within the
    receiver's fields, it puts the wire image of its request on the socket (the image a
    server reads back as that request), and when the server answers with a reply, cut in any
    way, the call returns the code of the reply, leaves it in [ch_errno] and the caller's
    errno, and has released the connection's mutex.  [pbs_msgjob_err], which locks the
    mutex twice ([pbs_msgjob_relocks]), the calls for gpus and the status calls are not
    among them. *)
Theorem client_calls_answered user c ext jid :
  bad_conn c = false -> field PBS_MAXUSER user -> ext_ok ext -> jid <> [] -> field PBS_MAXSVRJOBID jid ->
  (forall dest, field MAXID dest ->
     answered (pbs_movejob_err user c (Some jid) (Some dest) ext)
       (mk_outgoing PBS_BATCH_MoveJob user (MoveJob jid dest) ext)) /\
  (forall jid2, field PBS_MAXSVRJOBID jid2 -> jid2 <> [] ->
     answered (pbs_orderjob_err user c (Some jid) (Some jid2) ext)
       (mk_outgoing PBS_BATCH_OrderJob user (MoveJob jid jid2) ext)) /\
  (forall loc, cstr loc ->
     answered (pbs_runjob_err user c (Some jid) (Some loc) ext)
       (mk_outgoing PBS_BATCH_RunJob user (RunJob jid loc 0) ext) /\
     answered (pbs_asyrunjob_err user c (Some jid) (Some loc) ext)
       (mk_outgoing PBS_BATCH_AsyrunJob user (RunJob jid loc 0) ext) /\
     answered (pbs_stagein user c (Some jid) (Some loc) ext)
       (mk_outgoing PBS_BATCH_StageIn user (RunJob jid loc 0) ext)) /\
  answered (pbs_rerunjob_err user c (Some jid) ext)
    (mk_outgoing PBS_BATCH_Rerun user (JobId jid) ext) /\
  (forall manner, int_ok manner ->
     answered (pbs_terminate_err user c manner ext)
       (mk_outgoing PBS_BATCH_Shutdown user (ShutDown manner) ext)) /\
  (forall sig, field PBS_SIGNAMESZ sig -> sig <> [] ->
     answered (pbs_sigjob_err user c (Some jid) (Some sig) ext)
       (mk_outgoing PBS_BATCH_SignalJob user (SignalJob jid sig) ext) /\
     answered (pbs_sigjobasync_err user c (Some jid) (Some sig) ext)
       (mk_outgoing PBS_BATCH_SignalJob user (SignalJob jid sig) ext)) /\
  answered (pbs_deljob_err user c (Some jid) ext)
    (mk_outgoing PBS_BATCH_DeleteJob user (Manage MGR_CMD_DELETE MGR_OBJ_JOB jid []) ext) /\
  answered (pbs_checkpointjob_err user c (Some jid) ext)
    (mk_outgoing PBS_BATCH_CheckpointJob user (Manage MGR_CMD_SET MGR_OBJ_JOB jid []) ext) /\
  (forall ht, valid_attropl (hold_attr ht) ->
     answered (pbs_holdjob_err user c (Some jid) ht ext)
       (mk_outgoing PBS_BATCH_HoldJob user (Manage MGR_CMD_SET MGR_OBJ_JOB jid [hold_attr ht]) ext) /\
     answered (pbs_rlsjob_err user c (Some jid) ht ext)
       (mk_outgoing PBS_BATCH_ReleaseJob user (Manage MGR_CMD_SET MGR_OBJ_JOB jid [hold_attr ht]) ext)) /\
  (forall cmd objtype name attrs, body_ok (Manage cmd objtype name attrs) ->
     answered (pbs_manager_err user c cmd objtype (Some name) attrs ext)
       (mk_outgoing PBS_BATCH_Manager user (Manage cmd objtype name attrs) ext) /\
     answered (pbs_modify_node_err user c cmd objtype (Some name) attrs ext)
       (mk_outgoing PBS_BATCH_ModifyNode user (Manage cmd objtype name attrs) ext)).
Proof.
  intros Hc Hu He Hj Hjf. pose proof (no_string_field _ _ Hjf Hj) as Hns.
  assert (Hc0 : (c <? 0) = false) by (by apply orb_false_elim in Hc as [? _]).
  split; [|split; [|split; [|split; [|split; [|split; [|split; [|split; [|split]]]]]]]].
  - intros dest Hd. unfold pbs_movejob_err. rewrite Hc, Hns.
    apply direct_call_answered; [done|]. by apply (request_encodes _ _ (MoveJob jid dest)).
  - intros jid2 Hf Hne. unfold pbs_orderjob_err. rewrite Hns, (no_string_field _ _ Hf Hne), Hc.
    apply direct_call_answered; [done|]. by apply (request_encodes _ _ (MoveJob jid jid2)).
  - intros loc Hl. assert (Hb : body_ok (RunJob jid loc 0)) by (by split).
    split; [by apply pbs_runjob_answered|]. unfold pbs_asyrunjob_err, pbs_stagein. rewrite Hns, Hc.
    split; (apply direct_call_answered; [done|]); by apply (request_encodes _ _ (RunJob jid loc 0)).
  - unfold pbs_rerunjob_err. rewrite Hns, Hc.
    apply direct_call_answered; [done|]. by apply (request_encodes _ _ (JobId jid)).
  - intros manner Hm. unfold pbs_terminate_err. rewrite Hc.
    apply direct_call_answered; [done|]. by apply (request_encodes _ _ (ShutDown manner)).
  - intros sig Hf Hne. unfold pbs_sigjob_err, pbs_sigjobasync_err.
    rewrite Hns, (no_string_field _ _ Hf Hne), Hc.
    split; (apply put_answered; [done|]); intros s Hs Hd;
      [by apply PBSD_sig_put_ok|by apply PBSD_async_sig_put_ok].
  - unfold pbs_deljob_err. rewrite Hc, Hns, andb_false_r.
    apply PBSD_manager_answered; [done|done| |done].
    by apply job_manage_ok; [|unfold MGR_CMD_DELETE, MGR_CMD_SET; lia|].
  - unfold pbs_checkpointjob_err. rewrite Hns, Hc.
    apply PBSD_manager_answered; [done|done| |done].
    by apply job_manage_ok; [|unfold MGR_CMD_DELETE, MGR_CMD_SET; lia|].
  - intros ht Hv. unfold pbs_holdjob_err, pbs_rlsjob_err. rewrite Hns, Hc, Hc0.
    split; (apply PBSD_manager_answered; [done|done| |done]); (apply job_manage_ok;
      [done|unfold MGR_CMD_SET; lia|]); (split; [constructor; [exact Hv|constructor]|done]).
  - intros cmd objtype name attrs Hb. split; by apply PBSD_manager_answered.
Qed.

Lemma errno_of_code rc :
  dis_code rc \/ rc = -1 -> rc <> 0 ->
  In (set_pbs_errno_from_dis_errcode rc) [PBSE_PROTOCOL; PBSE_MEM_MALLOC; PBSE_EOF; PBSE_TIMEOUT; -1].
Proof.
  intros [Hc| ->] Hn; [|by vm_compute; tauto].
  assert (Hin : In rc [1;2;3;4;5;6;7;8;9;10;11;12]) by (unfold dis_code in Hc; simpl; lia).
  simpl in Hin. repeat destruct Hin as [<-|Hin]; try (by vm_compute; tauto).
Qed.

Lemma emsg_log rc s :
  (if (0 <=? rc) && (rc <=? DIS_INVALID) then io (dis_emsg rc) else st_ret tt) s = Ret tt s.
Proof.
  unfold DIS_INVALID. destruct (Z.leb_spec 0 rc), (Z.leb_spec rc 12); simpl; try done.
  unfold io, dis_emsg. destruct (Z.leb_spec 0 rc), (Z.ltb_spec rc 13); try lia. by destruct s.
Qed.

(** C24: Reading the answer on a connection with an open socket comes to an end whatever the
    server sends that is [deliverable] (less than 512 MiB, no NUL byte once the buffer has
    to grow), inside its blocks, and accounts for what happened: with a reply the errno is
    the reply's code, without one it is a protocol, memory, end-of-file or timeout error or
    the -1 of an unknown reply kind.  The connection's errno agrees, and neither the mutex
    nor the outgoing bytes have changed. *)
Theorem PBSD_rdrpy_total c s :
  bad_conn c = false -> 0 <= ch_socket (cn s) -> deliverable (all_data (net_in (cw s))) ->
  wf_statics (statics (cw s)) ->
  exists r s', PBSD_rdrpy c s = Ret r s' /\ ch_errno (cn s') = local_errno s'
    /\ ch_mutex (cn s') = ch_mutex (cn s) /\ net_out (cw s') = net_out (cw s)
    /\ match r with
       | Some reply => local_errno s' = brp_code reply
       | None => In (local_errno s') [PBSE_PROTOCOL; PBSE_MEM_MALLOC; PBSE_EOF; PBSE_TIMEOUT; -1]
       end.
Proof.
  intros Hc Hs Hd Hst. pose proof (setup_some _ Hs) as Hsetup.
  destruct (setup_wf_world _ _ (cw s) Hsetup Hd Hst) as (Hw & _ & _).
  destruct (runs_inv _ _ _ (decode_DIS_replyCmd_safe _ Hw))
    as ([rc reply] & w' & E & (_ & (_ & _ & _ & Ho) & _) & Hrc & _).
  unfold PBSD_rdrpy. rewrite Hc. unfold get_socket, st_bind at 1 2, st_get at 1, st_ret at 1.
  rewrite alloc_ok by (unfold ALLOC_MAX, SIZEOF_BATCH_REPLY; lia). cbn [negb]. rewrite Hsetup.
  unfold st_bind at 1, io at 1, st_modify. rewrite (io_bind _ _ _ (rc, reply) w') by exact E.
  cbv beta iota. destruct (Z.eqb_spec rc 0) as [->|Hne]; cbn [negb].
  - eexists _, _. split; [reflexivity|]. simpl. auto.
  - unfold st_bind at 1, st_get. cbv zeta. set (rc' := if _ =? 1 then _ else _).
    unfold st_bind at 1, set_local_errno at 1, st_modify. unfold st_bind at 1, set_ch_errno at 1, st_modify.
    unfold st_bind at 1. rewrite emsg_log. eexists _, _. split; [reflexivity|]. simpl.
    do 3 (split; [done|]). subst rc'. destruct (_ =? 1); [|by apply errno_of_code].
    vm_compute. tauto.
Qed.

(** [pbs_msgjob_err] holds the connection's mutex when it calls [PBSD_msg_put], which
    locks it again: every message call with acceptable arguments relocks a default mutex. *)
Theorem pbs_msgjob_relocks user c jobid fileopt msg ext s :
  no_string jobid = false -> no_string msg = false -> bad_conn c = false ->
  pbs_msgjob_err user c jobid fileopt msg ext s = UB.
Proof.
  intros Hj Hm Hc. unfold pbs_msgjob_err. rewrite Hj, Hm, Hc. cbn [orb].
  unfold st_bind at 1, pthread_mutex_lock at 1. destruct (ch_mutex (cn s)); [done|].
  unfold st_bind at 1, PBSD_msg_put. by rewrite Hc.
Qed.

Lemma flush_refused w :
  wf_write w -> net_wr w = [WrFail] -> DIS_tcp_wflush w = Ret (-1) (set_net_wr [] (net_out w) w).
Proof.
  intros [Ht Hle Hmx Hsz Hln Hz] Hwr.
  unfold DIS_tcp_wflush, st_bind at 1, st_get. rewrite Hwr. cbn [length wflush_loop].
  unfold st_bind at 1 2 3, st_get. rewrite mem_read_ok by lia.
  unfold st_lift, st_ret at 1, st_bind at 1. unfold write_ac_socket. by rewrite Hwr.
Qed.

(** when the network takes the bytes of no request, [PBSD_mgr_put] unlocks the mutex on
    the failure path and again on the common one: it releases a mutex it does not hold. *)
Theorem PBSD_mgr_put_unlocks_twice user c t cmd objtype name attrs ext s :
  bad_conn c = false -> field PBS_MAXUSER user -> body_ok (Manage cmd objtype name attrs) -> ext_ok ext ->
  zlen (wire_outgoing (mk_outgoing t user (Manage cmd objtype name attrs) ext)) < 2147483648 ->
  0 <= ch_socket (cn s) -> net_wr (cw s) = [WrFail] ->
  PBSD_mgr_put user c t cmd objtype (Some name) attrs ext s = UB.
Proof.
  intros Hc Hu Hb He Hl Hs Hwr. unfold PBSD_mgr_put. rewrite Hc.
  unfold st_bind at 1, pthread_mutex_lock. destruct (ch_mutex (cn s)); [done|].
  pose proof (setup_some _ Hs) as Hsetup.
  destruct (setup_wf_out _ _ (cw s) Hsetup) as (Hw & Hp & _ & Hlen).
  destruct (request_encodes t user (Manage cmd objtype name attrs) ext Hu Hb He _ Hw Hp)
    as (w1 & E1 & Hw1 & _ & _ & _ & (_ & _ & _ & Hwr1 & _)); [lia|].
  unfold open_and_encode, get_socket, st_bind at 1 2, st_get, st_ret at 1. cbn [cn ch_socket set_mutex].
  rewrite Hsetup. unfold st_bind at 1, io at 1, st_modify. rewrite (io_bind _ _ _ 0 w1) by exact E1.
  simpl in Hwr1. rewrite Hwr in Hwr1. simpl.
  by rewrite (io_bind _ _ _ (-1) (set_net_wr [] (net_out w1) w1)) by (by apply flush_refused).
Qed.

(** [PBSD_status_put] reports success when the flush failed: the error it notes is
    dropped and the caller goes on to wait for the answer to a request never sent. *)
Theorem PBSD_status_put_hides_failure user c t id attrs ext s :
  bad_conn c = false -> field PBS_MAXUSER user -> body_ok (Status id attrs) -> ext_ok ext ->
  zlen (wire_outgoing (mk_outgoing t user (Status id attrs) ext)) < 2147483648 ->
  0 <= ch_socket (cn s) -> ch_mutex (cn s) = false -> net_wr (cw s) = [WrFail] ->
  exists s', PBSD_status_put user c t (Some id) attrs ext s = Ret PBSE_NONE s'
    /\ net_out (cw s') = net_out (cw s).
Proof.
  intros Hc Hu Hb He Hl Hs Hmu Hwr. unfold PBSD_status_put. rewrite Hc.
  unfold st_bind at 1, pthread_mutex_lock. rewrite Hmu. pose proof (setup_some _ Hs) as Hsetup.
  destruct (setup_wf_out _ _ (cw s) Hsetup) as (Hw & Hp & _ & Hlen).
  destruct (request_encodes t user (Status id attrs) ext Hu Hb He _ Hw Hp)
    as (w1 & E1 & Hw1 & _ & _ & _ & (_ & _ & _ & Hwr1 & Ho1 & _)); [lia|].
  unfold open_and_encode, get_socket, st_bind at 1 2, st_get, st_ret at 1. cbn [cn ch_socket set_mutex].
  rewrite Hsetup. unfold st_bind at 1, io at 1, st_modify. rewrite (io_bind _ _ _ 0 w1) by exact E1.
  simpl in Hwr1. rewrite Hwr in Hwr1. simpl. unfold st_bind at 1, pthread_mutex_unlock. simpl.
  rewrite (io_bind _ _ _ (-1) (set_net_wr [] (net_out w1) w1)) by (by apply flush_refused).
  eexists. split; [reflexivity|done].
Qed.

(** a reply channel that cannot be set up leaves the connection's errno alone, and the
    calls return that errno: the result of the previous call on the connection, 0 when it
    went well, although no answer was read. *)
Theorem read_answer_returns_stale_errno c s :
  bad_conn c = false -> ch_mutex (cn s) = false -> ch_socket (cn s) < 0 ->
  read_answer c s = Ret (ch_errno (cn s)) (mk_cstate (cw s) (cn s) PBSE_MEM_MALLOC).
Proof.
  intros Hc Hm Hs.
  assert (Hn : DIS_tcp_setup (ch_socket (cn s)) = None)
    by (unfold DIS_tcp_setup; by rewrite (proj2 (Z.ltb_lt _ _) Hs)).
  assert (E : PBSD_rdrpy c (set_mutex true s) =
    Ret None (mk_cstate (cw s) (cn (set_mutex true s)) PBSE_MEM_MALLOC)).
  { unfold PBSD_rdrpy. rewrite Hc. unfold get_socket, st_bind at 1 2, st_get, st_ret at 1.
    rewrite alloc_ok by (unfold ALLOC_MAX, SIZEOF_BATCH_REPLY; lia). cbn [negb cn ch_socket set_mutex].
    by rewrite Hn. }
  unfold read_answer, st_bind at 1, pthread_mutex_lock. rewrite Hm, (st_bind_ret _ _ _ _ _ E).
  destruct s as [w [sock e mu] le]. simpl in *. by subst mu.
Qed.

(** The wire image of the GPU control fields. *)
Definition wire_gpu (node gpuid : list Z) (mode perm vol : Z) : list Z :=
  wire_str node ++ wire_str gpuid ++ wire_uint mode ++ wire_uint perm ++ wire_uint vol.

Lemma encode_gpu_encodes node gpuid mode perm vol :
  field PBS_MAXHOSTNAME node -> field PBS_MAXGPUID gpuid ->
  encodes (encode_DIS_GpuCtrl (Some node) (Some gpuid) mode perm vol)
    (wire_gpu node gpuid mode perm vol ++ wire_ext None) 0.
Proof.
  intros Hn Hg. unfold encode_DIS_GpuCtrl, wire_gpu. rewrite <- !app_assoc.
  eapply encodes_bind; [eapply diswst_field; [|exact Hn]; done|]. cbv beta iota.
  eapply encodes_bind; [eapply diswst_field; [|exact Hg]; done|]. cbv beta iota.
  eapply encodes_bind; [apply diswui_uint|]. cbv beta iota.
  eapply encodes_bind; [apply diswui_uint|]. cbv beta iota.
  eapply encodes_bind; [apply diswui_uint|]. cbv beta iota.
  by apply (encode_ext_encodes None).
Qed.

Lemma decode_gpu_decodes node gpuid mode perm vol :
  field PBS_MAXHOSTNAME node -> field PBS_MAXGPUID gpuid -> int_ok mode -> int_ok perm -> int_ok vol ->
  decodes decode_DIS_GpuCtrl (wire_gpu node gpuid mode perm vol) (0, rq_gpuctrl node gpuid mode perm vol).
Proof.
  intros Hn Hg Hm Hp Hv. unfold decode_DIS_GpuCtrl, wire_gpu.
  eapply decodes_bind; [by apply disr_field_decodes|]. cbv beta iota. change (negb (0 =? 0)) with false.
  eapply decodes_bind; [by apply disr_field_decodes|]. cbv beta iota. change (negb (0 =? 0)) with false.
  eapply decodes_bind; [apply disrui_uint|]. cbv beta iota. change (negb (0 =? 0)) with false.
  eapply decodes_bind; [apply disrui_uint|]. cbv beta iota. change (negb (0 =? 0)) with false.
  eapply decodes_last; [apply disrui_uint|]. cbv beta iota. by rewrite !int_ok_u32.
Qed.

(** the GPU control request carries two extensions: [encode_DIS_GpuCtrl] writes an empty
    one of its own before the caller's.  The server reads the fields and the empty one, so
    the caller's extension is lost to the request and its bytes stay in front of whatever
    the client sends next. *)
Theorem gpu_request_loses_extension user c node gpuid mode perm vol ext s :
  bad_conn c = false -> field PBS_MAXUSER user -> field PBS_MAXHOSTNAME node ->
  field PBS_MAXGPUID gpuid -> int_ok mode -> int_ok perm -> int_ok vol -> ext_ok ext ->
  ready s ->
  let seen := wire_num c_plus PBS_BATCH_PROT_TYPE ++ wire_hdr PBS_BATCH_GpuCtrl user ++
              wire_gpu node gpuid mode perm vol ++ wire_ext None in
  zlen (seen ++ wire_ext ext) < 2147483648 ->
  (exists s', PBSD_gpu_put user c (Some node) (Some gpuid) mode perm vol ext s = Ret 0 s'
     /\ net_out (cw s') = net_out (cw s) ++ seen ++ wire_ext ext) /\
  decodes peek_read seen (0, (PBS_BATCH_PROT_TYPE,
    mk_batch_request PBS_BATCH_GpuCtrl user None (rq_gpuctrl node gpuid mode perm vol))).
Proof.
  intros Hc Hu Hn Hg Hm Hp Hv He [Hs Hmu Hwr Hin Hst] seen Hl. split.
  - pose proof (setup_some _ Hs) as Hsetup.
    assert (Henc : encodes (request PBS_BATCH_GpuCtrl user
      (encode_DIS_GpuCtrl (Some node) (Some gpuid) mode perm vol) ext) (seen ++ wire_ext ext) 0).
    { unfold request, seen. rewrite (app_assoc (wire_num _ _)), <- app_assoc.
      apply encodes_seq; [by apply encode_hdr_encodes|].
      apply encodes_seq; [by apply encode_gpu_encodes|by apply encode_ext_encodes]. }
    destruct (encode_and_flush _ _ _ _ (cw s) Hsetup Henc Hl) as (w1 & f & w2 & E1 & E2 & _ & _ & Hf & _ & Ho).
    specialize (Hf Hwr) as ->. unfold PBSD_gpu_put. rewrite Hc.
    unfold get_socket, st_bind at 1 2, st_get, st_ret at 1. rewrite Hsetup.
    unfold st_bind at 1, io at 1, st_modify. rewrite (io_bind _ _ _ 0 w1) by exact E1. simpl.
    rewrite (io_bind _ _ _ 0 w2) by exact E2. eexists. split; [reflexivity|]. simpl. auto.
  - apply (server_reads PBS_BATCH_GpuCtrl user decode_DIS_GpuCtrl); [done|done| |done].
    by apply decode_gpu_decodes.
Qed.

End Calls.

Section ClientWitnesses.
#[local] Existing Instance generous.
#[local] Existing Instance generous_ok.
Import Sample.

Definition idle (rd : list read_event) (wr : list write_event) : cstate :=
  mk_cstate (sample rd wr) (mk_connection 3 0 false) 0.

(** [PBSE_UNKJOBID] without further data. *)
Definition unknown_job : batch_reply := mk_batch_reply 15001 0 BATCH_REPLY_CHOICE_NULL brp_none.

Lemma unknown_job_ok : reply_ok unknown_job.
Proof. repeat split; vm_compute; discriminate. Qed.

Lemma user_ok : field PBS_MAXUSER [117].
Proof. split; [repeat constructor; discriminate|vm_compute; discriminate]. Qed.

Lemma no_ext_ok : ext_ok None.
Proof. intros s. discriminate. Qed.

Lemma job17_ok : field PBS_MAXSVRJOBID [49;55].
Proof. split; [repeat constructor; discriminate|vm_compute; discriminate]. Qed.

Lemma client_calls_answered_witness :
  exists w', pbs_rerunjob_err [117] 1 (Some [49;55]) None
      (idle [RdData (wire_reply unknown_job)] [WrIntr]) =
    Ret 15001 (mk_cstate w' (mk_connection 3 15001 false) 15001)
    /\ net_out w' = wire_outgoing (mk_outgoing PBS_BATCH_Rerun [117] (JobId [49;55]) None).
Proof.
  destruct (client_calls_answered [117] 1 None [49;55]) as (_ & _ & _ & Hr & _);
    [reflexivity|apply user_ok|apply no_ext_ok|discriminate|apply job17_ok|].
  apply (Hr (idle [RdData (wire_reply unknown_job)] [WrIntr]) unknown_job).
  - constructor; simpl; [lia|reflexivity|intros [|[]]; discriminate| |split; left; split; reflexivity].
    split; [vm_compute; reflexivity|right; vm_compute; reflexivity].
  - split; [vm_compute; reflexivity|right; vm_compute; reflexivity].
  - apply unknown_job_ok.
  - exists []. vm_compute. reflexivity.
Defined.

(** ["+9"]: a foreign protocol type. *)
Lemma PBSD_rdrpy_total_witness :
  exists r s', PBSD_rdrpy 1 (idle [RdData [43;57]] []) = Ret r s'
    /\ ch_errno (cn s') = local_errno s' /\ net_out (cw s') = [].
Proof.
  destruct (PBSD_rdrpy_total 1 (idle [RdData [43;57]] [])) as (r & s' & E & He & _ & Ho & _);
    [reflexivity|simpl; lia|split; [reflexivity|right; reflexivity]|split; left; split; reflexivity|].
  exists r, s'. split; [exact E|]. split; [exact He|exact Ho].
Defined.

Lemma pbs_msgjob_relocks_witness :
  pbs_msgjob_err [117] 1 (Some [49;55]) 1 (Some [104;105]) None (idle [] []) = UB.
Proof. apply pbs_msgjob_relocks; reflexivity. Defined.

Lemma hold17_ok : body_ok (Manage MGR_CMD_SET MGR_OBJ_JOB [49;55] []).
Proof.
  apply job_manage_ok; [apply job17_ok|unfold MGR_CMD_SET; lia|].
  split; [constructor|vm_compute; discriminate].
Qed.

Lemma PBSD_mgr_put_unlocks_twice_witness :
  PBSD_mgr_put [117] 1 PBS_BATCH_HoldJob MGR_CMD_SET MGR_OBJ_JOB (Some [49;55]) [] None
    (idle [] [WrFail]) = UB.
Proof.
  apply PBSD_mgr_put_unlocks_twice;
    [reflexivity|apply user_ok|apply hold17_ok|apply no_ext_ok|vm_compute; reflexivity|simpl; lia|reflexivity].
Defined.

Lemma PBSD_status_put_hides_failure_witness :
  exists s', PBSD_status_put [117] 1 PBS_BATCH_StatusJob (Some [49;55]) [] None (idle [] [WrFail])
      = Ret PBSE_NONE s' /\ net_out (cw s') = [].
Proof.
  apply PBSD_status_put_hides_failure;
    [reflexivity|apply user_ok| |apply no_ext_ok|vm_compute; reflexivity|simpl; lia|reflexivity|reflexivity].
  split; [|split; [constructor|vm_compute; discriminate]].
  split; [repeat constructor; discriminate|vm_compute; discriminate].
Defined.

Lemma read_answer_returns_stale_errno_witness :
  read_answer 1 (mk_cstate (sample [] []) (mk_connection (-1) 0 false) 7) =
    Ret 0 (mk_cstate (sample [] []) (mk_connection (-1) 0 false) PBSE_MEM_MALLOC).
Proof.
  apply (read_answer_returns_stale_errno 1 (mk_cstate (sample [] []) (mk_connection (-1) 0 false) 7));
    [reflexivity|reflexivity|simpl; lia].
Defined.

Lemma gpu_request_loses_extension_witness :
  exists s', PBSD_gpu_put [117] 1 (Some [110]) (Some [48]) 1 (-1) (-1) (Some [120]) (idle [] []) = Ret 0 s'.
Proof.
  destruct (gpu_request_loses_extension [117] 1 [110] [48] 1 (-1) (-1) (Some [120]) (idle [] []))
    as [(s' & E & _) _].
  - reflexivity.
  - apply user_ok.
  - split; [repeat constructor; discriminate|vm_compute; discriminate].
  - split; [repeat constructor; discriminate|vm_compute; discriminate].
  - vm_compute. split; discriminate.
  - vm_compute. split; discriminate.
  - vm_compute. split; discriminate.
  - intros t [= <-]. split; [|discriminate].
    split; [repeat constructor; discriminate|vm_compute; discriminate].
  - constructor; simpl; [lia|reflexivity|tauto| |split; left; split; reflexivity].
    split; [vm_compute; reflexivity|right; vm_compute; reflexivity].
  - vm_compute. reflexivity.
  - exists s'. exact E.
Defined.

End ClientWitnesses.
