(* ===== verification/Container.v ===== *)
(** * item_container: the server's indexed, ordered collections

    Model of [class item_container] of src/src/include/container.hpp, the template
    behind [all_jobs], [all_queues], [user_info_holder] and the server's other
    tables.  A container keeps its items in an array of slots threaded by [next] and
    [prev] indices through slot 0, which never holds an item, and a hash map from the
    id of an item to its slot.

    An index is a [nat], the array a list that is read and written only inside its
    bounds: a step outside them, or through a null item, is [None].  [map[id]] of
    boost::unordered_map enters a missing key with the value 0; [map_at] does that too.
    The mutex and [CHECK_LOCKING] are not modelled, [exit_called] is an argument of
    every operation. *)
From Stdlib Require Import ZArith Lia.
From stdpp Require Import base gmap option list.
From S2P Require Import Prelude.

(** [std::string] *)
Notation cstr := (list Z).

Definition ALWAYS_EMPTY_INDEX : nat := 0.
Definition THING_NOT_FOUND : Z := -2.
Definition ENOMEM : Z := 12.
(** [sizeof(slot<T>)]: a pointer and two [int]s *)
Definition sizeof_slot : Z := 16.

Record item (T : Type) := Item { item_id : cstr; item_ptr : T }.
Arguments Item {T}. Arguments item_id {T}. Arguments item_ptr {T}.

Record slot (T : Type) := Slot { pItem : option (item T); s_next : nat; s_prev : nat }.
Arguments Slot {T}. Arguments pItem {T}. Arguments s_next {T}. Arguments s_prev {T}.

Record item_container (T : Type) := Container {
  slots : list (slot T);
  cmax : nat;
  cnum : nat;
  next_slot : nat;
  clast : nat;
  cmap : gmap cstr nat
}.
Arguments Container {T}. Arguments slots {T}. Arguments cmax {T}. Arguments cnum {T}.
Arguments next_slot {T}. Arguments clast {T}. Arguments cmap {T}.

(** [item_iterator] *)
Record item_iterator := Iterator { iter : Z; endHit : bool; reversed : bool }.

Section Container.
Context `{Platform} {T : Type} (exit_called : bool).
Implicit Types (c : item_container T) (k : cstr) (i : nat).

(** ** The array and the map *)

Definition with_slots c (ss : list (slot T)) : item_container T := Container ss (cmax c) (cnum c) (next_slot c) (clast c) (cmap c).
Definition with_num c n : item_container T := Container (slots c) (cmax c) n (next_slot c) (clast c) (cmap c).
Definition with_next_slot c n : item_container T := Container (slots c) (cmax c) (cnum c) n (clast c) (cmap c).
Definition with_last c n : item_container T := Container (slots c) (cmax c) (cnum c) (next_slot c) n (cmap c).
Definition with_map c (m : gmap cstr nat) : item_container T := Container (slots c) (cmax c) (cnum c) (next_slot c) (clast c) m.

(** [slots[i].next = v] and its like *)
Definition set_slot i (f : slot T -> slot T) c : option (item_container T) :=
  match slots c !! i with
  | Some _ => Some (with_slots c (alter f i (slots c)))
  | None => None
  end.
Definition set_item i x := set_slot i (fun s => Slot x (s_next s) (s_prev s)).
Definition set_next i v := set_slot i (fun s => Slot (pItem s) v (s_prev s)).
Definition set_prev i v := set_slot i (fun s => Slot (pItem s) (s_next s) v).

(** [map[id]] *)
Definition map_at k c : nat * item_container T :=
  let i := default ALWAYS_EMPTY_INDEX (cmap c !! k) in (i, with_map c (<[k := i]> (cmap c))).

(** ** The private operations *)

Definition new_container : item_container T :=
  Container (replicate 10 (Slot None 0 0)) 10 0 1 0 ∅.

Definition check_and_resize c : option (item_container T * Z) :=
  if decide (cmax c = cnum c + 1)%nat then
    if decide (INT_MAX < Z.of_nat (cmax c * 2))%Z then None
    else if calloc_ok (Z.of_nat (cmax c * 2) * sizeof_slot) then
      Some (Container (slots c ++ replicate (cmax c) (Slot None 0 0)) (cmax c * 2)
              (cnum c) (next_slot c) (clast c) (cmap c), PBSE_NONE)
    else Some (c, ENOMEM)
  else Some (c, PBSE_NONE).

(** The loop stops at [max]; [fuel] is the distance to it. *)
Fixpoint update_next_slot_loop (fuel : nat) c : item_container T :=
  match fuel with
  | O => c
  | S fuel =>
    match slots c !! next_slot c with
    | Some s =>
      if pItem s is Some _ then update_next_slot_loop fuel (with_next_slot c (S (next_slot c)))
      else c
    | None => c
    end
  end.
Definition update_next_slot c : item_container T :=
  update_next_slot_loop (cmax c - next_slot c) c.

Definition insert_thing (thing : item T) c : option (item_container T * Z) :=
  '(c, rc) ← check_and_resize c;
  if (rc =? PBSE_NONE)%Z then
    let rc := next_slot c in
    c ← set_item rc (Some thing) c;
    let c := with_map c (<[item_id thing := rc]> (cmap c)) in
    c ← set_prev rc (clast c) c;
    c ← (if decide (clast c = ALWAYS_EMPTY_INDEX) then set_next ALWAYS_EMPTY_INDEX rc c
         else Some c);
    c ← set_next (clast c) rc c;
    let c := with_last c rc in
    c ← set_prev ALWAYS_EMPTY_INDEX (clast c) c;
    c ← set_next rc ALWAYS_EMPTY_INDEX c;
    let c := with_num c (S (cnum c)) in
    Some (update_next_slot c, Z.of_nat rc)
  else Some (c, -1)%Z.

Definition insert_thing_after (thing : item T) (index : nat) c : option (item_container T * Z) :=
  '(c, rc) ← check_and_resize c;
  if (rc =? PBSE_NONE)%Z then
    let rc := next_slot c in
    c ← set_item rc (Some thing) c;
    let c := with_map c (<[item_id thing := rc]> (cmap c)) in
    c ← set_prev rc index c;
    next ← s_next <$> (slots c !! index);
    c ← set_next rc next c;
    c ← set_next index rc c;
    c ← set_prev next rc c;
    let c := if decide (clast c = index) then with_last c rc else c in
    let c := with_num c (S (cnum c)) in
    Some (update_next_slot c, Z.of_nat rc)
  else Some (c, -1)%Z.

Definition insert_thing_before (thing : item T) (index : nat) c : option (item_container T * Z) :=
  '(c, rc) ← check_and_resize c;
  if (rc =? PBSE_NONE)%Z then
    let rc := next_slot c in
    c ← set_item rc (Some thing) c;
    let c := with_map c (<[item_id thing := rc]> (cmap c)) in
    prev ← s_prev <$> (slots c !! index);
    c ← set_next rc index c;
    c ← set_prev rc prev c;
    c ← set_prev index rc c;
    c ← set_next prev rc c;
    let c := with_num c (S (cnum c)) in
    Some (update_next_slot c, Z.of_nat rc)
  else Some (c, -1)%Z.

Definition unlink_slot (index : nat) c : option (item_container T) :=
  s ← slots c !! index;
  let prev := s_prev s in
  let next := s_next s in
  it ← pItem s;
  let c := with_map c (delete (item_id it) (cmap c)) in
  c ← set_prev index ALWAYS_EMPTY_INDEX c;
  c ← set_next index ALWAYS_EMPTY_INDEX c;
  c ← set_item index None c;
  c ← set_next prev next c;
  if decide (clast c = index) then Some (with_last c prev) else set_prev next prev c.

(** [num--] and the reset of [next_slot] that follow every [unlink_slot] *)
Definition note_free (index : nat) c : item_container T :=
  let c := with_num c (pred (cnum c)) in
  if decide (index < next_slot c)%nat then with_next_slot c index else c.

Definition remove_thing_from_index (index : nat) c : option (item_container T * Z) :=
  s ← slots c !! index;
  if pItem s is Some _ then
    c ← unlink_slot index c; Some (note_free index c, PBSE_NONE)
  else Some (c, THING_NOT_FOUND).

(** [pop_thing] and [pop_back_thing]: [i] is the slot they start from. *)
Definition pop_index (i : nat) c : option (item_container T * option T) :=
  if decide (i = ALWAYS_EMPTY_INDEX) then Some (c, None)
  else
    s ← slots c !! i;
    thing ← pItem s;
    c ← unlink_slot i c;
    Some (note_free i c, Some (item_ptr thing)).
Definition pop_thing c := s0 ← slots c !! ALWAYS_EMPTY_INDEX; pop_index (s_next s0) c.
Definition pop_back_thing c := s0 ← slots c !! ALWAYS_EMPTY_INDEX; pop_index (s_prev s0) c.

(** ** The iterator *)

Definition initialize_ra_iterator (rev : bool) c : option Z :=
  s0 ← slots c !! ALWAYS_EMPTY_INDEX;
  Some (Z.of_nat (if rev then s_prev s0 else s_next s0)).

Definition next_thing (it : Z) c : option (option (item T) * Z) :=
  i ← (if (it =? -1)%Z then s_next <$> (slots c !! ALWAYS_EMPTY_INDEX) else Some (Z.to_nat it));
  s ← slots c !! i;
  Some (pItem s, Z.of_nat (s_next s)).

Definition next_thing_from_back (it : Z) c : option (option (item T) * Z) :=
  let i := if (it =? -1)%Z then clast c else Z.to_nat it in
  s ← slots c !! i;
  Some (pItem s, Z.of_nat (s_prev s)).

Definition get_iterator (reverse : bool) c : option (option item_iterator) :=
  if exit_called then Some None
  else it ← initialize_ra_iterator reverse c; Some (Some (Iterator it false reverse)).

Definition get_next_item (ii : item_iterator) c : option (option T * item_iterator) :=
  if exit_called then Some (None, ii)
  else if endHit ii then Some (None, ii)
  else if (iter ii =? Z.of_nat ALWAYS_EMPTY_INDEX)%Z then
    Some (None, Iterator (iter ii) true (reversed ii))
  else
    '(x, it) ← (if reversed ii then next_thing_from_back (iter ii) c else next_thing (iter ii) c);
    match x with
    | None => Some (None, Iterator it true (reversed ii))
    | Some x => Some (Some (item_ptr x), Iterator it false (reversed ii))
    end.

(** ** The public operations *)

Definition c_insert (it : T) k (replace : bool) c : option (item_container T * bool) :=
  if exit_called then Some (c, false)
  else
    let '(index, c) := map_at k c in
    let insert c := '(c, rc) ← insert_thing (Item k it) c; Some (c, negb (rc <? 0)%Z) in
    if decide (index = ALWAYS_EMPTY_INDEX) then insert c
    else if replace then '(c, _) ← remove_thing_from_index index c; insert c
    else Some (c, false).

Definition c_insert_after (location_id : cstr) (it : T) k c : option (item_container T * bool) :=
  if exit_called then Some (c, false)
  else
    let '(index, c) := map_at location_id c in
    if decide (index = ALWAYS_EMPTY_INDEX) then Some (c, false)
    else '(c, rc) ← insert_thing_after (Item k it) index c; Some (c, negb (rc <? 0)%Z).

(** The walk of [insert_at]; [None] in the first component is [return false]. *)
Fixpoint walk_to (index : nat) (it : Z) c : option (option Z) :=
  match index with
  | O => Some (Some it)
  | S index =>
    '(x, it) ← next_thing it c;
    match x with None => Some None | Some _ => walk_to index it c end
  end.

Definition c_insert_at (index : nat) (it : T) k c : option (item_container T * bool) :=
  if exit_called then Some (c, false)
  else
    i0 ← initialize_ra_iterator false c;
    w ← walk_to index i0 c;
    match w with
    | None => Some (c, false)
    | Some i =>
      '(c, rc) ← insert_thing_before (Item k it) (Z.to_nat i) c; Some (c, negb (rc <? 0)%Z)
    end.

Definition c_insert_first (it : T) k c : option (item_container T * bool) :=
  if exit_called then Some (c, false) else c_insert_at 0 it k c.

(** [insert_before] tests the slot number [insert_thing_before] returns against
    [PBSE_NONE], which it never is: every call reports a failure. *)
Definition c_insert_before (location_id : cstr) (it : T) k c : option (item_container T * bool) :=
  if exit_called then Some (c, false)
  else
    let '(index, c) := map_at location_id c in
    if decide (index = ALWAYS_EMPTY_INDEX) then Some (c, false)
    else
      '(c, rc) ← insert_thing_before (Item k it) index c; Some (c, (rc =? PBSE_NONE)%Z).

Definition c_remove k c : option (item_container T * bool) :=
  if exit_called then Some (c, false)
  else
    let '(index, c) := map_at k c in
    if decide (index = ALWAYS_EMPTY_INDEX) then Some (c, false)
    else '(c, rc) ← remove_thing_from_index index c; Some (c, (rc =? PBSE_NONE)%Z).

Definition c_find k c : option (item_container T * option T) :=
  if exit_called then Some (c, None)
  else
    let '(index, c) := map_at k c in
    if decide (index = ALWAYS_EMPTY_INDEX) then Some (c, None)
    else s ← slots c !! index; Some (c, item_ptr <$> pItem s).

Definition c_pop c := if exit_called then Some (c, None) else pop_thing c.
Definition c_pop_back c := if exit_called then Some (c, None) else pop_back_thing c.

Definition c_swap (id1 id2 : cstr) c : option (item_container T * bool) :=
  if exit_called then Some (c, false)
  else
    let '(ind1, c) := map_at id1 c in
    let '(ind2, c) := map_at id2 c in
    if decide (ind1 = ALWAYS_EMPTY_INDEX \/ ind2 = ALWAYS_EMPTY_INDEX \/ ind1 = ind2)
    then Some (c, false)
    else
      s1 ← slots c !! ind1;
      s2 ← slots c !! ind2;
      c ← set_item ind1 (pItem s2) c;
      c ← set_item ind2 (pItem s1) c;
      Some (with_map c (<[id2 := ind1]> (<[id1 := ind2]> (cmap c))), true).

Fixpoint clear_slots (ss : list (slot T)) (m : gmap cstr nat) : list (slot T) * gmap cstr nat :=
  match ss with
  | [] => ([], m)
  | s :: ss =>
    let m := match pItem s with Some x => delete (item_id x) m | None => m end in
    let '(ss', m) := clear_slots ss m in (Slot None 0 0 :: ss', m)
  end.
Definition c_clear c : item_container T :=
  if exit_called then c
  else let '(ss, m) := clear_slots (slots c) (cmap c) in Container ss (cmax c) 0 1 0 m.

Definition c_count c : nat := if exit_called then 0 else cnum c.

End Container.
