(* ===== verification/ContainerRefine.v ===== *)
(** * item_container implements an ordered list with unique keys

    The operations of Container.v against lists of items.  [shape c js l] says that
    the slots [js], in this order, form the forward chain of [c] and hold the items
    [l]; [rep m c l] adds what the two fields that know the end of the chain, [last]
    and [slots[0].prev], promise.  The class keeps them together only partly, so a
    container works in one of two modes: [Append] (filled with [insert], as [alljobs]
    and [users] are) and [Rank] (filled with [insert_first], as the job lists of a
    queue are). *)
From Stdlib Require Import ZArith Lia.
From stdpp Require Import base gmap option list.
From S2P Require Import Prelude Container.

(** ** Chains of indices *)

Fixpoint tail_of (a : nat) (js : list nat) : nat :=
  match js with [] => a | i :: js => tail_of i js end.

Fixpoint walk (nx pv : nat -> nat) (a : nat) (js : list nat) : Prop :=
  match js with
  | [] => True
  | i :: js => nx a = i /\ pv i = a /\ walk nx pv i js
  end.

Lemma tail_of_app a l1 l2 : tail_of a (l1 ++ l2) = tail_of (tail_of a l1) l2.
Proof. revert a. induction l1; simpl; auto. Qed.

Lemma tail_of_in a l : tail_of a l ∈ a :: l.
Proof. revert a. induction l as [|i l IH]; intros a; simpl; [set_solver|]. specialize (IH i). set_solver. Qed.

Lemma walk_app nx pv a l1 l2 :
  walk nx pv a (l1 ++ l2) <-> walk nx pv a l1 /\ walk nx pv (tail_of a l1) l2.
Proof. revert a. induction l1 as [|i l1 IH]; intros a; simpl; [tauto|]. rewrite IH. tauto. Qed.

(** A chain only depends on the [next] of what precedes its end and on the [prev] of
    what follows its start. *)
Lemma walk_frame (nx pv nx' pv' : nat -> nat) a l :
  NoDup (a :: l) ->
  (forall j, j ∈ a :: l -> j <> tail_of a l -> nx' j = nx j) ->
  (forall j, j ∈ l -> pv' j = pv j) ->
  walk nx pv a l -> walk nx' pv' a l.
Proof.
  revert a. induction l as [|i l IH]; intros a Hnd Hn Hp; simpl; [done|].
  intros (E1 & E2 & Hw). pose proof (tail_of_in i l) as Ht.
  apply NoDup_cons in Hnd as [Ha Hnd]. rewrite Hn, Hp; [|set_solver..|].
  - repeat split; [done..|]. apply IH; [done| |set_solver|done].
    intros j Hj Hjt. apply Hn; [set_solver|done].
  - simpl. intros ->. set_solver.
Qed.

Section Refine.
Context `{Platform} {T : Type}.
Implicit Types (c : item_container T) (js : list nat) (l : list (item T)).

(** ** Views of the array *)

Definition nx c (i : nat) : nat := from_option s_next 0 (slots c !! i).
Definition pv c (i : nat) : nat := from_option s_prev 0 (slots c !! i).
Definition it_at c (i : nat) : option (item T) := slots c !! i ≫= pItem.

Definition upd i f c := with_slots c (alter f i (slots c)).

Lemma set_slot_ok i f c : (i < length (slots c))%nat -> set_slot i f c = Some (upd i f c).
Proof.
  intros [s Hs]%lookup_lt_is_Some. unfold set_slot. by rewrite Hs.
Qed.

Lemma lookup_upd i f c j :
  slots (upd i f c) !! j = if decide (i = j) then f <$> slots c !! j else slots c !! j.
Proof. unfold upd. simpl. rewrite list_lookup_alter. by case_decide; subst. Qed.

Lemma length_upd i f c : length (slots (upd i f c)) = length (slots c).
Proof. apply length_alter. Qed.

Lemma upd_views i f c :
  (forall s, s_next (f s) = s_next s) -> forall j, nx (upd i f c) j = nx c j.
Proof.
  intros Hf j. unfold nx. rewrite lookup_upd. case_decide; [|done].
  destruct (slots c !! j); simpl; auto.
Qed.
Lemma upd_views_pv i f c :
  (forall s, s_prev (f s) = s_prev s) -> forall j, pv (upd i f c) j = pv c j.
Proof.
  intros Hf j. unfold pv. rewrite lookup_upd. case_decide; [|done].
  destruct (slots c !! j); simpl; auto.
Qed.
Lemma upd_views_it i f c :
  (forall s, pItem (f s) = pItem s) -> forall j, it_at (upd i f c) j = it_at c j.
Proof.
  intros Hf j. unfold it_at. rewrite lookup_upd. case_decide; [|done].
  destruct (slots c !! j); simpl; auto.
Qed.

(** What one assignment to a slot of the array does: [c'] is [c] with other links. *)
Record stored c c' (fn fp : nat -> nat) (fi : nat -> option (item T))
    (m : gmap cstr nat) (la : nat) : Prop := {
  st_len : length (slots c') = length (slots c);
  st_nx j : nx c' j = fn j;
  st_pv j : pv c' j = fp j;
  st_it j : it_at c' j = fi j;
  st_max : cmax c' = cmax c;
  st_num : cnum c' = cnum c;
  st_ns : next_slot c' = next_slot c;
  st_last : clast c' = la;
  st_map : cmap c' = m
}.

Lemma stored_refl c : stored c c (nx c) (pv c) (it_at c) (cmap c) (clast c).
Proof. by constructor. Qed.

Lemma with_map_stored c c1 fn fp fi m la m' :
  stored c c1 fn fp fi m la -> stored c (with_map c1 m') fn fp fi m' la.
Proof. by intros []; constructor. Qed.

Lemma with_last_stored c c1 fn fp fi m la la' :
  stored c c1 fn fp fi m la -> stored c (with_last c1 la') fn fp fi m la'.
Proof. by intros []; constructor. Qed.

Lemma read_next_stored c c1 fn fp fi m la i :
  stored c c1 fn fp fi m la -> (i < length (slots c))%nat -> s_next <$> (slots c1 !! i) = Some (fn i).
Proof.
  intros [] Hi. rewrite <- st_nx0. unfold nx.
  destruct (lookup_lt_is_Some_2 (slots c1) i) as [s ->]; [lia|done].
Qed.

Lemma read_prev_stored c c1 fn fp fi m la i :
  stored c c1 fn fp fi m la -> (i < length (slots c))%nat -> s_prev <$> (slots c1 !! i) = Some (fp i).
Proof.
  intros [] Hi. rewrite <- st_pv0. unfold pv.
  destruct (lookup_lt_is_Some_2 (slots c1) i) as [s ->]; [lia|done].
Qed.

Definition at_fn {B} (i : nat) (v : B) (f : nat -> B) : nat -> B :=
  fun j => if decide (j = i) then v else f j.

Ltac store_case i c1 :=
  let j := fresh "j" in intros j; unfold at_fn; destruct (decide (j = i)) as [->|];
  [unfold nx, pv, it_at; rewrite lookup_upd, decide_True by done;
   destruct (lookup_lt_is_Some_2 (slots c1) i) as [? ->]; [lia|done]
  |match goal with H : forall j, _ = ?f j |- _ = ?f _ => rewrite <- H end;
   unfold nx, pv, it_at; by rewrite lookup_upd, decide_False by congruence].

Lemma set_next_stored i v c c1 fn fp fi m la :
  stored c c1 fn fp fi m la -> (i < length (slots c))%nat ->
  exists c2, set_next i v c1 = Some c2 /\ stored c c2 (at_fn i v fn) fp fi m la.
Proof.
  intros [] Hi. eexists. split; [apply set_slot_ok; lia|].
  constructor; rewrite ?length_upd; try done.
  - store_case i c1.
  - intros j. by rewrite upd_views_pv.
  - intros j. by rewrite upd_views_it.
Qed.

Lemma set_prev_stored i v c c1 fn fp fi m la :
  stored c c1 fn fp fi m la -> (i < length (slots c))%nat ->
  exists c2, set_prev i v c1 = Some c2 /\ stored c c2 fn (at_fn i v fp) fi m la.
Proof.
  intros [] Hi. eexists. split; [apply set_slot_ok; lia|].
  constructor; rewrite ?length_upd; try done.
  - intros j. by rewrite upd_views.
  - store_case i c1.
  - intros j. by rewrite upd_views_it.
Qed.

Lemma set_item_stored i v c c1 fn fp fi m la :
  stored c c1 fn fp fi m la -> (i < length (slots c))%nat ->
  exists c2, set_item i v c1 = Some c2 /\ stored c c2 fn fp (at_fn i v fi) m la.
Proof.
  intros [] Hi. eexists. split; [apply set_slot_ok; lia|].
  constructor; rewrite ?length_upd; try done.
  - intros j. by rewrite upd_views.
  - intros j. by rewrite upd_views_pv.
  - store_case i c1.
Qed.

(** ** What a container holds *)

(** The slot of the item with id [k], 0 when there is none. *)
Fixpoint slot_of (js : list nat) l (k : cstr) : nat :=
  match js, l with
  | i :: js, x :: l => if decide (item_id x = k) then i else slot_of js l k
  | _, _ => 0
  end.

(** [shape0] leaves open whether [next_slot] is free, as between an insertion and
    [update_next_slot]. *)
Record shape0 c js l : Prop := {
  sh_len : length (slots c) = cmax c;
  sh_pos : (0 < cmax c)%nat;
  sh_nd : NoDup (0 :: js);
  sh_lt i : i ∈ js -> (i < cmax c)%nat;
  sh_walk : walk (nx c) (pv c) 0 js;
  sh_end : nx c (tail_of 0 js) = 0;
  sh_items : it_at c <$> js = Some <$> l;
  sh_free i : i ∉ js -> it_at c i = None;
  sh_num : cnum c = length js;
  sh_ns : (1 <= next_slot c <= cmax c)%nat;
  sh_below i : (1 <= i < next_slot c)%nat -> i ∈ js;
  sh_ids : NoDup (item_id <$> l);
  sh_map k : default 0 (cmap c !! k) = slot_of js l k
}.

Definition shape c js l : Prop := shape0 c js l /\ next_slot c ∉ js.

Lemma shape_length c js l : shape0 c js l -> length js = length l.
Proof. intros Hs. pose proof (f_equal length (sh_items _ _ _ Hs)) as E. by rewrite !length_fmap in E. Qed.

Lemma slot_of_None js l k : k ∉ item_id <$> l -> slot_of js l k = 0.
Proof.
  revert l. induction js as [|i js IH]; intros [|x l]; simpl; try done. intros Hk.
  rewrite decide_False by set_solver. apply IH. set_solver.
Qed.

Lemma slot_of_app js1 js2 l1 l2 k :
  length js1 = length l1 -> k ∉ item_id <$> l1 -> slot_of (js1 ++ js2) (l1 ++ l2) k = slot_of js2 l2 k.
Proof.
  revert l1. induction js1 as [|i js1 IH]; intros [|x l1]; try done. simpl. intros [= E] Hk.
  rewrite decide_False by set_solver. apply IH; [done|set_solver].
Qed.

Lemma slot_of_in js1 js2 l1 l2 k :
  length js1 = length l1 -> k ∈ item_id <$> l1 -> slot_of (js1 ++ js2) (l1 ++ l2) k = slot_of js1 l1 k.
Proof.
  revert l1. induction js1 as [|i js1 IH]; intros [|x l1] E; try done; [set_solver|].
  simpl. simplify_eq/=. intros Hk. case_decide; [done|]. apply IH; [done|set_solver].
Qed.

(** One more item between the two halves, or one less. *)
Lemma slot_of_splice js1 js2 l1 l2 i x k :
  length js1 = length l1 -> item_id x ∉ item_id <$> (l1 ++ l2) ->
  slot_of (js1 ++ i :: js2) (l1 ++ x :: l2) k
  = if decide (item_id x = k) then i else slot_of (js1 ++ js2) (l1 ++ l2) k.
Proof.
  intros E Hx. rewrite fmap_app in Hx. destruct (decide (k ∈ item_id <$> l1)) as [Hk|Hk].
  - rewrite !slot_of_in by done. rewrite decide_False; [done|]. set_solver.
  - rewrite !slot_of_app by done. done.
Qed.

Lemma slot_of_Some js l k i :
  length js = length l -> slot_of js l k = i -> i <> 0 ->
  exists js1 js2 l1 l2 x, js = js1 ++ i :: js2 /\ l = l1 ++ x :: l2 /\ item_id x = k
    /\ length js1 = length l1.
Proof.
  revert l. induction js as [|j js IH]; intros [|y l]; try done; simpl; [congruence..|].
  intros [= E] Hs Hi. case_decide; subst.
  - by exists [], js, [], l, y.
  - destruct (IH l E eq_refl Hi) as (js1 & js2 & l1 & l2 & x & E1 & -> & Hx & E2).
    exists (j :: js1), js2, (y :: l1), l2, x. rewrite E1 at 1. simpl. auto.
Qed.

Lemma slot_of_0 js l k : length js = length l -> 0 ∉ js -> slot_of js l k = 0 -> k ∉ item_id <$> l.
Proof.
  revert l. induction js as [|j js IH]; intros [|y l]; try done; simpl; [set_solver..|].
  intros [= E] H0. case_decide; [set_solver|]. intros Hs. apply IH in Hs; set_solver.
Qed.

(** A slot remains free unless the array is full. *)
Lemma shape_room c js l : shape c js l -> cmax c <> (cnum c + 1)%nat -> (next_slot c < cmax c)%nat.
Proof.
  intros [[] Hf] Hm. destruct (decide (next_slot c = cmax c)) as [E|]; [|lia]. exfalso.
  apply Hm. rewrite sh_num0. apply NoDup_cons in sh_nd0 as [H0 Hnd].
  assert (js ≡ₚ seq 1 (cmax c - 1)) as Hp.
  { apply NoDup_Permutation; [done|apply NoDup_seq|]. intros i. rewrite elem_of_seq. split.
    - intros Hi. pose proof (sh_lt0 _ Hi). destruct i; [done|lia].
    - intros Hi. apply sh_below0. lia. }
  apply Permutation_length in Hp. rewrite length_seq in Hp. lia.
Qed.

(** ** Room for one more item *)

(** The array is not full, or doubling it is within an [int] and granted. *)
Definition room c : Prop :=
  cmax c = (cnum c + 1)%nat ->
  (Z.of_nat (cmax c * 2) <= INT_MAX)%Z
  /\ calloc_ok (Z.of_nat (cmax c * 2) * sizeof_slot) = true.

Lemma grow_views c j (c' := Container (slots c ++ replicate (cmax c) (Slot None 0 0)) (cmax c * 2)
    (cnum c) (next_slot c) (clast c) (cmap c)) :
  nx c' j = nx c j /\ pv c' j = pv c j /\ it_at c' j = it_at c j.
Proof.
  unfold nx, pv, it_at. simpl. rewrite lookup_app.
  destruct (slots c !! j) as [s|] eqn:E; [done|]. simpl.
  destruct (replicate _ _ !! _) as [s|] eqn:Er; [|done].
  apply lookup_replicate_1 in Er as [-> _]. done.
Qed.

Lemma check_and_resize_ok c js l :
  shape c js l -> room c ->
  exists c', check_and_resize c = Some (c', PBSE_NONE) /\ shape c' js l
    /\ (next_slot c' < cmax c')%nat /\ clast c' = clast c /\ pv c' 0 = pv c 0 /\ cnum c' = cnum c
    /\ cmap c' = cmap c.
Proof.
  intros Hs Hr. unfold check_and_resize. case_decide as Hm.
  - destruct (Hr Hm) as [Hi Ha]. rewrite decide_False by lia. rewrite Ha. eexists.
    split; [done|]. destruct Hs as [[] Hf]. pose proof (grow_views c) as Hv.
    repeat split; simpl; rewrite ?length_app, ?length_replicate; try done; try lia; try apply Hv.
    + intros i Hi'. specialize (sh_lt0 i Hi'). lia.
    + apply (walk_frame (nx c) (pv c)); [done|intros; apply Hv..|done].
    + etrans; [apply Hv|done].
    + etrans; [|exact sh_items0]. apply list_fmap_ext. intros ? j _. apply Hv.
    + intros i Hni. etrans; [apply Hv|]. by apply sh_free0.
  - exists c. split; [done|]. split_and!; try done. by eapply shape_room.
Qed.

Lemma update_next_slot_loop_ok fuel c :
  (fuel <= length (slots c) - next_slot c)%nat ->
  exists n, update_next_slot_loop fuel c = with_next_slot c n
    /\ (next_slot c <= n <= next_slot c + fuel)%nat
    /\ (forall i, (next_slot c <= i < n)%nat -> it_at c i <> None)
    /\ ((n < next_slot c + fuel)%nat -> it_at c n = None).
Proof.
  revert c. induction fuel as [|fuel IH]; intros c Hf; simpl.
  - exists (next_slot c). split; [by destruct c|]. split_and!; lia.
  - destruct (lookup_lt_is_Some_2 (slots c) (next_slot c)) as [s Hs]; [lia|].
    rewrite Hs. destruct (pItem s) as [x|] eqn:Ex.
    + destruct (IH (with_next_slot c (S (next_slot c)))) as (n & E & Hn & Hb & Hfr); simpl in *; [lia|].
      exists n. rewrite E. split; [done|]. split_and!; [lia|lia| |intros; apply Hfr; lia].
      intros i Hi. destruct (decide (i = next_slot c)) as [->|].
      * unfold it_at. rewrite Hs. simpl. by rewrite Ex.
      * apply (Hb i). lia.
    + exists (next_slot c). split; [by destruct c|]. split_and!; [lia|lia|lia|].
      intros _. unfold it_at. by rewrite Hs.
Qed.

Lemma it_at_in c js l i : shape0 c js l -> it_at c i <> None <-> i ∈ js.
Proof.
  intros Hs. split.
  - intros Hi. destruct (decide (i ∈ js)) as [|Hn]; [done|]. by apply (sh_free _ _ _ Hs) in Hn.
  - intros [j Hj]%list_elem_of_lookup. pose proof (f_equal (lookup j) (sh_items _ _ _ Hs)) as E.
    rewrite !list_lookup_fmap, Hj in E. destruct (l !! j); simplify_eq/=. congruence.
Qed.

Lemma update_next_slot_ok c js l :
  shape0 c js l ->
  shape (update_next_slot c) js l /\ clast (update_next_slot c) = clast c
  /\ pv (update_next_slot c) 0 = pv c 0.
Proof.
  intros Hs. unfold update_next_slot.
  destruct (update_next_slot_loop_ok (cmax c - next_slot c) c) as (n & -> & Hn & Hb & Hf).
  { by rewrite (sh_len _ _ _ Hs). }
  split; [|done]. pose proof (it_at_in _ _ _ n Hs) as Hin. pose proof (sh_ns _ _ _ Hs).
  split.
  - destruct Hs. constructor; try done; simpl; [lia|].
    intros i Hi. destruct (decide (i < next_slot c)%nat); [apply sh_below0; lia|].
    apply (it_at_in c js l i); [by constructor|]. apply Hb. lia.
  - simpl. rewrite <- Hin. destruct (decide (n < cmax c)%nat); [rewrite Hf by lia; tauto|].
    rewrite Hin. intros Hj. apply (sh_lt _ _ _ Hs) in Hj. lia.
Qed.

(** ** Linking a slot in *)

(** The slot [rc] now holds [x] between [a] and [b]. *)
Record spliced c c' (rc a b : nat) (x : item T) : Prop := {
  sp_len : length (slots c') = length (slots c);
  sp_nx j : nx c' j = at_fn rc b (at_fn a rc (nx c)) j;
  sp_pv j : pv c' j = at_fn rc a (at_fn b rc (pv c)) j;
  sp_it j : it_at c' j = at_fn rc (Some x) (it_at c) j;
  sp_max : cmax c' = cmax c;
  sp_num : cnum c' = S (cnum c);
  sp_ns : next_slot c' = next_slot c;
  sp_map : cmap c' = <[item_id x := rc]> (cmap c)
}.

Lemma at_fn_eq {B} i (v : B) f : at_fn i v f i = v.
Proof. unfold at_fn. by rewrite decide_True. Qed.
Lemma at_fn_ne {B} i j (v : B) f : j <> i -> at_fn i v f j = f j.
Proof. intros. unfold at_fn. by rewrite decide_False. Qed.

Lemma nodup_mid (a : nat) js1 js2 :
  NoDup (a :: js1 ++ js2) ->
  NoDup (a :: js1) /\ NoDup js2 /\ (forall j, j ∈ js2 -> j <> tail_of a js1 /\ j <> a /\ j ∉ js1).
Proof.
  intros Hnd. change (NoDup ((a :: js1) ++ js2)) in Hnd. apply NoDup_app in Hnd as (H1 & H2 & H3).
  split_and!; try done. intros j Hj. pose proof (tail_of_in a js1) as Ht. split_and!.
  - intros ->. by apply (H2 _ Ht).
  - intros ->. apply (H2 a); [set_solver|done].
  - intros Hj'. apply (H2 j); [set_solver|done].
Qed.

Lemma splice_walk (n p n' p' : nat -> nat) rc js1 js2 :
  NoDup (0 :: js1 ++ js2) -> rc ∉ 0 :: js1 ++ js2 ->
  (forall j, n' j = at_fn rc (hd 0 js2) (at_fn (tail_of 0 js1) rc n) j) ->
  (forall j, p' j = at_fn rc (tail_of 0 js1) (at_fn (hd 0 js2) rc p) j) ->
  walk n p 0 (js1 ++ js2) -> n (tail_of 0 (js1 ++ js2)) = 0 ->
  walk n' p' 0 (js1 ++ rc :: js2) /\ n' (tail_of 0 (js1 ++ rc :: js2)) = 0.
Proof.
  intros Hnd Hrc Hn Hp. destruct (nodup_mid _ _ _ Hnd) as (H1 & H2 & H3).
  pose proof (tail_of_in 0 js1) as Ht1. rewrite !walk_app, !tail_of_app. simpl. intros [Hw1 Hw2] He.
  assert (walk n' p' 0 js1) as Hw1'.
  { apply (walk_frame n p); [done| | |done].
    - intros j Hj Hjt. rewrite Hn, !at_fn_ne; [done..|set_solver].
    - intros j Hj. rewrite Hp, !at_fn_ne; [done| |set_solver].
      destruct js2 as [|b js2]; simpl.
      + intros ->. apply NoDup_cons in H1 as [? _]. done.
      + intros ->. destruct (H3 b) as (_ & _ & ?); [set_solver|done]. }
  assert (n' (tail_of 0 js1) = rc) as Ea.
  { rewrite Hn, at_fn_ne, at_fn_eq; [done|set_solver]. }
  assert (p' rc = tail_of 0 js1) as Er by by rewrite Hp, at_fn_eq.
  assert (n' rc = hd 0 js2) as Eb by by rewrite Hn, at_fn_eq.
  destruct js2 as [|b js2]; simpl in *; [done|]. destruct Hw2 as (_ & _ & Hw2).
  assert (forall j, j ∈ b :: js2 -> n' j = n j) as Hn2.
  { intros j Hj. destruct (H3 j Hj) as [? _]. rewrite Hn, !at_fn_ne; [done..|set_solver]. }
  split_and!; try done.
  - rewrite Hp, at_fn_ne, at_fn_eq; [done|set_solver].
  - apply (walk_frame n p); [done| | |done]; [intros j Hj _; by apply Hn2|].
    intros j Hj. rewrite Hp, !at_fn_ne; [done| |set_solver]. intros ->.
    by apply NoDup_cons in H2 as [? _].
  - rewrite Hn2; [done|apply tail_of_in].
Qed.

Lemma splice_shape c c' js1 js2 l1 l2 x :
  shape c (js1 ++ js2) (l1 ++ l2) -> length js1 = length l1 -> (next_slot c < cmax c)%nat ->
  item_id x ∉ item_id <$> (l1 ++ l2) ->
  spliced c c' (next_slot c) (tail_of 0 js1) (hd 0 js2) x ->
  shape0 c' (js1 ++ next_slot c :: js2) (l1 ++ x :: l2).
Proof.
  intros [Hs Hf] El Hlt Hx Hsp. destruct (Hs). destruct Hsp.
  assert (next_slot c ∉ 0 :: js1 ++ js2) as Hrc by (rewrite not_elem_of_cons; split; [lia|done]).
  destruct (splice_walk (nx c) (pv c) (nx c') (pv c') (next_slot c) js1 js2) as [Hw He]; try done.
  assert (forall js, next_slot c ∉ js -> it_at c' <$> js = it_at c <$> js) as Hit.
  { intros js Hjs. apply list_fmap_ext. intros ? j Hj. rewrite sp_it0, at_fn_ne; [done|].
    intros ->. by apply list_elem_of_lookup_2 in Hj. }
  constructor; try done; try congruence; rewrite ?sp_len0, ?sp_max0, ?sp_num0, ?sp_ns0; try lia.
  - rewrite app_comm_cons, <- Permutation_middle. by apply NoDup_cons_2.
  - intros i. rewrite elem_of_app, elem_of_cons. intros [?|[->|?]]; [|done|]; apply sh_lt0; set_solver.
  - rewrite !fmap_app in *. simpl. rewrite sp_it0, at_fn_eq, !Hit by set_solver.
    apply app_inj_1 in sh_items0 as [E1 E2]; [|by rewrite !length_fmap]. by rewrite E1, E2.
  - intros i Hi. rewrite sp_it0, at_fn_ne; [apply sh_free0; set_solver|set_solver].
  - rewrite sh_num0, !length_app. simpl. lia.
  - intros i Hi. specialize (sh_below0 i Hi). set_solver.
  - rewrite fmap_app. simpl. rewrite <- Permutation_middle. apply NoDup_cons_2; [|by rewrite <- fmap_app].
    by rewrite <- fmap_app.
  - intros k. rewrite slot_of_splice by done. rewrite sp_map0. case_decide; subst.
    + by rewrite lookup_insert_eq.
    + by rewrite lookup_insert_ne.
Qed.

(** ** The three insertions *)

(** The two modes of a container: where the end of its chain is recorded. *)
Inductive mode := Append | Rank.

Definition ends (m : mode) c js : Prop :=
  match m with
  | Append => clast c = tail_of 0 js
  | Rank => clast c = 0 /\ pv c 0 = tail_of 0 js
  end.

Ltac at_fn_cases :=
  intros; unfold at_fn, ALWAYS_EMPTY_INDEX in *; repeat case_decide; subst; first [done|lia|congruence].

(** Reads [last] and [map] of the current container. *)
Ltac store_read Hst :=
  try rewrite (st_map _ _ _ _ _ _ _ Hst); try rewrite (st_last _ _ _ _ _ _ _ Hst).

(** Executes the next assignment to a slot, to the map or to [last]. *)
Ltac store_step Hst :=
  match type of Hst with
  | stored ?c ?c1 ?fn ?fp ?fi ?m ?la =>
    let c2 := fresh "c" in let H2 := fresh "Hst" in
    lazymatch goal with
    | |- context [set_next ?i ?v c1] =>
      destruct (set_next_stored i v c c1 fn fp fi m la Hst) as (c2 & -> & H2); [try (unfold ALWAYS_EMPTY_INDEX; lia)|]
    | |- context [set_prev ?i ?v c1] =>
      destruct (set_prev_stored i v c c1 fn fp fi m la Hst) as (c2 & -> & H2); [try (unfold ALWAYS_EMPTY_INDEX; lia)|]
    | |- context [set_item ?i ?v c1] =>
      destruct (set_item_stored i v c c1 fn fp fi m la Hst) as (c2 & -> & H2); [try (unfold ALWAYS_EMPTY_INDEX; lia)|]
    | |- context [with_map c1 ?m'] =>
      pose proof (with_map_stored c c1 fn fp fi m la m' Hst) as H2;
      set (c2 := with_map c1 m') in *; clearbody c2
    | |- context [with_last c1 ?la'] =>
      pose proof (with_last_stored c c1 fn fp fi m la la' Hst) as H2;
      set (c2 := with_last c1 la') in *; clearbody c2
    end; clear Hst; rename H2 into Hst; cbn [mbind option_bind]; store_read Hst
  end.

(** The last assignment is made: read off what the splice did. *)
Ltac splice_done Hst :=
  constructor; simpl;
  [etrans; [apply (st_len _ _ _ _ _ _ _ Hst)|done]
  |intros ?; etrans; [apply (st_nx _ _ _ _ _ _ _ Hst)|at_fn_cases]
  |intros ?; etrans; [apply (st_pv _ _ _ _ _ _ _ Hst)|at_fn_cases]
  |intros ?; etrans; [apply (st_it _ _ _ _ _ _ _ Hst)|at_fn_cases]
  |apply (st_max _ _ _ _ _ _ _ Hst)
  |f_equal; apply (st_num _ _ _ _ _ _ _ Hst)
  |apply (st_ns _ _ _ _ _ _ _ Hst)
  |apply (st_map _ _ _ _ _ _ _ Hst)].

Lemma shape_tail c js l : shape c js l ->
  (tail_of 0 js < length (slots c))%nat /\ next_slot c <> tail_of 0 js.
Proof.
  intros [Hs Hf]. pose proof (sh_len _ _ _ Hs) as Hlen. pose proof (sh_ns _ _ _ Hs) as Hns.
  pose proof (sh_pos _ _ _ Hs). pose proof (tail_of_in 0 js) as Ht.
  split.
  - apply elem_of_cons in Ht as [->|Hin]; [lia|]. rewrite Hlen. by apply (sh_lt _ _ _ Hs).
  - intros E. apply elem_of_cons in Ht as [?|?]; [lia|congruence].
Qed.

Lemma insert_thing_spliced c0 c js l x :
  check_and_resize c0 = Some (c, PBSE_NONE) ->
  shape c js l -> (next_slot c < cmax c)%nat -> clast c = tail_of 0 js ->
  exists c', insert_thing x c0 = Some (update_next_slot c', Z.of_nat (next_slot c))
    /\ spliced c c' (next_slot c) (tail_of 0 js) 0 x /\ clast c' = next_slot c.
Proof.
  intros Hr Hs Hlt Hl. unfold insert_thing. rewrite Hr. cbn [mbind option_bind].
  destruct (shape_tail _ _ _ Hs) as [Ht Hne]. destruct Hs as [Hs Hf].
  pose proof (sh_len _ _ _ Hs) as Hlen. pose proof (sh_ns _ _ _ Hs) as Hns.
  cbn [Z.eqb PBSE_NONE]. pose proof (stored_refl c) as Hst. rewrite Hl in Hst.
  do 3 store_step Hst. case_decide as Hz.
  - rewrite Hz in Hst |- *. do 5 store_step Hst.
    eexists. split; [reflexivity|]. rewrite Hz in *. split; [splice_done Hst|].
    apply (st_last _ _ _ _ _ _ _ Hst).
  - cbn [mbind option_bind]. store_read Hst. do 4 store_step Hst.
    eexists. split; [reflexivity|]. split; [splice_done Hst|]. apply (st_last _ _ _ _ _ _ _ Hst).
Qed.

Lemma insert_thing_after_spliced c0 c js1 js2 l x i :
  check_and_resize c0 = Some (c, PBSE_NONE) ->
  shape c (js1 ++ i :: js2) l -> (next_slot c < cmax c)%nat ->
  exists c', insert_thing_after x i c0 = Some (update_next_slot c', Z.of_nat (next_slot c))
    /\ spliced c c' (next_slot c) i (hd 0 js2) x
    /\ clast c' = if decide (clast c = i) then next_slot c else clast c.
Proof.
  intros Hr Hs Hlt. unfold insert_thing_after. rewrite Hr. cbn [mbind option_bind].
  destruct Hs as [Hs Hf]. pose proof (sh_len _ _ _ Hs) as Hlen. pose proof (sh_ns _ _ _ Hs) as Hns.
  assert (i < length (slots c))%nat by (rewrite Hlen; apply (sh_lt _ _ _ Hs); set_solver).
  assert (next_slot c <> i) by set_solver.
  assert (nx c i = hd 0 js2) as Hn.
  { pose proof (sh_walk _ _ _ Hs) as Hw. pose proof (sh_end _ _ _ Hs) as He.
    rewrite walk_app in Hw. rewrite tail_of_app in He. destruct js2; simpl in *; tauto. }
  assert (hd 0 js2 < length (slots c))%nat.
  { destruct js2 as [|b js2]; simpl; [lia|]. rewrite Hlen. apply (sh_lt _ _ _ Hs). set_solver. }
  assert (next_slot c <> hd 0 js2) by (destruct js2; simpl; [lia|set_solver]).
  cbn [Z.eqb PBSE_NONE]. pose proof (stored_refl c) as Hst.
  do 3 store_step Hst. rewrite (read_next_stored _ _ _ _ _ _ _ i Hst), Hn by done.
  cbn [mbind option_bind]. do 3 store_step Hst. case_decide as Hi; [store_step Hst|].
  all: eexists; split; [reflexivity|]; split; [splice_done Hst|]; apply (st_last _ _ _ _ _ _ _ Hst).
Qed.

(** [i] is the slot in front of which the item goes, or slot 0 when it goes to the
    end: the latter reads [slots[0].prev]. *)
Lemma insert_thing_before_spliced c0 c js1 js2 l x :
  check_and_resize c0 = Some (c, PBSE_NONE) ->
  shape c (js1 ++ js2) l -> (next_slot c < cmax c)%nat ->
  (js2 = [] -> pv c 0 = tail_of 0 js1) ->
  exists c', insert_thing_before x (hd 0 js2) c0
      = Some (update_next_slot c', Z.of_nat (next_slot c))
    /\ spliced c c' (next_slot c) (tail_of 0 js1) (hd 0 js2) x /\ clast c' = clast c.
Proof.
  intros Hr Hs Hlt Hz. unfold insert_thing_before. rewrite Hr. cbn [mbind option_bind].
  destruct Hs as [Hs Hf]. pose proof (sh_len _ _ _ Hs) as Hlen. pose proof (sh_ns _ _ _ Hs) as Hns.
  assert (pv c (hd 0 js2) = tail_of 0 js1) as Hp.
  { pose proof (sh_walk _ _ _ Hs) as Hw. rewrite walk_app in Hw.
    destruct js2; simpl in *; [by apply Hz|tauto]. }
  assert (hd 0 js2 < length (slots c))%nat.
  { destruct js2 as [|b js2]; simpl; [lia|]. rewrite Hlen. apply (sh_lt _ _ _ Hs). set_solver. }
  assert (next_slot c <> hd 0 js2) by (destruct js2; simpl; [lia|set_solver]).
  assert (tail_of 0 js1 ∈ 0 :: js1 ++ js2) as Hin by (pose proof (tail_of_in 0 js1); set_solver).
  assert (tail_of 0 js1 < length (slots c))%nat.
  { apply elem_of_cons in Hin as [->|Hin]; [lia|]. rewrite Hlen. by apply (sh_lt _ _ _ Hs). }
  assert (next_slot c <> tail_of 0 js1).
  { intros E. apply elem_of_cons in Hin as [?|?]; [lia|congruence]. }
  cbn [Z.eqb PBSE_NONE]. pose proof (stored_refl c) as Hst.
  do 2 store_step Hst. rewrite (read_prev_stored _ _ _ _ _ _ _ _ Hst), Hp by done.
  cbn [mbind option_bind]. do 4 store_step Hst.
  eexists; split; [reflexivity|]; split; [splice_done Hst|]; apply (st_last _ _ _ _ _ _ _ Hst).
Qed.

(** ** Unlinking a slot *)

Lemma unlink_walk (n p n' p' : nat -> nat) i js1 js2 :
  NoDup (0 :: js1 ++ i :: js2) ->
  (forall j, j <> i -> n' j = at_fn (tail_of 0 js1) (hd 0 js2) n j) ->
  (forall j, j <> i -> j <> 0 -> p' j = at_fn (hd 0 js2) (tail_of 0 js1) p j) ->
  walk n p 0 (js1 ++ i :: js2) -> n (tail_of 0 (js1 ++ i :: js2)) = 0 ->
  walk n' p' 0 (js1 ++ js2) /\ n' (tail_of 0 (js1 ++ js2)) = 0.
Proof.
  intros Hnd Hn Hp. destruct (nodup_mid _ _ _ Hnd) as (H1 & H2 & H3).
  apply NoDup_cons in H2 as [H2i H2]. pose proof (tail_of_in 0 js1) as Ht.
  assert (i <> 0 /\ i ∉ js1 /\ i <> tail_of 0 js1) as (Hi0 & Hi1 & Hit).
  { destruct (H3 i) as (? & ? & ?); [set_solver|done]. }
  rewrite !walk_app, !tail_of_app. simpl. intros (Hw1 & _ & _ & Hw2) He.
  assert (walk n' p' 0 js1) as Hw1'.
  { apply (walk_frame n p); [done| | |done].
    - intros j Hj Hjt. rewrite Hn, at_fn_ne; [done..|set_solver].
    - intros j Hj. apply NoDup_cons in H1 as [H0 _]. rewrite Hp, at_fn_ne; [done|..|set_solver|set_solver].
      destruct js2 as [|b js2]; simpl; [set_solver|]. intros ->. destruct (H3 b); set_solver. }
  destruct js2 as [|b js2]; simpl in *.
  { split; [done|]. rewrite Hn, at_fn_eq by congruence. done. }
  destruct Hw2 as (_ & _ & Hw2). apply NoDup_cons in H2 as Hb.
  assert (forall j, j ∈ b :: js2 -> n' j = n j) as Hn2.
  { intros j Hj. destruct (H3 j) as (? & ? & ?); [set_solver|]. rewrite Hn, at_fn_ne; [done..|set_solver]. }
  split_and!; [done|..].
  - rewrite Hn, at_fn_eq by congruence. done.
  - destruct (H3 b) as (? & ? & ?); [set_solver|]. rewrite Hp, at_fn_eq; [done|set_solver|done].
  - apply (walk_frame n p); [done| | |done]; [intros j Hj _; by apply Hn2|].
    intros j Hj. destruct (H3 j) as (? & ? & ?); [set_solver|].
    rewrite Hp, at_fn_ne; [done|set_solver..].
  - rewrite Hn2; [done|apply tail_of_in].
Qed.

Lemma shape_at c js1 js2 l1 l2 i x :
  shape0 c (js1 ++ i :: js2) (l1 ++ x :: l2) -> length js1 = length l1 ->
  slots c !! i = Some (Slot (Some x) (hd 0 js2) (tail_of 0 js1))
  /\ (hd 0 js2 < length (slots c))%nat /\ (tail_of 0 js1 < length (slots c))%nat
  /\ (i < length (slots c))%nat.
Proof.
  intros Hs El. pose proof (sh_len _ _ _ Hs) as Hlen. pose proof (sh_pos _ _ _ Hs) as Hpos.
  assert (forall j, j ∈ 0 :: js1 ++ i :: js2 -> (j < length (slots c))%nat) as Hlt.
  { intros j [->|Hj]%elem_of_cons; [lia|]. rewrite Hlen. by apply (sh_lt _ _ _ Hs). }
  split_and!.
  - destruct (lookup_lt_is_Some_2 (slots c) i) as [s Es]; [apply Hlt; set_solver|].
    pose proof (sh_walk _ _ _ Hs) as Hw. pose proof (sh_end _ _ _ Hs) as He.
    rewrite walk_app in Hw. rewrite tail_of_app in He. simpl in Hw, He.
    pose proof (sh_items _ _ _ Hs) as Hi. rewrite !fmap_app in Hi. simpl in Hi.
    apply app_inj_1 in Hi as [_ [= Hi _]]; [|by rewrite !length_fmap].
    assert (nx c i = hd 0 js2) as Hn by (destruct js2; simpl in *; tauto).
    destruct Hw as (_ & _ & Hp & _). unfold nx, pv, it_at in *. rewrite Es in *. destruct s; simpl in *.
    by subst.
  - apply Hlt. destruct js2; set_solver.
  - apply Hlt. pose proof (tail_of_in 0 js1). set_solver.
  - apply Hlt. set_solver.
Qed.

Lemma unlink_slot_run c js1 js2 l1 l2 i x (a := tail_of 0 js1) (b := hd 0 js2) :
  shape0 c (js1 ++ i :: js2) (l1 ++ x :: l2) -> length js1 = length l1 ->
  exists c', unlink_slot i c = Some c'
    /\ stored c c' (at_fn a b (at_fn i 0 (nx c)))
         (if decide (clast c = i) then at_fn i 0 (pv c) else at_fn b a (at_fn i 0 (pv c)))
         (at_fn i None (it_at c)) (delete (item_id x) (cmap c))
         (if decide (clast c = i) then a else clast c).
Proof.
  intros Hs El. destruct (shape_at _ _ _ _ _ _ _ Hs El) as (Es & Hb & Ha & Hi).
  unfold unlink_slot. rewrite Es. cbn [mbind option_bind pItem s_next s_prev].
  pose proof (stored_refl c) as Hst. do 5 store_step Hst. case_decide; store_step Hst; by eexists.
Qed.

Lemma note_free_eq i c :
  note_free i c = with_next_slot (with_num c (pred (cnum c))) (Nat.min i (next_slot c)).
Proof.
  unfold note_free. simpl. case_decide; unfold with_next_slot, with_num; simpl; f_equal; lia.
Qed.

Lemma unlink_shape c c' js1 js2 l1 l2 i x fp la :
  shape c (js1 ++ i :: js2) (l1 ++ x :: l2) -> length js1 = length l1 ->
  stored c c' (at_fn (tail_of 0 js1) (hd 0 js2) (at_fn i 0 (nx c))) fp
         (at_fn i None (it_at c)) (delete (item_id x) (cmap c)) la ->
  (forall j, j <> i -> j <> 0 -> fp j = at_fn (hd 0 js2) (tail_of 0 js1) (pv c) j) ->
  shape (note_free i c') (js1 ++ js2) (l1 ++ l2).
Proof.
  intros [Hs Hf] El Hst Hfp. destruct (Hs). destruct (Hst).
  assert (i ∉ js1 ++ js2 /\ NoDup (0 :: js1 ++ js2)) as [Hi Hnd].
  { rewrite app_comm_cons, <- Permutation_middle in sh_nd0. apply NoDup_cons in sh_nd0. set_solver. }
  assert (item_id x ∉ item_id <$> (l1 ++ l2) /\ NoDup (item_id <$> (l1 ++ l2))) as [Hx Hids].
  { rewrite fmap_app in sh_ids0. simpl in sh_ids0. rewrite <- Permutation_middle in sh_ids0.
    rewrite fmap_app. by apply NoDup_cons in sh_ids0. }
  destruct (unlink_walk (nx c) (pv c) (nx c') (pv c') i js1 js2) as [Hw He]; try done.
  { intros j Hj. rewrite st_nx0. destruct (decide (j = tail_of 0 js1)) as [->|];
      [by rewrite !at_fn_eq|by rewrite !at_fn_ne]. }
  { intros j Hj Hj0. rewrite st_pv0. by apply Hfp. }
  assert (note_free i c' = with_next_slot (with_num c' (length (js1 ++ js2))) (Nat.min i (next_slot c)))
    as ->.
  { rewrite note_free_eq, st_num0, st_ns0, sh_num0, !length_app. simpl.
    by rewrite Nat.add_succ_r. }
  assert (forall js, i ∉ js -> it_at c' <$> js = it_at c <$> js) as Hit.
  { intros js Hjs. apply list_fmap_ext. intros ? j Hj. rewrite st_it0, at_fn_ne; [done|].
    intros ->. by apply list_elem_of_lookup_2 in Hj. }
  pose proof (sh_lt0 i ltac:(set_solver)) as Hilt.
  assert (i <> 0) as Hi0 by (intros ->; apply NoDup_cons in sh_nd0; set_solver).
  split; [constructor; try done; simpl; try lia|].
  - intros j Hj. rewrite st_max0. apply sh_lt0. set_solver.
  - change (it_at c' <$> (js1 ++ js2) = Some <$> (l1 ++ l2)). rewrite !fmap_app in *. simpl in *.
    rewrite !Hit by set_solver.
    apply app_inj_1 in sh_items0 as [E1 [= _ E2]]; [|by rewrite !length_fmap]. by f_equal.
  - intros j Hj. change (it_at c' j = None). rewrite st_it0. unfold at_fn. case_decide; [done|].
    apply sh_free0. set_solver.
  - intros j Hj. specialize (sh_below0 j ltac:(lia)). set_solver by lia.
  - intros k. rewrite st_map0. pose proof (sh_map0 k) as Hk. rewrite slot_of_splice in Hk by done.
    case_decide; subst.
    + rewrite lookup_delete_eq. simpl. by rewrite slot_of_None.
    + by rewrite lookup_delete_ne.
  - simpl. destruct (Nat.min_spec i (next_slot c)) as [[_ ->]|[_ ->]]; [done|]. set_solver.
Qed.

Lemma unlink_ends m c c' js1 js2 l1 l2 i x (a := tail_of 0 js1) (b := hd 0 js2) :
  shape0 c (js1 ++ i :: js2) (l1 ++ x :: l2) -> ends m c (js1 ++ i :: js2) ->
  stored c c' (at_fn a b (at_fn i 0 (nx c)))
         (if decide (clast c = i) then at_fn i 0 (pv c) else at_fn b a (at_fn i 0 (pv c)))
         (at_fn i None (it_at c)) (delete (item_id x) (cmap c))
         (if decide (clast c = i) then a else clast c) ->
  ends m (note_free i c') (js1 ++ js2).
Proof.
  intros Hs He Hst. pose proof (sh_nd _ _ _ Hs) as Hnd.
  destruct (nodup_mid _ _ _ Hnd) as (_ & H2 & H3). destruct (H3 i) as (? & ? & ?); [set_solver|].
  assert (clast (note_free i c') = clast c' /\ pv (note_free i c') 0 = pv c' 0) as [El Ep].
  { by rewrite note_free_eq. }
  apply NoDup_cons in H2 as [Hi2 _]. unfold a, b in *.
  destruct m; simpl in *; rewrite El, ?Ep, ?(st_last _ _ _ _ _ _ _ Hst), ?(st_pv _ _ _ _ _ _ _ Hst).
  - rewrite tail_of_app in *. simpl in He. rewrite He. destruct js2 as [|b' js2]; simpl in *.
    + by rewrite decide_True.
    + rewrite decide_False; [done|]. intros E. pose proof (tail_of_in b' js2). set_solver.
  - destruct He as [E0 E1]. rewrite E0, !decide_False by congruence. split; [done|].
    rewrite tail_of_app in E1 |- *. simpl in E1. destruct js2 as [|b' js2]; simpl in *.
    + by rewrite at_fn_eq.
    + destruct (H3 b') as (? & ? & ?); [set_solver|]. by rewrite !at_fn_ne by congruence.
Qed.

(** ** The operations on what a container holds *)

Definition rep (m : mode) c l : Prop := exists js, shape c js l /\ ends m c js.

Lemma splice_rep m c c' js1 js2 l1 l2 x :
  shape c (js1 ++ js2) (l1 ++ l2) -> length js1 = length l1 -> (next_slot c < cmax c)%nat ->
  item_id x ∉ item_id <$> (l1 ++ l2) ->
  spliced c c' (next_slot c) (tail_of 0 js1) (hd 0 js2) x ->
  match m with
  | Append => clast c' = match js2 with [] => next_slot c | _ => tail_of 0 (js1 ++ js2) end
  | Rank => clast c' = 0 /\ pv c 0 = tail_of 0 (js1 ++ js2)
  end ->
  rep m (update_next_slot c') (l1 ++ x :: l2).
Proof.
  intros Hs El Hlt Hx Hsp He. pose proof (splice_shape _ _ _ _ _ _ _ Hs El Hlt Hx Hsp) as Hs'.
  apply update_next_slot_ok in Hs' as (Hs' & E1 & E2). eexists. split; [exact Hs'|].
  destruct Hs as [Hs Hf]. pose proof (sh_ns _ _ _ Hs). pose proof (sh_nd _ _ _ Hs) as Hnd.
  destruct m; simpl; rewrite ?E1, ?E2, ?(sp_pv _ _ _ _ _ _ Hsp), tail_of_app; simpl.
  - rewrite He. destruct js2; [done|]. by rewrite tail_of_app.
  - destruct He as [-> Hp]. split; [done|]. rewrite at_fn_ne by lia.
    destruct js2 as [|b js2]; simpl; [by rewrite at_fn_eq|].
    rewrite at_fn_ne, Hp, tail_of_app; [done|]. intros <-. apply NoDup_cons in Hnd. set_solver.
Qed.

Lemma rep_insert c l x :
  rep Append c l -> room c -> item_id x ∉ item_id <$> l ->
  exists c' rc, insert_thing x c = Some (c', rc) /\ (0 < rc)%Z /\ rep Append c' (l ++ [x]).
Proof.
  intros (js & Hs & He) Hr Hx.
  destruct (check_and_resize_ok _ _ _ Hs Hr) as (c1 & E & Hs1 & Hlt & El & _).
  destruct (insert_thing_spliced c c1 js l x) as (c2 & E2 & Hsp & Hl2); [done..|by rewrite El|].
  eexists _, _. split; [exact E2|]. split; [pose proof (sh_ns _ _ _ (proj1 Hs1)); lia|].
  apply (splice_rep Append c1 c2 js [] l []); rewrite ?app_nil_r; try done.
  by apply (shape_length c1), Hs1.
Qed.

(** Insertion next to an item, in either mode. *)
Lemma rep_insert_after m c js1 js2 l1 l2 i x y :
  shape c (js1 ++ i :: js2) (l1 ++ y :: l2) -> length js1 = length l1 ->
  ends m c (js1 ++ i :: js2) -> room c ->
  item_id x ∉ item_id <$> (l1 ++ y :: l2) ->
  exists c' rc, insert_thing_after x i c = Some (c', rc) /\ (0 < rc)%Z
    /\ rep m c' (l1 ++ y :: x :: l2).
Proof.
  intros Hs El He Hr Hx.
  destruct (check_and_resize_ok _ _ _ Hs Hr) as (c1 & E & Hs1 & Hlt & Ec & Ep & _).
  destruct (insert_thing_after_spliced c c1 js1 js2 _ x i E Hs1 Hlt) as (c2 & E2 & Hsp & Hl2).
  eexists _, _. split; [exact E2|]. split; [pose proof (sh_ns _ _ _ (proj1 Hs1)); lia|].
  pose proof (nodup_mid _ _ _ (sh_nd _ _ _ (proj1 Hs1))) as (_ & Hnd & H3).
  destruct (H3 i) as (_ & Hi0 & _); [set_solver|].
  assert (forall A (a : A) (l l' : list A), l ++ a :: l' = (l ++ [a]) ++ l') as Eapp by (intros; by rewrite <- app_assoc).
  rewrite (Eapp _ i) in Hs1, He. rewrite (Eapp _ y) in Hs1, Hx |- *.
  apply (splice_rep m c1 c2 (js1 ++ [i]) js2 (l1 ++ [y]) l2); try done.
  - rewrite !length_app. simpl. lia.
  - by rewrite tail_of_app.
  - rewrite Hl2, Ec, Ep. destruct m; simpl in He.
    + rewrite He, !tail_of_app. simpl. apply NoDup_cons in Hnd as [Hnd _].
      destruct js2 as [|b js2]; simpl; [by rewrite decide_True|].
      rewrite decide_False; [done|]. intros Hb. pose proof (tail_of_in b js2). set_solver.
    + destruct He as [-> ->]. by rewrite decide_False by congruence.
Qed.

(** Insertion in front of [js2]: of an item, or of the end in mode [Rank]. *)
Lemma rep_insert_before m c js1 js2 l1 l2 x :
  shape c (js1 ++ js2) (l1 ++ l2) -> length js1 = length l1 -> ends m c (js1 ++ js2) ->
  room c -> (m = Append -> js2 <> []) ->
  item_id x ∉ item_id <$> (l1 ++ l2) ->
  exists c' rc, insert_thing_before x (hd 0 js2) c = Some (c', rc) /\ (0 < rc)%Z
    /\ rep m c' (l1 ++ x :: l2).
Proof.
  intros Hs El He Hr Hm Hx.
  destruct (check_and_resize_ok _ _ _ Hs Hr) as (c1 & E & Hs1 & Hlt & Ec & Ep & _).
  destruct (insert_thing_before_spliced c c1 js1 js2 _ x E Hs1 Hlt) as (c2 & E2 & Hsp & Hl2).
  { intros ->. rewrite Ep. destruct m; [by destruct Hm|]. destruct He as [_ ->]. by rewrite app_nil_r. }
  eexists _, _. split; [exact E2|]. split; [pose proof (sh_ns _ _ _ (proj1 Hs1)); lia|].
  apply (splice_rep m c1 c2 js1 js2 l1 l2); try done. rewrite Hl2, Ec, Ep.
  destruct m; simpl in He; [|done]. destruct js2; [by destruct Hm|done].
Qed.

Lemma shape_cap c js l : shape0 c js l -> (cnum c < cmax c)%nat.
Proof.
  intros Hs. rewrite (sh_num _ _ _ Hs).
  assert (length (0 :: js) <= length (seq 0 (cmax c)))%nat as Hl.
  { apply submseteq_length, NoDup_submseteq; [apply (sh_nd _ _ _ Hs)|].
    intros j Hj. apply elem_of_seq. apply elem_of_cons in Hj as [->|Hj].
    - pose proof (sh_pos _ _ _ Hs). lia.
    - apply (sh_lt _ _ _ Hs) in Hj. lia. }
  rewrite length_seq in Hl. simpl in Hl. lia.
Qed.

Lemma rep_unlink m c js1 js2 l1 l2 i x :
  shape c (js1 ++ i :: js2) (l1 ++ x :: l2) -> length js1 = length l1 ->
  ends m c (js1 ++ i :: js2) ->
  exists c', unlink_slot i c = Some c' /\ rep m (note_free i c') (l1 ++ l2) /\ room (note_free i c').
Proof.
  intros Hs El He.
  destruct (unlink_slot_run c js1 js2 l1 l2 i x) as (c' & E & Hst); [apply Hs|done|].
  exists c'. split; [done|]. split; [|intros Hc; exfalso].
  2: { rewrite note_free_eq in Hc. simpl in Hc. destruct Hs as [Hs _].
    rewrite (st_max _ _ _ _ _ _ _ Hst), (st_num _ _ _ _ _ _ _ Hst) in Hc.
    pose proof (shape_cap _ _ _ Hs). rewrite (sh_num _ _ _ Hs), length_app in *. simpl in *. lia. }
  exists (js1 ++ js2). split.
  - eapply unlink_shape; [done..|]. intros j Hj Hj0. case_decide as Hc; [|by unfold at_fn; repeat case_decide].
    rewrite at_fn_ne by done. destruct Hs as [Hs _].
    pose proof (sh_nd _ _ _ Hs) as Hnd. destruct js2 as [|b js2]; simpl; [by rewrite at_fn_ne|].
    destruct m; simpl in He.
    + exfalso. rewrite tail_of_app in He. simpl in He. pose proof (tail_of_in b js2).
      destruct (nodup_mid _ _ _ Hnd) as (_ & [Hi _]%NoDup_cons & _). congruence.
    + destruct (nodup_mid _ _ _ Hnd) as (_ & _ & H3). destruct (H3 i); [set_solver|].
      destruct He. lia.
  - eapply unlink_ends; [apply Hs|done..].
Qed.

End Refine.
