(* ===== verification/ContainerSpec.v ===== *)
(** * item_container against its specification

    The abstract collection is a list of items with distinct ids.  [spec] is the
    effect and the answer of every operation on that list, [run] the operation of
    Container.v; [container_refines] relates them for every sequence of operations
    that [fits] the mode of the container, and the two examples at the end show what
    the operations do outside their mode. *)
From Stdlib Require Import ZArith Lia.
From stdpp Require Import base gmap option list.
From S2P Require Import Prelude Container ContainerRefine.

(** ** The specification: lists of items *)

Section Spec.
Context {T : Type}.
Implicit Types (l : list (item T)) (x : item T) (k : cstr).

Definition ids l : list cstr := item_id <$> l.

Fixpoint l_find k l : option (item T) :=
  match l with
  | [] => None
  | x :: l => if decide (item_id x = k) then Some x else l_find k l
  end.
Fixpoint l_remove k l : list (item T) :=
  match l with
  | [] => []
  | x :: l => if decide (item_id x = k) then l else x :: l_remove k l
  end.
Fixpoint l_insert_after k x l : list (item T) :=
  match l with
  | [] => []
  | y :: l => if decide (item_id y = k) then y :: x :: l else y :: l_insert_after k x l
  end.
Fixpoint l_insert_before k x l : list (item T) :=
  match l with
  | [] => []
  | y :: l => if decide (item_id y = k) then x :: y :: l else y :: l_insert_before k x l
  end.
(** [x] and [y] trade places. *)
Definition l_swap x y l : list (item T) :=
  (fun z => if decide (item_id z = item_id x) then y
            else if decide (item_id z = item_id y) then x else z) <$> l.

Inductive op :=
| OInsert (it : T) k (replace : bool)
| OInsertAfter (loc : cstr) (it : T) k
| OInsertBefore (loc : cstr) (it : T) k
| OInsertAt (index : nat) (it : T) k
| OInsertFirst (it : T) k
| ORemove k
| OFind k
| OPop
| OPopBack
| OSwap (k1 k2 : cstr)
| OClear.

Inductive res := RBool (b : bool) | RPtr (p : option T).

Definition spec (o : op) l : list (item T) * res :=
  match o with
  | OInsert it k replace =>
    if decide (k ∈ ids l)
    then if replace then (l_remove k l ++ [Item k it], RBool true) else (l, RBool false)
    else (l ++ [Item k it], RBool true)
  | OInsertAfter loc it k =>
    if decide (loc ∈ ids l) then (l_insert_after loc (Item k it) l, RBool true) else (l, RBool false)
  | OInsertBefore loc it k =>
    if decide (loc ∈ ids l) then (l_insert_before loc (Item k it) l, RBool false) else (l, RBool false)
  | OInsertAt index it k =>
    if decide (index <= length l)%nat
    then (take index l ++ Item k it :: drop index l, RBool true) else (l, RBool false)
  | OInsertFirst it k => (Item k it :: l, RBool true)
  | ORemove k => (l_remove k l, RBool (bool_decide (k ∈ ids l)))
  | OFind k => (l, RPtr (item_ptr <$> l_find k l))
  | OPop => (tail l, RPtr (item_ptr <$> head l))
  | OPopBack => (take (pred (length l)) l, RPtr (item_ptr <$> last l))
  | OSwap k1 k2 =>
    match l_find k1 l, l_find k2 l with
    | Some x, Some y => if decide (k1 = k2) then (l, RBool false) else (l_swap x y l, RBool true)
    | _, _ => (l, RBool false)
    end
  | OClear => ([], RBool true)
  end.

(** When an operation keeps the two ends of the chain in step: a new id, and no
    operation that the mode does not allow. *)
Definition fits (m : mode) (o : op) l : Prop :=
  match o with
  | OInsert _ _ _ => m = Append
  | OInsertAfter _ _ k | OInsertBefore _ _ k => k ∉ ids l
  | OInsertAt index _ k => k ∉ ids l /\ (m = Append -> index <> length l)
  | OInsertFirst _ k => k ∉ ids l /\ (m = Append -> l <> [])
  | OPopBack => m = Rank
  | _ => True
  end.

Fixpoint fits_all (m : mode) (os : list op) l : Prop :=
  match os with
  | [] => True
  | o :: os => fits m o l /\ fits_all m os (spec o l).1
  end.

Fixpoint spec_all (os : list op) l : list (item T) * list res :=
  match os with
  | [] => (l, [])
  | o :: os =>
    let '(l1, r) := spec o l in let '(l2, rs) := spec_all os l1 in (l2, r :: rs)
  end.

Lemma l_find_None k l : l_find k l = None <-> k ∉ ids l.
Proof. induction l as [|x l IH]; simpl; [set_solver|]. case_decide; set_solver. Qed.

(** The four walks at the item they look for. *)
Lemma l_find_at l1 l2 x : item_id x ∉ ids l1 -> l_find (item_id x) (l1 ++ x :: l2) = Some x.
Proof.
  induction l1 as [|z l1 IH]; simpl; intros Hx; [by rewrite decide_True|].
  rewrite decide_False by set_solver. apply IH. set_solver.
Qed.
Lemma l_remove_at l1 l2 x : item_id x ∉ ids l1 -> l_remove (item_id x) (l1 ++ x :: l2) = l1 ++ l2.
Proof.
  induction l1 as [|z l1 IH]; simpl; intros Hx; [by rewrite decide_True|].
  rewrite decide_False by set_solver. f_equal. apply IH. set_solver.
Qed.
Lemma l_insert_after_at l1 l2 x y :
  item_id x ∉ ids l1 -> l_insert_after (item_id x) y (l1 ++ x :: l2) = l1 ++ x :: y :: l2.
Proof.
  induction l1 as [|z l1 IH]; simpl; intros Hx; [by rewrite decide_True|].
  rewrite decide_False by set_solver. f_equal. apply IH. set_solver.
Qed.
Lemma l_insert_before_at l1 l2 x y :
  item_id x ∉ ids l1 -> l_insert_before (item_id x) y (l1 ++ x :: l2) = l1 ++ y :: x :: l2.
Proof.
  induction l1 as [|z l1 IH]; simpl; intros Hx; [by rewrite decide_True|].
  rewrite decide_False by set_solver. f_equal. apply IH. set_solver.
Qed.
Lemma l_remove_None k l : k ∉ ids l -> l_remove k l = l.
Proof.
  induction l as [|x l IH]; simpl; [done|]. intros Hk. rewrite decide_False by set_solver.
  f_equal. apply IH. set_solver.
Qed.

Lemma length_l_remove k l : (length (l_remove k l) <= length l)%nat.
Proof. induction l as [|x l IH]; simpl; [done|]. case_decide; simpl; lia. Qed.
Lemma length_l_insert_after k x l : (length (l_insert_after k x l) <= S (length l))%nat.
Proof. induction l as [|y l IH]; simpl; [lia|]. case_decide; simpl; lia. Qed.
Lemma length_l_insert_before k x l : (length (l_insert_before k x l) <= S (length l))%nat.
Proof. induction l as [|y l IH]; simpl; [lia|]. case_decide; simpl; lia. Qed.

Lemma spec_length o l : (length (spec o l).1 <= S (length l))%nat.
Proof.
  destruct o as [it k replace|loc it k|loc it k|index it k| |k| | | |k1 k2|]; simpl.
  - pose proof (length_l_remove k l). case_decide; [destruct replace|]; simpl; rewrite ?length_app; simpl; lia.
  - case_decide; simpl; [apply length_l_insert_after|lia].
  - case_decide; simpl; [apply length_l_insert_before|lia].
  - case_decide; simpl; [|lia]. rewrite length_app, length_take. simpl. rewrite length_drop. lia.
  - done.
  - pose proof (length_l_remove k l). lia.
  - lia.
  - destruct l; simpl; lia.
  - rewrite length_take. lia.
  - destruct (l_find k1 l), (l_find k2 l); simpl; try lia. case_decide; simpl; [lia|].
    unfold l_swap. rewrite length_fmap. lia.
  - lia.
Qed.

End Spec.
Arguments op : clear implicits.
Arguments res : clear implicits.

(** ** The refinement *)

Section Refinement.
Context `{Platform} {T : Type}.
Implicit Types (c : item_container T) (l : list (item T)) (o : op T).

Definition run (o : op T) c : option (item_container T * res T) :=
  let bool m := '(c, b) ← m; Some (c, RBool b) in
  let ptr m := '(c, p) ← m; Some (c, RPtr p) in
  match o with
  | OInsert it k replace => bool (c_insert false it k replace c)
  | OInsertAfter loc it k => bool (c_insert_after false loc it k c)
  | OInsertBefore loc it k => bool (c_insert_before false loc it k c)
  | OInsertAt index it k => bool (c_insert_at false index it k c)
  | OInsertFirst it k => bool (c_insert_first false it k c)
  | ORemove k => bool (c_remove false k c)
  | OFind k => ptr (c_find false k c)
  | OPop => ptr (c_pop false c)
  | OPopBack => ptr (c_pop_back false c)
  | OSwap k1 k2 => bool (c_swap false k1 k2 c)
  | OClear => Some (c_clear false c, RBool true)
  end.

Fixpoint run_all (os : list (op T)) c : option (item_container T * list (res T)) :=
  match os with
  | [] => Some (c, [])
  | o :: os => '(c, r) ← run o c; '(c, rs) ← run_all os c; Some (c, r :: rs)
  end.

(** [map[id]] changes nothing but the entries that are 0. *)
Lemma map_at_ok k c js l :
  shape c js l -> exists c', map_at k c = (slot_of js l k, c') /\ shape c' js l
    /\ clast c' = clast c /\ pv c' 0 = pv c 0 /\ (room c -> room c').
Proof.
  intros [Hs Hf]. unfold map_at. cbv zeta. rewrite (sh_map _ _ _ Hs).
  eexists. split; [reflexivity|]. split_and!; try done.
  split; [|done]. destruct Hs. constructor; try done. intros k'. simpl.
  destruct (decide (k = k')) as [->|].
  - by rewrite lookup_insert_eq.
  - by rewrite lookup_insert_ne.
Qed.

Lemma ends_same m c c' js : clast c' = clast c -> pv c' 0 = pv c 0 -> ends m c js -> ends m c' js.
Proof. intros E1 E2. destruct m; simpl; by rewrite E1, ?E2. Qed.

(** What the id map answers: either no item has the id, or the slot it names splits
    the chain at the item. *)
Lemma map_at_cases m k c js l :
  shape c js l -> ends m c js ->
  exists c', shape c' js l /\ ends m c' js /\ (room c -> room c') /\
    ((map_at k c = (0, c') /\ k ∉ ids l)
     \/ exists i js1 js2 l1 l2 x, map_at k c = (i, c') /\ i <> 0
        /\ js = js1 ++ i :: js2 /\ l = l1 ++ x :: l2 /\ item_id x = k /\ length js1 = length l1
        /\ k ∉ ids l1 /\ k ∈ ids l).
Proof.
  intros Hs He. destruct (map_at_ok k c js l Hs) as (c' & E & Hs' & E1 & E2 & Hr).
  exists c'. split; [done|]. split; [by apply (ends_same m c)|]. split; [done|].
  pose proof (shape_length _ _ _ (proj1 Hs)) as El. destruct Hs as [Hs _].
  destruct (decide (slot_of js l k = 0)) as [E0|E0].
  - left. rewrite E0 in E. split; [done|]. apply (slot_of_0 js); [done| |done].
    pose proof (sh_nd _ _ _ Hs) as Hnd. by apply NoDup_cons in Hnd as [? _].
  - right. destruct (slot_of_Some js l k _ El eq_refl E0) as (js1 & js2 & l1 & l2 & x & Ej & Eq & Hx & Hl).
    exists (slot_of js l k), js1, js2, l1, l2, x. split_and!; try done.
    + pose proof (sh_ids _ _ _ Hs) as Hnd. subst l. rewrite fmap_app in Hnd. simpl in Hnd.
      apply NoDup_app in Hnd as (_ & Hd & _). subst k. intros Hin. apply (Hd _ Hin). set_solver.
    + subst. unfold ids. rewrite fmap_app. set_solver.
Qed.

(** *** One lemma for each operation *)

#[local] Arguments map_at : simpl never.
#[local] Arguments insert_thing : simpl never.
#[local] Arguments insert_thing_after : simpl never.
#[local] Arguments insert_thing_before : simpl never.
#[local] Arguments remove_thing_from_index : simpl never.
#[local] Arguments unlink_slot : simpl never.

Definition refines (m : mode) o c l : Prop :=
  exists c', run o c = Some (c', (spec o l).2) /\ rep m c' (spec o l).1.

Lemma insert_pos rc : (0 < rc)%Z -> negb (rc <? 0)%Z = true.
Proof. intros. by rewrite (proj2 (Z.ltb_ge _ _)) by lia. Qed.

Lemma remove_from_index_ok m c js1 js2 l1 l2 i x :
  shape c (js1 ++ i :: js2) (l1 ++ x :: l2) -> length js1 = length l1 ->
  ends m c (js1 ++ i :: js2) ->
  exists c', remove_thing_from_index i c = Some (c', PBSE_NONE) /\ rep m c' (l1 ++ l2)
    /\ room c'.
Proof.
  intros Hs El He. destruct (shape_at _ _ _ _ _ _ _ (proj1 Hs) El) as (Es & _).
  destruct (rep_unlink m c js1 js2 l1 l2 i x Hs El He) as (c' & E & Hr & Hroom).
  unfold remove_thing_from_index. rewrite Es. simpl. rewrite E. simpl. by eexists.
Qed.

Lemma refines_remove m k c l : rep m c l -> refines m (ORemove k) c l.
Proof.
  intros (js & Hs & He). unfold refines, run, c_remove. cbv zeta. cbn [spec fst snd].
  destruct (map_at_cases m k c js l Hs He) as (c1 & Hs1 & He1 & _ & [[E Hk]|Hk]).
  - rewrite E. simpl. rewrite l_remove_None, bool_decide_eq_false_2 by done. exists c1. split; [done|]. by exists js.
  - destruct Hk as (i & js1 & js2 & l1 & l2 & x & E & Hi & -> & -> & Ek & El & Hx & Hin). subst.
    rewrite E. cbn [mbind option_bind]. rewrite decide_False by done.
    destruct (remove_from_index_ok m c1 js1 js2 l1 l2 i x Hs1 El He1) as (c2 & -> & Hr & _).
    simpl. rewrite l_remove_at, bool_decide_eq_true_2 by done. by exists c2.
Qed.

Lemma refines_find m k c l : rep m c l -> refines m (OFind k) c l.
Proof.
  intros (js & Hs & He). unfold refines, run, c_find. cbv zeta. cbn [spec fst snd].
  destruct (map_at_cases m k c js l Hs He) as (c1 & Hs1 & He1 & _ & [[E Hk]|Hk]).
  - rewrite E. simpl. rewrite (proj2 (l_find_None k l)) by done. exists c1. split; [done|]. by exists js.
  - destruct Hk as (i & js1 & js2 & l1 & l2 & x & E & Hi & -> & -> & Ek & El & Hx & _). subst.
    rewrite E. cbn [mbind option_bind]. rewrite decide_False by done.
    destruct (shape_at _ _ _ _ _ _ _ (proj1 Hs1) El) as (-> & _). simpl. rewrite l_find_at by done.
    exists c1. split; [done|]. by eexists.
Qed.

Lemma refines_insert_after m loc it k c l :
  rep m c l -> room c -> k ∉ ids l -> refines m (OInsertAfter loc it k) c l.
Proof.
  intros (js & Hs & He) Hroom Hnew. unfold refines, run, c_insert_after. cbv zeta. cbn [spec fst snd].
  destruct (map_at_cases m loc c js l Hs He) as (c1 & Hs1 & He1 & Hr1 & [[E Hk]|Hk]).
  - rewrite E, (decide_False (P := loc ∈ ids l)) by done. simpl. exists c1. split; [done|]. by exists js.
  - destruct Hk as (i & js1 & js2 & l1 & l2 & x & E & Hi & -> & -> & Ek & El & Hx & Hin). subst.
    rewrite E. cbn [mbind option_bind]. rewrite decide_False, decide_True by done.
    destruct (rep_insert_after m c1 js1 js2 l1 l2 i (Item k it) x) as (c2 & rc & -> & Hrc & Hr); auto.
    simpl. rewrite insert_pos, l_insert_after_at by done. by exists c2.
Qed.

Lemma refines_insert_before m loc it k c l :
  rep m c l -> room c -> k ∉ ids l -> refines m (OInsertBefore loc it k) c l.
Proof.
  intros (js & Hs & He) Hroom Hnew. unfold refines, run, c_insert_before. cbv zeta. cbn [spec fst snd].
  destruct (map_at_cases m loc c js l Hs He) as (c1 & Hs1 & He1 & Hr1 & [[E Hk]|Hk]).
  - rewrite E, (decide_False (P := loc ∈ ids l)) by done. simpl. exists c1. split; [done|]. by exists js.
  - destruct Hk as (i & js1 & js2 & l1 & l2 & x & E & Hi & -> & -> & Ek & El & Hx & Hin). subst.
    rewrite E. cbn [mbind option_bind]. rewrite decide_False, decide_True by done.
    destruct (rep_insert_before m c1 js1 (i :: js2) l1 (x :: l2) (Item k it))
      as (c2 & rc & E2 & Hrc & Hr); auto. simpl in E2. rewrite E2.
    simpl. rewrite l_insert_before_at by done. 
    rewrite (proj2 (Z.eqb_neq rc PBSE_NONE)) by (unfold PBSE_NONE; lia). by exists c2.
Qed.

Lemma refines_insert it k replace c l :
  rep Append c l -> room c -> refines Append (OInsert it k replace) c l.
Proof.
  intros (js & Hs & He) Hroom. unfold refines, run, c_insert. cbv zeta. cbn [spec fst snd].
  destruct (map_at_cases Append k c js l Hs He) as (c1 & Hs1 & He1 & Hr1 & [[E Hk]|Hk]).
  - rewrite E, (decide_False (P := k ∈ ids l)) by done. cbn [mbind option_bind].
    destruct (rep_insert c1 l (Item k it)) as (c2 & rc & -> & Hrc & Hr); [by exists js|auto|done|].
    simpl. rewrite insert_pos by done. by exists c2.
  - destruct Hk as (i & js1 & js2 & l1 & l2 & x & E & Hi & -> & -> & Ek & El & Hx & Hin). subst.
    rewrite E. cbn [mbind option_bind]. rewrite decide_False, decide_True by done.
    destruct replace; [|simpl; exists c1; split; [done|by eexists]].
    destruct (remove_from_index_ok Append c1 js1 js2 l1 l2 i x Hs1 El He1) as (c2 & E2 & Hr & Hr2).
    rewrite E2. cbn [mbind option_bind].
    assert (item_id x ∉ ids (l1 ++ l2)).
    { pose proof (sh_ids _ _ _ (proj1 Hs)) as Hnd. rewrite fmap_app in Hnd. simpl in Hnd.
      rewrite <- Permutation_middle in Hnd. apply NoDup_cons in Hnd as [Hnd _].
      unfold ids. by rewrite fmap_app. }
    destruct (rep_insert c2 (l1 ++ l2) (Item (item_id x) it)) as (c3 & rc & -> & Hrc & Hr3); [done..|].
    simpl. rewrite insert_pos, l_remove_at by done. by exists c3.
Qed.

Lemma shape_head c js l : shape0 c js l -> exists p, slots c !! 0 = Some (Slot None (hd 0 js) p) /\ pv c 0 = p.
Proof.
  intros Hs. pose proof (sh_len _ _ _ Hs). pose proof (sh_pos _ _ _ Hs).
  destruct (lookup_lt_is_Some_2 (slots c) 0) as [s Es]; [lia|].
  assert (it_at c 0 = None) as Hi.
  { apply (sh_free _ _ _ Hs). pose proof (sh_nd _ _ _ Hs) as Hnd. by apply NoDup_cons in Hnd as [? _]. }
  assert (nx c 0 = hd 0 js) as Hn.
  { pose proof (sh_walk _ _ _ Hs) as Hw. pose proof (sh_end _ _ _ Hs) as He.
    destruct js; simpl in *; tauto. }
  unfold it_at, nx, pv in *. rewrite Es in *. destruct s; simpl in *; subst. eauto.
Qed.

(** One step of the iterator, from any place of the chain *)
Lemma next_thing_ok c js1 js2 l1 l2 :
  shape0 c (js1 ++ js2) (l1 ++ l2) -> length js1 = length l1 ->
  next_thing (Z.of_nat (hd 0 js2)) c
  = Some (head l2, Z.of_nat (match js2 with [] => hd 0 js1 | _ => hd 0 (tail js2) end)).
Proof.
  intros Hs El. pose proof (shape_length _ _ _ Hs) as El2. rewrite !length_app in El2.
  unfold next_thing. rewrite (proj2 (Z.eqb_neq _ _)) by lia. simpl. rewrite Nat2Z.id.
  destruct js2 as [|b js2], l2 as [|x l2]; simpl in *; try lia.
  - rewrite !app_nil_r in Hs. destruct (shape_head _ _ _ Hs) as (p & -> & _). done.
  - destruct (shape_at _ _ _ _ _ _ _ Hs El) as (-> & _). done.
Qed.

(** The walk of [insert_at] *)
Lemma walk_to_ok c js1 js2 l1 l2 n :
  shape0 c (js1 ++ js2) (l1 ++ l2) -> length js1 = length l1 ->
  walk_to n (Z.of_nat (hd 0 js2)) c
  = Some (if decide (n <= length js2)%nat then Some (Z.of_nat (hd 0 (drop n js2))) else None).
Proof.
  revert js1 js2 l1 l2. induction n as [|n IH]; intros js1 js2 l1 l2 Hs El; [done|].
  cbn [walk_to]. rewrite (next_thing_ok c js1 js2 l1 l2 Hs El).
  pose proof (shape_length _ _ _ Hs) as El2. rewrite !length_app in El2.
  destruct js2 as [|b js2], l2 as [|x l2]; simpl in *; try lia; [done|].
  rewrite (IH (js1 ++ [b]) js2 (l1 ++ [x]) l2).
  - repeat case_decide; done || lia.
  - by rewrite <- !app_assoc.
  - rewrite !length_app. simpl. lia.
Qed.

Lemma refines_insert_at m index it k c l :
  rep m c l -> room c -> k ∉ ids l -> (m = Append -> index <> length l) ->
  refines m (OInsertAt index it k) c l.
Proof.
  intros (js & Hs & He) Hroom Hnew Hm. unfold refines, run, c_insert_at. cbv zeta. cbn [spec fst snd].
  pose proof (shape_length _ _ _ (proj1 Hs)) as El.
  unfold initialize_ra_iterator, ALWAYS_EMPTY_INDEX. destruct (shape_head _ _ _ (proj1 Hs)) as (p & -> & _).
  cbn [mbind option_bind s_next].
  rewrite (walk_to_ok c [] js [] l index (proj1 Hs) eq_refl). cbn [mbind option_bind].
  rewrite El. case_decide as Hi; [|exists c; split; [done|by exists js]].
  rewrite Nat2Z.id. rewrite <- (take_drop index js) in Hs, He. rewrite <- (take_drop index l) in Hs, Hnew.
  destruct (rep_insert_before m c (take index js) (drop index js) (take index l) (drop index l) (Item k it))
    as (c2 & rc & -> & Hrc & Hr); try done.
  - rewrite !length_take. lia.
  - intros HA E. specialize (Hm HA). apply (f_equal length) in E. rewrite length_drop in E. simpl in E. lia.
  - simpl. rewrite insert_pos by done. by exists c2.
Qed.

Lemma refines_insert_first m it k c l :
  rep m c l -> room c -> k ∉ ids l -> (m = Append -> l <> []) -> refines m (OInsertFirst it k) c l.
Proof.
  intros Hr Hroom Hk Hm. apply (refines_insert_at m 0 it k c l); try done.
  intros HA E. specialize (Hm HA). by destruct l.
Qed.

Lemma pop_index_ok m c js1 js2 l1 l2 i x :
  shape c (js1 ++ i :: js2) (l1 ++ x :: l2) -> length js1 = length l1 -> ends m c (js1 ++ i :: js2) ->
  exists c', pop_index i c = Some (c', Some (item_ptr x)) /\ rep m c' (l1 ++ l2).
Proof.
  intros Hs El He. unfold pop_index. rewrite decide_False.
  - destruct (shape_at _ _ _ _ _ _ _ (proj1 Hs) El) as (-> & _). cbn [mbind option_bind pItem].
    destruct (rep_unlink m c js1 js2 l1 l2 i x Hs El He) as (c' & -> & Hr & _). cbn [mbind option_bind].
    by eexists.
  - intros ->. pose proof (sh_nd _ _ _ (proj1 Hs)) as Hnd. apply NoDup_cons in Hnd as [H0 _].
    unfold ALWAYS_EMPTY_INDEX in *. set_solver.
Qed.

Lemma refines_pop m c l : rep m c l -> refines m OPop c l.
Proof.
  intros (js & Hs & He). unfold refines, run, c_pop, pop_thing, ALWAYS_EMPTY_INDEX. cbv zeta. cbn [spec fst snd].
  destruct (shape_head _ _ _ (proj1 Hs)) as (p & -> & _). cbn [mbind option_bind s_next].
  pose proof (shape_length _ _ _ (proj1 Hs)) as El.
  destruct js as [|i js], l as [|x l]; simpl in *; try lia.
  - exists c. split; [done|by exists []].
  - destruct (pop_index_ok m c [] js [] l i x Hs eq_refl He) as (c' & -> & Hr). by exists c'.
Qed.

Lemma tail_of_snoc a js i : tail_of a (js ++ [i]) = i.
Proof. by rewrite tail_of_app. Qed.

Lemma refines_pop_back c l : rep Rank c l -> refines Rank OPopBack c l.
Proof.
  intros (js & Hs & He). unfold refines, run, c_pop_back, pop_back_thing, ALWAYS_EMPTY_INDEX. cbv zeta. cbn [spec fst snd].
  destruct (shape_head _ _ _ (proj1 Hs)) as (p & -> & <-). cbn [mbind option_bind s_prev].
  pose proof (shape_length _ _ _ (proj1 Hs)) as El. pose proof He as [_ ->].
  destruct js as [|i js _] using rev_ind; destruct l as [|x l _] using rev_ind;
    rewrite ?length_app in El; simpl in *; try lia.
  - exists c. split; [done|by exists []].
  - rewrite tail_of_snoc. destruct (pop_index_ok Rank c js [] l [] i x Hs ltac:(lia) He) as (c' & -> & Hr).
    exists c'. rewrite last_snoc, length_app. simpl. rewrite Nat.add_1_r. simpl.
    rewrite take_app_length. rewrite app_nil_r in Hr. done.
Qed.

(** *** Exchanging two items *)

(** The effect of [l_swap] on the ids *)
Definition swap_id (k1 k2 k : cstr) : cstr :=
  if decide (k = k1) then k2 else if decide (k = k2) then k1 else k.

Lemma swap_id_invol k1 k2 k : swap_id k1 k2 (swap_id k1 k2 k) = k.
Proof. unfold swap_id. repeat case_decide; congruence. Qed.

Lemma l_swap_ids (x y : item T) l : ids (l_swap x y l) = swap_id (item_id x) (item_id y) <$> ids l.
Proof.
  unfold ids, l_swap. rewrite <- !list_fmap_compose. apply list_fmap_ext. intros _ z _. simpl.
  unfold swap_id. by repeat case_decide.
Qed.

Lemma slot_of_swap (x y : item T) js l k :
  slot_of js (l_swap x y l) k = slot_of js l (swap_id (item_id x) (item_id y) k).
Proof.
  revert l. induction js as [|j js IH]; intros [|z l]; try done. simpl. fold (l_swap x y l). rewrite IH.
  unfold swap_id. repeat case_decide; simpl in *; congruence.
Qed.

Lemma slot_of_lookup js l p j (z : item T) :
  length js = length l -> NoDup (ids l) -> js !! p = Some j -> l !! p = Some z ->
  slot_of js l (item_id z) = j.
Proof.
  revert l p. induction js as [|j' js IH]; intros [|z' l] [|p]; try done; simpl; intros [= E] Hnd Hj Hz;
    simplify_eq; [by rewrite decide_True|].
  apply NoDup_cons in Hnd as [Hz' Hnd]. rewrite decide_False; [by eapply IH|].
  intros Ei. apply Hz'. rewrite Ei. apply list_elem_of_fmap. exists z. split; [done|].
  by eapply list_elem_of_lookup_2.
Qed.

Lemma slot_of_elem js l k : slot_of js l k = 0 \/ slot_of js l k ∈ js.
Proof.
  revert l. induction js as [|j js IH]; intros [|z l]; simpl; auto. case_decide; [set_solver|].
  destruct (IH l); set_solver.
Qed.

Lemma slot_of_inj js l k k' :
  NoDup (0 :: js) -> slot_of js l k = slot_of js l k' -> slot_of js l k <> 0 -> k = k'.
Proof.
  intros Hnd. revert l. induction js as [|j js IH]; intros [|z l]; simpl; try done.
  apply NoDup_cons in Hnd as [H0 [Hj Hnd]%NoDup_cons].
  pose proof (slot_of_elem js l k). pose proof (slot_of_elem js l k').
  repeat case_decide; subst; try done; intros E Hn.
  - exfalso. rewrite <- E in *. set_solver.
  - exfalso. rewrite E in *. set_solver.
  - apply (IH ltac:(apply NoDup_cons; set_solver) l); done.
Qed.

Lemma swap_shape c c' js l x y i1 i2 :
  shape c js l -> slot_of js l (item_id x) = i1 -> slot_of js l (item_id y) = i2 ->
  i1 ∈ js -> i2 ∈ js -> i1 <> i2 ->
  stored c c' (nx c) (pv c) (at_fn i2 (Some x) (at_fn i1 (Some y) (it_at c)))
    (<[item_id y := i1]> (<[item_id x := i2]> (cmap c))) (clast c) ->
  shape c' js (l_swap x y l).
Proof.
  intros [Hs Hf] E1 E2 H1 H2 Hne Hst. pose proof (shape_length _ _ _ Hs) as El. destruct (Hs). destruct Hst.
  assert (forall k k', slot_of js l k = slot_of js l k' -> slot_of js l k ∈ js -> k = k') as Hinj.
  { intros k k' Ek Hk. apply (slot_of_inj js l); [done..|]. intros E0. rewrite E0 in Hk.
    by apply NoDup_cons in sh_nd as [? _]. }
  split; [constructor; try congruence|congruence].
  - intros i Hi. rewrite st_max. by apply sh_lt.
  - apply (walk_frame (nx c) (pv c)); [done|intros; apply st_nx|intros; apply st_pv|done].
  - apply list_eq. intros p. unfold l_swap. rewrite !list_lookup_fmap.
    pose proof (f_equal (lookup p) sh_items) as Ep. rewrite !list_lookup_fmap in Ep.
    destruct (js !! p) as [j|] eqn:Ej, (l !! p) as [z|] eqn:Ez; simplify_eq/=; [|done].
    rewrite st_it. f_equal. pose proof (slot_of_lookup js l p j z El sh_ids Ej Ez) as Hj.
    unfold at_fn. repeat case_decide; subst; try congruence.
    all: exfalso; naive_solver.
  - intros j Hj. rewrite st_it, !at_fn_ne by set_solver. by apply sh_free.
  - rewrite st_ns. done.
  - change (NoDup (ids (l_swap x y l))). rewrite l_swap_ids. apply NoDup_fmap_2; [|done].
    intros k k' E. by rewrite <- (swap_id_invol (item_id x) (item_id y) k), E, swap_id_invol.
  - intros k. rewrite st_map, slot_of_swap. unfold swap_id.
    assert (item_id x <> item_id y) by congruence.
    repeat case_decide; subst; rewrite ?lookup_insert_eq; try done.
    + by rewrite lookup_insert_ne, lookup_insert_eq.
    + by rewrite !lookup_insert_ne.
Qed.

Lemma l_find_Some k l (x : item T) : l_find k l = Some x -> item_id x = k /\ k ∈ ids l.
Proof. induction l as [|z l IH]; simpl; [done|]. case_decide; [set_solver|]. set_solver. Qed.

Lemma shape_find c js l k x :
  shape0 c js l -> l_find k l = Some x ->
  exists i, slot_of js l k = i /\ i ∈ js /\ i <> 0 /\ item_id x = k
    /\ exists s, slots c !! i = Some s /\ pItem s = Some x.
Proof.
  intros Hs Hx. pose proof (shape_length _ _ _ Hs) as El. apply l_find_Some in Hx as Hk.
  assert (slot_of js l k <> 0) as Hn.
  { intros E. apply (slot_of_0 js) in E; [tauto|done|]. pose proof (sh_nd _ _ _ Hs) as Hnd.
    by apply NoDup_cons in Hnd as [? _]. }
  destruct (slot_of_Some js l k _ El eq_refl Hn) as (js1 & js2 & l1 & l2 & z & Ej & Eq & Hz & Hl).
  remember (slot_of js l k) as i eqn:Ei. exists i. split; [done|]. split; [rewrite Ej; set_solver|].
  split; [done|]. split; [tauto|].
  rewrite Ej, Eq in Hs. destruct (shape_at _ _ _ _ _ _ _ Hs Hl) as (-> & _).
  eexists. split; [done|]. simpl. f_equal. pose proof (sh_ids _ _ _ Hs) as Hnd.
  rewrite fmap_app in Hnd. simpl in Hnd. apply NoDup_app in Hnd as (_ & Hd & _).
  rewrite Eq in Hx. subst k. rewrite l_find_at in Hx; [by simplify_eq|]. intros Hin. apply (Hd _ Hin). set_solver.
Qed.

Lemma refines_swap m k1 k2 c l : rep m c l -> refines m (OSwap k1 k2) c l.
Proof.
  intros (js & Hs & He). unfold refines, run, c_swap. cbv zeta. cbn [spec].
  destruct (map_at_ok k1 c js l Hs) as (c1 & -> & Hs1 & E1 & E2 & _).
  destruct (map_at_ok k2 c1 js l Hs1) as (c2 & -> & Hs2 & E3 & E4 & _).
  assert (ends m c2 js) as He2 by (apply (ends_same m c); [congruence..|done]).
  assert (NoDup (0 :: js)) as Hnd by apply Hs. apply NoDup_cons in Hnd as Hnd'.
  pose proof (shape_length _ _ _ (proj1 Hs)) as El.
  destruct (l_find k1 l) as [x|] eqn:Ex.
  2: { apply l_find_None in Ex. rewrite (slot_of_None js l k1) by done. simpl.
       exists c2. split; [done|by exists js]. }
  destruct (l_find k2 l) as [y|] eqn:Ey.
  2: { apply l_find_None in Ey. rewrite (slot_of_None js l k2) by done.
       rewrite decide_True by auto. exists c2. split; [done|by exists js]. }
  destruct (shape_find _ _ _ _ _ (proj1 Hs2) Ex) as (i1 & Ei1 & Hi1 & Hn1 & Hk1 & s1 & Es1 & Ep1).
  destruct (shape_find _ _ _ _ _ (proj1 Hs2) Ey) as (i2 & Ei2 & Hi2 & Hn2 & Hk2 & s2 & Es2 & Ep2).
  rewrite Ei1, Ei2. unfold ALWAYS_EMPTY_INDEX. destruct (decide (k1 = k2)) as [Ek|Ek].
  { rewrite decide_True by (right; right; congruence). exists c2. split; [done|by exists js]. }
  assert (i1 <> i2) as Hne.
  { intros Ei. apply Ek. apply (slot_of_inj js l); [done|congruence|congruence]. }
  rewrite decide_False by tauto. rewrite Es1. cbn [mbind option_bind].
  rewrite Es2. cbn [mbind option_bind]. rewrite Ep1, Ep2.
  pose proof (stored_refl c2) as Hst.
  assert (forall j, j ∈ js -> (j < length (slots c2))%nat) as Hlt.
  { intros j Hj. rewrite (sh_len _ _ _ (proj1 Hs2)). by apply Hs2. }
  subst k1 k2.
  destruct (set_item_stored i1 (Some y) _ _ _ _ _ _ _ Hst (Hlt _ Hi1)) as (c3 & -> & Hst3).
  cbn [mbind option_bind].
  destruct (set_item_stored i2 (Some x) _ _ _ _ _ _ _ Hst3 (Hlt _ Hi2)) as (c4 & -> & Hst4).
  cbn [mbind option_bind].
  pose proof (with_map_stored _ _ _ _ _ _ _ (<[item_id y := i1]> (<[item_id x := i2]> (cmap c4))) Hst4)
    as Hst5.
  rewrite (st_map _ _ _ _ _ _ _ Hst4) in Hst5 |- *.
  eexists. split; [reflexivity|]. exists js. split; [by eapply swap_shape|].
  eapply ends_same; [..|exact He2]; [apply (st_last _ _ _ _ _ _ _ Hst5)|apply (st_pv _ _ _ _ _ _ _ Hst5)].
Qed.

(** *** Clearing *)

Lemma clear_slots_fst ss m : (clear_slots ss m).1 = replicate (length ss) (Slot (T := T) None 0 0).
Proof.
  revert m. induction ss as [|s ss IH]; intros m; simpl; [done|].
  specialize (IH (match pItem s with Some x => delete (item_id x) m | None => m end)).
  destruct (clear_slots ss _) as [ss' m']. simpl in *. by rewrite IH.
Qed.

Lemma clear_slots_snd (ss : list (slot T)) m k :
  (clear_slots ss m).2 !! k = m !! k \/ (clear_slots ss m).2 !! k = None.
Proof.
  revert m. induction ss as [|s ss IH]; intros m; simpl; [auto|].
  specialize (IH (match pItem s with Some x => delete (item_id x) m | None => m end)).
  destruct (clear_slots ss _) as [ss' m']. simpl in *. destruct (pItem s) as [x|]; [|done].
  rewrite lookup_delete in IH. case_decide; tauto.
Qed.

Lemma clear_slots_gone (ss : list (slot T)) m s x :
  s ∈ ss -> pItem s = Some x -> (clear_slots ss m).2 !! item_id x = None.
Proof.
  intros Hs Hx. revert m. induction ss as [|s' ss IH]; intros m; simpl; [set_solver|].
  set (m0 := match pItem s' with Some x => delete (item_id x) m | None => m end).
  apply elem_of_cons in Hs as [<-|Hs].
  - pose proof (clear_slots_snd ss m0 (item_id x)) as Hk. subst m0. rewrite Hx in *.
    rewrite lookup_delete_eq in Hk. destruct (clear_slots ss _); simpl in *; tauto.
  - specialize (IH Hs m0). by destruct (clear_slots ss m0).
Qed.

Lemma refines_clear m c l : rep m c l -> refines m OClear c l.
Proof.
  intros (js & [Hs Hf] & He). unfold refines. cbn [run spec fst snd]. eexists. split; [reflexivity|].
  exists []. unfold c_clear.
  pose proof (clear_slots_fst (slots c) (cmap c)) as E1.
  pose proof (clear_slots_snd (slots c) (cmap c)) as E2.
  pose proof (clear_slots_gone (slots c) (cmap c)) as E3.
  destruct (clear_slots (slots c) (cmap c)) as [ss mm]. simpl in *. subst ss.
  assert (forall j, nx (Container (replicate (length (slots c)) (Slot (T := T) None 0 0)) (cmax c) 0 1 0 mm) j = 0
    /\ pv (Container (replicate (length (slots c)) (Slot (T := T) None 0 0)) (cmax c) 0 1 0 mm) j = 0
    /\ it_at (Container (replicate (length (slots c)) (Slot (T := T) None 0 0)) (cmax c) 0 1 0 mm) j = None) as Hv.
  { intros j. unfold nx, pv, it_at. simpl. destruct (replicate _ _ !! j) as [s|] eqn:Es; [|done].
    by apply lookup_replicate_1 in Es as [-> _]. }
  destruct (Hs). split; [split; [constructor; simpl; rewrite ?length_replicate; try done; try lia; try apply Hv|set_solver]|].
  - apply NoDup_singleton.
  - set_solver.
  - intros. apply Hv.
  - constructor.
  - intros k. destruct (decide (k ∈ ids l)) as [Hk|Hk].
    + destruct (l_find k l) as [x|] eqn:Ex; [|by apply l_find_None in Ex].
      destruct (shape_find _ _ _ _ _ Hs Ex) as (i & _ & _ & _ & <- & s & Es & Ep).
      rewrite (E3 s x); [done|by eapply list_elem_of_lookup_2|done].
    + destruct (E2 k) as [->| ->]; [|done]. rewrite sh_map. by apply slot_of_None.
  - destruct m; simpl; [done|]. split; [done|apply Hv].
Qed.

(** *** Every operation, every sequence of operations *)

Lemma refines_op m o c l : rep m c l -> fits m o l -> room c -> refines m o c l.
Proof.
  intros Hr Hf Hroom. destruct o; simpl in Hf; destruct_and?.
  - subst m. by apply refines_insert.
  - by apply refines_insert_after.
  - by apply refines_insert_before.
  - by apply refines_insert_at.
  - by apply refines_insert_first.
  - by apply refines_remove.
  - by apply refines_find.
  - by apply refines_pop.
  - subst m. by apply refines_pop_back.
  - by apply refines_swap.
  - by apply refines_clear.
Qed.

(** With up to 2^28 items the array stays within an [int] and within what the
    allocator grants. *)
Lemma room_small `{!AllocOk} m c l : rep m c l -> (Z.of_nat (length l) <= 268435456)%Z -> room c.
Proof.
  intros (js & [Hs _] & _) Hl Hm. rewrite <- (shape_length _ _ _ Hs), <- (sh_num _ _ _ Hs) in Hl.
  unfold INT_MAX, sizeof_slot. split; [lia|]. apply alloc_ok. unfold ALLOC_MAX. lia.
Qed.

Lemma new_container_rep m : rep m (new_container (T := T)) [].
Proof.
  assert (forall j, nx (new_container (T := T)) j = 0 /\ pv (new_container (T := T)) j = 0
    /\ it_at (new_container (T := T)) j = None) as Hv.
  { intros j. do 10 (destruct j as [|j]; [done|]). done. }
  exists []. split; [split; [constructor; simpl; try done; try lia; try apply Hv|set_solver]|].
  - apply NoDup_singleton.
  - set_solver.
  - intros. apply Hv.
  - constructor.
  - by destruct m.
Qed.

Lemma run_all_refines `{!AllocOk} m os c l :
  rep m c l -> fits_all m os l -> (Z.of_nat (length l + length os) <= 268435456)%Z ->
  exists c', run_all os c = Some (c', (spec_all os l).2) /\ rep m c' (spec_all os l).1.
Proof.
  revert c l. induction os as [|o os IH]; intros c l Hr Hf Hl; simpl; [by eexists|].
  destruct Hf as [Hf Hfs]. simpl in Hl.
  destruct (refines_op m o c l Hr Hf) as (c1 & -> & Hr1); [eapply room_small; [done|lia]|].
  pose proof (spec_length o l). destruct (spec o l) as [l1 r]. simpl in *.
  destruct (IH c1 l1 Hr1 Hfs) as (c2 & -> & Hr2); [lia|]. simpl.
  destruct (spec_all os l1) as [l2 rs]. by eexists.
Qed.

(** ** Iteration *)

(** [while ((p = iter->get_next_item()) != NULL)]; [None] when the loop has not ended
    after [fuel] rounds. *)
Fixpoint drain (fuel : nat) (ii : item_iterator) c : option (list T) :=
  match fuel with
  | O => None
  | S fuel =>
    '(p, ii) ← get_next_item false ii c;
    match p with None => Some [] | Some p => cons p <$> drain fuel ii c end
  end.

Definition iterate (fuel : nat) (reverse : bool) c : option (list T) :=
  ii ← get_iterator false reverse c;
  match ii with Some ii => drain fuel ii c | None => Some [] end.

Lemma drain_forward c js1 js2 l1 l2 fuel :
  shape0 c (js1 ++ js2) (l1 ++ l2) -> length js1 = length l1 -> (length l2 < fuel)%nat ->
  drain fuel (Iterator (Z.of_nat (hd 0 js2)) false false) c = Some (item_ptr <$> l2).
Proof.
  revert js1 js2 l1 l2. induction fuel as [|fuel IH]; intros js1 js2 l1 l2 Hs El Hf; [lia|].
  pose proof (shape_length _ _ _ Hs) as El2. rewrite !length_app in El2.
  cbn [drain]. unfold get_next_item. cbn [endHit iter reversed].
  destruct js2 as [|b js2], l2 as [|x l2]; simpl in El2; try lia; [done|].
  pose proof (sh_nd _ _ _ Hs) as Hnd. destruct (nodup_mid _ _ _ Hnd) as (_ & _ & H3).
  destruct (H3 b) as (_ & Hb & _); [set_solver|].
  rewrite (proj2 (Z.eqb_neq _ _)) by (unfold ALWAYS_EMPTY_INDEX; simpl; lia).
  rewrite (next_thing_ok c js1 (b :: js2) l1 (x :: l2) Hs El). simpl.
  rewrite (IH (js1 ++ [b]) js2 (l1 ++ [x]) l2); [done|by rewrite <- !app_assoc| |simpl in Hf; lia].
  rewrite !length_app. simpl. lia.
Qed.

Lemma drain_back c js1 js2 l1 l2 fuel :
  shape0 c (js1 ++ js2) (l1 ++ l2) -> length js1 = length l1 -> (length l1 < fuel)%nat ->
  drain fuel (Iterator (Z.of_nat (tail_of 0 js1)) false true) c = Some (item_ptr <$> reverse l1).
Proof.
  revert js1 js2 l1 l2. induction fuel as [|fuel IH]; intros js1 js2 l1 l2 Hs El Hf; [lia|].
  cbn [drain]. unfold get_next_item. cbn [endHit iter reversed].
  destruct js1 as [|i js1 _] using rev_ind; destruct l1 as [|x l1 _] using rev_ind;
    rewrite ?length_app in *; simpl in *; try lia; [done|].
  rewrite tail_of_snoc. rewrite <- !app_assoc in Hs. simpl in Hs.
  pose proof (sh_nd _ _ _ Hs) as Hnd. destruct (nodup_mid _ _ _ Hnd) as (_ & _ & H3).
  destruct (H3 i) as (_ & Hi & _); [set_solver|].
  rewrite (proj2 (Z.eqb_neq _ _)) by (unfold ALWAYS_EMPTY_INDEX; simpl; lia).
  unfold next_thing_from_back. rewrite (proj2 (Z.eqb_neq _ _)) by lia. rewrite Nat2Z.id.
  destruct (shape_at c js1 js2 l1 l2 i x Hs) as (-> & _); [lia|]. simpl.
  rewrite (IH js1 (i :: js2) l1 (x :: l2)); [|done|lia|lia]. by rewrite reverse_snoc.
Qed.

Lemma iterate_ok m rev c l :
  rep m c l -> (rev = true -> m = Rank) ->
  iterate (S (length l)) rev c = Some (item_ptr <$> (if rev then reverse l else l)).
Proof.
  intros (js & [Hs _] & He) Hm. unfold iterate, get_iterator, initialize_ra_iterator, ALWAYS_EMPTY_INDEX.
  destruct (shape_head _ _ _ Hs) as (p & -> & <-). pose proof (shape_length _ _ _ Hs) as El.
  cbn [mbind option_bind s_next s_prev]. destruct rev.
  - specialize (Hm eq_refl). subst m. destruct He as [_ ->].
    apply (drain_back c js [] l []); rewrite ?app_nil_r; auto.
  - apply (drain_forward c [] js [] l); [done|done|lia].
Qed.

End Refinement.

(** ** The contract *)



(** ** Outside the modes *)

Section Mixed.
#[local] Existing Instance generous.

(** [insert_first] into an empty container leaves [last] at 0, so that the next
    [insert] starts a new chain: the first item can be found, but no iteration visits
    it. *)
Example insert_first_then_insert_loses :
  exists c, run_all [OInsertFirst 1%nat [1%Z]; OInsert 2%nat [2%Z] false] new_container
      = Some (c, [RBool true; RBool true])
    /\ c_count false c = 2%nat /\ iterate 20 false c = Some [2%nat] /\ iterate 20 true c = Some [2%nat]
    /\ snd <$> run (OFind [1%Z]) c = Some (RPtr (Some 1%nat)).
Proof. eexists. split; [vm_compute; reflexivity|]. repeat split; vm_compute; reflexivity. Qed.

(** [unlink_slot] moves [last] back when the last item goes, but not [slots[0].prev]:
    backward iteration starts at the freed slot and ends at once, and [pop_back] reads
    through its null item. *)
Example remove_last_hides_rest :
  exists c, run_all [OInsert 1%nat [1%Z] false; OInsert 2%nat [2%Z] false; ORemove [2%Z]] new_container
      = Some (c, [RBool true; RBool true; RBool true])
    /\ iterate 20 false c = Some [1%nat] /\ iterate 20 true c = Some [] /\ run OPopBack c = None.
Proof. eexists. split; [vm_compute; reflexivity|]. repeat split; vm_compute; reflexivity. Qed.

(** After [insert], [remove] and [insert_first] the only slot points to itself: the
    forward iteration misses the item and the backward one never ends. *)
Example insert_first_into_emptied_loops :
  exists c, run_all [OInsert 1%nat [1%Z] false; ORemove [1%Z]; OInsertFirst 2%nat [2%Z]] new_container
      = Some (c, [RBool true; RBool true; RBool true])
    /\ iterate 20 false c = Some [] /\ forall fuel, iterate fuel true c = None.
Proof.
  eexists. split; [vm_compute; reflexivity|]. split; [vm_compute; reflexivity|].
  intros fuel. unfold iterate. cbn [get_iterator initialize_ra_iterator mbind option_bind slots lookup
    list_lookup s_prev ALWAYS_EMPTY_INDEX].
  induction fuel as [|fuel IH]; [done|]. cbn [drain]. unfold get_next_item. simpl. simpl in IH. by rewrite IH.
Qed.

(** [insert_before] puts the item in and reports a failure. *)
Example insert_before_reports_failure :
  exists c, run_all [OInsert 1%nat [1%Z] false; OInsertBefore [1%Z] 2%nat [2%Z]] new_container
      = Some (c, [RBool true; RBool false])
    /\ iterate 20 false c = Some [2%nat; 1%nat].
Proof. eexists. split; [vm_compute; reflexivity|]. vm_compute; reflexivity. Qed.

End Mixed.
