(* ===== verification/JobNames.v ===== *)
(** * Names of jobs, owners and array requests

    The string work the server's job tables rest on: [get_correct_jobname] and the
    first half of [svr_find_job] (src/src/server/job_container.c), which turn what a
    client wrote into the key of the tables; [remove_server_suffix]
    (src/src/server/user_info.c); [num_array_jobs] (src/src/server/array_func.c) with the
    tokenizer of src/src/lib/Libutils/u_mu.c. *)
From Stdlib Require Import ZArith Lia.
From stdpp Require Import base gmap option list.
From S2P Require Import Prelude CLib Container.

Local Open Scope Z_scope.

Definition c_at : Z := 64.
Definition dot : Z := 46.
Definition dash : Z := 45.
Definition comma : Z := 44.
Definition PBS_MAXSVRJOBID : Z := 1046.

(** [strchr(s, c)]: what precedes the first [c] and what follows it. *)
Fixpoint split_at (c : Z) (s : cstr) : option (cstr * cstr) :=
  match s with
  | [] => None
  | x :: s => if x =? c then Some ([], s) else '(a, b) ← split_at c s; Some (x :: a, b)
  end.

(** [s] up to the first [c] *)
Definition before (c : Z) (s : cstr) : cstr :=
  match split_at c s with Some (a, _) => a | None => s end.

(** [strstr(s, t) != NULL] *)
Fixpoint has_substring (t s : cstr) : bool :=
  bool_decide (take (length t) s = t) || match s with [] => false | _ :: s => has_substring t s end.

(** ** user_info.c *)

Definition remove_server_suffix (user_name : cstr) : cstr := before c_at user_name.

(** ** Identifiers *)

(** The server attributes that decide how an id is written: the first is unset or has
    a value, the alias is unset, set to a null string or to a string. *)
Record id_config := {
  display_job_server_suffix : option bool;
  job_suffix_alias : option (option cstr);
  server_name : cstr
}.

(** [correct] comes in with the caller's string: one path leaves it alone. *)
Definition get_correct_jobname (cf : id_config) (jobid correct : cstr) : cstr :=
  let server_suffix := default true (display_job_server_suffix cf) in
  let first_suffix := snd <$> split_at dot jobid in
  let second_suffix := first_suffix ≫= fun s => snd <$> split_at dot s in
  let alias := default None (job_suffix_alias cf) in
  match alias, server_suffix with
  | Some alias, true =>
    match second_suffix, first_suffix with
    | Some second, _ => if str_eq second alias then jobid else correct
    | None, None => jobid ++ [dot] ++ server_name cf ++ [dot] ++ alias
    | None, Some _ => jobid ++ [dot] ++ alias
    end
  | None, true =>
    match first_suffix with
    | Some _ => jobid
    | None => jobid ++ [dot] ++ server_name cf
    end
  | Some alias, false => before dot jobid ++ [dot] ++ alias
  | None, false => before dot jobid
  end.

Record search := { sr_key : cstr; sr_array : bool; sr_external : bool }.

(** The first half of [svr_find_job]: the key looked for, whether the id names an
    array ("[]") and whether it named the external sub-job ("N-0.server"). *)
Definition find_key (cf : id_config) (jobid : cstr) (get_subjob : bool) : search :=
  let work_jobid := before c_at (take (Z.to_nat PBS_MAXSVRJOBID) jobid) in
  let '(jid_ptr, dashed) :=
    match get_subjob, split_at dash work_jobid with
    | true, Some (a, b) =>
      if negb (bool_decide (dot ∈ a)) && bool_decide (dot ∈ b)
      then (take (Z.to_nat PBS_MAXSVRJOBID) (a ++ drop 1 b), true) else (work_jobid, false)
    | _, _ => (work_jobid, false)
    end in
  let configured :=
    match display_job_server_suffix cf, job_suffix_alias cf with None, None => false | _, _ => true end in
  {| sr_key := if configured then get_correct_jobname cf jid_ptr [] else jid_ptr;
     sr_array := has_substring [91; 93] jid_ptr;
     sr_external := dashed |}.

(** ** Array requests *)

(** [threadsafe_tokenizer(&str, delims)]: the token and the new [str] *)
Fixpoint token (delims s : cstr) : cstr * cstr :=
  match s with
  | [] => ([], [])
  | c :: s' => if bool_decide (c ∈ delims) then ([], s')
               else let '(t, rest) := token delims s' in (c :: t, rest)
  end.
Definition threadsafe_tokenizer (delims s : cstr) : option (cstr * cstr) :=
  match s with [] => None | _ => Some (token delims s) end.

(** The loop of [num_array_jobs]; [fuel] bounds the number of tokens. *)
Fixpoint array_loop (fuel : nat) (s : cstr) (num_jobs : Z) : option Z :=
  match fuel with
  | O => None
  | S fuel =>
    match threadsafe_tokenizer [comma] s with
    | None => Some num_jobs
    | Some (ptr, rest) =>
      match split_at dash ptr with
      | Some (_, after) =>
        let start := atoi ptr in
        let last := atoi after in
        if last <? start then Some (-1)
        else d ← int_result (last - start); d ← int_result (d + 1); n ← int_result (num_jobs + d);
             array_loop fuel rest n
      | None => n ← int_result (num_jobs + 1); array_loop fuel rest n
      end
    end
  end.

Definition num_array_jobs (maxpathlen : nat) (req_str : option cstr) : option Z :=
  match req_str with
  | None => Some (-1)
  | Some s => let tmp_str := take (pred maxpathlen) s in array_loop (S (length tmp_str)) tmp_str 0
  end.

(** ** Facts about them *)

Lemma split_at_app c s t : c ∉ s -> split_at c (s ++ c :: t) = Some (s, t).
Proof.
  induction s as [|x s IH]; simpl; intros Hc; [by rewrite Z.eqb_refl|].
  destruct (Z.eqb_spec x c); [set_solver|]. by rewrite IH by set_solver.
Qed.

Lemma split_at_None c s : c ∉ s -> split_at c s = None.
Proof.
  induction s as [|x s IH]; simpl; intros Hc; [done|].
  destruct (Z.eqb_spec x c); [set_solver|]. by rewrite IH by set_solver.
Qed.

Lemma before_app c s t : c ∉ s -> before c (s ++ c :: t) = s.
Proof. intros. unfold before. by rewrite split_at_app. Qed.

Lemma before_id c s : c ∉ s -> before c s = s.
Proof. intros. unfold before. by rewrite split_at_None. Qed.

(** The one way an id is written under a configuration. *)
Definition canonical_id (cf : id_config) (seq : cstr) : cstr :=
  let alias := default None (job_suffix_alias cf) in
  seq ++ (if default true (display_job_server_suffix cf) then dot :: server_name cf else [])
      ++ (match alias with Some a => dot :: a | None => [] end).

(** The ways a client may write it. *)
Inductive written (cf : id_config) (seq : cstr) : cstr -> Prop :=
| w_short : written cf seq seq
| w_server : written cf seq (seq ++ dot :: server_name cf)
| w_alias a : default None (job_suffix_alias cf) = Some a ->
    written cf seq (seq ++ dot :: server_name cf ++ dot :: a).

(** Where both the server and an alias are shown, the server's name must be one label. *)
Definition plain_names (cf : id_config) : Prop :=
  default None (job_suffix_alias cf) = None \/ default true (display_job_server_suffix cf) = false
  \/ dot ∉ server_name cf.

Lemma get_correct_jobname_canonical cf seq s correct :
  dot ∉ seq -> plain_names cf -> written cf seq s -> get_correct_jobname cf s correct = canonical_id cf seq.
Proof.
  intros Hs Hn Hw. unfold get_correct_jobname, canonical_id, plain_names in *.
  assert (before dot s = seq) as Hb by (destruct Hw; [by apply before_id|by apply before_app..]).
  rewrite Hb. destruct (default None (job_suffix_alias cf)) as [al|] eqn:Hal, (default true (display_job_server_suffix cf)).
  - destruct Hn as [?|[?|Hn]]; [done|done|]. destruct Hw as [| |a Ha].
    + rewrite (split_at_None dot seq) by done. done.
    + rewrite split_at_app by done. simpl. rewrite (split_at_None dot (server_name cf)) by done. simpl.
      by rewrite <- app_assoc.
    + rewrite split_at_app by done. simpl. rewrite split_at_app by done. simpl. rewrite Hal in Ha.
      injection Ha as ->. unfold str_eq. by rewrite bool_decide_eq_true_2.
  - done.
  - rewrite app_nil_r. destruct Hw as [| |a Ha]; [by rewrite split_at_None|by rewrite split_at_app|by rewrite Hal in Ha].
  - by rewrite !app_nil_r.
Qed.

Definition configured (cf : id_config) : bool :=
  match display_job_server_suffix cf, job_suffix_alias cf with None, None => false | _, _ => true end.

Lemma written_dash cf seq s a b :
  dash ∉ seq -> written cf seq s -> split_at dash s = Some (a, b) -> dot ∈ a.
Proof.
  intros Hd Hw. assert (exists t, s = seq \/ s = seq ++ dot :: t) as [t [->| ->]].
  { destruct Hw; [exists []; by left|eexists; by right..]. }
  - by rewrite split_at_None.
  - assert (forall t, split_at dash (seq ++ dot :: t) = '(a, b) ← split_at dash t; Some (seq ++ dot :: a, b)) as ->.
    { clear -Hd. intros t. induction seq as [|x seq IH]; simpl; [done|].
      destruct (Z.eqb_spec x dash); [set_solver|]. rewrite IH by set_solver. by destruct (split_at dash t) as [[]|]. }
    destruct (split_at dash t) as [[a' b']|]; simpl; intros; simplify_eq. set_solver.
Qed.

(** C27: whichever way a client writes the id of a job (the number, the number and the
    server, with the alias if there is one, with "@host" behind), [svr_find_job] looks for
    the one form the configuration prescribes when it prescribes one, that is when one of
    the attributes [display_job_server_suffix] and [job_suffix_alias] is set; with neither
    set it looks for the id as written, up to the "@".  The number has neither dot nor
    dash, the id fits its buffer, and a server that shows its name and an alias has a name
    without dots. *)
Theorem find_key_canonical cf seq s host sub :
  dot ∉ seq -> dash ∉ seq -> plain_names cf -> written cf seq s ->
  c_at ∉ s -> zlen s <= PBS_MAXSVRJOBID -> host = [] \/ (exists h, host = c_at :: h) ->
  find_key cf (s ++ host) sub
  = {| sr_key := if configured cf then canonical_id cf seq else s;
       sr_array := has_substring [91; 93] s; sr_external := false |}.
Proof.
  intros Hs Hd Hn Hw Ha Hl Hh. unfold find_key.
  assert (before c_at (take (Z.to_nat PBS_MAXSVRJOBID) (s ++ host)) = s) as ->.
  { unfold zlen in Hl. rewrite take_app_ge by lia. destruct Hh as [->|[h ->]].
    - by rewrite take_nil, app_nil_r, before_id.
    - destruct (Z.to_nat PBS_MAXSVRJOBID - length s)%nat; simpl; [by rewrite app_nil_r, before_id|].
      by apply before_app. }
  assert (match sub, split_at dash s with
    | true, Some (a, b) =>
      if negb (bool_decide (dot ∈ a)) && bool_decide (dot ∈ b)
      then (take (Z.to_nat PBS_MAXSVRJOBID) (a ++ drop 1 b), true) else (s, false)
    | _, _ => (s, false) end = (s, false)) as ->.
  { destruct sub; [|done]. destruct (split_at dash s) as [[a b]|] eqn:E; [|done].
    by rewrite bool_decide_eq_true_2 by by eapply written_dash. }
  unfold configured. destruct (display_job_server_suffix cf) eqn:E1, (job_suffix_alias cf) eqn:E2;
    try done; f_equal; by apply get_correct_jobname_canonical.
Qed.

(** "12.head" and "12.head@login" under a server that shows its name, and an alias. *)
Lemma find_key_canonical_witness :
  let cf := {| display_job_server_suffix := Some true; job_suffix_alias := Some (Some [97]);
               server_name := [104; 100] |} in
  written cf [49; 50] [49; 50; 46; 104; 100]
  /\ find_key cf [49; 50; 46; 104; 100; 64; 108] true
     = {| sr_key := [49; 50; 46; 104; 100; 46; 97]; sr_array := false; sr_external := false |}.
Proof.
  intros cf. split; [exact (w_server cf [49; 50])|].
  apply (find_key_canonical cf [49; 50] [49; 50; 46; 104; 100] [64; 108] true).
  1,2: by apply (bool_decide_unpack _). 3: by apply (bool_decide_unpack _).
  - right. right. by apply (bool_decide_unpack _).
  - exact (w_server cf [49; 50]).
  - done.
  - right. by exists [108].
Defined.

(** A server named by a domain name that has an alias: the second suffix is the
    domain, not the alias, and the key comes out empty, so that no job is found. *)
Example qualified_server_with_alias :
  let cf := {| display_job_server_suffix := Some true; job_suffix_alias := Some (Some [97]);
               server_name := [104; 46; 111] |} in
  sr_key (find_key cf (canonical_id cf [49; 50]) true) = []
  /\ sr_key (find_key cf [49; 50; 46; 104; 46; 111] true) = [].
Proof. split; reflexivity. Qed.

(** The external sub-job of a heterogeneous job is asked for by "N-0.server"; the key
    is that of its parent. *)
Example external_subjob_key :
  find_key {| display_job_server_suffix := None; job_suffix_alias := None; server_name := [104] |}
    [49; 50; 45; 48; 46; 104] true
  = {| sr_key := [49; 50; 46; 104]; sr_array := false; sr_external := true |}.
Proof. reflexivity. Qed.

(** ** Counting an array request *)

(** An index or a range of an array request, how [qsub -t] writes it, and how many
    jobs it asks for. *)
Inductive piece := One (a : Z) | Range (a b : Z).

Definition piece_ok (p : piece) : Prop :=
  match p with One a => 0 <= a <= INT_MAX | Range a b => 0 <= a <= b /\ b <= INT_MAX end.
Definition print_piece (p : piece) : cstr :=
  match p with One a => print_u a | Range a b => print_u a ++ dash :: print_u b end.
Definition piece_jobs (p : piece) : Z := match p with One _ => 1 | Range a b => b - a + 1 end.

Fixpoint print_request (ps : list piece) : cstr :=
  match ps with
  | [] => []
  | [p] => print_piece p
  | p :: ps => print_piece p ++ comma :: print_request ps
  end.
Definition request_jobs (ps : list piece) : Z := foldr (fun p n => piece_jobs p + n) 0 ps.

Lemma print_u_is_digits a : 0 <= a <= INT_MAX -> digits (print_u a) /\ print_u a <> [] /\ dval 0 (print_u a) = a.
Proof. intros. apply canonical_digits, print_u_canonical. unfold INT_MAX, ULONG_MAX in *. lia. Qed.

Lemma digits_not_in c s : is_digit c = false -> digits s -> c ∉ s.
Proof.
  intros Hc Hs Hin. apply list_elem_of_lookup in Hin as [i Hi].
  eapply (Forall_lookup_1 _ _ _ _ Hs) in Hi. simpl in Hi. congruence.
Qed.

Lemma atoi_print_u a rest : 0 <= a <= INT_MAX -> stops rest -> atoi (print_u a ++ rest) = a.
Proof.
  intros Ha Hr. destruct (print_u_is_digits a Ha) as (Hd & Hn & Hv). unfold atoi, atol.
  rewrite strtol_digits by done. simpl. rewrite Hv. unfold INT_MAX in *.
  rewrite clamp_long_id by (unfold LONG_MIN, LONG_MAX; lia). apply i32_small. lia.
Qed.

Lemma print_piece_no_comma p : piece_ok p -> comma ∉ print_piece p.
Proof.
  assert (forall a, 0 <= a <= INT_MAX -> comma ∉ print_u a) as Hd.
  { intros a Ha. apply digits_not_in; [done|]. by apply print_u_is_digits. }
  destruct p as [a|a b]; simpl; intros Hp; [by apply Hd|].
  rewrite not_elem_of_app, not_elem_of_cons. split; [apply Hd; lia|]. split; [done|apply Hd; lia].
Qed.

Lemma print_piece_nonempty p : piece_ok p -> print_piece p <> [].
Proof.
  destruct p as [a|a b]; simpl; intros Hp.
  - by apply print_u_is_digits.
  - intros []%app_eq_nil. done.
Qed.

Lemma token_app s rest : comma ∉ s -> token [comma] (s ++ comma :: rest) = (s, rest).
Proof.
  induction s as [|c s IH]; simpl; intros Hc; [done|].
  rewrite bool_decide_eq_false_2 by set_solver. by rewrite IH by set_solver.
Qed.
Lemma token_all s : comma ∉ s -> token [comma] s = (s, []).
Proof.
  induction s as [|c s IH]; simpl; intros Hc; [done|].
  rewrite bool_decide_eq_false_2 by set_solver. by rewrite IH by set_solver.
Qed.

Lemma tokenizer_app s rest :
  s <> [] -> comma ∉ s -> threadsafe_tokenizer [comma] (s ++ comma :: rest) = Some (s, rest).
Proof. intros Hn Hc. rewrite <- (token_app s rest) by done. by destruct s. Qed.
Lemma tokenizer_all s : s <> [] -> comma ∉ s -> threadsafe_tokenizer [comma] s = Some (s, []).
Proof. intros Hn Hc. rewrite <- (token_all s) by done. by destruct s. Qed.

(** One round of the loop *)
Lemma array_loop_piece fuel s p rest n :
  threadsafe_tokenizer [comma] s = Some (print_piece p, rest) ->
  piece_ok p -> 0 <= n -> n + piece_jobs p <= INT_MAX ->
  array_loop (S fuel) s n = array_loop fuel rest (n + piece_jobs p).
Proof.
  intros Ht Hp Hn Hm. cbn [array_loop]. rewrite Ht. destruct p as [a|a b]; simpl in Hp, Hm |- *.
  - destruct (print_u_is_digits a Hp) as (Hd & _). rewrite split_at_None by (by apply digits_not_in).
    rewrite int_result_ok by (unfold INT_MIN; lia). done.
  - destruct (print_u_is_digits a) as (Hd & _); [lia|].
    rewrite split_at_app by (by apply digits_not_in).
    rewrite atoi_print_u by (done || lia). pose proof (atoi_print_u b [] ltac:(lia) I) as Hb.
    rewrite app_nil_r in Hb. rewrite Hb. rewrite (proj2 (Z.ltb_ge _ _)) by lia.
    rewrite (int_result_ok (b - a)) by (unfold INT_MIN; lia). simpl.
    rewrite (int_result_ok (b - a + 1)) by (unfold INT_MIN; lia). simpl.
    rewrite int_result_ok by (unfold INT_MIN; lia). done.
Qed.

Lemma piece_jobs_pos p : piece_ok p -> 1 <= piece_jobs p.
Proof. destruct p; simpl; lia. Qed.
Lemma request_jobs_nonneg ps : Forall piece_ok ps -> 0 <= request_jobs ps.
Proof. induction 1 as [|p ps Hp _ IH]; simpl; [lia|]. pose proof (piece_jobs_pos p Hp). lia. Qed.

Lemma array_loop_request ps fuel n :
  Forall piece_ok ps -> (length ps < fuel)%nat -> 0 <= n -> n + request_jobs ps <= INT_MAX ->
  array_loop fuel (print_request ps) n = Some (n + request_jobs ps).
Proof.
  intros Hps. revert fuel n. induction Hps as [|p ps Hp Hps IH]; intros fuel n Hf Hn Hm.
  - destruct fuel; [simpl in Hf; lia|]. simpl. f_equal. lia.
  - destruct fuel as [|fuel]; [simpl in Hf; lia|]. simpl in Hf, Hm.
    pose proof (request_jobs_nonneg ps Hps). pose proof (piece_jobs_pos p Hp).
    rewrite (array_loop_piece fuel _ p (print_request ps)); [|..|done|done|lia].
    + rewrite IH by lia. f_equal. simpl. lia.
    + pose proof (print_piece_nonempty p Hp). pose proof (print_piece_no_comma p Hp).
      destruct ps as [|p' ps]; [by apply tokenizer_all|by apply tokenizer_app].
Qed.

Lemma print_request_length ps : Forall piece_ok ps -> (length ps <= length (print_request ps))%nat.
Proof.
  induction 1 as [|p ps Hp _ IH]; simpl; [done|]. pose proof (print_piece_nonempty p Hp).
  destruct (print_piece p) eqn:E; [done|]. destruct ps; simpl in *; [lia|].
  rewrite length_app. simpl in *. lia.
Qed.

(** [num_array_jobs] counts the jobs of a request: the sizes of its ranges, each
    index once, when the request fits the function's buffer and the total an [int]. *)
Theorem num_array_jobs_counts maxpathlen ps :
  Forall piece_ok ps -> request_jobs ps <= INT_MAX -> (length (print_request ps) < maxpathlen)%nat ->
  num_array_jobs maxpathlen (Some (print_request ps)) = Some (request_jobs ps).
Proof.
  intros Hps Hj Hl. unfold num_array_jobs. rewrite take_ge by lia.
  rewrite (array_loop_request ps) by (done || lia || (pose proof (print_request_length ps Hps); lia)).
  done.
Qed.

(** "0-9,20,30-31" *)
Lemma num_array_jobs_counts_witness :
  num_array_jobs 1024 (Some [48; 45; 57; 44; 50; 48; 44; 51; 48; 45; 51; 49]) = Some 13.
Proof.
  apply (num_array_jobs_counts 1024 [Range 0 9; One 20; Range 30 31]).
  - repeat constructor; unfold INT_MAX; lia.
  - unfold INT_MAX. simpl. lia.
  - vm_compute. lia.
Defined.

(** A leading dash is read as a range: "-5" asks for eleven jobs. *)
Example leading_dash_is_a_range : num_array_jobs 1024 (Some [45; 53]) = Some 11.
Proof. reflexivity. Qed.
