(* ===== verification/JobData.v ===== *)
(** * Jobs and queues of the server: the data

    The part of the server's state that src/src/server/svr_jobfunc.c,
    job_container.c and user_info.c work on: the job and queue structures
    (src/src/include/pbs_job.h, queue.h, server.h), the tables that hold them, and the
    counters kept beside the tables.

    A [job *] is a key of [w_jobs], a [pbs_queue *] the queue's name; a table is the
    list of items that ContainerSpec.v shows an [item_container] implements, under the
    operations it is used with ([alljobs], [array_summary]: mode [Append]; the lists of
    a queue: mode [Rank]).  A [user_info_holder] only grows and is read by name: it is a
    map from the user to [num_jobs_queued].

    Where the code gives up the lock of the job it works on, other threads may run.  A
    computation carries a schedule: each such point takes one entry, which is what the
    other threads do there, if anything.  Calls that leave the modelled part (node
    allocation, the job files, accounting, resources, timed tasks) are recorded in
    [w_calls] in the order they are made. *)
From Stdlib Require Import ZArith Lia.
From stdpp Require Import base gmap option list.
From S2P Require Import Prelude CLib Attrs AttrVal AttrStr Container ContainerSpec JobNames.

Local Open Scope Z_scope.

(** ** Constants *)

Definition JOB_STATE_TRANSIT : Z := 0.
Definition JOB_STATE_QUEUED : Z := 1.
Definition JOB_STATE_HELD : Z := 2.
Definition JOB_STATE_WAITING : Z := 3.
Definition JOB_STATE_RUNNING : Z := 4.
Definition JOB_STATE_EXITING : Z := 5.
Definition JOB_STATE_COMPLETE : Z := 6.
Definition PBS_NUMJOBSTATE : nat := 7.

Definition JOB_SUBSTATE_TRANSICM : Z := 1.
Definition JOB_SUBSTATE_QUEUED : Z := 10.
Definition JOB_SUBSTATE_PRESTAGEIN : Z := 11.
Definition JOB_SUBSTATE_STAGECMP : Z := 16.
Definition JOB_SUBSTATE_HELD : Z := 20.
Definition JOB_SUBSTATE_SYNCHOLD : Z := 21.
Definition JOB_SUBSTATE_DEPNHOLD : Z := 22.
Definition JOB_SUBSTATE_WAITING : Z := 30.
Definition JOB_SUBSTATE_ABORT : Z := 55.
Definition JOB_SUBSTATE_COMPLETE : Z := 59.
Definition JOB_SUBSTATE_RERUN : Z := 60.
Definition JOB_SUBSTATE_RERUN1 : Z := 61.
Definition JOB_SUBSTATE_RERUN2 : Z := 62.
Definition JOB_SUBSTATE_RERUN3 : Z := 63.

Definition JOB_SVFLG_HASWAIT : Z := 0x2.
Definition JOB_SVFLG_CHECKPOINT_FILE : Z := 0x10.
Definition JOB_SVFLG_Suspend : Z := 0x200.
Definition JOB_SVFLG_StagedIn : Z := 0x400.
Definition JOB_SVFLG_HasNodes : Z := 0x1000.

Definition COUNTED_GLOBALLY : Z := 0x1.
Definition COUNTED_IN_QUEUE : Z := 0x10.

Definition QTYPE_Execution : Z := 1.
Definition QTYPE_RoutePush : Z := 2.
Definition SCH_SCHEDULE_NEW : Z := 1.
Definition SCH_SCHEDULE_TERM : Z := 2.
Definition SAVEJOB_QUICK : Z := 0.
Definition SAVEJOB_FULL : Z := 1.

Definition PBSE_BADSTATE : Z := 15018.
Definition PBSE_UNKQUE : Z := 15020.
Definition PBSE_MAXQUED : Z := 15048.
Definition PBSE_BADDEPEND : Z := 15056.
Definition PBSE_MAXUSERQUED : Z := 15076.
Definition PBSE_JOBNOTFOUND : Z := 15086.
Definition PBSE_BAD_PARAMETER : Z := 15122.
Definition PBSE_JOB_RECYCLED : Z := 15126.
Definition PBSE_JOB_NOT_IN_QUEUE : Z := 15138.
Definition PBSE_BAD_JOB_STATE_TRANSITION : Z := 15157.
Definition PBSE_GHOSTQUEUE : Z := 15167.
Definition ALREADY_IN_LIST : Z := 9.

(** ** Structures *)

(** [job *] *)
Definition jptr : Type := nat.
Definition all_jobs : Type := list (item jptr).
Definition user_info_holder : Type := gmap cstr Z.

(** [ji_un]: what the last queue the job entered made of it *)
Inductive job_un :=
| UnNew
| UnExec (ji_momaddr ji_exitstat : Z)
| UnRoute (ji_quetime : Z).

(** A call out of the modelled part, by the id of the job *)
Inductive call :=
| CFreeNodes (id : cstr)
| CSave (id : cstr) (mode : Z)
| CAccountQueue (id queue : cstr)
| CRemoveProcct (id : cstr)
| CSetRescDeflt (id : cstr)
| CSetChkptDeflt (id queue : cstr)
| CFreeDefaultResources (id : cstr)
| CSetTask (at_time : Z) (id : cstr).

(** [struct jobfix], with the union as the variant in use *)
Record jobfix := JobFix {
  ji_jobid : cstr;
  ji_state : Z;
  ji_substate : Z;
  ji_svrflags : Z;
  ji_queue : cstr;
  ji_un : job_un
}.

(** The entries of [ji_wattr] the code below reads or writes *)
Record wattr := WAttr {
  a_job_owner : cstr;
  a_job_array_request : option cstr;
  a_exec_host : str_attribute;
  a_checkpoint : str_attribute;
  a_hold : Z;
  a_exectime : pbs_attribute;
  a_stagein_set : bool;
  a_depend_set : bool;
  a_etime : pbs_attribute;
  a_qtime : pbs_attribute;
  a_qrank : Z;
  a_state : Z;
  a_substate : Z;
  a_in_queue : str_attribute;
  a_queuetype : option Z
}.

Record job := Job {
  ji_qs : jobfix;
  ji_wattr : wattr;
  ji_qhdr : option cstr;
  ji_is_array_template : bool;
  ji_arraystructid : cstr;
  ji_parent_job : option jptr;
  ji_cray_clone : option jptr;
  ji_external_clone : option jptr;
  ji_being_recycled : bool;
  ji_queue_counted : Z;
  ji_modified : bool;
  ji_mod_time : Z
}.

Record pbs_queue := Queue {
  qu_name : cstr;
  qu_type : Z;
  qu_jobs : all_jobs;
  qu_jobs_array_sum : all_jobs;
  qu_numjobs : Z;
  qu_njstate : list Z;
  qu_uih : user_info_holder;
  qu_reserved_jobs : Z;
  q_being_recycled : bool;
  qa_max_jobs : option Z;
  qa_max_user_jobs : option Z;
  qa_ghost_queue : bool;
  qa_qtype : Z;
  qe_checkpoint_min : pbs_attribute
}.

Record world := World {
  w_jobs : gmap jptr job;
  alljobs : all_jobs;
  array_summary : all_jobs;
  w_queues : gmap cstr pbs_queue;
  svr_queues : list cstr;
  sv_numjobs : Z;
  sv_jobstates : list Z;
  users : user_info_holder;
  svr_do_schedule : Z;
  listener_command : Z;
  sv_ids : id_config;
  w_calls : list call
}.

(** Assignments to one member *)
Definition set_ji_state (v : Z) (q : jobfix) : jobfix :=
  JobFix (ji_jobid q) v (ji_substate q) (ji_svrflags q) (ji_queue q) (ji_un q).
Definition set_ji_substate (v : Z) (q : jobfix) : jobfix :=
  JobFix (ji_jobid q) (ji_state q) v (ji_svrflags q) (ji_queue q) (ji_un q).
Definition set_ji_svrflags (v : Z) (q : jobfix) : jobfix :=
  JobFix (ji_jobid q) (ji_state q) (ji_substate q) v (ji_queue q) (ji_un q).
Definition set_ji_un (v : job_un) (q : jobfix) : jobfix :=
  JobFix (ji_jobid q) (ji_state q) (ji_substate q) (ji_svrflags q) (ji_queue q) v.
Definition set_a_exec_host (v : str_attribute) (a : wattr) : wattr :=
  WAttr (a_job_owner a) (a_job_array_request a) v (a_checkpoint a) (a_hold a) (a_exectime a) (a_stagein_set a) (a_depend_set a) (a_etime a) (a_qtime a) (a_qrank a) (a_state a) (a_substate a) (a_in_queue a) (a_queuetype a).
Definition set_a_checkpoint (v : str_attribute) (a : wattr) : wattr :=
  WAttr (a_job_owner a) (a_job_array_request a) (a_exec_host a) v (a_hold a) (a_exectime a) (a_stagein_set a) (a_depend_set a) (a_etime a) (a_qtime a) (a_qrank a) (a_state a) (a_substate a) (a_in_queue a) (a_queuetype a).
Definition set_a_exectime (v : pbs_attribute) (a : wattr) : wattr :=
  WAttr (a_job_owner a) (a_job_array_request a) (a_exec_host a) (a_checkpoint a) (a_hold a) v (a_stagein_set a) (a_depend_set a) (a_etime a) (a_qtime a) (a_qrank a) (a_state a) (a_substate a) (a_in_queue a) (a_queuetype a).
Definition set_a_etime (v : pbs_attribute) (a : wattr) : wattr :=
  WAttr (a_job_owner a) (a_job_array_request a) (a_exec_host a) (a_checkpoint a) (a_hold a) (a_exectime a) (a_stagein_set a) (a_depend_set a) v (a_qtime a) (a_qrank a) (a_state a) (a_substate a) (a_in_queue a) (a_queuetype a).
Definition set_a_qtime (v : pbs_attribute) (a : wattr) : wattr :=
  WAttr (a_job_owner a) (a_job_array_request a) (a_exec_host a) (a_checkpoint a) (a_hold a) (a_exectime a) (a_stagein_set a) (a_depend_set a) (a_etime a) v (a_qrank a) (a_state a) (a_substate a) (a_in_queue a) (a_queuetype a).
Definition set_a_state (v : Z) (a : wattr) : wattr :=
  WAttr (a_job_owner a) (a_job_array_request a) (a_exec_host a) (a_checkpoint a) (a_hold a) (a_exectime a) (a_stagein_set a) (a_depend_set a) (a_etime a) (a_qtime a) (a_qrank a) v (a_substate a) (a_in_queue a) (a_queuetype a).
Definition set_a_substate (v : Z) (a : wattr) : wattr :=
  WAttr (a_job_owner a) (a_job_array_request a) (a_exec_host a) (a_checkpoint a) (a_hold a) (a_exectime a) (a_stagein_set a) (a_depend_set a) (a_etime a) (a_qtime a) (a_qrank a) (a_state a) v (a_in_queue a) (a_queuetype a).
Definition set_a_in_queue (v : str_attribute) (a : wattr) : wattr :=
  WAttr (a_job_owner a) (a_job_array_request a) (a_exec_host a) (a_checkpoint a) (a_hold a) (a_exectime a) (a_stagein_set a) (a_depend_set a) (a_etime a) (a_qtime a) (a_qrank a) (a_state a) (a_substate a) v (a_queuetype a).
Definition set_a_queuetype (v : option Z) (a : wattr) : wattr :=
  WAttr (a_job_owner a) (a_job_array_request a) (a_exec_host a) (a_checkpoint a) (a_hold a) (a_exectime a) (a_stagein_set a) (a_depend_set a) (a_etime a) (a_qtime a) (a_qrank a) (a_state a) (a_substate a) (a_in_queue a) v.
Definition set_ji_qs (v : jobfix) (j : job) : job :=
  Job v (ji_wattr j) (ji_qhdr j) (ji_is_array_template j) (ji_arraystructid j) (ji_parent_job j) (ji_cray_clone j) (ji_external_clone j) (ji_being_recycled j) (ji_queue_counted j) (ji_modified j) (ji_mod_time j).
Definition set_ji_wattr (v : wattr) (j : job) : job :=
  Job (ji_qs j) v (ji_qhdr j) (ji_is_array_template j) (ji_arraystructid j) (ji_parent_job j) (ji_cray_clone j) (ji_external_clone j) (ji_being_recycled j) (ji_queue_counted j) (ji_modified j) (ji_mod_time j).
Definition set_ji_qhdr (v : option cstr) (j : job) : job :=
  Job (ji_qs j) (ji_wattr j) v (ji_is_array_template j) (ji_arraystructid j) (ji_parent_job j) (ji_cray_clone j) (ji_external_clone j) (ji_being_recycled j) (ji_queue_counted j) (ji_modified j) (ji_mod_time j).
Definition set_ji_queue_counted (v : Z) (j : job) : job :=
  Job (ji_qs j) (ji_wattr j) (ji_qhdr j) (ji_is_array_template j) (ji_arraystructid j) (ji_parent_job j) (ji_cray_clone j) (ji_external_clone j) (ji_being_recycled j) v (ji_modified j) (ji_mod_time j).
Definition set_ji_modified (v : bool) (j : job) : job :=
  Job (ji_qs j) (ji_wattr j) (ji_qhdr j) (ji_is_array_template j) (ji_arraystructid j) (ji_parent_job j) (ji_cray_clone j) (ji_external_clone j) (ji_being_recycled j) (ji_queue_counted j) v (ji_mod_time j).
Definition set_ji_mod_time (v : Z) (j : job) : job :=
  Job (ji_qs j) (ji_wattr j) (ji_qhdr j) (ji_is_array_template j) (ji_arraystructid j) (ji_parent_job j) (ji_cray_clone j) (ji_external_clone j) (ji_being_recycled j) (ji_queue_counted j) (ji_modified j) v.
Definition set_qu_jobs (v : all_jobs) (q : pbs_queue) : pbs_queue :=
  Queue (qu_name q) (qu_type q) v (qu_jobs_array_sum q) (qu_numjobs q) (qu_njstate q) (qu_uih q) (qu_reserved_jobs q) (q_being_recycled q) (qa_max_jobs q) (qa_max_user_jobs q) (qa_ghost_queue q) (qa_qtype q) (qe_checkpoint_min q).
Definition set_qu_jobs_array_sum (v : all_jobs) (q : pbs_queue) : pbs_queue :=
  Queue (qu_name q) (qu_type q) (qu_jobs q) v (qu_numjobs q) (qu_njstate q) (qu_uih q) (qu_reserved_jobs q) (q_being_recycled q) (qa_max_jobs q) (qa_max_user_jobs q) (qa_ghost_queue q) (qa_qtype q) (qe_checkpoint_min q).
Definition set_qu_numjobs (v : Z) (q : pbs_queue) : pbs_queue :=
  Queue (qu_name q) (qu_type q) (qu_jobs q) (qu_jobs_array_sum q) v (qu_njstate q) (qu_uih q) (qu_reserved_jobs q) (q_being_recycled q) (qa_max_jobs q) (qa_max_user_jobs q) (qa_ghost_queue q) (qa_qtype q) (qe_checkpoint_min q).
Definition set_qu_njstate (v : list Z) (q : pbs_queue) : pbs_queue :=
  Queue (qu_name q) (qu_type q) (qu_jobs q) (qu_jobs_array_sum q) (qu_numjobs q) v (qu_uih q) (qu_reserved_jobs q) (q_being_recycled q) (qa_max_jobs q) (qa_max_user_jobs q) (qa_ghost_queue q) (qa_qtype q) (qe_checkpoint_min q).
Definition set_qu_uih (v : user_info_holder) (q : pbs_queue) : pbs_queue :=
  Queue (qu_name q) (qu_type q) (qu_jobs q) (qu_jobs_array_sum q) (qu_numjobs q) (qu_njstate q) v (qu_reserved_jobs q) (q_being_recycled q) (qa_max_jobs q) (qa_max_user_jobs q) (qa_ghost_queue q) (qa_qtype q) (qe_checkpoint_min q).
Definition set_qu_reserved_jobs (v : Z) (q : pbs_queue) : pbs_queue :=
  Queue (qu_name q) (qu_type q) (qu_jobs q) (qu_jobs_array_sum q) (qu_numjobs q) (qu_njstate q) (qu_uih q) v (q_being_recycled q) (qa_max_jobs q) (qa_max_user_jobs q) (qa_ghost_queue q) (qa_qtype q) (qe_checkpoint_min q).
Definition set_w_jobs (v : gmap jptr job) (w : world) : world :=
  World v (alljobs w) (array_summary w) (w_queues w) (svr_queues w) (sv_numjobs w) (sv_jobstates w) (users w) (svr_do_schedule w) (listener_command w) (sv_ids w) (w_calls w).
Definition set_alljobs (v : all_jobs) (w : world) : world :=
  World (w_jobs w) v (array_summary w) (w_queues w) (svr_queues w) (sv_numjobs w) (sv_jobstates w) (users w) (svr_do_schedule w) (listener_command w) (sv_ids w) (w_calls w).
Definition set_array_summary (v : all_jobs) (w : world) : world :=
  World (w_jobs w) (alljobs w) v (w_queues w) (svr_queues w) (sv_numjobs w) (sv_jobstates w) (users w) (svr_do_schedule w) (listener_command w) (sv_ids w) (w_calls w).
Definition set_w_queues (v : gmap cstr pbs_queue) (w : world) : world :=
  World (w_jobs w) (alljobs w) (array_summary w) v (svr_queues w) (sv_numjobs w) (sv_jobstates w) (users w) (svr_do_schedule w) (listener_command w) (sv_ids w) (w_calls w).
Definition set_sv_numjobs (v : Z) (w : world) : world :=
  World (w_jobs w) (alljobs w) (array_summary w) (w_queues w) (svr_queues w) v (sv_jobstates w) (users w) (svr_do_schedule w) (listener_command w) (sv_ids w) (w_calls w).
Definition set_sv_jobstates (v : list Z) (w : world) : world :=
  World (w_jobs w) (alljobs w) (array_summary w) (w_queues w) (svr_queues w) (sv_numjobs w) v (users w) (svr_do_schedule w) (listener_command w) (sv_ids w) (w_calls w).
Definition set_users (v : user_info_holder) (w : world) : world :=
  World (w_jobs w) (alljobs w) (array_summary w) (w_queues w) (svr_queues w) (sv_numjobs w) (sv_jobstates w) v (svr_do_schedule w) (listener_command w) (sv_ids w) (w_calls w).
Definition set_svr_do_schedule (v : Z) (w : world) : world :=
  World (w_jobs w) (alljobs w) (array_summary w) (w_queues w) (svr_queues w) (sv_numjobs w) (sv_jobstates w) (users w) v (listener_command w) (sv_ids w) (w_calls w).
Definition set_listener_command (v : Z) (w : world) : world :=
  World (w_jobs w) (alljobs w) (array_summary w) (w_queues w) (svr_queues w) (sv_numjobs w) (sv_jobstates w) (users w) (svr_do_schedule w) v (sv_ids w) (w_calls w).
Definition set_w_calls (v : list call) (w : world) : world :=
  World (w_jobs w) (alljobs w) (array_summary w) (w_queues w) (svr_queues w) (sv_numjobs w) (sv_jobstates w) (users w) (svr_do_schedule w) (listener_command w) (sv_ids w) v.

Definition st_of (j : job) : Z := ji_state (ji_qs j).
Definition sub_of (j : job) : Z := ji_substate (ji_qs j).
Definition id_of (j : job) : cstr := ji_jobid (ji_qs j).

Definition upd_qs (f : jobfix -> jobfix) (j : job) : job := set_ji_qs (f (ji_qs j)) j.
Definition upd_attr (f : wattr -> wattr) (j : job) : job := set_ji_wattr (f (ji_wattr j)) j.

(** [x & flag], [x & ~flag] *)
Definition has_flag (x flag : Z) : bool := negb (Z.land x flag =? 0).
Definition clear_flag (x flag : Z) : Z := Z.ldiff x flag.

(** ** Computations *)

Definition sched : Type := list (option (world -> world)).
Definition M : Type -> Type := ST (world * sched).

Definition gets {A} (f : world -> A) : M A := fun '(w, s) => Ret (f w) (w, s).
Definition modify (f : world -> world) : M unit := fun '(w, s) => Ret tt (f w, s).

(** [*p]; a pointer to no job is undefined behaviour. *)
Definition get_job (p : jptr) : M job := fun '(w, s) =>
  match w_jobs w !! p with Some j => Ret j (w, s) | None => UB end.
Definition upd_job (p : jptr) (f : job -> job) : M unit := fun '(w, s) =>
  match w_jobs w !! p with
  | Some j => Ret tt (set_w_jobs (<[p := f j]> (w_jobs w)) w, s)
  | None => UB
  end.
Definition get_queue (q : cstr) : M pbs_queue := fun '(w, s) =>
  match w_queues w !! q with Some x => Ret x (w, s) | None => UB end.
Definition upd_queue (q : cstr) (f : pbs_queue -> pbs_queue) : M unit := fun '(w, s) =>
  match w_queues w !! q with
  | Some x => Ret tt (set_w_queues (<[q := f x]> (w_queues w)) w, s)
  | None => UB
  end.
Definition emit (c : call) : M unit := modify (fun w => set_w_calls (w_calls w ++ [c]) w).

(** The locks are free for others: they run. *)
Definition window : M unit := fun '(w, s) =>
  match s with
  | Some f :: s => Ret tt (f w, s)
  | None :: s => Ret tt (w, s)
  | [] => Ret tt (w, [])
  end.

(** [trylock] on a mutex: [true] when it is taken at once.  Otherwise the caller unlocks
    the job, waits, and others run. *)
Definition trylock : M bool := fun '(w, s) =>
  match s with
  | Some f :: s => Ret false (f w, s)
  | None :: s => Ret true (w, s)
  | [] => Ret true (w, [])
  end.

(** [a[i] += d] on an array of counters *)
Definition bump (i d : Z) (a : list Z) : option (list Z) :=
  if bool_decide (0 <= i) then
    match a !! Z.to_nat i with
    | Some x => Some (<[Z.to_nat i := x + d]> a)
    | None => None
    end
  else None.

Local Open Scope st_scope.

Definition bump_jobstates (i d : Z) : M unit :=
  let* a := gets sv_jobstates in
  let* a := st_lift (bump i d a) in modify (set_sv_jobstates a).
Definition bump_njstate (q : cstr) (i d : Z) : M unit :=
  let* x := get_queue q in
  let* a := st_lift (bump i d (qu_njstate x)) in upd_queue q (set_qu_njstate a).

(** Both notices to the scheduler *)
Definition notify_scheduler (cmd : Z) : M unit :=
  modify (set_svr_do_schedule cmd) >>> modify (set_listener_command cmd).
