(* ===== verification/JobServer.v ===== *)
(** * Jobs and queues of the server: the operations

    src/src/server/user_info.c, the searches and insertions of job_container.c,
    [lock_queue_with_job_held] and [find_queuebyname] of queue_func.c, and of
    svr_jobfunc.c the changes of state, the entry into and the removal from a queue and
    the recount. *)
From Stdlib Require Import ZArith Lia.
From stdpp Require Import base gmap option list.
From S2P Require Import Prelude CLib Attrs AttrVal AttrStr Container ContainerSpec JobNames JobData.

Local Open Scope Z_scope.
Local Open Scope st_scope.

(** ** user_info.c *)

(** Which [user_info_holder] a call is given: [&users] or that of a queue *)
Inductive uih := Users | QueueUih (q : cstr).

Definition get_uih (u : uih) : M user_info_holder :=
  match u with Users => gets users | QueueUih q => let* x := get_queue q in st_ret (qu_uih x) end.
Definition put_uih (u : uih) (h : user_info_holder) : M unit :=
  match u with Users => modify (set_users h) | QueueUih q => upd_queue q (set_qu_uih h) end.
Definition uih_bit (u : uih) : Z :=
  match u with Users => COUNTED_GLOBALLY | QueueUih _ => COUNTED_IN_QUEUE end.

Definition get_num_queued (u : uih) (user_name : cstr) : M Z :=
  let* h := get_uih u in st_ret (u32 (default 0 (h !! user_name))).

Section Server.
Context `{Platform}.
(** [MAXPATHLEN]; [time(NULL)]; the results of [job_save]; the dependency code of
    req_register.c, which [svr_enquejob] calls for a job with dependencies. *)
Context (maxpathlen : nat) (time_now : Z) (job_save_rc : jptr -> Z -> Z) (depend_on_que : jptr -> M Z).

Definition count_jobs_submitted (j : job) : option Z :=
  match a_job_array_request (ji_wattr j) with
  | Some s => u32 <$> num_array_jobs maxpathlen (Some s)
  | None => Some 1
  end.

(** [max_queuable] is the server attribute, -1 when it is unset. *)
Definition can_queue_new_job (max_queuable : Z) (user_name : cstr) (p : jptr) : M bool :=
  let* j := get_job p in
  if 0 <=? max_queuable then
    let* num_to_add := st_lift (count_jobs_submitted j) in
    let* num_queued := get_num_queued Users (remove_server_suffix user_name) in
    st_ret (u32 (num_queued + num_to_add) <=? u32 max_queuable)
  else st_ret true.

Definition increment_queued_jobs (u : uih) (user_name : cstr) (p : jptr) : M Z :=
  let* j := get_job p in
  if st_of j =? JOB_STATE_COMPLETE then st_ret PBSE_NONE
  else if has_flag (ji_queue_counted j) (uih_bit u) then st_ret PBSE_NONE
  else
    let* num_submitted := st_lift (count_jobs_submitted j) in
    let uname := remove_server_suffix user_name in
    let* h := get_uih u in
    put_uih u (<[uname := match h !! uname with
                          | Some n => i32 (n + num_submitted)
                          | None => i32 num_submitted
                          end]> h) >>>
    upd_job p (fun j => set_ji_queue_counted (Z.lor (ji_queue_counted j) (uih_bit u)) j) >>>
    st_ret PBSE_NONE.

Definition decrement_queued_jobs (u : uih) (user_name : cstr) (p : jptr) : M Z :=
  let* j := get_job p in
  if negb (has_flag (ji_queue_counted j) (uih_bit u)) then st_ret PBSE_NONE
  else
    let uname := remove_server_suffix user_name in
    let* h := get_uih u in
    let* rc := match h !! uname with
               | Some n =>
                 (if n =? 0 then st_ret tt else put_uih u (<[uname := i32 (n - 1)]> h)) >>>
                 st_ret PBSE_NONE
               | None => st_ret THING_NOT_FOUND
               end in
    upd_job p (fun j => set_ji_queue_counted (clear_flag (ji_queue_counted j) (uih_bit u)) j) >>>
    st_ret rc.

(** ** job_container.c *)

(** The tables of jobs *)
Inductive table := AllJobs | ArraySummary | QuJobs (q : cstr) | QuArraySum (q : cstr).

Definition get_table (t : table) : M all_jobs :=
  match t with
  | AllJobs => gets alljobs
  | ArraySummary => gets array_summary
  | QuJobs q => let* x := get_queue q in st_ret (qu_jobs x)
  | QuArraySum q => let* x := get_queue q in st_ret (qu_jobs_array_sum x)
  end.
Definition put_table (t : table) (l : all_jobs) : M unit :=
  match t with
  | AllJobs => modify (set_alljobs l)
  | ArraySummary => modify (set_array_summary l)
  | QuJobs q => upd_queue q (set_qu_jobs l)
  | QuArraySum q => upd_queue q (set_qu_jobs_array_sum l)
  end.

(** [if (pjob == NULL) return(PBSE_BAD_PARAMETER)] *)
Definition non_null (pjob : option jptr) (k : jptr -> M Z) : M Z :=
  match pjob with Some p => k p | None => st_ret PBSE_BAD_PARAMETER end.

(** An operation of the container and its answer *)
Definition on_table (t : table) (o : op jptr) : M (res jptr) :=
  let* l := get_table t in let '(l', r) := spec o l in put_table t l' >>> st_ret r.

Definition find_job_by_array (t : table) (job_id : cstr) (get_subjob : bool) : M (option jptr) :=
  let* l := get_table t in
  match item_ptr <$> l_find job_id l with
  | None => st_ret None
  | Some pj =>
    let* j := get_job pj in
    let pj := match get_subjob, ji_cray_clone j with true, Some c => c | _, _ => pj end in
    let* j := get_job pj in
    if ji_being_recycled j then st_ret None else st_ret (Some pj)
  end.

Definition svr_find_job (jobid : cstr) (get_subjob : bool) : M (option jptr) :=
  let* cf := gets sv_ids in
  let k := find_key cf jobid get_subjob in
  let sub := if sr_external k then false else get_subjob in
  let* pj := if sr_array k then st_ret None else find_job_by_array AllJobs (sr_key k) sub in
  let* pj := match pj with
             | Some pj => st_ret (Some pj)
             | None => find_job_by_array ArraySummary (sr_key k) sub
             end in
  match pj with
  | None => st_ret None
  | Some pj =>
    if get_subjob && sr_external k then
      let* j := get_job pj in
      match ji_external_clone j with
      | Some c => let* jc := get_job c in
                  if ji_being_recycled jc then st_ret None else st_ret (Some c)
      | None => st_ret None
      end
    else st_ret (Some pj)
  end.

Definition insert_job (t : table) (pjob : option jptr) : M Z := non_null pjob (fun p =>
  let* j := get_job p in
  let* r := on_table t (OInsert p (id_of j) false) in
  match r with RBool true => st_ret PBSE_NONE | _ => st_ret ENOMEM end).

Definition insert_job_after (t : table) (already_in pjob : option jptr) : M Z :=
  non_null already_in (fun already_in => non_null pjob (fun p =>
  let* a := get_job already_in in
  let* j := get_job p in
  let* l := get_table t in
  match l_find (id_of a) l with
  | None => st_ret THING_NOT_FOUND
  | Some _ =>
    if str_eq (id_of a) (id_of j) then st_ret PBSE_NONE
    else
      let* r := on_table t (OInsertAfter (id_of a) p (id_of j)) in
      match r with RBool true => st_ret PBSE_NONE | _ => st_ret ENOMEM end
  end)).

(** The overload of [insert_job_after] that is given the id *)
Definition insert_job_after_id (t : table) (after_id : cstr) (pjob : option jptr) : M Z :=
  non_null pjob (fun p =>
  let* j := get_job p in
  let* l := get_table t in
  let* r := on_table t (match l_find after_id l with
                        | Some _ => OInsertAfter after_id p (id_of j)
                        | None => OInsert p (id_of j) false
                        end) in
  match r with RBool true => st_ret PBSE_NONE | _ => st_ret ENOMEM end).

Definition insert_job_first (t : table) (pjob : option jptr) : M Z := non_null pjob (fun p =>
  let* j := get_job p in
  let* r := on_table t (OInsertFirst p (id_of j)) in
  match r with RBool true => st_ret PBSE_NONE | _ => st_ret ENOMEM end).

(** [TRUE] and [FALSE] are 1 and 0. *)
Definition has_job (t : table) (pjob : option jptr) : M Z := non_null pjob (fun p =>
  let* got := trylock in
  let* j := get_job p in
  if negb got && ji_being_recycled j then st_ret PBSE_JOB_RECYCLED
  else
    let* l := get_table t in
    st_ret (match l_find (id_of j) l with Some _ => 1 | None => 0 end)).

Definition remove_job (t : table) (pjob : option jptr) (force_lock : bool) : M Z := non_null pjob (fun p =>
  let* j0 := get_job p in
  let* got := trylock in
  let* p' := if got || force_lock then st_ret (Some p)
             else find_job_by_array t (id_of j0) true in
  match p' with
  | None => st_ret PBSE_JOBNOTFOUND
  | Some p' =>
    let* j := get_job p' in
    let* r := on_table t (ORemove (id_of j)) in
    st_ret (match r with RBool true => PBSE_NONE | _ => THING_NOT_FOUND end)
  end).

Definition swap_jobs (t : table) (job1 job2 : option jptr) : M Z :=
  non_null job1 (fun job1 => non_null job2 (fun job2 =>
  let* j1 := get_job job1 in
  let* j2 := get_job job2 in
  let* r := on_table t (OSwap (id_of j1) (id_of j2)) in
  st_ret (match r with RBool true => PBSE_NONE | _ => THING_NOT_FOUND end))).

(** ** queue_func.c *)

Definition PBS_MAXDEST : Z := 1024.

Definition find_queuebyname (quename : cstr) : M (option cstr) :=
  let qname := before c_at (take (Z.to_nat PBS_MAXDEST) quename) in
  let* qs := gets w_queues in
  match qs !! qname with
  | Some q => st_ret (if q_being_recycled q then None else Some qname)
  | None => st_ret None
  end.

(** The queue and whether the job is still there: [*pjob_ptr] is only ever set to
    NULL. *)
Definition lock_queue_with_job_held (pque : option cstr) (p : jptr) : M (option cstr * bool) :=
  match pque with
  | None => st_ret (None, true)
  | Some q =>
    let* j := get_job p in
    let* got := trylock in
    if got then st_ret (Some q, true)
    else
      let* pj := svr_find_job (id_of j) true in
      match pj with None => st_ret (None, false) | Some _ => st_ret (Some q, true) end
  end.

Definition get_jobs_queue (p : jptr) : M (option cstr * bool) :=
  let* j := get_job p in lock_queue_with_job_held (ji_qhdr j) p.

(** ** svr_jobfunc.c: states *)

(** The part of [free_nodes] (node_manager.c) that is on the job *)
Definition free_nodes (p : jptr) : M unit :=
  let* j := get_job p in
  emit (CFreeNodes (id_of j)) >>>
  upd_job p (upd_qs (fun q => set_ji_svrflags (clear_flag (ji_svrflags q) JOB_SVFLG_HasNodes) q)).

(** "enabled" *)
Definition s_enabled : cstr := [101; 110; 97; 98; 108; 101; 100].

Definition release_node_allocation (p : jptr) : M unit :=
  free_nodes p >>>
  let* j := get_job p in
  let keep := match at_val (a_checkpoint (ji_wattr j)) with
              | Some s => bool_decide (take 7 s = s_enabled)
                          && has_flag (ji_svrflags (ji_qs j)) JOB_SVFLG_CHECKPOINT_FILE
              | None => false
              end in
  if keep then st_ret tt
  else
    upd_job p (fun j =>
      upd_qs (fun q => set_ji_svrflags (clear_flag (ji_svrflags q) JOB_SVFLG_StagedIn) q)
        (upd_attr (fun a => set_a_exec_host (unset_flag (a_exec_host a) None) a) j)).

Definition release_node_allocation_if_needed (p : jptr) (newstate : Z) : M unit :=
  let* j := get_job p in
  if (newstate =? JOB_STATE_QUEUED) && bool_decide (at_val (a_exec_host (ji_wattr j)) <> None)
  then release_node_allocation p else st_ret tt.

(** "TQHWREC" *)
Definition statechar : cstr := [84; 81; 72; 87; 82; 69; 67].

Definition set_statechar (p : jptr) : M unit :=
  let* j := get_job p in
  if (st_of j =? JOB_STATE_RUNNING) && has_flag (ji_svrflags (ji_qs j)) JOB_SVFLG_Suspend then
    upd_job p (upd_attr (set_a_state 83))
  else if st_of j <? zlen statechar then
    if st_of j <? 0 then st_ub
    else upd_job p (upd_attr (set_a_state (nth (Z.to_nat (st_of j)) statechar 0)))
  else upd_job p (upd_attr (set_a_state 85)).

Definition set_jobstate_basic (p : jptr) (newstate newsubstate : Z) : M unit :=
  upd_job p (fun j => upd_attr (set_a_substate newsubstate)
                        (upd_qs (fun q => set_ji_substate newsubstate (set_ji_state newstate q)) j)) >>>
  set_statechar p.

Definition is_valid_state_transition (j : job) (newstate newsubstate : Z) : bool :=
  negb ((st_of j =? JOB_STATE_COMPLETE) && (newstate =? JOB_STATE_EXITING))
  && negb ((sub_of j =? JOB_SUBSTATE_COMPLETE) && (newsubstate =? JOB_SUBSTATE_ABORT)).

Definition job_save (p : jptr) (mode : Z) : M Z :=
  let* j := get_job p in emit (CSave (id_of j) mode) >>> st_ret (job_save_rc p mode).

(** What [svr_setjobstate] does when the state changes, once it has the queue: the
    second half, after the window in which the job was unlocked. *)
Definition setjobstate_queue (p : jptr) (pque : option cstr) (newstate : Z) : M unit :=
  let* j := get_job p in
  let oldstate := st_of j in
  let owner := a_job_owner (ji_wattr j) in
  (if negb (ji_is_array_template j) && (newstate =? JOB_STATE_COMPLETE)
   then decrement_queued_jobs Users owner p >>> st_ret tt else st_ret tt) >>>
  match pque with
  | None => st_ret tt
  | Some q =>
    (if negb (ji_is_array_template j) then
       bump_njstate q oldstate (-1) >>> bump_njstate q newstate 1 >>>
       (if negb (oldstate =? JOB_STATE_TRANSIT) && negb (oldstate =? JOB_STATE_COMPLETE)
           && (newstate =? JOB_STATE_COMPLETE)
        then decrement_queued_jobs (QueueUih q) owner p >>> st_ret tt else st_ret tt)
     else st_ret tt) >>>
    let* x := get_queue q in
    if (qu_type x =? QTYPE_Execution) && (newstate =? JOB_STATE_QUEUED) then
      notify_scheduler SCH_SCHEDULE_NEW >>>
      if negb (is_set (a_etime (ji_wattr j))) then
        upd_job p (upd_attr (fun a =>
          set_a_etime (mk_attribute (Z.lor (at_flags (a_etime a)) ATR_VFLAG_SET) (at_type (a_etime a))
                         (put_long time_now (at_val (a_etime a)))) a))
      else st_ret tt
    else if (newstate =? JOB_STATE_HELD) || (newstate =? JOB_STATE_WAITING) then
      upd_job p (upd_attr (fun a => set_a_etime (free_null (a_etime a)) a))
    else st_ret tt
  end.

(** The end of [svr_setjobstate] *)
Definition setjobstate_finish (p : jptr) (newstate newsubstate : Z) (changed : bool) : M Z :=
  set_jobstate_basic p newstate newsubstate >>>
  (if changed then upd_job p (set_ji_mod_time time_now) else st_ret tt) >>>
  let* j := get_job p in
  if ji_modified j then job_save p SAVEJOB_FULL
  else if changed then job_save p SAVEJOB_QUICK
  else st_ret PBSE_NONE.

(** [fuel] bounds the chain of parents, which [set_subjob_state] climbs. *)
Fixpoint setjobstate (fuel : nat) (p : jptr) (newstate newsubstate : Z) (has_queue_mutex : bool) : M Z :=
  match fuel with
  | O => fun _ => OutOfFuel
  | S fuel =>
    let* j := get_job p in
    if negb (is_valid_state_transition j newstate newsubstate) then
      st_ret PBSE_BAD_JOB_STATE_TRANSITION
    else
      match ji_parent_job j with
      | Some parent =>
        (* set_subjob_state *)
        window >>>
        setjobstate fuel parent newstate newsubstate has_queue_mutex >>>
        let* pj := svr_find_job (id_of j) true in
        match pj with
        | Some pj =>
          release_node_allocation_if_needed pj newstate >>>
          set_jobstate_basic pj newstate newsubstate >>> st_ret PBSE_NONE
        | None => st_ret PBSE_JOB_RECYCLED
        end
      | None =>
        if sub_of j =? JOB_SUBSTATE_TRANSICM then setjobstate_finish p newstate newsubstate false
        else if st_of j =? newstate then
          setjobstate_finish p newstate newsubstate (negb (sub_of j =? newsubstate))
        else
          release_node_allocation_if_needed p newstate >>>
          (if ji_is_array_template j then st_ret tt
           else bump_jobstates (st_of j) (-1) >>> bump_jobstates newstate 1) >>>
          let* (pque, lost) :=
            if has_queue_mutex then st_ret (ji_qhdr j, false)
            else match ji_qhdr j with
                 | None => st_ret (None, false)
                 | Some _ => let* (pque, _) := get_jobs_queue p in
                             st_ret (pque, bool_decide (pque = None))
                 end in
          if lost : bool then st_ret PBSE_UNKQUE
          else
            let* j' := get_job p in
            let changed := negb (sub_of j' =? newsubstate) in
            if st_of j' =? newstate then setjobstate_finish p newstate newsubstate changed
            else
              setjobstate_queue p pque newstate >>>
              setjobstate_finish p newstate newsubstate true
      end
  end.

Definition svr_setjobstate (pjob : option jptr) (newstate newsubstate : Z) (has_queue_mutex : bool) : M Z :=
  non_null pjob (fun p =>
    let* jobs := gets w_jobs in
    setjobstate (S (size jobs)) p newstate newsubstate has_queue_mutex).

Definition svr_evaljobstate (j : job) (forceeval : bool) : Z * Z :=
  let sub := sub_of j in
  if (JOB_STATE_EXITING <=? st_of j)
     && negb (is_case sub [JOB_SUBSTATE_RERUN; JOB_SUBSTATE_RERUN1; JOB_SUBSTATE_RERUN2; JOB_SUBSTATE_RERUN3])
  then (st_of j, sub)
  else if negb forceeval && ((st_of j =? JOB_STATE_RUNNING) || (st_of j =? JOB_STATE_TRANSIT))
  then (st_of j, sub)
  else if negb (a_hold (ji_wattr j) =? 0) then
    (JOB_STATE_HELD,
     if (sub =? JOB_SUBSTATE_SYNCHOLD) || (sub =? JOB_SUBSTATE_DEPNHOLD) then sub else JOB_SUBSTATE_HELD)
  else if time_now <? at_long (at_val (a_exectime (ji_wattr j))) then
    (JOB_STATE_WAITING, JOB_SUBSTATE_WAITING)
  else if a_stagein_set (ji_wattr j) then
    (JOB_STATE_QUEUED,
     if has_flag (ji_svrflags (ji_qs j)) JOB_SVFLG_StagedIn then JOB_SUBSTATE_STAGECMP
     else JOB_SUBSTATE_PRESTAGEIN)
  else (JOB_STATE_QUEUED, JOB_SUBSTATE_QUEUED).

(** [set_task(WORK_Timed, when, job_wait_over, jobid, FALSE)], which succeeds *)
Definition set_wait_task (when : Z) (id : cstr) : M unit := emit (CSetTask when id).

Definition job_set_wait (pattr : option pbs_attribute) (pjob : option jptr) : M Z :=
  match pattr with
  | None => st_ret PBSE_BAD_PARAMETER
  | Some pattr =>
    non_null pjob (fun p =>
      if negb (is_set pattr) then st_ret PBSE_NONE
      else
        let* j := get_job p in
        set_wait_task (at_long (at_val pattr)) (id_of j) >>>
        upd_job p (upd_qs (fun q => set_ji_svrflags (Z.lor (ji_svrflags q) JOB_SVFLG_HASWAIT) q)) >>>
        st_ret PBSE_NONE)
  end.

(** The id the work task carries is NULL when [strdup] failed. *)
Definition job_wait_over (jobid : option cstr) : M unit :=
  match jobid with
  | None => st_ret tt
  | Some jobid =>
    let* pj := svr_find_job jobid true in
    match pj with
    | None => st_ret tt
    | Some p =>
      let* j := get_job p in
      let when := at_long (at_val (a_exectime (ji_wattr j))) in
      if time_now <? when then set_wait_task when (id_of j)
      else
        upd_job p (fun j =>
          set_ji_modified true
            (upd_attr (fun a => set_a_exectime (free_null (a_exectime a)) a)
              (upd_qs (fun q => set_ji_svrflags (clear_flag (ji_svrflags q) JOB_SVFLG_HASWAIT) q) j))) >>>
        let* j := get_job p in
        if st_of j <? JOB_STATE_RUNNING then
          let '(newstate, newsub) := svr_evaljobstate j false in
          svr_setjobstate (Some p) newstate newsub false >>> st_ret tt
        else st_ret tt
    end
  end.

(** ** svr_jobfunc.c: queues *)

(** The backward walk of [insert_into_alljobs_by_rank]: the first job of a smaller rank,
    or the job itself, found before one. *)
Inductive rank_place := RFirst | RAfter (cur : jptr) | RPresent.

Fixpoint rank_walk (jobid : cstr) (job_qrank : Z) (back : list jptr) : M rank_place :=
  match back with
  | [] => st_ret RFirst
  | cur :: back =>
    let* j := get_job cur in
    if a_qrank (ji_wattr j) <? job_qrank then st_ret (RAfter cur)
    else if str_eq jobid (id_of j) then st_ret RPresent
    else rank_walk jobid job_qrank back
  end.

Definition insert_into_alljobs_by_rank (t : table) (p : jptr) (jobid : cstr) : M Z :=
  let* j := get_job p in
  let* l := get_table t in
  let* place := rank_walk jobid (a_qrank (ji_wattr j)) (item_ptr <$> reverse l) in
  match place with
  | RPresent => st_ret ALREADY_IN_LIST
  | _ =>
    let* curJobid :=
      match place with
      | RAfter cur =>
        let* jc := get_job cur in
        let* l := get_table t in
        st_ret (match l_find (id_of jc) l with Some _ => id_of jc | None => [] end)
      | _ => st_ret []
      end in
    window >>>
    let* pj := svr_find_job jobid false in
    match pj with
    | None => st_ret PBSE_JOBNOTFOUND
    | Some pj =>
      let* j := get_job pj in
      on_table t (match curJobid with
                  | [] => OInsertFirst pj (id_of j)
                  | _ => OInsertAfter curJobid pj (id_of j)
                  end) >>>
      st_ret PBSE_NONE
    end
  end.

(** [user == NULL] counts all jobs but the completed. *)
Definition count_queued_jobs (q : cstr) (user : option cstr) : M Z :=
  match user with
  | None =>
    let* x := get_queue q in
    let* c := st_lift (qu_njstate x !! Z.to_nat JOB_STATE_COMPLETE) in
    st_ret (qu_numjobs x - c)
  | Some user => let* n := get_num_queued (QueueUih q) user in st_ret (i32 n)
  end.

Definition eval_checkpoint (jobckp : str_attribute) (queckp : pbs_attribute) : option str_attribute :=
  if negb (is_set jobckp) || negb (is_set queckp) then Some jobckp
  else
    pv ← at_val jobckp;
    match pv with
    | 99 :: pv =>
      let pv := match pv with 61 :: pv => pv | _ => pv end in
      let least := at_long (at_val queckp) in
      if atoi pv <? least then
        snd <$> decode_str (free_str jobckp) (Some ([99; 61] ++ print_d least))
      else Some jobckp
    | _ => Some jobckp
    end.

(** [array_jobs] and the two limits of the queue *)
Definition enque_limits (p : jptr) (q : cstr) : M Z :=
  let* j := get_job p in
  let* array_jobs :=
    if ji_is_array_template j then
      let* n := st_lift (num_array_jobs maxpathlen (a_job_array_request (ji_wattr j))) in
      st_ret (if 0 <? n then n - 1 else n)
    else st_ret 0 in
  let* x := get_queue q in
  let* over := match qa_max_jobs x with
               | Some m => let* total_jobs := count_queued_jobs q None in
                           st_ret (m <=? total_jobs + array_jobs + qu_reserved_jobs x)
               | None => st_ret false
               end in
  if over : bool then st_ret PBSE_MAXQUED
  else
    let* over := match qa_max_user_jobs x with
                 | Some m =>
                   let* user_jobs :=
                     count_queued_jobs q (Some (remove_server_suffix (a_job_owner (ji_wattr j)))) in
                   st_ret (m <=? user_jobs + qu_reserved_jobs x)
                 | None => st_ret false
                 end in
    st_ret (if over : bool then PBSE_MAXUSERQUED else PBSE_NONE).

(** The attributes that tell where the job is, and since when *)
Definition enque_attributes (p : jptr) (q : cstr) : M unit :=
  let* x := get_queue q in
  let* j := get_job p in
  let* inq := st_lift (decode_str (free_str (a_in_queue (ji_wattr j))) (Some (qu_name x))) in
  upd_job p (upd_attr (fun a => set_a_queuetype (Some (qa_qtype x)) (set_a_in_queue (snd inq) a))) >>>
  (if negb (is_set (a_qtime (ji_wattr j))) && negb (ji_is_array_template j) then
     upd_job p (upd_attr (fun a =>
       set_a_qtime (mk_attribute (Z.lor (at_flags (a_qtime a)) ATR_VFLAG_SET) (at_type (a_qtime a))
                      (put_long time_now (at_val (a_qtime a)))) a)) >>>
     emit (CAccountQueue (id_of j) (qu_name x))
   else st_ret tt) >>>
  emit (CSetRescDeflt (id_of j)) >>> emit (CSetChkptDeflt (id_of j) (qu_name x)).

(** What the type of the queue asks for *)
Definition enque_by_type (p : jptr) (q : cstr) : M Z :=
  let* x := get_queue q in
  if qu_type x =? QTYPE_Execution then
    upd_job p (upd_qs (fun f => set_ji_un (match ji_un f with UnExec a e => UnExec a e | _ => UnExec 0 0 end) f)) >>>
    let* j := get_job p in
    let* ck := st_lift (eval_checkpoint (a_checkpoint (ji_wattr j)) (qe_checkpoint_min x)) in
    upd_job p (upd_attr (set_a_checkpoint ck)) >>>
    let* rc :=
      if negb (st_of j =? JOB_STATE_COMPLETE) && negb (sub_of j =? JOB_SUBSTATE_COMPLETE)
         && a_depend_set (ji_wattr j)
      then depend_on_que p else st_ret PBSE_NONE in
    if rc =? PBSE_JOBNOTFOUND then st_ret rc
    else
      let* j := get_job p in
      (if negb (is_set (a_etime (ji_wattr j))) && (st_of j =? JOB_STATE_QUEUED) then
         upd_job p (upd_attr (fun a =>
           set_a_etime (mk_attribute (Z.lor (at_flags (a_etime a)) ATR_VFLAG_SET) (at_type (a_etime a))
                          (put_long time_now (at_val (a_etime a)))) a))
       else st_ret tt) >>>
      notify_scheduler SCH_SCHEDULE_NEW >>>
      st_ret (if rc =? PBSE_NONE then PBSE_NONE else PBSE_BADDEPEND)
  else if qu_type x =? QTYPE_RoutePush then
    upd_job p (upd_qs (set_ji_un (UnRoute time_now))) >>> st_ret PBSE_NONE
  else st_ret PBSE_NONE.

(** Into [alljobs] and the server's counts, for a job that is not an array's template *)
Definition enque_server (p : jptr) (prev_job_id : option cstr) : M unit :=
  let* j := get_job p in
  if ji_is_array_template j then st_ret tt
  else
    on_table AllJobs (match prev_job_id with
                      | None | Some [] => OInsert p (id_of j) false
                      | Some prev => OInsertAfter prev p (id_of j)
                      end) >>>
    modify (fun w => set_sv_numjobs (sv_numjobs w + 1) w) >>>
    bump_jobstates (st_of j) 1.

(** Into [array_summary], for a job that stands for itself or for its array *)
Definition enque_summary (p : jptr) : M Z :=
  let* j := get_job p in
  if ji_is_array_template j || bool_decide (ji_arraystructid j = []) then
    let* rc := has_job ArraySummary (Some p) in
    if rc =? 0 then insert_job ArraySummary (Some p) >>> st_ret PBSE_NONE
    else if rc =? PBSE_JOB_RECYCLED then st_ret rc else st_ret PBSE_NONE
  else st_ret PBSE_NONE.

(** Into the two lists of the queue and its counts; [Some rc] when [svr_enquejob] ends
    here. *)
Definition enque_queue (p : jptr) (q job_id : cstr) : M (option Z) :=
  upd_job p (set_ji_qhdr (Some q)) >>>
  let* j := get_job p in
  let stop rc := if rc =? ALREADY_IN_LIST then Some PBSE_NONE
                 else if rc =? PBSE_JOBNOTFOUND then Some rc else None in
  let* s := if ji_is_array_template j then st_ret None
            else
              let* rc := insert_into_alljobs_by_rank (QuJobs q) p job_id in
              match stop rc with
              | Some rc => st_ret (Some rc)
              | None =>
                upd_queue q (fun x => set_qu_numjobs (qu_numjobs x + 1) x) >>>
                let* j := get_job p in
                bump_njstate q (st_of j) 1 >>>
                increment_queued_jobs (QueueUih q) (a_job_owner (ji_wattr j)) p >>>
                increment_queued_jobs Users (a_job_owner (ji_wattr j)) p >>> st_ret None
              end in
  match s with
  | Some rc => st_ret (Some rc)
  | None =>
    let* j := get_job p in
    if ji_is_array_template j || bool_decide (ji_arraystructid j = []) then
      let* rc := insert_into_alljobs_by_rank (QuArraySum q) p job_id in st_ret (stop rc)
    else st_ret None
  end.

Definition svr_enquejob (pjob : option jptr) (prev_job_id : option cstr)
    (have_reservation being_recovered : bool) : M Z :=
  non_null pjob (fun p =>
    let* j0 := get_job p in
    window >>>
    let* pque := find_queuebyname (ji_queue (ji_qs j0)) in
    match pque with
    | None =>
      let* j := get_job p in
      st_ret (if ji_being_recycled j then PBSE_JOB_RECYCLED else PBSE_UNKQUE)
    | Some q =>
      let* x := get_queue q in
      if qa_ghost_queue x && negb being_recovered then st_ret PBSE_GHOSTQUEUE
      else
        (if have_reservation then upd_queue q (fun x => set_qu_reserved_jobs (qu_reserved_jobs x - 1) x)
         else st_ret tt) >>>
        let* j := get_job p in
        if ji_being_recycled j then st_ret PBSE_JOB_RECYCLED
        else
          emit (CRemoveProcct (id_of j)) >>>
          enque_limits p q >>?
          enque_server p prev_job_id >>>
          enque_summary p >>?
          let* stop := enque_queue p q (id_of j0) in
          match stop with
          | Some rc => st_ret rc
          | None => enque_attributes p q >>> enque_by_type p q
          end
    end).

(** ** Recounting *)

(** [next_job]: the jobs of a list that are not being recycled *)
Fixpoint live_jobs (l : list jptr) : M (list job) :=
  match l with
  | [] => st_ret []
  | p :: l =>
    let* j := get_job p in
    let* r := live_jobs l in st_ret (if ji_being_recycled j then r else j :: r)
  end.

Fixpoint count_states (js : list job) (a : list Z) : option (list Z) :=
  match js with
  | [] => Some a
  | j :: js => a ← bump (st_of j) 1 a; count_states js a
  end.

Definition zero_counts : list Z := replicate PBS_NUMJOBSTATE 0.

(** The counts of the queues from [qs] on, added to those of the server *)
Fixpoint recount_queues (qs : list cstr) (num_jobs : Z) (job_counts : list Z) : M (Z * list Z) :=
  match qs with
  | [] => st_ret (num_jobs, job_counts)
  | q :: qs =>
    let* x := get_queue q in
    if q_being_recycled x then recount_queues qs num_jobs job_counts
    else
      let* js := live_jobs (item_ptr <$> qu_jobs x) in
      let* nj := st_lift (count_states js zero_counts) in
      let* jc := st_lift (count_states js job_counts) in
      upd_queue q (fun x => set_qu_njstate nj (set_qu_numjobs (zlen js) x)) >>>
      recount_queues qs (num_jobs + zlen js) jc
  end.

Definition correct_ct : M unit :=
  modify (set_sv_numjobs 0) >>>
  let* qs := gets svr_queues in
  let* (num_jobs, job_counts) := recount_queues qs 0 zero_counts in
  modify (set_sv_numjobs num_jobs) >>> modify (set_sv_jobstates job_counts).

(** ** Out of the queue *)

(** [--counter < 0] *)
Definition drop_njstate (q : cstr) (i : Z) : M bool :=
  bump_njstate q i (-1) >>>
  let* x := get_queue q in
  let* v := st_lift (qu_njstate x !! Z.to_nat i) in st_ret (v <? 0).
Definition drop_jobstates (i : Z) : M bool :=
  bump_jobstates i (-1) >>>
  let* a := gets sv_jobstates in
  let* v := st_lift (a !! Z.to_nat i) in st_ret (v <? 0).

(** The part of [svr_dequejob] on the job's queue: [inl rc] is a return, [inr bad_ct]
    goes on. *)
Definition deque_queue (p : jptr) (q : cstr) : M (Z + bool) :=
  let* x := get_queue q in
  let* j := get_job p in
  let owner := a_job_owner (ji_wattr j) in
  (if (qu_type x =? QTYPE_RoutePush) || negb (st_of j =? JOB_STATE_COMPLETE) then
     (if negb (st_of j =? JOB_STATE_COMPLETE) then decrement_queued_jobs Users owner p >>> st_ret tt
      else st_ret tt) >>>
     decrement_queued_jobs (QueueUih q) owner p >>> st_ret tt
   else st_ret tt) >>>
  let* rc := remove_job (QuJobs q) (Some p) false in
  if rc =? PBSE_JOBNOTFOUND then st_ret (inl rc)
  else
    let* bad :=
      if rc =? PBSE_NONE then
        upd_queue q (fun x => set_qu_numjobs (qu_numjobs x - 1) x) >>>
        let* x := get_queue q in
        let* j := get_job p in
        let* neg := drop_njstate q (st_of j) in
        st_ret ((qu_numjobs x <? 0) || neg)
      else st_ret false in
    let* rc2 := remove_job (QuArraySum q) (Some p) false in
    if rc2 =? PBSE_JOBNOTFOUND then st_ret (inl rc2)
    else upd_job p (set_ji_qhdr None) >>> st_ret (inr bad).

(** The part on [alljobs] *)
Definition deque_server (p : jptr) : M (Z + bool) :=
  let* rc := remove_job AllJobs (Some p) false in
  if rc =? PBSE_JOBNOTFOUND then st_ret (inl rc)
  else if rc =? PBSE_NONE then
    let* j := get_job p in
    if ji_is_array_template j then st_ret (inr false)
    else
      modify (fun w => set_sv_numjobs (sv_numjobs w - 1) w) >>>
      let* n := gets sv_numjobs in
      let* neg := drop_jobstates (st_of j) in
      st_ret (inr ((n <? 0) || neg))
  else st_ret (inr false).

(** The clearing of [qtime] and of the resources that were defaults *)
Definition deque_attributes (p : jptr) : M unit :=
  upd_job p (upd_attr (fun a => set_a_qtime (unset_flag (a_qtime a) (at_val (a_qtime a))) a)) >>>
  let* j := get_job p in emit (CFreeDefaultResources (id_of j)).

Definition svr_dequejob (pjob : option jptr) (parent_queue_mutex_held : bool) : M Z :=
  non_null pjob (fun p =>
    let* j := get_job p in
    if (st_of j =? JOB_STATE_RUNNING) && negb (ji_is_array_template j) then st_ret PBSE_BADSTATE
    else
      let* (pque, there) :=
        if parent_queue_mutex_held then st_ret (ji_qhdr j, true) else get_jobs_queue p in
      if negb there then st_ret PBSE_JOBNOTFOUND
      else if negb parent_queue_mutex_held && bool_decide (pque = None) then st_ret PBSE_JOB_NOT_IN_QUEUE
      else
        let* r := match pque with Some q => deque_queue p q | None => st_ret (inr false) end in
        match r with
        | inl rc => st_ret rc
        | inr bad1 =>
          deque_attributes p >>>
          let* r := deque_server p in
          match r with
          | inl rc => st_ret rc
          | inr bad2 =>
            let* gone :=
              if bad1 || bad2 then
                let* j := get_job p in
                (* the name of the queue is copied, when its lock is the caller's *)
                (if parent_queue_mutex_held && bool_decide (pque = None) then st_ub else st_ret tt) >>>
                window >>> correct_ct >>>
                let* pj := svr_find_job (id_of j) false in st_ret (bool_decide (pj = None))
              else st_ret false in
            if gone : bool then st_ret PBSE_JOBNOTFOUND
            else notify_scheduler SCH_SCHEDULE_TERM >>> st_ret PBSE_NONE
          end
        end).

End Server.
