(* ===== verification/JobBooks.v ===== *)
(** * The books of the server: what its counters mean

    The server keeps, beside the tables of jobs, how many jobs there are and how many in
    each state, for itself and for every queue, and how many queued jobs each user has.
    [books] says that every counter is what counting the tables gives.

    While an operation runs, a job may already be counted under the state it is about to
    have; [books] therefore takes the state each job is counted under, for the server
    and for its queue.  [actual] is the state the job has. *)
From Stdlib Require Import ZArith Lia.
From stdpp Require Import base gmap option list.
From S2P Require Import Prelude CLib Attrs AttrVal AttrStr Container ContainerRefine ContainerSpec.
From S2P Require Import JobNames JobData JobServer.

Local Open Scope Z_scope.

(** ** Computations that run to the end *)

(** With no other thread in the way, [m] returns from every world of [P], in a world and
    with an answer of [Q]. *)
Definition hoare {A} (P : world -> Prop) (m : M A) (Q : A -> world -> Prop) : Prop :=
  forall w, P w -> exists a w', m (w, []) = Ret a (w', []) /\ Q a w'.

Create HintDb books discriminated.

Section Rules.
Context {A B : Type}.
Implicit Types (P : world -> Prop) (m : M A).

Lemma hoare_ret P (a : A) (Q : A -> world -> Prop) : (forall w, P w -> Q a w) -> hoare P (st_ret a) Q.
Proof. intros HQ w HP. exists a, w. auto. Qed.

Lemma hoare_bind P m (Q : A -> world -> Prop) (k : A -> M B) (R : B -> world -> Prop) :
  hoare P m Q -> (forall a, hoare (Q a) (k a) R) -> hoare P (st_bind m k) R.
Proof.
  intros Hm Hk w HP. destruct (Hm w HP) as (a & w1 & E & HQ). destruct (Hk a w1 HQ) as (b & w2 & E2 & HR).
  exists b, w2. split; [|done]. unfold st_bind. by rewrite E.
Qed.

Lemma hoare_seq P m (Q : world -> Prop) (k : M B) (R : B -> world -> Prop) :
  hoare P m (fun _ => Q) -> hoare Q k R -> hoare P (st_bind m (fun _ => k)) R.
Proof. intros Hm Hk. by apply (hoare_bind P m (fun _ => Q)). Qed.

Lemma hoare_assoc {C} P m (k : A -> M B) (l : B -> M C) R :
  hoare P (st_bind (st_bind m k) l) R -> hoare P (st_bind m (fun a => st_bind (k a) l)) R.
Proof.
  intros Hm w HP. destruct (Hm w HP) as (c & w' & E & HR). exists c, w'. split; [|done].
  rewrite <- E. unfold st_bind. by destruct (m (w, [])).
Qed.

Lemma hoare_pre P P' m (Q : A -> world -> Prop) :
  (forall w, P w -> P' w) -> hoare P' m Q -> hoare P m Q.
Proof. intros HP Hm w Hw. apply Hm. auto. Qed.

Lemma hoare_post P m (Q Q' : A -> world -> Prop) :
  hoare P m Q -> (forall a w, Q a w -> Q' a w) -> hoare P m Q'.
Proof. intros Hm HQ w Hw. destruct (Hm w Hw) as (a & w' & E & H). exists a, w'. auto. Qed.

(** A fact of the precondition that does not depend on the world *)
Lemma hoare_pure (F : Prop) P m (Q : A -> world -> Prop) :
  (F -> hoare P m Q) -> hoare (fun w => F /\ P w) m Q.
Proof. intros Hm w [HF HP]. by apply Hm. Qed.

Lemma hoare_gets P (f : world -> A) (Q : A -> world -> Prop) :
  (forall w, P w -> Q (f w) w) -> hoare P (gets f) Q.
Proof. intros HQ w HP. exists (f w), w. auto. Qed.

Lemma hoare_modify P (f : world -> world) (Q : unit -> world -> Prop) :
  (forall w, P w -> Q tt (f w)) -> hoare P (modify f) Q.
Proof. intros HQ w HP. exists tt, (f w). auto. Qed.

Lemma hoare_get_job P p (Q : job -> world -> Prop) :
  (forall w, P w -> exists j, w_jobs w !! p = Some j /\ Q j w) -> hoare P (get_job p) Q.
Proof. intros HQ w HP. destruct (HQ w HP) as (j & E & H). exists j, w. unfold get_job. by rewrite E. Qed.

Lemma hoare_upd_job P p f (Q : unit -> world -> Prop) :
  (forall w, P w -> exists j, w_jobs w !! p = Some j /\ Q tt (set_w_jobs (<[p := f j]> (w_jobs w)) w)) ->
  hoare P (upd_job p f) Q.
Proof.
  intros HQ w HP. destruct (HQ w HP) as (j & E & H). exists tt. eexists. unfold upd_job. by rewrite E.
Qed.

Lemma hoare_get_queue P q (Q : pbs_queue -> world -> Prop) :
  (forall w, P w -> exists x, w_queues w !! q = Some x /\ Q x w) -> hoare P (get_queue q) Q.
Proof. intros HQ w HP. destruct (HQ w HP) as (j & E & H). exists j, w. unfold get_queue. by rewrite E. Qed.

Lemma hoare_upd_queue P q f (Q : unit -> world -> Prop) :
  (forall w, P w -> exists x, w_queues w !! q = Some x /\ Q tt (set_w_queues (<[q := f x]> (w_queues w)) w)) ->
  hoare P (upd_queue q f) Q.
Proof.
  intros HQ w HP. destruct (HQ w HP) as (j & E & H). exists tt. eexists. unfold upd_queue. by rewrite E.
Qed.

Lemma hoare_lift P (o : option A) (Q : A -> world -> Prop) :
  (forall w, P w -> exists a, o = Some a /\ Q a w) -> hoare P (st_lift o) Q.
Proof. intros HQ w HP. destruct (HQ w HP) as (a & -> & H). exists a, w. auto. Qed.

End Rules.

Lemma hoare_window (P : world -> Prop) : hoare P window (fun _ => P).
Proof. intros w HP. by exists tt, w. Qed.
Lemma hoare_trylock (P : world -> Prop) : hoare P trylock (fun b w => b = true /\ P w).
Proof. intros w HP. by exists true, w. Qed.

(** ** Tallies *)

Definition ptrs (l : all_jobs) : list jptr := item_ptr <$> l.

Section Tally.
Implicit Types (jobs : gmap jptr job) (l : all_jobs).

Definition weigh (P : jptr -> job -> bool) jobs (p : jptr) : Z :=
  match jobs !! p with Some j => if P p j then 1 else 0 | None => 0 end.

Fixpoint tally (P : jptr -> job -> bool) jobs l : Z :=
  match l with [] => 0 | i :: l => weigh P jobs (item_ptr i) + tally P jobs l end.

Lemma weigh_range P jobs p : 0 <= weigh P jobs p <= 1.
Proof. unfold weigh. destruct (jobs !! p); [destruct (P p _)|]; lia. Qed.

Lemma tally_range P jobs l : 0 <= tally P jobs l <= zlen l.
Proof.
  induction l as [|i l IH]; simpl; [done|]. rewrite zlen_cons. pose proof (weigh_range P jobs (item_ptr i)). lia.
Qed.

Lemma tally_app P jobs l1 l2 : tally P jobs (l1 ++ l2) = tally P jobs l1 + tally P jobs l2.
Proof. induction l1 as [|i l1 IH]; simpl; lia. Qed.

Lemma tally_ext P P' jobs jobs' l :
  (forall p, p ∈ ptrs l -> weigh P' jobs' p = weigh P jobs p) -> tally P' jobs' l = tally P jobs l.
Proof.
  induction l as [|i l IH]; simpl; intros Hw; [done|]. rewrite (Hw (item_ptr i)) by set_solver.
  f_equal. apply IH. intros p Hp. apply Hw. set_solver.
Qed.

(** One job of the list is weighed differently. *)
Lemma tally_change P P' jobs jobs' l p :
  NoDup (ptrs l) -> p ∈ ptrs l ->
  (forall r, r <> p -> r ∈ ptrs l -> weigh P' jobs' r = weigh P jobs r) ->
  tally P' jobs' l = tally P jobs l - weigh P jobs p + weigh P' jobs' p.
Proof.
  induction l as [|i l IH]; simpl; [set_solver|]. intros [Hi Hnd]%NoDup_cons Hp Hw.
  destruct (decide (item_ptr i = p)) as [<-|Hne].
  - rewrite (tally_ext P P' jobs jobs' l); [lia|]. intros r Hr. apply Hw; [|set_solver].
    intros ->. done.
  - rewrite (Hw (item_ptr i)) by set_solver. rewrite IH; [lia|done|set_solver|].
    intros r Hr Hin. apply Hw; [done|set_solver].
Qed.

End Tally.

(** ** Views and counts by state *)

Definition view : Type := jptr -> job -> Z.
Definition actual : view := fun _ j => st_of j.
Definition seen (p : jptr) (a : Z) : view := fun r j => if decide (r = p) then a else st_of j.

Definition states_of (v : view) (jobs : gmap jptr job) (l : all_jobs) : list Z :=
  (fun k => tally (fun r j => v r j =? Z.of_nat k) jobs l) <$> seq 0 PBS_NUMJOBSTATE.

Lemma bump_fmap i d (f g : nat -> Z) :
  0 <= i < Z.of_nat PBS_NUMJOBSTATE ->
  (forall k, g k = f k + (if decide (Z.of_nat k = i) then d else 0)) ->
  bump i d (f <$> seq 0 PBS_NUMJOBSTATE) = Some (g <$> seq 0 PBS_NUMJOBSTATE).
Proof.
  intros Hi Hg. unfold bump. rewrite bool_decide_eq_true_2 by lia.
  rewrite list_lookup_fmap, lookup_seq_lt by lia. simpl (_ <$> Some _). cbv iota.
  f_equal. apply list_eq. intros k. rewrite list_lookup_fmap.
  destruct (decide (k < PBS_NUMJOBSTATE)%nat) as [Hk|Hk].
  - rewrite (lookup_seq_lt 0 PBS_NUMJOBSTATE k Hk). simpl (_ <$> Some _).
    destruct (decide (k = Z.to_nat i)) as [->|Hne].
    + rewrite list_lookup_insert_eq by (rewrite length_fmap, length_seq; lia).
      rewrite Hg, decide_True by lia. done.
    + rewrite list_lookup_insert_ne by done. rewrite list_lookup_fmap, lookup_seq_lt by done.
      simpl. rewrite Hg, decide_False by lia. f_equal. lia.
  - rewrite (lookup_ge_None_2 (seq 0 _)) by (rewrite length_seq; lia).
    apply lookup_ge_None_2. rewrite length_insert, length_fmap, length_seq. lia.
Qed.

(** ** Tables *)

Record table_ok (jobs : gmap jptr job) (l : all_jobs) : Prop := {
  t_nodup : NoDup (ids l);
  t_jobs i : i ∈ l -> exists j, jobs !! item_ptr i = Some j /\ id_of j = item_id i
}.

Lemma ptrs_elem p l : p ∈ ptrs l <-> exists i, i ∈ l /\ item_ptr i = p.
Proof. unfold ptrs. rewrite list_elem_of_fmap. naive_solver. Qed.

Lemma table_ptrs jobs l : table_ok jobs l -> NoDup (ptrs l).
Proof.
  intros [Hnd Hj]. induction l as [|i l IH]; [constructor|]. simpl in *.
  apply NoDup_cons in Hnd as [Hi Hnd]. apply NoDup_cons. split.
  - intros (i' & Hi' & E)%ptrs_elem. destruct (Hj i) as (j & E1 & E2); [set_solver|].
    destruct (Hj i') as (j' & E3 & E4); [set_solver|]. rewrite E in E3. simplify_eq.
    apply Hi. rewrite <- E2, E4. by apply list_elem_of_fmap_2.
  - apply IH; [done|]. intros i' Hi'. apply Hj. set_solver.
Qed.

(** The item of a job is found under the job's id. *)
Lemma table_find jobs l p j :
  table_ok jobs l -> p ∈ ptrs l -> jobs !! p = Some j ->
  exists l1 l2, l = l1 ++ Item (id_of j) p :: l2 /\ id_of j ∉ ids l1.
Proof.
  intros [Hnd Hj] (i & Hi & <-)%ptrs_elem Ej. destruct (Hj i Hi) as (j' & E1 & E2). simplify_eq.
  apply list_elem_of_split in Hi as (l1 & l2 & ->). exists l1, l2. split.
  - destruct i; simpl in *. by subst.
  - unfold ids in Hnd. rewrite fmap_app in Hnd. apply NoDup_app in Hnd as (_ & Hd & _).
    intros Hin. rewrite E2 in Hin. apply (Hd _ Hin). set_solver.
Qed.

Lemma table_ok_jobs jobs jobs' l :
  table_ok jobs l ->
  (forall p j, p ∈ ptrs l -> jobs !! p = Some j -> exists j', jobs' !! p = Some j' /\ id_of j' = id_of j) ->
  table_ok jobs' l.
Proof.
  intros [Hnd Hj] He. split; [done|]. intros i Hi. destruct (Hj i Hi) as (j & E & Ei).
  destruct (He (item_ptr i) j) as (j' & E' & Ei'); [by apply list_elem_of_fmap_2|done|].
  exists j'. split; [done|congruence].
Qed.

(** ** The books *)

Definition user_of (j : job) : cstr := remove_server_suffix (a_job_owner (ji_wattr j)).
Definition counted (bit : Z) (u : cstr) : jptr -> job -> bool :=
  fun _ j => has_flag (ji_queue_counted j) bit && bool_decide (user_of j = u).

Record queue_ok (vq : view) (jobs : gmap jptr job) (q : cstr) (x : pbs_queue) : Prop := {
  q_table : table_ok jobs (qu_jobs x);
  q_mem p j : p ∈ ptrs (qu_jobs x) -> jobs !! p = Some j ->
    ji_qhdr j = Some q /\ ji_is_array_template j = false;
  q_num : qu_numjobs x = zlen (qu_jobs x);
  q_states : qu_njstate x = states_of vq jobs (qu_jobs x);
  q_users u : default 0 (qu_uih x !! u) = tally (counted COUNTED_IN_QUEUE u) jobs (qu_jobs x)
}.

Record books (vs vq : view) (w : world) : Prop := {
  b_all : table_ok (w_jobs w) (alljobs w);
  b_plain p j : p ∈ ptrs (alljobs w) -> w_jobs w !! p = Some j ->
    ji_is_array_template j = false /\ sub_of j <> JOB_SUBSTATE_TRANSICM;
  b_bound : zlen (alljobs w) <= INT_MAX;
  b_num : sv_numjobs w = zlen (alljobs w);
  b_states : sv_jobstates w = states_of vs (w_jobs w) (alljobs w);
  b_users u : default 0 (users w !! u) = tally (counted COUNTED_GLOBALLY u) (w_jobs w) (alljobs w);
  b_queues q x : w_queues w !! q = Some x -> queue_ok vq (w_jobs w) q x;
  b_qhdr p j q : w_jobs w !! p = Some j -> ji_qhdr j = Some q ->
    exists x, w_queues w !! q = Some x
      /\ (ji_is_array_template j = false -> p ∈ ptrs (qu_jobs x) /\ p ∈ ptrs (alljobs w));
  b_global p j : w_jobs w !! p = Some j -> has_flag (ji_queue_counted j) COUNTED_GLOBALLY = true ->
    p ∈ ptrs (alljobs w);
  b_inqueue p j : w_jobs w !! p = Some j -> has_flag (ji_queue_counted j) COUNTED_IN_QUEUE = true ->
    is_Some (ji_qhdr j) /\ ji_is_array_template j = false;
  b_range p j : w_jobs w !! p = Some j -> 0 <= st_of j < Z.of_nat PBS_NUMJOBSTATE
}.

(** ** Books that differ in one job *)

(** What the books read of a job, besides its state *)
Record same_entry (j j' : job) : Prop := {
  se_id : id_of j' = id_of j;
  se_qhdr : ji_qhdr j' = ji_qhdr j;
  se_template : ji_is_array_template j' = ji_is_array_template j;
  se_user : user_of j' = user_of j;
  se_counted : ji_queue_counted j' = ji_queue_counted j
}.

Lemma same_entry_refl j : same_entry j j.
Proof. by constructor. Qed.

Lemma insert_cases (jobs : gmap jptr job) p j r jr :
  <[p := j]> jobs !! r = Some jr -> (r = p /\ jr = j) \/ (r <> p /\ jobs !! r = Some jr).
Proof.
  destruct (decide (r = p)) as [->|Hne].
  - rewrite lookup_insert_eq. intros [= <-]. auto.
  - rewrite lookup_insert_ne by done. auto.
Qed.

Definition put_job (p : jptr) (j : job) (w : world) : world := set_w_jobs (<[p := j]> (w_jobs w)) w.

Section OneJob.
Context (vs vq : view) (w : world) (p : jptr) (j j' : job).
Hypothesis Hb : books vs vq w.
Hypothesis Hj : w_jobs w !! p = Some j.

Lemma weigh_put P r :
  (r = p -> P p j' = P p j) -> weigh P (<[p := j']> (w_jobs w)) r = weigh P (w_jobs w) r.
Proof.
  intros HP. unfold weigh. destruct (decide (r = p)) as [->|Hne].
  - rewrite lookup_insert_eq, Hj, HP; done.
  - by rewrite lookup_insert_ne.
Qed.

Lemma table_put l : id_of j' = id_of j -> table_ok (w_jobs w) l -> table_ok (<[p := j']> (w_jobs w)) l.
Proof.
  intros Hid Ht. apply (table_ok_jobs (w_jobs w)); [done|]. intros r jr Hr Er.
  destruct (decide (r = p)) as [->|Hne].
  - simplify_eq. rewrite lookup_insert_eq. eauto.
  - rewrite lookup_insert_ne by done. eauto.
Qed.

Lemma states_put v l : v p j' = v p j -> states_of v (<[p := j']> (w_jobs w)) l = states_of v (w_jobs w) l.
Proof.
  intros Hv. unfold states_of. apply list_fmap_ext. intros _ k _. apply tally_ext. intros r _.
  apply weigh_put. by rewrite Hv.
Qed.

(** Changing what the books do not read keeps them. *)
Lemma books_put_job :
  same_entry j j' -> vs p j' = vs p j -> vq p j' = vq p j ->
  0 <= st_of j' < Z.of_nat PBS_NUMJOBSTATE ->
  (p ∈ ptrs (alljobs w) -> sub_of j' <> JOB_SUBSTATE_TRANSICM) ->
  books vs vq (put_job p j' w).
Proof.
  intros [] Hvs Hvq Hr Hsub. destruct Hb. unfold put_job.
  pose proof (insert_cases (w_jobs w) p j') as Hl.
  assert (forall bit u l, tally (counted bit u) (<[p := j']> (w_jobs w)) l = tally (counted bit u) (w_jobs w) l) as Hc.
  { intros bit u l. apply tally_ext. intros r _. apply weigh_put. intros _. unfold counted.
    by rewrite se_counted0, se_user0. }
  constructor; simpl; try done.
  - by apply table_put.
  - intros r jr Hin [[-> ->]|[_ E]]%Hl; [|by eapply b_plain0]. rewrite se_template0.
    split; [by eapply b_plain0|auto].
  - by rewrite states_put.
  - intros u. rewrite b_users0. by rewrite Hc.
  - intros q x Hx. destruct (b_queues0 q x Hx). constructor; try done.
    + by apply table_put.
    + intros r jr Hin [[-> ->]|[_ E]]%Hl; [|by eapply q_mem0]. rewrite se_qhdr0, se_template0. by eapply q_mem0.
    + by rewrite states_put.
    + intros u. by rewrite q_users0, Hc.
  - intros r jr q [[-> ->]|[_ E]]%Hl; [|by eapply b_qhdr0]. rewrite se_qhdr0, se_template0. by eapply b_qhdr0.
  - intros r jr [[-> ->]|[_ E]]%Hl; [|by eapply b_global0]. rewrite se_counted0. by eapply b_global0.
  - intros r jr [[-> ->]|[_ E]]%Hl; [|by eapply b_inqueue0]. rewrite se_counted0, se_qhdr0, se_template0.
    by eapply b_inqueue0.
  - intros r jr [[-> ->]|[_ E]]%Hl; [done|by eapply b_range0].
Qed.

End OneJob.

(** ** Flags *)

Lemma land_disjoint_bits f g n : Z.land f g = 0 -> Z.testbit f n && Z.testbit g n = false.
Proof. intros E. rewrite <- Z.land_spec, E. apply Z.bits_0. Qed.

Lemma clear_flag_other x f g : Z.land f g = 0 -> has_flag (clear_flag x f) g = has_flag x g.
Proof.
  intros E. unfold has_flag, clear_flag. do 2 f_equal. apply Z.bits_inj'. intros n _.
  rewrite !Z.land_spec, Z.ldiff_spec. pose proof (land_disjoint_bits f g n E).
  destruct (Z.testbit x n), (Z.testbit f n), (Z.testbit g n); done.
Qed.

Lemma clear_flag_self x f : has_flag (clear_flag x f) f = false.
Proof.
  unfold has_flag, clear_flag. replace (Z.land (Z.ldiff x f) f) with 0; [done|].
  symmetry. apply Z.bits_inj'. intros n _. rewrite Z.land_spec, Z.ldiff_spec, Z.bits_0.
  destruct (Z.testbit x n), (Z.testbit f n); done.
Qed.

Lemma set_flag_other x f g : Z.land f g = 0 -> has_flag (Z.lor x f) g = has_flag x g.
Proof.
  intros E. unfold has_flag. do 2 f_equal. apply Z.bits_inj'. intros n _.
  rewrite !Z.land_spec, Z.lor_spec. pose proof (land_disjoint_bits f g n E).
  destruct (Z.testbit x n), (Z.testbit f n), (Z.testbit g n); done.
Qed.

Lemma set_flag_self x f : f <> 0 -> has_flag (Z.lor x f) f = true.
Proof.
  intros Hf. unfold has_flag. replace (Z.land (Z.lor x f) f) with f; [by apply negb_true_iff, Z.eqb_neq|].
  apply Z.bits_inj'. intros n _. rewrite Z.land_spec, Z.lor_spec.
  destruct (Z.testbit x n), (Z.testbit f n); done.
Qed.

(** ** Counting a job under another state *)

Lemma books_views vs vq vs' vq' w :
  books vs vq w ->
  (forall p j, w_jobs w !! p = Some j -> vs' p j = vs p j) ->
  (forall p j, w_jobs w !! p = Some j -> vq' p j = vq p j) -> books vs' vq' w.
Proof.
  intros Hb Hs Hq.
  assert (forall v v' l, (forall p j, w_jobs w !! p = Some j -> v' p j = v p j) ->
    states_of v' (w_jobs w) l = states_of v (w_jobs w) l) as He.
  { intros v v' l Hv. unfold states_of. apply list_fmap_ext. intros _ k _. apply tally_ext. intros p _.
    unfold weigh. destruct (w_jobs w !! p) as [j|] eqn:E; [by rewrite (Hv p j E)|done]. }
  destruct Hb. constructor; try done.
  - by rewrite (He vs vs').
  - intros q x Hx. destruct (b_queues0 q x Hx). constructor; try done. by rewrite (He vq vq').
Qed.

Lemma seen_actual w p j : w_jobs w !! p = Some j ->
  forall r jr, w_jobs w !! r = Some jr -> seen p (st_of j) r jr = actual r jr.
Proof. intros Hj r jr Hr. unfold seen, actual. case_decide; [|done]. congruence. Qed.

Lemma states_seen jobs l p j a b k :
  NoDup (ptrs l) -> p ∈ ptrs l -> jobs !! p = Some j ->
  tally (fun r j => seen p b r j =? Z.of_nat k) jobs l
  = tally (fun r j => seen p a r j =? Z.of_nat k) jobs l
    + (if decide (Z.of_nat k = a) then -1 else 0) + (if decide (Z.of_nat k = b) then 1 else 0).
Proof.
  intros Hnd Hp Hj.
  rewrite (tally_change (fun r j => seen p a r j =? Z.of_nat k) _ jobs jobs l p Hnd Hp).
  - unfold weigh, seen. rewrite Hj. rewrite !decide_True by done.
    destruct (Z.eqb_spec a (Z.of_nat k)), (Z.eqb_spec b (Z.of_nat k)); repeat case_decide; lia.
  - intros r Hr _. unfold weigh, seen. destruct (jobs !! r); [|done]. by rewrite !decide_False.
Qed.

Lemma bump_seen jobs l p j a b :
  NoDup (ptrs l) -> p ∈ ptrs l -> jobs !! p = Some j ->
  0 <= a < Z.of_nat PBS_NUMJOBSTATE -> 0 <= b < Z.of_nat PBS_NUMJOBSTATE ->
  exists s, bump a (-1) (states_of (seen p a) jobs l) = Some s
    /\ bump b 1 s = Some (states_of (seen p b) jobs l).
Proof.
  intros Hnd Hp Hj Ha Hb. eexists. split; [apply bump_fmap; [done|]; intros k; reflexivity|].
  apply bump_fmap; [done|]. intros k. by apply (states_seen jobs l p j).
Qed.

(** [sv_jobstates[a]--; sv_jobstates[b]++] *)
Lemma hoare_bump_jobstates vq p a b (F : world -> Prop) :
  (forall w s, F w -> F (set_sv_jobstates s w)) ->
  0 <= a < Z.of_nat PBS_NUMJOBSTATE -> 0 <= b < Z.of_nat PBS_NUMJOBSTATE ->
  hoare (fun w => books (seen p a) vq w /\ is_Some (w_jobs w !! p) /\ p ∈ ptrs (alljobs w) /\ F w)
    (st_bind (bump_jobstates a (-1)) (fun _ => bump_jobstates b 1))
    (fun _ w => books (seen p b) vq w /\ F w).
Proof.
  intros HF Ha Hb w (Hw & [j Hj] & Hp & HFw).
  destruct (bump_seen (w_jobs w) (alljobs w) p j a b) as (s & E1 & E2); try done.
  { by eapply table_ptrs, b_all. }
  exists tt, (set_sv_jobstates (states_of (seen p b) (w_jobs w) (alljobs w)) w). split.
  - unfold bump_jobstates, st_bind, gets, st_lift, modify, st_ret. simpl.
    rewrite (b_states _ _ _ Hw), E1. simpl. by rewrite E2.
  - split; [|by apply HF]. by destruct Hw; constructor.
Qed.

Definition put_queue (q : cstr) (x : pbs_queue) (w : world) : world :=
  set_w_queues (<[q := x]> (w_queues w)) w.

(** Another record for one queue, with the same lists *)
Lemma books_put_queue vs vq w q x x' :
  books vs vq w -> w_queues w !! q = Some x -> qu_jobs x' = qu_jobs x ->
  queue_ok vq (w_jobs w) q x' -> books vs vq (put_queue q x' w).
Proof.
  intros [] Hx El Hq. constructor; simpl; try done.
  - intros q' y. destruct (decide (q' = q)) as [->|Hne].
    + rewrite lookup_insert_eq. naive_solver.
    + rewrite lookup_insert_ne by done. apply b_queues0.
  - intros p j q' Hj Hh. destruct (b_qhdr0 p j q' Hj Hh) as (y & Hy & Hm).
    destruct (decide (q' = q)) as [->|Hne].
    + rewrite lookup_insert_eq. exists x'. simplify_eq. by rewrite El.
    + rewrite lookup_insert_ne by done. eauto.
Qed.

(** A queue that does not hold [p] does not see how [p] is counted. *)
Lemma queue_ok_seen jobs q x p a b j :
  jobs !! p = Some j -> ji_qhdr j <> Some q -> queue_ok (seen p a) jobs q x -> queue_ok (seen p b) jobs q x.
Proof.
  intros Hj Hq []. constructor; try done. rewrite q_states0. unfold states_of.
  apply list_fmap_ext. intros _ k _. apply tally_ext. intros r Hr. unfold weigh, seen.
  destruct (jobs !! r) as [jr|] eqn:Er; [|done]. destruct (decide (r = p)) as [->|]; [|done].
  rewrite Hj in Er. destruct (q_mem0 p j Hr Hj). congruence.
Qed.

(** [qu_njstate[a]--; qu_njstate[b]++] *)
Lemma hoare_bump_njstate vs p a b q (F : world -> Prop) :
  (forall w x s, F w -> w_queues w !! q = Some x -> F (put_queue q (set_qu_njstate s x) w)) ->
  0 <= a < Z.of_nat PBS_NUMJOBSTATE -> 0 <= b < Z.of_nat PBS_NUMJOBSTATE ->
  hoare (fun w => books vs (seen p a) w
           /\ (exists j, w_jobs w !! p = Some j /\ ji_qhdr j = Some q /\ ji_is_array_template j = false) /\ F w)
    (st_bind (bump_njstate q a (-1)) (fun _ => bump_njstate q b 1))
    (fun _ w => books vs (seen p b) w /\ F w).
Proof.
  intros HF Ha Hb w (Hw & (j & Hj & Hq & Ht) & HFw).
  destruct (b_qhdr _ _ _ Hw p j q Hj Hq) as (x & Hx & Hm). destruct (Hm Ht) as [Hp _].
  pose proof (b_queues _ _ _ Hw q x Hx) as Hqx.
  destruct (bump_seen (w_jobs w) (qu_jobs x) p j a b) as (s & E1 & E2); try done.
  { by eapply table_ptrs, q_table. }
  set (x' := set_qu_njstate (states_of (seen p b) (w_jobs w) (qu_jobs x)) x).
  exists tt, (put_queue q x' w). split.
  - unfold bump_njstate, st_bind, get_queue, st_lift, upd_queue, st_ret. simpl. rewrite Hx.
    rewrite (q_states _ _ _ _ Hqx), E1, Hx. simpl. rewrite lookup_insert_eq. simpl. rewrite E2. simpl. rewrite lookup_insert_eq.
    unfold put_queue. do 2 f_equal. unfold set_w_queues; simpl. by rewrite insert_insert_eq.
  - split; [|by eapply HF].
    assert (books vs (seen p b) (put_queue q x' w)) as Hb'; [|done].
    destruct Hw. constructor; simpl; try done.
    + intros q' y. destruct (decide (q' = q)) as [->|Hne].
      * rewrite lookup_insert_eq. intros [= <-]. destruct Hqx. by constructor.
      * rewrite lookup_insert_ne by done. intros Hy. eapply queue_ok_seen; [done| |by apply b_queues0]. congruence.
    + intros r jr q' Hr Hh. destruct (b_qhdr0 r jr q' Hr Hh) as (y & Hy & Hm').
      destruct (decide (q' = q)) as [->|Hne].
      * rewrite lookup_insert_eq. exists x'. simplify_eq. done.
      * rewrite lookup_insert_ne by done. eauto.
Qed.

(** ** A user has one job less *)

Definition view_ok (v : view) : Prop := forall r j j', st_of j' = st_of j -> v r j' = v r j.
Lemma actual_ok : view_ok actual.
Proof. intros r j j' E. exact E. Qed.
Lemma seen_ok p a : view_ok (seen p a).
Proof. intros r j j' E. unfold seen. by case_decide. Qed.
#[export] Hint Resolve actual_ok seen_ok : books.

(** [j] with another [ji_queue_counted] *)
Definition recount (c : Z) (j : job) : job := set_ji_queue_counted c j.

Lemma tally_recount jobs p j c bit u l :
  jobs !! p = Some j -> NoDup (ptrs l) -> p ∈ ptrs l ->
  tally (counted bit u) (<[p := recount c j]> jobs) l
  = tally (counted bit u) jobs l
    - (if has_flag (ji_queue_counted j) bit && bool_decide (user_of j = u) then 1 else 0)
    + (if has_flag c bit && bool_decide (user_of j = u) then 1 else 0).
Proof.
  intros Hj Hnd Hp. rewrite (tally_change (counted bit u) _ jobs _ l p Hnd Hp).
  - unfold weigh. by rewrite Hj, lookup_insert_eq.
  - intros r Hr _. unfold weigh. by rewrite lookup_insert_ne.
Qed.

Lemma tally_recount_out jobs p j c bit u l :
  jobs !! p = Some j -> p ∉ ptrs l ->
  tally (counted bit u) (<[p := recount c j]> jobs) l = tally (counted bit u) jobs l.
Proof.
  intros Hj Hp. apply tally_ext. intros r Hr. unfold weigh. rewrite lookup_insert_ne by set_solver. done.
Qed.

Lemma counted_positive jobs l p j bit :
  jobs !! p = Some j -> p ∈ ptrs l -> has_flag (ji_queue_counted j) bit = true ->
  1 <= tally (counted bit (user_of j)) jobs l.
Proof.
  intros Hj Hp Hbit. apply ptrs_elem in Hp as (i & Hi & E). apply list_elem_of_split in Hi as (l1 & l2 & ->).
  rewrite tally_app. simpl.
  pose proof (tally_range (counted bit (user_of j)) jobs l1). pose proof (tally_range (counted bit (user_of j)) jobs l2).
  unfold weigh. rewrite E, Hj. unfold counted at 2. rewrite Hbit, bool_decide_eq_true_2 by done. simpl. lia.
Qed.

Section Recount.
Context (vs vq : view) (Hvs : view_ok vs) (Hvq : view_ok vq).

(** The parts of the books that do not read the bits survive any change of them. *)
Lemma states_recount v w p j c l :
  view_ok v -> w_jobs w !! p = Some j ->
  states_of v (<[p := recount c j]> (w_jobs w)) l = states_of v (w_jobs w) l.
Proof. intros Hv Hj. apply (states_put w p j); [done|]. by apply Hv. Qed.

(** The books after a change of the bits of [p], with the holders [us] and [uq] given for
    the server and for the job's queue. *)
Lemma books_recount w p j c us uq :
  books vs vq w -> w_jobs w !! p = Some j ->
  (forall u, default 0 (us !! u) = tally (counted COUNTED_GLOBALLY u) (<[p := recount c j]> (w_jobs w)) (alljobs w)) ->
  (forall q x, w_queues w !! q = Some x -> ji_qhdr j = Some q -> forall u,
     default 0 (uq !! u) = tally (counted COUNTED_IN_QUEUE u) (<[p := recount c j]> (w_jobs w)) (qu_jobs x)) ->
  (has_flag c COUNTED_GLOBALLY = true -> p ∈ ptrs (alljobs w)) ->
  (has_flag c COUNTED_IN_QUEUE = true -> is_Some (ji_qhdr j) /\ ji_is_array_template j = false) ->
  forall w', w_jobs w' = <[p := recount c j]> (w_jobs w) -> alljobs w' = alljobs w ->
  sv_numjobs w' = sv_numjobs w -> sv_jobstates w' = sv_jobstates w -> users w' = us ->
  (forall q, w_queues w' !! q = (fun x => if decide (ji_qhdr j = Some q) then set_qu_uih uq x else x) <$> w_queues w !! q) ->
  books vs vq w'.
Proof.
  intros Hb Hj Hus Huq Hg Hq w' Ej Ea En Es Eu Eqs. destruct Hb.
  assert (forall r jr, <[p := recount c j]> (w_jobs w) !! r = Some jr ->
    exists jr0, w_jobs w !! r = Some jr0 /\ (jr = jr0 \/ (r = p /\ jr0 = j /\ jr = recount c j))) as Hl.
  { intros r jr. destruct (decide (r = p)) as [->|Hne].
    - rewrite lookup_insert_eq. intros [= <-]. eauto 10.
    - rewrite lookup_insert_ne by done. eauto. }
  assert (forall l, table_ok (w_jobs w) l -> table_ok (<[p := recount c j]> (w_jobs w)) l) as Ht.
  { intros l. by apply (table_put w p j). }
  constructor; rewrite ?Ej, ?Ea, ?En, ?Es, ?Eu; try done.
  - by apply Ht.
  - intros r jr Hin (jr0 & E & [->|(-> & -> & ->)])%Hl; [by eapply b_plain0|exact (b_plain0 p j Hin E)].
  - by rewrite states_recount.
  - intros q x. rewrite Eqs. destruct (w_queues w !! q) as [x0|] eqn:Ex; [|done]. simpl. intros [= <-].
    destruct (b_queues0 q x0 Ex) as [Ht0 Hm0 Hn0 Hs0 Hu0].
    assert (queue_ok vq (<[p := recount c j]> (w_jobs w)) q
              (if decide (ji_qhdr j = Some q) then set_qu_uih uq x0 else x0)) as Hok; [|done].
    assert (forall r jr, r ∈ ptrs (qu_jobs x0) -> <[p := recount c j]> (w_jobs w) !! r = Some jr ->
      ji_qhdr jr = Some q /\ ji_is_array_template jr = false) as Hmem.
    { intros r jr Hin (jr0 & E & [->|(-> & -> & ->)])%Hl; exact (Hm0 _ _ Hin E). }
    case_decide as Hh; constructor; simpl; try done; try (by apply Ht); try (by rewrite states_recount).
    + by apply (Huq q x0 Ex Hh).
    + intros u. rewrite Hu0. symmetry. apply tally_recount_out; [done|]. intros Hin.
      destruct (Hm0 p j Hin Hj). congruence.
  - intros r jr q (jr0 & E & Hr)%Hl Hqr.
    assert (ji_qhdr jr0 = Some q /\ ji_is_array_template jr = ji_is_array_template jr0) as [Hq0 Et].
    { destruct Hr as [->|(-> & -> & ->)]; done. }
    destruct (b_qhdr0 r jr0 q E Hq0) as (x & Ex & Hm). rewrite Eqs, Ex. simpl. eexists. split; [done|].
    rewrite Et. intros Htm. destruct (Hm Htm). by destruct (decide (ji_qhdr j = Some q)).
  - intros r jr (jr0 & E & [->|(-> & -> & ->)])%Hl; [by eapply b_global0|done].
  - intros r jr (jr0 & E & [->|(-> & -> & ->)])%Hl; [by eapply b_inqueue0|done].
  - intros r jr (jr0 & E & [->|(-> & -> & ->)])%Hl; [by eapply b_range0|exact (b_range0 p j E)].
Qed.

Lemma recount_id j : recount (ji_queue_counted j) j = j.
Proof. by destruct j. Qed.
Lemma put_job_id w p j : w_jobs w !! p = Some j -> put_job p j w = w.
Proof. intros Hj. unfold put_job. rewrite insert_id by done. by destruct w. Qed.
Lemma put_queue_id w q x : w_queues w !! q = Some x -> put_queue q x w = w.
Proof. intros Hx. unfold put_queue. rewrite insert_id by done. by destruct w. Qed.

Lemma default_Some (h : user_info_holder) u n : default 0 (h !! u) = n -> 1 <= n -> h !! u = Some n.
Proof. destruct (h !! u); simpl; intros; subst; [done|lia]. Qed.

Lemma uih_insert (h : user_info_holder) u n u' :
  default 0 (<[u := n]> h !! u') = if decide (u = u') then n else default 0 (h !! u').
Proof.
  unfold user_info_holder in *. case_decide as Hu; [subst u'; by rewrite lookup_insert_eq|by rewrite lookup_insert_ne].
Qed.

Lemma i32_pred n : 1 <= n <= INT_MAX -> i32 (n - 1) = n - 1.
Proof. intros. apply i32_small. unfold INT_MAX in *. lia. Qed.
Lemma i32_succ n : 0 <= n < INT_MAX -> i32 (n + 1) = n + 1.
Proof. intros. apply i32_small. unfold INT_MAX in *. lia. Qed.

(** A change of the bits that leaves one of them leaves what it counts. *)
Lemma tally_recount_same jobs p j c bit u l :
  jobs !! p = Some j -> has_flag c bit = has_flag (ji_queue_counted j) bit ->
  tally (counted bit u) (<[p := recount c j]> jobs) l = tally (counted bit u) jobs l.
Proof.
  intros Hj Ec. apply tally_ext. intros r _. unfold weigh.
  destruct (decide (r = p)) as [->|Hne]; [|by rewrite lookup_insert_ne].
  rewrite lookup_insert_eq, Hj. unfold counted. simpl. by rewrite Ec.
Qed.

(** The holder a job of [j]'s queue is counted in *)
Definition own_uih (w : world) (j : job) : user_info_holder :=
  match ji_qhdr j ≫= fun q => w_queues w !! q with Some x => qu_uih x | None => ∅ end.

Lemma own_uih_tally w p j u x q :
  books vs vq w -> w_jobs w !! p = Some j -> ji_qhdr j = Some q -> w_queues w !! q = Some x ->
  default 0 (own_uih w j !! u) = tally (counted COUNTED_IN_QUEUE u) (w_jobs w) (qu_jobs x).
Proof.
  intros Hb Hj Hq Hx. unfold own_uih. rewrite Hq. simpl. rewrite Hx.
  apply (q_users _ _ _ _ (b_queues _ _ _ Hb q x Hx)).
Qed.

(** One job more or less of a user: [d] is 1 when the job gains the bit, -1 when it
    loses it. *)
Lemma holder_recount (h : user_info_holder) jobs l p j c bit d :
  (forall u, default 0 (h !! u) = tally (counted bit u) jobs l) ->
  jobs !! p = Some j -> NoDup (ptrs l) -> p ∈ ptrs l ->
  d = (if has_flag c bit then 1 else 0) - (if has_flag (ji_queue_counted j) bit then 1 else 0) ->
  forall u, default 0 (<[user_of j := default 0 (h !! user_of j) + d]> h !! u)
    = tally (counted bit u) (<[p := recount c j]> jobs) l.
Proof.
  intros Hh Hj Hnd Hp Hd u. rewrite (tally_recount _ _ _ _ _ _ _ Hj Hnd Hp), uih_insert.
  case_decide as Hu.
  - subst u. rewrite bool_decide_eq_true_2, Hh by done.
    destruct (has_flag c bit), (has_flag _ bit); simpl in *; lia.
  - rewrite bool_decide_eq_false_2, Hh by done. destruct (has_flag c bit), (has_flag _ bit); simpl; lia.
Qed.

(** [w] with the bits of [p] changed and the holders replaced *)
Definition recounted (w : world) (p : jptr) (j : job) (c : Z) (u : uih) (h : user_info_holder) : world :=
  put_job p (recount c j)
    (match u with
     | Users => set_users h w
     | QueueUih q => match w_queues w !! q with Some x => put_queue q (set_qu_uih h x) w | None => w end
     end).

(** The holder [u] is the server's, or that of the queue [j] is in. *)
Definition own (u : uih) (j : job) : Prop :=
  match u with Users => True | QueueUih q => ji_qhdr j = Some q /\ ji_is_array_template j = false end.
Definition holder (w : world) (u : uih) : user_info_holder :=
  match u with
  | Users => users w
  | QueueUih q => match w_queues w !! q with Some x => qu_uih x | None => ∅ end
  end.
Definition listed (w : world) (u : uih) : all_jobs :=
  match u with
  | Users => alljobs w
  | QueueUih q => match w_queues w !! q with Some x => qu_jobs x | None => [] end
  end.
Definition other_bit (u : uih) : Z :=
  match u with Users => COUNTED_IN_QUEUE | QueueUih _ => COUNTED_GLOBALLY end.

(** The books after one job more or less of a user *)
Lemma books_recounted w p j c u d :
  books vs vq w -> w_jobs w !! p = Some j -> own u j -> p ∈ ptrs (listed w u) ->
  has_flag c (other_bit u) = has_flag (ji_queue_counted j) (other_bit u) ->
  d = (if has_flag c (uih_bit u) then 1 else 0)
      - (if has_flag (ji_queue_counted j) (uih_bit u) then 1 else 0) ->
  books vs vq (recounted w p j c u (<[user_of j := default 0 (holder w u !! user_of j) + d]> (holder w u))).
Proof.
  intros Hb Hj Hown Hp Ho Hd. unfold recounted.
  set (h := <[user_of j := _]> _).
  destruct u as [|q]; simpl in *.
  - apply (books_recount w p j c h (own_uih w j)); try done; simpl.
    + apply holder_recount; try done; [apply (b_users _ _ _ Hb)|by eapply table_ptrs, b_all].
    + intros q x Hx Hq u. rewrite (tally_recount_same _ _ _ _ _ _ _ Hj Ho). by apply (own_uih_tally w p j u x q).
    + rewrite Ho. apply (b_inqueue _ _ _ Hb p j Hj).
    + intros q. destruct (w_queues w !! q) as [x|] eqn:Ex; [|done]. simpl. f_equal.
      case_decide as Hq; [|done]. unfold own_uih. rewrite Hq. simpl. rewrite Ex. by destruct x.
  - destruct Hown as [Hq Ht]. destruct (b_qhdr _ _ _ Hb p j q Hj Hq) as (x & Hx & _).
    subst h. rewrite Hx in *. pose proof (b_queues _ _ _ Hb q x Hx) as Hqx. set (h := <[user_of j := _]> _).
    apply (books_recount w p j c (users w) h); try done; simpl.
    + intros u. rewrite (tally_recount_same _ _ _ _ _ _ _ Hj Ho). apply (b_users _ _ _ Hb).
    + intros q' x' Hx' Hq'. simplify_eq.
      apply holder_recount; try done; [apply (q_users _ _ _ _ Hqx)|by eapply table_ptrs, q_table].
    + rewrite Ho. apply (b_global _ _ _ Hb p j Hj).
    + intros q'. destruct (decide (q' = q)) as [->|Hne].
      * rewrite lookup_insert_eq, Hx. simpl. by rewrite decide_True.
      * rewrite lookup_insert_ne by done. destruct (w_queues w !! q'); [|done]. simpl.
        rewrite decide_False by congruence. done.
Qed.

(** *** Running the two operations of user_info.c *)

Lemma books_bound w q x :
  books vs vq w -> w_queues w !! q = Some x -> zlen (qu_jobs x) <= INT_MAX.
Proof.
  intros Hb Hx. pose proof (b_queues _ _ _ Hb q x Hx) as Hqx. pose proof (b_bound _ _ _ Hb) as Hbd.
  assert (ptrs (qu_jobs x) ⊆+ ptrs (alljobs w)) as Hsub.
  { apply NoDup_submseteq; [by eapply table_ptrs, q_table|]. intros r Hr.
    pose proof Hr as (i & Hi & <-)%ptrs_elem. destruct (t_jobs _ _ (q_table _ _ _ _ Hqx) i Hi) as (jr & Er & _).
    destruct (q_mem _ _ _ _ Hqx _ _ Hr Er) as [Hq Ht].
    destruct (b_qhdr _ _ _ Hb _ _ _ Er Hq) as (y & Hy & Hm). by destruct (Hm Ht). }
  apply submseteq_length in Hsub. unfold ptrs in Hsub. rewrite !length_fmap in Hsub. unfold zlen in *. lia.
Qed.

Lemma holder_range w p j u n :
  books vs vq w -> w_jobs w !! p = Some j -> own u j ->
  0 <= default 0 (holder w u !! n) <= INT_MAX /\ NoDup (ptrs (listed w u))
  /\ default 0 (holder w u !! n) = tally (counted (uih_bit u) n) (w_jobs w) (listed w u)
  /\ zlen (listed w u) <= INT_MAX.
Proof.
  intros Hb Hj Hown. destruct u as [|q]; simpl in *.
  - rewrite (b_users _ _ _ Hb). pose proof (b_bound _ _ _ Hb).
    pose proof (tally_range (counted COUNTED_GLOBALLY n) (w_jobs w) (alljobs w)).
    repeat split; try lia. by eapply table_ptrs, b_all.
  - destruct Hown as [Hq _]. destruct (b_qhdr _ _ _ Hb p j q Hj Hq) as (x & Hx & _). rewrite Hx.
    pose proof (b_queues _ _ _ Hb q x Hx) as Hqx. rewrite (q_users _ _ _ _ Hqx).
    pose proof (books_bound w q x Hb Hx).
    pose proof (tally_range (counted COUNTED_IN_QUEUE n) (w_jobs w) (qu_jobs x)).
    repeat split; try lia. by eapply table_ptrs, q_table.
Qed.

(** A job with the bit of a holder is in the list the holder counts. *)
Lemma bit_listed w p j u :
  books vs vq w -> w_jobs w !! p = Some j -> own u j ->
  has_flag (ji_queue_counted j) (uih_bit u) = true -> p ∈ ptrs (listed w u).
Proof.
  intros Hb Hj Hown Hbit. destruct u as [|q]; simpl in *.
  - by apply (b_global _ _ _ Hb p j).
  - destruct Hown as [Hq Ht]. destruct (b_qhdr _ _ _ Hb p j q Hj Hq) as (x & Hx & Hm). rewrite Hx. by apply Hm.
Qed.

Lemma get_uih_run w s p j u :
  books vs vq w -> w_jobs w !! p = Some j -> own u j -> get_uih u (w, s) = Ret (holder w u) (w, s).
Proof.
  intros Hb Hj Hown. destruct u as [|q]; [done|]. destruct Hown as [Hq _].
  destruct (b_qhdr _ _ _ Hb p j q Hj Hq) as (x & Hx & _). simpl. unfold st_bind, get_queue. by rewrite !Hx.
Qed.

Lemma put_uih_run w s p j u h c :
  books vs vq w -> w_jobs w !! p = Some j -> own u j ->
  exists w1, put_uih u h (w, s) = Ret tt (w1, s) /\ w_jobs w1 !! p = Some j
    /\ put_job p (recount c j) w1 = recounted w p j c u h.
Proof.
  intros Hb Hj Hown. destruct u as [|q]; [by eexists|]. destruct Hown as [Hq _].
  destruct (b_qhdr _ _ _ Hb p j q Hj Hq) as (x & Hx & _). exists (put_queue q (set_qu_uih h x) w).
  unfold recounted. simpl. unfold upd_queue. by rewrite Hx.
Qed.

Lemma recounted_id w p j u : w_jobs w !! p = Some j ->
  recounted w p j (ji_queue_counted j) u (holder w u) = w.
Proof.
  intros Hj. unfold recounted. rewrite recount_id.
  assert (forall w1, w1 = w -> put_job p j w1 = w) as Hid by (intros ? ->; by apply put_job_id).
  apply Hid. destruct u as [|q]; simpl; [by destruct w|].
  destruct (w_queues w !! q) as [x|] eqn:Hx; [|done]. apply put_queue_id. rewrite Hx. by destruct x.
Qed.

Lemma decrement_run w s p j u owner :
  books vs vq w -> w_jobs w !! p = Some j -> own u j -> remove_server_suffix owner = user_of j ->
  exists c h, decrement_queued_jobs u owner p (w, s) = Ret PBSE_NONE (recounted w p j c u h, s)
    /\ books vs vq (recounted w p j c u h)
    /\ has_flag c (uih_bit u) = false
    /\ has_flag c (other_bit u) = has_flag (ji_queue_counted j) (other_bit u).
Proof.
  intros Hb Hj Hown Ho. unfold decrement_queued_jobs, st_bind, get_job. rewrite Hj, Ho. simpl.
  destruct (has_flag (ji_queue_counted j) (uih_bit u)) eqn:Hbit; simpl.
  2: { exists (ji_queue_counted j), (holder w u). by rewrite recounted_id. }
  pose proof (bit_listed w p j u Hb Hj Hown Hbit) as Hp.
  destruct (holder_range w p j u (user_of j) Hb Hj Hown) as (Hr & Hnd & Ht & _).
  pose proof (counted_positive (w_jobs w) (listed w u) p j (uih_bit u) Hj Hp Hbit) as Hpos. rewrite <- Ht in Hpos.
  rewrite (get_uih_run w s p j u Hb Hj Hown), (default_Some _ _ _ eq_refl Hpos).
  rewrite (proj2 (Z.eqb_neq _ _)) by lia. rewrite i32_pred by lia.
  set (c := clear_flag (ji_queue_counted j) (uih_bit u)).
  set (h := <[user_of j := default 0 (holder w u !! user_of j) - 1]> (holder w u)).
  destruct (put_uih_run w s p j u h c Hb Hj Hown) as (w1 & E & Hj1 & E1). rewrite E. unfold st_ret, upd_job.
  rewrite Hj1. fold c. fold (recount c j). fold (put_job p (recount c j) w1). rewrite E1.
  exists c, h. split; [done|].
  assert (has_flag c (uih_bit u) = false) as Ec by apply clear_flag_self.
  assert (has_flag c (other_bit u) = has_flag (ji_queue_counted j) (other_bit u)) as Eo
    by (apply clear_flag_other; by destruct u).
  split; [|done]. apply (books_recounted w p j c u (-1)); try done. by rewrite Ec, Hbit.
Qed.

Lemma tally_missing jobs l p j bit u :
  jobs !! p = Some j -> NoDup (ptrs l) -> p ∈ ptrs l -> has_flag (ji_queue_counted j) bit = false ->
  tally (counted bit u) jobs l < zlen l.
Proof.
  intros Hj _ Hp Hbit. apply ptrs_elem in Hp as (i & Hi & E). apply list_elem_of_split in Hi as (l1 & l2 & ->).
  rewrite tally_app. simpl.
  pose proof (tally_range (counted bit u) jobs l1). pose proof (tally_range (counted bit u) jobs l2).
  unfold weigh. rewrite E, Hj. unfold counted at 2. rewrite Hbit. simpl.
  unfold zlen in *. rewrite length_app. simpl. lia.
Qed.

Lemma increment_run `{Platform} maxpathlen w s p j u owner :
  books vs vq w -> w_jobs w !! p = Some j -> own u j -> remove_server_suffix owner = user_of j ->
  count_jobs_submitted maxpathlen j = Some 1 -> p ∈ ptrs (listed w u) ->
  exists c h, increment_queued_jobs maxpathlen u owner p (w, s) = Ret PBSE_NONE (recounted w p j c u h, s)
    /\ books vs vq (recounted w p j c u h)
    /\ has_flag c (uih_bit u)
       = (if st_of j =? JOB_STATE_COMPLETE then has_flag (ji_queue_counted j) (uih_bit u) else true)
    /\ has_flag c (other_bit u) = has_flag (ji_queue_counted j) (other_bit u).
Proof.
  intros Hb Hj Hown Ho Hone Hp. unfold increment_queued_jobs, st_bind, get_job. rewrite Hj, Ho, Hone. simpl.
  destruct (Z.eqb_spec (st_of j) JOB_STATE_COMPLETE) as [Hst|Hst].
  { exists (ji_queue_counted j), (holder w u). rewrite recounted_id by done. auto. }
  destruct (has_flag (ji_queue_counted j) (uih_bit u)) eqn:Hbit; simpl.
  { exists (ji_queue_counted j), (holder w u). rewrite recounted_id by done. auto. }
  destruct (holder_range w p j u (user_of j) Hb Hj Hown) as (Hr & Hnd & Ht & Hl).
  pose proof (tally_missing _ _ p j (uih_bit u) (user_of j) Hj Hnd Hp Hbit) as Hlt. rewrite <- Ht in Hlt.
  rewrite (get_uih_run w s p j u Hb Hj Hown).
  set (c := Z.lor (ji_queue_counted j) (uih_bit u)).
  set (h := <[user_of j := default 0 (holder w u !! user_of j) + 1]> (holder w u)).
  assert (match holder w u !! user_of j with Some n => i32 (n + 1) | None => i32 1 end
    = default 0 (holder w u !! user_of j) + 1) as ->.
  { destruct (holder w u !! user_of j) as [n|]; simpl in *; [apply i32_succ; lia|done]. }
  destruct (put_uih_run w s p j u h c Hb Hj Hown) as (w1 & E & Hj1 & E1). fold h. rewrite E. unfold st_ret, upd_job.
  rewrite Hj1. fold c. fold (recount c j). fold (put_job p (recount c j) w1). rewrite E1.
  exists c, h. split; [done|].
  assert (has_flag c (uih_bit u) = true) as Ec by (apply set_flag_self; by destruct u).
  assert (has_flag c (other_bit u) = has_flag (ji_queue_counted j) (other_bit u)) as Eo
    by (apply set_flag_other; by destruct u).
  split; [|auto]. apply (books_recounted w p j c u 1); try done. by rewrite Ec, Hbit.
Qed.

End Recount.

(** ** A server with one job *)

Definition no_attr : pbs_attribute := mk_attribute 0 0 (mk_size_value 0 0 0).
Definition no_str : str_attribute := mk_attribute 0 0 None.

(** Job "1" of user "u", in the queue "b" *)
Definition job_one (st sub counted : Z) : job :=
  Job (JobFix [49] st sub 0 [98] (UnExec 0 0))
    (WAttr [117; 64; 104] None no_str no_str 0 no_attr false false no_attr no_attr 1 81 sub no_str (Some 1))
    (Some [98]) false [] None None None false counted false 0.

Definition queue_one (l : all_jobs) (st : list Z) (h : user_info_holder) : pbs_queue :=
  Queue [98] QTYPE_Execution l l (zlen l) st h 0 false None None false 69 no_attr.

Definition server_one (j : job) : world :=
  let l := [Item [49] 1%nat] in
  let st := states_of actual {[1%nat := j]} l in
  World {[1%nat := j]} l l {[[98] := queue_one l st {[[117] := 1]}]} [[98]] 1 st {[[117] := 1]} 0 0
    {| display_job_server_suffix := None; job_suffix_alias := None; server_name := [104] |} [].

Lemma books_server_one st sub :
  0 <= st < Z.of_nat PBS_NUMJOBSTATE -> sub <> JOB_SUBSTATE_TRANSICM ->
  books actual actual (server_one (job_one st sub 17)).
Proof.
  intros Hst Hsub. set (j := job_one st sub 17).
  assert (forall bit u, has_flag 17 bit = true ->
    default 0 (({[[117] := 1]} : user_info_holder) !! u) = tally (counted bit u) {[1%nat := j]} [Item [49] 1%nat])
    as Hu.
  { intros bit u Hbit. simpl. unfold weigh. rewrite lookup_singleton_eq. unfold counted. simpl. rewrite Hbit. simpl.
    unfold user_info_holder. destruct (decide ([117] = u)) as [<-|Hne].
    - by rewrite lookup_singleton_eq, bool_decide_eq_true_2.
    - by rewrite lookup_singleton_ne, bool_decide_eq_false_2. }
  assert (table_ok {[1%nat := j]} [Item [49] 1%nat]) as Ht.
  { split; [by apply NoDup_singleton|]. intros i Hi%list_elem_of_singleton. subst i. exists j. by rewrite lookup_singleton_eq. }
  constructor; simpl; try done.
  - by intros p j' _ [<- <-]%lookup_singleton_Some.
  - intros u. by apply Hu.
  - intros q x [<- <-]%lookup_singleton_Some. constructor; simpl; try done.
    + by intros p j' _ [<- <-]%lookup_singleton_Some.
    + intros u. by apply Hu.
  - intros p j' q [<- <-]%lookup_singleton_Some [= <-]. eexists. split; [by rewrite lookup_singleton_eq|].
    intros _. simpl. split; apply list_elem_of_singleton; done.
  - intros p j' [<- <-]%lookup_singleton_Some _. by apply list_elem_of_singleton.
  - intros p j' [<- <-]%lookup_singleton_Some _. eauto.
  - by intros p j' [<- <-]%lookup_singleton_Some.
Qed.
