(* ===== verification/JobStates.v ===== *)
(** * Changing the state of a job

    [svr_setjobstate] moves a job from one state to another and keeps the counters of
    the server and of the job's queue in step.  With the queue's lock free it does: the
    books balance afterwards, the job has the new state and substate, and nothing else
    of the server has changed.  When the lock is taken the job is unlocked while the
    change is half done, and another thread's change is then counted twice. *)
From Stdlib Require Import ZArith Lia.
From stdpp Require Import base gmap option list.
From S2P Require Import Prelude CLib Attrs AttrVal AttrStr Container ContainerRefine ContainerSpec.
From S2P Require Import JobNames JobData JobServer JobBooks.

Local Open Scope Z_scope.
Local Open Scope st_scope.

(** ** What a change of state leaves alone *)

(** The members of a job that say who and where it is *)
Definition core (j : job) :=
  ((id_of j, ji_queue (ji_qs j), ji_qhdr j, ji_is_array_template j, ji_arraystructid j),
   (ji_parent_job j, ji_cray_clone j, ji_external_clone j, ji_being_recycled j),
   (a_job_owner (ji_wattr j), a_job_array_request (ji_wattr j), a_hold (ji_wattr j),
    a_exectime (ji_wattr j), a_depend_set (ji_wattr j), a_qrank (ji_wattr j))).

(** A queue without its counts *)
Definition no_counts (x : pbs_queue) : pbs_queue := set_qu_uih ∅ (set_qu_njstate [] x).

Record frame (p : jptr) (w w' : world) : Prop := {
  f_jobs r : r <> p -> w_jobs w' !! r = w_jobs w !! r;
  f_all : alljobs w' = alljobs w;
  f_summary : array_summary w' = array_summary w;
  f_svr_queues : svr_queues w' = svr_queues w;
  f_num : sv_numjobs w' = sv_numjobs w;
  f_ids : sv_ids w' = sv_ids w;
  f_queues q : no_counts <$> w_queues w' !! q = no_counts <$> w_queues w !! q
}.

#[export] Instance frame_preorder p : PreOrder (frame p).
Proof.
  split; [by constructor|]. intros w1 w2 w3 [] []. constructor; try congruence.
  intros r Hr. rewrite f_jobs1, f_jobs0; done.
Qed.

Lemma frame_put_job p j w : frame p w (put_job p j w).
Proof. constructor; try done. intros r Hr. simpl. by rewrite lookup_insert_ne. Qed.

Lemma frame_put_queue p q x x' w :
  w_queues w !! q = Some x -> no_counts x' = no_counts x -> frame p w (put_queue q x' w).
Proof.
  intros Hx E. constructor; try done. intros q'. simpl. destruct (decide (q' = q)) as [->|Hne].
  - rewrite lookup_insert_eq, Hx. simpl. by rewrite E.
  - by rewrite lookup_insert_ne.
Qed.

Lemma frame_recounted p w j c u h : frame p w (recounted w p j c u h).
Proof.
  unfold recounted. etrans; [|apply frame_put_job]. destruct u as [|q]; [done|].
  destruct (w_queues w !! q) as [x|] eqn:Hx; [|done]. by apply (frame_put_queue p q x).
Qed.

(** ** Half way through a change *)

(** The books count [p] under [sv] for the server and [sq] for its queue; [p] is what it
    was in [j0] in its [core], and [J] besides. *)
Record during (w0 : world) (p : jptr) (j0 : job) (sv sq : Z) (J : job -> Prop) (w : world) : Prop := {
  d_books : books (seen p sv) (seen p sq) w;
  d_frame : frame p w0 w;
  d_job : exists j, w_jobs w !! p = Some j /\ core j = core j0 /\ J j
}.

(** Counting a job that is in no table makes no difference. *)
Lemma tally_out P P' jobs l p :
  p ∉ ptrs l -> (forall r j, r <> p -> P' r j = P r j) -> tally P' jobs l = tally P jobs l.
Proof.
  intros Hp HP. apply tally_ext. intros r Hr. unfold weigh. destruct (jobs !! r); [|done].
  rewrite HP; [done|set_solver].
Qed.

Lemma states_out p a b jobs l : p ∉ ptrs l -> states_of (seen p a) jobs l = states_of (seen p b) jobs l.
Proof.
  intros Hp. unfold states_of. apply list_fmap_ext. intros _ k _. apply (tally_out _ _ _ _ p Hp).
  intros r j Hr. unfold seen. by rewrite !decide_False.
Qed.

Lemma books_out_server p a b vq w : p ∉ ptrs (alljobs w) -> books (seen p a) vq w -> books (seen p b) vq w.
Proof. intros Hp []. constructor; try done. by rewrite (states_out p b a). Qed.

Lemma books_out_queue p a b vs w j :
  w_jobs w !! p = Some j -> ji_qhdr j = None \/ ji_is_array_template j = true ->
  books vs (seen p a) w -> books vs (seen p b) w.
Proof.
  intros Hj Hout []. constructor; try done. intros q x Hx. destruct (b_queues q x Hx) as [Ht Hm Hn Hs Hu].
  constructor; try done. rewrite (states_out p b a); [done|]. intros Hin.
  destruct (Hm p j Hin Hj). destruct Hout; congruence.
Qed.

Section Steps.
Context (w0 : world) (p : jptr) (j0 : job).

Lemma core_facts j : core j = core j0 ->
  id_of j = id_of j0 /\ ji_qhdr j = ji_qhdr j0 /\ ji_is_array_template j = ji_is_array_template j0
  /\ a_job_owner (ji_wattr j) = a_job_owner (ji_wattr j0) /\ user_of j = user_of j0.
Proof. intros E. unfold core in E. unfold user_of. injection E. intros. repeat split; congruence. Qed.

Lemma during_get sv sq J {B} (k : job -> M B) R :
  (forall j, core j = core j0 -> J j -> hoare (during w0 p j0 sv sq J) (k j) R) ->
  hoare (during w0 p j0 sv sq J) (st_bind (get_job p) k) R.
Proof.
  intros Hk w Hw. destruct (d_job _ _ _ _ _ _ _ Hw) as (j & Hj & Hc & HJ).
  destruct (Hk j Hc HJ w Hw) as (b & w' & E & HR). exists b, w'. split; [|done].
  unfold st_bind, get_job. by rewrite Hj.
Qed.

Lemma during_get_eq sv sq J {B} (k : job -> M B) R :
  (forall j, core j = core j0 -> J j -> hoare (during w0 p j0 sv sq (eq j)) (k j) R) ->
  hoare (during w0 p j0 sv sq J) (st_bind (get_job p) k) R.
Proof.
  intros Hk w [Hb Hfr (j & Hj & Hc & HJ)]. destruct (Hk j Hc HJ w) as (b & w' & E & HR).
  { constructor; eauto. }
  exists b, w'. split; [|done]. unfold st_bind, get_job. by rewrite Hj.
Qed.

(** What does not touch the books, the tables or the jobs *)
Lemma during_modify sv sq J (f : world -> world) :
  (forall w, books (seen p sv) (seen p sq) w -> books (seen p sv) (seen p sq) (f w)) ->
  (forall w, w_jobs (f w) = w_jobs w /\ frame p w (f w)) ->
  hoare (during w0 p j0 sv sq J) (modify f) (fun _ => during w0 p j0 sv sq J).
Proof.
  intros Hb Hf. apply hoare_modify. intros w []. destruct (Hf w) as [Ej Hfr].
  constructor; [by apply Hb|by etrans|by rewrite Ej].
Qed.

Lemma during_emit sv sq J c :
  hoare (during w0 p j0 sv sq J) (emit c) (fun _ => during w0 p j0 sv sq J).
Proof. apply during_modify; [intros w []; by constructor|done]. Qed.

Lemma during_notify sv sq J c :
  hoare (during w0 p j0 sv sq J) (notify_scheduler c) (fun _ => during w0 p j0 sv sq J).
Proof.
  unfold notify_scheduler. eapply hoare_seq;
    (apply during_modify; [intros w []; by constructor|done]).
Qed.

(** A change of the job that the books do not read *)
Lemma during_upd sv sq J J' (f : job -> job) :
  (forall j, core (f j) = core j /\ st_of (f j) = st_of j /\ sub_of (f j) = sub_of j
             /\ ji_queue_counted (f j) = ji_queue_counted j) ->
  (forall j, J j -> J' (f j)) ->
  hoare (during w0 p j0 sv sq J) (upd_job p f) (fun _ => during w0 p j0 sv sq J').
Proof.
  intros Hf HJJ. apply hoare_upd_job. intros w [Hb Hfr (j & Hj & Hc & HJ)]. exists j. split; [done|].
  destruct (Hf j) as (Ec & Est & Esub & Ecnt). fold (put_job p (f j) w).
  assert (same_entry j (f j)) as Hse.
  { pose proof Ec as Ec'. unfold core in Ec'. injection Ec'. intros. constructor; unfold user_of; congruence. }
  constructor.
  - apply (books_put_job _ _ w p j (f j)); try done.
    + unfold seen. by rewrite !decide_True.
    + unfold seen. by rewrite !decide_True.
    + rewrite Est. by apply (b_range _ _ _ Hb p).
    + intros Hp. rewrite Esub. by apply (b_plain _ _ _ Hb p j).
  - etrans; [done|]. apply frame_put_job.
  - exists (f j). simpl. rewrite lookup_insert_eq. split; [done|]. split; [congruence|auto].
Qed.

(** The two operations of user_info.c on the job *)
Lemma during_decrement sv sq J u owner :
  own u j0 -> remove_server_suffix owner = user_of j0 -> (forall c j, J j -> J (recount c j)) ->
  hoare (during w0 p j0 sv sq J) (decrement_queued_jobs u owner p >>> st_ret tt)
    (fun _ => during w0 p j0 sv sq J).
Proof.
  intros Hown Ho Hrec w [Hb Hfr (j & Hj & Hc & HJ)].
  destruct (core_facts j Hc) as (_ & Eq & Et & _ & Eu).
  assert (own u j) as Hown'. { destruct u; [done|]. simpl in *. by rewrite Eq, Et. }
  destruct (decrement_run (seen p sv) (seen p sq) (seen_ok _ _) (seen_ok _ _) w [] p j u owner Hb Hj Hown')
    as (c & h & E & Hb' & _); [congruence|].
  exists tt, (recounted w p j c u h). split; [by rewrite (st_bind_ret _ _ _ _ _ E)|]. constructor; [done| |].
  - etrans; [done|]. apply frame_recounted.
  - exists (recount c j). split; [|auto]. unfold recounted. simpl. by rewrite lookup_insert_eq.
Qed.

Lemma during_placed sv sq J w :
  during w0 p j0 sv sq J w -> p ∈ ptrs (alljobs w0) ->
  books (seen p sv) (seen p sq) w /\ is_Some (w_jobs w !! p) /\ p ∈ ptrs (alljobs w)
  /\ (frame p w0 w /\ exists j, w_jobs w !! p = Some j /\ core j = core j0 /\ J j).
Proof. intros [Hb Hfr (j & Hj & Hc)] Hp. rewrite (f_all _ _ _ Hfr). eauto 10. Qed.

(** [if (!is_array_template) { sv_jobstates[a]--; sv_jobstates[b]++; }] *)
Lemma during_bump_server a b sq J :
  0 <= a < Z.of_nat PBS_NUMJOBSTATE -> 0 <= b < Z.of_nat PBS_NUMJOBSTATE ->
  ji_is_array_template j0 = true \/ p ∈ ptrs (alljobs w0) ->
  hoare (during w0 p j0 a sq J)
    (if ji_is_array_template j0 then st_ret tt else bump_jobstates a (-1) >>> bump_jobstates b 1)
    (fun _ => during w0 p j0 b sq J).
Proof.
  intros Ha Hb Hp. destruct (ji_is_array_template j0) eqn:Ht.
  - apply hoare_ret. intros w [Hbk Hfr (j & Hj & Hc & Hrest)]. constructor; [|done|eauto 10].
    apply (books_out_server p a b); [|done]. intros Hin. destruct (b_plain _ _ _ Hbk p j Hin Hj).
    destruct (core_facts j Hc) as (_ & _ & Et & _). congruence.
  - destruct Hp as [|Hp]; [done|].
    eapply hoare_post; [eapply hoare_pre; [intros w Hw; exact (during_placed _ _ _ w Hw Hp)|]|].
    + apply (hoare_bump_jobstates (seen p sq) p a b); try done. intros w s [Hfr Hj]. split; [|done].
      etrans; [done|by constructor].
    + intros _ w (Hbk & Hfr & Hj). by constructor.
Qed.

(** The same on the queue of the job *)
Lemma during_bump_queue q a b sv J :
  0 <= a < Z.of_nat PBS_NUMJOBSTATE -> 0 <= b < Z.of_nat PBS_NUMJOBSTATE ->
  ji_qhdr j0 = Some q -> ji_is_array_template j0 = false ->
  hoare (during w0 p j0 sv a J) (bump_njstate q a (-1) >>> bump_njstate q b 1)
    (fun _ => during w0 p j0 sv b J).
Proof.
  intros Ha Hb Hq Ht.
  eapply hoare_post; [eapply hoare_pre; [|apply (hoare_bump_njstate (seen p sv) p a b q
    (fun w => frame p w0 w /\ exists j, w_jobs w !! p = Some j /\ core j = core j0 /\ J j))]|];
    try done.
  - intros w [Hbk Hfr (j & Hj & Hc & Hrest)]. destruct (core_facts j Hc) as (_ & Eq & Et & _).
    split; [done|]. split; [|eauto 10]. exists j. split; [done|]. split; congruence.
  - intros w x s [Hfr Hj] Hx. split; [|done]. etrans; [done|]. by apply (frame_put_queue p q x).
  - intros _ w (Hbk & Hfr & Hj). by constructor.
Qed.

(** No queue counts the job: it may be counted anyhow. *)
Lemma during_no_queue a b sv J w :
  ji_qhdr j0 = None \/ ji_is_array_template j0 = true ->
  during w0 p j0 sv a J w -> during w0 p j0 sv b J w.
Proof.
  intros Hout [Hb Hfr (j & Hj & Hc & HJ)]. constructor; [|done|eauto].
  destruct (core_facts j Hc) as (_ & Eq & Et & _). apply (books_out_queue p a b _ w j Hj); [|done].
  by rewrite Eq, Et.
Qed.

Definition at_state (st sub : Z) (j : job) : Prop := st_of j = st /\ sub_of j = sub.

Lemma at_state_recount st sub c j : at_state st sub j -> at_state st sub (recount c j).
Proof. done. Qed.

Hint Resolve at_state_recount : books.

(** [upd_job] with a body that writes members outside [core], the state and the bits *)
Local Ltac frame_upd :=
  match goal with |- hoare (during _ _ _ _ _ ?J) _ _ => apply (during_upd _ _ J J); [done|auto] end.

Lemma during_release sv sq st sub newstate :
  hoare (during w0 p j0 sv sq (at_state st sub)) (release_node_allocation_if_needed p newstate)
    (fun _ => during w0 p j0 sv sq (at_state st sub)).
Proof.
  unfold release_node_allocation_if_needed. apply during_get. intros j Hc HJ. case_match; [|by apply hoare_ret].
  unfold release_node_allocation, free_nodes. eapply hoare_seq.
  - apply during_get. intros j1 Hc1 HJ1. eapply hoare_seq; [apply during_emit|]. frame_upd.
  - apply during_get. intros j2 Hc2 HJ2. cbv zeta. destruct (match at_val _ with Some _ => _ | None => _ end).
    + by apply hoare_ret.
    + frame_upd.
Qed.

Lemma during_get_queue sv sq J q {B} (k : pbs_queue -> M B) R :
  ji_qhdr j0 = Some q -> (forall x, hoare (during w0 p j0 sv sq J) (k x) R) ->
  hoare (during w0 p j0 sv sq J) (st_bind (get_queue q) k) R.
Proof.
  intros Hq Hk w Hw. destruct Hw as [Hb Hfr (j & Hj & Hc & HJ)] eqn:E0. clear E0.
  destruct (core_facts j Hc) as (_ & Eq & _). rewrite Hq in Eq.
  destruct (b_qhdr _ _ _ Hb p j q Hj Eq) as (x & Hx & _). destruct (Hk x w Hw) as (b & w' & E & HR).
  exists b, w'. split; [|done]. unfold st_bind, get_queue. by rewrite Hx.
Qed.

Lemma owner_user j : core j = core j0 -> remove_server_suffix (a_job_owner (ji_wattr j)) = user_of j0.
Proof. intros Hc. destruct (core_facts j Hc) as (_ & _ & _ & Eo & _). unfold user_of. by rewrite Eo. Qed.

Context (time_now : Z) (job_save_rc : jptr -> Z -> Z).

Lemma during_setjobstate_queue st sub newstate :
  0 <= st < Z.of_nat PBS_NUMJOBSTATE -> 0 <= newstate < Z.of_nat PBS_NUMJOBSTATE ->
  hoare (during w0 p j0 newstate st (at_state st sub))
    (setjobstate_queue time_now p (ji_qhdr j0) newstate)
    (fun _ => during w0 p j0 newstate newstate (at_state st sub)).
Proof.
  intros Hst Hns. unfold setjobstate_queue. apply during_get. intros j Hc [Est Esub]. rewrite Est.
  destruct (core_facts j Hc) as (_ & _ & -> & _). pose proof (owner_user j Hc) as Ho. cbv zeta.
  eapply hoare_seq.
  { instantiate (1 := during w0 p j0 newstate st (at_state st sub)).
    case_match; [by apply during_decrement; [| |eauto with books]|by apply hoare_ret]. }
  destruct (ji_qhdr j0) as [q|] eqn:Hq.
  2: { apply hoare_ret. intros w. apply during_no_queue. auto. }
  eapply (hoare_seq _ _ (during w0 p j0 newstate newstate (at_state st sub))).
  - destruct (ji_is_array_template j0) eqn:Ht; simpl.
    + apply hoare_ret. intros w. apply during_no_queue. auto.
    + apply hoare_assoc. eapply hoare_seq; [by apply during_bump_queue|].
      case_match; [|by apply hoare_ret]. apply during_decrement; simpl; eauto with books.
  - apply (during_get_queue _ _ _ q); [done|]. intros x. case_match.
    + eapply hoare_seq; [apply during_notify|]. case_match; [frame_upd|by apply hoare_ret].
    + case_match; [frame_upd|by apply hoare_ret].
Qed.

(** What [set_statechar] writes *)
Definition state_char (j : job) : Z :=
  if (st_of j =? JOB_STATE_RUNNING) && has_flag (ji_svrflags (ji_qs j)) JOB_SVFLG_Suspend then 83
  else nth (Z.to_nat (st_of j)) statechar 85.

(** The state and substate, and the attributes that show them *)
Definition settled (st sub : Z) (j : job) : Prop :=
  at_state st sub j /\ a_state (ji_wattr j) = state_char j /\ a_substate (ji_wattr j) = sub.

(** The state of the job becomes the one it is counted under. *)
Lemma during_set_state st sub newstate newsub :
  0 <= newstate < Z.of_nat PBS_NUMJOBSTATE -> newsub <> JOB_SUBSTATE_TRANSICM ->
  hoare (during w0 p j0 newstate newstate (at_state st sub)) (set_jobstate_basic p newstate newsub)
    (fun _ => during w0 p j0 newstate newstate (settled newstate newsub)).
Proof.
  intros Hns Hnsub. unfold set_jobstate_basic.
  eapply (hoare_seq _ _ (during w0 p j0 newstate newstate
    (fun j => at_state newstate newsub j /\ a_substate (ji_wattr j) = newsub))).
  - apply hoare_upd_job. intros w [Hb Hfr (j & Hj & Hc & HJ)]. exists j. split; [done|].
    set (j' := upd_attr _ _). fold (put_job p j' w). constructor.
    + apply (books_put_job _ _ w p j j'); try done; unfold seen; by rewrite !decide_True.
    + etrans; [done|]. apply frame_put_job.
    + exists j'. simpl. by rewrite lookup_insert_eq.
  - unfold set_statechar. apply during_get_eq. intros j Hc [[Est Esub] Ea].
    assert (forall c, c = state_char j ->
      hoare (during w0 p j0 newstate newstate (eq j)) (upd_job p (upd_attr (set_a_state c)))
        (fun _ => during w0 p j0 newstate newstate (settled newstate newsub))) as Hupd.
    { intros c ->. apply during_upd; [done|]. by intros _ <-. }
    rewrite Est. case_match eqn:Er; [apply Hupd; unfold state_char; by rewrite Est, Er|].
    rewrite (proj2 (Z.ltb_lt _ _)) by exact (proj2 Hns). rewrite (proj2 (Z.ltb_ge _ _)) by lia.
    apply Hupd. unfold state_char. rewrite Est, Er. apply nth_indep. simpl. unfold PBS_NUMJOBSTATE in Hns. lia.
Qed.

(** The end of [svr_setjobstate]: the new state is written and the job saved. *)
Lemma during_finish st sub newstate newsub changed :
  0 <= newstate < Z.of_nat PBS_NUMJOBSTATE -> newsub <> JOB_SUBSTATE_TRANSICM ->
  hoare (during w0 p j0 newstate newstate (at_state st sub))
    (setjobstate_finish time_now job_save_rc p newstate newsub changed)
    (fun rc w => (rc = PBSE_NONE \/ exists mode, rc = job_save_rc p mode)
                 /\ during w0 p j0 newstate newstate (settled newstate newsub) w).
Proof.
  intros Hns Hnsub. unfold setjobstate_finish. eapply hoare_seq; [by apply during_set_state|].
  apply (hoare_seq _ _ (during w0 p j0 newstate newstate (settled newstate newsub))).
  - destruct changed; [frame_upd|by apply hoare_ret].
  - unfold job_save. apply during_get. intros j Hc HJ.
    repeat case_match; [| |by apply hoare_ret; auto]; apply during_get; intros j1 _ _;
      (eapply hoare_seq; [apply during_emit|by apply hoare_ret; eauto]).
Qed.

(** The first half, the lock of the queue and the second half *)
Lemma during_change st sub newstate newsub (mutex : bool) :
  0 <= st < Z.of_nat PBS_NUMJOBSTATE -> 0 <= newstate < Z.of_nat PBS_NUMJOBSTATE ->
  newsub <> JOB_SUBSTATE_TRANSICM -> st <> newstate ->
  ji_is_array_template j0 = true \/ p ∈ ptrs (alljobs w0) ->
  hoare (during w0 p j0 st st (at_state st sub))
    (release_node_allocation_if_needed p newstate >>>
     (if ji_is_array_template j0 then st_ret tt
      else bump_jobstates st (-1) >>> bump_jobstates newstate 1) >>>
     let* (pque, lost) :=
       (if mutex then st_ret (ji_qhdr j0, false)
        else match ji_qhdr j0 with
             | None => st_ret (None, false)
             | Some _ => let* (pque, _) := get_jobs_queue p in
                         st_ret (pque, bool_decide (pque = None))
             end : M (option cstr * bool)) in
     if lost : bool then st_ret PBSE_UNKQUE
     else
       let* j' := get_job p in
       let changed := negb (sub_of j' =? newsub) in
       if st_of j' =? newstate then setjobstate_finish time_now job_save_rc p newstate newsub changed
       else
         setjobstate_queue time_now p pque newstate >>>
         setjobstate_finish time_now job_save_rc p newstate newsub true)
    (fun rc w => (rc = PBSE_NONE \/ exists mode, rc = job_save_rc p mode)
                 /\ during w0 p j0 newstate newstate (settled newstate newsub) w).
Proof.
  intros Hst Hns Hnsub Hne Hp. eapply hoare_seq; [apply during_release|].
  eapply hoare_seq; [by apply during_bump_server|].
  apply (hoare_bind _ _ (fun r w => r = (ji_qhdr j0, false) /\ during w0 p j0 newstate st (at_state st sub) w)).
  - destruct mutex; [by apply hoare_ret|]. destruct (ji_qhdr j0) as [q|] eqn:Hq; [|by apply hoare_ret].
    unfold get_jobs_queue, lock_queue_with_job_held.
    intros w Hw. destruct Hw as [Hb Hfr (j & Hj & Hc & HJ)] eqn:E0. clear E0.
    destruct (core_facts j Hc) as (_ & Eq & _). exists (Some q, false), w. split; [|done].
    unfold st_bind, get_job. rewrite Hj, Eq, Hq, Hj. done.
  - intros [pque lost]. apply hoare_pure. intros [= -> ->]. apply during_get. intros j' Hc [Est Esub].
    cbv zeta. rewrite Est, (proj2 (Z.eqb_neq _ _) Hne).
    eapply hoare_seq; [by apply during_setjobstate_queue|by apply during_finish].
Qed.

End Steps.

(** ** [svr_setjobstate] *)

(** The job is counted, or is one that the code does not count. *)
Definition placed (w : world) (p : jptr) (j : job) : Prop :=
  ji_is_array_template j = true \/ p ∈ ptrs (alljobs w) \/ sub_of j = JOB_SUBSTATE_TRANSICM.

Lemma during_start w p j : books actual actual w -> w_jobs w !! p = Some j ->
  during w p j (st_of j) (st_of j) (at_state (st_of j) (sub_of j)) w.
Proof.
  intros Hb Hj. constructor; [|done|by exists j].
  apply (books_views actual actual); [done| |]; by apply seen_actual.
Qed.

Lemma during_end w0 w p j0 st sub : during w0 p j0 st st (settled st sub) w ->
  books actual actual w /\ frame p w0 w
  /\ exists j, w_jobs w !! p = Some j /\ core j = core j0 /\ settled st sub j.
Proof.
  intros [Hb Hfr (j & Hj & Hc & [[Est Esub] Ha])]. split; [|split; [done|by exists j]].
  apply (books_views (seen p st) (seen p st)); [done| |]; subst st; intros r jr Hr; symmetry;
    by apply (seen_actual w p j Hj).
Qed.

(** A job that is still being created is in no table. *)
Lemma transicm_out w w' p j a b J :
  books actual actual w -> w_jobs w !! p = Some j -> sub_of j = JOB_SUBSTATE_TRANSICM ->
  during w p j a a J w' -> during w p j b b J w'.
Proof.
  intros Hb Hj Hsub Hd.
  assert (p ∉ ptrs (alljobs w)) as Hout. { intros Hin. by destruct (b_plain _ _ _ Hb p j Hin Hj). }
  apply (during_no_queue w p j a b).
  - destruct (ji_is_array_template j) eqn:Ht; [auto|]. left. destruct (ji_qhdr j) as [q|] eqn:Hq; [|done].
    destruct (b_qhdr _ _ _ Hb p j q Hj Hq) as (x & _ & Hm). by destruct (Hm Ht).
  - destruct Hd as [Hbk Hfr HJ]. constructor; [|done|done]. apply (books_out_server p a b); [|done].
    by rewrite (f_all _ _ _ Hfr).
Qed.

Lemma setjobstate_run time_now job_save_rc n w p j newstate newsub mutex :
  books actual actual w -> w_jobs w !! p = Some j -> ji_parent_job j = None -> placed w p j ->
  0 <= newstate < Z.of_nat PBS_NUMJOBSTATE -> newsub <> JOB_SUBSTATE_TRANSICM ->
  is_valid_state_transition j newstate newsub = true ->
  hoare (during w p j (st_of j) (st_of j) (eq j))
    (setjobstate time_now job_save_rc (S n) p newstate newsub mutex)
    (fun rc w' => (rc = PBSE_NONE \/ exists mode, rc = job_save_rc p mode)
                  /\ during w p j newstate newstate (settled newstate newsub) w').
Proof.
  intros Hb Hj Hpar Hp Hns Hnsub Hv. cbn [setjobstate]. apply during_get_eq. intros j' _ <-.
  assert (forall w', during w p j (st_of j) (st_of j) (eq j) w' ->
    during w p j (st_of j) (st_of j) (at_state (st_of j) (sub_of j)) w') as Hat.
  { intros w' [Hbk Hfr (j' & Hj' & Hc & <-)]. constructor; [done|done|by exists j]. }
  eapply hoare_pre; [exact Hat|].
  rewrite Hv, Hpar. simpl negb. cbv iota.
  destruct (Z.eqb_spec (sub_of j) JOB_SUBSTATE_TRANSICM) as [Hs|Hs].
  { eapply hoare_pre; [|by apply during_finish]. intros w'. by apply transicm_out. }
  destruct (Z.eqb_spec (st_of j) newstate) as [Est|Est].
  { rewrite Est. by apply during_finish. }
  apply during_change; try done.
  - by apply (b_range _ _ _ Hb p).
  - destruct Hp as [?|[?|?]]; auto.
Qed.

Lemma svr_setjobstate_run time_now job_save_rc w p j newstate newsub mutex :
  books actual actual w -> w_jobs w !! p = Some j -> ji_parent_job j = None -> placed w p j ->
  0 <= newstate < Z.of_nat PBS_NUMJOBSTATE -> newsub <> JOB_SUBSTATE_TRANSICM ->
  is_valid_state_transition j newstate newsub = true ->
  exists rc w', svr_setjobstate time_now job_save_rc (Some p) newstate newsub mutex (w, []) = Ret rc (w', [])
    /\ (rc = PBSE_NONE \/ exists mode, rc = job_save_rc p mode)
    /\ books actual actual w' /\ frame p w w'
    /\ exists j', w_jobs w' !! p = Some j' /\ core j' = core j /\ settled newstate newsub j'.
Proof.
  intros Hb Hj Hpar Hp Hns Hnsub Hv.
  destruct (setjobstate_run time_now job_save_rc (size (w_jobs w)) w p j newstate newsub mutex
    Hb Hj Hpar Hp Hns Hnsub Hv w) as (rc & w' & E & Hrc & Hd).
  { constructor; [|done|by exists j]. by destruct (during_start w p j Hb Hj). }
  exists rc, w'. split; [exact E|]. split; [done|]. by apply during_end.
Qed.

(** C6: [svr_setjobstate] keeps the books, for a job without a parent job and any substate but
    that of a commit in transit ([JOB_SUBSTATE_TRANSICM]).  When the transition is one it
    refuses, it says so and changes nothing; otherwise the job ends in the given state and
    substate, with the attributes that show them, the answer is that of saving the job,
    every counter is what counting the tables gives, and the other jobs, the tables, the
    queues but for their counts, and the job's id, queue, owner, holds, time, dependencies
    and rank are as before. *)
Theorem svr_setjobstate_books time_now job_save_rc w p j newstate newsub mutex :
  books actual actual w -> w_jobs w !! p = Some j -> ji_parent_job j = None -> placed w p j ->
  0 <= newstate < Z.of_nat PBS_NUMJOBSTATE -> newsub <> JOB_SUBSTATE_TRANSICM ->
  exists rc w', svr_setjobstate time_now job_save_rc (Some p) newstate newsub mutex (w, []) = Ret rc (w', [])
    /\ (if is_valid_state_transition j newstate newsub then
          (rc = PBSE_NONE \/ exists mode, rc = job_save_rc p mode)
          /\ books actual actual w' /\ frame p w w'
          /\ exists j', w_jobs w' !! p = Some j' /\ core j' = core j /\ settled newstate newsub j'
        else rc = PBSE_BAD_JOB_STATE_TRANSITION /\ w' = w).
Proof.
  intros Hb Hj Hpar Hp Hns Hnsub. destruct (is_valid_state_transition j newstate newsub) eqn:Hv.
  - by apply svr_setjobstate_run.
  - exists PBSE_BAD_JOB_STATE_TRANSITION, w. split; [|done].
    unfold svr_setjobstate, non_null, st_bind, gets. cbn [setjobstate]. unfold st_bind at 1, get_job at 1.
    by rewrite Hj, Hv.
Qed.

Lemma svr_setjobstate_books_witness :
  let w := server_one (job_one JOB_STATE_QUEUED JOB_SUBSTATE_QUEUED 17) in
  books actual actual w
  /\ exists rc w', svr_setjobstate 5 (fun _ _ => 0) (Some 1%nat) JOB_STATE_RUNNING 42 false (w, []) = Ret rc (w', [])
     /\ books actual actual w' /\ exists j', w_jobs w' !! 1%nat = Some j' /\ settled JOB_STATE_RUNNING 42 j'.
Proof.
  intros w. assert (books actual actual w) as Hb by (apply books_server_one; [unfold PBS_NUMJOBSTATE, JOB_STATE_QUEUED; lia|discriminate]).
  split; [exact Hb|].
  destruct (svr_setjobstate_books 5 (fun _ _ => 0) w 1%nat (job_one JOB_STATE_QUEUED JOB_SUBSTATE_QUEUED 17)
    JOB_STATE_RUNNING 42 false Hb) as (rc & w' & E & H).
  - vm_compute. reflexivity.
  - reflexivity.
  - right. left. apply list_elem_of_singleton. reflexivity.
  - unfold PBS_NUMJOBSTATE, JOB_STATE_RUNNING. lia.
  - discriminate.
  - exists rc, w'. split; [exact E|]. simpl in H. destruct H as (_ & Hb' & _ & j' & Hj & _ & Hs). eauto.
Defined.

(** ** Two threads *)

(** Another thread that starts the job, from beginning to end *)
Definition other_starts (w : world) : world :=
  match svr_setjobstate 5 (fun _ _ => 0) (Some 1%nat) JOB_STATE_RUNNING 42 false (w, []) with
  | Ret _ (w', _) => w'
  | _ => w
  end.

(** Two threads start the same queued job.  The first has counted the job as running
    when it waits for the queue, with the job unlocked; the second counts it again and
    writes the state; the first then sees that there is nothing left to do.  The server
    has one running job and counts two, and the queued jobs are -1. *)
Example contended_change_counts_twice :
  match svr_setjobstate 5 (fun _ _ => 0) (Some 1%nat) JOB_STATE_RUNNING 42 false
          (server_one (job_one JOB_STATE_QUEUED JOB_SUBSTATE_QUEUED 17), [Some other_starts]) with
  | Ret rc (w, _) =>
    (rc, sv_jobstates w, states_of actual (w_jobs w) (alljobs w), qu_njstate <$> w_queues w !! [98])
    = (PBSE_NONE, [0; -1; 0; 0; 2; 0; 0], [0; 0; 0; 0; 1; 0; 0], Some [0; 0; 0; 0; 1; 0; 0])
  | _ => False
  end.
Proof. vm_compute. reflexivity. Qed.

(** ** Where a job goes by itself *)

(** A job [svr_evaljobstate] leaves as it is: on its way out and not being rerun, or, unless
    the evaluation is forced, running or being moved. *)
Definition being_rerun (j : job) : bool :=
  is_case (sub_of j) [JOB_SUBSTATE_RERUN; JOB_SUBSTATE_RERUN1; JOB_SUBSTATE_RERUN2; JOB_SUBSTATE_RERUN3].
Definition busy (force : bool) (j : job) : Prop :=
  (JOB_STATE_EXITING <= st_of j /\ being_rerun j = false)
  \/ (force = false /\ (st_of j = JOB_STATE_RUNNING \/ st_of j = JOB_STATE_TRANSIT)).

#[export] Instance busy_dec force j : Decision (busy force j).
Proof. unfold busy. apply _. Defined.

Definition start_time (j : job) : Z := at_long (at_val (a_exectime (ji_wattr j))).

(** Where a job belongs: it keeps its place, or it is held exactly when it has a hold (the
    substate of a hold for a dependency is kept), waits exactly when it has none and its
    time has not come, and is queued otherwise, staged in or not. *)
Record belongs (time_now : Z) (force : bool) (j : job) (st sub : Z) : Prop := {
  bel_busy : busy force j -> st = st_of j /\ sub = sub_of j;
  bel_held : ~ busy force j -> (st = JOB_STATE_HELD <-> a_hold (ji_wattr j) <> 0);
  bel_waiting : ~ busy force j ->
    (st = JOB_STATE_WAITING <-> a_hold (ji_wattr j) = 0 /\ time_now < start_time j);
  bel_queued : ~ busy force j ->
    (st = JOB_STATE_QUEUED <-> a_hold (ji_wattr j) = 0 /\ start_time j <= time_now);
  bel_sub : ~ busy force j ->
    sub = if st =? JOB_STATE_HELD
          then if is_case (sub_of j) [JOB_SUBSTATE_SYNCHOLD; JOB_SUBSTATE_DEPNHOLD] then sub_of j else JOB_SUBSTATE_HELD
          else if st =? JOB_STATE_WAITING then JOB_SUBSTATE_WAITING
          else if negb (a_stagein_set (ji_wattr j)) then JOB_SUBSTATE_QUEUED
          else if has_flag (ji_svrflags (ji_qs j)) JOB_SVFLG_StagedIn then JOB_SUBSTATE_STAGECMP
          else JOB_SUBSTATE_PRESTAGEIN
}.

Lemma busy_eval time_now force j : busy force j -> svr_evaljobstate time_now j force = (st_of j, sub_of j).
Proof.
  unfold svr_evaljobstate, busy, being_rerun. intros [[Hst ->]|[-> Hst]].
  - by rewrite (proj2 (Z.leb_le _ _) Hst).
  - destruct (_ && _); [done|]. by destruct Hst as [-> | ->].
Qed.

Lemma idle_eval time_now force j : ~ busy force j ->
  svr_evaljobstate time_now j force =
    if negb (a_hold (ji_wattr j) =? 0) then
      (JOB_STATE_HELD, if is_case (sub_of j) [JOB_SUBSTATE_SYNCHOLD; JOB_SUBSTATE_DEPNHOLD] then sub_of j else JOB_SUBSTATE_HELD)
    else if time_now <? start_time j then (JOB_STATE_WAITING, JOB_SUBSTATE_WAITING)
    else (JOB_STATE_QUEUED, if negb (a_stagein_set (ji_wattr j)) then JOB_SUBSTATE_QUEUED
      else if has_flag (ji_svrflags (ji_qs j)) JOB_SVFLG_StagedIn then JOB_SUBSTATE_STAGECMP else JOB_SUBSTATE_PRESTAGEIN).
Proof.
  unfold busy, svr_evaljobstate, start_time. fold (being_rerun j). intros Hn.
  destruct (Z.leb_spec JOB_STATE_EXITING (st_of j)), (being_rerun j); cbn [negb andb]; try (by exfalso; auto).
  all: destruct force; cbn [negb andb]; [|destruct (Z.eqb_spec (st_of j) JOB_STATE_RUNNING),
    (Z.eqb_spec (st_of j) JOB_STATE_TRANSIT); cbn [orb]; try (by exfalso; auto)].
  all: unfold is_case; cbn [existsb]; rewrite orb_false_r; by destruct (a_stagein_set (ji_wattr j)).
Qed.

Lemma eval_belongs time_now j force st sub :
  svr_evaljobstate time_now j force = (st, sub) -> belongs time_now force j st sub.
Proof.
  intros E. constructor; intros Hbz.
  1: rewrite (busy_eval _ _ _ Hbz) in E; by injection E.
  all: rewrite (idle_eval _ _ _ Hbz) in E;
    destruct (Z.eqb_spec (a_hold (ji_wattr j)) 0), (Z.ltb_spec time_now (start_time j));
    cbn [negb] in E; injection E as <- <-;
    unfold JOB_STATE_HELD, JOB_STATE_WAITING, JOB_STATE_QUEUED; try split; try lia; try done.
Qed.

(** The server refuses no job where [svr_evaljobstate] sends it. *)
Lemma eval_admissible time_now j force st sub :
  0 <= st_of j < Z.of_nat PBS_NUMJOBSTATE -> sub_of j <> JOB_SUBSTATE_TRANSICM ->
  svr_evaljobstate time_now j force = (st, sub) ->
  0 <= st < Z.of_nat PBS_NUMJOBSTATE /\ sub <> JOB_SUBSTATE_TRANSICM /\ is_valid_state_transition j st sub = true.
Proof.
  intros Hr Ht. unfold svr_evaljobstate, is_valid_state_transition, is_case. cbn [existsb].
  repeat case_match; intros [= <- <-]; (split; [(done || (split; done))|]); (split; [done|]);
    rewrite ?andb_false_r; cbn [negb andb];
    repeat match goal with
    | |- context [st_of j =? ?c] => destruct (Z.eqb_spec (st_of j) c) as [Ex|]
    | |- context [sub_of j =? ?c] => destruct (Z.eqb_spec (sub_of j) c) as [Ey|]
    end; try done; rewrite ?Ex, ?Ey in *; try done.
Qed.

(** The state a job belongs in depends on nothing that a change of state touches. *)
Lemma eval_again time_now force j j' st sub :
  svr_evaljobstate time_now j force = (st, sub) -> core j' = core j -> at_state st sub j' ->
  fst (svr_evaljobstate time_now j' force) = st.
Proof.
  intros E Hc [Est Esub].
  assert (a_hold (ji_wattr j') = a_hold (ji_wattr j) /\ start_time j' = start_time j) as [Eh Ew].
  { unfold start_time. unfold core in Hc. injection Hc. intros. split; congruence. }
  destruct (decide (busy force j)) as [Hbz|Hbz].
  - rewrite (busy_eval _ _ _ Hbz) in E. injection E as <- <-.
    rewrite busy_eval; [exact Est|]. unfold busy, being_rerun. by rewrite Est, Esub.
  - rewrite (idle_eval _ _ _ Hbz) in E.
    assert (~ busy force j') as Hbz'.
    { unfold busy, JOB_STATE_EXITING, JOB_STATE_RUNNING, JOB_STATE_TRANSIT. rewrite Est.
      intros [[Hst _]|[_ Hst]]; repeat case_match; injection E as <- <-;
        unfold JOB_STATE_HELD, JOB_STATE_WAITING, JOB_STATE_QUEUED in Hst; lia. }
    rewrite (idle_eval _ _ _ Hbz'), Eh, Ew. repeat case_match; by injection E as <- _.
Qed.

(** C28: A job of the server without a parent, evaluated and sent where [svr_evaljobstate]
    says, forced or not, gets there: the change is not refused and the books balance.  A
    job on its way out (and not being rerun) and, unless forced, one that runs or is being
    moved stays as it is; any other is held exactly when it has a hold, waits exactly when
    it has none and its time has not come, and is queued otherwise, with the substate that
    goes with it; evaluated again it is sent nowhere else. *)
Theorem evaluated_job_settles time_now job_save_rc w p j force mutex :
  books actual actual w -> w_jobs w !! p = Some j -> ji_parent_job j = None -> p ∈ ptrs (alljobs w) ->
  exists rc w' j' st sub, svr_evaljobstate time_now j force = (st, sub)
    /\ svr_setjobstate time_now job_save_rc (Some p) st sub mutex (w, []) = Ret rc (w', [])
    /\ belongs time_now force j st sub
    /\ books actual actual w' /\ frame p w w' /\ w_jobs w' !! p = Some j' /\ settled st sub j'
    /\ fst (svr_evaljobstate time_now j' force) = st.
Proof.
  intros Hb Hj Hpar Hp. destruct (svr_evaljobstate time_now j force) as [st sub] eqn:E.
  destruct (eval_admissible _ _ _ _ _ (b_range _ _ _ Hb p j Hj) (proj2 (b_plain _ _ _ Hb p j Hp Hj)) E) as (Hr & Ht & Hv).
  destruct (svr_setjobstate_run time_now job_save_rc w p j st sub mutex Hb Hj Hpar) as
    (rc & w' & Er & _ & Hb' & Hf & j' & Hj' & Hc & Hs); [right; by left|done..|].
  exists rc, w', j', st, sub. split; [done|]. split; [exact Er|]. split; [by apply eval_belongs|].
  do 4 (split; [done|]). destruct Hs as [Hat _]. by eapply eval_again.
Qed.

Lemma evaluated_job_settles_witness :
  let w := server_one (job_one JOB_STATE_EXITING JOB_SUBSTATE_RERUN1 17) in
  exists rc w', svr_setjobstate 5 (fun _ _ => 0) (Some 1%nat) JOB_STATE_QUEUED JOB_SUBSTATE_QUEUED false (w, []) = Ret rc (w', [])
    /\ books actual actual w'.
Proof.
  intros w. assert (books actual actual w) as Hb
    by (apply books_server_one; [unfold PBS_NUMJOBSTATE, JOB_STATE_EXITING; lia|discriminate]).
  destruct (evaluated_job_settles 5 (fun _ _ => 0) w 1%nat (job_one JOB_STATE_EXITING JOB_SUBSTATE_RERUN1 17) false false Hb)
    as (rc & w' & j' & st & sub & E & Er & _ & Hb' & _).
  - vm_compute. reflexivity.
  - reflexivity.
  - apply list_elem_of_singleton. reflexivity.
  - vm_compute in E. injection E as <- <-. exists rc, w'. split; [exact Er|exact Hb'].
Defined.

(** ** The end of a wait *)

(** The job as [job_wait_over] leaves it before it looks where the job goes *)
Definition wait_done (j : job) : job :=
  set_ji_modified true
    (upd_attr (fun a => set_a_exectime (free_null (a_exectime a)) a)
      (upd_qs (fun q => set_ji_svrflags (clear_flag (ji_svrflags q) JOB_SVFLG_HASWAIT) q) j)).

Lemma wait_done_eval time_now j :
  st_of j = JOB_STATE_WAITING -> a_hold (ji_wattr j) = 0 -> 0 <= time_now ->
  exists sub, svr_evaljobstate time_now (wait_done j) false = (JOB_STATE_QUEUED, sub)
    /\ (sub = JOB_SUBSTATE_QUEUED \/ sub = JOB_SUBSTATE_PRESTAGEIN \/ sub = JOB_SUBSTATE_STAGECMP).
Proof.
  intros Hst Hh Ht. unfold svr_evaljobstate.
  change (st_of (wait_done j)) with (st_of j). change (a_hold (ji_wattr (wait_done j))) with (a_hold (ji_wattr j)).
  rewrite Hst, Hh. simpl. change (at_long {| atsv_num := 0; atsv_shift := 0; atsv_units := 0 |}) with 0.
  rewrite (proj2 (Z.ltb_ge _ _)) by lia. repeat case_match; eauto.
Qed.

(** C17: A wait ends.  Woken before the time it waits for, which may have been put off in the
    meantime, a job without a parent job asks to be woken then and stays as it is; woken
    later, a waiting job that is not held, whose substate is not that of a completed one,
    becomes queued, with the books balanced. *)
Theorem job_wait_over_queues time_now job_save_rc w p j jobid :
  books actual actual w -> w_jobs w !! p = Some j -> ji_parent_job j = None -> p ∈ ptrs (alljobs w) ->
  st_of j = JOB_STATE_WAITING -> sub_of j <> JOB_SUBSTATE_COMPLETE -> a_hold (ji_wattr j) = 0 -> 0 <= time_now ->
  svr_find_job jobid true (w, []) = Ret (Some p) (w, []) ->
  let when := at_long (at_val (a_exectime (ji_wattr j))) in
  exists w', job_wait_over time_now job_save_rc (Some jobid) (w, []) = Ret tt (w', [])
    /\ if time_now <? when then w' = set_w_calls (w_calls w ++ [CSetTask when (id_of j)]) w
       else books actual actual w'
            /\ exists j' sub, w_jobs w' !! p = Some j' /\ settled JOB_STATE_QUEUED sub j'
               /\ is_set (a_exectime (ji_wattr j')) = false.
Proof.
  intros Hb Hj Hpar Hp Hst Hsub Hh Ht Hfind when. unfold job_wait_over.
  assert (forall w j, w_jobs w !! p = Some j -> get_job p (w, []) = Ret j (w, [])) as Hget.
  { intros w2 j2 E. unfold get_job. by rewrite E. }
  rewrite (st_bind_ret _ _ _ _ _ Hfind), (st_bind_ret _ _ _ _ _ (Hget w j Hj)). cbv zeta. fold when.
  destruct (time_now <? when); [by eexists|].
  set (w1 := put_job p (wait_done j) w).
  assert (upd_job p wait_done (w, []) = Ret tt (w1, [])) as E1 by (unfold upd_job; by rewrite Hj).
  assert (w_jobs w1 !! p = Some (wait_done j)) as Hj1 by apply lookup_insert_eq.
  assert (books actual actual w1) as Hb1.
  { apply (books_put_job _ _ w p j (wait_done j)); try done; [exact (b_range _ _ _ Hb p j Hj)|].
    intros _. exact (proj2 (b_plain _ _ _ Hb p j Hp Hj)). }
  rewrite (st_bind_ret _ _ _ _ _ E1), (st_bind_ret _ _ _ _ _ (Hget w1 _ Hj1)).
  change (st_of (wait_done j)) with (st_of j). rewrite Hst. change (JOB_STATE_WAITING <? JOB_STATE_RUNNING) with true. cbv iota.
  destruct (wait_done_eval time_now j Hst Hh Ht) as (sub & Eev & Hsubs). rewrite Eev.
  destruct (svr_setjobstate_run time_now job_save_rc w1 p (wait_done j) JOB_STATE_QUEUED sub false) as
    (rc & w2 & E2 & _ & Hb2 & _ & j2 & Hj2 & Hc2 & Hset); try done.
  - right. by left.
  - by destruct Hsubs as [-> | [-> | ->]].
  - unfold is_valid_state_transition. change (st_of (wait_done j)) with (st_of j).
    change (sub_of (wait_done j)) with (sub_of j). rewrite Hst.
    by rewrite (proj2 (Z.eqb_neq _ _) Hsub).
  - exists w2. split; [by rewrite (st_bind_ret _ _ _ _ _ E2)|]. split; [done|]. exists j2, sub. split; [done|]. split; [done|].
    assert (a_exectime (ji_wattr j2) = a_exectime (ji_wattr (wait_done j))) as ->.
    { unfold core in Hc2. injection Hc2. done. }
    simpl. unfold is_set, free_null. cbn [at_flags]. replace (Z.land _ ATR_VFLAG_SET) with 0; [done|].
    symmetry. apply (proj1 (Z.eqb_eq _ _)). pose proof (clear_flag_self (at_flags (a_exectime (ji_wattr j))) ATR_VFLAG_SET) as E.
    unfold has_flag, clear_flag in E. by apply negb_false_iff in E.
Qed.

Lemma job_wait_over_queues_witness :
  let w := server_one (job_one JOB_STATE_WAITING JOB_SUBSTATE_WAITING 17) in
  exists w', job_wait_over 5 (fun _ _ => 0) (Some [49]) (w, []) = Ret tt (w', [])
    /\ books actual actual w' /\ st_of <$> (w_jobs w' !! 1%nat) = Some JOB_STATE_QUEUED.
Proof.
  intros w. assert (books actual actual w) as Hb
    by (apply books_server_one; [unfold PBS_NUMJOBSTATE, JOB_STATE_WAITING; lia|discriminate]).
  destruct (job_wait_over_queues 5 (fun _ _ => 0) w 1%nat (job_one JOB_STATE_WAITING JOB_SUBSTATE_WAITING 17) [49] Hb)
    as (w' & E & H).
  - vm_compute. reflexivity.
  - reflexivity.
  - apply list_elem_of_singleton. reflexivity.
  - reflexivity.
  - discriminate.
  - reflexivity.
  - lia.
  - vm_compute. reflexivity.
  - exists w'. split; [exact E|]. simpl in H. destruct H as (Hb' & j' & sub & Hj' & [[Est _] _] & _).
    split; [exact Hb'|]. exact (eq_trans (f_equal (fmap st_of) Hj') (f_equal Some Est)).
Defined.
