(* ===== verification/JobQueues.v ===== *)
(** * Out of a queue, and the recount

    [svr_dequejob] takes a job out of its queue and of the server's table, with all the
    counts, and keeps the books; [correct_ct] makes the counts by state right whatever
    they were.  The lemmas on tables with one item more or less, and on running the
    steps with no other thread in the way, serve the way in as well. *)
From Stdlib Require Import ZArith Lia.
From stdpp Require Import base gmap option list.
From S2P Require Import Prelude CLib Attrs AttrVal AttrStr Container ContainerRefine ContainerSpec.
From S2P Require Import JobNames JobData JobServer JobBooks JobStates.

Local Open Scope Z_scope.
Local Open Scope st_scope.

(** ** One item more or less *)

Section Item.
Context (jobs : gmap jptr job) (p : jptr) (j : job) (l1 l2 : all_jobs).
Let it : item jptr := Item (id_of j) p.

Lemma tally_insert P : tally P jobs (l1 ++ it :: l2) = tally P jobs (l1 ++ l2) + weigh P jobs p.
Proof. rewrite !tally_app. simpl. lia. Qed.

Lemma zlen_insert : zlen (l1 ++ it :: l2) = zlen (l1 ++ l2) + 1.
Proof. unfold zlen. rewrite !length_app. simpl. lia. Qed.

Lemma ptrs_insert r : r ∈ ptrs (l1 ++ it :: l2) <-> r = p \/ r ∈ ptrs (l1 ++ l2).
Proof. unfold ptrs. rewrite !fmap_app. simpl. set_solver. Qed.

Lemma ids_insert k : k ∈ ids (l1 ++ it :: l2) <-> k = id_of j \/ k ∈ ids (l1 ++ l2).
Proof. unfold ids. rewrite !fmap_app. simpl. set_solver. Qed.

Lemma table_drop : table_ok jobs (l1 ++ it :: l2) ->
  table_ok jobs (l1 ++ l2) /\ p ∉ ptrs (l1 ++ l2) /\ id_of j ∉ ids (l1 ++ l2).
Proof.
  intros Ht. pose proof (table_ptrs _ _ Ht) as Hp. destruct Ht as [Hnd Hj].
  unfold ids, ptrs in *. rewrite !fmap_app in *. simpl in *.
  apply NoDup_app in Hnd as (? & ? & ?). apply NoDup_app in Hp as (? & ? & ?).
  repeat match goal with H : NoDup (_ :: _) |- _ => apply NoDup_cons in H as [? ?] end.
  split; [split|set_solver].
  - unfold ids. rewrite fmap_app. apply NoDup_app. set_solver.
  - intros i Hi. apply Hj. set_solver.
Qed.

Lemma table_insert : table_ok jobs (l1 ++ l2) -> jobs !! p = Some j -> id_of j ∉ ids (l1 ++ l2) ->
  table_ok jobs (l1 ++ it :: l2).
Proof.
  intros [Hnd Hj] Ep Hid. split.
  - unfold ids in *. rewrite fmap_app in *. simpl. apply NoDup_app in Hnd as (? & ? & ?).
    apply NoDup_app. split; [done|]. split; [set_solver|]. apply NoDup_cons. set_solver.
  - intros i Hi. assert (i = it \/ i ∈ l1 ++ l2) as [->|Hi'] by set_solver; [by exists j|auto].
Qed.

End Item.

(** A job that is in no list weighs on none. *)
Lemma tally_off P jobs p j l : p ∉ ptrs l -> tally P (<[p := j]> jobs) l = tally P jobs l.
Proof. intros Hp. apply tally_ext. intros r Hr. unfold weigh. rewrite lookup_insert_ne; [done|set_solver]. Qed.

Lemma states_off v jobs p j l : p ∉ ptrs l -> states_of v (<[p := j]> jobs) l = states_of v jobs l.
Proof. intros Hp. unfold states_of. apply list_fmap_ext. intros _ k _. by apply tally_off. Qed.

Lemma table_off jobs p j l : p ∉ ptrs l -> table_ok jobs l -> table_ok (<[p := j]> jobs) l.
Proof.
  intros Hp Ht. apply (table_ok_jobs jobs); [done|]. intros r jr Hr Er. exists jr.
  rewrite lookup_insert_ne; [done|set_solver].
Qed.

(** The count by state of a list with one job less or more *)
Lemma bump_drop jobs p j l1 l2 :
  jobs !! p = Some j -> 0 <= st_of j < Z.of_nat PBS_NUMJOBSTATE ->
  bump (st_of j) (-1) (states_of actual jobs (l1 ++ Item (id_of j) p :: l2))
  = Some (states_of actual jobs (l1 ++ l2)).
Proof.
  intros Hj Hst. apply bump_fmap; [done|]. intros k. rewrite tally_insert. unfold weigh. rewrite Hj.
  unfold actual. destruct (Z.eqb_spec (st_of j) (Z.of_nat k)); case_decide; lia.
Qed.

Lemma bump_add jobs p j l1 l2 :
  jobs !! p = Some j -> 0 <= st_of j < Z.of_nat PBS_NUMJOBSTATE ->
  bump (st_of j) 1 (states_of actual jobs (l1 ++ l2))
  = Some (states_of actual jobs (l1 ++ Item (id_of j) p :: l2)).
Proof.
  intros Hj Hst. apply bump_fmap; [done|]. intros k. rewrite tally_insert. unfold weigh. rewrite Hj.
  unfold actual. destruct (Z.eqb_spec (st_of j) (Z.of_nat k)); case_decide; lia.
Qed.

(** ** Out of the queue *)

Section Remove.
Context (w w' : world) (p : jptr) (j j' : job) (q : cstr) (x x' : pbs_queue) (l1 l2 k1 k2 : all_jobs).
Hypothesis Hb : books actual actual w.
Hypothesis Hj : w_jobs w !! p = Some j.
Hypothesis Hq : ji_qhdr j = Some q.
Hypothesis Ht : ji_is_array_template j = false.
Hypothesis Hx : w_queues w !! q = Some x.
Hypothesis Hl : alljobs w = l1 ++ Item (id_of j) p :: l2.
Hypothesis Hk : qu_jobs x = k1 ++ Item (id_of j) p :: k2.
Hypothesis Hbits : forall u, has_flag (ji_queue_counted j) (uih_bit u) = false.

Hypothesis Ej : w_jobs w' = <[p := j']> (w_jobs w).
Hypothesis Ej' : ji_qhdr j' = None /\ ji_queue_counted j' = ji_queue_counted j /\ st_of j' = st_of j.
Hypothesis El : alljobs w' = l1 ++ l2.
Hypothesis En : sv_numjobs w' = sv_numjobs w - 1.
Hypothesis Es : sv_jobstates w' = states_of actual (w_jobs w) (l1 ++ l2).
Hypothesis Eu : users w' = users w.
Hypothesis Eq : w_queues w' = <[q := x']> (w_queues w).
Hypothesis Ex : qu_jobs x' = k1 ++ k2 /\ qu_numjobs x' = qu_numjobs x - 1
  /\ qu_njstate x' = states_of actual (w_jobs w) (k1 ++ k2) /\ qu_uih x' = qu_uih x.

Lemma removed_job r jr : w_jobs w' !! r = Some jr -> (r = p /\ jr = j') \/ (r <> p /\ w_jobs w !! r = Some jr).
Proof. rewrite Ej. apply insert_cases. Qed.

Lemma weigh_removed u v : weigh (counted (uih_bit u) v) (w_jobs w) p = 0.
Proof. unfold weigh, counted. by rewrite Hj, Hbits. Qed.

Lemma queue_removed : queue_ok actual (w_jobs w') q x'.
Proof.
  destruct (b_queues _ _ _ Hb q x Hx) as [Htq Hmq Hnq Hsq Huq]. destruct Ex as (Ek & Enq & Esq & Euq).
  rewrite Hk in *. destruct (table_drop _ _ _ _ _ Htq) as (Hdrop & Hp & Hid).
  constructor; rewrite ?Ek, ?Ej.
  - by apply table_off.
  - intros r jr Hin Hr. rewrite lookup_insert_ne in Hr by set_solver. apply (Hmq r); [|done].
    apply ptrs_insert. auto.
  - rewrite Enq, Hnq, zlen_insert. lia.
  - rewrite Esq. by rewrite states_off.
  - intros u. rewrite Euq, Huq, tally_insert, tally_off by done. rewrite (weigh_removed (QueueUih q)). lia.
Qed.

Lemma books_removed : books actual actual w'.
Proof.
  destruct Ej' as (Eh' & Ec' & Est'). pose proof queue_removed as Hqx.
  pose proof (b_all _ _ _ Hb) as Hall. rewrite Hl in Hall. destruct (table_drop _ _ _ _ _ Hall) as (Hdrop & Hp & Hid).
  constructor; rewrite ?El, ?Ej, ?En, ?Eu.
  - by apply table_off.
  - intros r jr Hin Hr. rewrite lookup_insert_ne in Hr by set_solver. apply (b_plain _ _ _ Hb r); [|done].
    rewrite Hl. apply ptrs_insert. auto.
  - pose proof (b_bound _ _ _ Hb) as Hbd. rewrite Hl, zlen_insert in Hbd. lia.
  - rewrite (b_num _ _ _ Hb), Hl, zlen_insert. lia.
  - rewrite Es. by rewrite states_off.
  - intros u. rewrite (b_users _ _ _ Hb), Hl, tally_insert, tally_off by done. rewrite (weigh_removed Users). lia.
  - intros q' y. rewrite Eq. destruct (decide (q' = q)) as [->|Hne].
    + rewrite lookup_insert_eq. intros [= <-]. by rewrite <- Ej.
    + rewrite lookup_insert_ne by done. intros Hy. destruct (b_queues _ _ _ Hb q' y Hy) as [Htq Hmq Hnq Hsq Huq].
      assert (p ∉ ptrs (qu_jobs y)) as Hpy. { intros Hin. destruct (Hmq p j Hin Hj). congruence. }
      constructor; try done; [by apply table_off| |by rewrite states_off|intros u; by rewrite Huq, tally_off].
      intros r jr Hin Hr. rewrite lookup_insert_ne in Hr by set_solver. by apply (Hmq r).
  - intros r jr q' Hr Hqr. rewrite <- Ej in Hr. destruct (removed_job r jr Hr) as [[-> ->]|[Hne Hr']]; [congruence|].
    destruct (b_qhdr _ _ _ Hb r jr q' Hr' Hqr) as (y & Hy & Hm). rewrite Eq.
    assert (ji_is_array_template jr = false -> r ∈ ptrs (l1 ++ l2)) as Hin.
    { intros Htr. destruct (Hm Htr) as [_ Hin]. rewrite Hl in Hin. apply ptrs_insert in Hin as [?|?]; done. }
    destruct (decide (q' = q)) as [->|Hneq].
    + rewrite lookup_insert_eq. exists x'. split; [done|]. intros Htr. split; [|auto].
      destruct (Hm Htr) as [Hin' _]. simplify_eq. rewrite Hk in Hin'. destruct Ex as (-> & _).
      apply ptrs_insert in Hin' as [?|?]; done.
    + rewrite lookup_insert_ne by done. exists y. split; [done|]. intros Htr. destruct (Hm Htr). auto.
  - intros r jr Hr Hbit. rewrite <- Ej in Hr. destruct (removed_job r jr Hr) as [[-> ->]|[Hne Hr']].
    + pose proof (Hbits Users). simpl in *. congruence.
    + pose proof (b_global _ _ _ Hb r jr Hr' Hbit) as Hin. rewrite Hl in Hin. apply ptrs_insert in Hin as [?|?]; done.
  - intros r jr Hr Hbit. rewrite <- Ej in Hr. destruct (removed_job r jr Hr) as [[-> ->]|[Hne Hr']].
    + pose proof (Hbits (QueueUih q)). simpl in *. congruence.
    + by apply (b_inqueue _ _ _ Hb r jr).
  - intros r jr Hr. rewrite <- Ej in Hr. destruct (removed_job r jr Hr) as [[-> ->]|[Hne Hr']].
    + rewrite Est'. by apply (b_range _ _ _ Hb p).
    + by apply (b_range _ _ _ Hb r).
Qed.

End Remove.

(** *** Running the steps with no other thread in the way *)

Definition table_of (w : world) (t : table) : option all_jobs :=
  match t with
  | AllJobs => Some (alljobs w)
  | ArraySummary => Some (array_summary w)
  | QuJobs q => qu_jobs <$> w_queues w !! q
  | QuArraySum q => qu_jobs_array_sum <$> w_queues w !! q
  end.
Definition with_table (w : world) (t : table) (l : all_jobs) : world :=
  match t with
  | AllJobs => set_alljobs l w
  | ArraySummary => set_array_summary l w
  | QuJobs q => match w_queues w !! q with Some x => put_queue q (set_qu_jobs l x) w | None => w end
  | QuArraySum q =>
    match w_queues w !! q with Some x => put_queue q (set_qu_jobs_array_sum l x) w | None => w end
  end.

Lemma get_table_run w s t l : table_of w t = Some l -> get_table t (w, s) = Ret l (w, s).
Proof.
  destruct t as [| |q|q]; simpl; intros E; simplify_eq; try done;
    unfold st_bind, get_queue; by destruct (w_queues w !! q); simplify_eq/=.
Qed.
Lemma put_table_run w s t l l' : table_of w t = Some l -> put_table t l' (w, s) = Ret tt (with_table w t l', s).
Proof.
  destruct t as [| |q|q]; simpl; intros E; simplify_eq; try done;
    unfold upd_queue; by destruct (w_queues w !! q); simplify_eq/=.
Qed.
Lemma on_table_run w s t l o :
  table_of w t = Some l -> on_table t o (w, s) = Ret (spec o l).2 (with_table w t (spec o l).1, s).
Proof.
  intros E. unfold on_table. rewrite (st_bind_ret _ _ _ _ _ (get_table_run w s t l E)).
  destruct (spec o l) as [l' r]. by rewrite (st_bind_ret _ _ _ _ _ (put_table_run w s t l l' E)).
Qed.
Lemma get_job_run w s p j : w_jobs w !! p = Some j -> get_job p (w, s) = Ret j (w, s).
Proof. intros E. unfold get_job. by rewrite E. Qed.
Lemma get_queue_run w s q x : w_queues w !! q = Some x -> get_queue q (w, s) = Ret x (w, s).
Proof. intros E. unfold get_queue. by rewrite E. Qed.
Lemma upd_job_run w s p j f : w_jobs w !! p = Some j -> upd_job p f (w, s) = Ret tt (put_job p (f j) w, s).
Proof. intros E. unfold upd_job. by rewrite E. Qed.
Lemma upd_queue_run w s q x f : w_queues w !! q = Some x -> upd_queue q f (w, s) = Ret tt (put_queue q (f x) w, s).
Proof. intros E. unfold upd_queue. by rewrite E. Qed.

Lemma remove_job_run w t p j l :
  w_jobs w !! p = Some j -> table_of w t = Some l ->
  remove_job t (Some p) false (w, [])
  = Ret (if bool_decide (id_of j ∈ ids l) then PBSE_NONE else THING_NOT_FOUND)
        (with_table w t (l_remove (id_of j) l), []).
Proof.
  intros Hj Hl. unfold remove_job, non_null. rewrite (st_bind_ret _ _ _ _ _ (get_job_run w [] p j Hj)).
  unfold trylock, st_bind at 1. simpl. unfold st_bind at 1. simpl.
  rewrite (st_bind_ret _ _ _ _ _ (get_job_run w [] p j Hj)).
  rewrite (st_bind_ret _ _ _ _ _ (on_table_run w [] t l (ORemove (id_of j)) Hl)). simpl.
  by case_bool_decide.
Qed.

Section Dequeue.

(** The user counts, given up before the job leaves *)
Lemma deque_users_run w p j q x :
  books actual actual w -> w_jobs w !! p = Some j -> ji_qhdr j = Some q -> ji_is_array_template j = false ->
  (st_of j = JOB_STATE_COMPLETE -> forall u, has_flag (ji_queue_counted j) (uih_bit u) = false) ->
  exists w1 c,
    (if (qu_type x =? QTYPE_RoutePush) || negb (st_of j =? JOB_STATE_COMPLETE) then
       (if negb (st_of j =? JOB_STATE_COMPLETE)
        then decrement_queued_jobs Users (a_job_owner (ji_wattr j)) p >>> st_ret tt
        else st_ret tt) >>>
       decrement_queued_jobs (QueueUih q) (a_job_owner (ji_wattr j)) p >>> st_ret tt
     else st_ret tt) (w, []) = Ret tt (w1, [])
    /\ books actual actual w1 /\ frame p w w1 /\ w_jobs w1 !! p = Some (recount c j)
    /\ (forall u, has_flag c (uih_bit u) = false).
Proof.
  intros Hb Hj Hq Ht Hdone.
  assert (forall c h u, w_jobs (recounted w p j c u h) !! p = Some (recount c j)) as Hlook.
  { intros c h u. unfold recounted. simpl. by rewrite lookup_insert_eq. }
  destruct (Z.eqb_spec (st_of j) JOB_STATE_COMPLETE) as [Hst|Hst].
  - specialize (Hdone Hst). exists w, (ji_queue_counted j). rewrite recount_id. split; [|done].
    destruct (qu_type x =? QTYPE_RoutePush); simpl; [|done]. unfold st_bind at 1. simpl.
    unfold decrement_queued_jobs, st_bind, get_job. rewrite Hj.
    pose proof (Hdone (QueueUih q)) as Hbit. simpl in *. by rewrite Hbit.
  - rewrite orb_true_r. simpl.
    destruct (decrement_run actual actual actual_ok actual_ok w [] p j Users (a_job_owner (ji_wattr j)) Hb Hj)
      as (c1 & h1 & E1 & Hb1 & Hg1 & Ho1); [done|done|].
    set (w1 := recounted w p j c1 Users h1) in *.
    destruct (decrement_run actual actual actual_ok actual_ok w1 [] p (recount c1 j) (QueueUih q)
      (a_job_owner (ji_wattr j)) Hb1) as (c2 & h2 & E2 & Hb2 & Hg2 & Ho2); [apply Hlook|done|done|].
    set (w2 := recounted w1 p (recount c1 j) c2 (QueueUih q) h2) in *.
    exists w2, c2. split.
    { pose proof (st_bind_ret _ (fun _ => st_ret tt) _ _ _ E1) as E3.
      rewrite (st_bind_ret _ _ _ _ _ E3). by rewrite (st_bind_ret _ _ _ _ _ E2). }
    split; [done|]. split; [etrans; apply frame_recounted|]. split.
    + unfold w2, recounted. simpl. by rewrite lookup_insert_eq.
    + intros [|q']; simpl in *; [|done]. by rewrite Ho2.
Qed.

Lemma put_queue_put q x y w : put_queue q x (put_queue q y w) = put_queue q x w.
Proof. unfold put_queue, set_w_queues. simpl. by rewrite insert_insert_eq. Qed.

Lemma put_job_put p j j' w : put_job p j (put_job p j' w) = put_job p j w.
Proof. unfold put_job, set_w_jobs. simpl. by rewrite insert_insert_eq. Qed.

Lemma states_lookup v jobs l i :
  0 <= i < Z.of_nat PBS_NUMJOBSTATE ->
  exists n, states_of v jobs l !! Z.to_nat i = Some n /\ (n <? 0) = false.
Proof.
  intros Hi. unfold states_of. rewrite list_lookup_fmap, lookup_seq_lt by lia. eexists. split; [done|].
  apply Z.ltb_ge. apply tally_range.
Qed.

(** [--qu_njstate[i] < 0] and [--sv_jobstates[i] < 0] on counts that are right *)
Lemma drop_njstate_run w s q x i v jobs l :
  w_queues w !! q = Some x -> 0 <= i < Z.of_nat PBS_NUMJOBSTATE ->
  bump i (-1) (qu_njstate x) = Some (states_of v jobs l) ->
  drop_njstate q i (w, s) = Ret false (put_queue q (set_qu_njstate (states_of v jobs l) x) w, s).
Proof.
  intros Hx Hi E. unfold drop_njstate, bump_njstate, st_bind, get_queue. rewrite Hx, E. simpl.
  unfold upd_queue. rewrite Hx. simpl. rewrite lookup_insert_eq. simpl.
  destruct (states_lookup v jobs l i Hi) as (n & -> & En). simpl. by rewrite En.
Qed.

Lemma drop_jobstates_run w s i v jobs l :
  0 <= i < Z.of_nat PBS_NUMJOBSTATE -> bump i (-1) (sv_jobstates w) = Some (states_of v jobs l) ->
  drop_jobstates i (w, s) = Ret false (set_sv_jobstates (states_of v jobs l) w, s).
Proof.
  intros Hi E. unfold drop_jobstates, bump_jobstates, st_bind, gets. rewrite E. simpl.
  destruct (states_lookup v jobs l i Hi) as (n & -> & En). simpl. by rewrite En.
Qed.

(** The queue once the job has left *)
Definition left_queue (jobs : gmap jptr job) (x : pbs_queue) (id : cstr) (l : all_jobs) : pbs_queue :=
  set_qu_jobs_array_sum (l_remove id (qu_jobs_array_sum x))
    (set_qu_njstate (states_of actual jobs l) (set_qu_numjobs (qu_numjobs x - 1) (set_qu_jobs l x))).

(** The counts of the queue, once the job is off its list *)
Lemma deque_counts_run w p j q x k1 k2 :
  w_jobs w !! p = Some j -> 0 <= st_of j < Z.of_nat PBS_NUMJOBSTATE -> w_queues w !! q = Some x ->
  qu_numjobs x = zlen (k1 ++ Item (id_of j) p :: k2) ->
  qu_njstate x = states_of actual (w_jobs w) (k1 ++ Item (id_of j) p :: k2) ->
  (upd_queue q (fun x => set_qu_numjobs (qu_numjobs x - 1) x) >>>
   let* x := get_queue q in
   let* j := get_job p in
   let* neg := drop_njstate q (st_of j) in
   st_ret ((qu_numjobs x <? 0) || neg)) (w, [])
  = Ret false (put_queue q (set_qu_njstate (states_of actual (w_jobs w) (k1 ++ k2))
                              (set_qu_numjobs (qu_numjobs x - 1) x)) w, []).
Proof.
  intros Hj Hst Hx Hn Hs. rewrite (st_bind_ret _ _ _ _ _ (upd_queue_run w [] q x _ Hx)).
  set (x1 := set_qu_numjobs _ x). set (w1 := put_queue q x1 w).
  assert (w_queues w1 !! q = Some x1) as Hx1 by apply lookup_insert_eq.
  rewrite (st_bind_ret _ _ _ _ _ (get_queue_run w1 [] q x1 Hx1)).
  rewrite (st_bind_ret _ _ _ _ _ (get_job_run w1 [] p j Hj)).
  assert (bump (st_of j) (-1) (qu_njstate x1) = Some (states_of actual (w_jobs w) (k1 ++ k2))) as Ebump.
  { simpl. rewrite Hs. by apply bump_drop. }
  rewrite (st_bind_ret _ _ _ _ _ (drop_njstate_run w1 [] q x1 _ _ _ _ Hx1 Hst Ebump)).
  unfold w1. rewrite put_queue_put. simpl. rewrite (proj2 (Z.ltb_ge _ _)); [done|].
  rewrite Hn, zlen_insert. unfold zlen. lia.
Qed.

Lemma deque_queue_run w p j q :
  books actual actual w -> w_jobs w !! p = Some j -> ji_qhdr j = Some q -> ji_is_array_template j = false ->
  (st_of j = JOB_STATE_COMPLETE -> forall u, has_flag (ji_queue_counted j) (uih_bit u) = false) ->
  exists w1 c x k1 k2,
    books actual actual w1 /\ frame p w w1 /\ w_jobs w1 !! p = Some (recount c j)
    /\ (forall u, has_flag c (uih_bit u) = false)
    /\ w_queues w1 !! q = Some x /\ qu_jobs x = k1 ++ Item (id_of j) p :: k2
    /\ deque_queue p q (w, [])
       = Ret (inr false) (put_job p (set_ji_qhdr None (recount c j))
                            (put_queue q (left_queue (w_jobs w1) x (id_of j) (k1 ++ k2)) w1), []).
Proof.
  intros Hb Hj Hq Ht Hdone. destruct (b_qhdr _ _ _ Hb p j q Hj Hq) as (x0 & Hx0 & _).
  destruct (deque_users_run w p j q x0 Hb Hj Hq Ht Hdone) as (w1 & c & E1 & Hb1 & Hfr & Hj1 & Hc).
  destruct (b_qhdr _ _ _ Hb1 p _ q Hj1 Hq) as (x & Hx & Hm). destruct (Hm Ht) as [Hpq _].
  pose proof (b_queues _ _ _ Hb1 q x Hx) as Hqx. pose proof (q_table _ _ _ _ Hqx) as Htq.
  destruct (table_find _ _ _ _ Htq Hpq Hj1) as (k1 & k2 & Hk & Hk1).
  change (id_of (recount c j)) with (id_of j) in Hk, Hk1.
  exists w1, c, x, k1, k2. do 6 (split; [done|]).
  pose proof (b_range _ _ _ Hb1 p _ Hj1) as Hst. simpl in Hst.
  unfold deque_queue. rewrite (st_bind_ret _ _ _ _ _ (get_queue_run w [] q x0 Hx0)).
  rewrite (st_bind_ret _ _ _ _ _ (get_job_run w [] p j Hj)). cbv zeta.
  rewrite (st_bind_ret _ _ _ _ _ E1).
  assert (table_of w1 (QuJobs q) = Some (k1 ++ Item (id_of j) p :: k2)) as Etab by (simpl; by rewrite Hx, <- Hk).
  rewrite (st_bind_ret _ _ _ _ _ (remove_job_run w1 (QuJobs q) p _ _ Hj1 Etab)).
  rewrite bool_decide_eq_true_2 by (apply ids_insert; auto).
  cbn [with_table]. rewrite Hx. change (id_of (recount c j)) with (item_id (Item (id_of j) p)).
  rewrite (l_remove_at k1 k2 (Item (id_of j) p) Hk1).
  change (PBSE_NONE =? PBSE_JOBNOTFOUND) with false. change (PBSE_NONE =? PBSE_NONE) with true. cbv iota.
  set (x2 := set_qu_jobs (k1 ++ k2) x). set (w2 := put_queue q x2 w1).
  assert (w_queues w2 !! q = Some x2) as Hx2 by apply lookup_insert_eq.
  rewrite (st_bind_ret _ _ _ _ _ (deque_counts_run w2 p (recount c j) q x2 k1 k2 Hj1 Hst Hx2
    (eq_trans (q_num _ _ _ _ Hqx) (f_equal zlen Hk)) (eq_trans (q_states _ _ _ _ Hqx) (f_equal _ Hk)))).
  unfold w2 at 2. rewrite put_queue_put. set (x3 := set_qu_njstate _ _). set (w3 := put_queue q x3 w1).
  assert (table_of w3 (QuArraySum q) = Some (qu_jobs_array_sum x)) as Etab3 by (simpl; by rewrite lookup_insert_eq).
  rewrite (st_bind_ret _ _ _ _ _ (remove_job_run w3 (QuArraySum q) p _ _ Hj1 Etab3)).
  destruct (bool_decide _); cbn [with_table]; unfold w3; simpl (w_queues _); rewrite lookup_insert_eq, put_queue_put;
    (change (PBSE_NONE =? PBSE_JOBNOTFOUND) with false || change (THING_NOT_FOUND =? PBSE_JOBNOTFOUND) with false);
    cbv iota; by rewrite (st_bind_ret _ _ _ _ _ (upd_job_run (put_queue _ _ w1) [] p _ _ Hj1)).
Qed.

Lemma deque_server_run w p j l1 l2 :
  w_jobs w !! p = Some j -> ji_is_array_template j = false -> 0 <= st_of j < Z.of_nat PBS_NUMJOBSTATE ->
  alljobs w = l1 ++ Item (id_of j) p :: l2 -> id_of j ∉ ids l1 ->
  sv_numjobs w = zlen (alljobs w) ->
  bump (st_of j) (-1) (sv_jobstates w) = Some (states_of actual (w_jobs w) (l1 ++ l2)) ->
  deque_server p (w, [])
  = Ret (inr false) (set_sv_jobstates (states_of actual (w_jobs w) (l1 ++ l2))
                       (set_sv_numjobs (sv_numjobs w - 1) (set_alljobs (l1 ++ l2) w)), []).
Proof.
  intros Hj Ht Hst Hl Hl1 Hn Hs. unfold deque_server.
  rewrite (st_bind_ret _ _ _ _ _ (remove_job_run w AllJobs p j _ Hj (f_equal Some Hl))).
  rewrite bool_decide_eq_true_2 by (apply ids_insert; auto).
  change (PBSE_NONE =? PBSE_JOBNOTFOUND) with false. change (PBSE_NONE =? PBSE_NONE) with true. cbv iota.
  change (id_of j) with (item_id (Item (id_of j) p)) at 1. rewrite l_remove_at by done. cbn [with_table].
  set (w1 := set_alljobs _ w). rewrite (st_bind_ret _ _ _ _ _ (get_job_run w1 [] p j Hj)). rewrite Ht.
  set (w2 := set_sv_numjobs (sv_numjobs w - 1) w1).
  assert (modify (fun w => set_sv_numjobs (sv_numjobs w - 1) w) (w1, []) = Ret tt (w2, [])) as E2 by done.
  rewrite (st_bind_ret _ _ _ _ _ E2).
  assert (gets sv_numjobs (w2, []) = Ret (sv_numjobs w - 1) (w2, [])) as E3 by done.
  rewrite (st_bind_ret _ _ _ _ _ E3).
  rewrite (st_bind_ret _ _ _ _ _ (drop_jobstates_run w2 [] _ _ _ _ Hst Hs)).
  rewrite (proj2 (Z.ltb_ge _ _)); [done|]. rewrite Hn, Hl, zlen_insert. unfold zlen. lia.
Qed.

(** The job when it is out: in no queue and not counted, as it was otherwise *)
Definition out_of_queue (j j' : job) : Prop :=
  ji_qhdr j' = None /\ (forall u, has_flag (ji_queue_counted j') (uih_bit u) = false)
  /\ ji_qs j' = ji_qs j /\ a_job_owner (ji_wattr j') = a_job_owner (ji_wattr j).

Lemma svr_dequejob_run w p j q mutex :
  books actual actual w -> w_jobs w !! p = Some j -> ji_qhdr j = Some q -> ji_is_array_template j = false ->
  (st_of j = JOB_STATE_COMPLETE -> forall u, has_flag (ji_queue_counted j) (uih_bit u) = false) ->
  st_of j <> JOB_STATE_RUNNING ->
  exists w' j', svr_dequejob (Some p) mutex (w, []) = Ret PBSE_NONE (w', [])
    /\ books actual actual w' /\ w_jobs w' !! p = Some j' /\ out_of_queue j j'
    /\ (forall r, r <> p -> w_jobs w' !! r = w_jobs w !! r)
    /\ alljobs w' = l_remove (id_of j) (alljobs w).
Proof.
  intros Hb Hj Hq Ht Hdone Hrun.
  destruct (deque_queue_run w p j q Hb Hj Hq Ht Hdone)
    as (w1 & c & x & k1 & k2 & Hb1 & Hfr & Hj1 & Hc & Hx & Hk & E).
  pose proof (b_range _ _ _ Hb1 p _ Hj1) as Hst.
  destruct (b_qhdr _ _ _ Hb1 p _ q Hj1 Hq) as (x0 & Hx0 & Hm). destruct (Hm Ht) as [_ Hpall].
  destruct (table_find _ _ _ _ (b_all _ _ _ Hb1) Hpall Hj1) as (l1 & l2 & Hl & Hl1).
  change (id_of (recount c j)) with (id_of j) in Hl, Hl1. change (st_of (recount c j)) with (st_of j) in Hst.
  set (x2 := left_queue (w_jobs w1) x (id_of j) (k1 ++ k2)) in *.
  set (j2 := set_ji_qhdr None (recount c j)) in *.
  set (j3 := upd_attr (fun a => set_a_qtime (unset_flag (a_qtime a) (at_val (a_qtime a))) a) j2).
  set (w2 := put_job p j2 (put_queue q x2 w1)) in *.
  assert (alljobs w1 = alljobs w) as Eall by apply (f_all _ _ _ Hfr).
  destruct (table_drop (w_jobs w1) p (recount c j) l1 l2) as (_ & Hpl & _).
  { change (id_of (recount c j)) with (id_of j). rewrite <- Hl. apply (b_all _ _ _ Hb1). }
  set (w3 := set_w_calls (w_calls w1 ++ [CFreeDefaultResources (id_of j)]) (put_job p j3 (put_queue q x2 w1))).
  assert (deque_attributes p (w2, []) = Ret tt (w3, [])) as E3.
  { unfold deque_attributes. rewrite (st_bind_ret _ _ _ _ _ (upd_job_run w2 [] p j2 _ (lookup_insert_eq _ _ _))).
    unfold w2. rewrite put_job_put. by rewrite (st_bind_ret _ _ _ _ _ (get_job_run _ [] p j3 (lookup_insert_eq _ _ _))). }
  assert (w_jobs w3 !! p = Some j3) as Hj3 by apply lookup_insert_eq.
  assert (states_of actual (w_jobs w3) (l1 ++ l2) = states_of actual (w_jobs w1) (l1 ++ l2)) as Est
    by (by apply states_off).
  assert (bump (st_of j3) (-1) (sv_jobstates w3) = Some (states_of actual (w_jobs w3) (l1 ++ l2))) as Ebump.
  { rewrite Est. simpl. rewrite (b_states _ _ _ Hb1), Hl. by apply (bump_drop _ p (recount c j)). }
  pose proof (deque_server_run w3 p j3 l1 l2 Hj3 Ht Hst Hl Hl1 (b_num _ _ _ Hb1) Ebump) as E4.
  set (w4 := set_sv_jobstates _ _) in E4.
  set (w5 := set_listener_command SCH_SCHEDULE_TERM (set_svr_do_schedule SCH_SCHEDULE_TERM w4)).
  exists w5, j3. split; [|split; [|split; [done|split]]].
  - unfold svr_dequejob, non_null. rewrite (st_bind_ret _ _ _ _ _ (get_job_run w [] p j Hj)).
    rewrite (proj2 (Z.eqb_neq _ _) Hrun), andb_false_l. cbv iota.
    assert ((if mutex then @st_ret (world * sched) _ (ji_qhdr j, true) else get_jobs_queue p) (w, [])
      = Ret (Some q, true) (w, [])) as E0.
    { rewrite Hq. destruct mutex; [done|]. unfold get_jobs_queue, lock_queue_with_job_held, st_bind, get_job.
      by rewrite Hj, Hq, Hj. }
    rewrite (st_bind_ret _ _ _ _ _ E0). change (negb true) with false. rewrite bool_decide_eq_false_2, andb_false_r by done. cbv iota.
    rewrite (st_bind_ret _ _ _ _ _ E), (st_bind_ret _ _ _ _ _ E3), (st_bind_ret _ _ _ _ _ E4). done.
  - apply (books_removed w1 w5 p (recount c j) j3 q x x2 l1 l2 k1 k2); try done.
  - done.
  - split; [|by rewrite <- Eall, Hl; symmetry; apply (l_remove_at l1 l2 (Item (id_of j) p))].
    intros r Hr. simpl. rewrite lookup_insert_ne by done. by apply (f_jobs _ _ _ Hfr).
Qed.

End Dequeue.

(** C8: [svr_dequejob] refuses a running job and changes nothing.  Any other job that is in
    a queue, is no array template and, if completed, is not counted for its user any more
    ([aborted_transit_stays_counted] is one that is), leaves the queue and the server with
    every count in step: it is in no table of the books and counted nowhere, no count
    goes negative (so there is no recount), and no other job is touched. *)
Theorem svr_dequejob_books w p j q mutex :
  books actual actual w -> w_jobs w !! p = Some j -> ji_qhdr j = Some q -> ji_is_array_template j = false ->
  (st_of j = JOB_STATE_COMPLETE -> forall u, has_flag (ji_queue_counted j) (uih_bit u) = false) ->
  if decide (st_of j = JOB_STATE_RUNNING) then svr_dequejob (Some p) mutex (w, []) = Ret PBSE_BADSTATE (w, [])
  else exists w' j', svr_dequejob (Some p) mutex (w, []) = Ret PBSE_NONE (w', [])
    /\ books actual actual w' /\ w_jobs w' !! p = Some j' /\ out_of_queue j j'
    /\ (forall r, r <> p -> w_jobs w' !! r = w_jobs w !! r)
    /\ alljobs w' = l_remove (id_of j) (alljobs w).
Proof.
  intros Hb Hj Hq Ht Hdone. case_decide as Hrun; [|by apply (svr_dequejob_run w p j q)].
  unfold svr_dequejob, non_null. rewrite (st_bind_ret _ _ _ _ _ (get_job_run w [] p j Hj)). by rewrite Hrun, Ht.
Qed.

Lemma svr_dequejob_books_witness :
  let w := server_one (job_one JOB_STATE_QUEUED JOB_SUBSTATE_QUEUED 17) in
  exists w', svr_dequejob (Some 1%nat) false (w, []) = Ret PBSE_NONE (w', []) /\ books actual actual w' /\ alljobs w' = [].
Proof.
  intros w. assert (books actual actual w) as Hb
    by (apply books_server_one; [unfold PBS_NUMJOBSTATE, JOB_STATE_QUEUED; lia|discriminate]).
  destruct (svr_dequejob_books w 1%nat (job_one JOB_STATE_QUEUED JOB_SUBSTATE_QUEUED 17) [98] false Hb)
    as (w' & j' & E & Hb' & _ & _ & _ & Ha).
  - vm_compute. reflexivity.
  - reflexivity.
  - reflexivity.
  - discriminate.
  - exists w'. split; [exact E|]. split; [exact Hb'|]. rewrite Ha. vm_compute. reflexivity.
Defined.

(** A job that is being moved out of an execution queue when it is aborted: the change
    to completed does not give up the queue's count of its user's jobs, because the old
    state is in transit, and [svr_dequejob] does not either, because the job is
    completed.  The queue is empty and still counts a job of the user. *)
Example aborted_transit_stays_counted :
  match (svr_setjobstate 5 (fun _ _ => 0) (Some 1%nat) JOB_STATE_COMPLETE JOB_SUBSTATE_ABORT false >>>
         svr_dequejob (Some 1%nat) false) (server_one (job_one JOB_STATE_TRANSIT 5 17), []) with
  | Ret rc (w, _) =>
    (rc, (fun x => (qu_jobs x, qu_uih x !! [117])) <$> w_queues w !! [98], users w !! [117])
    = (PBSE_NONE, Some ([], Some 1), Some 0)
  | _ => False
  end.
Proof. vm_compute. reflexivity. Qed.

(** ** The recount *)

Section Recounting.
Context (jobs : gmap jptr job).

(** What [next_job] goes through: the jobs of a list that are not being recycled *)
Fixpoint live (l : all_jobs) : all_jobs :=
  match l with
  | [] => []
  | i :: l => match jobs !! item_ptr i with
              | Some j => if ji_being_recycled j then live l else i :: live l
              | None => live l
              end
  end.
(** The pointers of the list are good, and the states of the jobs are states. *)
Definition readable (l : all_jobs) : Prop :=
  forall i, i ∈ l -> exists j, jobs !! item_ptr i = Some j /\ 0 <= st_of j < Z.of_nat PBS_NUMJOBSTATE.

Lemma live_jobs_run w s l : w_jobs w = jobs -> readable l ->
  exists js, live_jobs (ptrs l) (w, s) = Ret js (w, s) /\ zlen js = zlen (live l)
    /\ forall l0, count_states js (states_of actual jobs l0) = Some (states_of actual jobs (l0 ++ live l)).
Proof.
  intros Ew. induction l as [|i l IH]; intros Hr; simpl.
  - exists []. split; [done|]. split; [done|]. intros l0. simpl. by rewrite app_nil_r.
  - destruct (Hr i) as (j & Hj & Hst); [set_solver|].
    destruct IH as (js & E & El & Ec); [intros i' Hi'; apply Hr; set_solver|].
    rewrite <- Ew in Hj. rewrite (st_bind_ret _ _ _ _ _ (get_job_run w s _ j Hj)), (st_bind_ret _ _ _ _ _ E).
    rewrite Ew in Hj. rewrite Hj. eexists. split; [done|]. destruct (ji_being_recycled j); [done|].
    split; [rewrite !zlen_cons; lia|]. intros l0. simpl.
    assert (bump (st_of j) 1 (states_of actual jobs l0) = Some (states_of actual jobs (l0 ++ [i]))) as ->.
    { apply bump_fmap; [done|]. intros k. rewrite tally_app. simpl. unfold weigh. rewrite Hj. unfold actual.
      destruct (Z.eqb_spec (st_of j) (Z.of_nat k)); case_decide; lia. }
    simpl. rewrite Ec, <- app_assoc. done.
Qed.

Definition recount_queue (x : pbs_queue) : pbs_queue :=
  if q_being_recycled x then x
  else set_qu_njstate (states_of actual jobs (live (qu_jobs x))) (set_qu_numjobs (zlen (live (qu_jobs x))) x).

(** The jobs the recount finds *)
Definition queued (qs : list cstr) (queues : gmap cstr pbs_queue) : all_jobs :=
  concat ((fun q => match queues !! q with
                    | Some x => if q_being_recycled x then [] else live (qu_jobs x)
                    | None => []
                    end) <$> qs).

Lemma queued_cons q qs queues x : queues !! q = Some x -> q_being_recycled x = false ->
  queued (q :: qs) queues = live (qu_jobs x) ++ queued qs queues.
Proof. intros Hx Hr. unfold queued. simpl. by rewrite Hx, Hr. Qed.

Lemma queued_insert qs queues q x : q ∉ qs -> queued qs (<[q := x]> queues) = queued qs queues.
Proof.
  intros Hq. unfold queued. f_equal. apply list_fmap_ext. intros i q' Hi. rewrite lookup_insert_ne; [done|].
  intros <-. apply Hq. by eapply list_elem_of_lookup_2.
Qed.

Lemma recount_queues_run qs w s n l0 :
  w_jobs w = jobs -> NoDup qs ->
  (forall q, q ∈ qs -> exists x, w_queues w !! q = Some x /\ readable (qu_jobs x)) ->
  exists w', recount_queues qs n (states_of actual jobs l0) (w, s)
      = Ret (n + zlen (queued qs (w_queues w)), states_of actual jobs (l0 ++ queued qs (w_queues w))) (w', s)
    /\ w' = set_w_queues (w_queues w') w
    /\ forall q, w_queues w' !! q = if decide (q ∈ qs) then recount_queue <$> w_queues w !! q else w_queues w !! q.
Proof.
  revert w n l0. induction qs as [|q qs IH]; intros w n l0 Ew Hnd Hqs; simpl.
  - exists w. split; [|split; [by destruct w|done]]. unfold queued. simpl. rewrite app_nil_r. by rewrite Z.add_0_r.
  - apply NoDup_cons in Hnd as [Hq Hnd]. destruct (Hqs q) as (x & Hx & Hr); [set_solver|].
    rewrite (st_bind_ret _ _ _ _ _ (get_queue_run w s q x Hx)).
    destruct (q_being_recycled x) eqn:Hrec.
    + destruct (IH w n l0 Ew Hnd) as (w' & E & Ew' & Eq'); [set_solver|]. exists w'. rewrite E. split; [|split; [done|]].
      * unfold queued. simpl. by rewrite Hx, Hrec.
      * intros q'. rewrite Eq'. destruct (decide (q' = q)) as [->|Hne].
        -- rewrite decide_False, decide_True by set_solver. rewrite Hx. simpl. unfold recount_queue. by rewrite Hrec.
        -- destruct (decide (q' ∈ qs)); [rewrite decide_True by set_solver|rewrite decide_False by set_solver]; done.
    + destruct (live_jobs_run w s (qu_jobs x) Ew Hr) as (js & Ejs & Elen & Ecnt).
      rewrite (st_bind_ret _ _ _ _ _ Ejs).
      change zero_counts with (states_of actual jobs []). rewrite !Ecnt. unfold st_lift.
      unfold st_bind at 1 2. cbn [st_ret]. simpl app.
      rewrite (st_bind_ret _ _ _ _ _ (upd_queue_run w s q x _ Hx)).
      set (x' := set_qu_njstate _ _). set (w1 := put_queue q x' w).
      destruct (IH w1 (n + zlen js) (l0 ++ live (qu_jobs x)) Ew Hnd) as (w' & E & Ew' & Eq').
      { intros q' Hq'. simpl. rewrite lookup_insert_ne; [|set_solver]. apply Hqs. set_solver. }
      exists w'. rewrite E. split; [|split].
      * simpl. rewrite queued_insert by done. rewrite (queued_cons q qs _ x Hx Hrec). rewrite Elen, <- app_assoc. do 2 f_equal.
        unfold zlen. rewrite length_app. lia.
      * rewrite Ew'. done.
      * intros q'. rewrite Eq'. simpl. destruct (decide (q' = q)) as [->|Hne].
        -- rewrite decide_False, decide_True by set_solver. rewrite lookup_insert_eq, Hx. simpl.
           unfold recount_queue. rewrite Hrec. unfold x'. by rewrite Elen.
        -- rewrite lookup_insert_ne by done.
           destruct (decide (q' ∈ qs)); [rewrite decide_True by set_solver|rewrite decide_False by set_solver]; done.
Qed.

End Recounting.

(** A queue without its counts of jobs and states *)
Definition no_states (x : pbs_queue) : pbs_queue := set_qu_njstate [] (set_qu_numjobs 0 x).

(** [w] is [w0] with any counts of jobs and states. *)
Record miscounted (w0 w : world) : Prop := {
  mc_jobs : w_jobs w = w_jobs w0;
  mc_all : alljobs w = alljobs w0;
  mc_users : users w = users w0;
  mc_svr_queues : svr_queues w = svr_queues w0;
  mc_queues q : no_states <$> w_queues w !! q = no_states <$> w_queues w0 !! q
}.

(** Nothing is being recycled, the list of queues is the queues, and every job that is
    counted is in a queue. *)
Record at_rest (w : world) : Prop := {
  ar_nodup : NoDup (svr_queues w);
  ar_queues q : q ∈ svr_queues w <-> is_Some (w_queues w !! q);
  ar_live q x : w_queues w !! q = Some x -> q_being_recycled x = false;
  ar_jobs p j : w_jobs w !! p = Some j -> ji_being_recycled j = false;
  ar_qhdr p j : w_jobs w !! p = Some j -> p ∈ ptrs (alljobs w) -> is_Some (ji_qhdr j)
}.

Lemma live_all jobs l :
  (forall p j, jobs !! p = Some j -> ji_being_recycled j = false) -> table_ok jobs l -> live jobs l = l.
Proof.
  intros Hlive [_ Hj]. induction l as [|i l IH]; simpl; [done|].
  destruct (Hj i) as (j & Ej & _); [set_solver|]. rewrite Ej, (Hlive _ _ Ej).
  f_equal. apply IH. intros i' Hi'. apply Hj. set_solver.
Qed.

Lemma tally_ptrs P jobs l l' : ptrs l ≡ₚ ptrs l' -> tally P jobs l = tally P jobs l'.
Proof.
  assert (forall l, tally P jobs l = foldr (fun p n => weigh P jobs p + n) 0 (ptrs l)) as Hf.
  { clear. induction l as [|i l IH]; simpl; [done|]. by rewrite IH. }
  intros Hp. rewrite !Hf. induction Hp; simpl; lia.
Qed.

Lemma queued_elem jobs qs queues r :
  (forall p j, jobs !! p = Some j -> ji_being_recycled j = false) ->
  (forall q x, queues !! q = Some x -> q_being_recycled x = false /\ table_ok jobs (qu_jobs x)) ->
  r ∈ ptrs (queued jobs qs queues) <-> exists q x, q ∈ qs /\ queues !! q = Some x /\ r ∈ ptrs (qu_jobs x).
Proof.
  intros Hlive Hq. induction qs as [|q qs IH]; [set_solver|].
  destruct (queues !! q) as [x|] eqn:Hx.
  - destruct (Hq q x Hx) as [Hr Ht]. rewrite (queued_cons jobs q qs queues x Hx Hr), (live_all jobs _ Hlive Ht).
    unfold ptrs in *. rewrite fmap_app, elem_of_app, IH. split.
    + intros [Hin|(q' & x' & ? & ? & ?)]; [exists q, x; set_solver|exists q', x'; set_solver].
    + intros (q' & x' & [->|Hq']%elem_of_cons & Hx' & Hin); [left; congruence|right; eauto].
  - unfold queued in *. simpl. rewrite Hx. simpl. rewrite IH. split.
    + intros (q' & x' & ? & ? & ?). exists q', x'. set_solver.
    + intros (q' & x' & [->|Hq']%elem_of_cons & Hx' & Hin); [congruence|eauto].
Qed.

Lemma queued_nodup w jobs qs :
  books actual actual w -> w_jobs w = jobs -> NoDup qs ->
  (forall p j, jobs !! p = Some j -> ji_being_recycled j = false) ->
  (forall q x, w_queues w !! q = Some x -> q_being_recycled x = false) ->
  NoDup (ptrs (queued jobs qs (w_queues w))).
Proof.
  intros Hb <- Hnd Hlive Hq.
  assert (forall q x, w_queues w !! q = Some x -> q_being_recycled x = false /\ table_ok (w_jobs w) (qu_jobs x)) as Hq'.
  { intros q x Hx. split; [by eapply Hq|]. apply (q_table _ _ _ _ (b_queues _ _ _ Hb q x Hx)). }
  induction Hnd as [|q qs Hin Hnd IH]; [constructor|].
  destruct (w_queues w !! q) as [x|] eqn:Hx.
  2: { unfold queued in *. simpl. by rewrite Hx. }
  destruct (Hq' q x Hx) as [Hr Ht]. rewrite (queued_cons _ q qs _ x Hx Hr), (live_all _ _ Hlive Ht).
  unfold ptrs at 1. rewrite fmap_app. apply NoDup_app. split; [by eapply table_ptrs|]. split; [|done].
  intros r Hr1 (q' & x' & Hq1 & Hx' & Hr2)%(queued_elem _ _ _ _ Hlive Hq').
  pose proof Hr1 as (i & Hi & <-)%ptrs_elem. destruct (t_jobs _ _ Ht i Hi) as (j & Hj & _).
  destruct (q_mem _ _ _ _ (b_queues _ _ _ Hb q x Hx) _ _ Hr1 Hj) as [E1 _].
  destruct (q_mem _ _ _ _ (b_queues _ _ _ Hb q' x' Hx') _ _ Hr2 Hj) as [E2 _]. congruence.
Qed.

Lemma queued_alljobs w : books actual actual w -> at_rest w ->
  ptrs (queued (w_jobs w) (svr_queues w) (w_queues w)) ≡ₚ ptrs (alljobs w).
Proof.
  intros Hb [Hnd Hqs Hql Hjl Hh].
  assert (forall q x, w_queues w !! q = Some x -> q_being_recycled x = false /\ table_ok (w_jobs w) (qu_jobs x)) as Hq'.
  { intros q x Hx. split; [by eapply Hql|]. apply (q_table _ _ _ _ (b_queues _ _ _ Hb q x Hx)). }
  apply NoDup_Permutation; [by apply queued_nodup|by eapply table_ptrs, b_all|].
  intros r. rewrite (queued_elem _ _ _ _ Hjl Hq'). split.
  - intros (q & x & _ & Hx & Hr). pose proof Hr as (i & Hi & <-)%ptrs_elem.
    destruct (Hq' q x Hx) as [_ Ht]. destruct (t_jobs _ _ Ht i Hi) as (j & Hj & _).
    destruct (q_mem _ _ _ _ (b_queues _ _ _ Hb q x Hx) _ _ Hr Hj) as [E1 E2].
    destruct (b_qhdr _ _ _ Hb _ _ _ Hj E1) as (y & _ & Hm). by apply Hm.
  - intros Hr. pose proof Hr as (i & Hi & <-)%ptrs_elem. destruct (t_jobs _ _ (b_all _ _ _ Hb) i Hi) as (j & Hj & _).
    destruct (Hh _ _ Hj Hr) as [q Eq]. destruct (b_qhdr _ _ _ Hb _ _ _ Hj Eq) as (x & Hx & Hm).
    exists q, x. split; [by apply Hqs|]. split; [done|]. apply Hm. by apply (b_plain _ _ _ Hb _ _ Hr Hj).
Qed.

(** Two queues that differ in their counts *)
Lemma no_states_inv (x x' : pbs_queue) : no_states x' = no_states x ->
  qu_jobs x' = qu_jobs x /\ qu_uih x' = qu_uih x /\ q_being_recycled x' = q_being_recycled x.
Proof. intros E. injection E. done. Qed.

Lemma miscounted_queue w0 w q x :
  miscounted w0 w -> w_queues w !! q = Some x ->
  exists x0, w_queues w0 !! q = Some x0 /\ no_states x = no_states x0.
Proof.
  intros Hm Hx. pose proof (mc_queues _ _ Hm q) as E. rewrite Hx in E.
  destruct (w_queues w0 !! q) as [x0|]; [|done]. exists x0. split; [done|]. simpl in E. congruence.
Qed.

Lemma queued_miscounted w0 w jobs qs : miscounted w0 w ->
  queued jobs qs (w_queues w) = queued jobs qs (w_queues w0).
Proof.
  intros Hm. unfold queued. f_equal. apply list_fmap_ext. intros _ q _. pose proof (mc_queues _ _ Hm q) as E.
  destruct (w_queues w !! q) as [x|], (w_queues w0 !! q) as [x0|]; try done. simpl in E.
  destruct (no_states_inv x0 x) as (-> & _ & ->); [congruence|done].
Qed.

(** A queue with right counts on the same lists *)
Lemma recount_queue_ok w0 q x x0 :
  books actual actual w0 -> w_queues w0 !! q = Some x0 -> no_states x = no_states x0 ->
  q_being_recycled x0 = false -> (forall p j, w_jobs w0 !! p = Some j -> ji_being_recycled j = false) ->
  no_states (recount_queue (w_jobs w0) x) = no_states x0
  /\ queue_ok actual (w_jobs w0) q (recount_queue (w_jobs w0) x).
Proof.
  intros Hb Hx0 E Hr Hlive. pose proof (b_queues _ _ _ Hb q x0 Hx0) as [Ht Hmem Hn Hs Hu].
  destruct (no_states_inv _ _ E) as (El & Eu & Er). unfold recount_queue. rewrite Er, Hr, El, (live_all _ _ Hlive Ht).
  split; [by rewrite <- E|]. constructor; simpl; rewrite ?El, ?Eu; done.
Qed.

(** Right counts on the same tables are the books again. *)
Lemma miscounted_books w0 w l :
  books actual actual w0 -> miscounted w0 w -> ptrs l ≡ₚ ptrs (alljobs w0) ->
  (forall q x, w_queues w !! q = Some x -> queue_ok actual (w_jobs w0) q x) ->
  sv_numjobs w = zlen l -> sv_jobstates w = states_of actual (w_jobs w0) l -> books actual actual w.
Proof.
  intros [] [Ej Ea Eu _ Eq] Hperm Hqq En Es. constructor; rewrite ?Ej, ?Ea, ?Eu, ?En, ?Es; try done.
  - unfold zlen. rewrite <- (length_fmap item_ptr l), <- (length_fmap item_ptr (alljobs w0)).
    f_equal. by apply Permutation_length.
  - unfold states_of. apply list_fmap_ext. intros _ k _. by apply tally_ptrs.
  - intros p j q Hj Hq. destruct (b_qhdr p j q Hj Hq) as (x0 & Hx0 & Hmem). specialize (Eq q). rewrite Hx0 in Eq.
    destruct (w_queues w !! q) as [x|]; [|done]. exists x. split; [done|]. simpl in Eq.
    by destruct (no_states_inv x0 x) as (-> & _); [congruence|].
Qed.

(** C15: [correct_ct] repairs: from counts of jobs and states that say anything, for the
    server and for the queues, it comes back to the books. *)
Theorem correct_ct_restores w0 w s :
  books actual actual w0 -> at_rest w0 -> miscounted w0 w ->
  exists w', correct_ct (w, s) = Ret tt (w', s) /\ books actual actual w' /\ miscounted w0 w'.
Proof.
  intros Hb Hrest Hm. pose proof (queued_alljobs w0 Hb Hrest) as Hperm. destruct Hrest as [Hnd Hqs Hql Hjl Hh].
  set (l := queued (w_jobs w0) (svr_queues w0) (w_queues w0)) in *.
  set (w1 := set_sv_numjobs 0 w).
  destruct (recount_queues_run (w_jobs w0) (svr_queues w) w1 s 0 []) as (w2 & E & Ew2 & Eq2).
  { apply (mc_jobs _ _ Hm). }
  { by rewrite (mc_svr_queues _ _ Hm). }
  { intros q Hq. rewrite (mc_svr_queues _ _ Hm) in Hq. apply Hqs in Hq as [x0 Hx0].
    pose proof (mc_queues _ _ Hm q) as Eq. rewrite Hx0 in Eq. change (w_queues w1) with (w_queues w).
    destruct (w_queues w !! q) as [x|]; [|done]. exists x. split; [done|]. simpl in Eq.
    destruct (no_states_inv x0 x) as (-> & _); [congruence|]. intros i Hi.
    destruct (t_jobs _ _ (q_table _ _ _ _ (b_queues _ _ _ Hb q x0 Hx0)) i Hi) as (j & Hj & _).
    exists j. split; [done|]. by apply (b_range _ _ _ Hb _ _ Hj). }
  change (w_queues w1) with (w_queues w) in *. rewrite (mc_svr_queues _ _ Hm), (queued_miscounted w0 w) in E by done.
  fold l in E. simpl in E.
  set (w' := set_sv_jobstates (states_of actual (w_jobs w0) l) (set_sv_numjobs (zlen l) w2)).
  assert (forall q, match w_queues w0 !! q with
                    | Some x0 => exists x, w_queues w2 !! q = Some x /\ no_states x = no_states x0
                                           /\ queue_ok actual (w_jobs w0) q x
                    | None => w_queues w2 !! q = None
                    end) as Hqq.
  { intros q. rewrite Eq2, (mc_svr_queues _ _ Hm). pose proof (mc_queues _ _ Hm q) as Eq.
    destruct (w_queues w0 !! q) as [x0|] eqn:Hx0.
    - destruct (w_queues w !! q) as [x|]; [|done]. rewrite decide_True by (by apply Hqs; eauto).
      eexists. split; [done|]. apply (recount_queue_ok w0 q x x0); eauto. simpl in Eq. congruence.
    - destruct (w_queues w !! q) as [x|]; [done|]. by case_decide. }
  assert (miscounted w0 w') as Hm'.
  { unfold w'. rewrite Ew2. destruct Hm. constructor; simpl; try done.
    intros q. specialize (Hqq q). destruct (w_queues w0 !! q); [|by rewrite Hqq]. destruct Hqq as (x & -> & Ens & _).
    simpl. by rewrite Ens. }
  exists w'. split; [|split; [|done]].
  - unfold correct_ct. assert (modify (set_sv_numjobs 0) (w, s) = Ret tt (w1, s)) as E1 by done.
    rewrite (st_bind_ret _ _ _ _ _ E1). assert (gets svr_queues (w1, s) = Ret (svr_queues w0) (w1, s)) as E2.
    { unfold gets. simpl. by rewrite (mc_svr_queues _ _ Hm). }
    rewrite (st_bind_ret _ _ _ _ _ E2), (st_bind_ret _ _ _ _ _ E). done.
  - apply (miscounted_books w0 w' l); try done. intros q x Hx. specialize (Hqq q).
    change (w_queues w') with (w_queues w2) in Hx. destruct (w_queues w0 !! q); [|congruence]. naive_solver.
Qed.

(** The server with one job, whose counts have gone astray *)
Lemma correct_ct_restores_witness :
  let w0 := server_one (job_one JOB_STATE_QUEUED JOB_SUBSTATE_QUEUED 17) in
  let w := set_sv_numjobs (-3) (set_sv_jobstates [9; 9; 9; 9; 9; 9; 9] w0) in
  exists w', correct_ct (w, []) = Ret tt (w', []) /\ books actual actual w'.
Proof.
  intros w0 w. assert (books actual actual w0) as Hb
    by (apply books_server_one; [unfold PBS_NUMJOBSTATE, JOB_STATE_QUEUED; lia|discriminate]).
  destruct (correct_ct_restores w0 w [] Hb) as (w' & E & Hb' & _).
  - constructor; simpl.
    + by apply NoDup_singleton.
    + intros q. rewrite list_elem_of_singleton. split.
      * intros ->. rewrite lookup_singleton_eq. eauto.
      * intros [x [<- _]%lookup_singleton_Some]. reflexivity.
    + intros q x [_ <-]%lookup_singleton_Some. reflexivity.
    + intros p j [_ <-]%lookup_singleton_Some. reflexivity.
    + intros p j [_ <-]%lookup_singleton_Some _. simpl. eauto.
  - constructor; reflexivity.
  - exists w'. split; [exact E|exact Hb'].
Defined.
