(* ===== verification/JobRank.v ===== *)
(** * Queues in the order of their ranks

    [insert_into_alljobs_by_rank] walks a queue from its end to the last job of a smaller
    rank and puts the job behind it: a queue in order stays in order. *)
From Stdlib Require Import ZArith Lia.
From stdpp Require Import base gmap option list sorting.
From S2P Require Import Prelude CLib Attrs AttrVal AttrStr Container ContainerRefine ContainerSpec.
From S2P Require Import JobNames JobData JobServer JobBooks JobStates JobQueues.

Local Open Scope Z_scope.
Local Open Scope st_scope.

Section Rank.
Context (jobs : gmap jptr job).
Implicit Types l : all_jobs.

Definition rank (i : item jptr) : Z :=
  match jobs !! item_ptr i with Some j => a_qrank (ji_wattr j) | None => 0 end.
Definition by_rank : all_jobs -> Prop := StronglySorted (fun a b => rank a <= rank b).

(** A list in order is cut by a rank into the smaller and the others. *)
Lemma by_rank_cut r l : by_rank l ->
  exists l1 l2, l = l1 ++ l2 /\ Forall (fun i => rank i < r) l1 /\ Forall (fun i => r <= rank i) l2.
Proof.
  induction 1 as [|i l Hs (l1 & l2 & -> & H1 & H2) Hi].
  - by exists [], [].
  - destruct (decide (rank i < r)).
    + exists (i :: l1), l2. auto.
    + exists [], (i :: l1 ++ l2). split; [done|]. split; [done|]. constructor; [lia|].
      eapply Forall_impl; [exact Hi|]. simpl. lia.
Qed.

Lemma by_rank_insert i l1 l2 :
  by_rank (l1 ++ l2) -> Forall (fun a => rank a <= rank i) l1 -> Forall (fun a => rank i <= rank a) l2 ->
  by_rank (l1 ++ i :: l2).
Proof.
  induction l1 as [|a l1 IH]; simpl; intros Hs H1 H2; [by constructor|].
  inversion Hs as [|? ? Hs' Ha]; subst. inversion H1; subst. constructor; [by apply IH|].
  apply Forall_app in Ha as [Ha1 Ha2]. apply Forall_app. auto.
Qed.

(** The walk from the end, in a list that does not have the job *)
Lemma rank_walk_run w s id r l1 l2 :
  w_jobs w = jobs -> table_ok jobs (l1 ++ l2) -> id ∉ ids (l1 ++ l2) ->
  Forall (fun i => rank i < r) l1 -> Forall (fun i => r <= rank i) l2 ->
  rank_walk id r (ptrs (reverse (l1 ++ l2))) (w, s)
  = Ret (match last l1 with Some i => RAfter (item_ptr i) | None => RFirst end) (w, s).
Proof.
  intros Ew Ht Hid H1. induction l2 as [|i l2 IH] using rev_ind; intros H2.
  - rewrite app_nil_r in *. destruct l1 as [|i l1 _] using rev_ind; [done|].
    rewrite reverse_snoc, last_snoc. unfold ptrs. simpl.
    destruct (t_jobs _ _ Ht i) as (j & Hj & _); [set_solver|]. apply Forall_app in H1 as [_ H1].
    inversion H1 as [|? ? Hr _]; subst. unfold rank in Hr. rewrite Hj in Hr.
    rewrite (st_bind_ret _ _ _ _ _ (get_job_run w s _ j (eq_trans (f_equal _ Ew) Hj))). by rewrite (proj2 (Z.ltb_lt _ _) Hr).
  - rewrite app_assoc in *. rewrite reverse_snoc. unfold ptrs. simpl.
    destruct (t_jobs _ _ Ht i) as (j & Hj & Hji); [set_solver|]. apply Forall_app in H2 as [H2 Hi].
    inversion Hi as [|? ? Hr _]; subst. unfold rank in Hr. rewrite Hj in Hr.
    rewrite (st_bind_ret _ _ _ _ _ (get_job_run w s _ j (eq_trans (f_equal _ Ew) Hj))). rewrite (proj2 (Z.ltb_ge _ _) Hr).
    unfold str_eq. rewrite bool_decide_eq_false_2.
    + apply IH; [| |done].
      * destruct Ht as [Hnd Ht]. split; [|intros i' Hi'; apply Ht; set_solver].
        unfold ids in *. rewrite fmap_app in Hnd. by apply NoDup_app in Hnd as [? _].
      * unfold ids in *. rewrite fmap_app in Hid. set_solver.
    + intros ->. apply Hid. rewrite Hji. unfold ids. apply list_elem_of_fmap_2. set_solver.
Qed.

End Rank.

(** The insertion, behind the job [cur] or in front *)
Lemma rank_insert_run w t p j l cur :
  w_jobs w !! p = Some j -> table_of w t = Some l ->
  svr_find_job (id_of j) false (w, []) = Ret (Some p) (w, []) ->
  (window >>>
   let* pj := svr_find_job (id_of j) false in
   match pj with
   | None => st_ret PBSE_JOBNOTFOUND
   | Some pj =>
     let* j := get_job pj in
     on_table t (match cur with
                 | [] => OInsertFirst pj (id_of j)
                 | _ => OInsertAfter cur pj (id_of j)
                 end) >>>
     st_ret PBSE_NONE
   end) (w, [])
  = Ret PBSE_NONE (with_table w t (spec (match cur with
                                         | [] => OInsertFirst p (id_of j)
                                         | _ => OInsertAfter cur p (id_of j)
                                         end) l).1, []).
Proof.
  intros Hj Hl Hfind. assert (window (w, []) = Ret tt (w, [])) as E by done.
  rewrite (st_bind_ret _ _ _ _ _ E), (st_bind_ret _ _ _ _ _ Hfind).
  rewrite (st_bind_ret _ _ _ _ _ (get_job_run w [] p j Hj)).
  by rewrite (st_bind_ret _ _ _ _ _ (on_table_run w [] t l _ Hl)).
Qed.

(** C18: [insert_into_alljobs_by_rank] on a queue that is in order and does not have the job:
    the job goes behind the jobs of smaller rank and before the others, and the queue is
    in order. *)
Theorem insert_by_rank_sorted w t p j l :
  w_jobs w !! p = Some j -> id_of j <> [] -> table_of w t = Some l -> table_ok (w_jobs w) l -> id_of j ∉ ids l ->
  Forall (fun i => item_id i <> []) l -> by_rank (w_jobs w) l ->
  svr_find_job (id_of j) false (w, []) = Ret (Some p) (w, []) ->
  exists l1 l2, l = l1 ++ l2
    /\ insert_into_alljobs_by_rank t p (id_of j) (w, [])
       = Ret PBSE_NONE (with_table w t (l1 ++ Item (id_of j) p :: l2), [])
    /\ Forall (fun i => rank (w_jobs w) i < a_qrank (ji_wattr j)) l1
    /\ Forall (fun i => a_qrank (ji_wattr j) <= rank (w_jobs w) i) l2
    /\ by_rank (w_jobs w) (l1 ++ Item (id_of j) p :: l2).
Proof.
  intros Hj Hne Hl Ht Hid Hids Hs Hfind.
  destruct (by_rank_cut (w_jobs w) (a_qrank (ji_wattr j)) l Hs) as (l1 & l2 & -> & H1 & H2).
  exists l1, l2. split; [done|].
  assert (rank (w_jobs w) (Item (id_of j) p) = a_qrank (ji_wattr j)) as Hr by (unfold rank; simpl; by rewrite Hj).
  split; [|split; [done|split; [done|]]].
  2: { apply by_rank_insert; rewrite ?Hr; [done| |done]. eapply Forall_impl; [exact H1|]. simpl. lia. }
  unfold insert_into_alljobs_by_rank. rewrite (st_bind_ret _ _ _ _ _ (get_job_run w [] p j Hj)).
  rewrite (st_bind_ret _ _ _ _ _ (get_table_run w [] t _ Hl)).
  rewrite (st_bind_ret _ _ _ _ _ (rank_walk_run (w_jobs w) w [] (id_of j) _ l1 l2 eq_refl Ht Hid H1 H2)).
  destruct l1 as [|i l1 _] using rev_ind.
  - change (last []) with (@None (item jptr)). cbv iota.
    assert (@st_ret (world * sched) cstr [] (w, []) = Ret [] (w, [])) as E0 by done.
    rewrite (st_bind_ret _ _ _ _ _ E0).
    by rewrite (rank_insert_run w t p j _ [] Hj Hl Hfind).
  - rewrite last_snoc. destruct (t_jobs _ _ Ht i) as (ji & Hji & Eid); [set_solver|].
    assert (item_id i ∉ ids l1) as Hi1.
    { destruct Ht as [Hnd _]. unfold ids in Hnd. rewrite !fmap_app in Hnd. apply NoDup_app in Hnd as [Hnd _].
      apply NoDup_app in Hnd as (_ & Hd & _). intros Hin. apply (Hd _ Hin). set_solver. }
    assert (l_find (id_of ji) ((l1 ++ [i]) ++ l2) = Some i) as Hf.
    { rewrite Eid, <- app_assoc. by apply l_find_at. }
    assert (item_id i <> []) as Hine by (eapply Forall_forall in Hids; [exact Hids|set_solver]).
    assert ((let* jc := get_job (item_ptr i) in
             let* l := get_table t in
             st_ret (match l_find (id_of jc) l with Some _ => id_of jc | None => [] end)) (w, [])
            = Ret (item_id i) (w, [])) as E.
    { rewrite (st_bind_ret _ _ _ _ _ (get_job_run w [] _ ji Hji)).
      rewrite (st_bind_ret _ _ _ _ _ (get_table_run w [] t _ Hl)). by rewrite Hf, Eid. }
    rewrite (st_bind_ret _ _ _ _ _ E), (rank_insert_run w t p j _ (item_id i) Hj Hl Hfind).
    do 2 f_equal. destruct (item_id i) eqn:Ei; [done|]. rewrite <- Ei in Hi1 |- *. simpl. rewrite decide_True by set_solver. simpl.
    rewrite <- !app_assoc. simpl app. by rewrite (l_insert_after_at l1 l2 i).
Qed.

(** Job "2" of rank 2 goes behind job "1" of rank 1. *)
Lemma insert_by_rank_sorted_witness :
  let j2 := upd_attr (fun a => WAttr (a_job_owner a) None no_str no_str 0 no_attr false false no_attr no_attr 2 81 10 no_str None)
              (upd_qs (fun q => JobFix [50] 1 10 0 (ji_queue q) UnNew) (job_one JOB_STATE_QUEUED JOB_SUBSTATE_QUEUED 17)) in
  let w0 := server_one (job_one JOB_STATE_QUEUED JOB_SUBSTATE_QUEUED 17) in
  let w := set_alljobs (alljobs w0 ++ [Item [50] 2%nat]) (set_w_jobs (<[2%nat := j2]> (w_jobs w0)) w0) in
  exists l1 l2, insert_into_alljobs_by_rank (QuJobs [98]) 2%nat [50] (w, [])
    = Ret PBSE_NONE (with_table w (QuJobs [98]) (l1 ++ Item [50] 2%nat :: l2), [])
    /\ [Item [49] 1%nat] = l1 ++ l2 /\ by_rank (w_jobs w) (l1 ++ Item [50] 2%nat :: l2).
Proof.
  intros j2 w0 w.
  destruct (insert_by_rank_sorted w (QuJobs [98]) 2%nat j2 [Item [49] 1%nat]) as (l1 & l2 & El & E & _ & _ & Hs).
  - vm_compute. reflexivity.
  - discriminate.
  - vm_compute. reflexivity.
  - split; [apply NoDup_singleton|]. intros i Hi%list_elem_of_singleton. subst i.
    exists (job_one JOB_STATE_QUEUED JOB_SUBSTATE_QUEUED 17). split; [vm_compute; reflexivity|reflexivity].
  - apply not_elem_of_cons. split; [discriminate|apply not_elem_of_nil].
  - repeat constructor. discriminate.
  - repeat constructor.
  - vm_compute. reflexivity.
  - exists l1, l2. split; [exact E|]. split; [exact El|exact Hs].
Defined.
