(* ===== verification/JobEnter.v ===== *)
(** * Into a queue

    [svr_enquejob] puts a job into the server's table, into the lists of its queue and
    into every count, or refuses it by the limits of the queue; either way the books
    balance. *)
From Stdlib Require Import ZArith Lia.
From stdpp Require Import base gmap option list sorting.
From S2P Require Import Prelude CLib Attrs AttrVal AttrStr Container ContainerRefine ContainerSpec.
From S2P Require Import JobNames JobData JobServer JobBooks JobStates JobQueues JobRank.

Local Open Scope Z_scope.
Local Open Scope st_scope.

(** ** The books with one job more *)

Section Add.
Context (w w' : world) (p : jptr) (j j' : job) (q : cstr) (x x' : pbs_queue) (l1 l2 k1 k2 : all_jobs).
Hypothesis Hb : books actual actual w.
Hypothesis Hj : w_jobs w !! p = Some j.
Hypothesis Hsub : sub_of j <> JOB_SUBSTATE_TRANSICM.
Hypothesis Hx : w_queues w !! q = Some x.
Hypothesis Hl : alljobs w = l1 ++ l2.
Hypothesis Hk : qu_jobs x = k1 ++ k2.
Hypothesis Hid : id_of j ∉ ids (alljobs w).
Hypothesis Hbits : forall u, has_flag (ji_queue_counted j) (uih_bit u) = false.
Hypothesis Hbound : zlen (alljobs w) < INT_MAX.

Hypothesis Ej : w_jobs w' = <[p := j']> (w_jobs w).
Hypothesis Ej' : ji_qhdr j' = Some q /\ ji_is_array_template j' = false /\ ji_queue_counted j' = ji_queue_counted j
  /\ ji_qs j' = ji_qs j.
Hypothesis El : alljobs w' = l1 ++ Item (id_of j) p :: l2.
Hypothesis En : sv_numjobs w' = sv_numjobs w + 1.
Hypothesis Es : sv_jobstates w' = states_of actual (w_jobs w) (l1 ++ Item (id_of j) p :: l2).
Hypothesis Eu : users w' = users w.
Hypothesis Eq : w_queues w' = <[q := x']> (w_queues w).
Hypothesis Ex : qu_jobs x' = k1 ++ Item (id_of j) p :: k2 /\ qu_numjobs x' = qu_numjobs x + 1
  /\ qu_njstate x' = states_of actual (w_jobs w) (k1 ++ Item (id_of j) p :: k2) /\ qu_uih x' = qu_uih x.

(** A job whose id is in no table is in none. *)
Lemma added_out : p ∉ ptrs (alljobs w).
Proof using Hb Hj Hid.
  intros (i & Hi & E)%ptrs_elem. destruct (t_jobs _ _ (b_all _ _ _ Hb) i Hi) as (ji & Hji & Eid).
  rewrite E, Hj in Hji. injection Hji as <-. apply Hid. rewrite Eid. by apply list_elem_of_fmap_2.
Qed.

(** The items of a queue have the ids of jobs of the server. *)
Lemma queue_ids q0 x0 k : w_queues w !! q0 = Some x0 -> k ∈ ids (qu_jobs x0) -> k ∈ ids (alljobs w).
Proof.
  intros Hx0 (i & -> & Hi)%list_elem_of_fmap. pose proof (b_queues _ _ _ Hb q0 x0 Hx0) as Hqx.
  destruct (t_jobs _ _ (q_table _ _ _ _ Hqx) i Hi) as (ji & Hji & <-).
  destruct (q_mem _ _ _ _ Hqx (item_ptr i) ji) as [Eq0 Et0]; [by apply list_elem_of_fmap_2|done|].
  destruct (b_qhdr _ _ _ Hb _ _ _ Hji Eq0) as (y & _ & Hm). destruct (Hm Et0) as [_ Hin].
  apply ptrs_elem in Hin as (i' & Hi' & E'). destruct (t_jobs _ _ (b_all _ _ _ Hb) i' Hi') as (j2 & Hj2 & E2).
  rewrite E' in Hj2. simplify_eq. rewrite E2. by apply list_elem_of_fmap_2.
Qed.

Lemma queue_out q0 x0 : w_queues w !! q0 = Some x0 -> p ∉ ptrs (qu_jobs x0).
Proof.
  intros Hx0 (i & Hi & E)%ptrs_elem. apply Hid. apply (queue_ids q0 x0); [done|].
  pose proof (b_queues _ _ _ Hb q0 x0 Hx0) as Hqx.
  destruct (t_jobs _ _ (q_table _ _ _ _ Hqx) i Hi) as (ji & Hji & Eid). rewrite E, Hj in Hji. simplify_eq.
  rewrite Eid. by apply list_elem_of_fmap_2.
Qed.

Lemma added_tally bit u m1 m2 : p ∉ ptrs (m1 ++ m2) -> has_flag (ji_queue_counted j) bit = false ->
  tally (counted bit u) (w_jobs w') (m1 ++ Item (id_of j) p :: m2) = tally (counted bit u) (w_jobs w) (m1 ++ m2).
Proof.
  intros Hp Hbit. destruct Ej' as (_ & _ & Ec & _). rewrite tally_insert, Ej, tally_off by done.
  unfold weigh, counted at 2. rewrite lookup_insert_eq, Ec, Hbit. simpl. lia.
Qed.

Lemma added_states l : states_of actual (w_jobs w') l = states_of actual (w_jobs w) l.
Proof. rewrite Ej. apply (states_put w p j); [done|]. destruct Ej' as (_ & _ & _ & E). unfold actual, st_of. by rewrite E. Qed.

Lemma added_table m1 m2 : table_ok (w_jobs w) (m1 ++ m2) -> id_of j ∉ ids (m1 ++ m2) ->
  table_ok (w_jobs w') (m1 ++ Item (id_of j) p :: m2).
Proof.
  intros Ht Hi. rewrite Ej. apply (table_put w p j); [done| |].
  - destruct Ej' as (_ & _ & _ & E). unfold id_of. by rewrite E.
  - by apply table_insert.
Qed.

Lemma added_job r jr : w_jobs w' !! r = Some jr -> (r = p /\ jr = j') \/ (r <> p /\ w_jobs w !! r = Some jr).
Proof. rewrite Ej. apply insert_cases. Qed.

Lemma queue_added : queue_ok actual (w_jobs w') q x'.
Proof.
  destruct (b_queues _ _ _ Hb q x Hx) as [Htq Hmq Hnq Hsq Huq]. destruct Ex as (Ek & Enq & Esq & Euq).
  pose proof (queue_out q x Hx) as Hout. assert (id_of j ∉ ids (qu_jobs x)) as Hidq by eauto using queue_ids.
  rewrite Hk in *. constructor; rewrite ?Ek.
  - by apply added_table.
  - intros r jr Hin Hr. destruct (added_job r jr Hr) as [[-> ->]|[Hne Hr']].
    + by destruct Ej' as (-> & -> & _).
    + apply (Hmq r); [|done]. by apply ptrs_insert in Hin as [?|?].
  - rewrite Enq, Hnq, zlen_insert. lia.
  - by rewrite added_states.
  - intros u. rewrite Euq, Huq. symmetry. apply added_tally; [done|]. apply (Hbits (QueueUih q)).
Qed.

Lemma books_added : books actual actual w'.
Proof.
  destruct Ej' as (Eh' & Et' & Ec' & Eqs'). pose proof queue_added as Hqx. pose proof added_out as Hpout.
  pose proof (b_all _ _ _ Hb) as Hall. pose proof Hid as Hid'. rewrite Hl in Hall, Hpout, Hid'.
  constructor; rewrite ?El, ?En, ?Eu.
  - by apply added_table.
  - intros r jr Hin Hr. destruct (added_job r jr Hr) as [[-> ->]|[Hne Hr']].
    + split; [done|]. unfold sub_of. by rewrite Eqs'.
    + apply (b_plain _ _ _ Hb r); [|done]. rewrite Hl. by apply ptrs_insert in Hin as [?|?].
  - rewrite zlen_insert, <- Hl. lia.
  - rewrite (b_num _ _ _ Hb), Hl, zlen_insert. lia.
  - by rewrite Es, added_states.
  - intros u. rewrite (b_users _ _ _ Hb), Hl. symmetry. apply added_tally; [done|]. apply (Hbits Users).
  - intros q' y. rewrite Eq. destruct (decide (q' = q)) as [->|Hne].
    + rewrite lookup_insert_eq. by intros [= <-].
    + rewrite lookup_insert_ne by done. intros Hy. destruct (b_queues _ _ _ Hb q' y Hy) as [Htq Hmq Hnq Hsq Huq].
      pose proof (queue_out q' y Hy) as Hpy. constructor; try done.
      * rewrite Ej. by apply table_off.
      * intros r jr Hin Hr. destruct (added_job r jr Hr) as [[-> ->]|[Hne' Hr']]; [done|by apply (Hmq r)].
      * by rewrite added_states.
      * intros u. by rewrite Huq, Ej, tally_off.
  - intros r jr q' Hr Hqr. rewrite Eq. destruct (added_job r jr Hr) as [[-> ->]|[Hne Hr']].
    + assert (q' = q) as -> by congruence. rewrite lookup_insert_eq. exists x'. split; [done|]. intros _.
      destruct Ex as (-> & _). split; apply ptrs_insert; auto.
    + destruct (b_qhdr _ _ _ Hb r jr q' Hr' Hqr) as (y & Hy & Hm). rewrite Hl in Hm.
      destruct (decide (q' = q)) as [->|Hneq].
      * rewrite lookup_insert_eq. exists x'. split; [done|]. intros Htr. destruct (Hm Htr) as [H1 H2]. simplify_eq.
        destruct Ex as (-> & _). rewrite Hk in H1. split; apply ptrs_insert; auto.
      * rewrite lookup_insert_ne by done. exists y. split; [done|]. intros Htr. destruct (Hm Htr) as [H1 H2].
        split; [done|]. apply ptrs_insert; auto.
  - intros r jr Hr Hbit. apply ptrs_insert. destruct (added_job r jr Hr) as [[-> ->]|[Hne Hr']]; [auto|].
    right. rewrite <- Hl. by apply (b_global _ _ _ Hb r jr).
  - intros r jr Hr Hbit. destruct (added_job r jr Hr) as [[-> ->]|[Hne Hr']]; [by rewrite Eh'; eauto|].
    by apply (b_inqueue _ _ _ Hb r jr).
  - intros r jr Hr. destruct (added_job r jr Hr) as [[-> ->]|[Hne Hr']]; [|by apply (b_range _ _ _ Hb r)].
    unfold st_of. rewrite Eqs'. by apply (b_range _ _ _ Hb p).
Qed.

End Add.

(** ** A job that may enter *)

(** Job [p] is new to the server, complete enough to be counted, and finds itself under
    its id; its queue [q] exists and is in order; [prev], when given, is a job of the
    server. *)
Record enterable (w : world) (p : jptr) (j : job) (q : cstr) (x : pbs_queue) (prev : option cstr) : Prop := {
  e_job : w_jobs w !! p = Some j;
  e_live : ji_being_recycled j = false;
  e_template : ji_is_array_template j = false;
  e_sub : sub_of j <> JOB_SUBSTATE_TRANSICM;
  e_bits u : has_flag (ji_queue_counted j) (uih_bit u) = false;
  e_one : a_job_array_request (ji_wattr j) = None;
  e_depend : a_depend_set (ji_wattr j) = false;
  e_id : id_of j <> [];
  e_key : find_key (sv_ids w) (id_of j) false = {| sr_key := id_of j; sr_array := false; sr_external := false |};
  e_new : id_of j ∉ ids (alljobs w);
  e_bound : zlen (alljobs w) < INT_MAX;
  e_prev : match prev with None | Some [] => True | Some k => k ∈ ids (alljobs w) end;
  e_name : before c_at (take (Z.to_nat PBS_MAXDEST) (ji_queue (ji_qs j))) = q;
  e_queue : w_queues w !! q = Some x;
  e_qlive : q_being_recycled x = false;
  e_ids : Forall (fun i => item_id i <> []) (qu_jobs x);
  e_order : by_rank (w_jobs w) (qu_jobs x);
  e_sum : table_ok (w_jobs w) (qu_jobs_array_sum x) /\ id_of j ∉ ids (qu_jobs_array_sum x)
          /\ Forall (fun i => item_id i <> []) (qu_jobs_array_sum x)
          /\ by_rank (w_jobs w) (qu_jobs_array_sum x);
  e_checkpoint : is_set (a_checkpoint (ji_wattr j)) = true -> at_val (a_checkpoint (ji_wattr j)) <> None
}.

(** The limits of the queue, in the jobs that are there *)
Definition reaches (limit : option Z) (n : Z) : bool := match limit with Some m => m <=? n | None => false end.
Definition limit_answer (jobs : gmap jptr job) (x : pbs_queue) (user : cstr) : Z :=
  if reaches (qa_max_jobs x)
       (tally (fun _ j => negb (st_of j =? JOB_STATE_COMPLETE)) jobs (qu_jobs x) + qu_reserved_jobs x)
  then PBSE_MAXQUED
  else if reaches (qa_max_user_jobs x)
            (tally (counted COUNTED_IN_QUEUE user) jobs (qu_jobs x) + qu_reserved_jobs x)
  then PBSE_MAXUSERQUED else PBSE_NONE.

Section Enter.
Context `{Platform} (maxpathlen : nat) (time_now : Z) (depend_on_que : jptr -> M Z).

Lemma tally_complement P jobs l : table_ok jobs l ->
  tally (fun r j => negb (P r j)) jobs l = zlen l - tally P jobs l.
Proof.
  intros [_ Hj]. induction l as [|i l IH]; [done|]. simpl. rewrite zlen_cons, IH by (intros i' Hi'; apply Hj; set_solver).
  destruct (Hj i) as (j & Ej & _); [set_solver|]. unfold weigh. rewrite Ej. destruct (P _ j); simpl; lia.
Qed.

Lemma enque_limits_run w s p j q x :
  books actual actual w -> w_jobs w !! p = Some j -> ji_is_array_template j = false -> w_queues w !! q = Some x ->
  enque_limits maxpathlen p q (w, s) = Ret (limit_answer (w_jobs w) x (user_of j)) (w, s).
Proof.
  intros Hb Hj Ht Hx. pose proof (b_queues _ _ _ Hb q x Hx) as Hqx.
  assert (count_queued_jobs q None (w, s)
    = Ret (tally (fun _ j => negb (st_of j =? JOB_STATE_COMPLETE)) (w_jobs w) (qu_jobs x)) (w, s)) as E1.
  { unfold count_queued_jobs. rewrite (st_bind_ret _ _ _ _ _ (get_queue_run w s q x Hx)).
    rewrite (q_states _ _ _ _ Hqx), (q_num _ _ _ _ Hqx). simpl. unfold st_bind. simpl. f_equal.
    by rewrite (tally_complement _ _ _ (q_table _ _ _ _ Hqx)). }
  assert (count_queued_jobs q (Some (remove_server_suffix (a_job_owner (ji_wattr j)))) (w, s)
    = Ret (tally (counted COUNTED_IN_QUEUE (user_of j)) (w_jobs w) (qu_jobs x)) (w, s)) as E2.
  { unfold count_queued_jobs, get_num_queued, get_uih, st_bind, get_queue. rewrite Hx. simpl.
    fold (user_of j). rewrite (q_users _ _ _ _ Hqx).
    pose proof (tally_range (counted COUNTED_IN_QUEUE (user_of j)) (w_jobs w) (qu_jobs x)).
    pose proof (books_bound actual actual w q x Hb Hx). f_equal. rewrite u32_small by (unfold INT_MAX in *; lia).
    apply i32_small. unfold INT_MAX in *. lia. }
  unfold enque_limits, limit_answer, st_bind, st_ret. rewrite (get_job_run w s p j Hj), Ht, (get_queue_run w s q x Hx).
  destruct (qa_max_jobs x) as [m|]; cbn [reaches]; [rewrite E1, Z.add_0_r; destruct (m <=? _); [done|]|];
    (destruct (qa_max_user_jobs x) as [m'|]; cbn [reaches]; [by rewrite E2|done]).
Qed.

(** Where the job goes in [alljobs] *)
Lemma alljobs_place (l : all_jobs) p (id : cstr) prev :
  id ∉ ids l -> (match prev with None | Some [] => True | Some k => k ∈ ids l end) ->
  exists l1 l2, l = l1 ++ l2
    /\ (spec (match prev with None | Some [] => OInsert p id false | Some k => OInsertAfter k p id end) l).1
       = l1 ++ Item id p :: l2.
Proof.
  intros Hid Hprev. assert (exists l1 l2, l = l1 ++ l2 /\ (spec (OInsert p id false) l).1 = l1 ++ Item id p :: l2) as Hend.
  { exists l, []. rewrite app_nil_r. split; [done|]. simpl. by rewrite decide_False. }
  destruct prev as [[|c k]|]; try done. set (k' := c :: k) in *.
  pose proof Hprev as (i & Ei & Hi)%list_elem_of_fmap. clear Hi.
  assert (is_Some (l_find k' l)) as [i' Hf].
  { destruct (l_find k' l) eqn:E; [eauto|]. by apply l_find_None in E. }
  assert (exists m1 m2, l = m1 ++ i' :: m2 /\ item_id i' = k' /\ k' ∉ ids m1) as (m1 & m2 & -> & Hk & Hm1).
  { clear -Hf. induction l as [|y l IH]; [done|]. simpl in Hf. case_decide as Hy.
    - simplify_eq. exists [], l. split; [done|]. split; [done|]. set_solver.
    - destruct (IH Hf) as (m1 & m2 & -> & Hk & Hm). exists (y :: m1), m2. split; [done|]. split; [done|].
      set_solver. }
  exists (m1 ++ [i']), m2. rewrite <- !app_assoc. split; [done|]. simpl. rewrite decide_True by done. simpl.
  rewrite <- Hk. by rewrite (l_insert_after_at m1 m2 i') by by rewrite Hk.
Qed.

Lemma enque_server_run w s p j prev :
  books actual actual w -> w_jobs w !! p = Some j -> ji_is_array_template j = false -> id_of j ∉ ids (alljobs w) ->
  (match prev with None | Some [] => True | Some k => k ∈ ids (alljobs w) end) ->
  exists l1 l2, alljobs w = l1 ++ l2
    /\ enque_server p prev (w, s)
       = Ret tt (set_sv_jobstates (states_of actual (w_jobs w) (l1 ++ Item (id_of j) p :: l2))
                   (set_sv_numjobs (sv_numjobs w + 1) (set_alljobs (l1 ++ Item (id_of j) p :: l2) w)), s).
Proof.
  intros Hb Hj Ht Hid Hprev. destruct (alljobs_place (alljobs w) p (id_of j) prev Hid Hprev) as (l1 & l2 & El & Esp).
  exists l1, l2. split; [done|]. unfold enque_server. rewrite (st_bind_ret _ _ _ _ _ (get_job_run w s p j Hj)), Ht.
  rewrite (st_bind_ret _ _ _ _ _ (on_table_run w s AllJobs (alljobs w) _ eq_refl)). rewrite Esp. cbn [with_table].
  set (w1 := set_alljobs _ w). set (w2 := set_sv_numjobs _ w1).
  assert (modify (fun w => set_sv_numjobs (sv_numjobs w + 1) w) (w1, s) = Ret tt (w2, s)) as E2 by done.
  rewrite (st_bind_ret _ _ _ _ _ E2). unfold bump_jobstates, st_bind, gets. simpl.
  rewrite (b_states _ _ _ Hb), El, (bump_add _ p j); [done|done|]. by apply (b_range _ _ _ Hb p).
Qed.

Lemma enque_summary_run w p j :
  w_jobs w !! p = Some j -> ji_is_array_template j = false -> exists l,
  enque_summary p (w, []) = Ret PBSE_NONE (set_array_summary l w, []).
Proof.
  intros Hj Ht. assert (set_array_summary (array_summary w) w = w) as Hid by by destruct w.
  unfold enque_summary. rewrite (st_bind_ret _ _ _ _ _ (get_job_run w [] p j Hj)), Ht, orb_false_l.
  case_bool_decide; [|exists (array_summary w); by rewrite Hid].
  assert (has_job ArraySummary (Some p) (w, [])
    = Ret (match l_find (id_of j) (array_summary w) with Some _ => 1 | None => 0 end) (w, [])) as E.
  { unfold has_job, non_null. assert (trylock (w, []) = Ret true (w, [])) as Et by done.
    rewrite (st_bind_ret _ _ _ _ _ Et), (st_bind_ret _ _ _ _ _ (get_job_run w [] p j Hj)). done. }
  rewrite (st_bind_ret _ _ _ _ _ E). destruct (l_find (id_of j) (array_summary w)).
  - exists (array_summary w). by rewrite Hid.
  - assert (exists r l, insert_job ArraySummary (Some p) (w, []) = Ret r (set_array_summary l w, [])) as (r & l & Ei).
    { unfold insert_job. cbn [non_null]. rewrite (st_bind_ret _ _ _ _ _ (get_job_run w [] p j Hj)).
      rewrite (st_bind_ret _ _ _ _ _ (on_table_run w [] ArraySummary _ _ eq_refl)).
      destruct (spec _ _) as [l' [[|]|]]; do 2 eexists; done. }
    exists l. change (0 =? 0) with true. cbv iota. by rewrite (st_bind_ret _ _ _ _ _ Ei).
Qed.

(** A job of the table finds itself. *)
Lemma svr_find_job_run w s p j l1 l2 :
  w_jobs w !! p = Some j -> ji_being_recycled j = false ->
  find_key (sv_ids w) (id_of j) false = {| sr_key := id_of j; sr_array := false; sr_external := false |} ->
  alljobs w = l1 ++ Item (id_of j) p :: l2 -> id_of j ∉ ids l1 ->
  svr_find_job (id_of j) false (w, s) = Ret (Some p) (w, s).
Proof.
  intros Hj Hr Hk Hl Hid.
  assert (find_job_by_array AllJobs (id_of j) false (w, s) = Ret (Some p) (w, s)) as Ef.
  { unfold find_job_by_array. rewrite (st_bind_ret _ _ _ _ _ (get_table_run w s AllJobs _ (f_equal Some Hl))).
    assert (l_find (id_of j) (l1 ++ Item (id_of j) p :: l2) = Some (Item (id_of j) p)) as -> 
      by exact (l_find_at l1 l2 (Item (id_of j) p) Hid).
    cbn [fmap option_fmap option_map item_ptr].
    rewrite !(st_bind_ret _ _ _ _ _ (get_job_run w s p j Hj)). by rewrite Hr. }
  unfold svr_find_job. assert (gets sv_ids (w, s) = Ret (sv_ids w) (w, s)) as Eg by done.
  rewrite (st_bind_ret _ _ _ _ _ Eg), Hk. cbn [sr_key sr_array sr_external]. cbv zeta iota.
  rewrite (st_bind_ret _ _ _ _ _ Ef). done.
Qed.

Lemma rank_put jobs p j j' i :
  jobs !! p = Some j -> a_qrank (ji_wattr j') = a_qrank (ji_wattr j) -> rank (<[p := j']> jobs) i = rank jobs i.
Proof.
  intros Hj E. unfold rank. destruct (decide (item_ptr i = p)) as [Ep|Hne].
  - by rewrite Ep, lookup_insert_eq, Hj.
  - by rewrite lookup_insert_ne.
Qed.

Lemma by_rank_put jobs p j j' l :
  jobs !! p = Some j -> a_qrank (ji_wattr j') = a_qrank (ji_wattr j) -> by_rank jobs l -> by_rank (<[p := j']> jobs) l.
Proof.
  intros Hj E. induction 1 as [|i l Hs IH Hi]; constructor; [done|].
  eapply Forall_impl; [exact Hi|]. simpl. intros i'. by rewrite !(rank_put jobs p j j').
Qed.

(** The queue with the job on its list and in its counts *)
Definition joined (jobs : gmap jptr job) (x : pbs_queue) (l : all_jobs) : pbs_queue :=
  set_qu_njstate (states_of actual jobs l) (set_qu_numjobs (qu_numjobs x + 1) (set_qu_jobs l x)).

(** [qu_numjobs++; qu_njstate[state]++] *)
Lemma join_counts_run {A} w s p j q x k1 k2 (k : job -> M A) :
  w_jobs w !! p = Some j -> 0 <= st_of j < Z.of_nat PBS_NUMJOBSTATE -> w_queues w !! q = Some x ->
  qu_njstate x = states_of actual (w_jobs w) (k1 ++ k2) ->
  (upd_queue q (fun x => set_qu_numjobs (qu_numjobs x + 1) x) >>>
   let* j := get_job p in
   bump_njstate q (st_of j) 1 >>> k j) (w, s)
  = k j (put_queue q (set_qu_njstate (states_of actual (w_jobs w) (k1 ++ Item (id_of j) p :: k2))
                      (set_qu_numjobs (qu_numjobs x + 1) x)) w, s).
Proof.
  intros Hj Hst Hx Hs. rewrite (st_bind_ret _ _ _ _ _ (upd_queue_run w s q x _ Hx)).
  set (x1 := set_qu_numjobs _ x). set (w1 := put_queue q x1 w).
  assert (w_queues w1 !! q = Some x1) as Hx1 by apply lookup_insert_eq.
  rewrite (st_bind_ret _ _ _ _ _ (get_job_run w1 s p j Hj)).
  assert (bump_njstate q (st_of j) 1 (w1, s)
    = Ret tt (put_queue q (set_qu_njstate (states_of actual (w_jobs w) (k1 ++ Item (id_of j) p :: k2)) x1) w1, s)) as E.
  { unfold bump_njstate. rewrite (st_bind_ret _ _ _ _ _ (get_queue_run w1 s q x1 Hx1)). simpl (qu_njstate x1).
    rewrite Hs, (bump_add _ p j) by done. by apply upd_queue_run. }
  rewrite (st_bind_ret _ _ _ _ _ E). unfold w1. by rewrite put_queue_put.
Qed.

(** Both counts of the user, for a job that is on the lists *)
Lemma increments_run w p j q owner :
  books actual actual w -> w_jobs w !! p = Some j -> ji_qhdr j = Some q -> ji_is_array_template j = false ->
  remove_server_suffix owner = user_of j -> a_job_array_request (ji_wattr j) = None ->
  exists w' c, (increment_queued_jobs maxpathlen (QueueUih q) owner p >>>
                increment_queued_jobs maxpathlen Users owner p >>> @st_ret (world * sched) (option Z) None) (w, [])
      = Ret None (w', [])
    /\ books actual actual w' /\ frame p w w' /\ w_jobs w' !! p = Some (recount c j)
    /\ forall u, has_flag c (uih_bit u)
         = (if st_of j =? JOB_STATE_COMPLETE then has_flag (ji_queue_counted j) (uih_bit u) else true).
Proof.
  intros Hb Hj Hq Ht Ho Hone. destruct (b_qhdr _ _ _ Hb p j q Hj Hq) as (x & Hx & Hm). destruct (Hm Ht) as [Hpq Hpa].
  assert (forall c, count_jobs_submitted maxpathlen (recount c j) = Some 1) as H1.
  { intros c. unfold count_jobs_submitted. simpl. by rewrite Hone. }
  destruct (increment_run actual actual actual_ok actual_ok maxpathlen w [] p j (QueueUih q) owner Hb Hj)
    as (c1 & h1 & E1 & Hb1 & Hin1 & Hgl1); [done|done| |by simpl; rewrite Hx|].
  { rewrite <- (recount_id j). apply H1. }
  set (w1 := recounted w p j c1 (QueueUih q) h1) in *.
  assert (w_jobs w1 !! p = Some (recount c1 j)) as Hj1 by (unfold w1, recounted; simpl; by rewrite lookup_insert_eq).
  assert (frame p w w1) as Hf1 by apply frame_recounted.
  destruct (increment_run actual actual actual_ok actual_ok maxpathlen w1 [] p (recount c1 j) Users owner Hb1 Hj1)
    as (c2 & h2 & E2 & Hb2 & Hgl2 & Hin2); [done|done|apply H1|change (listed w1 Users) with (alljobs w1); by rewrite (f_all _ _ _ Hf1)|].
  exists (recounted w1 p (recount c1 j) c2 Users h2), c2. split; [|split; [done|split; [|split]]].
  - by rewrite (st_bind_ret _ _ _ _ _ E1), (st_bind_ret _ _ _ _ _ E2).
  - etrans; [done|apply frame_recounted].
  - unfold recounted. simpl. by rewrite lookup_insert_eq.
  - simpl in *. intros [|q']; simpl; [by rewrite Hgl2, Hgl1|by rewrite Hin2, Hin1].
Qed.

(** What [svr_enquejob] makes of the answer of an insertion *)
Definition rank_stop (rc : Z) : option Z :=
  if rc =? ALREADY_IN_LIST then Some PBSE_NONE else if rc =? PBSE_JOBNOTFOUND then Some rc else None.

(** Into the list of the queue that stands for arrays *)
Lemma enque_sum_run w p j q x :
  books actual actual w -> w_jobs w !! p = Some j -> w_queues w !! q = Some x -> id_of j <> [] ->
  svr_find_job (id_of j) false (w, []) = Ret (Some p) (w, []) ->
  table_ok (w_jobs w) (qu_jobs_array_sum x) -> id_of j ∉ ids (qu_jobs_array_sum x) ->
  Forall (fun i => item_id i <> []) (qu_jobs_array_sum x) -> by_rank (w_jobs w) (qu_jobs_array_sum x) ->
  exists l,
    (let* j' := get_job p in
     if ji_is_array_template j' || bool_decide (ji_arraystructid j' = []) then
       let* rc := insert_into_alljobs_by_rank (QuArraySum q) p (id_of j) in st_ret (rank_stop rc)
     else st_ret None) (w, []) = Ret None (put_queue q (set_qu_jobs_array_sum l x) w, [])
    /\ books actual actual (put_queue q (set_qu_jobs_array_sum l x) w).
Proof.
  intros Hb Hj Hx Hne Hfind Ht Hid Hids Hs.
  assert (forall l, books actual actual (put_queue q (set_qu_jobs_array_sum l x) w)) as Hbk.
  { intros l. apply (books_put_queue actual actual w q x); [done|done|done|].
    destruct (b_queues _ _ _ Hb q x Hx). by constructor. }
  rewrite (st_bind_ret _ _ _ _ _ (get_job_run w [] p j Hj)).
  assert (table_of w (QuArraySum q) = Some (qu_jobs_array_sum x)) as Etab by (simpl; by rewrite Hx).
  destruct (insert_by_rank_sorted w (QuArraySum q) p j _ Hj Hne Etab Ht Hid Hids Hs Hfind) as (l1 & l2 & _ & E & _).
  cbn [with_table] in E. rewrite Hx in E. destruct (_ || _).
  - eexists. split; [|apply Hbk]. by rewrite (st_bind_ret _ _ _ _ _ E).
  - exists (qu_jobs_array_sum x). split; [|apply Hbk].
    assert (put_queue q (set_qu_jobs_array_sum (qu_jobs_array_sum x) x) w = w) as ->; [|done].
    apply put_queue_id. rewrite Hx. by destruct x.
Qed.

(** The server with the job on its table and in its counts *)
Definition on_server (w : world) (p : jptr) (j : job) (l1 l2 sum : all_jobs) : world :=
  set_array_summary sum
    (set_sv_jobstates (states_of actual (w_jobs w) (l1 ++ Item (id_of j) p :: l2))
       (set_sv_numjobs (sv_numjobs w + 1) (set_alljobs (l1 ++ Item (id_of j) p :: l2) w))).

(** The job is in its queue, behind the jobs of smaller rank. *)
Record entered (w : world) (p : jptr) (j : job) (q : cstr) (x : pbs_queue) (l1 l2 : all_jobs) (w' : world) : Prop := {
  en_books : books actual actual w';
  en_job : exists j', w_jobs w' !! p = Some j' /\ core j' = core (set_ji_qhdr (Some q) j)
                      /\ st_of j' = st_of j /\ sub_of j' = sub_of j
                      /\ forall u, has_flag (ji_queue_counted j') (uih_bit u) = negb (st_of j =? JOB_STATE_COMPLETE);
  en_all : alljobs w' = l1 ++ Item (id_of j) p :: l2;
  en_queue : exists x' k1 k2, w_queues w' !! q = Some x' /\ qu_jobs x = k1 ++ k2
    /\ qu_jobs x' = k1 ++ Item (id_of j) p :: k2 /\ by_rank (w_jobs w) (qu_jobs x');
  en_others r : r <> p -> w_jobs w' !! r = w_jobs w !! r
}.

Section First.
Context (w : world) (p : jptr) (j : job) (q : cstr) (x : pbs_queue) (prev : option cstr) (l1 l2 sum : all_jobs).
Hypothesis Hb : books actual actual w.
Hypothesis He : enterable w p j q x prev.
Hypothesis Hl : alljobs w = l1 ++ l2.
Let j1 : job := set_ji_qhdr (Some q) j.
Let w1 : world := put_job p j1 (on_server w p j l1 l2 sum).

Lemma enter_id_out : id_of j ∉ ids l1.
Proof. pose proof (e_new _ _ _ _ _ _ He) as Hn. rewrite Hl in Hn. unfold ids in *. rewrite fmap_app in Hn. set_solver. Qed.

Lemma enter_find w2 s c : w_jobs w2 !! p = Some (recount c j1) -> alljobs w2 = alljobs w1 -> sv_ids w2 = sv_ids w ->
  svr_find_job (id_of j) false (w2, s) = Ret (Some p) (w2, s).
Proof.
  intros Hj2 Ea Ei. apply (svr_find_job_run w2 s p (recount c j1) l1 l2); try done.
  - apply (e_live _ _ _ _ _ _ He).
  - rewrite Ei. apply (e_key _ _ _ _ _ _ He).
  - apply enter_id_out.
Qed.

(** The lists of the queue as the walk reads them *)
Lemma enter_list l : table_ok (w_jobs w) l -> by_rank (w_jobs w) l ->
  table_ok (w_jobs w1) l /\ by_rank (w_jobs w1) l.
Proof.
  pose proof (e_job _ _ _ _ _ _ He) as Hj. intros Ht Hs. split.
  - by apply (table_put w p j).
  - by apply (by_rank_put _ p j).
Qed.

Lemma enque_first_run : exists k1 k2, qu_jobs x = k1 ++ k2
  /\ insert_into_alljobs_by_rank (QuJobs q) p (id_of j) (w1, [])
     = Ret PBSE_NONE (put_queue q (set_qu_jobs (k1 ++ Item (id_of j) p :: k2) x) w1, [])
  /\ by_rank (w_jobs w) (k1 ++ Item (id_of j) p :: k2)
  /\ books actual actual (put_queue q (joined (w_jobs w1) x (k1 ++ Item (id_of j) p :: k2)) w1).
Proof.
  pose proof (e_job _ _ _ _ _ _ He) as Hj. pose proof (e_queue _ _ _ _ _ _ He) as Hx.
  pose proof (b_queues _ _ _ Hb q x Hx) as Hqx.
  destruct (enter_list (qu_jobs x) (q_table _ _ _ _ Hqx) (e_order _ _ _ _ _ _ He)) as [Ht Hs].
  assert (w_jobs w1 !! p = Some j1) as Hj1 by apply lookup_insert_eq.
  assert (table_of w1 (QuJobs q) = Some (qu_jobs x)) as Etab by (simpl; by rewrite Hx).
  assert (id_of j ∉ ids (qu_jobs x)) as Hidq.
  { intros Hin. apply (e_new _ _ _ _ _ _ He). by apply (queue_ids w Hb q x). }
  destruct (insert_by_rank_sorted w1 (QuJobs q) p j1 _ Hj1 (e_id _ _ _ _ _ _ He) Etab Ht Hidq
    (e_ids _ _ _ _ _ _ He) Hs) as (k1 & k2 & Hk & E & _ & _ & Hsorted).
  { apply (enter_find w1 [] (ji_queue_counted j)); [|done|done]. rewrite Hj1. by destruct j. }
  cbn [with_table] in E. change (w_queues w1) with (w_queues w) in E. rewrite Hx in E.
  exists k1, k2. split; [done|]. split; [exact E|]. split.
  - apply (by_rank_put _ p j1 j) in Hsorted; [|done|done]. simpl in Hsorted.
    rewrite insert_insert_eq, insert_id in Hsorted by done. done.
  - apply (books_added w _ p j j1 q x (joined (w_jobs w1) x (k1 ++ Item (id_of j) p :: k2)) l1 l2 k1 k2);
      try done; try apply He.
    + by split; [|split; [apply (e_template _ _ _ _ _ _ He)|]].
    + split; [done|]. split; [done|]. split; [|done]. simpl. apply (states_put w p j); done.
Qed.

(** Onto the list of the queue and into its counts *)
Lemma enque_listed_run : exists w4 c x4 k1 k2,
  (let* rc := insert_into_alljobs_by_rank (QuJobs q) p (id_of j) in
   match rank_stop rc with
   | Some rc => st_ret (Some rc)
   | None =>
     upd_queue q (fun x => set_qu_numjobs (qu_numjobs x + 1) x) >>>
     let* j := get_job p in
     bump_njstate q (st_of j) 1 >>>
     increment_queued_jobs maxpathlen (QueueUih q) (a_job_owner (ji_wattr j)) p >>>
     increment_queued_jobs maxpathlen Users (a_job_owner (ji_wattr j)) p >>> @st_ret (world * sched) (option Z) None
   end) (w1, []) = Ret None (w4, [])
  /\ books actual actual w4 /\ w_jobs w4 = <[p := recount c j1]> (w_jobs w)
  /\ (forall u, has_flag c (uih_bit u) = negb (st_of j =? JOB_STATE_COMPLETE))
  /\ alljobs w4 = alljobs w1 /\ sv_ids w4 = sv_ids w
  /\ w_queues w4 !! q = Some x4 /\ qu_jobs x = k1 ++ k2 /\ qu_jobs x4 = k1 ++ Item (id_of j) p :: k2
  /\ qu_jobs_array_sum x4 = qu_jobs_array_sum x /\ by_rank (w_jobs w) (qu_jobs x4).
Proof.
  pose proof (e_job _ _ _ _ _ _ He) as Hj. pose proof (e_queue _ _ _ _ _ _ He) as Hx.
  pose proof (e_template _ _ _ _ _ _ He) as Ht. pose proof (b_range _ _ _ Hb p j Hj) as Hst.
  destruct enque_first_run as (k1 & k2 & Hk & E1 & Hsorted & Hb2).
  set (x2 := set_qu_jobs (k1 ++ Item (id_of j) p :: k2) x) in *. set (w2 := put_queue q x2 w1) in *.
  set (w3 := put_queue q (joined _ x _) w1) in *.
  assert (w_jobs w3 !! p = Some j1) as Hj3 by apply lookup_insert_eq.
  destruct (increments_run w3 p j1 q (a_job_owner (ji_wattr j)) Hb2 Hj3) as (w4 & c & E4 & Hb4 & Hf & Hj4 & Hc4);
    [done|done|done|apply (e_one _ _ _ _ _ _ He)|].
  assert (exists x4, w_queues w4 !! q = Some x4 /\ qu_jobs x4 = k1 ++ Item (id_of j) p :: k2
    /\ qu_jobs_array_sum x4 = qu_jobs_array_sum x) as (x4 & Hx4 & Ek4 & Esum4).
  { pose proof (f_queues _ _ _ Hf q) as Eq. simpl in Eq. rewrite lookup_insert_eq in Eq.
    destruct (w_queues w4 !! q) as [x4|]; [|done]. exists x4. split; [done|]. simpl in Eq. injection Eq. auto. }
  exists w4, c, x4, k1, k2. split; [|split; [done|split; [|split]]].
  - rewrite (st_bind_ret _ _ _ _ _ E1). change (rank_stop PBSE_NONE) with (@None Z). cbv iota.
    rewrite (join_counts_run w2 [] p j1 q x2 k1 k2 (fun j =>
      increment_queued_jobs maxpathlen (QueueUih q) (a_job_owner (ji_wattr j)) p >>>
      increment_queued_jobs maxpathlen Users (a_job_owner (ji_wattr j)) p >>> st_ret None)).
    + unfold w2. rewrite put_queue_put. exact E4.
    + apply lookup_insert_eq.
    + done.
    + apply lookup_insert_eq.
    + simpl. rewrite (q_states _ _ _ _ (b_queues _ _ _ Hb q x Hx)), Hk. symmetry. by apply (states_put w p j).
  - apply map_eq. intros r. destruct (decide (r = p)) as [->|Hne]; [by rewrite lookup_insert_eq|].
    rewrite (f_jobs _ _ _ Hf r Hne). simpl. by rewrite !lookup_insert_ne.
  - intros u. rewrite Hc4. change (st_of j1) with (st_of j). simpl. rewrite (e_bits _ _ _ _ _ _ He).
    by destruct (st_of j =? JOB_STATE_COMPLETE).
  - rewrite Ek4. split; [apply (f_all _ _ _ Hf)|]. split; [apply (f_ids _ _ _ Hf)|]. done.
Qed.

Lemma enque_queue_run : exists w',
  enque_queue maxpathlen p q (id_of j) (on_server w p j l1 l2 sum, []) = Ret None (w', [])
  /\ entered w p j q x l1 l2 w' /\ exists j', w_jobs w' !! p = Some j' /\ ji_wattr j' = ji_wattr j.
Proof.
  pose proof (e_job _ _ _ _ _ _ He) as Hj. destruct (e_sum _ _ _ _ _ _ He) as (Hts & Hids & Hns & Hss).
  destruct enque_listed_run as (w4 & c & x4 & k1 & k2 & Ef & Hb4 & Ejobs & Hc4 & Eall & Eids & Hx4 & Hk & Ek4 & Esum4 & Hs4).
  assert (w_jobs w4 !! p = Some (recount c j1)) as Hj4 by (rewrite Ejobs; apply lookup_insert_eq).
  destruct (enque_sum_run w4 p (recount c j1) q x4) as (l & E5 & Hb5); rewrite ?Esum4; try done.
  { apply (e_id _ _ _ _ _ _ He). }
  { by apply (enter_find w4 [] c). }
  { rewrite Ejobs. by apply (table_put w p j). }
  { rewrite Ejobs. by apply (by_rank_put _ p j). }
  eexists. split.
  - unfold enque_queue. rewrite (st_bind_ret _ _ _ _ _ (upd_job_run (on_server w p j l1 l2 sum) [] p j _ Hj)). fold j1 w1.
    rewrite (st_bind_ret _ _ _ _ _ (get_job_run w1 [] p j1 (lookup_insert_eq _ _ _))).
    change (ji_is_array_template j1) with (ji_is_array_template j). rewrite (e_template _ _ _ _ _ _ He). cbv zeta.
    rewrite (st_bind_ret _ _ _ _ _ Ef). exact E5.
  - split; [|by exists (recount c j1)]. constructor; try done.
    + by exists (recount c j1).
    + exists (set_qu_jobs_array_sum l x4), k1, k2. simpl. by rewrite lookup_insert_eq.
    + intros r Hr. simpl. rewrite Ejobs. by rewrite lookup_insert_ne.
Qed.

End First.

(** *** The attributes, once the job is in *)

Section Attributes.
Context (w0 : world) (p : jptr) (j0 : job) (q : cstr) (st sub cnt : Z) (ck : str_attribute).
Hypothesis Hq : ji_qhdr j0 = Some q.
Let inside := during w0 p j0 st st
  (fun j => (at_state st sub j /\ ji_queue_counted j = cnt) /\ a_checkpoint (ji_wattr j) = ck).

(** [upd_job] with a body that writes other members *)
Local Ltac keep :=
  unfold inside;
  match goal with |- hoare (during ?w ?p ?j ?a ?b ?J) _ _ => apply (during_upd w p j a b J J); [done|] end;
  by intros ? [[? ?] ?].

Lemma during_lift {A B} (o : option A) (a : A) (k : A -> M B) R :
  o = Some a -> hoare inside (k a) R -> hoare inside (st_bind (st_lift o) k) R.
Proof. intros -> Hk. exact Hk. Qed.

Lemma enque_attributes_in : hoare inside (enque_attributes time_now p q) (fun _ => inside).
Proof.
  unfold enque_attributes, inside. apply (during_get_queue _ _ _ _ _ _ q); [done|]. intros x.
  apply during_get. intros j Hc [HJ HJck].
  assert (exists v, decode_str (free_str (a_in_queue (ji_wattr j))) (Some (qu_name x)) = Some v) as [v Ev].
  { unfold decode_str. repeat case_match; eauto. }
  eapply during_lift; [exact Ev|]. eapply hoare_seq; [keep|].
  eapply (hoare_seq _ _ inside).
  - case_match; [|by apply hoare_ret]. eapply hoare_seq; [keep|apply during_emit].
  - eapply hoare_seq; apply during_emit.
Qed.

Lemma eval_checkpoint_some (c : pbs_attribute) :
  (is_set ck = true -> at_val ck <> None) -> exists v, eval_checkpoint ck c = Some v.
Proof.
  intros Hck. unfold eval_checkpoint. destruct (is_set ck) eqn:Eck; simpl; [|eauto]. destruct (is_set c); simpl; [|eauto].
  destruct (at_val ck) as [pv|] eqn:Ev; [|by destruct (Hck eq_refl)]. simpl.
  repeat case_match; try (eexists; done); unfold decode_str; repeat case_match; eexists; done.
Qed.

Let out := during w0 p j0 st st (fun j => at_state st sub j /\ ji_queue_counted j = cnt).

Local Ltac keep_out :=
  unfold out; match goal with |- hoare (during ?w ?p ?j ?a ?b ?J) _ _ => by apply (during_upd w p j a b J J) end.

Lemma enque_by_type_in :
  a_depend_set (ji_wattr j0) = false -> (is_set ck = true -> at_val ck <> None) ->
  hoare inside (enque_by_type time_now depend_on_que p q) (fun rc w => rc = PBSE_NONE /\ out w).
Proof.
  intros Hdep Hck.
  assert (forall w, inside w -> out w) as Hio.
  { intros w [Hbk Hfr (j & Hj & Hc & HJ & _)]. constructor; eauto. }
  unfold enque_by_type, inside. apply (during_get_queue _ _ _ _ _ _ q); [done|]. intros x. fold inside.
  case_match; [|case_match].
  - eapply hoare_seq; [keep|]. apply during_get. intros j Hc [HJ ->].
    destruct (eval_checkpoint_some (qe_checkpoint_min x) Hck) as [v Ev].
    eapply during_lift; [exact Ev|]. eapply hoare_pre; [exact Hio|]. eapply hoare_seq; [keep_out|].
    assert (a_depend_set (ji_wattr j) = false) as ->.
    { unfold core in Hc. injection Hc. intros. congruence. }
    rewrite andb_false_r. apply (hoare_bind _ _ (fun rc w => rc = PBSE_NONE /\ out w)); [by apply hoare_ret|].
    intros rc. apply hoare_pure. intros ->. change (PBSE_NONE =? PBSE_JOBNOTFOUND) with false. cbv iota.
    apply during_get. intros j2 Hc2 HJ2. fold out.
    apply (hoare_seq _ _ out); [case_match; [keep_out|by apply hoare_ret]|].
    eapply hoare_seq; [apply during_notify|by apply hoare_ret].
  - eapply hoare_pre; [exact Hio|]. eapply hoare_seq; [keep_out|by apply hoare_ret].
  - apply hoare_ret. auto.
Qed.

End Attributes.

(** ** [svr_enquejob] *)

(** The queue once the place that was reserved is given back *)
Definition unreserve (have_reservation : bool) (x : pbs_queue) : pbs_queue :=
  if have_reservation then set_qu_reserved_jobs (qu_reserved_jobs x - 1) x else x.

Lemma unreserve_same b x : qu_jobs (unreserve b x) = qu_jobs x /\ qu_jobs_array_sum (unreserve b x) = qu_jobs_array_sum x
  /\ q_being_recycled (unreserve b x) = q_being_recycled x.
Proof. by destruct b. Qed.

Definition before_limits (w : world) (q : cstr) (x : pbs_queue) (b : bool) (j : job) : world :=
  set_w_calls (w_calls w ++ [CRemoveProcct (id_of j)]) (put_queue q (unreserve b x) w).

Lemma before_limits_ok w p j q x prev b :
  books actual actual w -> enterable w p j q x prev ->
  books actual actual (before_limits w q x b j) /\ enterable (before_limits w q x b j) p j q (unreserve b x) prev.
Proof.
  intros Hb He. split.
  - assert (books actual actual (put_queue q (unreserve b x) w)) as [].
    { destruct He. apply (books_put_queue _ _ w q x); [done|done|by destruct b|].
      destruct (b_queues _ _ _ Hb q x e_queue0). destruct b; by constructor. }
    by constructor.
  - destruct (unreserve_same b x) as (E1 & E2 & E3). destruct He. constructor; rewrite ?E1, ?E2, ?E3; try done.
    simpl. by rewrite lookup_insert_eq.
Qed.

(** What happens once the limits have let the job in *)
Lemma enque_rest_run w p j q x prev :
  books actual actual w -> enterable w p j q x prev ->
  exists w' l1 l2, alljobs w = l1 ++ l2 /\ entered w p j q x l1 l2 w'
    /\ (enque_server p prev >>> enque_summary p >>?
         let* stop := enque_queue maxpathlen p q (id_of j) in
         match stop with
         | Some rc => st_ret rc
         | None => enque_attributes time_now p q >>> enque_by_type time_now depend_on_que p q
         end) (w, []) = Ret PBSE_NONE (w', []).
Proof.
  intros Hb He. pose proof (e_job _ _ _ _ _ _ He) as Hj. pose proof (e_template _ _ _ _ _ _ He) as Ht.
  destruct (enque_server_run w [] p j prev Hb Hj Ht (e_new _ _ _ _ _ _ He) (e_prev _ _ _ _ _ _ He)) as (l1 & l2 & Hl & E1).
  set (w1 := set_sv_jobstates _ _) in E1. destruct (enque_summary_run w1 p j Hj Ht) as (sum & E2).
  destruct (enque_queue_run w p j q x prev l1 l2 sum Hb He Hl) as (w3 & E3 & Hen & j3 & Hj3 & Ea3).
  destruct (en_job _ _ _ _ _ _ _ _ Hen) as (j3' & Hj3' & Hc & Est & Esub & Hbits).
  rewrite Hj3 in Hj3'. injection Hj3' as <-.
  assert (ji_qhdr j3 = Some q /\ a_depend_set (ji_wattr j3) = false) as [Hq3 Hd3].
  { split; [|rewrite Ea3; apply (e_depend _ _ _ _ _ _ He)]. by destruct (core_facts _ _ Hc) as (_ & -> & _). }
  pose proof (en_books _ _ _ _ _ _ _ _ Hen) as Hb3.
  destruct (enque_attributes_in w3 p j3 q (st_of j) (sub_of j) (ji_queue_counted j3) (a_checkpoint (ji_wattr j)) Hq3 w3) as ([] & w4 & E4 & H4).
  { destruct (during_start w3 p j3 Hb3 Hj3) as [Hbk Hfr _]. rewrite <- Est, <- Esub.
    constructor; [done|done|]. exists j3. rewrite Ea3. done. }
  destruct (enque_by_type_in w3 p j3 q (st_of j) (sub_of j) (ji_queue_counted j3) (a_checkpoint (ji_wattr j)) Hq3 Hd3
    (e_checkpoint _ _ _ _ _ _ He) w4 H4) as (rc & w5 & E5 & -> & H5).
  exists w5, l1, l2. split; [done|]. split; [|].
  2: { rewrite (st_bind_ret _ _ _ _ _ E1), (st_bind_ret _ _ _ _ _ E2). change (PBSE_NONE =? 0) with true. cbv iota.
       unfold w1, on_server in *. rewrite (st_bind_ret _ _ _ _ _ E3), (st_bind_ret _ _ _ _ _ E4). exact E5. }
  destruct H5 as [Hb5 Hf5 (j5 & Hj5 & Hc5 & [Est5 Esub5] & Ecnt5)]. destruct Hen. constructor.
  - apply (books_views _ _ _ _ w5 Hb5); intros r jr Hr; symmetry; rewrite <- Est5; by apply (seen_actual w5 p j5 Hj5).
  - exists j5. split; [done|]. split; [congruence|]. by rewrite Ecnt5.
  - by rewrite (f_all _ _ _ Hf5).
  - destruct en_queue0 as (x' & k1 & k2 & Hx' & Hk & Ek & Hs). pose proof (f_queues _ _ _ Hf5 q) as Eq.
    rewrite Hx' in Eq. destruct (w_queues w5 !! q) as [x5|]; [|done]. simpl in Eq.
    assert (qu_jobs x5 = qu_jobs x') as Ej5 by (by injection Eq). exists x5, k1, k2. by rewrite Ej5.
  - intros r Hr. rewrite (f_jobs _ _ _ Hf5 r Hr). auto.
Qed.

Lemma entered_before w p j q x b l1 l2 w' :
  entered (before_limits w q x b j) p j q (unreserve b x) l1 l2 w' -> entered w p j q x l1 l2 w'.
Proof. destruct (unreserve_same b x) as (E & _). intros []. rewrite E in en_queue0. by constructor. Qed.

Lemma svr_enquejob_run w p j q x prev have_reservation being_recovered :
  books actual actual w -> enterable w p j q x prev ->
  exists rc w', svr_enquejob maxpathlen time_now depend_on_que (Some p) prev have_reservation being_recovered (w, [])
      = Ret rc (w', [])
    /\ books actual actual w'
    /\ rc = (if qa_ghost_queue x && negb being_recovered then PBSE_GHOSTQUEUE
             else limit_answer (w_jobs w) (unreserve have_reservation x) (user_of j))
    /\ (if rc =? PBSE_NONE then exists l1 l2, alljobs w = l1 ++ l2 /\ entered w p j q x l1 l2 w'
        else w_jobs w' = w_jobs w /\ alljobs w' = alljobs w).
Proof.
  intros Hb He. pose proof (e_job _ _ _ _ _ _ He) as Hj. pose proof (e_queue _ _ _ _ _ _ He) as Hx.
  assert (find_queuebyname (ji_queue (ji_qs j)) (w, []) = Ret (Some q) (w, [])) as E1.
  { unfold find_queuebyname. rewrite (e_name _ _ _ _ _ _ He). unfold st_bind, gets.
    by rewrite Hx, (e_qlive _ _ _ _ _ _ He). }
  assert (window (w, []) = Ret tt (w, [])) as E0 by done.
  unfold svr_enquejob, non_null. rewrite (st_bind_ret _ _ _ _ _ (get_job_run w [] p j Hj)).
  rewrite (st_bind_ret _ _ _ _ _ E0), (st_bind_ret _ _ _ _ _ E1), (st_bind_ret _ _ _ _ _ (get_queue_run w [] q x Hx)).
  destruct (qa_ghost_queue x && negb being_recovered); [by exists PBSE_GHOSTQUEUE, w|].
  destruct (before_limits_ok w p j q x prev have_reservation Hb He) as [Hb2 He2].
  set (w1 := put_queue q (unreserve have_reservation x) w). set (w2 := before_limits w q x have_reservation j) in *.
  assert ((if have_reservation then upd_queue q (fun x => set_qu_reserved_jobs (qu_reserved_jobs x - 1) x)
           else st_ret tt) (w, []) = Ret tt (w1, [])) as E2.
  { destruct have_reservation; [by apply upd_queue_run|]. unfold w1. simpl. by rewrite put_queue_id. }
  rewrite (st_bind_ret _ _ _ _ _ E2), (st_bind_ret _ _ _ _ _ (get_job_run w1 [] p j Hj)).
  rewrite (e_live _ _ _ _ _ _ He). assert (emit (CRemoveProcct (id_of j)) (w1, []) = Ret tt (w2, [])) as E3 by done.
  rewrite (st_bind_ret _ _ _ _ _ E3).
  rewrite (st_bind_ret _ _ _ _ _ (enque_limits_run w2 [] p j q _ Hb2 Hj (e_template _ _ _ _ _ _ He) (e_queue _ _ _ _ _ _ He2))).
  change (w_jobs w2) with (w_jobs w). set (rc := limit_answer _ _ _).
  destruct (rc =? 0) eqn:Hrc.
  - destruct (enque_rest_run w2 p j q _ prev Hb2 He2) as (w' & l1 & l2 & Hl & Hen & E4). apply Z.eqb_eq in Hrc.
    exists PBSE_NONE, w'. split; [exact E4|]. split; [by destruct Hen|]. split; [done|].
    exists l1, l2. split; [done|]. by eapply entered_before.
  - exists rc, w2. split; [done|]. split; [done|]. split; [done|]. change (rc =? PBSE_NONE) with (rc =? 0). by rewrite Hrc.
Qed.

(** One job more in every count: the server and the queue have one job more, and one more
    in its state; its user has one more counted in both, unless the job is completed. *)
Record counted_once (w : world) (j : job) (q : cstr) (x : pbs_queue) (w' : world) : Prop := {
  once_num : sv_numjobs w' = sv_numjobs w + 1;
  once_state : bump (st_of j) 1 (sv_jobstates w) = Some (sv_jobstates w');
  once_user u : default 0 (users w' !! u) = default 0 (users w !! u)
    + (if bool_decide (u = user_of j) && negb (st_of j =? JOB_STATE_COMPLETE) then 1 else 0);
  once_queue : exists x', w_queues w' !! q = Some x' /\ qu_numjobs x' = qu_numjobs x + 1
    /\ bump (st_of j) 1 (qu_njstate x) = Some (qu_njstate x')
    /\ forall u, default 0 (qu_uih x' !! u) = default 0 (qu_uih x !! u)
         + (if bool_decide (u = user_of j) && negb (st_of j =? JOB_STATE_COMPLETE) then 1 else 0)
}.

Lemma entered_counts w p j q x prev l1 l2 w' :
  books actual actual w -> enterable w p j q x prev -> alljobs w = l1 ++ l2 ->
  entered w p j q x l1 l2 w' -> counted_once w j q x w'.
Proof.
  intros Hb He Hl [Hb' (j' & Hj' & Hc & Est & _ & Hbits) Ea (x' & k1 & k2 & Hx' & Hk & Ek & _) Ho].
  pose proof (e_job _ _ _ _ _ _ He) as Hj. pose proof (e_queue _ _ _ _ _ _ He) as Hx.
  destruct (core_facts _ _ Hc) as (_ & _ & _ & _ & Eu). change (user_of (set_ji_qhdr _ j)) with (user_of j) in Eu.
  pose proof (added_out w p j Hb Hj (e_new _ _ _ _ _ _ He)) as Hout.
  assert (p ∉ ptrs (qu_jobs x)) as Houtq.
  { intros (i & Hi & E)%ptrs_elem. apply (e_new _ _ _ _ _ _ He), (queue_ids w Hb q x); [done|].
    destruct (t_jobs _ _ (q_table _ _ _ _ (b_queues _ _ _ Hb q x Hx)) i Hi) as (ji & Hji & Eid).
    rewrite E, Hj in Hji. injection Hji as <-. rewrite Eid. by apply list_elem_of_fmap_2. }
  assert (forall P l, p ∉ ptrs l -> tally P (w_jobs w') l = tally P (w_jobs w) l) as Hext.
  { intros P l Hp. apply tally_ext. intros r Hr. unfold weigh. rewrite Ho; [done|]. intros ->. done. }
  assert (forall P m1 m2, p ∉ ptrs (m1 ++ m2) ->
    tally P (w_jobs w') (m1 ++ Item (id_of j) p :: m2) = tally P (w_jobs w) (m1 ++ m2) + (if P p j' then 1 else 0)) as Hins.
  { intros P m1 m2 Hp. rewrite tally_insert, Hext by done. unfold weigh. by rewrite Hj'. }
  assert (forall m1 m2, p ∉ ptrs (m1 ++ m2) ->
    bump (st_of j) 1 (states_of actual (w_jobs w) (m1 ++ m2))
    = Some (states_of actual (w_jobs w') (m1 ++ Item (id_of j) p :: m2))) as Hbump.
  { intros m1 m2 Hp. apply bump_fmap; [exact (b_range _ _ _ Hb p j Hj)|]. intros k. rewrite Hins by done. unfold actual.
    rewrite Est. destruct (Z.eqb_spec (st_of j) (Z.of_nat k)); case_decide; lia. }
  assert (forall u v, counted (uih_bit u) v p j'
    = bool_decide (v = user_of j) && negb (st_of j =? JOB_STATE_COMPLETE)) as Hcnt.
  { intros u v. unfold counted. rewrite Hbits, Eu, andb_comm. f_equal. apply bool_decide_ext. naive_solver. }
  pose proof (b_queues _ _ _ Hb q x Hx) as Hq. pose proof (b_queues _ _ _ Hb' q x' Hx') as Hq'.
  rewrite Hl in Hout. rewrite Hk in Houtq. constructor.
  - rewrite (b_num _ _ _ Hb'), (b_num _ _ _ Hb), Ea, Hl. unfold zlen. rewrite !length_app. simpl. lia.
  - rewrite (b_states _ _ _ Hb'), (b_states _ _ _ Hb), Ea, Hl. by apply Hbump.
  - intros u. rewrite (b_users _ _ _ Hb'), (b_users _ _ _ Hb), Ea, Hl, Hins by done. by rewrite (Hcnt Users).
  - exists x'. split; [done|]. split; [|split].
    + rewrite (q_num _ _ _ _ Hq'), (q_num _ _ _ _ Hq), Ek, Hk. unfold zlen. rewrite !length_app. simpl. lia.
    + rewrite (q_states _ _ _ _ Hq'), (q_states _ _ _ _ Hq), Ek, Hk. by apply Hbump.
    + intros u. rewrite (q_users _ _ _ _ Hq'), (q_users _ _ _ _ Hq), Ek, Hk, Hins by done.
      by rewrite (Hcnt (QueueUih q)).
Qed.

(** C7: [svr_enquejob] puts a new job into the server and its queue, or refuses it, with the
    books balanced either way.  The job is [enterable]: no array template and no array
    request, without dependencies, not counted yet, its id in no table and found by that
    id, its queue there and in the order of the ranks.  It is refused exactly when the
    queue is a ghost (outside a recovery), or the jobs of the queue that are not completed,
    or those of the user that are counted there, with the places that are reserved reach
    the queue's limit.  A job that enters stands in the table behind the job it was to
    follow, in its queue behind the jobs of smaller rank, and every count goes up by
    exactly one: the jobs of the server and of the queue, those in its state, and, unless
    it is completed, those of its user in both. *)
Theorem svr_enquejob_books w p j q x prev have_reservation being_recovered :
  books actual actual w -> enterable w p j q x prev ->
  exists rc w', svr_enquejob maxpathlen time_now depend_on_que (Some p) prev have_reservation being_recovered (w, [])
      = Ret rc (w', [])
    /\ books actual actual w'
    /\ rc = (if qa_ghost_queue x && negb being_recovered then PBSE_GHOSTQUEUE
             else limit_answer (w_jobs w) (unreserve have_reservation x) (user_of j))
    /\ (if rc =? PBSE_NONE
        then exists l1 l2, alljobs w = l1 ++ l2 /\ entered w p j q x l1 l2 w' /\ counted_once w j q x w'
        else w_jobs w' = w_jobs w /\ alljobs w' = alljobs w).
Proof.
  intros Hb He. destruct (svr_enquejob_run w p j q x prev have_reservation being_recovered Hb He)
    as (rc & w' & E & Hb' & Hrc & Hin). exists rc, w'. split; [exact E|]. split; [exact Hb'|]. split; [exact Hrc|].
  destruct (rc =? PBSE_NONE); [|exact Hin]. destruct Hin as (l1 & l2 & Hl & Hen). exists l1, l2.
  split; [exact Hl|]. split; [exact Hen|]. by apply (entered_counts w p j q x prev l1 l2).
Qed.

(** The counts of the server are determined by its table: two worlds whose tables are the
    same, of jobs that are the same there, count the same. *)
Lemma books_determine w w' :
  books actual actual w -> books actual actual w' -> alljobs w' = alljobs w ->
  (forall r, r ∈ ptrs (alljobs w) -> w_jobs w' !! r = w_jobs w !! r) ->
  sv_numjobs w' = sv_numjobs w /\ sv_jobstates w' = sv_jobstates w
  /\ forall u, default 0 (users w' !! u) = default 0 (users w !! u).
Proof.
  intros [] [] Ea Ej. rewrite b_num0, b_num, b_states0, b_states, Ea. split; [done|].
  assert (forall P, tally P (w_jobs w') (alljobs w) = tally P (w_jobs w) (alljobs w)) as Ht.
  { intros P. apply tally_ext. intros r Hr. unfold weigh. by rewrite Ej. }
  split; [|intros u; rewrite b_users0, b_users, Ea; apply Ht].
  unfold states_of. apply list_fmap_ext. intros _ k _. apply Ht.
Qed.

(** C16: A job that enters and leaves again leaves the server as it was: the table, the number
    of jobs, the counts by state and those of every user.  The job is [enterable], in any
    state but running, a completed one being recovered included, and the queue takes it. *)
Theorem enqueue_dequeue_roundtrip w p j q x prev have_reservation being_recovered mutex :
  books actual actual w -> enterable w p j q x prev ->
  st_of j <> JOB_STATE_RUNNING ->
  qa_ghost_queue x && negb being_recovered = false ->
  limit_answer (w_jobs w) (unreserve have_reservation x) (user_of j) = PBSE_NONE ->
  exists w', (svr_enquejob maxpathlen time_now depend_on_que (Some p) prev have_reservation being_recovered >>?
              svr_dequejob (Some p) mutex) (w, []) = Ret PBSE_NONE (w', [])
    /\ books actual actual w' /\ alljobs w' = alljobs w
    /\ sv_numjobs w' = sv_numjobs w /\ sv_jobstates w' = sv_jobstates w
    /\ forall u, default 0 (users w' !! u) = default 0 (users w !! u).
Proof.
  intros Hb He Hrun Hg Hlim.
  destruct (svr_enquejob_run w p j q x prev have_reservation being_recovered Hb He) as (rc & w1 & E1 & Hb1 & Hrc & Hin).
  rewrite Hg, Hlim in Hrc. subst rc. destruct Hin as (l1 & l2 & Hl & Hen).
  destruct (en_job _ _ _ _ _ _ _ _ Hen) as (j1 & Hj1 & Hc & Est & Esub & Hbits).
  destruct (core_facts _ _ Hc) as (Eid & Eq & Et & _). simpl in Eq. change (ji_is_array_template (set_ji_qhdr _ j)) with (ji_is_array_template j) in Et.
  rewrite (e_template _ _ _ _ _ _ He) in Et. change (id_of (set_ji_qhdr _ j)) with (id_of j) in Eid.
  destruct (svr_dequejob_run w1 p j1 q mutex Hb1 Hj1 Eq Et) as (w2 & j2 & E2 & Hb2 & _ & _ & Hoth & Ha);
    [|congruence|].
  { intros Hdone u. by rewrite Hbits, <- Est, Hdone. }
  exists w2. split; [by rewrite (st_bind_ret _ _ _ _ _ E1)|]. split; [done|].
  assert (alljobs w2 = alljobs w) as Ea.
  { rewrite Ha, (en_all _ _ _ _ _ _ _ _ Hen), Eid, Hl. apply (l_remove_at l1 l2 (Item (id_of j) p)).
    by apply (enter_id_out w p j q x prev l1 l2). }
  split; [done|]. apply books_determine; try done.
  intros r Hr. assert (r <> p) as Hne. { intros ->. by apply (added_out w p j Hb (e_job _ _ _ _ _ _ He) (e_new _ _ _ _ _ _ He)). }
  rewrite Hoth, (en_others _ _ _ _ _ _ _ _ Hen) by done. done.
Qed.

End Enter.

(** ** A server with no job *)

Definition server_none (j : job) : world :=
  let st := states_of actual {[1%nat := j]} [] in
  World {[1%nat := j]} [] [] {[[98] := queue_one [] st ∅]} [[98]] 0 st ∅ 0 0
    {| display_job_server_suffix := None; job_suffix_alias := None; server_name := [104] |} [].

(** Job "1", not yet in a queue *)
Definition job_new : job := set_ji_qhdr None (job_one JOB_STATE_QUEUED JOB_SUBSTATE_QUEUED 0).

Lemma books_server_none : books actual actual (server_none job_new).
Proof.
  assert (forall l : all_jobs, l = [] -> table_ok {[1%nat := job_new]} l) as Ht.
  { intros l ->. split; [constructor|]. set_solver. }
  constructor; simpl; try done.
  - by apply Ht.
  - set_solver.
  - intros q x [<- <-]%lookup_singleton_Some. constructor; simpl; try done; [by apply Ht|set_solver].
  - intros p j q [<- <-]%lookup_singleton_Some. done.
  - intros p j [<- <-]%lookup_singleton_Some. done.
  - intros p j [<- <-]%lookup_singleton_Some. done.
  - intros p j [<- <-]%lookup_singleton_Some. done.
Qed.

Lemma enterable_none : enterable (server_none job_new) 1%nat job_new [98] (queue_one [] (states_of actual {[1%nat := job_new]} []) ∅) None.
Proof.
  constructor; try done.
  - simpl. set_solver.
  - constructor.
  - simpl. split; [split; [constructor|]; set_solver|]. split; [set_solver|]. split; constructor.
Qed.

Lemma svr_enquejob_books_witness :
  exists rc w', @svr_enquejob generous 1024%nat 5 (fun _ => st_ret 0) (Some 1%nat) None false false (server_none job_new, [])
    = Ret rc (w', []) /\ books actual actual w' /\ rc = PBSE_NONE
    /\ sv_numjobs w' = 1 /\ default 0 (users w' !! [117]) = 1.
Proof.
  destruct (@svr_enquejob_books generous 1024%nat 5 (fun _ => st_ret 0) (server_none job_new) 1%nat job_new [98] _ None
    false false books_server_none enterable_none) as (rc & w' & E & Hb & Hrc & Hin).
  assert (rc = PBSE_NONE) as H0 by (rewrite Hrc; reflexivity).
  exists rc, w'. split; [exact E|]. split; [exact Hb|]. split; [exact H0|]. rewrite H0 in Hin.
  destruct Hin as (l1 & l2 & _ & _ & Hn). split; [apply (once_num _ _ _ _ _ Hn)|apply (once_user _ _ _ _ _ Hn [117])].
Defined.

Lemma enqueue_dequeue_roundtrip_witness :
  exists w', (@svr_enquejob generous 1024%nat 5 (fun _ => st_ret 0) (Some 1%nat) None false false >>?
              svr_dequejob (Some 1%nat) false) (server_none job_new, []) = Ret PBSE_NONE (w', [])
    /\ alljobs w' = [] /\ sv_numjobs w' = 0.
Proof.
  destruct (@enqueue_dequeue_roundtrip generous 1024%nat 5 (fun _ => st_ret 0) (server_none job_new) 1%nat job_new [98] _ None
    false false false books_server_none enterable_none) as (w' & E & _ & Ea & En & _).
  - discriminate.
  - reflexivity.
  - reflexivity.
  - exists w'. split; [exact E|]. split; [exact Ea|exact En].
Defined.
