(* ===== verification/SchedData.v ===== *)
(** * The FIFO scheduler: data and small functions (src/src/scheduler.cc/samples/fifo)

    A scheduling cycle reads the server, its queues, jobs and nodes into structures of its
    own and walks over the jobs.  The structures that are shared by pointers (jobs, queues,
    nodes, the shares of a user) lie in lists and a pointer is a place in the list; an array
    ended by NULL is the list of its pointers.  [float] is IEEE single precision.  What
    pbs_server is told and asked is recorded in [w_events]; its answers are parameters that
    may depend on everything said before.  [long] arithmetic wraps round.  Logging and the
    token accounting file are left out. *)

From Stdlib Require Import ZArith Lia String Ascii SpecFloat.
From stdpp Require Import base list numbers option.
From S2P Require Import Prelude CLib Attrs.

Local Open Scope Z_scope.

(** ** Constants *)

Definition str (s : string) : list Z := map (fun a => Z.of_N (N_of_ascii a)) (list_ascii_of_string s).

Definition UNSPECIFIED : Z := -1.
Definition INFINITY_VAL : Z := -2.
Definition RET_BASE : Z := 1000.
Definition SUCCESS : Z := RET_BASE + 1.
Definition SCHD_ERROR : Z := RET_BASE + 2.
Definition NOT_QUEUED : Z := RET_BASE + 3.
Definition QUEUE_NOT_STARTED : Z := RET_BASE + 4.
Definition QUEUE_NOT_EXEC : Z := RET_BASE + 5.
Definition QUEUE_JOB_LIMIT_REACHED : Z := RET_BASE + 6.
Definition SERVER_JOB_LIMIT_REACHED : Z := RET_BASE + 7.
Definition SERVER_USER_LIMIT_REACHED : Z := RET_BASE + 8.
Definition QUEUE_USER_LIMIT_REACHED : Z := RET_BASE + 9.
Definition SERVER_GROUP_LIMIT_REACHED : Z := RET_BASE + 10.
Definition QUEUE_GROUP_LIMIT_REACHED : Z := RET_BASE + 11.
Definition DED_TIME : Z := RET_BASE + 12.
Definition CROSS_DED_TIME_BOUNDRY : Z := RET_BASE + 13.
Definition NO_AVAILABLE_NODE : Z := RET_BASE + 14.
Definition NOT_ENOUGH_NODES_AVAIL : Z := RET_BASE + 15.
Definition JOB_STARVING : Z := RET_BASE + 16.
Definition SERVER_TOKEN_UTILIZATION : Z := RET_BASE + 17.
Definition QUEUE_IGNORED : Z := RET_BASE + 18.
Definition START_BEFORE_JOB : Z := -1.
Definition START_WITH_JOB : Z := 0.
Definition START_AFTER_JOB : Z := 1.
Definition MAX_LOG_SIZE : Z := 100.
Definition UDC_CLONEBUFSIZ : Z := 256.
Definition KILO : Z := 1024.
Definition MEGATOKILO : Z := 1024.
Definition GIGATOKILO : Z := 1048576.
Definition TERATOKILO : Z := 1073741824.
Definition SIZE_OF_WORD : Z := 8.
Definition SIZEOF_POINTER : Z := 8.

(** ** float *)

Definition float : Type := spec_float.
Definition f32 (z : Z) : float := binary_normalize 24 128 z 0 false.
Definition f32_add : float -> float -> float := SFadd 24 128.
Definition f32_div : float -> float -> float := SFdiv 24 128.

(** ** Structures *)

Abbreviation ptr := nat.

Record token := mk_token { identifier : list Z; tk_count : float }.

Record state_count := mk_state_count {
  sc_running : Z;
  sc_queued : Z;
  sc_held : Z;
  sc_transit : Z;
  sc_waiting : Z;
  sc_exiting : Z;
  sc_suspended : Z;
  sc_completed : Z;
  sc_total : Z
}.

Record resource_req := mk_resource_req { rq_name : list Z; amount : Z; res_str : cptr }.

Record resource := mk_resource { rs_name : list Z; avail : Z; rs_max : Z; assigned : Z }.

Record job_info := mk_job_info {
  is_queued : bool;
  is_running : bool;
  is_held : bool;
  is_waiting : bool;
  is_transit : bool;
  is_exiting : bool;
  is_suspended : bool;
  is_completed : bool;
  is_starving : bool;
  can_not_run : bool;
  can_never_run : bool;
  j_name : list Z;
  j_comment : cptr;
  account : cptr;
  group : cptr;
  j_queue : ptr;
  priority : Z;
  sch_priority : Z;
  qtime : Z;
  resreq : list resource_req;
  resused : list resource_req;
  ginfo : option ptr;
  job_node : option ptr
}.

Record queue_info := mk_queue_info {
  is_started : bool;
  is_exec : bool;
  is_route : bool;
  is_ok_to_run : bool;
  dedtime_queue : bool;
  q_name : list Z;
  q_sc : state_count;
  q_max_run : Z;
  q_max_user_run : Z;
  q_max_group_run : Z;
  q_priority : Z;
  qres : list resource;
  need : cptr;
  q_jobs : option (list ptr);
  q_running_jobs : option (list ptr)
}.

Record node_info := mk_node_info {
  is_free : bool;
  is_timeshare : bool;
  n_name : list Z;
  max_load : float;
  ideal_load : float;
  arch : cptr;
  physmem : Z;
  loadave : float
}.

Record group_info := mk_group_info {
  percentage : float;
  usage : Z;
  temp_usage : Z
}.

Record server_info := mk_server_info {
  s_name : list Z;
  res : list resource;
  default_queue : cptr;
  max_run : Z;
  max_user_run : Z;
  max_group_run : Z;
  num_nodes : Z;
  sc : state_count;
  queues : list ptr;
  jobs : list ptr;
  running_jobs : option (list ptr);
  timesharing_nodes : option (list ptr);
  tokens : option (list token)
}.

(** The fields of [struct config] and [struct status] that the cycle reads. *)
Record config := mk_config {
  ded_from : Z; ded_to : Z; ded_prefix : list Z; max_starve : Z; ignored_queues : list cptr
}.

Inductive sort_type :=
| NO_SORT | SHORTEST_JOB_FIRST | LONGEST_JOB_FIRST | SMALLEST_MEM_FIRST | LARGEST_MEM_FIRST
| HIGH_PRIORITY_FIRST | LOW_PRIORITY_FIRST | LARGE_WALLTIME_FIRST | SHORT_WALLTIME_FIRST
| FAIR_SHARE | MULTI_SORT.
#[export] Instance sort_type_eq_dec : EqDecision sort_type.
Proof. solve_decision. Defined.

Record status := mk_status {
  round_robin : bool; by_queue : bool; strict_fifo : bool; fair_share : bool;
  load_balancing : bool; load_balancing_rr : bool; help_starving_jobs : bool;
  sort_queues : bool; is_ded_time : bool; sort_by : list sort_type; current_time : Z
}.

(** What is sent to pbs_server, with its answer where there is one. *)
Inductive event :=
| RunJob (p : ptr) (node : cptr) (rc : Z)
| RescQuery (query : list Z) (rc av : Z)
| DelJob (p : ptr)
| AlterComment (p : ptr) (comment : list Z)
| AlterNeednodes (p : ptr) (need : list Z).

Record sched := mk_sched {
  w_jobs : list job_info;
  w_queues : list queue_info;
  w_nodes : list node_info;
  w_groups : list group_info;
  sinfo : server_info;
  last_queue : Z;
  last_job : Z;
  cjobs : list (option (list ptr));
  last_node_name : list Z;
  starving_job : option ptr;
  w_events : list event
}.

(** ** Fields *)

Definition set_sc_running (v : Z) (c : state_count) : state_count :=
  mk_state_count v (sc_queued c) (sc_held c) (sc_transit c) (sc_waiting c) (sc_exiting c) (sc_suspended c) (sc_completed c) (sc_total c).
Definition set_sc_queued (v : Z) (c : state_count) : state_count :=
  mk_state_count (sc_running c) v (sc_held c) (sc_transit c) (sc_waiting c) (sc_exiting c) (sc_suspended c) (sc_completed c) (sc_total c).
Definition set_sc_held (v : Z) (c : state_count) : state_count :=
  mk_state_count (sc_running c) (sc_queued c) v (sc_transit c) (sc_waiting c) (sc_exiting c) (sc_suspended c) (sc_completed c) (sc_total c).
Definition set_sc_transit (v : Z) (c : state_count) : state_count :=
  mk_state_count (sc_running c) (sc_queued c) (sc_held c) v (sc_waiting c) (sc_exiting c) (sc_suspended c) (sc_completed c) (sc_total c).
Definition set_sc_waiting (v : Z) (c : state_count) : state_count :=
  mk_state_count (sc_running c) (sc_queued c) (sc_held c) (sc_transit c) v (sc_exiting c) (sc_suspended c) (sc_completed c) (sc_total c).
Definition set_sc_exiting (v : Z) (c : state_count) : state_count :=
  mk_state_count (sc_running c) (sc_queued c) (sc_held c) (sc_transit c) (sc_waiting c) v (sc_suspended c) (sc_completed c) (sc_total c).
Definition set_sc_suspended (v : Z) (c : state_count) : state_count :=
  mk_state_count (sc_running c) (sc_queued c) (sc_held c) (sc_transit c) (sc_waiting c) (sc_exiting c) v (sc_completed c) (sc_total c).
Definition set_sc_completed (v : Z) (c : state_count) : state_count :=
  mk_state_count (sc_running c) (sc_queued c) (sc_held c) (sc_transit c) (sc_waiting c) (sc_exiting c) (sc_suspended c) v (sc_total c).
Definition set_sc_total (v : Z) (c : state_count) : state_count :=
  mk_state_count (sc_running c) (sc_queued c) (sc_held c) (sc_transit c) (sc_waiting c) (sc_exiting c) (sc_suspended c) (sc_completed c) v.
Definition set_is_queued (v : bool) (j : job_info) : job_info :=
  mk_job_info v (is_running j) (is_held j) (is_waiting j) (is_transit j) (is_exiting j) (is_suspended j) (is_completed j) (is_starving j) (can_not_run j) (can_never_run j) (j_name j) (j_comment j) (account j) (group j) (j_queue j) (priority j) (sch_priority j) (qtime j) (resreq j) (resused j) (ginfo j) (job_node j).
Definition set_is_running (v : bool) (j : job_info) : job_info :=
  mk_job_info (is_queued j) v (is_held j) (is_waiting j) (is_transit j) (is_exiting j) (is_suspended j) (is_completed j) (is_starving j) (can_not_run j) (can_never_run j) (j_name j) (j_comment j) (account j) (group j) (j_queue j) (priority j) (sch_priority j) (qtime j) (resreq j) (resused j) (ginfo j) (job_node j).
Definition set_is_held (v : bool) (j : job_info) : job_info :=
  mk_job_info (is_queued j) (is_running j) v (is_waiting j) (is_transit j) (is_exiting j) (is_suspended j) (is_completed j) (is_starving j) (can_not_run j) (can_never_run j) (j_name j) (j_comment j) (account j) (group j) (j_queue j) (priority j) (sch_priority j) (qtime j) (resreq j) (resused j) (ginfo j) (job_node j).
Definition set_is_waiting (v : bool) (j : job_info) : job_info :=
  mk_job_info (is_queued j) (is_running j) (is_held j) v (is_transit j) (is_exiting j) (is_suspended j) (is_completed j) (is_starving j) (can_not_run j) (can_never_run j) (j_name j) (j_comment j) (account j) (group j) (j_queue j) (priority j) (sch_priority j) (qtime j) (resreq j) (resused j) (ginfo j) (job_node j).
Definition set_is_transit (v : bool) (j : job_info) : job_info :=
  mk_job_info (is_queued j) (is_running j) (is_held j) (is_waiting j) v (is_exiting j) (is_suspended j) (is_completed j) (is_starving j) (can_not_run j) (can_never_run j) (j_name j) (j_comment j) (account j) (group j) (j_queue j) (priority j) (sch_priority j) (qtime j) (resreq j) (resused j) (ginfo j) (job_node j).
Definition set_is_exiting (v : bool) (j : job_info) : job_info :=
  mk_job_info (is_queued j) (is_running j) (is_held j) (is_waiting j) (is_transit j) v (is_suspended j) (is_completed j) (is_starving j) (can_not_run j) (can_never_run j) (j_name j) (j_comment j) (account j) (group j) (j_queue j) (priority j) (sch_priority j) (qtime j) (resreq j) (resused j) (ginfo j) (job_node j).
Definition set_is_suspended (v : bool) (j : job_info) : job_info :=
  mk_job_info (is_queued j) (is_running j) (is_held j) (is_waiting j) (is_transit j) (is_exiting j) v (is_completed j) (is_starving j) (can_not_run j) (can_never_run j) (j_name j) (j_comment j) (account j) (group j) (j_queue j) (priority j) (sch_priority j) (qtime j) (resreq j) (resused j) (ginfo j) (job_node j).
Definition set_is_completed (v : bool) (j : job_info) : job_info :=
  mk_job_info (is_queued j) (is_running j) (is_held j) (is_waiting j) (is_transit j) (is_exiting j) (is_suspended j) v (is_starving j) (can_not_run j) (can_never_run j) (j_name j) (j_comment j) (account j) (group j) (j_queue j) (priority j) (sch_priority j) (qtime j) (resreq j) (resused j) (ginfo j) (job_node j).
Definition set_is_starving (v : bool) (j : job_info) : job_info :=
  mk_job_info (is_queued j) (is_running j) (is_held j) (is_waiting j) (is_transit j) (is_exiting j) (is_suspended j) (is_completed j) v (can_not_run j) (can_never_run j) (j_name j) (j_comment j) (account j) (group j) (j_queue j) (priority j) (sch_priority j) (qtime j) (resreq j) (resused j) (ginfo j) (job_node j).
Definition set_can_not_run (v : bool) (j : job_info) : job_info :=
  mk_job_info (is_queued j) (is_running j) (is_held j) (is_waiting j) (is_transit j) (is_exiting j) (is_suspended j) (is_completed j) (is_starving j) v (can_never_run j) (j_name j) (j_comment j) (account j) (group j) (j_queue j) (priority j) (sch_priority j) (qtime j) (resreq j) (resused j) (ginfo j) (job_node j).
Definition set_can_never_run (v : bool) (j : job_info) : job_info :=
  mk_job_info (is_queued j) (is_running j) (is_held j) (is_waiting j) (is_transit j) (is_exiting j) (is_suspended j) (is_completed j) (is_starving j) (can_not_run j) v (j_name j) (j_comment j) (account j) (group j) (j_queue j) (priority j) (sch_priority j) (qtime j) (resreq j) (resused j) (ginfo j) (job_node j).
Definition set_j_comment (v : cptr) (j : job_info) : job_info :=
  mk_job_info (is_queued j) (is_running j) (is_held j) (is_waiting j) (is_transit j) (is_exiting j) (is_suspended j) (is_completed j) (is_starving j) (can_not_run j) (can_never_run j) (j_name j) v (account j) (group j) (j_queue j) (priority j) (sch_priority j) (qtime j) (resreq j) (resused j) (ginfo j) (job_node j).
Definition set_account (v : cptr) (j : job_info) : job_info :=
  mk_job_info (is_queued j) (is_running j) (is_held j) (is_waiting j) (is_transit j) (is_exiting j) (is_suspended j) (is_completed j) (is_starving j) (can_not_run j) (can_never_run j) (j_name j) (j_comment j) v (group j) (j_queue j) (priority j) (sch_priority j) (qtime j) (resreq j) (resused j) (ginfo j) (job_node j).
Definition set_group (v : cptr) (j : job_info) : job_info :=
  mk_job_info (is_queued j) (is_running j) (is_held j) (is_waiting j) (is_transit j) (is_exiting j) (is_suspended j) (is_completed j) (is_starving j) (can_not_run j) (can_never_run j) (j_name j) (j_comment j) (account j) v (j_queue j) (priority j) (sch_priority j) (qtime j) (resreq j) (resused j) (ginfo j) (job_node j).
Definition set_j_queue (v : ptr) (j : job_info) : job_info :=
  mk_job_info (is_queued j) (is_running j) (is_held j) (is_waiting j) (is_transit j) (is_exiting j) (is_suspended j) (is_completed j) (is_starving j) (can_not_run j) (can_never_run j) (j_name j) (j_comment j) (account j) (group j) v (priority j) (sch_priority j) (qtime j) (resreq j) (resused j) (ginfo j) (job_node j).
Definition set_priority (v : Z) (j : job_info) : job_info :=
  mk_job_info (is_queued j) (is_running j) (is_held j) (is_waiting j) (is_transit j) (is_exiting j) (is_suspended j) (is_completed j) (is_starving j) (can_not_run j) (can_never_run j) (j_name j) (j_comment j) (account j) (group j) (j_queue j) v (sch_priority j) (qtime j) (resreq j) (resused j) (ginfo j) (job_node j).
Definition set_sch_priority (v : Z) (j : job_info) : job_info :=
  mk_job_info (is_queued j) (is_running j) (is_held j) (is_waiting j) (is_transit j) (is_exiting j) (is_suspended j) (is_completed j) (is_starving j) (can_not_run j) (can_never_run j) (j_name j) (j_comment j) (account j) (group j) (j_queue j) (priority j) v (qtime j) (resreq j) (resused j) (ginfo j) (job_node j).
Definition set_qtime (v : Z) (j : job_info) : job_info :=
  mk_job_info (is_queued j) (is_running j) (is_held j) (is_waiting j) (is_transit j) (is_exiting j) (is_suspended j) (is_completed j) (is_starving j) (can_not_run j) (can_never_run j) (j_name j) (j_comment j) (account j) (group j) (j_queue j) (priority j) (sch_priority j) v (resreq j) (resused j) (ginfo j) (job_node j).
Definition set_resreq (v : list resource_req) (j : job_info) : job_info :=
  mk_job_info (is_queued j) (is_running j) (is_held j) (is_waiting j) (is_transit j) (is_exiting j) (is_suspended j) (is_completed j) (is_starving j) (can_not_run j) (can_never_run j) (j_name j) (j_comment j) (account j) (group j) (j_queue j) (priority j) (sch_priority j) (qtime j) v (resused j) (ginfo j) (job_node j).
Definition set_resused (v : list resource_req) (j : job_info) : job_info :=
  mk_job_info (is_queued j) (is_running j) (is_held j) (is_waiting j) (is_transit j) (is_exiting j) (is_suspended j) (is_completed j) (is_starving j) (can_not_run j) (can_never_run j) (j_name j) (j_comment j) (account j) (group j) (j_queue j) (priority j) (sch_priority j) (qtime j) (resreq j) v (ginfo j) (job_node j).
Definition set_ginfo (v : option ptr) (j : job_info) : job_info :=
  mk_job_info (is_queued j) (is_running j) (is_held j) (is_waiting j) (is_transit j) (is_exiting j) (is_suspended j) (is_completed j) (is_starving j) (can_not_run j) (can_never_run j) (j_name j) (j_comment j) (account j) (group j) (j_queue j) (priority j) (sch_priority j) (qtime j) (resreq j) (resused j) v (job_node j).
Definition set_job_node (v : option ptr) (j : job_info) : job_info :=
  mk_job_info (is_queued j) (is_running j) (is_held j) (is_waiting j) (is_transit j) (is_exiting j) (is_suspended j) (is_completed j) (is_starving j) (can_not_run j) (can_never_run j) (j_name j) (j_comment j) (account j) (group j) (j_queue j) (priority j) (sch_priority j) (qtime j) (resreq j) (resused j) (ginfo j) v.
Definition set_is_started (v : bool) (q : queue_info) : queue_info :=
  mk_queue_info v (is_exec q) (is_route q) (is_ok_to_run q) (dedtime_queue q) (q_name q) (q_sc q) (q_max_run q) (q_max_user_run q) (q_max_group_run q) (q_priority q) (qres q) (need q) (q_jobs q) (q_running_jobs q).
Definition set_is_exec (v : bool) (q : queue_info) : queue_info :=
  mk_queue_info (is_started q) v (is_route q) (is_ok_to_run q) (dedtime_queue q) (q_name q) (q_sc q) (q_max_run q) (q_max_user_run q) (q_max_group_run q) (q_priority q) (qres q) (need q) (q_jobs q) (q_running_jobs q).
Definition set_is_route (v : bool) (q : queue_info) : queue_info :=
  mk_queue_info (is_started q) (is_exec q) v (is_ok_to_run q) (dedtime_queue q) (q_name q) (q_sc q) (q_max_run q) (q_max_user_run q) (q_max_group_run q) (q_priority q) (qres q) (need q) (q_jobs q) (q_running_jobs q).
Definition set_is_ok_to_run (v : bool) (q : queue_info) : queue_info :=
  mk_queue_info (is_started q) (is_exec q) (is_route q) v (dedtime_queue q) (q_name q) (q_sc q) (q_max_run q) (q_max_user_run q) (q_max_group_run q) (q_priority q) (qres q) (need q) (q_jobs q) (q_running_jobs q).
Definition set_dedtime_queue (v : bool) (q : queue_info) : queue_info :=
  mk_queue_info (is_started q) (is_exec q) (is_route q) (is_ok_to_run q) v (q_name q) (q_sc q) (q_max_run q) (q_max_user_run q) (q_max_group_run q) (q_priority q) (qres q) (need q) (q_jobs q) (q_running_jobs q).
Definition set_q_sc (v : state_count) (q : queue_info) : queue_info :=
  mk_queue_info (is_started q) (is_exec q) (is_route q) (is_ok_to_run q) (dedtime_queue q) (q_name q) v (q_max_run q) (q_max_user_run q) (q_max_group_run q) (q_priority q) (qres q) (need q) (q_jobs q) (q_running_jobs q).
Definition set_q_max_run (v : Z) (q : queue_info) : queue_info :=
  mk_queue_info (is_started q) (is_exec q) (is_route q) (is_ok_to_run q) (dedtime_queue q) (q_name q) (q_sc q) v (q_max_user_run q) (q_max_group_run q) (q_priority q) (qres q) (need q) (q_jobs q) (q_running_jobs q).
Definition set_q_max_user_run (v : Z) (q : queue_info) : queue_info :=
  mk_queue_info (is_started q) (is_exec q) (is_route q) (is_ok_to_run q) (dedtime_queue q) (q_name q) (q_sc q) (q_max_run q) v (q_max_group_run q) (q_priority q) (qres q) (need q) (q_jobs q) (q_running_jobs q).
Definition set_q_max_group_run (v : Z) (q : queue_info) : queue_info :=
  mk_queue_info (is_started q) (is_exec q) (is_route q) (is_ok_to_run q) (dedtime_queue q) (q_name q) (q_sc q) (q_max_run q) (q_max_user_run q) v (q_priority q) (qres q) (need q) (q_jobs q) (q_running_jobs q).
Definition set_q_priority (v : Z) (q : queue_info) : queue_info :=
  mk_queue_info (is_started q) (is_exec q) (is_route q) (is_ok_to_run q) (dedtime_queue q) (q_name q) (q_sc q) (q_max_run q) (q_max_user_run q) (q_max_group_run q) v (qres q) (need q) (q_jobs q) (q_running_jobs q).
Definition set_qres (v : list resource) (q : queue_info) : queue_info :=
  mk_queue_info (is_started q) (is_exec q) (is_route q) (is_ok_to_run q) (dedtime_queue q) (q_name q) (q_sc q) (q_max_run q) (q_max_user_run q) (q_max_group_run q) (q_priority q) v (need q) (q_jobs q) (q_running_jobs q).
Definition set_need (v : cptr) (q : queue_info) : queue_info :=
  mk_queue_info (is_started q) (is_exec q) (is_route q) (is_ok_to_run q) (dedtime_queue q) (q_name q) (q_sc q) (q_max_run q) (q_max_user_run q) (q_max_group_run q) (q_priority q) (qres q) v (q_jobs q) (q_running_jobs q).
Definition set_q_jobs (v : option (list ptr)) (q : queue_info) : queue_info :=
  mk_queue_info (is_started q) (is_exec q) (is_route q) (is_ok_to_run q) (dedtime_queue q) (q_name q) (q_sc q) (q_max_run q) (q_max_user_run q) (q_max_group_run q) (q_priority q) (qres q) (need q) v (q_running_jobs q).
Definition set_q_running_jobs (v : option (list ptr)) (q : queue_info) : queue_info :=
  mk_queue_info (is_started q) (is_exec q) (is_route q) (is_ok_to_run q) (dedtime_queue q) (q_name q) (q_sc q) (q_max_run q) (q_max_user_run q) (q_max_group_run q) (q_priority q) (qres q) (need q) (q_jobs q) v.
Definition set_loadave (v : float) (n : node_info) : node_info :=
  mk_node_info (is_free n) (is_timeshare n) (n_name n) (max_load n) (ideal_load n) (arch n) (physmem n) v.
Definition set_temp_usage (v : Z) (g : group_info) : group_info :=
  mk_group_info (percentage g) (usage g) v.
Definition set_res (v : list resource) (s : server_info) : server_info :=
  mk_server_info (s_name s) v (default_queue s) (max_run s) (max_user_run s) (max_group_run s) (num_nodes s) (sc s) (queues s) (jobs s) (running_jobs s) (timesharing_nodes s) (tokens s).
Definition set_default_queue (v : cptr) (s : server_info) : server_info :=
  mk_server_info (s_name s) (res s) v (max_run s) (max_user_run s) (max_group_run s) (num_nodes s) (sc s) (queues s) (jobs s) (running_jobs s) (timesharing_nodes s) (tokens s).
Definition set_max_run (v : Z) (s : server_info) : server_info :=
  mk_server_info (s_name s) (res s) (default_queue s) v (max_user_run s) (max_group_run s) (num_nodes s) (sc s) (queues s) (jobs s) (running_jobs s) (timesharing_nodes s) (tokens s).
Definition set_max_user_run (v : Z) (s : server_info) : server_info :=
  mk_server_info (s_name s) (res s) (default_queue s) (max_run s) v (max_group_run s) (num_nodes s) (sc s) (queues s) (jobs s) (running_jobs s) (timesharing_nodes s) (tokens s).
Definition set_max_group_run (v : Z) (s : server_info) : server_info :=
  mk_server_info (s_name s) (res s) (default_queue s) (max_run s) (max_user_run s) v (num_nodes s) (sc s) (queues s) (jobs s) (running_jobs s) (timesharing_nodes s) (tokens s).
Definition set_num_nodes (v : Z) (s : server_info) : server_info :=
  mk_server_info (s_name s) (res s) (default_queue s) (max_run s) (max_user_run s) (max_group_run s) v (sc s) (queues s) (jobs s) (running_jobs s) (timesharing_nodes s) (tokens s).
Definition set_sc (v : state_count) (s : server_info) : server_info :=
  mk_server_info (s_name s) (res s) (default_queue s) (max_run s) (max_user_run s) (max_group_run s) (num_nodes s) v (queues s) (jobs s) (running_jobs s) (timesharing_nodes s) (tokens s).
Definition set_queues (v : list ptr) (s : server_info) : server_info :=
  mk_server_info (s_name s) (res s) (default_queue s) (max_run s) (max_user_run s) (max_group_run s) (num_nodes s) (sc s) v (jobs s) (running_jobs s) (timesharing_nodes s) (tokens s).
Definition set_jobs (v : list ptr) (s : server_info) : server_info :=
  mk_server_info (s_name s) (res s) (default_queue s) (max_run s) (max_user_run s) (max_group_run s) (num_nodes s) (sc s) (queues s) v (running_jobs s) (timesharing_nodes s) (tokens s).
Definition set_running_jobs (v : option (list ptr)) (s : server_info) : server_info :=
  mk_server_info (s_name s) (res s) (default_queue s) (max_run s) (max_user_run s) (max_group_run s) (num_nodes s) (sc s) (queues s) (jobs s) v (timesharing_nodes s) (tokens s).
Definition set_timesharing_nodes (v : option (list ptr)) (s : server_info) : server_info :=
  mk_server_info (s_name s) (res s) (default_queue s) (max_run s) (max_user_run s) (max_group_run s) (num_nodes s) (sc s) (queues s) (jobs s) (running_jobs s) v (tokens s).
Definition set_tokens (v : option (list token)) (s : server_info) : server_info :=
  mk_server_info (s_name s) (res s) (default_queue s) (max_run s) (max_user_run s) (max_group_run s) (num_nodes s) (sc s) (queues s) (jobs s) (running_jobs s) (timesharing_nodes s) v.
Definition set_w_jobs (v : list job_info) (w : sched) : sched :=
  mk_sched v (w_queues w) (w_nodes w) (w_groups w) (sinfo w) (last_queue w) (last_job w) (cjobs w) (last_node_name w) (starving_job w) (w_events w).
Definition set_w_queues (v : list queue_info) (w : sched) : sched :=
  mk_sched (w_jobs w) v (w_nodes w) (w_groups w) (sinfo w) (last_queue w) (last_job w) (cjobs w) (last_node_name w) (starving_job w) (w_events w).
Definition set_w_nodes (v : list node_info) (w : sched) : sched :=
  mk_sched (w_jobs w) (w_queues w) v (w_groups w) (sinfo w) (last_queue w) (last_job w) (cjobs w) (last_node_name w) (starving_job w) (w_events w).
Definition set_w_groups (v : list group_info) (w : sched) : sched :=
  mk_sched (w_jobs w) (w_queues w) (w_nodes w) v (sinfo w) (last_queue w) (last_job w) (cjobs w) (last_node_name w) (starving_job w) (w_events w).
Definition set_sinfo (v : server_info) (w : sched) : sched :=
  mk_sched (w_jobs w) (w_queues w) (w_nodes w) (w_groups w) v (last_queue w) (last_job w) (cjobs w) (last_node_name w) (starving_job w) (w_events w).
Definition set_last_queue (v : Z) (w : sched) : sched :=
  mk_sched (w_jobs w) (w_queues w) (w_nodes w) (w_groups w) (sinfo w) v (last_job w) (cjobs w) (last_node_name w) (starving_job w) (w_events w).
Definition set_last_job (v : Z) (w : sched) : sched :=
  mk_sched (w_jobs w) (w_queues w) (w_nodes w) (w_groups w) (sinfo w) (last_queue w) v (cjobs w) (last_node_name w) (starving_job w) (w_events w).
Definition set_cjobs (v : list (option (list ptr))) (w : sched) : sched :=
  mk_sched (w_jobs w) (w_queues w) (w_nodes w) (w_groups w) (sinfo w) (last_queue w) (last_job w) v (last_node_name w) (starving_job w) (w_events w).
Definition set_last_node_name (v : list Z) (w : sched) : sched :=
  mk_sched (w_jobs w) (w_queues w) (w_nodes w) (w_groups w) (sinfo w) (last_queue w) (last_job w) (cjobs w) v (starving_job w) (w_events w).
Definition set_starving_job (v : option ptr) (w : sched) : sched :=
  mk_sched (w_jobs w) (w_queues w) (w_nodes w) (w_groups w) (sinfo w) (last_queue w) (last_job w) (cjobs w) (last_node_name w) v (w_events w).
Definition set_w_events (v : list event) (w : sched) : sched :=
  mk_sched (w_jobs w) (w_queues w) (w_nodes w) (w_groups w) (sinfo w) (last_queue w) (last_job w) (cjobs w) (last_node_name w) (starving_job w) v.

