(* ===== verification/Sched.v ===== *)
(** * The FIFO scheduler: the cycle
    (src/src/scheduler.cc/samples/fifo: check.c, job_info.c, queue_info.c, server_info.c,
    state_count.c, sort.c, fairshare.c, node_info.c, fifo.c)

    The checks a job must pass, the bookkeeping when it is run, the choice of the next job
    under each policy, and the loop of [scheduling_cycle].  [None] and [UB] are a NULL that
    is followed or an array that is left. *)

From Stdlib Require Import ZArith Lia String Ascii SpecFloat.
From stdpp Require Import base list numbers option.
From S2P Require Import Prelude CLib Attrs SchedData.

Local Open Scope Z_scope.
Local Open Scope st_scope.

(** ** Lists of resources *)

Fixpoint find_resource (reslist : list resource) (name : list Z) : option resource :=
  match reslist with
  | [] => None
  | r :: rs => if str_eq (rs_name r) name then Some r else find_resource rs name
  end.

Fixpoint find_resource_req (reqlist : list resource_req) (name : list Z) : option resource_req :=
  match reqlist with
  | [] => None
  | r :: rs => if str_eq (rq_name r) name then Some r else find_resource_req rs name
  end.

(** The request of a name, made if it is not there; it is linked behind the last one, if
    there is one. *)
Definition find_alloc_resource_req (name : list Z) (reqlist : list resource_req) :
    list resource_req * resource_req :=
  match find_resource_req reqlist name with
  | Some r => (reqlist, r)
  | None =>
      let r := mk_resource_req name 0 None in
      (match reqlist with [] => [] | _ => reqlist ++ [r] end, r)
  end.

(** [res -> assigned += amount] for the first resource of the name. *)
Fixpoint add_assigned (reslist : list resource) (name : list Z) (n : Z) : list resource :=
  match reslist with
  | [] => []
  | r :: rs =>
      if str_eq (rs_name r) name
      then mk_resource (rs_name r) (avail r) (rs_max r) (i64 (assigned r + n)) :: rs
      else r :: add_assigned rs name n
  end.

Definition assign_all (reslist : list resource) (reqs : list resource_req) : list resource :=
  foldl (fun rs q => add_assigned rs (rq_name q) (amount q)) reslist reqs.

Fixpoint calc_assn (js : list job_info) (resstr : list Z) : Z :=
  match js with
  | [] => 0
  | j :: js' =>
      match find_resource_req (resreq j) resstr with Some q => amount q | None => 0 end
      + calc_assn js' resstr
  end.

(** ** Arrays of jobs *)

Definition deref (heap : list job_info) (ps : list ptr) : option (list job_info) := mapM (heap !!.) ps.

(** [arr[i]]: the inner [None] is the NULL at the end. *)
Definition nth_job (arr : list ptr) (i : Z) : option (option ptr) :=
  if (0 <=? i) && (i <=? zlen arr) then Some (arr !! Z.to_nat i) else None.

Definition strcmp_eq (a b : cptr) : option bool :=
  match a, b with Some a, Some b => Some (str_eq a b) | _, _ => None end.

Fixpoint count_loop (field : job_info -> cptr) (who : cptr) (js : list job_info) : option Z :=
  match js with
  | [] => Some 0
  | j :: js' => b ← strcmp_eq who (field j); n ← count_loop field who js'; Some (if b : bool then n + 1 else n)
  end.

Definition count_by_user (heap : list job_info) (jobs : option (list ptr)) (user : cptr) : option Z :=
  match jobs with None => Some 0 | Some ps => js ← deref heap ps; count_loop account user js end.
Definition count_by_group (heap : list job_info) (jobs : option (list ptr)) (grp : cptr) : option Z :=
  match jobs with None => Some 0 | Some ps => js ← deref heap ps; count_loop group grp js end.

Definition count_states_step (c : state_count) (j : job_info) : state_count :=
  if is_queued j then set_sc_queued (sc_queued c + 1) c
  else if is_running j then set_sc_running (sc_running c + 1) c
  else if is_transit j then set_sc_transit (sc_transit c + 1) c
  else if is_exiting j then set_sc_exiting (sc_exiting c + 1) c
  else if is_held j then set_sc_held (sc_held c + 1) c
  else if is_waiting j then set_sc_waiting (sc_waiting c + 1) c
  else if is_suspended j then set_sc_suspended (sc_suspended c + 1) c
  else if is_completed j then set_sc_completed (sc_completed c + 1) c
  else c.

Definition count_states (js : list job_info) (c : state_count) : state_count :=
  let c := foldl count_states_step c js in
  set_sc_total (sc_queued c + sc_running c + sc_transit c + sc_exiting c + sc_held c + sc_waiting c
                + sc_suspended c + sc_completed c) c.

Definition init_state_count : state_count := mk_state_count 0 0 0 0 0 0 0 0 0.

Definition total_states (c1 c2 : state_count) : state_count :=
  mk_state_count (sc_running c1 + sc_running c2) (sc_queued c1 + sc_queued c2)
    (sc_held c1 + sc_held c2) (sc_transit c1 + sc_transit c2) (sc_waiting c1 + sc_waiting c2)
    (sc_exiting c1 + sc_exiting c2) (sc_suspended c1 + sc_suspended c2)
    (sc_completed c1 + sc_completed c2) (sc_total c1 + sc_total c2).

Definition check_run_job (j : job_info) : bool := is_running j.

Section Sched.
Context `{Platform} (conf : config) (cstat : status).
(** [atof], rounded to [float]; the time the comment of a started job gives; the order
    [qsort] brings an array into; and the answers of pbs_server after what it has been told:
    to a request to run a job, to a query for nodes, its last error message. *)
Context (atof : list Z -> float) (timebuf : list Z)
  (qsort : forall A, (A -> A -> Z) -> list (ptr * A) -> list (ptr * A))
  (runjob_answer : list event -> Z) (rescquery_answer : list event -> Z * Z)
  (geterrmsg : list event -> list Z).

(** The inner [None] is the NULL of a failed allocation. *)
Definition job_filter (heap : list job_info) (jobs : option (list ptr)) (size : Z)
    (filter_func : job_info -> bool) : option (option (list ptr)) :=
  if negb (calloc_ok ((size + 1) * SIZEOF_POINTER)) then Some None
  else if default 0 (zlen <$> jobs) <? size then None
  else
    let ps := take (Z.to_nat size) (default [] jobs) in
    js ← mapM (fun p => j ← heap !! p; Some (p, j)) ps;
    let new_jobs := (List.filter (fun pj => filter_func (snd pj)) js).*1 in
    if negb (calloc_ok ((zlen new_jobs + 1) * SIZEOF_POINTER)) then Some None
    else Some (Some new_jobs).

(** ** Checks that look at the structures only *)

Definition check_server_max_run (s : server_info) : Z :=
  if max_run s =? INFINITY_VAL then 0
  else if sc_running (sc s) <? max_run s then 0
  else SERVER_JOB_LIMIT_REACHED.

Definition check_queue_max_run (q : queue_info) : Z :=
  if q_max_run q =? INFINITY_VAL then 0
  else if sc_running (q_sc q) <? q_max_run q then 0
  else QUEUE_JOB_LIMIT_REACHED.

(** [max == INFINITY_VAL || count < max] *)
Definition under_limit (max : Z) (count : option Z) (code : Z) : option Z :=
  if max =? INFINITY_VAL then Some 0
  else n ← count; Some (if n <? max then 0 else code).

Definition check_server_max_user_run (heap : list job_info) (s : server_info) (acct : cptr) : option Z :=
  under_limit (max_user_run s) (count_by_user heap (running_jobs s) acct) SERVER_USER_LIMIT_REACHED.
Definition check_server_max_group_run (heap : list job_info) (s : server_info) (grp : cptr) : option Z :=
  under_limit (max_group_run s) (count_by_group heap (running_jobs s) grp) SERVER_GROUP_LIMIT_REACHED.
Definition check_queue_max_user_run (heap : list job_info) (q : queue_info) (acct : cptr) : option Z :=
  under_limit (q_max_user_run q) (count_by_user heap (q_running_jobs q) acct) QUEUE_USER_LIMIT_REACHED.
Definition check_queue_max_group_run (heap : list job_info) (q : queue_info) (grp : cptr) : option Z :=
  under_limit (q_max_group_run q) (count_by_group heap (q_running_jobs q) grp) QUEUE_GROUP_LIMIT_REACHED.

Definition dynamic_avail (r : resource) : Z :=
  if (rs_max r =? INFINITY_VAL) && (avail r =? UNSPECIFIED) then INFINITY_VAL
  else if avail r =? UNSPECIFIED then rs_max r
  else i64 (avail r - assigned r).

Definition res_to_check : list (list Z) := [str "mem"; str "ncpus"; str "nodect"].
Definition num_res : Z := 3.

Fixpoint check_resources (names : list (list Z)) (i : Z) (reslist : list resource)
    (reqs : list resource_req) : Z :=
  match names with
  | [] => SUCCESS
  | n :: names' =>
      match find_resource reslist n, find_resource_req reqs n with
      | Some r, Some q =>
          let avail := i32 (dynamic_avail r) in
          if negb (avail =? INFINITY_VAL) && (avail <? amount q) then i
          else check_resources names' (i + 1) reslist reqs
      | _, _ => check_resources names' (i + 1) reslist reqs
      end
  end.

Definition check_avail_resources (reslist : list resource) (j : job_info) : Z :=
  check_resources res_to_check 0 reslist (resreq j).

Definition check_ded_time_boundry (j : job_info) : Z :=
  if ded_from conf =? 0 then 0
  else match find_resource_req (resreq j) (str "walltime") with
       | Some q =>
           let finish_time := i64 (current_time cstat + amount q) in
           if negb (is_ded_time cstat) && (ded_from conf <? finish_time) then CROSS_DED_TIME_BOUNDRY
           else if is_ded_time cstat && (ded_to conf <? finish_time) then CROSS_DED_TIME_BOUNDRY
           else 0
       | None => CROSS_DED_TIME_BOUNDRY
       end.

Definition check_ded_time_queue (q : queue_info) : Z :=
  if is_ded_time cstat then if dedtime_queue q then 0 else DED_TIME
  else if dedtime_queue q then DED_TIME else 0.

Fixpoint ignored_loop (name : list Z) (ign : list cptr) : option Z :=
  match ign with
  | [] => Some SUCCESS
  | i :: ign' => b ← strcmp_eq (Some name) i; if b : bool then Some QUEUE_IGNORED else ignored_loop name ign'
  end.
Definition check_ignored (q : queue_info) : option Z := ignored_loop (q_name q) (ignored_queues conf).

(** [check_ignored] never returns 0: the code it returns is the result. *)
Definition is_ok_to_run_queue (q : queue_info) : option Z :=
  if is_exec q then
    if is_started q then
      let rc := check_ded_time_queue q in
      if negb (rc =? 0) then Some rc
      else
        rc ← check_ignored q;
        Some (if rc =? 0 then SUCCESS else rc)
    else Some QUEUE_NOT_STARTED
  else Some QUEUE_NOT_EXEC.

Definition check_starvation (starving : option ptr) (p : ptr) : Z :=
  match starving with
  | None => 0
  | Some s => if decide (s = p) then 0 else JOB_STARVING
  end.

(** What the job asks of a node. *)
Definition ncpus_of (reqs : list resource_req) : Z :=
  match find_resource_req reqs (str "ncpus") with Some q => amount q | None => 1 end.
Definition mem_of (reqs : list resource_req) : Z :=
  match find_resource_req reqs (str "mem") with Some q => amount q | None => 0 end.
Definition str_of (reqs : list resource_req) (name : list Z) : cptr :=
  q ← find_resource_req reqs name; res_str q.

Definition matches (want have : cptr) : option bool :=
  match want with None => Some true | Some _ => strcmp_eq want have end.

Definition host_fits (reqs : list resource_req) (n : node_info) : option bool :=
  matches (str_of reqs (str "host")) (Some (n_name n)).
Definition arch_fits (reqs : list resource_req) (n : node_info) : option bool :=
  matches (str_of reqs (str "arch")) (arch n).

(** The node is free, is the one asked for and has the memory; the host and the
    architecture are looked at in either order. *)
Definition fits (first second : list resource_req -> node_info -> option bool)
    (reqs : list resource_req) (n : node_info) : option bool :=
  if negb (is_free n) then Some false
  else
    a ← first reqs n;
    if negb a then Some false
    else
      b ← second reqs n;
      if negb b then Some false else Some (mem_of reqs <=? physmem n).

Fixpoint node_loop (reqs : list resource_req) (ns : list node_info) : option Z :=
  match ns with
  | [] => Some NO_AVAILABLE_NODE
  | n :: ns' =>
      b ← fits host_fits arch_fits reqs n;
      if b && SFleb (f32_add (loadave n) (f32 (ncpus_of reqs))) (max_load n) then Some 0
      else node_loop reqs ns'
  end.

Definition check_node_availability (nodes : list node_info) (reqs : list resource_req)
    (ninfo_arr : option (list ptr)) : option Z :=
  if load_balancing cstat || load_balancing_rr cstat then
    match ninfo_arr with
    | Some ps => ns ← mapM (nodes !!.) ps; node_loop reqs ns
    | None => Some 0
    end
  else Some 0.

(** ** Tokens *)

Fixpoint split_colon (s : list Z) : option (list Z * list Z) :=
  match s with
  | [] => None
  | c :: s' => if c =? 58 then Some ([], s') else '(a, b) ← split_colon s'; Some (c :: a, b)
  end.

Definition get_token (s : cptr) : option token :=
  s ← s; '(id, n) ← split_colon s; Some (mk_token id (atof n)).

(** The tokens of the kind [id] that the running jobs hold. *)
Fixpoint tokens_used (id : list Z) (js : list job_info) (used : float) : option float :=
  match js with
  | [] => Some used
  | j :: js' =>
      match find_resource_req (resreq j) (str "tokens") with
      | None => tokens_used id js' used
      | Some q =>
          t ← get_token (res_str q);
          tokens_used id js' (if str_eq (identifier t) id then f32_add used (tk_count t) else used)
      end
  end.

Definition tokens_allowed (id : list Z) (pool : list token) : float :=
  foldl (fun m t => if str_eq (identifier t) id then tk_count t else m) (f32 0) pool.

Definition check_token_utilization (heap : list job_info) (s : server_info) (j : job_info) : option Z :=
  match find_resource_req (resreq j) (str "tokens") with
  | None => Some SUCCESS
  | Some q =>
      t ← get_token (res_str q);
      ps ← running_jobs s;
      js ← deref heap ps;
      used ← tokens_used (identifier t) js (f32 0);
      pool ← tokens s;
      Some (if SFltb (tokens_allowed (identifier t) pool) (f32_add used (tk_count t))
            then SERVER_TOKEN_UTILIZATION else SUCCESS)
  end.

(** ** The state *)

Abbreviation S := (ST sched).

Definition get_job (p : ptr) : S job_info := let* w := st_get in st_lift (w_jobs w !! p).
Definition get_queue (q : ptr) : S queue_info := let* w := st_get in st_lift (w_queues w !! q).
Definition upd_job (p : ptr) (f : job_info -> job_info) : S unit :=
  let* j := get_job p in st_modify (fun w => set_w_jobs (<[p := f j]> (w_jobs w)) w).
Definition upd_queue (q : ptr) (f : queue_info -> queue_info) : S unit :=
  let* x := get_queue q in st_modify (fun w => set_w_queues (<[q := f x]> (w_queues w)) w).
Definition upd_server (f : server_info -> server_info) : S unit :=
  st_modify (fun w => set_sinfo (f (sinfo w)) w).
Definition tell (e : event) : S unit := st_modify (fun w => set_w_events (w_events w ++ [e]) w).

Definition pbs_runjob (p : ptr) (node : cptr) : S Z :=
  let* w := st_get in
  let rc := runjob_answer (w_events w) in
  tell (RunJob p node rc) >>> st_ret rc.

Definition pbs_rescquery (query : list Z) : S (Z * Z) :=
  let* w := st_get in
  let '(rc, av) := rescquery_answer (w_events w) in
  tell (RescQuery query rc av) >>> st_ret (rc, av).

Definition check_nodes (p : ptr) : S Z :=
  let* j := get_job p in
  match find_resource_req (resreq j) (str "nodes") with
  | Some q =>
      let* s := st_lift (res_str q) in
      if negb (calloc_ok (zlen s + 7)) then st_ret SCHD_ERROR
      else
        let* (rc, av) := pbs_rescquery (str "nodes=" ++ s) in
        if negb (rc =? 0) then st_ret SCHD_ERROR
        else
          (if av <? 0 then upd_job p (set_can_never_run true) else st_ret tt) >>>
          st_ret (if 0 <? av then 0 else NOT_ENOUGH_NODES_AVAIL)
  | None =>
      let* w := st_get in
      st_lift (check_node_availability (w_nodes w) (resreq j) (timesharing_nodes (sinfo w)))
  end.

(** [if ((rc = m)) return rc; k] and [if ((rc = m) != SUCCESS) return rc; k] *)
Definition and_then (m k : S Z) : S Z := let* rc := m in if negb (rc =? 0) then st_ret rc else k.
Definition and_ok (m k : S Z) : S Z := let* rc := m in if negb (rc =? SUCCESS) then st_ret rc else k.

Definition pure_check (f : sched -> option Z) : S Z := let* w := st_get in st_lift (f w).

Definition is_ok_to_run_job (q p : ptr) : S Z :=
  let* j := get_job p in
  let* x := get_queue q in
  and_then (pure_check (fun w => Some (check_server_max_run (sinfo w))))
  (and_then (pure_check (fun w => check_server_max_user_run (w_jobs w) (sinfo w) (account j)))
  (and_then (pure_check (fun w => check_server_max_group_run (w_jobs w) (sinfo w) (group j)))
  (and_then (st_ret (check_queue_max_run x))
  (and_then (pure_check (fun w => check_queue_max_user_run (w_jobs w) x (account j)))
  (and_then (pure_check (fun w => check_queue_max_group_run (w_jobs w) x (group j)))
  (and_then (st_ret (check_ded_time_boundry j))
  (and_then (pure_check (fun w => Some (check_starvation (starving_job w) p)))
  (and_then (check_nodes p)
  (and_ok (st_ret (check_avail_resources (qres x) j))
  (and_ok (pure_check (fun w => Some (check_avail_resources (res (sinfo w)) j)))
  (and_ok (pure_check (fun w => check_token_utilization (w_jobs w) (sinfo w) j))
  (st_ret SUCCESS)))))))))))).

(** ** Telling the server *)

(** 0 when the comment was changed.  The copy that is sent has room for 255 characters. *)
Definition update_job_comment (p : ptr) (comment : list Z) : S Z :=
  let* j := get_job p in
  if bool_decide (j_comment j = Some comment) then st_ret 1
  else
    upd_job p (set_j_comment (Some comment)) >>>
    tell (AlterComment p (take 255 comment)) >>> st_ret 0.

Definition update_job_neednodes (p : ptr) : S Z :=
  let* j := get_job p in
  let* x := get_queue (j_queue j) in
  match need x with
  | None => st_ret 1
  | Some n =>
      let '(reqs, resreq_need) := find_alloc_resource_req (str "neednodes") (resreq j) in
      let '(reqs, resreq_nodes) := find_alloc_resource_req (str "nodes") reqs in
      upd_job p (set_resreq reqs) >>>
      let* s := st_lift (res_str resreq_nodes) in
      if UDC_CLONEBUFSIZ <=? zlen s + zlen n + 1 then st_ret 1
      else
        let t := s ++ str ":" ++ n in
        let* same := st_lift (strcmp_eq (Some t) (res_str resreq_need)) in
        if same : bool then st_ret 1 else tell (AlterNeednodes p t) >>> st_ret 0
  end.

Fixpoint mark_cant_run (ps : list ptr) (comment : list Z) : S unit :=
  match ps with
  | [] => st_ret tt
  | p :: ps' =>
      upd_job p (set_can_not_run true) >>> update_job_comment p comment >>> mark_cant_run ps' comment
  end.

(** Where [start] is in the array. *)
Fixpoint index_of (start : ptr) (ps : list ptr) : option nat :=
  match ps with
  | [] => None
  | p :: ps' => if decide (p = start) then Some 0%nat else Datatypes.S <$> index_of start ps'
  end.

Definition update_jobs_cant_run (jinfo_arr : option (list ptr)) (start : option ptr)
    (comment : list Z) (start_where : Z) : S unit :=
  match jinfo_arr with
  | None => st_ret tt
  | Some ps =>
      match match start with Some s => index_of s ps | None => if decide (ps = []) then None else Some 0%nat end with
      | None => st_ret tt
      | Some i =>
          let i := if start_where =? START_BEFORE_JOB then Z.of_nat i - 1
                   else if start_where =? START_AFTER_JOB then Z.of_nat i + 1 else Z.of_nat i in
          if i <? 0 then st_ub else mark_cant_run (drop (Z.to_nat i) ps) comment
      end
  end.

(** ** Running a job *)

Definition calculate_usage_value (reqs : list resource_req) : Z :=
  match find_resource_req reqs (str "cput") with Some q => amount q | None => 0 end.

Definition update_usage_on_run (p : ptr) : S unit :=
  let* j := get_job p in
  let* g := st_lift (ginfo j) in
  let* w := st_get in
  let* x := st_lift (w_groups w !! g) in
  st_modify (fun w => set_w_groups
    (<[g := set_temp_usage (i64 (temp_usage x + calculate_usage_value (resreq j))) x]> (w_groups w)) w).

(** [sc.running++; sc.queued--] *)
Definition one_more_running (c : state_count) : state_count :=
  set_sc_queued (sc_queued c - 1) (set_sc_running (sc_running c + 1) c).

Definition update_server_on_run (p : ptr) : S unit :=
  let* j := get_job p in
  upd_server (fun s => set_res (assign_all (res s) (resreq j)) (set_sc (one_more_running (sc s)) s)).

Definition update_queue_on_run (q p : ptr) : S unit :=
  let* j := get_job p in
  upd_queue q (fun x => set_qres (assign_all (qres x) (resreq j)) (set_q_sc (one_more_running (q_sc x)) x)).

Definition update_job_on_run (p : ptr) : S unit :=
  upd_job p (fun j => set_is_running true (set_is_queued false j)).

(** The loop of [find_best_node]: [n] nodes are left, [i] is the next one; the best node
    under its ideal load, one under its maximum, and the load of the best so far. *)
Fixpoint best_loop (n : nat) (nodes : list node_info) (arr : list ptr) (reqs : list resource_req)
    (i : nat) (good possible : option ptr) (good_la : float) : option (option ptr * option ptr) :=
  match n with
  | O => Some (good, possible)
  | Datatypes.S n' =>
      ni ← arr !! i;
      x ← nodes !! ni;
      b ← fits arch_fits host_fits reqs x;
      let proj_la := f32_add (loadave x) (f32 (ncpus_of reqs)) in
      let i' := if decide (i + 1 = length arr)%nat then 0%nat else (i + 1)%nat in
      if negb b then best_loop n' nodes arr reqs i' good possible good_la
      else if load_balancing cstat then
        if SFleb proj_la (ideal_load x) then
          if SFltb (loadave x) good_la then best_loop n' nodes arr reqs i' (Some ni) possible (loadave x)
          else best_loop n' nodes arr reqs i' good possible good_la
        else if bool_decide (possible = None) && SFleb proj_la (max_load x) then
          if SFltb (loadave x) good_la then best_loop n' nodes arr reqs i' good (Some ni) (loadave x)
          else best_loop n' nodes arr reqs i' good possible good_la
        else best_loop n' nodes arr reqs i' good possible good_la
      else if SFltb (f32_add (loadave x) proj_la) (max_load x) then Some (Some ni, possible)
      else best_loop n' nodes arr reqs i' good possible good_la
  end.

Fixpoint node_index (nodes : list node_info) (arr : list ptr) (name : list Z) (i : nat) : option (option nat) :=
  match arr with
  | [] => Some None
  | p :: arr' =>
      x ← nodes !! p;
      if str_eq (n_name x) name then Some (Some i) else node_index nodes arr' name (i + 1)
  end.

Definition find_best_node (reqs : list resource_req) (ninfo_arr : option (list ptr)) : S (option ptr) :=
  match ninfo_arr, find_resource_req reqs (str "nodes") with
  | None, _ | _, Some _ => st_ret None
  | Some arr, None =>
      let* w := st_get in
      let first := p ← arr !! 0%nat; x ← w_nodes w !! p; Some (n_name x) in
      (match last_node_name w, first with
       | [], Some f => st_modify (set_last_node_name f)
       | _, _ => st_ret tt
       end) >>>
      let* i :=
        (if load_balancing_rr cstat then
           let* w := st_get in
           let* ln := st_lift (node_index (w_nodes w) arr (last_node_name w) 0) in
           match ln with
           | None => let* f := st_lift first in st_modify (set_last_node_name f) >>> st_ret 0%nat
           | Some ln => st_ret (if decide (ln + 1 = length arr)%nat then 0%nat else (ln + 1)%nat)
           end
         else st_ret 0%nat) in
      let* w := st_get in
      let* (good, possible) :=
        st_lift (best_loop (Z.to_nat (num_nodes (sinfo w))) (w_nodes w) arr reqs i None None (f32 10000000000)) in
      let* p := st_lift (match good with Some p => Some p | None => possible end) in
      let* x := st_lift (w_nodes w !! p) in
      (if load_balancing_rr cstat then st_modify (set_last_node_name (n_name x)) else st_ret tt) >>>
      st_ret (Some p)
  end.

Definition node_name (best : option ptr) : S cptr :=
  match best with
  | None => st_ret None
  | Some n => let* w := st_get in let* x := st_lift (w_nodes w !! n) in st_ret (Some (n_name x))
  end.

(** [best_node -> loadave += ncpus] *)
Definition raise_load (best : option ptr) (reqs : list resource_req) : S unit :=
  match best with
  | Some n =>
      if load_balancing cstat then
        let* w := st_get in
        let* x := st_lift (w_nodes w !! n) in
        st_modify (fun w => set_w_nodes
          (<[n := set_loadave (f32_add (loadave x) (f32 (i32 (ncpus_of reqs)))) x]> (w_nodes w)) w)
      else st_ret tt
  | None => st_ret tt
  end.

(** [running_jobs] of the server and of the queue, made anew. *)
Definition refresh_running (q : ptr) : S unit :=
  let* w := st_get in
  let* rj := st_lift (job_filter (w_jobs w) (Some (jobs (sinfo w))) (sc_total (sc (sinfo w))) check_run_job) in
  upd_server (set_running_jobs rj) >>>
  let* x := get_queue q in
  let* rj := st_lift (job_filter (w_jobs w) (q_jobs x) (sc_total (q_sc x)) check_run_job) in
  upd_queue q (set_q_running_jobs rj).

(** What follows when the server has taken the job. *)
Definition job_was_run (q p : ptr) (best : option ptr) : S unit :=
  let* j := get_job p in
  raise_load best (resreq j) >>>
  let* w := st_get in
  (if help_starving_jobs cstat && bool_decide (starving_job w = Some p)
   then upd_job p (set_sch_priority 0) else st_ret tt) >>>
  update_server_on_run p >>>
  update_queue_on_run q p >>>
  update_job_on_run p >>>
  (if fair_share cstat then update_usage_on_run p else st_ret tt) >>>
  refresh_running q.

Definition run_update_job (q p : ptr) : S Z :=
  let* j := get_job p in
  let* w := st_get in
  let* best := (if load_balancing cstat || load_balancing_rr cstat
                then find_best_node (resreq j) (timesharing_nodes (sinfo w)) else st_ret None) in
  let* name := node_name best in
  update_job_comment p (take 1023 (match name with
                                   | Some n => str "Job run on node " ++ n ++ str " - " ++ timebuf
                                   | None => str "Job " ++ timebuf
                                   end)) >>>
  let* ret := pbs_runjob p name in
  (if ret =? 0 then job_was_run q p best
   else
     let* w := st_get in
     update_job_comment p (take 1023 (str "Not Running - PBS Error: " ++ geterrmsg (w_events w))) >>>
     st_ret tt) >>>
  st_ret ret.

(** ** The next job *)

(** The first job from place [i] on that is wanted, and its place; otherwise the end. *)
Fixpoint find_from (heap : list job_info) (wanted : job_info -> bool) (ps : list ptr) (i : Z) :
    option (option ptr * Z) :=
  match ps with
  | [] => Some (None, i)
  | p :: ps' => j ← heap !! p; if wanted j then Some (Some p, i) else find_from heap wanted ps' (i + 1)
  end.

Definition search_from (heap : list job_info) (wanted : job_info -> bool) (arr : list ptr) (i : Z) :
    option (option ptr * Z) :=
  if (0 <=? i) && (i <=? zlen arr) then find_from heap wanted (drop (Z.to_nat i) arr) i else None.

Fixpoint fairshare_loop (heap : list job_info) (groups : list group_info) (ps : list ptr)
    (max : option ptr) (max_value : float) : option (option ptr) :=
  match ps with
  | [] => Some max
  | p :: ps' =>
      j ← heap !! p;
      gi ← ginfo j;
      g ← groups !! gi;
      let cur_value := f32_div (percentage g) (f32 (temp_usage g)) in
      if SFltb max_value cur_value && negb (is_running j) && negb (can_not_run j)
      then fairshare_loop heap groups ps' (Some p) cur_value
      else fairshare_loop heap groups ps' max max_value
  end.

Definition extract_fairshare (w : sched) (js : option (list ptr)) : option (option ptr) :=
  match js with
  | None => Some None
  | Some ps => fairshare_loop (w_jobs w) (w_groups w) ps None (f32 (-1))
  end.

Definition num_queues (w : sched) : Z := zlen (queues (sinfo w)).

(** Round robin: [n] queues are still to be tried. *)
Fixpoint rr_loop (n : nat) : S (option ptr) :=
  match n with
  | O => st_ret None
  | Datatypes.S n' =>
      st_modify (fun w =>
        if last_queue w =? num_queues w - 1 then set_last_job (last_job w + 1) (set_last_queue 0 w)
        else set_last_queue (last_queue w + 1) w) >>>
      let* w := st_get in
      let* arr := st_lift (if 0 <=? last_queue w then cjobs w !! Z.to_nat (last_queue w) else None) in
      match arr with
      | None => rr_loop n'
      | Some arr =>
          let* p := st_lift (nth_job arr (last_job w)) in
          match p with
          | None =>
              st_modify (fun w => set_cjobs (<[Z.to_nat (last_queue w) := None]> (cjobs w)) w) >>> rr_loop n'
          | Some p =>
              let* rjob := st_lift (if fair_share cstat then extract_fairshare w (Some arr)
                                    else (j ← w_jobs w !! p; Some (if can_not_run j then None else Some p))) in
              match rjob with Some r => st_ret (Some r) | None => rr_loop n' end
          end
      end
  end.

(** By queue: the first job from place [i] of the first of the queues on that may be run,
    with the number of queues passed over and its place. *)
Fixpoint by_queue_loop (w : sched) (qs : list ptr) (passed : Z) (i : Z) : option (option ptr * Z * Z) :=
  match qs with
  | [] => Some (None, passed, i)
  | q :: qs' =>
      x ← w_queues w !! q;
      match q_jobs x with
      | None => by_queue_loop w qs' (passed + 1) 0
      | Some arr =>
          '(p, i') ← search_from (w_jobs w) (fun j => negb (can_not_run j)) arr i;
          match p with
          | None => by_queue_loop w qs' (passed + 1) 0
          | Some p => Some (Some q, passed, i')
          end
      end
  end.

Definition next_by_queue : S (option ptr) :=
  st_modify (fun w => set_last_job (last_job w + 1) w) >>>
  let* w := st_get in
  if last_queue w <? 0 then st_ub
  else
    let* (q, passed, i) := st_lift (by_queue_loop w (drop (Z.to_nat (last_queue w)) (queues (sinfo w)))
                                      0 (last_job w)) in
    st_modify (fun w => set_last_job i (set_last_queue (last_queue w + passed) w)) >>>
    match q with
    | None => st_ret None
    | Some q =>
        let* x := get_queue q in
        if fair_share cstat then st_lift (extract_fairshare w (q_jobs x))
        else if i <? sc_total (q_sc x) then let* arr := st_lift (q_jobs x) in st_lift (nth_job arr i)
        else st_ret None
    end.

Definition next_in_array (wanted : job_info -> bool) : S (option ptr) :=
  let* w := st_get in
  let* (p, i) := st_lift (search_from (w_jobs w) wanted (jobs (sinfo w)) (last_job w + 1)) in
  st_modify (set_last_job i) >>> st_ret p.

(** [next_job(sinfo, 0)] *)
Definition next_job : S (option ptr) :=
  let* w := st_get in
  if round_robin cstat then rr_loop (Z.to_nat (num_queues w))
  else if strict_fifo cstat then next_in_array is_queued
  else if by_queue cstat then next_by_queue
  else if fair_share cstat then st_lift (extract_fairshare w (Some (jobs (sinfo w))))
  else next_in_array (fun j => negb (can_not_run j)).

(** [next_job(sinfo, INITIALIZE)] *)
Definition next_job_init : S unit :=
  let* w := st_get in
  if round_robin cstat then
    if negb (calloc_ok (SIZEOF_POINTER * num_queues w)) then st_modify (set_cjobs [])
    else
      let* xs := st_lift (mapM (w_queues w !!.) (queues (sinfo w))) in
      st_modify (fun w => set_cjobs (q_jobs <$> xs) (set_last_job 0 (set_last_queue (-1) w)))
  else if strict_fifo cstat || by_queue cstat then st_modify (fun w => set_last_queue 0 (set_last_job (-1) w))
  else st_modify (set_last_job (-1)).

(** ** Sorting *)

Definition cmp_Z (a b : Z) : Z := if a <? b then -1 else if b <? a then 1 else 0.

Definition cmp_queue_prio_dsc (q1 q2 : queue_info) : Z := cmp_Z (q_priority q2) (q_priority q1).

Definition cmp_resource (name : list Z) (dsc : bool) (j1 j2 : job_info) : Z :=
  match find_resource_req (resreq j1) name, find_resource_req (resreq j2) name with
  | Some q1, Some q2 => if dsc then cmp_Z (amount q2) (amount q1) else cmp_Z (amount q1) (amount q2)
  | _, _ => 0
  end.
Definition cmp_job_walltime_asc : job_info -> job_info -> Z := cmp_resource (str "walltime") false.
Definition cmp_job_walltime_dsc : job_info -> job_info -> Z := cmp_resource (str "walltime") true.
Definition cmp_job_cput_asc : job_info -> job_info -> Z := cmp_resource (str "cput") false.
Definition cmp_job_cput_dsc : job_info -> job_info -> Z := cmp_resource (str "cput") true.
Definition cmp_job_mem_asc : job_info -> job_info -> Z := cmp_resource (str "mem") false.
Definition cmp_job_mem_dsc : job_info -> job_info -> Z := cmp_resource (str "mem") true.
Definition cmp_job_prio_asc (j1 j2 : job_info) : Z := cmp_Z (priority j1) (priority j2).
Definition cmp_job_prio_dsc (j1 j2 : job_info) : Z := cmp_Z (priority j2) (priority j1).

Definition cmp_fair_share (groups : list group_info) (j1 j2 : job_info) : option Z :=
  g1 ← ginfo j1; g2 ← ginfo j2;
  x1 ← groups !! g1; x2 ← groups !! g2;
  Some (if SFltb (percentage x2) (percentage x1) then 1
        else if SFeqb (percentage x1) (percentage x2) then 0 else 1).

(** The comparison of a key; [None] is the NULL of [no_sort]. *)
Definition key_cmp (groups : list group_info) (k : sort_type) (j1 j2 : job_info) : option Z :=
  match k with
  | NO_SORT | MULTI_SORT => None
  | SHORTEST_JOB_FIRST => Some (cmp_job_cput_asc j1 j2)
  | LONGEST_JOB_FIRST => Some (cmp_job_cput_dsc j1 j2)
  | SMALLEST_MEM_FIRST => Some (cmp_job_mem_asc j1 j2)
  | LARGEST_MEM_FIRST => Some (cmp_job_mem_dsc j1 j2)
  | HIGH_PRIORITY_FIRST => Some (cmp_job_prio_dsc j1 j2)
  | LOW_PRIORITY_FIRST => Some (cmp_job_prio_asc j1 j2)
  | LARGE_WALLTIME_FIRST => Some (cmp_job_walltime_dsc j1 j2)
  | SHORT_WALLTIME_FIRST => Some (cmp_job_walltime_asc j1 j2)
  | FAIR_SHARE => cmp_fair_share groups j1 j2
  end.

Definition num_sorts : nat := 11.

(** At most [n] of the keys behind the first, up to [no_sort]. *)
Fixpoint multi_sort (n : nat) (groups : list group_info) (keys : list sort_type) (j1 j2 : job_info) : option Z :=
  match n, keys with
  | O, _ => Some 0
  | Datatypes.S _, [] => None
  | Datatypes.S _, NO_SORT :: _ => Some 0
  | Datatypes.S n', k :: keys' =>
      r ← key_cmp groups k j1 j2;
      if r =? 0 then multi_sort n' groups keys' j1 j2 else Some r
  end.

Definition cmp_sort (groups : list group_info) (j1 j2 : job_info) : option Z :=
  if sch_priority j1 <? sch_priority j2 then Some 1
  else if sch_priority j2 <? sch_priority j1 then Some (-1)
  else match sort_by cstat with
       | MULTI_SORT :: keys => multi_sort num_sorts groups keys j1 j2
       | k :: _ => key_cmp groups k j1 j2
       | [] => None
       end.

Definition fifo_sort (j1 j2 : job_info) : Z :=
  if qtime j1 <? qtime j2 then -1
  else if qtime j2 <? qtime j1 then 1
  else cmp_Z (atol (j_name j1)) (atol (j_name j2)).

(** The first [total] jobs of an array are sorted. *)
Definition sort_jobs (heap : list job_info) (cmp : job_info -> job_info -> option Z) (arr : list ptr)
    (total : Z) : option (list ptr) :=
  if zlen arr <? total then None
  else
    let n := Z.to_nat total in
    pjs ← mapM (fun p => j ← heap !! p; Some (p, j)) (take n arr);
    if forallb (fun x => forallb (fun y => bool_decide (is_Some (cmp (snd x) (snd y)))) pjs) pjs
    then Some ((qsort job_info (fun a b => default 0 (cmp a b)) pjs).*1 ++ drop n arr)
    else None.

(** ** The cycle *)

(** The most starving job of those seen so far, and its priority. *)
Fixpoint starvation_loop (ps : list ptr) (jinfo : option (ptr * Z)) : S (option ptr) :=
  match ps with
  | [] => st_ret (fst <$> jinfo)
  | p :: ps' =>
      let* j := get_job p in
      let* x := get_queue (j_queue j) in
      if (i64 (qtime j + max_starve conf) <? current_time cstat) && is_queued j && negb (dedtime_queue x) then
        let prio := i32 (current_time cstat - qtime j - max_starve conf) in
        upd_job p (fun j => set_sch_priority prio (set_is_starving true j)) >>>
        starvation_loop ps' (match jinfo with
                             | Some (_, m) => if m <? prio then Some (p, prio) else jinfo
                             | None => Some (p, prio)
                             end)
      else starvation_loop ps' jinfo
  end.

Definition update_starvation (js : list ptr) : S (option ptr) := starvation_loop js None.

(** [qsort] of the queues by their priority. *)
Definition sort_queue_array (w : sched) : option (list ptr) :=
  qs ← mapM (fun q => x ← w_queues w !! q; Some (q, x)) (queues (sinfo w));
  Some ((qsort queue_info cmp_queue_prio_dsc qs).*1).

Fixpoint sort_each_queue (qs : list ptr) : S unit :=
  match qs with
  | [] => st_ret tt
  | q :: qs' =>
      let* x := get_queue q in
      let* w := st_get in
      (match q_jobs x with
       | None => st_ret tt
       | Some arr =>
           let* arr := st_lift (sort_jobs (w_jobs w) (cmp_sort (w_groups w)) arr (sc_total (q_sc x))) in
           upd_queue q (set_q_jobs (Some arr))
       end) >>>
      sort_each_queue qs'
  end.

Definition sort_all_jobs : S unit :=
  let* w := st_get in
  match sort_by cstat with
  | [] => st_ub
  | NO_SORT :: _ => st_ret tt
  | _ =>
      let sort_server cmp :=
        let* arr := st_lift (sort_jobs (w_jobs w) cmp (jobs (sinfo w)) (sc_total (sc (sinfo w)))) in
        upd_server (set_jobs arr) in
      if strict_fifo cstat then sort_server (fun a b => Some (fifo_sort a b))
      else if by_queue cstat || round_robin cstat then sort_each_queue (queues (sinfo w))
      else sort_server (cmp_sort (w_groups w))
  end.

(** [init_scheduling_cycle] behind the usage of the last cycle. *)
Definition init_scheduling_cycle : S unit :=
  let* w := st_get in
  (if help_starving_jobs cstat then
     let* p := update_starvation (jobs (sinfo w)) in st_modify (set_starving_job p)
   else st_ret tt) >>>
  let* w := st_get in
  (if sort_queues cstat then
     let* qs := st_lift (sort_queue_array w) in upd_server (set_queues qs)
   else st_ret tt) >>>
  sort_all_jobs >>>
  next_job_init.

(** The comment of a code; the inner [None] is the return of 0. *)
Definition translate_job_fail_code (w : sched) (code : Z) : option (option (list Z)) :=
  if code <? num_res then
    if code <? 0 then None
    else Some ([str "Not Running: Not enough memory available";
                str "Not Running: Not enough cpus available";
                str "Not Running: Not enough nodes available"] !! Z.to_nat code)
  else if code =? QUEUE_JOB_LIMIT_REACHED then Some (Some (str "Not Running: Queue job limit has been reached."))
  else if code =? SERVER_JOB_LIMIT_REACHED then Some (Some (str "Not Running: Server job limit has been reached."))
  else if code =? SERVER_USER_LIMIT_REACHED then Some (Some (str "Not Running: User has reached server running job limit."))
  else if code =? QUEUE_USER_LIMIT_REACHED then Some (Some (str "Not Running: User has reached queue running job limit."))
  else if code =? QUEUE_GROUP_LIMIT_REACHED then Some (Some (str "Not Running: Group has reached queue running limit."))
  else if code =? SERVER_GROUP_LIMIT_REACHED then Some (Some (str "Not Running: Group has reached server running limit."))
  else if code =? CROSS_DED_TIME_BOUNDRY then Some (Some (str "Not Running: Job would cross dedicated time boundry"))
  else if code =? NO_AVAILABLE_NODE then Some (Some (str "Not Running: All timesharing nodes are too loaded to run job"))
  else if code =? NOT_ENOUGH_NODES_AVAIL then Some (Some (str "Not Running: Not enough of the right type of nodes are available"))
  else if code =? JOB_STARVING then
    s ← starving_job w;
    j ← w_jobs w !! s;
    if MAX_LOG_SIZE <=? zlen (str "Draining system to allow " ++ j_name j ++ str " to run") then None
    else Some (Some (str "Not Running: Draining system to allow starving job to run"))
  else if code =? SCHD_ERROR then Some (Some (str "Not Running: An internal scheduling error has occured"))
  else if code =? SERVER_TOKEN_UTILIZATION then Some (Some (str "Not Running: Max token usage reached"))
  else Some None.

Definition COMMENT_STRICT_FIFO : list Z := str "Not Running: Strict fifo order".

(** A job that can not be run now. *)
Definition job_cant_run (p : ptr) (ret : Z) : S unit :=
  let* j := get_job p in
  (if can_never_run j then tell (DelJob p) else st_ret tt) >>>
  upd_job p (set_can_not_run true) >>>
  let* w := st_get in
  let* comment := st_lift (translate_job_fail_code w ret) in
  (match comment with
   | Some c => update_job_comment p c >>> st_ret tt
   | None => st_ret tt
   end) >>>
  if negb (ret =? NOT_QUEUED) && strict_fifo cstat then
    let* x := get_queue (j_queue j) in
    update_jobs_cant_run (q_jobs x) (Some p) COMMENT_STRICT_FIFO START_AFTER_JOB
  else st_ret tt.

(** The body of the loop. *)
Definition consider_job (p : ptr) : S unit :=
  update_job_neednodes p >>>
  let* j := get_job p in
  let* ret := is_ok_to_run_job (j_queue j) p in
  if ret =? SUCCESS then run_update_job (j_queue j) p >>> st_ret tt
  else job_cant_run p ret.

Fixpoint main_loop (fuel : nat) : S unit :=
  match fuel with
  | O => fun _ => OutOfFuel
  | Datatypes.S fuel' =>
      let* jinfo := next_job in
      match jinfo with
      | None => st_ret tt
      | Some p => consider_job p >>> main_loop fuel'
      end
  end.

(** [scheduling_cycle] between the query of the server and the release of the structures. *)
Definition scheduling_cycle (fuel : nat) : S unit := init_scheduling_cycle >>> main_loop fuel.

End Sched.
