(* ===== verification/SchedQuery.v ===== *)
(** * The FIFO scheduler: reading the state of the server
    (src/src/scheduler.cc/samples/fifo: misc.c, job_info.c, queue_info.c, server_info.c,
    node_info.c)

    [query_server] turns the answers of pbs_server into the structures of a cycle.  The
    answers, the nodes [query_nodes] found and the fair share node of an account are
    arguments.  Structures are allocated at the end of the lists of the state; a new
    structure is always granted, arrays as the platform decides.  [None] and [UB] are a NULL
    that is followed or an array that is left. *)

From Stdlib Require Import ZArith Lia String Ascii SpecFloat.
From stdpp Require Import base list numbers option.
From S2P Require Import Prelude CLib Attrs SchedData Sched.

Local Open Scope Z_scope.
Local Open Scope st_scope.

#[local] Abbreviation S := (ST sched).

(** An element of what [pbs_statserver], [pbs_statque] and [pbs_selstat] return. *)
Record batch_status := mk_batch_status { bs_name : list Z; bs_attribs : list attrl }.

(** ** Resources *)

(** [strtol(s, &endp, 10)]: the value and what [endp] points at. *)
Definition strtol10 (s : list Z) : Z * list Z := let '(v, e) := strtol s 10 in (v, default s e).

Definition at_char (s : list Z) : Z := hd 0 s.
Definition is_char (c : Z) (names : list Z) : bool := existsb (Z.eqb c) names.

(** [KILO] is an unsigned long: the division of [count] by it is one, too. *)
Definition res_to_num (res_str : list Z) : Z :=
  let '(count, endp) := strtol10 res_str in
  let '(count, multiplier, endp) :=
    if at_char endp =? 58 then
      let '(count2, endp2) := strtol10 (tl endp) in
      if at_char endp2 =? 58 then
        let '(secs, endp) := strtol10 (tl endp2) in
        (if at_char endp =? 0 then i64 (i64 (i64 (count * 3600) + i64 (count2 * 60)) + secs) else UNSPECIFIED, 1, endp)
      else (i64 (i64 (count * 60) + count2), 1, endp)
    else if is_char (at_char endp) (str "kK") then (count, 1, endp)
    else if is_char (at_char endp) (str "mM") then (count, MEGATOKILO, endp)
    else if is_char (at_char endp) (str "gG") then (count, GIGATOKILO, endp)
    else if is_char (at_char endp) (str "tT") then (count, TERATOKILO, endp)
    else if is_char (at_char endp) (str "bB") then (i64 (u64 count / KILO), 1, endp)
    else if is_char (at_char endp) (str "w") then (i64 (u64 count / KILO), SIZE_OF_WORD, endp)
    else (count, 1, endp) in
  let multiplier := if negb (at_char endp =? 0) && (at_char (tl endp) =? 119) then multiplier * SIZE_OF_WORD else multiplier in
  i64 (count * multiplier).

(** The first request of the name is changed, one that is not there is made. *)
Fixpoint upd_req (name : list Z) (f : resource_req -> resource_req) (l : list resource_req) : list resource_req :=
  match l with
  | [] => []
  | q :: l' => if str_eq (rq_name q) name then f q :: l' else q :: upd_req name f l'
  end.
Definition set_req (name : list Z) (f : resource_req -> resource_req) (l : list resource_req) : list resource_req :=
  let '(l1, r) := find_alloc_resource_req name l in
  match l1 with [] => [f r] | _ => upd_req name f l1 end.

Definition find_alloc_resource (resplist : list resource) (name : list Z) : list resource :=
  match find_resource resplist name with
  | Some _ => resplist
  | None => resplist ++ [mk_resource name UNSPECIFIED INFINITY_VAL UNSPECIFIED]
  end.
Fixpoint upd_resource (name : list Z) (f : resource -> resource) (l : list resource) : list resource :=
  match l with
  | [] => []
  | r :: l' => if str_eq (rs_name r) name then f r :: l' else r :: upd_resource name f l'
  end.
Definition set_resource (l : list resource) (name : list Z) (f : resource -> resource) : list resource :=
  upd_resource name f (find_alloc_resource l name).

(** ** A job *)

Definition new_job_info (name : list Z) (queue : ptr) : job_info :=
  mk_job_info false false false false false false false false false false false
    name None None None queue 0 0 0 [] [] None None.

Definition set_state (state : list Z) (j : job_info) : job_info :=
  let c := at_char state in
  if c =? 81 then set_is_queued true j
  else if c =? 82 then set_is_running true j
  else if c =? 84 then set_is_transit true j
  else if c =? 72 then set_is_held true j
  else if c =? 87 then set_is_waiting true j
  else if c =? 69 then set_is_exiting true j
  else if c =? 83 then set_is_suspended true j
  else if c =? 67 then set_is_completed true j
  else j.

Fixpoint node_named (nodes : list node_info) (name : list Z) (i : nat) : option ptr :=
  match nodes with
  | [] => None
  | x :: nodes' => if str_eq (n_name x) name then Some i else node_named nodes' name (Datatypes.S i)
  end.
Definition find_node_info (name : cptr) (nodes : list node_info) : option ptr :=
  match name with Some n => node_named nodes n 0 | None => None end.

(** A number that counts unless a newline follows. *)
Definition job_number (value : list Z) : Z :=
  let '(count, endp) := strtol10 value in if at_char endp =? 10 then -1 else i32 count.

Definition job_attr (nodes : list node_info) (j : job_info) (a : attrl) : option job_info :=
  name ← at_name a;
  if str_eq name (str "Priority") then v ← at_value a; Some (set_priority (job_number v) j)
  else if str_eq name (str "qtime") then v ← at_value a; Some (set_qtime (job_number v) j)
  else if str_eq name (str "job_state") then v ← at_value a; Some (set_state v j)
  else if str_eq name (str "comment") then Some (set_j_comment (at_value a) j)
  else if str_eq name (str "euser") then Some (set_account (at_value a) j)
  else if str_eq name (str "egroup") then Some (set_group (at_value a) j)
  else if str_eq name (str "exec_host") then Some (set_job_node (find_node_info (at_value a) nodes) j)
  else if str_eq name (str "Resource_List") then
    r ← at_resource a; v ← at_value a;
    Some (set_resreq (set_req r (fun q => mk_resource_req (rq_name q) (res_to_num v) (Some v)) (resreq j)) j)
  else if str_eq name (str "resources_used") then
    r ← at_resource a; v ← at_value a;
    Some (set_resused (set_req r (fun q => mk_resource_req (rq_name q) (res_to_num v) (res_str q)) (resused j)) j)
  else Some j.

Fixpoint attrs_loop {A} (step : A -> attrl -> option A) (x : A) (attribs : list attrl) : option A :=
  match attribs with
  | [] => Some x
  | a :: attribs' => x' ← step x a; attrs_loop step x' attribs'
  end.

Definition query_job_info (nodes : list node_info) (job : batch_status) (queue : ptr) : option job_info :=
  attrs_loop (job_attr nodes) (new_job_info (bs_name job) queue) (bs_attribs job).

(** ** A queue *)

Definition new_queue_info (name : list Z) : queue_info :=
  mk_queue_info false false false false false name init_state_count INFINITY_VAL INFINITY_VAL INFINITY_VAL
    0 [] None None None.

(** A limit that is not a number is -1. *)
Definition limit_number (value : list Z) : Z :=
  let '(count, endp) := strtol10 value in if at_char endp =? 0 then i32 count else -1.

Definition set_avail (n : Z) (r : resource) : resource := mk_resource (rs_name r) n (rs_max r) (assigned r).
Definition set_rs_max (n : Z) (r : resource) : resource := mk_resource (rs_name r) (avail r) n (assigned r).
Definition set_assigned (n : Z) (r : resource) : resource := mk_resource (rs_name r) (avail r) (rs_max r) n.

Definition queue_attr (x : queue_info) (a : attrl) : option queue_info :=
  name ← at_name a;
  let resource_attr set :=
    v ← at_value a; r ← at_resource a;
    Some (set_qres (set_resource (qres x) r (set (i32 (res_to_num v)))) x) in
  if str_eq name (str "started") then
    v ← at_value a; Some (if str_eq v (str "True") then set_is_started true x else x)
  else if str_eq name (str "max_running") then v ← at_value a; Some (set_q_max_run (limit_number v) x)
  else if str_eq name (str "max_user_run") then v ← at_value a; Some (set_q_max_user_run (limit_number v) x)
  else if str_eq name (str "max_group_run") then v ← at_value a; Some (set_q_max_group_run (limit_number v) x)
  else if str_eq name (str "Priority") then v ← at_value a; Some (set_q_priority (limit_number v) x)
  else if str_eq name (str "queue_type") then
    v ← at_value a;
    Some (if str_eq v (str "Execution") then set_is_route false (set_is_exec true x)
          else if str_eq v (str "Route") then set_is_exec false (set_is_route true x) else x)
  else if str_eq name (str "resources_available") then resource_attr set_avail
  else if str_eq name (str "resources_max") then resource_attr set_rs_max
  else if str_eq name (str "resources_assigned") then resource_attr set_assigned
  else if str_eq name (str "resources_default") then
    r ← at_resource a; Some (if str_eq r (str "neednodes") then set_need (at_value a) x else x)
  else Some x.

Definition query_queue_info (queue : batch_status) : option queue_info :=
  attrs_loop queue_attr (new_queue_info (bs_name queue)) (bs_attribs queue).

(** ** The server *)

Definition new_server_info (name : list Z) : server_info :=
  mk_server_info name [] None INFINITY_VAL INFINITY_VAL INFINITY_VAL 0 init_state_count [] [] None None None.

(** The words between commas, [strtok] passing over empty ones, without leading spaces. *)
Fixpoint comma_words (s : list Z) (word : list Z) : list (list Z) :=
  match s with
  | [] => match word with [] => [] | _ => [word] end
  | c :: s' =>
      if c =? 44 then match word with [] => comma_words s' [] | _ => word :: comma_words s' [] end
      else comma_words s' (word ++ [c])
  end.
Definition break_comma_list (s : list Z) : list (list Z) := skip_spaces <$> comma_words s [].

Section Query.
Context `{Platform} (conf : config) (cstat : status) (atof : list Z -> float).

Definition get_token_array (tokenlist : list Z) : option (list token) :=
  mapM (fun s => get_token atof (Some s)) (break_comma_list tokenlist).

Definition server_attr (s : server_info) (a : attrl) : option server_info :=
  name ← at_name a;
  let resource_attr set :=
    v ← at_value a; r ← at_resource a;
    Some (set_res (set_resource (res s) r (set (res_to_num v))) s) in
  if str_eq name (str "default_queue") then Some (set_default_queue (at_value a) s)
  else if str_eq name (str "max_running") then v ← at_value a; Some (set_max_run (limit_number v) s)
  else if str_eq name (str "max_user_run") then v ← at_value a; Some (set_max_user_run (limit_number v) s)
  else if str_eq name (str "max_group_run") then v ← at_value a; Some (set_max_group_run (limit_number v) s)
  else if str_eq name (str "resources_available") then resource_attr set_avail
  else if str_eq name (str "resources_max") then resource_attr set_rs_max
  else if str_eq name (str "resources_assigned") then resource_attr set_assigned
  else if str_eq name (str "tokens") then
    v ← at_value a; ts ← get_token_array v; Some (set_tokens (Some ts) s)
  else Some s.

Definition query_server_info (server : batch_status) : option server_info :=
  attrs_loop server_attr (new_server_info (bs_name server)) (bs_attribs server).

(** ** The query *)

(** What the server answers about itself, its queues and the jobs of a queue, an empty list
    being NULL; the nodes; and the fair share node of an account. *)
Context (statserver : option batch_status) (statque : list batch_status) (selstat : list Z -> list batch_status)
  (nodes : option (list node_info)) (find_alloc_ginfo : list Z -> option ptr).

Definition query_job (q : ptr) (job : batch_status) : option job_info :=
  j ← query_job_info (default [] nodes) job q;
  let j := match account j with Some u => set_ginfo (find_alloc_ginfo u) j | None => j end in
  Some (if is_queued j then j else set_can_not_run true j).

(** The jobs of queue [q], allocated one after the other. *)
Definition query_jobs (q : ptr) (name : list Z) : S (option (list ptr)) :=
  match selstat name with
  | [] => st_ret None
  | jobs =>
      if negb (calloc_ok (SIZEOF_POINTER * (zlen jobs + 1))) then st_ret None
      else
        let* js := st_lift (mapM (query_job q) jobs) in
        let* w := st_get in
        st_modify (fun w => set_w_jobs (w_jobs w ++ js) w) >>>
        st_ret (Some (seq (length (w_jobs w)) (length js)))
  end.

Definition translate_queue_fail_code (code : Z) : list Z :=
  if code =? QUEUE_NOT_STARTED then str "Not Running: Queue not started."
  else if code =? QUEUE_NOT_EXEC then str "Not Running: Queue not an execution queue."
  else if code =? DED_TIME then str "Not Running: Dedicated time conflict"
  else if code =? QUEUE_IGNORED then str "Not Running: Queue is configured to be ignored"
  else [].

(** [strncmp(name, prefix, strlen(prefix)) == 0] *)
Definition has_prefix (prefix name : list Z) : bool := str_eq (take (length prefix) name) prefix.

(** The sum is an int. *)
Definition calc_assn_resource (heap : list job_info) (jinfo_arr : option (list ptr)) (resstr : list Z) : option Z :=
  match jinfo_arr with
  | None => Some (-1)
  | Some ps => js ← deref heap ps; Some (i32 (calc_assn js resstr))
  end.

(** What is assigned and was not reported is what the running jobs ask for. *)
Definition assign_unspecified (heap : list job_info) (running : option (list ptr)) (rs : list resource) :
    option (list resource) :=
  mapM (fun r =>
    if assigned r =? UNSPECIFIED then
      n ← calc_assn_resource heap running (rs_name r); Some (set_assigned n r)
    else Some r) rs.

Definition query_queue (q : ptr) (queue : batch_status) : S queue_info :=
  let* x := st_lift (query_queue_info queue) in
  let* js := query_jobs q (q_name x) in
  let x := set_q_jobs js x in
  let x := match ded_prefix conf with
           | [] => x
           | prefix => if has_prefix prefix (q_name x) then set_dedtime_queue true x else x
           end in
  let* ret := st_lift (is_ok_to_run_queue conf cstat x) in
  (if ret =? SUCCESS then st_ret tt
   else update_jobs_cant_run js None (translate_queue_fail_code ret) START_WITH_JOB) >>>
  let x := set_is_ok_to_run (ret =? SUCCESS) x in
  let* w := st_get in
  let* jobs := st_lift (deref (w_jobs w) (default [] js)) in
  let x := set_q_sc (count_states jobs (q_sc x)) x in
  let* running := st_lift (job_filter (w_jobs w) js (sc_total (q_sc x)) check_run_job) in
  let* rs := st_lift (assign_unspecified (w_jobs w) running (qres x)) in
  st_ret (set_qres rs (set_q_running_jobs running x)).

Fixpoint query_queues (queues : list batch_status) : S unit :=
  match queues with
  | [] => st_ret tt
  | queue :: queues' =>
      let* w := st_get in
      let* x := query_queue (length (w_queues w)) queue in
      st_modify (fun w => set_w_queues (w_queues w ++ [x]) w) >>> query_queues queues'
  end.

(** The jobs of the queues are copied into an array of [total] places and the NULL. *)
Definition jobs_of_queues (qs : list queue_info) : list ptr := concat ((fun x => default [] (q_jobs x)) <$> qs).
Definition set_all_jobs (qs : list queue_info) (total : Z) : option (list ptr) :=
  if total <? zlen (jobs_of_queues qs) then None else Some (jobs_of_queues qs).

Definition node_filter (ns : option (list node_info)) (f : node_info -> bool) : option (list ptr) :=
  let size := zlen (default [] ns) in
  if negb (calloc_ok ((size + 1) * SIZEOF_POINTER)) then None
  else match List.filter (fun i => default false (f <$> default [] ns !! i)) (seq 0 (length (default [] ns))) with
       | [] => None
       | l => if negb (calloc_ok ((zlen l + 1) * SIZEOF_POINTER)) then None else Some l
       end.

(** [false] is the NULL that is returned. *)
Definition query_server : S bool :=
  match statserver with
  | None => st_ret false
  | Some server =>
      let* s := st_lift (query_server_info server) in
      st_modify (fun w => set_w_nodes (default [] nodes) (set_w_queues [] (set_w_jobs [] w))) >>>
      if bool_decide (statque = []) || negb (calloc_ok (SIZEOF_POINTER * (zlen statque + 1))) then st_ret false
      else
        query_queues statque >>>
        let* w := st_get in
        let c := foldl (fun c x => total_states c (q_sc x)) (sc s) (w_queues w) in
        if negb (calloc_ok (SIZEOF_POINTER * (sc_total c + 1))) then st_ret false
        else
          let* js := st_lift (set_all_jobs (w_queues w) (sc_total c)) in
          let* running := st_lift (job_filter (w_jobs w) (Some js) (sc_total c) check_run_job) in
          let* rs := st_lift (assign_unspecified (w_jobs w) running (res s)) in
          st_modify (set_sinfo (set_timesharing_nodes (node_filter nodes is_timeshare)
            (set_running_jobs running (set_res rs (set_jobs js (set_sc c
              (set_queues (seq 0 (length (w_queues w))) (set_num_nodes (zlen (default [] nodes)) s)))))))) >>>
          st_ret true
  end.

End Query.
