(* ===== verification/SchedRun.v ===== *)
(** * The FIFO scheduler: what a cycle keeps

    The state of the scheduler is reduced to what the limits are about: which jobs run, whose
    they are and in which queue ([cores]).  Most of the cycle leaves that alone ([quiet]);
    running a job adds one ([ran]).  The theorems hold for every policy and every answer of
    the server. *)

From Stdlib Require Import ZArith Lia String Ascii SpecFloat.
From stdpp Require Import base list numbers option.
From S2P Require Import Prelude CLib Attrs SchedData Sched.
From stdpp Require Import list_relations.

Local Open Scope Z_scope.

(** ** What a computation keeps *)

Definition keeps {A} (R : relation sched) (m : ST sched A) : Prop :=
  forall w a w', m w = Ret a w' -> R w w'.

Lemma bind_ret_inv {S A B} (m : ST S A) (k : A -> ST S B) s b s' :
  st_bind m k s = Ret b s' -> exists a s1, m s = Ret a s1 /\ k a s1 = Ret b s'.
Proof. unfold st_bind. destruct (m s) as [a s1| |]; [|done..]. eauto. Qed.

Lemma get_inv {S} (w a w' : S) : st_get w = Ret a w' -> a = w /\ w' = w.
Proof. by intros [= -> ->]. Qed.
Lemma ret_inv {S A} (a b : A) (w w' : S) : st_ret a w = Ret b w' -> b = a /\ w' = w.
Proof. by intros [= -> ->]. Qed.
Lemma modify_inv {S} f (w : S) b w' : st_modify f w = Ret b w' -> w' = f w.
Proof. by intros [= _ ->]. Qed.
Lemma lift_inv {S A} (o : option A) (w : S) a w' : st_lift o w = Ret a w' -> o = Some a /\ w' = w.
Proof. destruct o; [|done]. by intros [= -> ->]. Qed.
Lemma get_job_inv p w j w' : get_job p w = Ret j w' -> w_jobs w !! p = Some j /\ w' = w.
Proof. by intros (w1 & w2 & [-> ->]%get_inv & Hj%lift_inv)%bind_ret_inv. Qed.
Lemma get_queue_inv p w j w' : get_queue p w = Ret j w' -> w_queues w !! p = Some j /\ w' = w.
Proof. by intros (w1 & w2 & [-> ->]%get_inv & Hj%lift_inv)%bind_ret_inv. Qed.
Lemma pure_check_inv f w a w' : pure_check f w = Ret a w' -> f w = Some a /\ w' = w.
Proof. by intros (w1 & w2 & [-> ->]%get_inv & Hj%lift_inv)%bind_ret_inv. Qed.
Lemma upd_job_inv p f w a w' :
  upd_job p f w = Ret a w' -> exists j, w_jobs w !! p = Some j /\ w' = set_w_jobs (<[p := f j]> (w_jobs w)) w.
Proof. intros (j & w1 & [Hj ->]%get_job_inv & ->%modify_inv)%bind_ret_inv. eauto. Qed.
Lemma upd_queue_inv p f w a w' :
  upd_queue p f w = Ret a w' -> exists x, w_queues w !! p = Some x /\ w' = set_w_queues (<[p := f x]> (w_queues w)) w.
Proof. intros (j & w1 & [Hj ->]%get_queue_inv & ->%modify_inv)%bind_ret_inv. eauto. Qed.

(** Reads off a run that came to its end, one step at a time. *)
Ltac inv_step H :=
  lazymatch type of H with
  | st_get _ = Ret _ _ => apply get_inv in H as [-> ->]
  | st_ret _ _ = Ret _ _ => first [apply ret_inv in H as [-> ->] | apply ret_inv in H as [_ ->]]
  | st_modify _ _ = Ret _ _ => apply modify_inv in H as ->
  | st_lift _ _ = Ret _ _ => apply lift_inv in H as [H ->]
  | get_job _ _ = Ret _ _ => apply get_job_inv in H as [H ->]
  | get_queue _ _ = Ret _ _ => apply get_queue_inv in H as [H ->]
  | pure_check _ _ = Ret _ _ => apply pure_check_inv in H as [H ->]
  | upd_job _ _ _ = Ret _ _ => let j := fresh "j" in apply upd_job_inv in H as (j & H & ->)
  | upd_queue _ _ _ = Ret _ _ => let x := fresh "x" in apply upd_queue_inv in H as (x & H & ->)
  | upd_server _ _ = Ret _ _ => apply modify_inv in H as ->
  | st_bind _ _ _ = Ret _ _ =>
      let a := fresh "a" in let w := fresh "w" in let H1 := fresh "H" in
      apply bind_ret_inv in H as (a & w & H1 & H); try inv_step H1;
      try match type of a with unit => destruct a end
  end.

Section Keeps.
Context (R : relation sched) `{!PreOrder R}.

Lemma keeps_bind {A B} (m : ST sched A) (k : A -> ST sched B) :
  keeps R m -> (forall a, keeps R (k a)) -> keeps R (st_bind m k).
Proof. intros Hm Hk w b w' (a & w1 & H1 & H2)%bind_ret_inv. etransitivity; [by eapply Hm|by eapply Hk]. Qed.
Lemma keeps_ret {A} (a : A) : keeps R (st_ret a).
Proof. intros w b w' [= _ ->]. reflexivity. Qed.
Lemma keeps_get : keeps R st_get.
Proof. intros w b w' [= _ ->]. reflexivity. Qed.
Lemma keeps_lift {A} (o : option A) : keeps R (st_lift o).
Proof. destruct o; [apply keeps_ret|]. by intros w b w'. Qed.
Lemma keeps_ub {A} : keeps R (@st_ub sched A).
Proof. by intros w b w'. Qed.
Lemma keeps_modify f : (forall w, R w (f w)) -> keeps R (st_modify f).
Proof. intros Hf w b w' [= _ <-]. apply Hf. Qed.
Lemma keeps_get_job p : keeps R (get_job p).
Proof. apply keeps_bind; [apply keeps_get|intros; apply keeps_lift]. Qed.
Lemma keeps_get_queue p : keeps R (get_queue p).
Proof. apply keeps_bind; [apply keeps_get|intros; apply keeps_lift]. Qed.
Lemma keeps_pure_check f : keeps R (pure_check f).
Proof. apply keeps_bind; [apply keeps_get|intros; apply keeps_lift]. Qed.
Lemma keeps_upd_job p f :
  (forall w j, w_jobs w !! p = Some j -> R w (set_w_jobs (<[p := f j]> (w_jobs w)) w)) -> keeps R (upd_job p f).
Proof.
  intros Hf w b w' (j & Hj & ->)%upd_job_inv. by apply Hf.
Qed.
End Keeps.

(** Takes a computation apart into the steps that change the state. *)
Ltac keeps_tac :=
  repeat lazymatch goal with
  | |- keeps _ (st_bind _ _) => apply keeps_bind; [try typeclasses eauto| |intros ?]
  | |- keeps _ (st_ret _) => apply keeps_ret; typeclasses eauto
  | |- keeps _ st_get => apply keeps_get; typeclasses eauto
  | |- keeps _ (st_lift _) => apply keeps_lift; typeclasses eauto
  | |- keeps _ st_ub => apply keeps_ub
  | |- keeps _ (get_job _) => apply keeps_get_job; typeclasses eauto
  | |- keeps _ (get_queue _) => apply keeps_get_queue; typeclasses eauto
  | |- keeps _ (pure_check _) => apply keeps_pure_check; typeclasses eauto
  | |- keeps _ (if ?b then _ else _) => destruct b
  | |- keeps _ (match ?x with _ => _ end) => destruct x
  | |- keeps _ _ => solve [done | assumption | eauto 2 with sched]
  end.

Create HintDb sched.

(** ** The reduced state *)

Record core := mk_core { c_running : bool; c_account : cptr; c_group : cptr; c_queue : ptr }.
Definition core_of (j : job_info) : core := mk_core (is_running j) (account j) (group j) (j_queue j).
Definition cores (w : sched) : list core := core_of <$> w_jobs w.

Record quiet (w w' : sched) : Prop := {
  quiet_cores : cores w' = cores w;
  quiet_queues : w_queues w' = w_queues w;
  quiet_sinfo : sinfo w' = sinfo w;
  quiet_queue : last_queue w' = last_queue w;
  quiet_job : last_job w' = last_job w;
  quiet_cjobs : cjobs w' = cjobs w;
  quiet_starving : starving_job w' = starving_job w
}.

#[export] Instance quiet_preorder : PreOrder quiet.
Proof.
  split; [by intros w|]. intros w1 w2 w3 [] []. split; by etransitivity.
Qed.

Lemma cores_upd w p j f :
  w_jobs w !! p = Some j -> core_of (f j) = core_of j ->
  core_of <$> <[p := f j]> (w_jobs w) = cores w.
Proof.
  intros Hj Hf. unfold cores. rewrite list_fmap_insert, Hf. apply list_insert_id.
  by rewrite list_lookup_fmap, Hj.
Qed.

Lemma quiet_upd_job p f : (forall j, core_of (f j) = core_of j) -> keeps quiet (upd_job p f).
Proof.
  intros Hf. apply keeps_upd_job. intros w j Hj. split; try done. by apply cores_upd.
Qed.

Lemma quiet_modify f :
  (forall w, w_jobs (f w) = w_jobs w /\ w_queues (f w) = w_queues w /\ sinfo (f w) = sinfo w
    /\ last_queue (f w) = last_queue w /\ last_job (f w) = last_job w /\ cjobs (f w) = cjobs w
    /\ starving_job (f w) = starving_job w) -> keeps quiet (st_modify f).
Proof.
  intros Hf. apply keeps_modify. intros w. destruct (Hf w) as (E1 & ? & ? & ? & ? & ? & ?).
  split; try done. unfold cores. by rewrite E1.
Qed.

Lemma quiet_tell e : keeps quiet (tell e).
Proof. by apply quiet_modify. Qed.
#[export] Hint Resolve quiet_tell : sched.
#[export] Hint Extern 1 (keeps quiet (upd_job _ _)) => (by apply quiet_upd_job; intros []) : sched.
#[export] Hint Extern 1 (keeps quiet (st_modify _)) => (by apply quiet_modify) : sched.

Set Default Proof Using "Type".

Section Run.
Context `{Platform} {Hall : AllocOk} (conf : config) (cstat : status).
Context (atof : list Z -> float) (timebuf : list Z)
  (qsort : forall A, (A -> A -> Z) -> list (ptr * A) -> list (ptr * A))
  (runjob_answer : list event -> Z) (rescquery_answer : list event -> Z * Z)
  (geterrmsg : list event -> list Z).

Lemma quiet_comment p c : keeps quiet (update_job_comment p c).
Proof. unfold update_job_comment. keeps_tac. Qed.
Lemma quiet_neednodes p : keeps quiet (update_job_neednodes p).
Proof. unfold update_job_neednodes. keeps_tac. Qed.
Hint Resolve quiet_comment quiet_neednodes : sched.
Lemma quiet_mark ps c : keeps quiet (mark_cant_run ps c).
Proof. induction ps; simpl; keeps_tac. Qed.
Hint Resolve quiet_mark : sched.
Lemma quiet_cant_run arr s c n : keeps quiet (update_jobs_cant_run arr s c n).
Proof. unfold update_jobs_cant_run. keeps_tac. Qed.
Lemma quiet_runjob p n : keeps quiet (pbs_runjob runjob_answer p n).
Proof. unfold pbs_runjob. keeps_tac. Qed.
Lemma quiet_rescquery q : keeps quiet (pbs_rescquery rescquery_answer q).
Proof. unfold pbs_rescquery. keeps_tac. Qed.
Hint Resolve quiet_cant_run quiet_runjob quiet_rescquery : sched.
Lemma quiet_check_nodes p : keeps quiet (check_nodes cstat rescquery_answer p).
Proof. unfold check_nodes. keeps_tac. Qed.
Hint Resolve quiet_check_nodes : sched.
Lemma quiet_best_node reqs arr : keeps quiet (find_best_node cstat reqs arr).
Proof. unfold find_best_node. keeps_tac. Qed.
Lemma quiet_node_name b : keeps quiet (node_name b).
Proof. unfold node_name. keeps_tac. Qed.
Lemma quiet_raise_load b reqs : keeps quiet (raise_load cstat b reqs).
Proof. unfold raise_load. keeps_tac. Qed.
Lemma quiet_usage p : keeps quiet (update_usage_on_run p).
Proof. unfold update_usage_on_run. keeps_tac. Qed.
Hint Resolve quiet_best_node quiet_node_name quiet_raise_load quiet_usage : sched.
Lemma quiet_job_cant_run p r : keeps quiet (job_cant_run cstat p r).
Proof. unfold job_cant_run. keeps_tac. Qed.
Hint Resolve quiet_job_cant_run : sched.

(** ** Choosing a job *)

(** Only the places of [next_job] change. *)
Record moved (w w' : sched) : Prop := {
  moved_jobs : w_jobs w' = w_jobs w; moved_queues : w_queues w' = w_queues w;
  moved_sinfo : sinfo w' = sinfo w; moved_groups : w_groups w' = w_groups w;
  moved_events : w_events w' = w_events w; moved_starving : starving_job w' = starving_job w;
  moved_cjobs : forall arr, Some arr ∈ cjobs w' -> Some arr ∈ cjobs w
}.

#[local] Instance moved_preorder : PreOrder moved.
Proof. split; [by intros w|]. intros w1 w2 w3 [] []. split; try (by etransitivity). auto. Qed.

Lemma find_from_spec heap wanted ps : forall i r i',
  find_from heap wanted ps i = Some (r, i') ->
  match r with
  | Some p => i <= i' /\ ps !! Z.to_nat (i' - i) = Some p /\ exists j, heap !! p = Some j /\ wanted j = true
  | None => i' = i + zlen ps
  end.
Proof.
  induction ps as [|p ps IH]; intros i r i' E; simpl in E; [simplify_eq; rewrite zlen_nil; lia|].
  destruct (heap !! p) as [j|] eqn:Ej; [|done]. cbn [mbind option_bind] in E.
  destruct (wanted j) eqn:Ew; simplify_eq; [rewrite Z.sub_diag; eauto using Z.le_refl|].
  apply IH in E. destruct r as [p'|]; [|rewrite zlen_cons; lia]. destruct E as (Hi & Hp & Hj).
  split; [lia|]. split; [|done].
  replace (Z.to_nat (i' - i)) with (Datatypes.S (Z.to_nat (i' - (i + 1)))) by lia. done.
Qed.

Lemma search_from_spec heap wanted arr i r i' :
  search_from heap wanted arr i = Some (r, i') ->
  0 <= i <= i' /\ i' <= zlen arr /\
  match r with
  | Some p => i' < zlen arr /\ arr !! Z.to_nat i' = Some p /\ exists j, heap !! p = Some j /\ wanted j = true
  | None => i' = zlen arr
  end.
Proof.
  unfold search_from. destruct ((0 <=? i) && (i <=? zlen arr)) eqn:Eb; [|done].
  intros E%find_from_spec. assert (0 <= i <= zlen arr) as Hi by lia.
  destruct r as [p|]; [|subst i'; rewrite <- (Z2Nat.id i) at 2 3 by lia; unfold zlen in *; rewrite length_drop; lia].
  destruct E as (Hle & Hp & Hj). rewrite lookup_drop in Hp.
  replace (Z.to_nat i + Z.to_nat (i' - i))%nat with (Z.to_nat i') in Hp by lia.
  assert (i' < zlen arr) by (apply lookup_lt_Some in Hp; unfold zlen; lia). eauto 8 with lia.
Qed.

Lemma fairshare_loop_spec heap groups ps : forall m v r,
  fairshare_loop heap groups ps m v = Some r ->
  r = m \/ exists p j, r = Some p /\ p ∈ ps /\ heap !! p = Some j /\ is_running j = false /\ can_not_run j = false.
Proof.
  induction ps as [|p ps IH]; intros m v r E; simpl in E; [simplify_eq; by left|].
  destruct (heap !! p) as [j|] eqn:Ej; [|done]. cbn [mbind option_bind] in E.
  destruct (ginfo j) as [gi|]; [|done]. cbn [mbind option_bind] in E.
  destruct (groups !! gi) as [g|]; [|done]. cbn [mbind option_bind] in E.
  destruct (SFltb _ _ && negb (is_running j) && negb (can_not_run j)) eqn:Eb.
  - right. apply andb_true_iff in Eb as [[_ H1%negb_true_iff]%andb_true_iff H2%negb_true_iff].
    destruct (IH _ _ _ E) as [->|(p' & j' & ? & ? & ?)]; [exists p, j; split; [done|]; split; [by left|done]|].
    exists p', j'. split; [done|]. split; [by right|done].
  - destruct (IH _ _ _ E) as [->|(p' & j' & ? & ? & ?)]; [by left|]. right. exists p', j'. split; [done|]. split; [by right|done].
Qed.

(** A job that may be chosen in a state: it stands in the array, and it is queued or not
    ruled out, as the policy looks at it. *)
Definition choosable (w : sched) (arr : list ptr) (p : ptr) : Prop :=
  p ∈ arr /\ exists j, w_jobs w !! p = Some j
    /\ (if strict_fifo cstat && negb (round_robin cstat) then is_queued j else negb (can_not_run j)) = true.

Lemma extract_fairshare_spec w arr p :
  extract_fairshare w (Some arr) = Some (Some p) -> strict_fifo cstat && negb (round_robin cstat) = false ->
  choosable w arr p.
Proof.
  intros [E|(p' & j & [= <-] & Hp & Hj & _ & Hc)]%fairshare_loop_spec Hm; [done|].
  split; [done|]. exists j. by rewrite Hm, Hc.
Qed.

Lemma next_in_array_spec wanted w r w' :
  next_in_array wanted w = Ret r w' ->
  moved w w' /\ last_job w < last_job w' <= zlen (jobs (sinfo w)) /\ forall p, r = Some p ->
    last_job w' < zlen (jobs (sinfo w)) /\ jobs (sinfo w) !! Z.to_nat (last_job w') = Some p
    /\ exists j, w_jobs w !! p = Some j /\ wanted j = true.
Proof.
  unfold next_in_array. intros E. repeat inv_step E. destruct a as [r' i]. repeat inv_step E.
  apply search_from_spec in H0 as (H1 & H2 & H3). split; [by split|]. split; [simpl; lia|].
  by intros p ->.
Qed.

Lemma rr_loop_spec n : forall w r w',
  round_robin cstat = true -> rr_loop cstat n w = Ret r w' ->
  moved w w' /\ forall p, r = Some p -> exists arr, Some arr ∈ cjobs w /\ choosable w arr p.
Proof.
  induction n as [|n IH]; intros w r w' Hrr E; simpl in E; [by repeat inv_step E|].
  inv_step E. set (w1 := if last_queue w =? num_queues w - 1 then _ else _) in *.
  assert (w_jobs w1 = w_jobs w /\ w_groups w1 = w_groups w /\ cjobs w1 = cjobs w) as (Ej & Eg & Ec)
    by (unfold w1; by destruct (_ =? _)).
  assert (moved w w1) as Hm by (unfold w1; destruct (_ =? _); by split).
  assert (choosable w1 = choosable w) as Hch by (unfold choosable; by rewrite Ej).
  clearbody w1. assert (forall k r w', rr_loop cstat n k = Ret r w' -> moved w1 k ->
    moved w w' /\ forall p, r = Some p -> exists arr, Some arr ∈ cjobs w /\ choosable w arr p) as Hgo.
  { intros k r0 w0 E0 Hk. destruct (IH k r0 w0 Hrr E0) as [H1 H2]. split; [by etransitivity; [|etransitivity]|].
    intros p Hp. destruct (H2 p Hp) as (arr & Ha & Hc). exists arr. split; [rewrite <- Ec; by apply Hk|].
    unfold choosable in *. by rewrite <- Ej, <- (moved_jobs _ _ Hk). }
  repeat inv_step E. destruct (0 <=? last_queue w1); [|done]. apply list_elem_of_lookup_2 in H0.
  destruct a as [arr|]; [|by apply (Hgo w1)]. repeat inv_step E. destruct a as [p|].
  - repeat inv_step E. destruct a as [r'|].
    + inv_step E. split; [done|]. intros p' [= ->]. exists arr. rewrite Ec in H0. split; [done|]. rewrite <- Hch.
      destruct (fair_share cstat); [apply extract_fairshare_spec; [done|by rewrite Hrr, andb_false_r]|].
      destruct (w_jobs w1 !! p) as [j|] eqn:Hj; simplify_eq/=. destruct (can_not_run j) eqn:Hn; simplify_eq.
      unfold nth_job in H1. destruct ((0 <=? last_job w1) && _); [|done]. injection H1 as H1.
      apply list_elem_of_lookup_2 in H1. split; [done|]. exists j. by rewrite Hrr, andb_false_r, Hn.
    + by apply (Hgo w1).
  - repeat inv_step E. apply (Hgo _ _ _ E). split; try done. intros arr' Ha.
    apply list_elem_of_lookup in Ha as [k Hk]. simpl in Hk. destruct (decide (k = Z.to_nat (last_queue w1))) as [->|Hne].
    + destruct (decide (Z.to_nat (last_queue w1) < length (cjobs w1))%nat) as [Hlt|Hge];
        [by rewrite list_lookup_insert_eq in Hk|rewrite list_insert_ge in Hk by lia; by eapply list_elem_of_lookup_2].
    + rewrite list_lookup_insert_ne in Hk by done. by eapply list_elem_of_lookup_2.
Qed.

Lemma by_queue_loop_spec w qs : forall n i q passed i',
  by_queue_loop w qs n i = Some (Some q, passed, i') ->
  q ∈ qs /\ exists x arr p j, w_queues w !! q = Some x /\ q_jobs x = Some arr /\ 0 <= i' < zlen arr
    /\ arr !! Z.to_nat i' = Some p /\ w_jobs w !! p = Some j /\ can_not_run j = false.
Proof.
  induction qs as [|q0 qs IH]; intros n i q passed i' E; simpl in E; [done|].
  destruct (w_queues w !! q0) as [x|] eqn:Ex; [|done]. cbn [mbind option_bind] in E.
  destruct (q_jobs x) as [arr|] eqn:Ea; [|destruct (IH _ _ _ _ _ E); split; [by right|done]].
  destruct (search_from _ _ arr i) as [[p i1]|] eqn:Es; [|done]. cbn [mbind option_bind] in E.
  destruct p as [p|]; [|destruct (IH _ _ _ _ _ E); split; [by right|done]].
  injection E as <- <- <-. apply search_from_spec in Es as (H1 & H2 & H3 & H4 & j & Hj & Hn).
  split; [by left|]. exists x, arr, p, j. apply negb_true_iff in Hn. repeat (split; [done || lia|]). done.
Qed.

Lemma next_by_queue_spec w r w' :
  strict_fifo cstat = false -> next_by_queue cstat w = Ret r w' ->
  moved w w' /\ forall p, r = Some p -> exists q x arr, w_queues w !! q = Some x /\ q_jobs x = Some arr
    /\ choosable w arr p.
Proof.
  intros Hs E. unfold next_by_queue in E. inv_step E. inv_step E.
  set (w1 := set_last_job (last_job w + 1) w) in *. destruct (last_queue w1 <? 0); [done|].
  inv_step E. destruct a as [[q passed] i]. inv_step E.
  destruct q as [q|]; [|inv_step E; split; [by split|done]].
  apply by_queue_loop_spec in H0 as (_ & x & arr & p & j & Hx & Ha & Hi & Hp & Hj & Hn).
  inv_step E. simpl in H0, Hx. rewrite Hx in H0. injection H0 as <-.
  assert (Hf : strict_fifo cstat && negb (round_robin cstat) = false) by by rewrite Hs.
  destruct (fair_share cstat).
  - inv_step E. split; [by split|]. intros p' ->. exists q, x, arr. split; [done|]. split; [done|].
    rewrite Ha in E. by apply (extract_fairshare_spec w1).
  - destruct (i <? sc_total (q_sc x)); [|inv_step E; split; [by split|done]].
    inv_step E. rewrite Ha in H0. injection H0 as <-. inv_step E. split; [by split|]. intros p' ->.
    exists q, x, arr. split; [done|]. split; [done|]. unfold nth_job in E. destruct ((0 <=? i) && _); [|done].
    injection E as E. rewrite Hp in E. injection E as <-. split; [by eapply list_elem_of_lookup_2|].
    exists j. split; [done|]. by rewrite Hf, Hn.
Qed.

(** ** The structures agree *)

(** The jobs of an array that are running, and how many of them satisfy [P]. *)
Definition running_in (cs : list core) (ps : list ptr) : list ptr :=
  List.filter (fun p => default false (c_running <$> cs !! p)) ps.
Definition nrun (cs : list core) (P : core -> bool) (ps : list ptr) : Z :=
  zlen (List.filter (fun p => default false ((fun c => c_running c && P c) <$> cs !! p)) ps).

Record queue_wf (w : sched) (q : ptr) (x : queue_info) (arr : list ptr) : Prop := {
  qw_nodup : NoDup arr;
  qw_total : sc_total (q_sc x) = zlen arr;
  qw_running : exists r, q_running_jobs x = Some r /\ r ≡ₚ running_in (cores w) arr;
  qw_count : nrun (cores w) (fun _ => true) arr <= sc_running (q_sc x);
  qw_jobs : forall p, p ∈ arr -> p ∈ jobs (sinfo w) /\ c_queue <$> cores w !! p = Some q
}.

(** Every job of the server is in the array of its queue, the arrays of running jobs are the
    running ones, and no count is too low. *)
Record sched_wf (w : sched) : Prop := {
  wf_nodup : NoDup (jobs (sinfo w));
  wf_total : sc_total (sc (sinfo w)) = zlen (jobs (sinfo w));
  wf_size : zlen (jobs (sinfo w)) <= INT_MAX;
  wf_running : exists r, running_jobs (sinfo w) = Some r /\ r ≡ₚ running_in (cores w) (jobs (sinfo w));
  wf_count : nrun (cores w) (fun _ => true) (jobs (sinfo w)) <= sc_running (sc (sinfo w));
  wf_jobs : forall p, p ∈ jobs (sinfo w) -> exists c x, cores w !! p = Some c
    /\ w_queues w !! c_queue c = Some x /\ p ∈ default [] (q_jobs x);
  wf_queue : forall q x, w_queues w !! q = Some x -> queue_wf w q x (default [] (q_jobs x))
}.

(** Round robin looks at jobs of the server. *)
Definition places_wf (w : sched) : Prop :=
  round_robin cstat = true -> forall arr p, Some arr ∈ cjobs w -> p ∈ arr -> p ∈ jobs (sinfo w).

Lemma places_moved w w' : moved w w' -> places_wf w -> places_wf w'.
Proof. intros [E1 E2 E3 E4 E5 E6 E7] Hp Hrr arr p Ha. rewrite E3. eauto. Qed.

Lemma wf_moved w w' : moved w w' -> sched_wf w -> sched_wf w'.
Proof.
  intros [E1 E2 E3 E4 E5 E6 E7] []. assert (cores w' = cores w) as Ec by (unfold cores; by rewrite E1).
  split; rewrite ?E3, ?E2, ?Ec; try done.
  intros q x Hx. destruct (wf_queue0 q x Hx). by split; rewrite ?Ec, ?E3.
Qed.

Lemma wf_quiet w w' : quiet w w' -> sched_wf w -> sched_wf w'.
Proof.
  intros [E1 E2 E3 E4 E5 E6 E7] []. split; rewrite ?E3, ?E2, ?E1, ?E6; try done.
  intros q x Hx. destruct (wf_queue0 q x Hx). by split; rewrite ?E1, ?E3.
Qed.

Lemma next_job_spec w r w' :
  sched_wf w -> places_wf w -> next_job cstat w = Ret r w' ->
  moved w w' /\ forall p, r = Some p -> choosable w (jobs (sinfo w)) p.
Proof.
  intros Hw Hpl E. unfold next_job in E. inv_step E. unfold choosable.
  destruct (round_robin cstat) eqn:Hrr; [|destruct (strict_fifo cstat) eqn:Hs; [|destruct (by_queue cstat)]].
  - apply rr_loop_spec in E as [Hm Hp]; [|done]. split; [done|]. intros p Hr.
    destruct (Hp p Hr) as (arr & Ha & Hin & j & Hj & Hc). split; [by eapply Hpl|]. exists j. by rewrite Hrr in Hc.
  - apply next_in_array_spec in E as (Hm & _ & Hp). split; [done|]. intros p Hr.
    destruct (Hp p Hr) as (_ & H1%list_elem_of_lookup_2 & Hj). done.
  - apply next_by_queue_spec in E as [Hm Hp]; [|done]. split; [done|]. intros p Hr.
    destruct (Hp p Hr) as (q & x & arr & Hx & Ha & Hin & j & Hj & Hc). split; [|exists j; by rewrite Hs in Hc].
    apply (qw_jobs w q x arr); [|done]. pose proof (wf_queue _ Hw q x Hx) as HH. by rewrite Ha in HH.
  - destruct (fair_share cstat).
    + inv_step E. split; [by split|]. intros p ->. pose proof (extract_fairshare_spec _ _ _ E) as HH.
      unfold choosable in HH. rewrite Hs, Hrr in HH. by apply HH.
    + apply next_in_array_spec in E as (Hm & _ & Hp). split; [done|]. intros p Hr.
      destruct (Hp p Hr) as (_ & H1%list_elem_of_lookup_2 & Hj). done.
Qed.

(** ** Counting *)

Lemma nrun_all cs ps : nrun cs (fun _ => true) ps = zlen (running_in cs ps).
Proof.
  unfold nrun, running_in. f_equal. apply List.filter_ext. intros p. destruct (cs !! p) as [c|]; simpl; [|done].
  by rewrite andb_true_r.
Qed.

Lemma nrun_cons cs P p ps :
  nrun cs P (p :: ps) = (if default false ((fun c => c_running c && P c) <$> cs !! p) then 1 else 0) + nrun cs P ps.
Proof. unfold nrun. simpl. destruct (default _ _); rewrite ?zlen_cons; lia. Qed.

(** Counting by user or by group is counting among the running jobs. *)
Lemma count_loop_nrun (field : job_info -> cptr) cfield who heap ps js n :
  (forall j, cfield (core_of j) = field j) ->
  deref heap (running_in (core_of <$> heap) ps) = Some js -> count_loop field who js = Some n ->
  n = nrun (core_of <$> heap) (fun c => bool_decide (cfield c = who)) ps.
Proof.
  intros Hf. unfold running_in. revert js n. induction ps as [|p ps IH]; intros js n Hd Hc.
  - injection Hd as <-. injection Hc as <-. done.
  - rewrite nrun_cons. simpl in Hd. rewrite list_lookup_fmap in *.
    destruct (heap !! p) as [j|] eqn:Ej; simpl in Hd |- *; [|by rewrite (IH js n)].
    destruct (is_running j) eqn:Er; simpl; [|by rewrite (IH js n)].
    unfold deref in Hd. simpl in Hd. rewrite Ej in Hd. cbn [mbind option_bind] in Hd.
    destruct (mapM _ _) as [js'|] eqn:Ed; [|done]. injection Hd as <-. simpl in Hc.
    destruct (strcmp_eq who (field j)) as [b|] eqn:Eb; [|done]. cbn [mbind option_bind] in Hc.
    destruct (count_loop field who js') as [n'|] eqn:En; [|done]. injection Hc as <-.
    rewrite Hf, <- (IH js' n') by done. unfold strcmp_eq, str_eq in Eb.
    destruct who as [a|], (field j) as [b'|]; try done. injection Eb as <-.
    rewrite (bool_decide_ext (Some b' = Some a) (a = b')) by (split; congruence). destruct (bool_decide _); lia.
Qed.

#[export] Instance nrun_perm cs P : Proper ((≡ₚ) ==> (=)) (nrun cs P).
Proof.
  intros ps ps' Hp. induction Hp as [|p ps ps' Hp IH|p p' ps|ps1 ps2 ps3 _ IH1 _ IH2]; [done|..].
  - by rewrite !nrun_cons, IH.
  - rewrite !nrun_cons. lia.
  - by rewrite IH1.
Qed.

#[export] Instance running_in_perm cs : Proper ((≡ₚ) ==> (≡ₚ)) (running_in cs).
Proof.
  intros ps ps' Hp. unfold running_in. induction Hp as [|p ps ps' Hp IH|p p' ps|ps1 ps2 ps3 _ IH1 _ IH2]; simpl; [done|..].
  - destruct (default _ _); by rewrite ?IH.
  - destruct (default false (c_running <$> cs !! p)), (default false (c_running <$> cs !! p')); [constructor|done..].
  - by rewrite IH1.
Qed.

(** Counting does not depend on the order of the jobs. *)
Lemma count_jobs_perm (field : job_info -> cptr) who heap ps ps' :
  ps ≡ₚ ps' -> (js ← deref heap ps; count_loop field who js) = (js ← deref heap ps'; count_loop field who js).
Proof.
  assert (Hcons : forall p ps, (js ← deref heap (p :: ps); count_loop field who js)
    = (j ← heap !! p; b ← strcmp_eq who (field j); k ← (js ← deref heap ps; count_loop field who js); Some (Z.b2z b + k))).
  { intros p l. unfold deref. simpl. destruct (heap !! p) as [j|]; simpl; [|done].
    destruct (mapM _ l) as [js|]; simpl; [|by destruct (strcmp_eq _ _)].
    destruct (strcmp_eq who (field j)) as [b|]; simpl; [|done]. destruct (count_loop field who js) as [k|]; simpl; [|done].
    destruct b; f_equal; simpl; lia. }
  induction 1 as [|p ps ps' Hp IH|p p' ps|ps1 ps2 ps3 _ IH1 _ IH2]; [done|..].
  - by rewrite !Hcons, IH.
  - rewrite !Hcons. destruct (deref heap ps) as [js|]; simpl;
      destruct (heap !! p) as [j|], (heap !! p') as [j'|]; simpl; try done;
      try destruct (strcmp_eq who (field j)) as [b|]; try destruct (strcmp_eq who (field j')) as [b'|]; simpl; try done.
    destruct (count_loop field who js) as [k|]; simpl; [|done]. f_equal. lia.
  - by rewrite IH1.
Qed.

(** One more job runs. *)
Definition start (p : ptr) (cs : list core) : list core :=
  alter (fun c => mk_core true (c_account c) (c_group c) (c_queue c)) p cs.

Lemma start_other p p' cs : p' <> p -> start p cs !! p' = cs !! p'.
Proof. intros. unfold start. by rewrite list_lookup_alter_ne. Qed.
Lemma start_self p cs c :
  cs !! p = Some c -> start p cs !! p = Some (mk_core true (c_account c) (c_group c) (c_queue c)).
Proof. intros E. unfold start. by rewrite list_lookup_alter_eq, E. Qed.

Lemma running_in_start_not p cs ps : p ∉ ps -> running_in (start p cs) ps = running_in cs ps.
Proof.
  intros Hp. unfold running_in. apply List.filter_ext_in. intros p' Hp'%list_elem_of_In.
  rewrite start_other; [done|]. by intros ->.
Qed.
Lemma nrun_start_not P p cs ps : p ∉ ps -> nrun (start p cs) P ps = nrun cs P ps.
Proof.
  intros Hp. unfold nrun. f_equal. apply List.filter_ext_in. intros p' Hp'%list_elem_of_In.
  rewrite start_other; [done|]. by intros ->.
Qed.

Lemma nrun_start P p cs ps c :
  NoDup ps -> cs !! p = Some c -> (forall c', P (mk_core true (c_account c') (c_group c') (c_queue c')) = P c') ->
  nrun (start p cs) P ps <= nrun cs P ps + (if P c then 1 else 0).
Proof.
  intros Hnd Hc HP. induction Hnd as [|p' ps Hp' Hnd IH]; [unfold nrun; simpl; rewrite !zlen_nil; destruct (P c); lia|].
  rewrite !nrun_cons. destruct (decide (p' = p)) as [->|Hne].
  - rewrite (start_self _ _ _ Hc), Hc, (nrun_start_not P p) by done. simpl. rewrite HP.
    destruct (P c), (c_running c); simpl; lia.
  - rewrite start_other by done. lia.
Qed.

Lemma filter_running heap ps js :
  mapM (fun p => j ← heap !! p; Some (p, j)) ps = Some js ->
  (List.filter (fun pj => check_run_job (snd pj)) js).*1 = running_in (core_of <$> heap) ps.
Proof.
  revert js. induction ps as [|p ps IH]; intros js E; simpl in E; [by injection E as <-|].
  destruct (heap !! p) as [j|] eqn:Ej; [|done]. cbn [mbind option_bind] in E.
  destruct (mapM _ ps) as [js'|] eqn:Ed; [|done]. injection E as <-. unfold running_in in *. simpl.
  rewrite list_lookup_fmap, Ej. simpl. change (check_run_job j) with (is_running j).
  destruct (is_running j); simpl; [f_equal|]; apply (IH _ eq_refl).
Qed.

(** The array of the running jobs, when the count of the array is right. *)
Lemma job_filter_running heap arr size r :
  job_filter heap arr size check_run_job = Some r -> size = zlen (default [] arr) -> size <= INT_MAX ->
  r = Some (running_in (core_of <$> heap) (default [] arr)).
Proof using Hall.
  intros E -> Hs. unfold job_filter in E. pose proof (zlen_nonneg (default [] arr)).
  unfold SIZEOF_POINTER, INT_MAX in *. rewrite alloc_ok in E by (unfold ALLOC_MAX; lia). cbn [negb] in E.
  destruct (_ <? _); [done|]. rewrite take_ge in E by (unfold zlen; lia).
  destruct (mapM _ _) as [js|] eqn:Em; [|done]. cbn [mbind option_bind] in E.
  pose proof (filter_running _ _ _ Em) as Ef. rewrite Ef in E.
  assert (zlen (running_in (core_of <$> heap) (default [] arr)) <= zlen (default [] arr)).
  { unfold running_in, zlen. pose proof (List.filter_length_le (fun p => default false (c_running <$> (core_of <$> heap) !! p)) (default [] arr)). lia. }
  pose proof (zlen_nonneg (running_in (core_of <$> heap) (default [] arr))).
  rewrite alloc_ok in E by (unfold ALLOC_MAX; lia). cbn [negb] in E. by injection E as <-.
Qed.

End Run.
