(* ===== verification/SchedLimits.v ===== *)
(** * The FIFO scheduler: limits

    What [is_ok_to_run_job] has checked when it lets a job run, what running it changes, and
    from both that considering a job passes no limit on running jobs. *)

From Stdlib Require Import ZArith Lia String Ascii SpecFloat.
From stdpp Require Import base list numbers option.
From S2P Require Import Prelude CLib Attrs SchedData Sched SchedRun.
From stdpp Require Import list_relations.

Local Open Scope Z_scope.
Set Default Proof Using "Type".

Definition by_account (u : cptr) (c : core) : bool := bool_decide (c_account c = u).
Definition by_group (g : cptr) (c : core) : bool := bool_decide (c_group c = g).

(** ** The requests of the jobs *)

Definition reqs_of (w : sched) : list (list resource_req) := resreq <$> w_jobs w.
Definition same_reqs (w w' : sched) : Prop := reqs_of w' = reqs_of w.

#[export] Instance same_reqs_preorder : PreOrder same_reqs.
Proof. split; [by intros w|]. intros w1 w2 w3 E1 E2. unfold same_reqs in *. congruence. Qed.

Lemma same_reqs_upd_job p f : (forall j, resreq (f j) = resreq j) -> keeps same_reqs (upd_job p f).
Proof.
  intros Hf. apply keeps_upd_job. intros w j Hj. unfold same_reqs, reqs_of. simpl.
  rewrite list_fmap_insert, Hf. apply list_insert_id. by rewrite list_lookup_fmap, Hj.
Qed.
Lemma same_reqs_modify f : (forall w, w_jobs (f w) = w_jobs w) -> keeps same_reqs (st_modify f).
Proof. intros Hf. apply keeps_modify. intros w. unfold same_reqs, reqs_of. by rewrite Hf. Qed.

Lemma same_reqs_job w w' p j : same_reqs w w' -> w_jobs w' !! p = Some j -> exists j0, w_jobs w !! p = Some j0 /\ resreq j0 = resreq j.
Proof.
  intros E Hj. assert (reqs_of w' !! p = Some (resreq j)) as Hr by (unfold reqs_of; by rewrite list_lookup_fmap, Hj).
  rewrite E in Hr. unfold reqs_of in Hr. rewrite list_lookup_fmap in Hr. destruct (w_jobs w !! p) as [j0|]; [|done].
  injection Hr as Hr. eauto.
Qed.

#[export] Hint Extern 1 (keeps same_reqs (upd_job _ _)) => (by apply same_reqs_upd_job; intros []) : sched.
#[export] Hint Extern 1 (keeps same_reqs (st_modify _)) => (by apply same_reqs_modify) : sched.

Section Limits.
Context `{Platform} {Hall : AllocOk} (conf : config) (cstat : status).
Context (atof : list Z -> float) (timebuf : list Z)
  (qsort : forall A, (A -> A -> Z) -> list (ptr * A) -> list (ptr * A))
  (runjob_answer : list event -> Z) (rescquery_answer : list event -> Z * Z)
  (geterrmsg : list event -> list Z).

Hint Resolve quiet_comment quiet_neednodes quiet_mark quiet_cant_run quiet_runjob quiet_rescquery quiet_check_nodes
  quiet_best_node quiet_node_name quiet_raise_load quiet_usage quiet_job_cant_run : sched.

Lemma same_reqs_comment p c : keeps same_reqs (update_job_comment p c).
Proof. unfold update_job_comment, tell. keeps_tac. Qed.
Lemma same_reqs_runjob p n : keeps same_reqs (pbs_runjob runjob_answer p n).
Proof. unfold pbs_runjob, tell. keeps_tac. Qed.
Lemma same_reqs_check_nodes p : keeps same_reqs (check_nodes cstat rescquery_answer p).
Proof. unfold check_nodes, pbs_rescquery, tell. keeps_tac. Qed.
Lemma same_reqs_best_node reqs arr : keeps same_reqs (find_best_node cstat reqs arr).
Proof. unfold find_best_node. keeps_tac. Qed.
Lemma same_reqs_node_name b : keeps same_reqs (node_name b).
Proof. unfold node_name. keeps_tac. Qed.
Lemma same_reqs_raise_load b reqs : keeps same_reqs (raise_load cstat b reqs).
Proof. unfold raise_load. keeps_tac. Qed.
Hint Resolve same_reqs_comment same_reqs_runjob same_reqs_check_nodes same_reqs_best_node same_reqs_node_name
  same_reqs_raise_load : sched.

Lemma quiet_is_ok q p : keeps quiet (is_ok_to_run_job conf cstat atof rescquery_answer q p).
Proof. unfold is_ok_to_run_job, and_then, and_ok. keeps_tac. Qed.

(** ** What the checks have found *)

Record under_limits (w : sched) (j : job_info) (x : queue_info) : Prop := {
  ul_server : max_run (sinfo w) = INFINITY_VAL \/ sc_running (sc (sinfo w)) < max_run (sinfo w);
  ul_user : max_user_run (sinfo w) = INFINITY_VAL
    \/ nrun (cores w) (by_account (account j)) (jobs (sinfo w)) < max_user_run (sinfo w);
  ul_group : max_group_run (sinfo w) = INFINITY_VAL
    \/ nrun (cores w) (by_group (group j)) (jobs (sinfo w)) < max_group_run (sinfo w);
  ul_queue : q_max_run x = INFINITY_VAL \/ sc_running (q_sc x) < q_max_run x;
  ul_quser : q_max_user_run x = INFINITY_VAL
    \/ nrun (cores w) (by_account (account j)) (default [] (q_jobs x)) < q_max_user_run x;
  ul_qgroup : q_max_group_run x = INFINITY_VAL
    \/ nrun (cores w) (by_group (group j)) (default [] (q_jobs x)) < q_max_group_run x;
  ul_qres : check_avail_resources (qres x) j = SUCCESS;
  ul_res : check_avail_resources (res (sinfo w)) j = SUCCESS
}.

Lemma and_then_ok m k w w' :
  (forall rc w1, m w = Ret rc w1 -> rc <> SUCCESS) -> and_then m k w = Ret SUCCESS w' ->
  exists w1, m w = Ret 0 w1 /\ k w1 = Ret SUCCESS w'.
Proof.
  intros Hm (rc & w1 & H1 & H2)%bind_ret_inv. pose proof (Hm _ _ H1).
  destruct (Z.eqb_spec rc 0) as [->|]; cbn [negb] in H2; [eauto|]. apply ret_inv in H2 as [? _]. congruence.
Qed.
Lemma and_ok_ok m k w w' :
  and_ok m k w = Ret SUCCESS w' -> exists w1, m w = Ret SUCCESS w1 /\ k w1 = Ret SUCCESS w'.
Proof.
  intros (rc & w1 & H1 & H2)%bind_ret_inv.
  destruct (Z.eqb_spec rc SUCCESS) as [->|]; cbn [negb] in H2; [eauto|]. apply ret_inv in H2 as [? _]. congruence.
Qed.

Lemma under_limit_codes m n code r : under_limit m n code = Some r -> code <> SUCCESS -> r <> SUCCESS.
Proof.
  unfold under_limit. intros E Hc. destruct (_ =? _); [by injection E as <-|].
  destruct n; [|done]. cbn [mbind option_bind] in E. injection E as <-. by destruct (_ <? _).
Qed.
Lemma under_limit_0 m n code : under_limit m n code = Some 0 -> code <> 0 -> m = INFINITY_VAL \/ exists k, n = Some k /\ k < m.
Proof.
  unfold under_limit. intros E Hc. destruct (Z.eqb_spec m INFINITY_VAL); [by left|right].
  destruct n as [k|]; [|done]. cbn [mbind option_bind] in E. exists k. split; [done|].
  destruct (Z.ltb_spec k m); [done|]. congruence.
Qed.

(** A count by user or by group, in an array of running jobs, is a number of running jobs. *)
Lemma count_by_user_nrun w ps r u n :
  r ≡ₚ running_in (cores w) ps -> count_by_user (w_jobs w) (Some r) u = Some n -> n = nrun (cores w) (by_account u) ps.
Proof.
  intros Hr. unfold count_by_user. rewrite (count_jobs_perm _ _ _ _ _ Hr). intros E. destruct (deref _ _) as [js|] eqn:Ed; [|done].
  by apply (count_loop_nrun account c_account u (w_jobs w) ps js n).
Qed.
Lemma count_by_group_nrun w ps r u n :
  r ≡ₚ running_in (cores w) ps -> count_by_group (w_jobs w) (Some r) u = Some n -> n = nrun (cores w) (by_group u) ps.
Proof.
  intros Hr. unfold count_by_group. rewrite (count_jobs_perm _ _ _ _ _ Hr). intros E. destruct (deref _ _) as [js|] eqn:Ed; [|done].
  by apply (count_loop_nrun group c_group u (w_jobs w) ps js n).
Qed.

Lemma check_nodes_codes p w r w' : check_nodes cstat rescquery_answer p w = Ret r w' -> r <> SUCCESS.
Proof.
  unfold check_nodes. intros E. inv_step E. destruct (find_resource_req _ _) as [q|].
  - inv_step E. destruct (negb _); [by inv_step E; subst|]. inv_step E. destruct a1 as [rc av].
    destruct (negb _); [by inv_step E; subst|]. inv_step E. inv_step E. by destruct (0 <? av).
  - inv_step E. inv_step E. unfold check_node_availability in E.
    destruct (_ || _); [|by injection E as <-]. destruct (timesharing_nodes _) as [ps|]; [|by injection E as <-].
    destruct (mapM _ _) as [ns|]; [|done]. cbn [mbind option_bind] in E. induction ns as [|n ns IH]; simpl in E; [by injection E as <-|].
    destruct (fits _ _ _ _) as [b|]; [|done]. cbn [mbind option_bind] in E.
    destruct (b && _); [by injection E as <-|auto].
Qed.

Lemma is_ok_spec q p w w' :
  sched_wf w -> is_ok_to_run_job conf cstat atof rescquery_answer q p w = Ret SUCCESS w' ->
  quiet w w' /\ same_reqs w w' /\ exists j x, w_jobs w !! p = Some j /\ w_queues w !! q = Some x /\ under_limits w j x.
Proof.
  intros Hw E. unfold is_ok_to_run_job in E. inv_step E. inv_step E.
  apply and_then_ok in E as (w1 & [E1 ->]%pure_check_inv & E);
    [|intros rc w1 [[= <-] _]%pure_check_inv; unfold check_server_max_run; by repeat case_match].
  apply and_then_ok in E as (w1 & [E2 ->]%pure_check_inv & E);
    [|intros rc w1 [Hr _]%pure_check_inv; by apply under_limit_codes in Hr].
  apply and_then_ok in E as (w1 & [E3 ->]%pure_check_inv & E);
    [|intros rc w1 [Hr _]%pure_check_inv; by apply under_limit_codes in Hr].
  apply and_then_ok in E as (w1 & [E4 ->]%ret_inv & E);
    [|intros rc w1 [-> _]%ret_inv; unfold check_queue_max_run; by repeat case_match].
  apply and_then_ok in E as (w1 & [E5 ->]%pure_check_inv & E);
    [|intros rc w1 [Hr _]%pure_check_inv; by apply under_limit_codes in Hr].
  apply and_then_ok in E as (w1 & [E6 ->]%pure_check_inv & E);
    [|intros rc w1 [Hr _]%pure_check_inv; by apply under_limit_codes in Hr].
  apply and_then_ok in E as (w1 & [_ ->]%ret_inv & E);
    [|intros rc w1 [-> _]%ret_inv; unfold check_ded_time_boundry;
      by repeat case_match].
  apply and_then_ok in E as (w1 & [_ ->]%pure_check_inv & E);
    [|intros rc w1 [[= <-] _]%pure_check_inv; unfold check_starvation; destruct (starving_job w); [by destruct (decide _)|done]].
  apply and_then_ok in E as (w1 & E7 & E); [|intros rc w1 Hr; by apply check_nodes_codes in Hr].
  apply and_ok_ok in E as (w2 & [E8 ->]%ret_inv & E).
  apply and_ok_ok in E as (w2 & [E9 ->]%pure_check_inv & E).
  apply and_ok_ok in E as (w2 & [_ ->]%pure_check_inv & E). apply ret_inv in E as [_ ->].
  pose proof (quiet_check_nodes _ _ _ _ _ _ E7) as Hq.
  split; [done|]. split; [by apply (same_reqs_check_nodes p w 0)|].
  exists a, a0. split; [done|]. split; [done|]. destruct (wf_queue _ Hw _ _ H1) as [_ _ (rq & Hqr & Hpq) _ _], (wf_running _ Hw) as (rs & Hsr & Hps).
  unfold check_server_max_user_run, check_server_max_group_run, check_queue_max_user_run, check_queue_max_group_run in *.
  rewrite Hsr in E2, E3. rewrite Hqr in E5, E6.
  split.
  - injection E1 as E1. unfold check_server_max_run in E1. destruct (Z.eqb_spec (max_run (sinfo w)) INFINITY_VAL); [by left|].
    destruct (Z.ltb_spec (sc_running (sc (sinfo w))) (max_run (sinfo w))); [by right|done].
  - apply under_limit_0 in E2 as [?|(k & Hk & ?)]; [by left|right; by rewrite <- (count_by_user_nrun _ _ _ _ _ Hps Hk)|done].
  - apply under_limit_0 in E3 as [?|(k & Hk & ?)]; [by left|right; by rewrite <- (count_by_group_nrun _ _ _ _ _ Hps Hk)|done].
  - symmetry in E4. unfold check_queue_max_run in E4. destruct (Z.eqb_spec (q_max_run a0) INFINITY_VAL); [by left|].
    destruct (Z.ltb_spec (sc_running (q_sc a0)) (q_max_run a0)); [by right|done].
  - apply under_limit_0 in E5 as [?|(k & Hk & ?)]; [by left|right; by rewrite <- (count_by_user_nrun _ _ _ _ _ Hpq Hk)|done].
  - apply under_limit_0 in E6 as [?|(k & Hk & ?)]; [by left|right; by rewrite <- (count_by_group_nrun _ _ _ _ _ Hpq Hk)|done].
  - done.
  - injection E9 as E9. by rewrite (quiet_sinfo _ _ Hq) in E9.
Qed.

(** ** What running a job changes *)

Definition server_after (s : server_info) (reqs : list resource_req) (r : list ptr) : server_info :=
  set_running_jobs (Some r) (set_res (assign_all (res s) reqs) (set_sc (one_more_running (sc s)) s)).
Definition queue_after (x : queue_info) (reqs : list resource_req) (r : list ptr) : queue_info :=
  set_q_running_jobs (Some r) (set_qres (assign_all (qres x) reqs) (set_q_sc (one_more_running (q_sc x)) x)).

Record ran (q p : ptr) (reqs : list resource_req) (w w' : sched) : Prop := {
  ran_cores : cores w' = start p (cores w);
  ran_sinfo : sinfo w' = server_after (sinfo w) reqs (running_in (cores w') (jobs (sinfo w)));
  ran_queues : exists x, w_queues w !! q = Some x
    /\ w_queues w' = <[q := queue_after x reqs (running_in (cores w') (default [] (q_jobs x)))]> (w_queues w);
  ran_queue : last_queue w' = last_queue w;
  ran_job : last_job w' = last_job w;
  ran_cjobs : cjobs w' = cjobs w;
  ran_starving : starving_job w' = starving_job w
}.

Lemma ran_quiet q p reqs w w1 w2 w3 : quiet w w1 -> ran q p reqs w1 w2 -> quiet w2 w3 -> ran q p reqs w w3.
Proof.
  intros [C1 Q1 S1 A1 B1 D1 F1] [C2 S2 (x & Hx & Q2) A2 B2 D2 F2] [C3 Q3 S3 A3 B3 D3 F3].
  split; try congruence. exists x. rewrite Q3, Q2, C3, Q1 in *. done.
Qed.

Lemma cores_start w p f :
  (forall j, core_of (f j) = mk_core true (account j) (group j) (j_queue j)) -> forall j,
  w_jobs w !! p = Some j -> core_of <$> <[p := f j]> (w_jobs w) = start p (cores w).
Proof.
  intros Hf j Hj. unfold start, cores. rewrite list_fmap_insert, Hf. symmetry. apply list_eq. intros i.
  destruct (decide (i = p)) as [->|Hne].
  - rewrite list_lookup_alter_eq, list_lookup_fmap, Hj, list_lookup_insert_eq; [done|].
    rewrite length_fmap. by apply lookup_lt_Some in Hj.
  - by rewrite list_lookup_alter_ne, list_lookup_insert_ne.
Qed.

Lemma queue_size w q x : sched_wf w -> w_queues w !! q = Some x -> zlen (default [] (q_jobs x)) <= INT_MAX.
Proof.
  intros Hw Hx. destruct (wf_queue _ Hw _ _ Hx) as [Hnd _ _ _ Hj]. etransitivity; [|apply (wf_size _ Hw)].
  unfold zlen. apply inj_le, submseteq_length, NoDup_submseteq; [done|]. intros p Hp. by apply Hj.
Qed.

(** The bookkeeping once the server has taken the job. *)
Lemma job_was_run_spec q p best w w' :
  sched_wf w -> job_was_run cstat q p best w = Ret tt w' ->
  exists j, w_jobs w !! p = Some j /\ ran q p (resreq j) w w'.
Proof using Hall.
  intros Hw E. unfold job_was_run in E. repeat inv_step E. exists a. split; [done|].
  assert (quiet w w1 /\ same_reqs w w1) as [[Ec Eq Es El Ej Ecj Est] Hr].
  { split; (etransitivity; [by (eapply quiet_raise_load || eapply same_reqs_raise_load)|]).
    - destruct (_ && _); [by eapply (quiet_upd_job p (set_sch_priority 0)); [intros []|]|by inv_step H2].
    - destruct (_ && _); [by eapply (same_reqs_upd_job p (set_sch_priority 0)); [intros []|]|by inv_step H2]. }
  assert (quiet w4 w5) as Hq5
    by (destruct (fair_share cstat); [by eapply quiet_usage|by inv_step H6]).
  unfold update_server_on_run in H3. inv_step H3. rename a0 into j1. inv_step H3.
  unfold update_queue_on_run in H4. inv_step H4. inv_step H4. rename a0 into j2.
  simpl in H3, H4. rewrite H7 in H3. injection H3 as <-.
  unfold update_job_on_run in H5. inv_step H5. simpl in H5. rewrite H7 in H5. injection H5 as <-.
  destruct (same_reqs_job _ _ _ _ Hr H7) as (j0 & Hj0 & Er). rewrite H0 in Hj0. injection Hj0 as <-.
  set (w4 := set_w_jobs _ _) in *.
  assert (cores w4 = start p (cores w)) as Ec4.
  { rewrite <- Ec. unfold w4, cores at 1. simpl. rewrite (cores_start w1 p (fun j => set_is_running true (set_is_queued false j))); [done|by intros []|done]. }
  destruct Hq5 as [Ec5 Eq5 Es5 El5 Ej5 Ecj5 Est5]. rewrite Ec4 in Ec5. rewrite Eq in H4.
  unfold refresh_running in E. repeat inv_step E. rename a0 into r1, a1 into y, a2 into r2, H8 into H9.
  simpl in E, H5. simpl in Eq5, Es5. rewrite Eq in Eq5. rewrite Es in Es5.
  assert (y = set_qres (assign_all (qres x) (resreq j1)) (set_q_sc (one_more_running (q_sc x)) x)) as ->.
  { rewrite Eq5, list_lookup_insert_eq in H5 by (by apply lookup_lt_Some in H4). congruence. }
  apply job_filter_running in H3; [|rewrite Es5; apply (wf_total _ Hw)|rewrite Es5; simpl; rewrite (wf_total _ Hw); apply (wf_size _ Hw)].
  destruct (wf_queue _ Hw _ _ H4) as [_ Ht _ _ _].
  apply job_filter_running in H9; [|apply Ht|simpl; rewrite Ht; by apply (queue_size w q)].
  change (core_of <$> w_jobs w5) with (cores w5) in *. simpl in H9. rewrite Ec5 in H3, H9.
  rewrite Es5 in H3. simpl in H3. subst r1 r2. rewrite Er.
  rewrite E in H5. injection H5 as ->.
  match goal with |- ran _ _ _ _ ?w' => assert (cores w' = start p (cores w)) as Ew by exact Ec5 end.
  split; rewrite ?Ew; simpl;
    [done| | |exact (eq_trans El5 El)|exact (eq_trans Ej5 Ej)|exact (eq_trans Ecj5 Ecj)|exact (eq_trans Est5 Est)].
  - by rewrite Es5.
  - exists x. split; [done|]. by rewrite Eq5, list_insert_insert_eq.
Qed.

Lemma run_update_job_spec q p w r w' :
  sched_wf w ->
  run_update_job cstat timebuf runjob_answer geterrmsg q p w = Ret r w' ->
  quiet w w' \/ exists j, w_jobs w !! p = Some j /\ ran q p (resreq j) w w'.
Proof using Hall.
  intros Hw E. unfold run_update_job in E. inv_step E. inv_step E. rename a into j.
  apply bind_ret_inv in E as (best & w1 & E1 & E). apply bind_ret_inv in E as (name & w2 & E2 & E).
  apply bind_ret_inv in E as (rc & w3 & E3 & E). apply bind_ret_inv in E as (ret & w4 & E4 & E).
  apply bind_ret_inv in E as ([] & w5 & E5 & [_ ->]%ret_inv).
  assert (quiet w w4 /\ same_reqs w w4) as [Hq Hr].
  { split.
    - etransitivity; [|etransitivity; [|etransitivity]]; [|by eapply quiet_node_name|by eapply quiet_comment|by eapply quiet_runjob].
      destruct (_ || _); [by eapply quiet_best_node|by inv_step E1].
    - etransitivity; [|etransitivity; [|etransitivity]]; [|by eapply same_reqs_node_name|by eapply same_reqs_comment|by eapply same_reqs_runjob].
      destruct (_ || _); [by eapply same_reqs_best_node|by inv_step E1]. }
  destruct (ret =? 0).
  - right. apply job_was_run_spec in E5 as (j4 & Hj4 & Hran); [|by eapply wf_quiet].
    destruct (same_reqs_job _ _ _ _ Hr Hj4) as (j0 & Hj0 & Er). exists j0. split; [done|]. rewrite Er.
    eapply ran_quiet; [done|done|reflexivity].
  - left. etransitivity; [done|]. repeat inv_step E5. by eapply quiet_comment.
Qed.

(** ** Staying within the limits *)

(** A limit that is set is not exceeded, or no more than at the start. *)
Definition bounded (max n n0 : Z) : Prop := max = INFINITY_VAL \/ n <= Z.max max n0.

Lemma bounded_refl m n : bounded m n n.
Proof. right. lia. Qed.
Lemma bounded_le m n n' n0 : n' <= n -> bounded m n n0 -> bounded m n' n0.
Proof. intros ? [?|?]; [by left|right; lia]. Qed.
Lemma bounded_step m n n' n0 : m = INFINITY_VAL \/ n < m -> n' <= n + 1 -> bounded m n' n0.
Proof. intros [?|?] ?; [by left|right; lia]. Qed.

Record queue_within (w0 w : sched) (x0 x : queue_info) : Prop := {
  qi_jobs : default [] (q_jobs x) ≡ₚ default [] (q_jobs x0);
  qi_run : q_max_run x = q_max_run x0 /\ bounded (q_max_run x0) (sc_running (q_sc x)) (sc_running (q_sc x0));
  qi_user : q_max_user_run x = q_max_user_run x0 /\ forall u, bounded (q_max_user_run x0)
    (nrun (cores w) (by_account u) (default [] (q_jobs x0))) (nrun (cores w0) (by_account u) (default [] (q_jobs x0)));
  qi_group : q_max_group_run x = q_max_group_run x0 /\ forall g, bounded (q_max_group_run x0)
    (nrun (cores w) (by_group g) (default [] (q_jobs x0))) (nrun (cores w0) (by_group g) (default [] (q_jobs x0)))
}.

(** From [w0] to [w] no limit of the server or of a queue, for all jobs, for those of a user
    or of a group, was passed. *)
Record within (w0 w : sched) : Prop := {
  wi_jobs : jobs (sinfo w) ≡ₚ jobs (sinfo w0);
  wi_run : max_run (sinfo w) = max_run (sinfo w0)
    /\ bounded (max_run (sinfo w0)) (sc_running (sc (sinfo w))) (sc_running (sc (sinfo w0)));
  wi_user : max_user_run (sinfo w) = max_user_run (sinfo w0) /\ forall u, bounded (max_user_run (sinfo w0))
    (nrun (cores w) (by_account u) (jobs (sinfo w0))) (nrun (cores w0) (by_account u) (jobs (sinfo w0)));
  wi_group : max_group_run (sinfo w) = max_group_run (sinfo w0) /\ forall g, bounded (max_group_run (sinfo w0))
    (nrun (cores w) (by_group g) (jobs (sinfo w0))) (nrun (cores w0) (by_group g) (jobs (sinfo w0)));
  wi_queue : forall q x0, w_queues w0 !! q = Some x0 -> exists x, w_queues w !! q = Some x /\ queue_within w0 w x0 x
}.

Lemma within_refl w : within w w.
Proof.
  split; [done|split; [done|apply bounded_refl]|split; [done|intros; apply bounded_refl]..|].
  intros q x Hx. exists x. split; [done|].
  split; [done|split; [done|apply bounded_refl]|split; [done|intros; apply bounded_refl]..].
Qed.

Lemma bounded_trans m n1 n2 n0 : bounded m n1 n0 -> bounded m n2 n1 -> bounded m n2 n0.
Proof. intros [?|?] [?|?]; [by left..|right; lia]. Qed.

Lemma within_trans w0 w1 w2 : within w0 w1 -> within w1 w2 -> within w0 w2.
Proof.
  intros [J1 [A1 B1] [C1 D1] [E1 F1] Q1] [J2 [A2 B2] [C2 D2] [E2 F2] Q2].
  setoid_rewrite J1 in D2. setoid_rewrite J1 in F2. rewrite A1 in B2. setoid_rewrite C1 in D2. setoid_rewrite E1 in F2.
  split; [by rewrite J2|split; [congruence|by eapply bounded_trans]
    |split; [congruence|intros; by eapply bounded_trans]..|].
  intros q x0 Hx0. destruct (Q1 q x0 Hx0) as (x1 & Hx1 & [J3 [A3 B3] [C3 D3] [E3 F3]]).
  destruct (Q2 q x1 Hx1) as (x2 & Hx2 & [J4 [A4 B4] [C4 D4] [E4 F4]]). exists x2. split; [done|].
  setoid_rewrite J3 in D4. setoid_rewrite J3 in F4. rewrite A3 in B4. setoid_rewrite C3 in D4. setoid_rewrite E3 in F4.
  split; [by rewrite J4|split; [congruence|by eapply bounded_trans]
    |split; [congruence|intros; by eapply bounded_trans]..].
Qed.

(** Only the reduced state matters. *)
Lemma within_same w0 w w' :
  cores w' = cores w -> w_queues w' = w_queues w -> sinfo w' = sinfo w -> within w0 w -> within w0 w'.
Proof.
  intros Ec Eq Es []. split; rewrite ?Es, ?Ec; try done. intros q x0 Hx.
  destruct (wi_queue0 q x0 Hx) as (x & Hx' & []). exists x. rewrite Eq. split; [done|]. by split; rewrite ?Ec.
Qed.

Lemma start_queue p cs p' : c_queue <$> start p cs !! p' = c_queue <$> cs !! p'.
Proof.
  destruct (decide (p' = p)) as [->|?]; [|by rewrite start_other].
  unfold start. rewrite list_lookup_alter_eq. by destruct (cs !! p).
Qed.

Lemma nrun_started P p cs ps c m n0 :
  NoDup ps -> cs !! p = Some c -> (forall c', P (mk_core true (c_account c') (c_group c') (c_queue c')) = P c') ->
  (P c = true -> m = INFINITY_VAL \/ nrun cs P ps < m) -> bounded m (nrun cs P ps) n0 ->
  bounded m (nrun (start p cs) P ps) n0.
Proof.
  intros Hnd Hc HP Hlt Hb. pose proof (nrun_start P p cs ps c Hnd Hc HP) as Hn. destruct (P c).
  - by eapply bounded_step; [apply Hlt|].
  - eapply bounded_le; [|done]. lia.
Qed.

(** The structures agree again after a job was run. *)
Lemma wf_ran q p c reqs w w' :
  sched_wf w -> cores w !! p = Some c -> c_queue c = q -> ran q p reqs w w' -> sched_wf w'.
Proof.
  intros [Hnd Ht Hsz Hr Hcn Hj Hq] Hc <- [Ec Es (x & Hx & Eq) _ _ Ecj _].
  assert (jobs (sinfo w') = jobs (sinfo w)) as Ejobs by by rewrite Es.
  split; rewrite ?Ejobs; try done; rewrite ?Es; simpl; try done.
  - by eexists.
  - rewrite Ec. pose proof (nrun_start (fun _ => true) p (cores w) _ c Hnd Hc (fun _ => eq_refl)). simpl in *. lia.
  - intros p' Hp'. destruct (Hj p' Hp') as (c' & x' & Hc' & Hx' & Hin).
    pose proof (start_queue p (cores w) p') as Hsq. rewrite <- Ec, Hc' in Hsq.
    destruct (cores w' !! p') as [c2|] eqn:Ec2; [|done]. injection Hsq as Hsq. exists c2. rewrite Hsq, Eq.
    destruct (decide (c_queue c' = c_queue c)) as [E|Hne].
    + rewrite E in *. rewrite Hx in Hx'. injection Hx' as <-. eexists. split; [done|].
      rewrite list_lookup_insert_eq by (by apply lookup_lt_Some in Hx). done.
    + exists x'. by rewrite list_lookup_insert_ne.
  - intros q' y Hy. rewrite Eq in Hy. destruct (decide (q' = c_queue c)) as [->|Hne].
    + rewrite list_lookup_insert_eq in Hy by (by apply lookup_lt_Some in Hx). injection Hy as <-.
      destruct (Hq _ _ Hx) as [Q1 Q2 Q3 Q4 Q5]. split; simpl; try done.
      * by eexists.
      * rewrite Ec. pose proof (nrun_start (fun _ => true) p (cores w) _ c Q1 Hc (fun _ => eq_refl)). simpl in *. lia.
      * intros p' Hp'. rewrite Ejobs, Ec, start_queue. by apply Q5.
    + rewrite list_lookup_insert_ne in Hy by done. destruct (Hq _ _ Hy) as [Q1 Q2 Q3 Q4 Q5].
      assert (p ∉ default [] (q_jobs y)) as Hp.
      { intros [_ Hp]%Q5. rewrite Hc in Hp. injection Hp as Hp. done. }
      split; try done; rewrite ?Ec, ?running_in_start_not, ?nrun_start_not by done; try done.
      intros p' Hp'. rewrite Ejobs, start_queue. by apply Q5.
Qed.

Lemma within_ran q p c reqs j x w0 w w' :
  sched_wf w -> within w0 w -> cores w !! p = Some c -> c_queue c = q -> account j = c_account c -> group j = c_group c ->
  w_queues w !! q = Some x -> under_limits w j x -> ran q p reqs w w' -> within w0 w'.
Proof.
  intros Hw [Ij [Ir1 Ir2] [Iu1 Iu2] [Ig1 Ig2] Iq] Hc Hcq Ea Eg Hx [U1 U2 U3 U4 U5 U6 _ _] [Ec Es (x' & Hx' & Eq) _ _ _ _].
  rewrite Hx in Hx'. injection Hx' as <-. rewrite Ea, Eg, ?Ij, ?Ir1, ?Iu1, ?Ig1 in *.
  pose proof (wf_nodup _ Hw) as Hnd. rewrite Ij in Hnd.
  split; rewrite ?Es; simpl; try done.
  - split; [done|]. eapply bounded_step; [done|lia].
  - split; [done|]. intros u. rewrite Ec. eapply nrun_started; [done|done|done| |done].
    by intros <-%bool_decide_eq_true.
  - split; [done|]. intros g. rewrite Ec. eapply nrun_started; [done|done|done| |done].
    by intros <-%bool_decide_eq_true.
  - intros q' x0 Hx0. destruct (Iq q' x0 Hx0) as (y & Hy & [J1 [J2 J3] [J4 J5] [J6 J7]]). rewrite Eq.
    destruct (wf_queue _ Hw _ _ Hy) as [Hndq _ _ _ _]. rewrite J1 in Hndq.
    destruct (decide (q' = q)) as [->|Hne].
    + rewrite Hx in Hy. injection Hy as <-. eexists.
      split; [by rewrite list_lookup_insert_eq by (by apply lookup_lt_Some in Hx)|].
      rewrite J1, ?J2, ?J4, ?J6 in *. split; simpl; try done.
      * split; [done|]. eapply bounded_step; [done|lia].
      * split; [done|]. intros u. rewrite Ec. eapply nrun_started; [done|done|done| |done]. by intros <-%bool_decide_eq_true.
      * split; [done|]. intros u. rewrite Ec. eapply nrun_started; [done|done|done| |done]. by intros <-%bool_decide_eq_true.
    + exists y. rewrite list_lookup_insert_ne by done. split; [done|].
      assert (p ∉ default [] (q_jobs x0)) as Hp.
      { rewrite <- J1. intros [_ Hp]%(qw_jobs _ _ _ _ (wf_queue _ Hw _ _ Hy)). rewrite Hc in Hp. injection Hp as Hp. congruence. }
      split; rewrite ?Ec; [done|done| |]; (split; [done|]; intros u; rewrite nrun_start_not by done; auto).
Qed.

Lemma under_limits_quiet w w' j x : quiet w w' -> under_limits w j x -> under_limits w' j x.
Proof. intros [Ec _ Es _ _ _ _] []. by split; rewrite ?Ec, ?Es. Qed.

(** The request of the job for nodes is completed. *)
Definition keeps_to (w : sched) (p : ptr) (w1 : sched) : Prop :=
  quiet w w1 /\ exists r, update_job_neednodes p w = Ret r w1.

(** A job that is considered is left alone or it passed the checks and was run. *)
Lemma consider_cases w p w' :
  sched_wf w ->
  consider_job conf cstat atof timebuf runjob_answer rescquery_answer geterrmsg p w = Ret tt w' ->
  quiet w w' \/ exists w1 w2 j x, keeps_to w p w1 /\ w_jobs w1 !! p = Some j
    /\ w_queues w1 !! j_queue j = Some x /\ under_limits w1 j x /\ quiet w1 w2 /\ ran (j_queue j) p (resreq j) w2 w'.
Proof using Hall.
  intros Hw E. unfold consider_job in E. apply bind_ret_inv in E as (r0 & w1 & E1 & E).
  pose proof (quiet_neednodes _ _ _ _ E1) as Hq1. assert (Hw1 : sched_wf w1) by by eapply wf_quiet.
  inv_step E. rename a into j. apply bind_ret_inv in E as (ret & w2 & E2 & E).
  destruct (Z.eqb_spec ret SUCCESS) as [->|Hne].
  - apply is_ok_spec in E2 as (Hq2 & Hr2 & j' & x & Hj' & Hx & Hul); [|done]. rewrite H0 in Hj'. injection Hj' as <-.
    apply bind_ret_inv in E as (r & w3 & E3 & [_ ->]%ret_inv).
    apply run_update_job_spec in E3 as [Hq3|(j2 & Hj2 & Hran)]; [| |by eapply wf_quiet].
    + left. by etransitivity; [|etransitivity].
    + right. exists w1, w2, j, x. destruct (same_reqs_job _ _ _ _ Hr2 Hj2) as (j0 & Hj0 & Er). rewrite H0 in Hj0.
      injection Hj0 as <-. rewrite <- Er in Hran. split; [by split; [|exists r0]|]. done.
  - left. etransitivity; [done|]. etransitivity; [by eapply quiet_is_ok|by eapply quiet_job_cant_run].
Qed.

Lemma consider_places w p w' :
  sched_wf w -> places_wf cstat w ->
  consider_job conf cstat atof timebuf runjob_answer rescquery_answer geterrmsg p w = Ret tt w' -> places_wf cstat w'.
Proof using Hall.
  intros Hw Hp E Hrr arr p' Ha Hin. specialize (Hp Hrr arr p').
  apply consider_cases in E as [[_ _ Es _ _ Ec _]|(w1 & w2 & j & x & [Hq1 _] & _ & _ & _ & Hq2 & [_ Es _ _ _ Ec _])]; [| |done].
  - rewrite Es. rewrite Ec in Ha. auto.
  - rewrite Es. simpl. rewrite Ec, (quiet_cjobs _ _ Hq2), (quiet_cjobs _ _ Hq1) in Ha.
    rewrite (quiet_sinfo _ _ Hq2), (quiet_sinfo _ _ Hq1). auto.
Qed.

Lemma consider_keeps w0 w p w' :
  sched_wf w -> within w0 w ->
  consider_job conf cstat atof timebuf runjob_answer rescquery_answer geterrmsg p w = Ret tt w' ->
  sched_wf w' /\ within w0 w'.
Proof using Hall.
  intros Hw Hi E.
  assert (Hgo : forall w1 w2, quiet w1 w2 -> sched_wf w1 /\ within w0 w1 -> sched_wf w2 /\ within w0 w2).
  { intros w1 w2 Hq [Hw1 Hi1]. split; [by eapply wf_quiet|]. destruct Hq. by eapply within_same. }
  apply consider_cases in E as [Hq|(w1 & w2 & j & x & [Hq1 _] & Hj & Hx & Hul & Hq2 & Hran)]; [by apply (Hgo w)| |done].
  assert (sched_wf w2 /\ within w0 w2) as [Hw2 Hi2] by (by apply (Hgo w1), (Hgo w)).
  assert (cores w2 !! p = Some (core_of j)) as Hc
    by (rewrite (quiet_cores _ _ Hq2); unfold cores; by rewrite list_lookup_fmap, Hj).
  split; [by eapply wf_ran|]. eapply (within_ran (j_queue j) p (core_of j)); try done.
  - by rewrite (quiet_queues _ _ Hq2).
  - by eapply under_limits_quiet.
Qed.

End Limits.
