(* ===== verification/SchedInit.v ===== *)
(** * The FIFO scheduler: the start of a cycle

    [init_scheduling_cycle] marks starving jobs and sorts: the arrays are rearranged and
    nothing of what the limits are about changes.  Of [qsort] it is assumed that it returns
    a permutation. *)

From Stdlib Require Import ZArith Lia String Ascii SpecFloat.
From stdpp Require Import base list numbers option.
From S2P Require Import Prelude CLib Attrs SchedData Sched SchedRun SchedLimits.
From stdpp Require Import list_relations.

Local Open Scope Z_scope.
Set Default Proof Using "Type".

Definition queue_rearranged (x x' : queue_info) : Prop :=
  exists arr, default [] arr ≡ₚ default [] (q_jobs x) /\ x' = set_q_jobs arr x.

Record rearranged (w w' : sched) : Prop := {
  ra_cores : cores w' = cores w;
  ra_sinfo : exists js qs, js ≡ₚ jobs (sinfo w) /\ qs ≡ₚ queues (sinfo w) /\ sinfo w' = set_jobs js (set_queues qs (sinfo w));
  ra_queues : Forall2 queue_rearranged (w_queues w) (w_queues w')
}.

Lemma queue_rearranged_refl x : queue_rearranged x x.
Proof. exists (q_jobs x). split; [done|by destruct x]. Qed.

#[export] Instance rearranged_preorder : PreOrder rearranged.
Proof.
  split.
  - intros w. split; [done| |apply Forall2_same_length_lookup; split; [done|]].
    + exists (jobs (sinfo w)), (queues (sinfo w)). repeat split; try done. by destruct (sinfo w).
    + intros i x y Hx Hy. rewrite Hx in Hy. injection Hy as <-. apply queue_rearranged_refl.
  - intros w1 w2 w3 [C1 (j1 & q1 & J1 & Q1 & S1) X1] [C2 (j2 & q2 & J2 & Q2 & S2) X2].
    split; [congruence| |].
    + exists j2, q2. rewrite S1 in *. simpl in *. split; [by rewrite J2|]. split; [by rewrite Q2|done].
    + eapply Forall2_trans; [|exact X1|exact X2]. intros x y z (a1 & A1 & ->) (a2 & A2 & ->). exists a2. simpl in A2.
      split; [by rewrite A2|done].
Qed.

Section Init.
Context `{Platform} (conf : config) (cstat : status).
Context (qsort : forall A, (A -> A -> Z) -> list (ptr * A) -> list (ptr * A)).
Context (Hqsort : forall A cmp l, qsort A cmp l ≡ₚ l).

Lemma pairs_fst {A} (heap : list A) ps pjs : mapM (fun p => j ← heap !! p; Some (p, j)) ps = Some pjs -> pjs.*1 = ps.
Proof.
  revert pjs. induction ps as [|p ps IH]; intros pjs E; simpl in E; [by injection E as <-|].
  destruct (heap !! p); [|done]. cbn [mbind option_bind] in E. destruct (mapM _ ps) as [l|]; [|done]. injection E as <-.
  csimpl. f_equal. by apply IH.
Qed.

Lemma sort_jobs_perm heap cmp arr total arr' : sort_jobs qsort heap cmp arr total = Some arr' -> arr' ≡ₚ arr.
Proof using Hqsort.
  unfold sort_jobs. destruct (_ <? _); [done|]. intros E. destruct (mapM _ _) as [pjs|] eqn:Em; [|done].
  cbn [mbind option_bind] in E. destruct (forallb _ _); [|done]. injection E as <-. apply pairs_fst in Em.
  rewrite Hqsort, Em, take_drop. done.
Qed.

Lemma sort_queue_array_perm w qs : sort_queue_array qsort w = Some qs -> qs ≡ₚ queues (sinfo w).
Proof using Hqsort.
  unfold sort_queue_array. intros E. destruct (mapM _ _) as [l|] eqn:Em; [|done]. injection E as <-. apply pairs_fst in Em.
  by rewrite Hqsort, Em.
Qed.

Lemma rearranged_upd_job p f : (forall j, core_of (f j) = core_of j) -> keeps rearranged (upd_job p f).
Proof.
  intros Hf. apply keeps_upd_job. intros w j Hj. transitivity w; [done|].
  destruct (reflexivity (R := rearranged) w) as [_ H1 H2]. split; [by apply cores_upd|done..].
Qed.

Lemma rearranged_starvation ps : forall jinfo, keeps rearranged (starvation_loop conf cstat ps jinfo).
Proof.
  induction ps as [|p ps IH]; intros jinfo; simpl; keeps_tac. apply rearranged_upd_job. by intros [].
Qed.

Lemma rearranged_starving p : keeps rearranged (st_modify (set_starving_job p)).
Proof. apply keeps_modify. intros w. destruct (reflexivity (R := rearranged) w). by split. Qed.

Lemma rearranged_jobs arr w : arr ≡ₚ jobs (sinfo w) -> rearranged w (set_sinfo (set_jobs arr (sinfo w)) w).
Proof.
  intros Ha. destruct (reflexivity (R := rearranged) w) as [H1 _ H2]. split; try done.
  exists arr, (queues (sinfo w)). split; [done|]. split; [done|]. simpl. by destruct (sinfo w).
Qed.
Lemma rearranged_queues qs w : qs ≡ₚ queues (sinfo w) -> rearranged w (set_sinfo (set_queues qs (sinfo w)) w).
Proof.
  intros Ha. destruct (reflexivity (R := rearranged) w) as [H1 _ H2]. split; try done.
  exists (jobs (sinfo w)), qs. split; [done|]. split; [done|]. simpl. by destruct (sinfo w).
Qed.
Lemma rearranged_queue q x arr w :
  w_queues w !! q = Some x -> default [] arr ≡ₚ default [] (q_jobs x) ->
  rearranged w (set_w_queues (<[q := set_q_jobs arr x]> (w_queues w)) w).
Proof.
  intros Hx Ha. destruct (reflexivity (R := rearranged) w) as [H1 H2 H3]. split; try done. simpl.
  rewrite <- (list_insert_id (w_queues w) q x) at 1 by done. apply Forall2_insert; [done|]. by exists arr.
Qed.

Lemma rearranged_each_queue qs : keeps rearranged (sort_each_queue cstat qsort qs).
Proof using Hqsort.
  induction qs as [|q qs IH]; simpl; [by keeps_tac|]. intros w a w' E. repeat inv_step E.
  transitivity w0; [|by eapply IH]. destruct (q_jobs a0) as [arr|] eqn:Ea; [|by inv_step H1]. repeat inv_step H1.
  rewrite H0 in H1. injection H1 as <-. apply (rearranged_queue _ _ (Some a1)); [done|]. rewrite Ea. simpl.
  by eapply sort_jobs_perm.
Qed.

Lemma rearranged_sort : keeps rearranged (sort_all_jobs cstat qsort).
Proof using Hqsort.
  intros w a w' E. unfold sort_all_jobs in E. inv_step E.
  assert (Hs : forall cmp, (let* arr := st_lift (sort_jobs qsort (w_jobs w) cmp (jobs (sinfo w)) (sc_total (sc (sinfo w)))) in
    upd_server (set_jobs arr))%st w = Ret a w' -> rearranged w w').
  { intros cmp E1. repeat inv_step E1. by apply rearranged_jobs, (sort_jobs_perm _ _ _ _ _ H0). }
  destruct (sort_by cstat) as [|[] keys]; [done|by inv_step E|..];
    (destruct (strict_fifo cstat); [by eapply Hs|]; destruct (_ || _); [by eapply rearranged_each_queue|by eapply Hs]).
Qed.

(** The structures still agree, and no count changes. *)
Lemma wf_rearranged w w' : rearranged w w' -> sched_wf w -> sched_wf w'.
Proof.
  intros [Ec (js & qs & Hjs & Hqs & Es) Hx] [Hnd Ht Hsz (r & Er & Hr) Hcn Hj Hq].
  split; rewrite ?Es, ?Ec; simpl; rewrite ?Hjs; try done.
  - unfold zlen. by rewrite Hjs.
  - unfold zlen. by rewrite Hjs.
  - exists r. split; [done|]. by rewrite Hjs.
  - intros p Hp. rewrite Hjs in Hp. destruct (Hj p Hp) as (c & x & Hcp & Hxq & Hin).
    destruct (Forall2_lookup_l _ _ _ _ _ Hx Hxq) as (x' & Hx' & arr & Harr & ->). exists c, (set_q_jobs arr x).
    split; [done|]. split; [done|]. simpl. by rewrite Harr.
  - intros q x' Hx'. destruct (Forall2_lookup_r _ _ _ _ _ Hx Hx') as (x & Hxq & arr & Harr & ->).
    destruct (Hq q x Hxq) as [Q1 Q2 (rq & Q3 & Q4) Q5 Q6]. split; simpl; rewrite ?Harr, ?Ec; try done.
    + unfold zlen. by rewrite Harr.
    + exists rq. split; [done|]. by rewrite Harr.
    + intros p Hp. rewrite Es. simpl. rewrite Harr in Hp. rewrite Hjs. by apply Q6.
Qed.

Lemma within_rearranged w w' : rearranged w w' -> within w w'.
Proof.
  intros [Ec (js & qs & Hjs & Hqs & Es) Hx].
  split; rewrite ?Es, ?Ec; simpl; [done|split; [done|apply bounded_refl]|split; [done|intros; apply bounded_refl]..|].
  intros q x0 Hx0. destruct (Forall2_lookup_l _ _ _ _ _ Hx Hx0) as (x' & Hx' & arr & Harr & ->).
  exists (set_q_jobs arr x0). split; [done|].
  split; rewrite ?Ec; simpl; [done|split; [done|apply bounded_refl]|split; [done|intros; apply bounded_refl]..].
Qed.

(** The places are set up. *)
Lemma next_job_init_same w a w' :
  next_job_init cstat w = Ret a w' -> w_jobs w' = w_jobs w /\ w_queues w' = w_queues w /\ sinfo w' = sinfo w.
Proof.
  unfold next_job_init. intros E. inv_step E.
  destruct (round_robin cstat); [destruct (negb _)|destruct (_ || _)]; by repeat inv_step E.
Qed.

Lemma next_job_init_wf w a w' :
  sched_wf w -> next_job_init cstat w = Ret a w' -> sched_wf w' /\ within w w' /\ places_wf cstat w'.
Proof.
  intros Hw E. destruct (next_job_init_same _ _ _ E) as (Ej & Eq & Es).
  assert (cores w' = cores w) as Ec by (unfold cores; by rewrite Ej). split; [|split].
  - destruct Hw as [W1 W2 W3 W4 W5 W6 W7]. split; rewrite ?Es, ?Eq, ?Ec; try done.
    intros q x Hx. destruct (W7 q x Hx). by split; rewrite ?Ec, ?Es.
  - apply (within_same w w); [done|done|done|apply within_refl].
  - intros Hrr. unfold next_job_init in E. inv_step E. rewrite Hrr in E. destruct (negb _); repeat inv_step E; simpl.
    + intros arr p Ha. by apply elem_of_nil in Ha.
    + intros arr p (x & Hx & Hin)%list_elem_of_fmap Hp. apply mapM_Some_1 in H0.
      apply list_elem_of_lookup in Hin as [i Hi]. destruct (Forall2_lookup_r _ _ _ _ _ H0 Hi) as (q & _ & Hxq).
      apply (qw_jobs w q x (default [] (q_jobs x))); [by apply wf_queue|]. by rewrite <- Hx.
Qed.

(** All but the places is rearranging. *)
Lemma init_split w a w' :
  init_scheduling_cycle conf cstat qsort w = Ret a w' -> exists w3, rearranged w w3 /\ next_job_init cstat w3 = Ret a w'.
Proof using Hqsort.
  intros E. unfold init_scheduling_cycle in E. inv_step E.
  apply bind_ret_inv in E as ([] & w1 & E1 & E). inv_step E. apply bind_ret_inv in E as ([] & w2 & E2 & E).
  apply bind_ret_inv in E as ([] & w3 & E3 & E). exists w3. split; [|done].
  transitivity w1; [|transitivity w2; [|by eapply rearranged_sort]].
  - destruct (help_starving_jobs cstat); [|by inv_step E1]. apply bind_ret_inv in E1 as (p & w0 & E0 & E1).
    etransitivity; [by eapply rearranged_starvation|by eapply rearranged_starving].
  - destruct (sort_queues cstat); [|by inv_step E2]. repeat inv_step E2.
    by apply rearranged_queues, sort_queue_array_perm.
Qed.

Lemma init_wf w a w' :
  sched_wf w -> init_scheduling_cycle conf cstat qsort w = Ret a w' -> sched_wf w' /\ within w w' /\ places_wf cstat w'.
Proof using Hqsort.
  intros Hw (w3 & Hr & E)%init_split.
  destruct (next_job_init_wf w3 a w' (wf_rearranged _ _ Hr Hw) E) as (Hw' & Hi & Hp).
  split; [done|]. split; [|done]. by apply (within_trans _ w3); [apply within_rearranged|].
Qed.

End Init.
