(* ===== verification/SchedCycle.v ===== *)
(** * The FIFO scheduler: the cycle

    A cycle passes no limit on running jobs, does not hand out more of a resource than there
    is, and asks the server only to run jobs that may be run: what holds after the sorts and
    is kept by choosing and by considering a job holds at the end ([cycle_ind]). *)

From Stdlib Require Import ZArith Lia String Ascii SpecFloat.
From stdpp Require Import base list numbers option.
From S2P Require Import Prelude CLib Attrs SchedData Sched SchedRun SchedLimits SchedInit.
From stdpp Require Import list_relations.

Local Open Scope Z_scope.
Set Default Proof Using "Type".

(** ** Resources *)

(** A resource that is counted has not been given out beyond what there is. *)
Definition covered (rs : list resource) : Prop :=
  forall n r, n ∈ res_to_check -> find_resource rs n = Some r -> avail r <> UNSPECIFIED ->
    0 <= assigned r <= avail r /\ avail r <= INT_MAX.

(** A job asks for a resource once, and for no negative amount. *)
Definition reqs_ok (l : list resource_req) : Prop :=
  NoDup (rq_name <$> l) /\ Forall (fun q => 0 <= amount q) l.

Lemma add_assigned_find rs m k n :
  find_resource (add_assigned rs m k) n =
    if decide (m = n)
    then (fun r => mk_resource (rs_name r) (avail r) (rs_max r) (i64 (assigned r + k))) <$> find_resource rs n
    else find_resource rs n.
Proof.
  induction rs as [|r rs IH]; simpl; [by destruct (decide _)|]. unfold str_eq in *.
  destruct (bool_decide_reflect (rs_name r = m)) as [<-|Hm]; simpl; unfold str_eq.
  - destruct (decide (rs_name r = n)) as [<-|Hn]; [by rewrite bool_decide_true|by rewrite bool_decide_false].
  - destruct (bool_decide_reflect (rs_name r = n)) as [<-|Hn]; [|done]. by rewrite decide_False.
Qed.

Lemma find_req_not_in l n : n ∉ rq_name <$> l -> find_resource_req l n = None.
Proof.
  induction l as [|q l IH]; [done|]. simpl. rewrite not_elem_of_cons. intros [Hn Hl].
  unfold str_eq. rewrite bool_decide_false by done. auto.
Qed.

Lemma assign_all_find l : forall rs n, NoDup (rq_name <$> l) ->
  find_resource (assign_all rs l) n =
    match find_resource_req l n with
    | Some q => (fun r => mk_resource (rs_name r) (avail r) (rs_max r) (i64 (assigned r + amount q))) <$> find_resource rs n
    | None => find_resource rs n
    end.
Proof.
  induction l as [|q l IH]; intros rs n Hnd; [done|]. simpl in Hnd. apply NoDup_cons in Hnd as [Hq Hnd].
  change (assign_all rs (q :: l)) with (assign_all (add_assigned rs (rq_name q) (amount q)) l).
  rewrite IH, add_assigned_find by done. simpl. unfold str_eq.
  destruct (decide (rq_name q = n)) as [<-|Hn]; [|by rewrite bool_decide_false].
  rewrite bool_decide_true by done. by rewrite find_req_not_in.
Qed.

Lemma check_resources_ok names : forall i rs l n r q,
  0 <= i -> i + zlen names <= RET_BASE -> check_resources names i rs l = SUCCESS -> n ∈ names ->
  find_resource rs n = Some r -> find_resource_req l n = Some q ->
  i32 (dynamic_avail r) = INFINITY_VAL \/ amount q <= i32 (dynamic_avail r).
Proof.
  induction names as [|m names IH]; intros i rs l n r q Hi Hb E Hn Hr Hq; [by apply elem_of_nil in Hn|].
  rewrite zlen_cons in Hb. pose proof (zlen_nonneg names). simpl in E. apply elem_of_cons in Hn as [->|Hn].
  - rewrite Hr, Hq in E. destruct (Z.eqb_spec (i32 (dynamic_avail r)) INFINITY_VAL); [by left|]. simpl in E.
    destruct (Z.ltb_spec (i32 (dynamic_avail r)) (amount q)); [unfold SUCCESS in E; lia|by right].
  - apply (IH (i + 1) rs l n); try done; [lia..|].
    destruct (find_resource rs m), (find_resource_req l m); try done.
    destruct (negb _ && _); [unfold SUCCESS in E; lia|done].
Qed.

(** A job that passed the check can be given what it asks for. *)
Lemma covered_assign rs j :
  covered rs -> reqs_ok (resreq j) -> check_avail_resources rs j = SUCCESS -> covered (assign_all rs (resreq j)).
Proof.
  intros Hc [Hnd Hpos] Hok n r Hn Hr Ha. rewrite assign_all_find in Hr by done.
  destruct (find_resource_req (resreq j) n) as [q|] eqn:Hq; [|by apply (Hc n)].
  destruct (find_resource rs n) as [r0|] eqn:Hr0; [|done]. injection Hr as <-. simpl in *.
  destruct (Hc n r0 Hn Hr0 Ha) as [H1 H2]. unfold INT_MAX in *.
  assert (0 <= amount q) as Hq0.
  { clear -Hq Hpos. induction Hpos as [|q' l Hq' Hl IH]; simpl in Hq; [done|].
    destruct (str_eq _ _); [by injection Hq as <-|auto]. }
  pose proof (check_resources_ok res_to_check 0 rs (resreq j) n r0 q ltac:(lia) ltac:(vm_compute; discriminate) Hok Hn Hr0 Hq) as Hle.
  clear Hok. rename Hle into Hok.
  unfold dynamic_avail in Hok. rewrite (proj2 (Z.eqb_neq (avail r0) UNSPECIFIED)), andb_false_r in Hok by done.
  rewrite i64_small, i32_small in Hok by lia. unfold INFINITY_VAL in Hok. rewrite i64_small by lia. lia.
Qed.

Definition all_reqs_ok (w : sched) : Prop := forall p j, w_jobs w !! p = Some j -> reqs_ok (resreq j).
Definition keeps_reqs (w w' : sched) : Prop := all_reqs_ok w -> all_reqs_ok w'.

#[export] Instance keeps_reqs_preorder : PreOrder keeps_reqs.
Proof. split; [by intros w Hw|]. intros w1 w2 w3 H1 H2 H. auto. Qed.

Lemma keeps_reqs_upd_job p f : (forall j, reqs_ok (resreq j) -> reqs_ok (resreq (f j))) -> keeps keeps_reqs (upd_job p f).
Proof.
  intros Hf. apply keeps_upd_job. intros w j Hj Hw p' j'. simpl. rewrite list_lookup_insert.
  case_decide; [|by apply Hw]. intros [= <-]. apply Hf. by apply (Hw p).
Qed.
Lemma keeps_reqs_modify f : (forall w, w_jobs (f w) = w_jobs w) -> keeps keeps_reqs (st_modify f).
Proof. intros Hf. apply keeps_modify. intros w Hw p j. rewrite Hf. apply Hw. Qed.
Lemma keeps_reqs_upd_queue q f : keeps keeps_reqs (upd_queue q f).
Proof. intros w a w' (x & _ & ->)%upd_queue_inv. by intros Hw. Qed.
Lemma keeps_reqs_upd_server f : keeps keeps_reqs (upd_server f).
Proof. by apply keeps_reqs_modify. Qed.

#[export] Hint Resolve keeps_reqs_upd_queue keeps_reqs_upd_server : sched.
#[export] Hint Extern 1 (keeps keeps_reqs (upd_job _ _)) => (by apply keeps_reqs_upd_job; intros []) : sched.
#[export] Hint Extern 1 (keeps keeps_reqs (st_modify _)) => (by apply keeps_reqs_modify) : sched.

Lemma find_req_Some l n q : find_resource_req l n = Some q -> n ∈ rq_name <$> l.
Proof.
  induction l as [|q' l IH]; simpl; [done|]. unfold str_eq. destruct (bool_decide_reflect (rq_name q' = n)) as [<-|].
  - intros _. by left.
  - intros Hq. right. auto.
Qed.
Lemma find_req_None l n : find_resource_req l n = None -> n ∉ rq_name <$> l.
Proof.
  induction l as [|q' l IH]; simpl; [intros _; by apply not_elem_of_nil|]. unfold str_eq.
  destruct (bool_decide_reflect (rq_name q' = n)) as [|Hn]; [done|]. intros Hl. apply not_elem_of_cons. auto.
Qed.

Lemma find_alloc_reqs_ok l n : reqs_ok l -> reqs_ok (fst (find_alloc_resource_req n l)).
Proof.
  intros [Hnd Hpos]. unfold find_alloc_resource_req. destruct (find_resource_req l n) as [q|] eqn:E; [done|].
  apply find_req_None in E. destruct l as [|q l]; [by split|]. set (l0 := q :: l) in *. clearbody l0.
  split; simpl.
  - rewrite fmap_app. apply NoDup_app. split; [done|]. split; [|apply NoDup_singleton].
    intros m Hm ->%list_elem_of_singleton. done.
  - apply Forall_app. split; [done|]. by constructor.
Qed.

Lemma keeps_reqs_neednodes p : keeps keeps_reqs (update_job_neednodes p).
Proof.
  intros w r w' E. unfold update_job_neednodes in E. inv_step E. inv_step E. destruct (need a0) as [nd|]; [|by inv_step E].
  destruct (find_alloc_resource_req (str "neednodes") (resreq a)) as [l1 q1] eqn:E1.
  destruct (find_alloc_resource_req (str "nodes") l1) as [l2 q2] eqn:E2.
  apply bind_ret_inv in E as ([] & w1 & E3 & E). transitivity w1.
  - apply upd_job_inv in E3 as (j & Hj & ->). intros Hw p' j'. simpl. rewrite list_lookup_insert.
    case_decide; [|by apply Hw]. intros [= <-]. simpl. rewrite H in Hj. injection Hj as <-.
    pose proof (find_alloc_reqs_ok (resreq a) (str "neednodes") (Hw p a H)) as K1. rewrite E1 in K1.
    pose proof (find_alloc_reqs_ok l1 (str "nodes") K1) as K2. by rewrite E2 in K2.
  - revert w1 r w' E E3. clear -q1. intros w1 r w' E _. revert w1 r w' E.
    match goal with |- forall w1 r w', ?m w1 = _ -> _ => change (keeps keeps_reqs m) end. unfold tell. keeps_tac.
Qed.

(** ** The jobs that are run *)

(** What is said to the server grows, and the jobs it is asked to run satisfy [P]. *)
Definition asks (P : ptr -> Prop) (w w' : sched) : Prop :=
  exists es, w_events w' = w_events w ++ es /\ forall p n rc, RunJob p n rc ∈ es -> P p.

Lemma asks_same P w w' : w_events w' = w_events w -> asks P w w'.
Proof. intros E. exists []. split; [by rewrite E, app_nil_r|]. by intros p n rc ?%elem_of_nil. Qed.

#[export] Instance asks_preorder P : PreOrder (asks P).
Proof.
  split.
  - intros w. by apply asks_same.
  - intros w1 w2 w3 (es1 & E1 & H1) (es2 & E2 & H2). exists (es1 ++ es2). split; [by rewrite E2, E1, app_assoc|].
    intros p n rc [?|?]%elem_of_app; eauto.
Qed.

Lemma asks_modify P f : (forall w, w_events (f w) = w_events w) -> keeps (asks P) (st_modify f).
Proof. intros Hf. apply keeps_modify. intros w. by apply asks_same. Qed.
Lemma asks_upd_job P p f : keeps (asks P) (upd_job p f).
Proof. intros w a w' (j & _ & ->)%upd_job_inv. by apply asks_same. Qed.
Lemma asks_upd_queue P q f : keeps (asks P) (upd_queue q f).
Proof. intros w a w' (x & _ & ->)%upd_queue_inv. by apply asks_same. Qed.
Lemma asks_upd_server P f : keeps (asks P) (upd_server f).
Proof. by apply asks_modify. Qed.
Lemma asks_tell (P : ptr -> Prop) e : (forall p n rc, e = RunJob p n rc -> P p) -> keeps (asks P) (tell e).
Proof.
  intros He w a w' ->%modify_inv. exists [e]. split; [done|]. intros p n rc E%list_elem_of_singleton. eauto.
Qed.

#[export] Hint Resolve asks_upd_job asks_upd_queue asks_upd_server : sched.
#[export] Hint Extern 1 (keeps (asks _) (st_modify _)) => (by apply asks_modify) : sched.
#[export] Hint Extern 1 (keeps (asks _) (tell _)) => (apply asks_tell; congruence) : sched.

(** A job that was ruled out stays so, and no job becomes queued. *)
Definition mono (w w' : sched) : Prop := forall p j', w_jobs w' !! p = Some j' -> exists j, w_jobs w !! p = Some j
  /\ (can_not_run j = true -> can_not_run j' = true) /\ (is_queued j' = true -> is_queued j = true).

#[export] Instance mono_preorder : PreOrder mono.
Proof.
  split; [by intros w p j Hj; exists j|]. intros w1 w2 w3 H1 H2 p j3 Hj3.
  destruct (H2 p j3 Hj3) as (j2 & Hj2 & ? & ?). destruct (H1 p j2 Hj2) as (j1 & Hj1 & ? & ?). exists j1. auto.
Qed.

Lemma mono_modify f : (forall w, w_jobs (f w) = w_jobs w) -> keeps mono (st_modify f).
Proof. intros Hf. apply keeps_modify. intros w p j. rewrite Hf. intros Hj. by exists j. Qed.
Lemma mono_upd_job p f :
  (forall j, (can_not_run j = true -> can_not_run (f j) = true) /\ (is_queued (f j) = true -> is_queued j = true)) ->
  keeps mono (upd_job p f).
Proof.
  intros Hf. apply keeps_upd_job. intros w j Hj p' j'. simpl. rewrite list_lookup_insert.
  case_decide as Hd; [|intros Hj'; by exists j']. destruct Hd as [-> _]. intros [= <-]. exists j. split; [done|apply Hf].
Qed.
Lemma mono_upd_queue q f : keeps mono (upd_queue q f).
Proof. intros w a w' (x & _ & ->)%upd_queue_inv. intros p j Hj. by exists j. Qed.
Lemma mono_upd_server f : keeps mono (upd_server f).
Proof. by apply mono_modify. Qed.

#[export] Hint Resolve mono_upd_queue mono_upd_server : sched.
#[export] Hint Extern 1 (keeps mono (st_modify _)) => (by apply mono_modify) : sched.
#[export] Hint Extern 1 (keeps mono (upd_job _ _)) => (by apply mono_upd_job; intros []) : sched.

Section Cycle.
Context `{Platform} {Hall : AllocOk} (conf : config) (cstat : status).
Context (atof : list Z -> float) (timebuf : list Z)
  (qsort : forall A, (A -> A -> Z) -> list (ptr * A) -> list (ptr * A))
  (runjob_answer : list event -> Z) (rescquery_answer : list event -> Z * Z)
  (geterrmsg : list event -> list Z).
Context (Hqsort : forall A cmp l, qsort A cmp l ≡ₚ l).

Lemma keeps_reqs_comment p c : keeps keeps_reqs (update_job_comment p c).
Proof. unfold update_job_comment, tell. keeps_tac. Qed.
Hint Resolve keeps_reqs_comment keeps_reqs_neednodes : sched.
Lemma keeps_reqs_mark ps c : keeps keeps_reqs (mark_cant_run ps c).
Proof. induction ps; simpl; keeps_tac. Qed.
Hint Resolve keeps_reqs_mark : sched.
Lemma keeps_reqs_is_ok q p : keeps keeps_reqs (is_ok_to_run_job conf cstat atof rescquery_answer q p).
Proof. unfold is_ok_to_run_job, and_then, and_ok, check_nodes, pbs_rescquery, tell. keeps_tac. Qed.
Lemma keeps_reqs_run q p : keeps keeps_reqs (run_update_job cstat timebuf runjob_answer geterrmsg q p).
Proof.
  unfold run_update_job, find_best_node, node_name, pbs_runjob, tell, job_was_run, raise_load, update_server_on_run,
    update_queue_on_run, update_job_on_run, update_usage_on_run, refresh_running. keeps_tac.
Qed.
Lemma keeps_reqs_cant p r : keeps keeps_reqs (job_cant_run cstat p r).
Proof. unfold job_cant_run, update_jobs_cant_run, tell. keeps_tac. Qed.
Hint Resolve keeps_reqs_is_ok keeps_reqs_run keeps_reqs_cant : sched.
Lemma keeps_reqs_init : keeps keeps_reqs (init_scheduling_cycle conf cstat qsort).
Proof.
  assert (forall ps i, keeps keeps_reqs (starvation_loop conf cstat ps i)) by (induction ps; intros; simpl; keeps_tac).
  assert (forall qs, keeps keeps_reqs (sort_each_queue cstat qsort qs)) by (induction qs; simpl; keeps_tac).
  unfold init_scheduling_cycle, update_starvation, sort_all_jobs, next_job_init. keeps_tac.
Qed.
Lemma keeps_reqs_consider p :
  keeps keeps_reqs (consider_job conf cstat atof timebuf runjob_answer rescquery_answer geterrmsg p).
Proof. unfold consider_job. keeps_tac. Qed.

Abbreviation loop := (main_loop conf cstat atof timebuf runjob_answer rescquery_answer geterrmsg).
Abbreviation cycle := (scheduling_cycle conf cstat atof timebuf qsort runjob_answer rescquery_answer geterrmsg).

(** Whatever holds at the start and is kept by moving on and by considering a job of the
    server holds at the end. *)
Lemma loop_ind (P : sched -> Prop) :
  (forall w w', moved w w' -> P w -> P w') ->
  (forall w w1 p w', sched_wf w -> P w -> moved w w1 -> sched_wf w1 -> choosable cstat w (jobs (sinfo w)) p -> P w1 ->
     consider_job conf cstat atof timebuf runjob_answer rescquery_answer geterrmsg p w1 = Ret tt w' -> P w') ->
  forall fuel w w', sched_wf w -> places_wf cstat w -> P w -> loop fuel w = Ret tt w' -> P w'.
Proof using Hall.
  intros Hm Hc. induction fuel as [|fuel IH]; intros w w' Hw Hpl HP E; [done|]. simpl in E.
  apply bind_ret_inv in E as (r & w2 & E2 & E). destruct (next_job_spec cstat w r w2 Hw Hpl E2) as [Hmv Hch].
  assert (sched_wf w2) as Hw2 by by eapply wf_moved.
  assert (places_wf cstat w2) as Hpl2 by by eapply places_moved. pose proof (Hm _ _ Hmv HP) as HP2.
  destruct r as [p|]; [|by inv_step E]. apply bind_ret_inv in E as ([] & w3 & E3 & E).
  apply (IH w3); [| |by eapply (Hc w w2 p); eauto|done]; [|by eapply (consider_places conf cstat atof timebuf)].
  by eapply (consider_keeps conf cstat atof timebuf runjob_answer rescquery_answer geterrmsg w2 w2);
    [done|apply within_refl|].
Qed.

Lemma cycle_ind (P : sched -> Prop) :
  (forall w w', moved w w' -> P w -> P w') ->
  (forall w w1 p w', sched_wf w -> P w -> moved w w1 -> sched_wf w1 -> choosable cstat w (jobs (sinfo w)) p -> P w1 ->
     consider_job conf cstat atof timebuf runjob_answer rescquery_answer geterrmsg p w1 = Ret tt w' -> P w') ->
  forall fuel w w', sched_wf w ->
  (forall w1, init_scheduling_cycle conf cstat qsort w = Ret tt w1 -> P w1) -> cycle fuel w = Ret tt w' -> P w'.
Proof using Hall Hqsort.
  intros Hm Hc fuel w w' Hw HP ([] & w1 & E1 & E)%bind_ret_inv.
  destruct (init_wf conf cstat qsort Hqsort w tt w1 Hw E1) as (Hw1 & _ & Hp1). exact (loop_ind P Hm Hc fuel w1 w' Hw1 Hp1 (HP w1 E1) E).
Qed.

(** C9: A scheduling cycle respects the limits on running jobs, under every policy and
    whatever the server answers: no limit set for the server or for a queue, on all jobs, on
    those of one user or on those of one group, is passed, unless it was already passed when
    the cycle began, and then by no more; and the scheduler's own counts never fall behind
    the jobs it has started. *)
Theorem cycle_within_limits fuel w0 w :
  sched_wf w0 -> cycle fuel w0 = Ret tt w -> sched_wf w /\ within w0 w.
Proof using Hall Hqsort.
  intros Hw. apply (cycle_ind (fun w => sched_wf w /\ within w0 w)); [| |done|].
  - intros w1 w2 Hm [Hw1 Hi]. split; [by eapply wf_moved|]. destruct Hm as [E1 E2 E3 _ _ _ _].
    eapply within_same; [unfold cores; by rewrite E1|done..].
  - intros w1 w2 p w3 _ _ _ _ _ [Hw2 Hi] E. by eapply (consider_keeps conf cstat atof timebuf runjob_answer rescquery_answer geterrmsg).
  - intros w1 E. destruct (init_wf conf cstat qsort Hqsort w0 tt w1 Hw E) as (? & ? & _). done.
Qed.

(** Nothing is given out beyond what there is, by the server or by a queue. *)
Definition all_covered (w : sched) : Prop :=
  covered (res (sinfo w)) /\ forall q x, w_queues w !! q = Some x -> covered (qres x).

Lemma all_covered_same w w' : w_queues w' = w_queues w -> sinfo w' = sinfo w -> all_covered w -> all_covered w'.
Proof. intros Eq Es [H1 H2]. split; [by rewrite Es|]. intros q x. rewrite Eq. apply H2. Qed.

Lemma all_covered_init w a w' :
  all_covered w -> init_scheduling_cycle conf cstat qsort w = Ret a w' -> all_covered w'.
Proof using Hqsort.
  intros [H1 H2] (w3 & [_ (js & qs & _ & _ & Es) Hx] & (_ & Eq & Es2)%next_job_init_same)%(init_split _ _ _ Hqsort).
  apply (all_covered_same w3); [done|done|]. split; [rewrite Es; exact H1|].
  intros q x' Hx'. destruct (Forall2_lookup_r _ _ _ _ _ Hx Hx') as (x & Hxq & arr & _ & ->). exact (H2 q x Hxq).
Qed.

Lemma all_covered_consider w p w' :
  sched_wf w -> all_reqs_ok w -> all_covered w ->
  consider_job conf cstat atof timebuf runjob_answer rescquery_answer geterrmsg p w = Ret tt w' -> all_covered w'.
Proof using Hall.
  intros Hw Hr Hc E.
  apply consider_cases in E as [[_ Eq Es _ _ _ _]|(w1 & w2 & j & x & [Hq1 (r & Hn)] & Hj & Hx & Hul & Hq2 & Hran)];
    [by eapply all_covered_same| |done].
  assert (all_covered w2) as [C1 C2].
  { apply (all_covered_same w); [by rewrite (quiet_queues _ _ Hq2), (quiet_queues _ _ Hq1)|
      by rewrite (quiet_sinfo _ _ Hq2), (quiet_sinfo _ _ Hq1)|done]. }
  assert (reqs_ok (resreq j)) as Hrj by exact (keeps_reqs_neednodes _ _ _ _ Hn Hr p j Hj).
  destruct Hran as [_ Es (x' & Hx' & Eq) _ _ _ _]. rewrite (quiet_queues _ _ Hq2), Hx in Hx'. injection Hx' as <-.
  split; [rewrite Es; simpl; apply covered_assign; [done|done|]; rewrite (quiet_sinfo _ _ Hq2); apply Hul|].
  intros q y. rewrite Eq, list_lookup_insert. case_decide; [|by apply C2]. intros [= <-]. simpl.
  apply covered_assign; [|done|apply Hul]. apply (C2 (j_queue j)). by rewrite (quiet_queues _ _ Hq2).
Qed.

(** C10: A scheduling cycle does not hand out more memory, processors or nodes than the
    server and the queues have.  If at its start each such resource whose [avail] is
    specified has 0 <= assigned <= avail <= INT_MAX, and every job asks for a resource at
    most once and for no negative amount, then the same holds after the cycle, under every
    policy and whatever the server answers. *)
Theorem cycle_within_resources fuel w w' :
  sched_wf w -> all_reqs_ok w -> all_covered w -> cycle fuel w = Ret tt w' -> all_covered w'.
Proof using Hall Hqsort.
  intros Hw Hr Hc E. cut (all_reqs_ok w' /\ all_covered w'); [tauto|].
  revert E. apply (cycle_ind (fun w => all_reqs_ok w /\ all_covered w)); [| |done|].
  - intros w1 w2 [Ej Eq Es _ _ _ _] [Hr1 Hc1]. split; [|by eapply all_covered_same]. intros p j. rewrite Ej. apply Hr1.
  - intros w0 w1 p w2 _ _ _ Hw1 _ [Hr1 Hc1] E. split; [by eapply keeps_reqs_consider|by eapply all_covered_consider].
  - intros w1 E1. split; [by eapply keeps_reqs_init|]. by eapply all_covered_init.
Qed.

(** Both hold of considering a job. *)
Section Ops.
Context (P : ptr -> Prop).

Lemma asks_comment p c : keeps (asks P) (update_job_comment p c).
Proof. unfold update_job_comment. keeps_tac. Qed.
Lemma asks_mark ps c : keeps (asks P) (mark_cant_run ps c).
Proof. pose proof asks_comment. induction ps; simpl; keeps_tac. Qed.
Lemma mono_comment p c : keeps mono (update_job_comment p c).
Proof. unfold update_job_comment, tell. keeps_tac. Qed.
Lemma mono_mark ps c : keeps mono (mark_cant_run ps c).
Proof. pose proof mono_comment. induction ps; simpl; keeps_tac. Qed.
Hint Resolve asks_comment asks_mark mono_comment mono_mark : sched.

Lemma asks_neednodes p : keeps (asks P) (update_job_neednodes p).
Proof. unfold update_job_neednodes. keeps_tac. Qed.
Lemma mono_neednodes p : keeps mono (update_job_neednodes p).
Proof. unfold update_job_neednodes, tell. keeps_tac. Qed.
Lemma asks_is_ok q p : keeps (asks P) (is_ok_to_run_job conf cstat atof rescquery_answer q p).
Proof. unfold is_ok_to_run_job, and_then, and_ok, check_nodes, pbs_rescquery. keeps_tac. Qed.
Lemma mono_is_ok q p : keeps mono (is_ok_to_run_job conf cstat atof rescquery_answer q p).
Proof. unfold is_ok_to_run_job, and_then, and_ok, check_nodes, pbs_rescquery, tell. keeps_tac. Qed.
Lemma asks_runjob p n : P p -> keeps (asks P) (pbs_runjob runjob_answer p n).
Proof.
  intros Hp. unfold pbs_runjob. apply keeps_bind; [apply _|by keeps_tac|intros w].
  apply keeps_bind; [apply _| |intros; by keeps_tac]. apply asks_tell. congruence.
Qed.
Lemma asks_run q p : P p -> keeps (asks P) (run_update_job cstat timebuf runjob_answer geterrmsg q p).
Proof.
  intros Hp. pose proof (fun n => asks_runjob p n Hp).
  unfold run_update_job, find_best_node, node_name, job_was_run, raise_load, update_server_on_run,
    update_queue_on_run, update_job_on_run, update_usage_on_run, refresh_running. keeps_tac.
Qed.
Lemma mono_run q p : keeps mono (run_update_job cstat timebuf runjob_answer geterrmsg q p).
Proof.
  unfold run_update_job, find_best_node, node_name, job_was_run, raise_load, update_server_on_run, pbs_runjob, tell,
    update_queue_on_run, update_job_on_run, update_usage_on_run, refresh_running. keeps_tac.
Qed.
Lemma asks_cant p r : keeps (asks P) (job_cant_run cstat p r).
Proof. unfold job_cant_run, update_jobs_cant_run. keeps_tac. Qed.
Lemma mono_cant p r : keeps mono (job_cant_run cstat p r).
Proof. unfold job_cant_run, update_jobs_cant_run, tell. keeps_tac. Qed.
Hint Resolve asks_neednodes mono_neednodes asks_is_ok mono_is_ok mono_run asks_cant mono_cant : sched.

Lemma asks_init : keeps (asks P) (init_scheduling_cycle conf cstat qsort).
Proof.
  assert (forall ps i, keeps (asks P) (starvation_loop conf cstat ps i)) by (induction ps; intros; simpl; keeps_tac).
  assert (forall qs, keeps (asks P) (sort_each_queue cstat qsort qs)) by (induction qs; simpl; keeps_tac).
  unfold init_scheduling_cycle, update_starvation, sort_all_jobs, next_job_init. keeps_tac.
Qed.
Lemma mono_init : keeps mono (init_scheduling_cycle conf cstat qsort).
Proof.
  assert (forall ps i, keeps mono (starvation_loop conf cstat ps i)) by (induction ps; intros; simpl; keeps_tac).
  assert (forall qs, keeps mono (sort_each_queue cstat qsort qs)) by (induction qs; simpl; keeps_tac).
  unfold init_scheduling_cycle, update_starvation, sort_all_jobs, next_job_init. keeps_tac.
Qed.
Lemma asks_consider p : P p ->
  keeps (asks P) (consider_job conf cstat atof timebuf runjob_answer rescquery_answer geterrmsg p).
Proof. intros Hp. pose proof (fun q => asks_run q p Hp). unfold consider_job. keeps_tac. Qed.
Lemma mono_consider p :
  keeps mono (consider_job conf cstat atof timebuf runjob_answer rescquery_answer geterrmsg p).
Proof. unfold consider_job. keeps_tac. Qed.

End Ops.

(** C12: The scheduler asks the server only to run jobs that could be run when the cycle
    began: jobs of the server that were not ruled out then, or, under strict fifo, that were
    queued then. *)
Theorem cycle_runs_eligible fuel w w' :
  sched_wf w -> cycle fuel w = Ret tt w' -> asks (choosable cstat w (jobs (sinfo w))) w w'.
Proof using Hall Hqsort.
  intros Hw E. set (P := choosable cstat w (jobs (sinfo w))).
  cut (asks P w w' /\ mono w w' /\ within w w'); [tauto|]. revert E.
  apply (cycle_ind (fun w' => asks P w w' /\ mono w w' /\ within w w')); [| |done|].
  - intros w1 w2 [Ej Eq Es _ Ee _ _] ((es & E & He) & Hm & Hi). split; [exists es; by rewrite Ee|]. split.
    + intros p j. rewrite Ej. apply Hm.
    + eapply within_same; [unfold cores; by rewrite Ej|done..].
  - intros w1 w2 p w3 _ (_ & Hm1 & Hi1) _ Hw2 [Hin (j & Hj & Hc)] (Ha & Hm & Hi) E. split; [|split].
    + etransitivity; [exact Ha|]. revert E. apply asks_consider. split; [by rewrite <- (wi_jobs _ _ Hi1)|].
      destruct (Hm1 p j Hj) as (j0 & Hj0 & H1 & H2). exists j0. split; [done|].
      destruct (strict_fifo cstat && _); [by apply H2|]. apply negb_true_iff. destruct (can_not_run j0); [|done].
      by rewrite H1 in Hc.
    + etransitivity; [exact Hm|]. revert E. apply mono_consider.
    + by eapply (consider_keeps conf cstat atof timebuf runjob_answer rescquery_answer geterrmsg w w2).
  - intros w1 E1. split; [by eapply asks_init|]. split; [by eapply mono_init|].
    destruct (init_wf conf cstat qsort Hqsort w tt w1 Hw E1) as (? & ? & _). done.
Qed.

End Cycle.
