(* ===== verification/SchedEnds.v ===== *)
(** * The FIFO scheduler: the cycle comes to an end

    For configurations that do not follow NULL pointers ([calm]) considering a job always
    comes back, and without fair share every policy runs out of jobs: [next_job] gets nearer
    to the end of its arrays with every job it returns. *)

From Stdlib Require Import ZArith Lia String Ascii SpecFloat.
From stdpp Require Import base list numbers option.
From S2P Require Import Prelude CLib Attrs SchedData Sched SchedRun SchedLimits SchedInit SchedCycle.
From stdpp Require Import list_relations.

Local Open Scope Z_scope.
Set Default Proof Using "Type".

(** An element of a list that is written out. *)
Ltac in_list := simpl; repeat first [left; reflexivity | right].

(** ** Runs that come back *)

(** What the structures must hold for no pointer to be followed in vain. *)
Record calm_job (m : nat) (j : job_info) : Prop := {
  cj_account : is_Some (account j);
  cj_group : is_Some (group j);
  cj_tokens : find_resource_req (resreq j) (str "tokens") = None;
  cj_nodes : forall q, find_resource_req (resreq j) (str "nodes") = Some q -> is_Some (res_str q);
  cj_queue : (j_queue j < m)%nat;
  cj_name : zlen (j_name j) <= 67
}.

Definition valid (n : nat) (ps : list ptr) : Prop := Forall (fun p => (p < n)%nat) ps.

Lemma valid_lookup n ps i p : valid n ps -> ps !! i = Some p -> (p < n)%nat.
Proof. intros Hv Hp. exact (Forall_lookup_1 _ _ _ _ Hv Hp). Qed.

Record calm_queue (n : nat) (x : queue_info) : Prop := {
  cq_need : need x = None;
  cq_jobs : valid n (default [] (q_jobs x));
  cq_total : sc_total (q_sc x) = zlen (default [] (q_jobs x));
  cq_running : valid n (default [] (q_running_jobs x))
}.

(** [n] jobs and [m] queues are allocated and [st] is the starving job. *)
Record calm (n m : nat) (st : option ptr) (w : sched) : Prop := {
  ca_jobs : length (w_jobs w) = n;
  ca_queues : length (w_queues w) = m;
  ca_job : Forall (calm_job m) (w_jobs w);
  ca_queue : Forall (calm_queue n) (w_queues w);
  ca_array : valid n (jobs (sinfo w));
  ca_total : sc_total (sc (sinfo w)) = zlen (jobs (sinfo w));
  ca_running : valid n (default [] (running_jobs (sinfo w)));
  ca_starving : starving_job w = st /\ forall s, st = Some s -> (s < n)%nat
}.

(** A computation comes back, the structures still hold, and the result satisfies [V]. *)
Definition does {A} (n m : nat) (st : option ptr) (V : A -> Prop) (c : ST sched A) : Prop :=
  forall w, calm n m st w -> exists a w', c w = Ret a w' /\ calm n m st w' /\ V a.

Definition any {A} (_ : A) : Prop := True.

Section Does.
Context (n m : nat) (st : option ptr).

Lemma does_bind {A B} (c : ST sched A) (k : A -> ST sched B) V W :
  does n m st V c -> (forall a, V a -> does n m st W (k a)) -> does n m st W (st_bind c k).
Proof.
  intros Hc Hk w Hw. destruct (Hc w Hw) as (a & w1 & E1 & Hw1 & Ha). destruct (Hk a Ha w1 Hw1) as (b & w2 & E2 & ?).
  exists b, w2. unfold st_bind. by rewrite E1.
Qed.
Lemma does_ret {A} (a : A) (V : A -> Prop) : V a -> does n m st V (st_ret a).
Proof. intros Ha w Hw. by exists a, w. Qed.
Lemma does_get : does n m st (calm n m st) st_get.
Proof. intros w Hw. by exists w, w. Qed.
Lemma does_lift {A} (o : option A) (V : A -> Prop) : (exists a, o = Some a /\ V a) -> does n m st V (st_lift o).
Proof. intros (a & -> & Ha) w Hw. by exists a, w. Qed.
Lemma does_weak {A} (c : ST sched A) (V W : A -> Prop) : (forall a, V a -> W a) -> does n m st V c -> does n m st W c.
Proof. intros HVW Hc w Hw. destruct (Hc w Hw) as (a & w1 & ? & ? & ?). exists a, w1. auto. Qed.

Lemma does_get_job p : (p < n)%nat -> does n m st (calm_job m) (get_job p).
Proof.
  intros Hp w Hw. destruct (lookup_lt_is_Some_2 (w_jobs w) p) as [j Hj]; [by rewrite (ca_jobs _ _ _ _ Hw)|].
  exists j, w. unfold get_job, st_bind, st_get. rewrite Hj. split; [done|]. split; [done|].
  eapply Forall_lookup_1; [apply (ca_job _ _ _ _ Hw)|done].
Qed.
Lemma does_get_queue q : (q < m)%nat -> does n m st (calm_queue n) (get_queue q).
Proof.
  intros Hq w Hw. destruct (lookup_lt_is_Some_2 (w_queues w) q) as [x Hx]; [by rewrite (ca_queues _ _ _ _ Hw)|].
  exists x, w. unfold get_queue, st_bind, st_get. rewrite Hx. split; [done|]. split; [done|].
  eapply Forall_lookup_1; [apply (ca_queue _ _ _ _ Hw)|done].
Qed.
Lemma does_upd_job p f :
  (p < n)%nat -> (forall j, calm_job m j -> calm_job m (f j)) -> does n m st any (upd_job p f).
Proof.
  intros Hp Hf. eapply does_bind; [by apply does_get_job|]. intros j Hj w Hw. eexists tt, _. split; [done|].
  split; [|done]. destruct Hw. split; simpl; try done; [by rewrite length_insert|].
  apply Forall_insert; [done|auto].
Qed.
Lemma does_upd_queue q f :
  (q < m)%nat -> (forall x, calm_queue n x -> calm_queue n (f x)) -> does n m st any (upd_queue q f).
Proof.
  intros Hq Hf. eapply does_bind; [by apply does_get_queue|]. intros x Hx w Hw. eexists tt, _. split; [done|].
  split; [|done]. destruct Hw. split; simpl; try done; [by rewrite length_insert|].
  apply Forall_insert; [done|auto].
Qed.
Lemma does_tell e : does n m st any (tell e).
Proof. intros w Hw. eexists tt, _. split; [done|]. split; [|done]. by destruct Hw; split. Qed.
End Does.

Section Ends.
Context `{Platform} {Hall : AllocOk} (conf : config) (cstat : status).
Context (atof : list Z -> float) (timebuf : list Z)
  (runjob_answer : list event -> Z) (rescquery_answer : list event -> Z * Z)
  (geterrmsg : list event -> list Z).
Context (qsort : forall A, (A -> A -> Z) -> list (ptr * A) -> list (ptr * A)).
Context (Hqsort : forall A cmp l, qsort A cmp l ≡ₚ l).
Context (n m : nat) (st : option ptr).
Context (Hlb : load_balancing cstat = false) (Hrr : load_balancing_rr cstat = false) (Hfs : fair_share cstat = false).

Lemma does_comment p c : (p < n)%nat -> does n m st any (update_job_comment p c).
Proof.
  intros Hp. unfold update_job_comment. eapply does_bind; [by apply does_get_job|]. intros j Hj.
  destruct (bool_decide _); [by apply does_ret|].
  eapply does_bind; [apply does_upd_job; [done|]; intros j' []; by split|]. intros _ _.
  eapply does_bind; [apply does_tell|]. intros _ _. by apply does_ret.
Qed.

Lemma does_neednodes p : (p < n)%nat -> does n m st any (update_job_neednodes p).
Proof.
  intros Hp. unfold update_job_neednodes. eapply does_bind; [by apply does_get_job|]. intros j Hj.
  eapply does_bind; [apply does_get_queue, Hj|]. intros x Hx. rewrite (cq_need _ _ Hx). by apply does_ret.
Qed.

Lemma does_mark ps c : valid n ps -> does n m st any (mark_cant_run ps c).
Proof.
  intros Hps. induction Hps as [|p ps Hp Hps IH]; simpl; [by apply does_ret|].
  eapply does_bind; [apply does_upd_job; [done|]; intros j' []; by split|]. intros _ _.
  eapply does_bind; [by apply does_comment|]. by intros _ _.
Qed.

Lemma count_loop_total (field : job_info -> cptr) u js :
  is_Some u -> Forall (fun j => is_Some (field j)) js -> is_Some (count_loop field u js).
Proof.
  intros [a ->] Hjs. induction Hjs as [|j js [b Hb] Hjs [k Hk]]; simpl; [done|]. rewrite Hb. simpl.
  rewrite Hk. simpl. done.
Qed.

Lemma deref_total w ps : calm n m st w -> valid n ps -> exists js, deref (w_jobs w) ps = Some js /\ Forall (calm_job m) js.
Proof.
  intros Hw Hps. induction Hps as [|p ps Hp Hps (js & E & Hjs)]; [by exists []|].
  destruct (lookup_lt_is_Some_2 (w_jobs w) p) as [j Hj]; [by rewrite (ca_jobs _ _ _ _ Hw)|].
  exists (j :: js). unfold deref in *. simpl. rewrite Hj. simpl. rewrite E. simpl. split; [done|].
  constructor; [|done]. eapply Forall_lookup_1; [apply (ca_job _ _ _ _ Hw)|done].
Qed.

Lemma count_total (user : bool) w l u :
  calm n m st w -> valid n (default [] l) -> is_Some u ->
  is_Some ((if user then count_by_user else count_by_group) (w_jobs w) l u).
Proof.
  intros Hw Hl Hu. destruct l as [ps|]; [|by destruct user; eexists]. destruct (deref_total w ps Hw Hl) as (js & E & Hjs).
  destruct user; simpl; rewrite E; simpl; apply count_loop_total; try done; eapply Forall_impl; try done;
    intros j []; done.
Qed.

Lemma under_limit_total max k c : is_Some k -> exists r, under_limit max k c = Some r /\ (r = 0 \/ r = c).
Proof.
  intros [z ->]. unfold under_limit. destruct (_ =? _); [by exists 0; auto|]. simpl. eexists. split; [done|].
  destruct (_ <? _); auto.
Qed.

(** A code that can be translated. *)
Definition code (r : Z) : Prop := 0 <= r /\ (r = JOB_STARVING -> is_Some st).

Lemma does_pure_check (f : sched -> option Z) :
  (forall w, calm n m st w -> exists r, f w = Some r /\ code r) -> does n m st code (pure_check f).
Proof.
  intros Hf w Hw. destruct (Hf w Hw) as (z & E & Hz). exists z, w. unfold pure_check, st_bind, st_get. by rewrite E.
Qed.
Lemma does_and_then c k : does n m st code c -> does n m st code k -> does n m st code (and_then c k).
Proof. intros Hc Hk. eapply does_bind; [done|]. intros a Ha. destruct (negb _); [by apply does_ret|done]. Qed.
Lemma does_and_ok c k : does n m st code c -> does n m st code k -> does n m st code (and_ok c k).
Proof. intros Hc Hk. eapply does_bind; [done|]. intros a Ha. destruct (negb _); [by apply does_ret|done]. Qed.

Lemma code_of r : In r [0; SUCCESS; SERVER_JOB_LIMIT_REACHED; QUEUE_JOB_LIMIT_REACHED; SERVER_USER_LIMIT_REACHED;
  SERVER_GROUP_LIMIT_REACHED; QUEUE_USER_LIMIT_REACHED; QUEUE_GROUP_LIMIT_REACHED; CROSS_DED_TIME_BOUNDRY;
  SCHD_ERROR; NOT_ENOUGH_NODES_AVAIL; 1; 2] -> code r.
Proof.
  intros Hr. repeat (destruct Hr as [<-|Hr]; [by split; [vm_compute|intros Hs; vm_compute in Hs]|]). done.
Qed.

Lemma does_check_nodes p : (p < n)%nat -> does n m st code (check_nodes cstat rescquery_answer p).
Proof using Hlb Hrr.
  intros Hp. unfold check_nodes. eapply does_bind; [by apply does_get_job|]. intros j Hj.
  destruct (find_resource_req _ _) as [q|] eqn:Eq.
  - destruct (cj_nodes _ _ Hj q Eq) as [s Hs]. rewrite Hs. eapply does_bind; [apply (does_lift n m st (Some s) any); by exists s|].
    intros s' _. destruct (negb _); [apply does_ret, code_of; in_list|].
    eapply (does_bind n m st _ _ any).
    { unfold pbs_rescquery. eapply does_bind; [apply does_get|]. intros w _. destruct (rescquery_answer _) as [rc av].
      eapply does_bind; [apply does_tell|]. intros _ _. by apply does_ret. }
    intros [rc av] _. destruct (negb _); [apply does_ret, code_of; in_list|].
    eapply (does_bind n m st _ _ any); [|intros _ _; apply does_ret, code_of; destruct (0 <? av); in_list].
    destruct (av <? 0); [|by apply does_ret]. apply does_upd_job; [done|]. intros j' []. by split.
  - eapply does_bind; [apply does_get|]. intros w Hw. apply does_lift. unfold check_node_availability. rewrite Hlb, Hrr.
    exists 0. split; [done|]. apply code_of. in_list.
Qed.

Lemma check_resources_code names : forall i rs l, 0 <= i -> i + zlen names <= 3 -> code (check_resources names i rs l).
Proof.
  induction names as [|nm names IH]; intros i rs l Hi Hb; simpl; [apply code_of; in_list|].
  rewrite zlen_cons in Hb. pose proof (zlen_nonneg names).
  assert (code i) by (apply code_of; assert (i = 0 \/ i = 1 \/ i = 2) as [->|[->| ->]] by lia; in_list).
  destruct (find_resource rs nm), (find_resource_req l nm); try (apply IH; lia).
  destruct (negb _ && _); [done|apply IH; lia].
Qed.

Lemma does_limit (user : bool) (lim : sched -> Z) (sel : sched -> option (list ptr)) u c :
  (forall w, calm n m st w -> valid n (default [] (sel w))) -> is_Some u ->
  In c [SERVER_USER_LIMIT_REACHED; SERVER_GROUP_LIMIT_REACHED; QUEUE_USER_LIMIT_REACHED; QUEUE_GROUP_LIMIT_REACHED] ->
  does n m st code (pure_check (fun w =>
    under_limit (lim w) ((if user then count_by_user else count_by_group) (w_jobs w) (sel w) u) c)).
Proof.
  intros Hsel Hu Hc. apply does_pure_check. intros w Hw.
  destruct (under_limit_total (lim w) _ c (count_total user w (sel w) u Hw (Hsel w Hw) Hu)) as (r & E & Hr).
  exists r. split; [done|]. apply code_of. destruct Hr as [->| ->]; [in_list|].
  destruct Hc as [<-|[<-|[<-|[<-|[]]]]]; in_list.
Qed.

Lemma does_is_ok q p : (p < n)%nat -> (q < m)%nat ->
  does n m st code (is_ok_to_run_job conf cstat atof rescquery_answer q p).
Proof using Hlb Hrr.
  intros Hp Hq. unfold is_ok_to_run_job. eapply does_bind; [by apply does_get_job|]. intros j Hj.
  eapply does_bind; [by apply does_get_queue|]. intros x Hx.
  assert (code SUCCESS) as Hs by (apply code_of; in_list).
  repeat apply does_and_then; [| | | | | | | |by apply does_check_nodes|repeat apply does_and_ok].
  - apply does_pure_check. intros w Hw. eexists. split; [done|]. apply code_of. unfold check_server_max_run.
    repeat case_match; in_list.
  - apply (does_limit true (fun w => max_user_run (sinfo w)) (fun w => running_jobs (sinfo w)) (account j));
      [intros w Hw; apply Hw|apply Hj|in_list].
  - apply (does_limit false (fun w => max_group_run (sinfo w)) (fun w => running_jobs (sinfo w)) (group j));
      [intros w Hw; apply Hw|apply Hj|in_list].
  - apply does_ret, code_of. unfold check_queue_max_run. repeat case_match; in_list.
  - apply (does_limit true (fun _ => q_max_user_run x) (fun _ => q_running_jobs x) (account j));
      [intros w Hw; apply Hx|apply Hj|in_list].
  - apply (does_limit false (fun _ => q_max_group_run x) (fun _ => q_running_jobs x) (group j));
      [intros w Hw; apply Hx|apply Hj|in_list].
  - apply does_ret, code_of. unfold check_ded_time_boundry. repeat case_match; in_list.
  - apply does_pure_check. intros w Hw. eexists. split; [done|]. destruct (ca_starving _ _ _ _ Hw) as [-> _].
    unfold code, check_starvation. destruct st as [s|]; [|by split].
    destruct (decide _); [by split|split; [by vm_compute|by eexists]].
  - apply does_ret, check_resources_code; [lia|by vm_compute].
  - apply does_pure_check. intros w Hw. eexists. split; [done|]. apply check_resources_code; [lia|by vm_compute].
  - apply does_pure_check. intros w Hw. unfold check_token_utilization. rewrite (cj_tokens _ _ Hj). by eexists.
  - by apply does_ret.
Qed.

Lemma filter_pairs (f : job_info -> bool) w ps :
  calm n m st w -> valid n ps ->
  exists js, mapM (fun p => j ← w_jobs w !! p; Some (p, j)) ps = Some js
    /\ valid n ((List.filter (fun pj => f (snd pj)) js).*1).
Proof.
  intros Hw Hps. induction Hps as [|p ps Hp Hps (js & E & Hjs)]; [exists []; split; [done|constructor]|].
  destruct (lookup_lt_is_Some_2 (w_jobs w) p) as [j Hj]; [by rewrite (ca_jobs _ _ _ _ Hw)|].
  exists ((p, j) :: js). simpl. rewrite Hj. cbn [mbind option_bind]. rewrite E. simpl. split; [done|].
  destruct (f j); [|done]. by constructor.
Qed.

Lemma job_filter_total w arr size f :
  calm n m st w -> valid n (default [] arr) -> size = zlen (default [] arr) ->
  exists r, job_filter (w_jobs w) arr size f = Some r /\ valid n (default [] r).
Proof.
  intros Hw Ha ->. unfold job_filter. destruct (negb _); [exists None; split; [done|constructor]|].
  assert (zlen (default [] arr) = default 0 (zlen <$> arr)) as El by by destruct arr.
  rewrite <- El, Z.ltb_irrefl, take_ge by (unfold zlen; lia).
  destruct (filter_pairs f w (default [] arr) Hw Ha) as (js & E & Hjs). rewrite E. cbn [mbind option_bind].
  destruct (negb _); [exists None; split; [done|constructor]|]. eauto.
Qed.

Lemma does_upd_server f :
  (forall s, jobs (f s) = jobs s /\ sc_total (sc (f s)) = sc_total (sc s)
     /\ (valid n (default [] (running_jobs s)) -> valid n (default [] (running_jobs (f s))))) ->
  does n m st any (upd_server f).
Proof.
  intros Hf w Hw. eexists tt, _. split; [done|]. split; [|done].
  destruct (Hf (sinfo w)) as (E1 & E2 & E3), Hw. split; simpl; rewrite ?E1, ?E2; auto.
Qed.

Lemma does_job_was_run q p : (p < n)%nat -> (q < m)%nat -> does n m st any (job_was_run cstat q p None).
Proof using Hfs.
  intros Hp Hq. unfold job_was_run. eapply does_bind; [by apply does_get_job|]. intros j Hj. simpl.
  eapply (does_bind n m st _ _ any); [by apply does_ret|]. intros _ _.
  eapply does_bind; [apply does_get|]. intros w _.
  eapply (does_bind n m st _ _ any); [destruct (_ && _); [|by apply does_ret]; apply does_upd_job; [done|]; intros j' []; by split|].
  intros _ _. eapply (does_bind n m st _ _ any).
  { unfold update_server_on_run. eapply does_bind; [by apply does_get_job|]. intros j1 _. by apply does_upd_server. }
  intros _ _. eapply (does_bind n m st _ _ any).
  { unfold update_queue_on_run. eapply does_bind; [by apply does_get_job|]. intros j1 _. apply does_upd_queue; [done|].
    intros x []. by split. }
  intros _ _. eapply (does_bind n m st _ _ any); [unfold update_job_on_run; apply does_upd_job; [done|]; intros j' []; by split|].
  intros _ _. rewrite Hfs. eapply (does_bind n m st _ _ any); [by apply does_ret|]. intros _ _.
  unfold refresh_running. eapply does_bind; [apply does_get|]. intros w1 Hw1.
  eapply does_bind; [apply does_lift, (job_filter_total w1 (Some (jobs (sinfo w1)))); [done|apply Hw1|apply Hw1]|]. intros r1 Hr1.
  eapply does_bind; [by apply does_upd_server|]. intros _ _.
  eapply does_bind; [by apply does_get_queue|]. intros x Hx.
  eapply does_bind; [apply does_lift, (job_filter_total w1 (q_jobs x)); [done|apply Hx|apply Hx]|]. intros r2 Hr2.
  apply does_upd_queue; [done|]. intros y []. by split.
Qed.

Lemma does_run q p : (p < n)%nat -> (q < m)%nat ->
  does n m st any (run_update_job cstat timebuf runjob_answer geterrmsg q p).
Proof using Hfs Hlb Hrr.
  intros Hp Hq. unfold run_update_job. eapply does_bind; [by apply does_get_job|]. intros j Hj.
  eapply does_bind; [apply does_get|]. intros w _. rewrite Hlb, Hrr. simpl.
  eapply (does_bind n m st _ _ (fun b => b = None)); [by apply does_ret|]. intros best ->.
  eapply (does_bind n m st _ _ any); [by apply does_ret|]. intros name _.
  eapply does_bind; [by apply does_comment|]. intros _ _.
  eapply (does_bind n m st _ _ any).
  { unfold pbs_runjob. eapply does_bind; [apply does_get|]. intros w1 _. eapply does_bind; [apply does_tell|].
    intros _ _. by apply does_ret. }
  intros ret _. eapply (does_bind n m st _ _ any); [|intros _ _; by apply does_ret].
  destruct (ret =? 0); [by apply does_job_was_run|]. eapply does_bind; [apply does_get|]. intros w1 _.
  eapply does_bind; [by apply does_comment|]. intros _ _. by apply does_ret.
Qed.

Lemma translate_total w c :
  calm n m st w -> code c -> is_Some (translate_job_fail_code w c).
Proof.
  intros Hw [H0 Hs]. unfold translate_job_fail_code.
  destruct (Z.ltb_spec c num_res); [destruct (Z.ltb_spec c 0); [lia|by eexists]|].
  repeat match goal with
  | |- is_Some (if ?c =? JOB_STARVING then _ else _) => destruct (Z.eqb_spec c JOB_STARVING) as [E|]
  | |- is_Some (if ?b then _ else _) => destruct b; [by eexists|]
  | |- is_Some (Some _) => by eexists
  end.
  destruct (Hs E) as [s Es]. destruct (ca_starving _ _ _ _ Hw) as [-> Hlt]. rewrite Es. cbn [mbind option_bind].
  destruct (lookup_lt_is_Some_2 (w_jobs w) s) as [j Hj]; [rewrite (ca_jobs _ _ _ _ Hw); auto|]. rewrite Hj. cbn [mbind option_bind].
  pose proof (Forall_lookup_1 _ _ _ _ (ca_job _ _ _ _ Hw) Hj) as [_ _ _ _ _ Hn].
  rewrite (proj2 (Z.leb_gt _ _)); [by eexists|]. rewrite !zlen_app.
  change (zlen (str "Draining system to allow ")) with 25. change (zlen (str " to run")) with 7. unfold MAX_LOG_SIZE. lia.
Qed.

Lemma does_cant_run p r : (p < n)%nat -> code r -> does n m st any (job_cant_run cstat p r).
Proof.
  intros Hp Hr. unfold job_cant_run. eapply does_bind; [by apply does_get_job|]. intros j Hj.
  eapply (does_bind n m st _ _ any); [destruct (can_never_run j); [apply does_tell|by apply does_ret]|]. intros _ _.
  eapply does_bind; [apply does_upd_job; [done|]; intros j' []; by split|]. intros _ _.
  eapply does_bind; [apply does_get|]. intros w Hw. destruct (translate_total w r Hw Hr) as [c Ec].
  eapply (does_bind n m st _ _ any); [apply does_lift; by exists c|]. intros c' _.
  eapply (does_bind n m st _ _ any).
  { destruct c' as [c'|]; [|by apply does_ret]. eapply does_bind; [by apply does_comment|]. intros _ _. by apply does_ret. }
  intros _ _. destruct (_ && _); [|by apply does_ret]. eapply does_bind; [apply does_get_queue, Hj|]. intros x Hx.
  unfold update_jobs_cant_run. destruct (q_jobs x) as [ps|] eqn:Ep; [|by apply does_ret].
  destruct (index_of p ps) as [i|]; [|by apply does_ret]. simpl.
  destruct (Z.ltb_spec (Z.of_nat i + 1) 0); [lia|]. apply does_mark.
  pose proof (cq_jobs _ _ Hx) as Hv. rewrite Ep in Hv. by apply Forall_drop.
Qed.

Lemma does_consider p : (p < n)%nat ->
  does n m st any (consider_job conf cstat atof timebuf runjob_answer rescquery_answer geterrmsg p).
Proof using Hfs Hlb Hrr.
  intros Hp. unfold consider_job. eapply does_bind; [by apply does_neednodes|]. intros _ _.
  eapply does_bind; [by apply does_get_job|]. intros j Hj.
  eapply does_bind; [apply does_is_ok; [done|apply Hj]|]. intros r Hr.
  destruct (r =? SUCCESS); [|by apply does_cant_run].
  eapply does_bind; [apply does_run; [done|apply Hj]|]. intros _ _. by apply does_ret.
Qed.

(** ** Running out of jobs *)

Lemma moved_trans w1 w2 w3 : moved w1 w2 -> moved w2 w3 -> moved w1 w3.
Proof. intros [] []. split; try congruence. auto. Qed.

Lemma calm_moved w w' : moved w w' -> calm n m st w -> calm n m st w'.
Proof. intros [E1 E2 E3 E4 E5 E6 E7] []. split; by rewrite ?E1, ?E2, ?E3, ?E6. Qed.

Lemma job_total w p : calm n m st w -> (p < n)%nat -> exists j, w_jobs w !! p = Some j.
Proof. intros Hw Hp. apply lookup_lt_is_Some_2. by rewrite (ca_jobs _ _ _ _ Hw). Qed.

Lemma find_from_total w wanted ps : calm n m st w -> valid n ps -> forall i, is_Some (find_from (w_jobs w) wanted ps i).
Proof.
  intros Hw Hps. induction Hps as [|p ps Hp Hps IH]; intros i; simpl; [by eexists|].
  destruct (job_total w p Hw Hp) as [j ->]. simpl. destruct (wanted j); [by eexists|apply IH].
Qed.

Lemma search_from_total w wanted arr i :
  calm n m st w -> valid n arr -> 0 <= i <= zlen arr -> is_Some (search_from (w_jobs w) wanted arr i).
Proof.
  intros Hw Ha Hi. unfold search_from. rewrite !(proj2 (Z.leb_le _ _)) by lia. simpl.
  by apply find_from_total, Forall_drop.
Qed.

(** In an array: the place of the last job is inside it or just before it. *)
Definition array_ok (w : sched) : Prop := -1 <= last_job w < zlen (jobs (sinfo w)) \/ last_job w = -1.
Definition array_left (w : sched) : Z := zlen (jobs (sinfo w)) - last_job w.

Lemma next_in_array_total wanted w :
  calm n m st w -> array_ok w ->
  exists r w', next_in_array wanted w = Ret r w' /\ moved w w'
    /\ forall p, r = Some p -> (p < n)%nat /\ array_ok w' /\ array_left w' < array_left w.
Proof.
  intros Hw Ho. pose proof (zlen_nonneg (jobs (sinfo w))).
  destruct (search_from_total w wanted (jobs (sinfo w)) (last_job w + 1) Hw (ca_array _ _ _ _ Hw)) as [[r i] E];
    [unfold array_ok in Ho; lia|].
  assert (next_in_array wanted w = Ret r (set_last_job i w)) as En.
  { unfold next_in_array, st_bind, st_get. rewrite E. done. }
  exists r, (set_last_job i w). split; [done|]. apply next_in_array_spec in En as (Hm & Hi & Hp). split; [done|].
  intros p Hr. destruct (Hp p Hr) as (Hlt & Hin & _). split; [exact (valid_lookup _ _ _ _ (ca_array _ _ _ _ Hw) Hin)|].
  unfold array_ok, array_left. simpl in *. split; [left; unfold array_ok in Ho; lia|lia].
Qed.

(** By queue: the places that are left are those of the queues to come. *)
Definition queue_len (w : sched) (q : ptr) : Z := zlen (default [] (w_queues w !! q ≫= q_jobs)).
Definition places (w : sched) : list ptr -> Z :=
  fix go qs := match qs with [] => 0 | q :: qs' => queue_len w q + 1 + go qs' end.
Definition ahead (w : sched) : list ptr := drop (Z.to_nat (last_queue w)) (queues (sinfo w)).
Definition queue_ok (w : sched) : Prop :=
  valid m (queues (sinfo w)) /\ 0 <= last_queue w /\ -1 <= last_job w
  /\ match ahead w with q :: _ => last_job w < queue_len w q \/ last_job w = -1 | [] => True end.
Definition queue_left (w : sched) : Z := places w (ahead w) - last_job w.

Lemma places_nonneg w qs : 0 <= places w qs.
Proof.
  induction qs as [|q qs IH]; simpl; [lia|].
  pose proof (zlen_nonneg (default [] (w_queues w !! q ≫= q_jobs))). unfold queue_len. lia.
Qed.

Lemma by_queue_loop_total w qs : calm n m st w -> valid m qs -> forall k i,
  0 <= i -> (match qs with q :: _ => i <= queue_len w q | [] => True end) ->
  exists q k' i', by_queue_loop w qs k i = Some (q, k', i') /\ forall q0, q = Some q0 ->
    k <= k' /\ 0 <= i' < queue_len w q0 /\ (exists qs', drop (Z.to_nat (k' - k)) qs = q0 :: qs')
    /\ places w (drop (Z.to_nat (k' - k)) qs) - i' <= places w qs - i.
Proof.
  intros Hw Hqs. induction Hqs as [|q qs Hq Hqs IH]; intros k i Hi Hle; simpl.
  { eexists _, _, _. split; [done|]. by intros q0 [=]. }
  destruct (lookup_lt_is_Some_2 (w_queues w) q) as [x Hx]; [by rewrite (ca_queues _ _ _ _ Hw)|].
  rewrite Hx. cbn [mbind option_bind]. pose proof (Forall_lookup_1 _ _ _ _ (ca_queue _ _ _ _ Hw) Hx) as Hcx.
  assert (queue_len w q = zlen (default [] (q_jobs x))) as El by (unfold queue_len; by rewrite Hx).
  assert (Hnext : exists q0 k' i', by_queue_loop w qs (k + 1) 0 = Some (q0, k', i') /\ forall q1, q0 = Some q1 ->
    k <= k' /\ 0 <= i' < queue_len w q1 /\ (exists qs', drop (Z.to_nat (k' - k)) (q :: qs) = q1 :: qs')
    /\ places w (drop (Z.to_nat (k' - k)) (q :: qs)) - i' <= places w (q :: qs) - i).
  { destruct (IH (k + 1) 0) as (q0 & k' & i' & E & Hp); [lia| |].
    { destruct qs as [|q1 qs]; [done|]. unfold queue_len. apply zlen_nonneg. }
    exists q0, k', i'. split; [done|]. intros q1 Hq1. destruct (Hp q1 Hq1) as (H1 & H2 & H3 & H4).
    replace (Z.to_nat (k' - k)) with (Datatypes.S (Z.to_nat (k' - (k + 1)))) by lia. simpl.
    split; [lia|]. split; [done|]. split; [done|]. lia. }
  destruct (q_jobs x) as [arr|] eqn:Ea; [|exact Hnext].
  destruct (search_from_total w (fun j => negb (can_not_run j)) arr i Hw) as [[r i'] E];
    [by pose proof (cq_jobs _ _ Hcx) as Hv; rewrite Ea in Hv|simpl in El; lia|].
  rewrite E. cbn [mbind option_bind]. apply search_from_spec in E as (H1 & H2 & H3).
  destruct r as [p|]; [|exact Hnext]. eexists _, _, _. split; [done|]. intros q0 [= <-].
  rewrite Z.sub_diag. simpl in *. split; [lia|]. split; [lia|]. split; [by eexists|]. lia.
Qed.

Lemma next_by_queue_total w :
  calm n m st w -> queue_ok w ->
  exists r w', next_by_queue cstat w = Ret r w' /\ moved w w'
    /\ forall p, r = Some p -> (p < n)%nat /\ queue_ok w' /\ queue_left w' < queue_left w /\ 0 <= queue_left w'.
Proof using Hfs.
  intros Hw (Hv & Hlq & Hlj & Hat). set (w1 := set_last_job (last_job w + 1) w).
  assert (calm n m st w1) as Hw1 by (by apply (calm_moved w)).
  destruct (by_queue_loop_total w1 (ahead w) Hw1 (Forall_drop _ _ _ Hv) 0 (last_job w + 1)) as (q & k & i & E & Hq); [lia| |].
  { destruct (ahead w) as [|q qs]; [done|]. pose proof (zlen_nonneg (default [] (w_queues w !! q ≫= q_jobs))).
    unfold queue_len in *. simpl. lia. }
  set (w2 := set_last_job i (set_last_queue (last_queue w1 + k) w1)).
  assert (next_by_queue cstat w = (match q with
    | None => st_ret None
    | Some q => let* x := get_queue q in
        if fair_share cstat then st_lift (extract_fairshare w1 (q_jobs x))
        else if i <? sc_total (q_sc x) then let* arr := st_lift (q_jobs x) in st_lift (nth_job arr i)
        else st_ret None end)%st w2) as ->.
  { unfold next_by_queue, st_bind at 1, st_modify at 1. fold w1. unfold st_bind at 1, st_get at 1.
    rewrite (proj2 (Z.ltb_ge _ _)) by done. change (by_queue_loop w1 _ 0 _) with (by_queue_loop w1 (ahead w) 0 (last_job w + 1)).
    rewrite E. done. }
  destruct q as [q|]; [|eexists _, w2; split; [done|]; split; [by split|by intros p [=]]].
  destruct (Hq q eq_refl) as (H1 & H2 & (qs' & H3) & H4). rewrite Z.sub_0_r in *.
  change (queue_len w1) with (queue_len w) in *. change (places w1) with (places w) in H4.
  assert (q < m)%nat as Hqm.
  { assert (q ∈ ahead w) as Hin by (rewrite <- (take_drop (Z.to_nat k) (ahead w)), H3; apply elem_of_app; right; left).
    apply list_elem_of_lookup in Hin as [j Hj]. exact (valid_lookup _ _ _ _ (Forall_drop _ _ _ Hv) Hj). }
  destruct (lookup_lt_is_Some_2 (w_queues w) q) as [x Hx]; [by rewrite (ca_queues _ _ _ _ Hw)|].
  assert (get_queue q w2 = Ret x w2) as Eg.
  { unfold get_queue, st_bind, st_get. change (w_queues w2) with (w_queues w). by rewrite Hx. }
  rewrite (st_bind_ret _ _ _ _ _ Eg), Hfs. pose proof (Forall_lookup_1 _ _ _ _ (ca_queue _ _ _ _ Hw) Hx) as Hcx.
  assert (queue_len w q = zlen (default [] (q_jobs x))) as El by (unfold queue_len; by rewrite Hx).
  rewrite (cq_total _ _ Hcx), <- El, (proj2 (Z.ltb_lt _ _)) by lia. pose proof (cq_jobs _ _ Hcx) as Hva.
  destruct (q_jobs x) as [arr|]; [|simpl in El; rewrite zlen_nil in El; lia]. simpl in El, Hva.
  destruct (lookup_lt_is_Some_2 arr (Z.to_nat i)) as [p Hp]; [unfold zlen in El; lia|].
  exists (Some p), w2. split.
  { unfold st_bind, st_lift at 1, st_ret, nth_job. rewrite !(proj2 (Z.leb_le _ _)) by lia. by rewrite Hp. }
  split; [by split|]. intros p' [= <-]. split; [exact (valid_lookup _ _ _ _ Hva Hp)|].
  assert (ahead w2 = drop (Z.to_nat k) (ahead w)) as Eah.
  { unfold ahead. simpl. rewrite drop_drop. f_equal. lia. }
  unfold queue_ok, queue_left. rewrite Eah, H3. simpl. change (queue_len w2) with (queue_len w). change (places w2) with (places w).
  split; [split; [done|]; split; [lia|]; split; [lia|left; lia]|].
  rewrite H3 in H4. simpl in H4. pose proof (places_nonneg w qs'). lia.
Qed.

(** Round robin: [K] bounds the arrays.  The place moves on by one with every queue that is
    tried, and no array is read behind its end. *)
Definition rr_pos (w : sched) : Z := last_job w * num_queues w + last_queue w.
Definition rr_next (w : sched) (k : nat) : Z := last_job w + (if Z.of_nat k <=? last_queue w then 1 else 0).
Definition rr_array (K : Z) (w : sched) (k : nat) (a : option (list ptr)) : Prop :=
  match a with Some arr => valid n arr /\ rr_next w k <= zlen arr <= K | None => True end.
Record rr_ok (K : Z) (w : sched) : Prop := {
  rr_len : zlen (cjobs w) = num_queues w;
  rr_queue : -1 <= last_queue w < num_queues w;
  rr_job : 0 <= last_job w;
  rr_arrays : forall k a, cjobs w !! k = Some a -> rr_array K w k a
}.
Definition rr_left (K : Z) (w : sched) : Z := (K + 1) * num_queues w - rr_pos w.

(** The next queue is tried. *)
Definition rr_step (w : sched) : sched :=
  if last_queue w =? num_queues w - 1 then set_last_job (last_job w + 1) (set_last_queue 0 w)
  else set_last_queue (last_queue w + 1) w.

Lemma rr_step_spec K w :
  rr_ok K w -> 0 < num_queues w ->
  let w1 := rr_step w in
  moved w w1 /\ cjobs w1 = cjobs w /\ 0 <= last_queue w1 < num_queues w /\ 0 <= last_job w1
  /\ rr_pos w1 = rr_pos w + 1
  /\ (forall k a, cjobs w !! k = Some a -> k <> Z.to_nat (last_queue w1) -> rr_array K w1 k a)
  /\ (forall arr, cjobs w !! Z.to_nat (last_queue w1) = Some (Some arr) -> valid n arr /\ last_job w1 <= zlen arr <= K).
Proof.
  intros [Hl Hq Hj Ha] Hn w1.
  assert (Hw1 : moved w w1 /\ cjobs w1 = cjobs w /\ num_queues w1 = num_queues w) by (unfold w1, rr_step; destruct (_ =? _); by split).
  destruct Hw1 as (Hm & Ec & En).
  assert (Hp : 0 <= last_queue w1 < num_queues w /\ 0 <= last_job w1 /\ rr_pos w1 = rr_pos w + 1
    /\ (forall k : nat, Z.of_nat k < num_queues w -> k <> Z.to_nat (last_queue w1) -> rr_next w1 k = rr_next w k)
    /\ rr_next w (Z.to_nat (last_queue w1)) = last_job w1).
  { unfold rr_pos, rr_next. rewrite En. unfold w1, rr_step. destruct (Z.eqb_spec (last_queue w) (num_queues w - 1)); simpl;
      (split; [lia|]; split; [lia|]; split; [lia|]; split;
       [intros k Hk Hne|]; repeat match goal with |- context [?a <=? ?b] => destruct (Z.leb_spec a b) end; lia). }
  destruct Hp as (H1 & H2 & H3 & H4 & H5). split; [done|]. split; [done|]. split; [done|]. split; [done|]. split; [done|]. split.
  - intros k a Hk Hne. pose proof (Ha k a Hk) as Hr. unfold rr_array in *. destruct a as [arr|]; [|done].
    rewrite H4; [done| |done]. apply lookup_lt_Some in Hk. unfold zlen in Hl. lia.
  - intros arr Hk. pose proof (Ha _ _ Hk) as Hr. simpl in Hr. by rewrite H5 in Hr.
Qed.

Lemma num_queues_moved w w' : moved w w' -> num_queues w' = num_queues w.
Proof. intros []. unfold num_queues. congruence. Qed.

Lemma drop_moved w k : moved w (set_cjobs (<[k := None]> (cjobs w)) w).
Proof.
  split; try done. simpl. intros arr [i Hi]%list_elem_of_lookup. rewrite list_lookup_insert in Hi.
  case_decide; [done|]. by eapply list_elem_of_lookup_2.
Qed.

(** After the step the array of the queue is kept or dropped. *)
Lemma rr_step_ok K w w' b :
  rr_ok K w -> 0 < num_queues w -> moved w w' ->
  last_queue w' = last_queue (rr_step w) -> last_job w' = last_job (rr_step w) ->
  cjobs w' = <[Z.to_nat (last_queue (rr_step w)) := b]> (cjobs w) ->
  rr_array K (rr_step w) (Z.to_nat (last_queue (rr_step w))) b -> rr_ok K w'.
Proof.
  intros Ho Hn Hm Eq Ej Ecj Hb. destruct (rr_step_spec K w Ho Hn) as (_ & _ & H1 & H2 & _ & H4 & _).
  split; rewrite ?(num_queues_moved w w'), ?Eq, ?Ej, ?Ecj by done; [|lia|done|].
  - unfold zlen. rewrite length_insert. apply Ho.
  - intros i c. rewrite list_lookup_insert. assert (rr_array K w' = rr_array K (rr_step w)) as ->.
    { unfold rr_array, rr_next. by rewrite Eq, Ej. }
    case_decide as Hd; [destruct Hd as [<- _]; by intros [= <-]|]. intros Hi. apply H4; [done|].
    intros ->. apply Hd. split; [done|]. by apply lookup_lt_Some in Hi.
Qed.

Definition rr_found (K : Z) (w : sched) (x : outcome sched (option ptr)) : Prop :=
  exists r w', x = Ret r w' /\ moved w w'
    /\ forall p, r = Some p -> (p < n)%nat /\ rr_ok K w' /\ rr_left K w' < rr_left K w /\ 0 <= rr_left K w'.

Lemma rr_loop_total K : forall k w, calm n m st w -> rr_ok K w -> 0 < num_queues w -> rr_found K w (rr_loop cstat k w).
Proof using Hfs.
  induction k as [|k IH]; intros w Hw Ho Hn; [exists None, w; split; [done|]; split; [by split|by intros p [=]]|].
  destruct (rr_step_spec K w Ho Hn) as (Hm & Ec & H1 & H2 & H3 & H4 & H5).
  pose proof (fun w' => rr_step_ok K w w') as Hok.
  assert (Hskip : forall w', moved w w' -> rr_ok K w' -> rr_pos w' = rr_pos w + 1 -> rr_found K w (rr_loop cstat k w')).
  { intros w' Hm' Ho' Hp'. destruct (IH w' (calm_moved _ _ Hm' Hw) Ho') as (r & w2 & E & Hm2 & Hr);
      [by rewrite (num_queues_moved w)|].
    exists r, w2. split; [done|]. split; [by eapply moved_trans|]. intros p Hp. destruct (Hr p Hp) as (? & ? & ? & ?).
    split; [done|]. split; [done|]. split; [|done]. unfold rr_left in *. rewrite (num_queues_moved w w') in * by done. lia. }
  simpl. rewrite (st_bind_ret _ _ w tt (rr_step w)) by done. set (w1 := rr_step w) in *.
  rewrite (st_bind_ret _ _ w1 w1 w1) by done. rewrite (proj2 (Z.leb_le _ _)) by lia.
  destruct (lookup_lt_is_Some_2 (cjobs w) (Z.to_nat (last_queue w1))) as [a Ha].
  { pose proof (rr_len _ _ Ho) as Hl. unfold zlen in Hl. lia. }
  rewrite Ec, Ha. rewrite (st_bind_ret _ _ w1 a w1) by done. destruct a as [arr|].
  2:{ apply Hskip; [done| |done]. apply (Hok w1 None); try done. by rewrite list_insert_id. }
  destruct (H5 arr Ha) as [Hv Hle]. unfold nth_job. rewrite !(proj2 (Z.leb_le _ _)) by lia. simpl.
  rewrite (st_bind_ret _ _ w1 (arr !! Z.to_nat (last_job w1)) w1) by done.
  destruct (arr !! Z.to_nat (last_job w1)) as [p|] eqn:Ep.
  - assert (rr_ok K w1) as Ho1.
    { apply (Hok w1 (Some arr)); try done; [by rewrite list_insert_id|]. split; [done|]. unfold rr_next.
      apply lookup_lt_Some in Ep. unfold zlen in *. rewrite (proj2 (Z.leb_le _ _)) by lia. lia. }
    rewrite Hfs. destruct (job_total w1 p (calm_moved _ _ Hm Hw) (valid_lookup _ _ _ _ Hv Ep)) as [j Hj]. rewrite Hj.
    cbn [mbind option_bind]. destruct (can_not_run j); [by apply Hskip|].
    exists (Some p), w1. split; [done|]. split; [done|]. intros p' [= <-]. split; [exact (valid_lookup _ _ _ _ Hv Ep)|].
    split; [done|]. apply lookup_lt_Some in Ep. unfold rr_left. rewrite (num_queues_moved w w1), H3 by done. split; [lia|].
    rewrite <- H3. unfold rr_pos. rewrite (num_queues_moved w w1) by done. unfold zlen in *. nia.
  - pose proof (moved_trans _ _ _ Hm (drop_moved w1 (Z.to_nat (last_queue w1)))) as Hm2.
    apply Hskip; [done| |done]. apply (Hok _ None); try done. simpl. by rewrite Ec.
Qed.

(** ** Considering a job does not move the places *)

Record framed (w w' : sched) : Prop := {
  fr_queue : last_queue w' = last_queue w; fr_job : last_job w' = last_job w; fr_cjobs : cjobs w' = cjobs w;
  fr_jobs : jobs (sinfo w') = jobs (sinfo w); fr_queues : queues (sinfo w') = queues (sinfo w);
  fr_arrays : q_jobs <$> w_queues w' = q_jobs <$> w_queues w
}.

#[local] Instance framed_preorder : PreOrder framed.
Proof. split; [by intros w|]. intros w1 w2 w3 [] []. split; congruence. Qed.

Lemma framed_quiet {A} (c : ST sched A) : keeps quiet c -> keeps framed c.
Proof. intros Hc w a w' E. destruct (Hc w a w' E) as [_ Eq Es Elq Elj Ecj _]. split; congruence. Qed.
Lemma framed_upd_server f : (forall s, jobs (f s) = jobs s /\ queues (f s) = queues s) -> keeps framed (upd_server f).
Proof. intros Hf. apply keeps_modify. intros w. destruct (Hf (sinfo w)). by split. Qed.
Lemma framed_upd_queue q f : (forall x, q_jobs (f x) = q_jobs x) -> keeps framed (upd_queue q f).
Proof.
  intros Hf w a w' (x & Hx & ->)%upd_queue_inv. split; try done. simpl. rewrite list_fmap_insert, Hf.
  apply list_insert_id. by rewrite list_lookup_fmap, Hx.
Qed.
Lemma framed_upd_job p f : keeps framed (upd_job p f).
Proof. apply keeps_upd_job. intros w j Hj. by split. Qed.
#[local] Hint Extern 1 (keeps framed (upd_server _)) => (by apply framed_upd_server) : sched.
#[local] Hint Extern 1 (keeps framed (upd_queue _ _)) => (by apply framed_upd_queue) : sched.
#[local] Hint Resolve framed_upd_job : sched.
#[local] Hint Extern 2 (keeps framed _) => (apply framed_quiet; solve [eauto 2 with sched]) : sched.

Lemma framed_run q p : keeps framed (run_update_job cstat timebuf runjob_answer geterrmsg q p).
Proof using Hfs Hlb Hrr.
  pose proof quiet_comment. pose proof (quiet_runjob runjob_answer).
  pose proof (quiet_best_node cstat). pose proof quiet_node_name. pose proof (quiet_raise_load cstat). pose proof quiet_usage.
  unfold run_update_job, job_was_run, update_server_on_run, update_queue_on_run, update_job_on_run, refresh_running.
  keeps_tac.
Qed.

Lemma framed_consider p :
  keeps framed (consider_job conf cstat atof timebuf runjob_answer rescquery_answer geterrmsg p).
Proof using Hfs Hlb Hrr.
  pose proof quiet_neednodes. pose proof (quiet_job_cant_run cstat). pose proof (quiet_is_ok conf cstat atof rescquery_answer).
  pose proof framed_run. unfold consider_job. keeps_tac.
Qed.

(** ** The cycle ends *)

(** The places of the policy in force, and how far they are from the end. *)
Definition place_ok (K : Z) (w : sched) : Prop :=
  if round_robin cstat then rr_ok K w
  else if strict_fifo cstat then array_ok w
  else if by_queue cstat then queue_ok w
  else array_ok w.
Definition left_over (K : Z) (w : sched) : Z :=
  if round_robin cstat then rr_left K w
  else if strict_fifo cstat then array_left w
  else if by_queue cstat then queue_left w
  else array_left w.

Lemma framed_rr K w w' : framed w w' -> rr_ok K w -> rr_ok K w'.
Proof.
  intros [Eq Ej Ec Ejs Eqs Ea] [H1 H2 H3 H4]. assert (num_queues w' = num_queues w) as En by (unfold num_queues; by rewrite Eqs).
  split; rewrite ?Ec, ?Eq, ?Ej, ?En; try done. unfold rr_array, rr_next in *. by rewrite Eq, Ej.
Qed.

Lemma framed_places K w w' : framed w w' -> place_ok K w -> place_ok K w' /\ left_over K w' = left_over K w.
Proof.
  intros Hf Ho. pose proof Hf as [Eq Ej Ec Ejs Eqs Ea].
  assert (forall q, queue_len w' q = queue_len w q) as El.
  { intros q. unfold queue_len. assert (q_jobs <$> w_queues w' !! q = q_jobs <$> w_queues w !! q) as E.
    { rewrite <- !list_lookup_fmap. by rewrite Ea. }
    destruct (w_queues w' !! q), (w_queues w !! q); simpl in *; congruence. }
  assert (forall qs, places w' qs = places w qs) as Ep by (induction qs as [|q qs IH]; simpl; [done|]; by rewrite El, IH).
  assert (num_queues w' = num_queues w) as En by (unfold num_queues; by rewrite Eqs).
  assert (ahead w' = ahead w) as Eah by (unfold ahead; by rewrite Eq, Eqs).
  unfold place_ok, left_over, array_ok, array_left, queue_ok, queue_left, rr_left, rr_pos in *.
  destruct (round_robin cstat), (strict_fifo cstat), (by_queue cstat);
    rewrite ?Eq, ?Ej, ?Ejs, ?Eqs, ?Eah, ?En, ?Ep in *; try done.
  1-4: split; [by apply (framed_rr K w)|done].
  split; [|done]. destruct (ahead w); [done|]. by rewrite El.
Qed.

Lemma next_job_total K w :
  calm n m st w -> place_ok K w ->
  exists r w', next_job cstat w = Ret r w' /\ moved w w'
    /\ forall p, r = Some p -> (p < n)%nat /\ place_ok K w' /\ left_over K w' < left_over K w /\ 0 <= left_over K w'.
Proof using Hfs.
  intros Hw Ho. unfold next_job, place_ok, left_over in *. rewrite (st_bind_ret _ _ w w w) by done.
  assert (Harr : forall wanted, array_ok w -> exists r w', next_in_array wanted w = Ret r w' /\ moved w w'
    /\ forall p, r = Some p -> (p < n)%nat /\ array_ok w' /\ array_left w' < array_left w /\ 0 <= array_left w').
  { intros wanted Ha. destruct (next_in_array_total wanted w Hw Ha) as (r & w' & E & Hm & Hp). exists r, w'.
    split; [done|]. split; [done|]. intros p Hr. destruct (Hp p Hr) as (? & H1 & ?). repeat (split; [done|]).
    unfold array_ok, array_left in *. pose proof (zlen_nonneg (jobs (sinfo w'))). lia. }
  destruct (round_robin cstat).
  - pose proof (zlen_nonneg (queues (sinfo w))). destruct (Z.to_nat (num_queues w)) eqn:En.
    { exists None, w. split; [done|]. split; [by split|by intros p [=]]. }
    rewrite <- En. apply rr_loop_total; [done|done|lia].
  - destruct (strict_fifo cstat); [by apply Harr|]. destruct (by_queue cstat); [|rewrite Hfs; by apply Harr].
    by apply next_by_queue_total.
Qed.

Lemma main_loop_total K : forall fuel w,
  calm n m st w -> place_ok K w -> (0 < fuel)%nat -> left_over K w < Z.of_nat fuel ->
  exists w', main_loop conf cstat atof timebuf runjob_answer rescquery_answer geterrmsg fuel w = Ret tt w'.
Proof using Hfs Hlb Hrr.
  induction fuel as [|fuel IH]; intros w Hw Ho Hf Hl; [lia|]. simpl.
  destruct (next_job_total K w Hw Ho) as (r & w1 & E & Hm & Hp). rewrite (st_bind_ret _ _ _ _ _ E).
  destruct r as [p|]; [|by eexists]. destruct (Hp p eq_refl) as (Hpn & Ho1 & Hlt & H0).
  destruct (does_consider p Hpn w1 (calm_moved _ _ Hm Hw)) as ([] & w2 & E2 & Hw2 & _).
  rewrite (st_bind_ret _ _ _ _ _ E2).
  destruct (framed_places K w1 w2 (framed_consider p _ _ _ E2) Ho1) as [Ho2 El]. apply IH; [done|done|lia|lia].
Qed.

Lemma queues_total w qs : calm n m st w -> valid m qs ->
  exists xs, mapM (w_queues w !!.) qs = Some xs /\ length xs = length qs /\ Forall (calm_queue n) xs.
Proof.
  intros Hw Hv. induction Hv as [|q qs Hq Hqs (xs & E & El & Hxs)]; [by exists []|].
  destruct (lookup_lt_is_Some_2 (w_queues w) q) as [x Hx]; [by rewrite (ca_queues _ _ _ _ Hw)|].
  exists (x :: xs). simpl. rewrite Hx. cbn [mbind option_bind]. rewrite E. simpl. split; [done|]. split; [by rewrite El|].
  constructor; [|done]. exact (Forall_lookup_1 _ _ _ _ (ca_queue _ _ _ _ Hw) Hx).
Qed.

(** The longest array. *)
Definition longest (xs : list queue_info) : Z := foldr (fun x K => Z.max (zlen (default [] (q_jobs x))) K) 0 xs.

Lemma longest_le xs k x : xs !! k = Some x -> zlen (default [] (q_jobs x)) <= longest xs.
Proof.
  revert k. induction xs as [|y xs IH]; intros [|k] Hk; simpl in *; simplify_eq; [lia|]. specialize (IH _ Hk). lia.
Qed.

Lemma init_places w :
  calm n m st w -> valid m (queues (sinfo w)) -> SIZEOF_POINTER * num_queues w <= ALLOC_MAX ->
  exists K w', next_job_init cstat w = Ret tt w' /\ calm n m st w' /\ place_ok K w'.
Proof using Hall.
  intros Hw Hv Hsz. unfold next_job_init, place_ok. rewrite (st_bind_ret _ _ w w w) by done.
  pose proof (zlen_nonneg (queues (sinfo w))). destruct (round_robin cstat).
  - rewrite alloc_ok by (unfold num_queues, SIZEOF_POINTER in *; lia). simpl.
    destruct (queues_total w _ Hw Hv) as (xs & E & El & Hxs). rewrite E, (st_bind_ret _ _ w xs w) by done.
    exists (longest xs). eexists. split; [done|]. split; [by destruct Hw; split|].
    split; simpl; [unfold zlen; rewrite length_fmap, El; done|unfold num_queues in *; simpl; lia|done|].
    intros k a. rewrite list_lookup_fmap. destruct (xs !! k) as [x|] eqn:Ex; [|done]. intros [= <-].
    pose proof (longest_le _ _ _ Ex) as HK. pose proof (cq_jobs _ _ (Forall_lookup_1 _ _ _ _ Hxs Ex)) as Hva.
    destruct (q_jobs x) as [arr|]; [|done]. split; [done|]. unfold rr_next. simpl in *.
    rewrite (proj2 (Z.leb_gt _ _)) by lia. pose proof (zlen_nonneg arr). lia.
  - exists 0. destruct (strict_fifo cstat); simpl.
    { eexists. split; [done|]. split; [by destruct Hw; split|by right]. }
    destruct (by_queue cstat); eexists; (split; [done|]; split; [by destruct Hw; split|]); [|by right].
    split; [done|]. simpl. split; [done|]. split; [done|]. destruct (ahead _); [done|by right].
Qed.

(** ** Sorting comes back *)

(** A key that needs no fair share tree, and the keys of a configuration: a single key, or
    several up to [NO_SORT]. *)
Definition plain (k : sort_type) : Prop := k <> NO_SORT /\ k <> MULTI_SORT /\ k <> FAIR_SHARE.
Definition sort_ok (keys : list sort_type) : Prop :=
  match keys with
  | [] => False
  | NO_SORT :: _ => True
  | MULTI_SORT :: ks => exists pre post, ks = pre ++ NO_SORT :: post /\ Forall plain pre
  | k :: _ => plain k
  end.

Lemma key_cmp_total groups k j1 j2 : plain k -> is_Some (key_cmp groups k j1 j2).
Proof. intros (? & ? & ?). destruct k; try done; by eexists. Qed.

Lemma multi_sort_total groups pre post j1 j2 :
  Forall plain pre -> forall i, is_Some (multi_sort i groups (pre ++ NO_SORT :: post) j1 j2).
Proof.
  induction 1 as [|k pre Hk Hpre IH]; intros [|i]; simpl; [by eexists..|].
  destruct (key_cmp_total groups k j1 j2 Hk) as [r Hr]. destruct k; try (by eexists); rewrite Hr; simpl;
    destruct (r =? 0); by eauto.
Qed.

Lemma cmp_sort_total groups j1 j2 :
  sort_ok (sort_by cstat) -> hd_error (sort_by cstat) <> Some NO_SORT -> is_Some (cmp_sort cstat groups j1 j2).
Proof.
  intros Hs Hn. unfold cmp_sort. destruct (_ <? _); [by eexists|]. destruct (_ <? _); [by eexists|].
  destruct (sort_by cstat) as [|[] ks]; try done; try (by eexists).
  - by destruct Hs as (_ & _ & ?).
  - destruct Hs as (pre & post & -> & Hp). by apply multi_sort_total.
Qed.

Lemma pairs_total {A} (heap : list A) ps : valid (length heap) ps ->
  exists l, mapM (fun p => j ← heap !! p; Some (p, j)) ps = Some l.
Proof.
  induction 1 as [|p ps Hp _ (l & E)]; [by exists []|]. destruct (lookup_lt_is_Some_2 heap p Hp) as [j Hj].
  exists ((p, j) :: l). simpl. rewrite Hj. cbn [mbind option_bind]. by rewrite E.
Qed.

Lemma sort_jobs_total heap cmp arr :
  (forall a b, is_Some (cmp a b)) -> valid (length heap) arr ->
  exists arr', sort_jobs qsort heap cmp arr (zlen arr) = Some arr' /\ arr' ≡ₚ arr.
Proof using Hqsort.
  intros Hc Hv. assert (exists arr', sort_jobs qsort heap cmp arr (zlen arr) = Some arr') as (arr' & E).
  { unfold sort_jobs. rewrite Z.ltb_irrefl. destruct (pairs_total heap (take (Z.to_nat (zlen arr)) arr)) as [l ->];
      [by apply Forall_take|]. cbn [mbind option_bind]. rewrite (proj2 (List.forallb_forall _ _)); [by eexists|].
    intros x _. apply List.forallb_forall. intros y _. by apply bool_decide_eq_true. }
  exists arr'. split; [done|]. by eapply (sort_jobs_perm qsort Hqsort).
Qed.

Lemma valid_perm k ps ps' : ps' ≡ₚ ps -> valid k ps -> valid k ps'.
Proof. intros Hp. unfold valid. by rewrite Hp. Qed.

Lemma does_set_queue_jobs s q x arr w :
  calm n m s w -> w_queues w !! q = Some x -> arr ≡ₚ default [] (q_jobs x) ->
  exists w', upd_queue q (set_q_jobs (Some arr)) w = Ret tt w' /\ calm n m s w'.
Proof.
  intros Hw Hx Ha. pose proof (Forall_lookup_1 _ _ _ _ (ca_queue _ _ _ _ Hw) Hx) as [C1 C2 C3 C4].
  eexists. split; [unfold upd_queue, get_queue, st_bind, st_get; by rewrite Hx|].
  destruct Hw. split; simpl; try done; [by rewrite length_insert|]. apply Forall_insert; [done|].
  split; simpl; try done; [by eapply valid_perm|]. rewrite C3. unfold zlen. by rewrite Ha.
Qed.

Lemma does_each_queue s qs : sort_ok (sort_by cstat) -> hd_error (sort_by cstat) <> Some NO_SORT ->
  valid m qs -> does n m s any (sort_each_queue cstat qsort qs).
Proof using Hqsort.
  intros Hs Hn Hv. induction Hv as [|q qs Hq Hqs IH]; simpl; [by apply does_ret|]. intros w Hw.
  destruct (does_get_queue n m s q Hq w Hw) as (x & w0 & Ex & Hw0 & Hx). rewrite (st_bind_ret _ _ _ _ _ Ex).
  apply get_queue_inv in Ex as [Ex ->]. rewrite (st_bind_ret _ _ w w w) by done.
  pose proof (cq_jobs _ _ Hx) as Hvx. pose proof (cq_total _ _ Hx) as Ht.
  destruct (q_jobs x) as [arr|] eqn:Ea; [|rewrite (st_bind_ret _ _ w tt w) by done; by apply IH].
  destruct (sort_jobs_total (w_jobs w) (cmp_sort cstat (w_groups w)) arr) as (arr' & E & Hp);
    [intros; by apply cmp_sort_total|by rewrite (ca_jobs _ _ _ _ Hw)|].
  destruct (does_set_queue_jobs s q x arr' w Hw Ex) as (w1 & E1 & Hw1); [by rewrite Ea|].
  assert ((let* arr := st_lift (sort_jobs qsort (w_jobs w) (cmp_sort cstat (w_groups w)) arr (sc_total (q_sc x))) in
    upd_queue q (set_q_jobs (Some arr)))%st w = Ret tt w1) as E2.
  { simpl in Ht. rewrite Ht, E. done. }
  rewrite (st_bind_ret _ _ _ _ _ E2). by apply IH.
Qed.

Lemma does_sort s : sort_ok (sort_by cstat) ->
  forall w, calm n m s w -> valid m (queues (sinfo w)) -> exists w', sort_all_jobs cstat qsort w = Ret tt w' /\ calm n m s w'.
Proof using Hqsort.
  intros Hs w Hw Hv. unfold sort_all_jobs. rewrite (st_bind_ret _ _ w w w) by done.
  assert (Hserver : forall cmp, (forall a b, is_Some (cmp a b)) -> exists w',
    (let* arr := st_lift (sort_jobs qsort (w_jobs w) cmp (jobs (sinfo w)) (sc_total (sc (sinfo w)))) in
     upd_server (set_jobs arr))%st w = Ret tt w' /\ calm n m s w').
  { intros cmp Hc. destruct (sort_jobs_total (w_jobs w) cmp (jobs (sinfo w)) Hc) as (arr & E & Hp);
      [rewrite (ca_jobs _ _ _ _ Hw); apply Hw|]. rewrite (ca_total _ _ _ _ Hw), E. eexists. split; [done|].
    destruct Hw. split; simpl; try done; [by eapply valid_perm|]. rewrite ca_total0. unfold zlen. by rewrite Hp. }
  pose proof (fun h groups a b => cmp_sort_total groups a b Hs h) as Hcmp.
  destruct (sort_by cstat) as [|k keys] eqn:Ek; [done|]. destruct (decide (k = NO_SORT)) as [->|Hk]; [by eexists|].
  assert (hd_error (k :: keys) <> Some NO_SORT) as Hh by (simpl; congruence). specialize (Hcmp Hh).
  assert (exists w', (if strict_fifo cstat then let* arr := st_lift (sort_jobs qsort (w_jobs w) (fun a b => Some (fifo_sort a b)) (jobs (sinfo w)) (sc_total (sc (sinfo w)))) in
     upd_server (set_jobs arr)
   else if by_queue cstat || round_robin cstat then sort_each_queue cstat qsort (queues (sinfo w))
   else let* arr := st_lift (sort_jobs qsort (w_jobs w) (cmp_sort cstat (w_groups w)) (jobs (sinfo w)) (sc_total (sc (sinfo w)))) in
     upd_server (set_jobs arr))%st w = Ret tt w' /\ calm n m s w') as Hgo; [|by destruct k].
  destruct (strict_fifo cstat); [apply Hserver; by eexists|].
  destruct (_ || _); [|by apply Hserver].
  destruct (does_each_queue s (queues (sinfo w))) with (w := w) as ([] & w' & E & Hw' & _); rewrite ?Ek; eauto.
Qed.

Lemma does_starvation s ps : valid n ps -> forall jinfo, (forall p v, jinfo = Some (p, v) -> (p < n)%nat) ->
  does n m s (fun r => forall p, r = Some p -> (p < n)%nat) (starvation_loop conf cstat ps jinfo).
Proof.
  induction 1 as [|p ps Hp _ IH]; intros jinfo Hj; simpl.
  - apply does_ret. destruct jinfo as [[p v]|]; simpl; [|done]. intros p' [= <-]. by eapply Hj.
  - eapply does_bind; [by apply does_get_job|]. intros j Hcj. eapply does_bind; [apply does_get_queue, Hcj|]. intros x _.
    destruct (_ && _); [|by apply IH]. eapply does_bind; [apply does_upd_job; [done|]; intros j' []; by split|].
    intros _ _. apply IH. destruct jinfo as [[p' v']|]; [|by intros ? ? [= <- _]].
    destruct (v' <? _); [by intros ? ? [= <- _]|done].
Qed.

(** The queues stay in the array when it is rearranged. *)
Lemma queues_rearranged w w' :
  rearranged w w' -> valid m (queues (sinfo w)) /\ SIZEOF_POINTER * num_queues w <= ALLOC_MAX ->
  valid m (queues (sinfo w')) /\ SIZEOF_POINTER * num_queues w' <= ALLOC_MAX.
Proof.
  intros [_ (js & qs & _ & Hqs & Es) _] [Hv Hsz]. unfold num_queues in *. rewrite Es. simpl. split; [by eapply valid_perm|].
  unfold zlen in *. by rewrite Hqs.
Qed.

(** [starving_job] is chosen and the queues are sorted. *)
Lemma does_starving w : calm n m st w -> exists st' w',
  (if help_starving_jobs cstat then let* p := update_starvation conf cstat (jobs (sinfo w)) in st_modify (set_starving_job p)
   else st_ret tt)%st w = Ret tt w' /\ calm n m st' w' /\ rearranged w w'.
Proof.
  intros Hw. destruct (help_starving_jobs cstat); [|by exists st, w].
  destruct (does_starvation st (jobs (sinfo w))) with (jinfo := @None (ptr * Z)) (w := w)
    as (r & w1 & E & Hw1 & Hr); [apply Hw|done|done|].
  exists r, (set_starving_job r w1). split; [unfold update_starvation; by rewrite (st_bind_ret _ _ _ _ _ E)|]. split.
  - destruct Hw1. by split.
  - etransitivity; [by eapply rearranged_starvation|]. by eapply rearranged_starving.
Qed.

Lemma does_sort_queues s w : calm n m s w -> valid m (queues (sinfo w)) -> exists w',
  (if sort_queues cstat then let* qs := st_lift (sort_queue_array qsort w) in upd_server (set_queues qs) else st_ret tt)%st w
    = Ret tt w' /\ calm n m s w' /\ rearranged w w'.
Proof using Hqsort.
  intros Hw Hv. destruct (sort_queues cstat); [|by exists w].
  destruct (pairs_total (w_queues w) (queues (sinfo w))) as [l El]; [by rewrite (ca_queues _ _ _ _ Hw)|].
  assert (sort_queue_array qsort w = Some (qsort queue_info cmp_queue_prio_dsc l).*1) as E
    by (unfold sort_queue_array; by rewrite El).
  rewrite E. eexists. split; [done|]. split; [by destruct Hw; split|].
  by apply rearranged_queues, (sort_queue_array_perm qsort Hqsort).
Qed.

Lemma init_rearranges w :
  sort_ok (sort_by cstat) -> calm n m st w -> valid m (queues (sinfo w)) -> SIZEOF_POINTER * num_queues w <= ALLOC_MAX ->
  exists st' w', init_scheduling_cycle conf cstat qsort w = next_job_init cstat w' /\ calm n m st' w'
    /\ valid m (queues (sinfo w')) /\ SIZEOF_POINTER * num_queues w' <= ALLOC_MAX.
Proof using Hqsort.
  intros Hs Hw Hv Hsz. unfold init_scheduling_cycle. rewrite (st_bind_ret _ _ w w w) by done.
  destruct (does_starving w Hw) as (st' & w1 & E1 & Hw1 & Hr1). rewrite (st_bind_ret _ _ _ _ _ E1).
  rewrite (st_bind_ret _ _ w1 w1 w1) by done. destruct (queues_rearranged _ _ Hr1) as [Hv1 Hsz1]; [done|].
  destruct (does_sort_queues st' w1 Hw1 Hv1) as (w2 & E2 & Hw2 & Hr2). rewrite (st_bind_ret _ _ _ _ _ E2).
  destruct (queues_rearranged _ _ Hr2) as [Hv2 Hsz2]; [done|].
  destruct (does_sort st' Hs w2 Hw2 Hv2) as (w3 & E3 & Hw3). rewrite (st_bind_ret _ _ _ _ _ E3).
  exists st', w3. split; [done|]. split; [done|].
  by apply (queues_rearranged w2); [eapply (rearranged_sort _ _ Hqsort)|].
Qed.

End Ends.

Section Whole.
Context `{Platform} {Hall : AllocOk} (conf : config) (cstat : status).
Context (atof : list Z -> float) (timebuf : list Z)
  (qsort : forall A, (A -> A -> Z) -> list (ptr * A) -> list (ptr * A))
  (runjob_answer : list event -> Z) (rescquery_answer : list event -> Z * Z)
  (geterrmsg : list event -> list Z).
Context (Hqsort : forall A cmp l, qsort A cmp l ≡ₚ l).

(** C11: A scheduling cycle without fair share and load balancing comes to its end, whatever
    the server answers: starving jobs are marked, the arrays sorted by the configured keys,
    and with enough rounds of the loop every job has been considered or passed over and
    [next_job] finds no more.  The structures are [calm]: every job has an account and a
    group, a string where it asks for nodes, a name of at most 67 characters, and asks for
    no tokens; no queue has a [need]; the arrays point at jobs and queues that exist and
    are as long as their counts say, and the array of queues can be allocated. *)
Theorem cycle_ends n m st w :
  fair_share cstat = false -> load_balancing cstat = false -> load_balancing_rr cstat = false ->
  sort_ok (sort_by cstat) -> calm n m st w ->
  valid m (queues (sinfo w)) -> SIZEOF_POINTER * num_queues w <= ALLOC_MAX ->
  exists rounds, forall fuel, (rounds <= fuel)%nat -> exists w',
    scheduling_cycle conf cstat atof timebuf qsort runjob_answer rescquery_answer geterrmsg fuel w = Ret tt w'.
Proof using Hall Hqsort.
  intros Hfs Hlb Hrr Hs Hw Hv Hsz.
  destruct (init_rearranges conf cstat qsort Hqsort n m st w Hs Hw Hv Hsz) as (st' & w1 & E1 & Hw1 & Hv1 & Hsz1).
  destruct (init_places cstat n m st' w1 Hw1 Hv1 Hsz1) as (K & w2 & E2 & Hw2 & Ho).
  exists (Datatypes.S (Z.to_nat (left_over cstat K w2))). intros fuel Hf. unfold scheduling_cycle.
  rewrite (st_bind_ret _ _ w tt w2) by (by rewrite E1).
  eapply main_loop_total; [done|done|done|exact Hw2|exact Ho|lia|lia].
Qed.

End Whole.
