(* ===== verification/SchedStart.v ===== *)
(** * The FIFO scheduler: what the query sets up

    If the server reports every job in one known state, the structures that [query_server]
    builds agree with each other, which is what the theorems on the cycle start from. *)

From Stdlib Require Import ZArith Lia String Ascii SpecFloat.
From stdpp Require Import base list numbers option.
From S2P Require Import Prelude CLib Attrs SchedData Sched SchedQuery SchedRun SchedLimits SchedInit SchedCycle.
From stdpp Require Import list_relations.

Local Open Scope Z_scope.
Set Default Proof Using "Type".

(** ** The state of a job *)

Definition flags (j : job_info) : list bool :=
  [is_queued j; is_running j; is_transit j; is_exiting j; is_held j; is_waiting j; is_suspended j; is_completed j].

(** One of them is set. *)
Definition one_state (j : job_info) : Prop := exists i, (i < 8)%nat /\ flags j = <[i := true]> (replicate 8 false).

Definition is_state (a : attrl) : Prop := at_name a = Some (str "job_state").

(** A report names the state of the job once, and it is one of the letters that are known. *)
Definition state_once (b : batch_status) : Prop :=
  exists pre a post v, bs_attribs b = pre ++ a :: post /\ is_state a /\ at_value a = Some v
    /\ In (at_char v) (str "QRTEHWSC") /\ Forall (fun a => ~ is_state a) (pre ++ post).

(** The flags a letter stands for, and those of the state a report names. *)
Definition flags_of (c : Z) : list bool := (fun l => c =? l) <$> str "QRTEHWSC".
#[export] Instance is_state_dec a : Decision (is_state a).
Proof. unfold is_state. apply _. Defined.
Definition reported_flags (b : batch_status) : list bool :=
  match List.find (fun a => bool_decide (is_state a)) (bs_attribs b) with
  | Some a => flags_of (at_char (default [] (at_value a)))
  | None => replicate 8 false
  end.

Lemma find_state pre a post :
  is_state a -> Forall (fun a => ~ is_state a) pre ->
  List.find (fun a => bool_decide (is_state a)) (pre ++ a :: post) = Some a.
Proof.
  intros Ha. induction 1 as [|x l Hx _ IH]; simpl.
  - by rewrite bool_decide_eq_true_2.
  - by rewrite bool_decide_eq_false_2.
Qed.

Lemma job_attr_other nodes j a j' :
  job_attr nodes j a = Some j' -> ~ is_state a -> flags j' = flags j /\ j_queue j' = j_queue j.
Proof.
  unfold job_attr, is_state. intros E Hn. destruct (at_name a) as [name|]; [|done]. cbn [mbind option_bind] in E.
  unfold str_eq in E. repeat case_bool_decide; subst; try done;
    repeat match type of E with
    | (_ ← ?o; _) = Some _ => destruct o; [|done]; cbn [mbind option_bind] in E
    end; injection E as <-; by destruct j.
Qed.

Lemma attrs_other nodes : forall l j j',
  attrs_loop (job_attr nodes) j l = Some j' -> Forall (fun a => ~ is_state a) l -> flags j' = flags j /\ j_queue j' = j_queue j.
Proof.
  induction l as [|a l IH]; intros j j' E Hl; simpl in E; [by injection E as <-|]. inversion_clear Hl as [|? ? Ha Hl'].
  destruct (job_attr nodes j a) as [j1|] eqn:E1; [|done]. cbn [mbind option_bind] in E.
  destruct (job_attr_other _ _ _ _ E1 Ha) as [<- <-]. by apply IH.
Qed.

Lemma attrs_app {A} (step : A -> attrl -> option A) l1 l2 : forall x,
  attrs_loop step x (l1 ++ l2) = (y ← attrs_loop step x l1; attrs_loop step y l2).
Proof. induction l1 as [|a l1 IH]; intros x; simpl; [done|]. destruct (step x a); simpl; [apply IH|done]. Qed.

Lemma set_state_flags v j :
  In (at_char v) (str "QRTEHWSC") -> flags j = replicate 8 false ->
  flags (set_state v j) = flags_of (at_char v) /\ j_queue (set_state v j) = j_queue j.
Proof.
  intros Hv Hf. injection Hf as F1 F2 F3 F4 F5 F6 F7 F8. unfold set_state.
  repeat (destruct Hv as [<-|Hv]; [split; [|by destruct j]; unfold flags; simpl;
    by rewrite ?F1, ?F2, ?F3, ?F4, ?F5, ?F6, ?F7, ?F8|]). done.
Qed.

Lemma letter_once c : In c (str "QRTEHWSC") -> exists i, (i < 8)%nat /\ flags_of c = <[i := true]> (replicate 8 false).
Proof.
  intros Hc. repeat (destruct Hc as [<-|Hc]; [first [by exists 0%nat; split; [lia|] | by exists 1%nat; split; [lia|]
    | by exists 2%nat; split; [lia|] | by exists 3%nat; split; [lia|] | by exists 4%nat; split; [lia|] | by exists 5%nat; split; [lia|]
    | by exists 6%nat; split; [lia|] | by exists 7%nat; split; [lia|]]|]). done.
Qed.

Lemma query_job_info_flags nodes b q j :
  query_job_info nodes b q = Some j -> state_once b -> flags j = reported_flags b /\ one_state j /\ j_queue j = q.
Proof.
  unfold query_job_info. intros E (pre & a & post & v & Hb & Ha & Hv & Hk & [Hpre Hpost]%Forall_app).
  unfold reported_flags, one_state. rewrite Hb, attrs_app in E. rewrite Hb, (find_state pre a post Ha Hpre), Hv. simpl default.
  destruct (attrs_loop _ _ pre) as [j1|] eqn:E1; [|done]. cbn [mbind option_bind] in E. simpl in E.
  destruct (job_attr nodes j1 a) as [j2|] eqn:E2; [|done]. cbn [mbind option_bind] in E.
  destruct (attrs_other _ _ _ _ E1 Hpre) as [F1 Q1]. destruct (attrs_other _ _ _ _ E Hpost) as [F3 Q3].
  unfold job_attr in E2. rewrite Ha in E2. cbn [mbind option_bind] in E2. unfold str_eq in E2. simpl in E2.
  rewrite Hv in E2. cbn [mbind option_bind] in E2. injection E2 as <-.
  destruct (set_state_flags v j1 Hk) as [Hf Hq]; [by rewrite F1|]. rewrite F3, Hf, Q3, Hq, Q1.
  split; [done|]. split; [by apply letter_once|done].
Qed.

(** ** Counting the states *)

Definition all_states (c : state_count) : Z :=
  sc_queued c + sc_running c + sc_transit c + sc_exiting c + sc_held c + sc_waiting c + sc_suspended c + sc_completed c.

Lemma count_step c j : one_state j ->
  all_states (count_states_step c j) = all_states c + 1
  /\ sc_running (count_states_step c j) = sc_running c + (if is_running j then 1 else 0).
Proof.
  intros (i & Hi & Hf). unfold flags in Hf. unfold count_states_step, all_states.
  do 8 (destruct i as [|i]; [injection Hf as F1 F2 F3 F4 F5 F6 F7 F8; rewrite ?F1, ?F2, ?F3, ?F4, ?F5, ?F6, ?F7, ?F8; simpl; lia|]). lia.
Qed.

Lemma count_fold js : Forall one_state js -> forall c,
  all_states (foldl count_states_step c js) = all_states c + zlen js
  /\ sc_running (foldl count_states_step c js) = sc_running c + zlen (List.filter is_running js).
Proof.
  induction 1 as [|j js Hj _ IH]; intros c; simpl; [rewrite zlen_nil; lia|].
  destruct (IH (count_states_step c j)) as [-> ->], (count_step c j Hj) as [-> ->]. rewrite zlen_cons.
  destruct (is_running j); rewrite ?zlen_cons; lia.
Qed.

Lemma count_states_new js : Forall one_state js ->
  sc_total (count_states js init_state_count) = zlen js
  /\ sc_running (count_states js init_state_count) = zlen (List.filter is_running js).
Proof.
  intros Hj. destruct (count_fold js Hj init_state_count) as [H1 H2]. unfold count_states.
  set (c := foldl count_states_step init_state_count js) in *. change (all_states init_state_count) with 0 in H1.
  change (sc_running init_state_count) with 0 in H2. unfold all_states in H1. simpl. lia.
Qed.

(** How many of the jobs [ps] have a flag, and the record of all the counts. *)
Definition in_state (heap : list job_info) (flag : job_info -> bool) (ps : list ptr) : Z :=
  zlen (List.filter (fun p => default false (flag <$> heap !! p)) ps).
Definition state_counts (heap : list job_info) (ps : list ptr) : state_count :=
  mk_state_count (in_state heap is_running ps) (in_state heap is_queued ps) (in_state heap is_held ps)
    (in_state heap is_transit ps) (in_state heap is_waiting ps) (in_state heap is_exiting ps)
    (in_state heap is_suspended ps) (in_state heap is_completed ps) (zlen ps).

Lemma in_state_cons heap flag p ps :
  in_state heap flag (p :: ps) = (if default false (flag <$> heap !! p) then 1 else 0) + in_state heap flag ps.
Proof. unfold in_state. simpl. destruct (default _ _); rewrite ?zlen_cons; lia. Qed.

Lemma in_state_app heap flag ps ps' : in_state heap flag (ps ++ ps') = in_state heap flag ps + in_state heap flag ps'.
Proof. unfold in_state. by rewrite List.filter_app, zlen_app. Qed.

Lemma state_counts_app heap ps ps' :
  state_counts heap (ps ++ ps') = total_states (state_counts heap ps) (state_counts heap ps').
Proof. unfold state_counts, total_states. simpl. rewrite !in_state_app. f_equal. apply zlen_app. Qed.

(** The counts depend on the flags only. *)
Lemma state_counts_flags heap heap' ps :
  (forall p, p ∈ ps -> flags <$> heap' !! p = flags <$> heap !! p) -> state_counts heap' ps = state_counts heap ps.
Proof.
  intros Hp. assert (forall flag, (forall j j', flags j' = flags j -> flag j' = flag j) ->
    in_state heap' flag ps = in_state heap flag ps) as Hi.
  { intros flag Hf. unfold in_state. f_equal. apply List.filter_ext_in. intros p Hin%list_elem_of_In.
    specialize (Hp p Hin). destruct (heap' !! p) as [j'|], (heap !! p) as [j|]; try done. simpl in *. apply Hf. congruence. }
  unfold state_counts. f_equal; try (apply Hi; intros j j' E; by injection E).
Qed.

(** Counting the jobs one by one gives the counts. *)
Lemma count_states_spec heap ps js : deref heap ps = Some js -> Forall one_state js ->
  count_states js init_state_count = state_counts heap ps.
Proof.
  intros E Hj. assert (forall c, sc_total c = 0 ->
    foldl count_states_step c js = set_sc_total 0 (total_states c (state_counts heap ps))) as Hfold.
  { revert js E Hj. induction ps as [|p ps IH]; intros js E Hj c Hc.
    - injection E as <-. simpl. destruct c. unfold state_counts, in_state, total_states, set_sc_total. simpl in *. rewrite ?zlen_nil. subst. f_equal; lia.
    - unfold deref in *. simpl in E. destruct (heap !! p) as [j|] eqn:Ej; [|done]. cbn [mbind option_bind] in E.
      destruct (mapM _ ps) as [js'|] eqn:Em; [|done]. injection E as <-. apply Forall_cons in Hj as [(i & Hi & Hf) Hj].
      simpl foldl. rewrite (IH js' eq_refl Hj) by (unfold count_states_step; by repeat case_match).
      unfold state_counts, total_states, set_sc_total. rewrite !in_state_cons, Ej. unfold flags in Hf. simpl.
      do 8 (destruct i as [|i]; [injection Hf as F1 F2 F3 F4 F5 F6 F7 F8; unfold count_states_step;
        rewrite ?F1, ?F2, ?F3, ?F4, ?F5, ?F6, ?F7, ?F8; simpl; f_equal; lia|]). lia. }
  unfold count_states. pose proof (proj1 (count_fold js Hj init_state_count)) as Ht. rewrite (Hfold init_state_count eq_refl) in *.
  assert (zlen js = zlen ps) as El by (unfold deref in E; unfold zlen; by rewrite <- (length_mapM _ _ _ E)).
  unfold all_states in Ht. unfold state_counts, set_sc_total, total_states in *. simpl in *. f_equal; lia.
Qed.

Lemma nrun_deref heap ps js :
  deref heap ps = Some js -> nrun (core_of <$> heap) (fun _ => true) ps = zlen (List.filter is_running js).
Proof.
  revert js. induction ps as [|p ps IH]; intros js E; [by injection E as <-|]. unfold deref in *. simpl in E.
  destruct (heap !! p) as [j|] eqn:Ej; [|done]. cbn [mbind option_bind] in E.
  destruct (mapM _ ps) as [js'|] eqn:Em; [|done]. injection E as <-. rewrite nrun_cons, list_lookup_fmap, Ej. simpl.
  rewrite andb_true_r, (IH js' eq_refl). destruct (is_running j); rewrite ?zlen_cons; lia.
Qed.

(** ** The queues *)

Record queue_set (w : sched) (q : ptr) (x : queue_info) : Prop := {
  qs_total : sc_total (q_sc x) = zlen (default [] (q_jobs x));
  qs_running : q_running_jobs x = Some (running_in (cores w) (default [] (q_jobs x)));
  qs_count : sc_running (q_sc x) = nrun (cores w) (fun _ => true) (default [] (q_jobs x));
  qs_jobs : forall p, p ∈ default [] (q_jobs x) -> c_queue <$> cores w !! p = Some q;
  qs_states : q_sc x = state_counts (w_jobs w) (default [] (q_jobs x))
}.

(** The jobs are numbered through the queues. *)
Record set_up (w : sched) : Prop := {
  su_jobs : jobs_of_queues (w_queues w) = seq 0 (length (w_jobs w));
  su_queues : forall q x, w_queues w !! q = Some x -> queue_set w q x
}.

Lemma nrun_app cs P ps ps' : nrun cs P (ps ++ ps') = nrun cs P ps + nrun cs P ps'.
Proof. unfold nrun. by rewrite List.filter_app, zlen_app. Qed.

(** The counts of the server are those of all jobs. *)
Lemma totals cs qs : forall c,
  Forall (fun x => sc_total (q_sc x) = zlen (default [] (q_jobs x))
    /\ sc_running (q_sc x) = nrun cs (fun _ => true) (default [] (q_jobs x))) qs ->
  let c' := foldl (fun c x => total_states c (q_sc x)) c qs in
  sc_total c' = sc_total c + zlen (jobs_of_queues qs) /\ sc_running c' = sc_running c + nrun cs (fun _ => true) (jobs_of_queues qs).
Proof.
  induction qs as [|x qs IH]; intros c Hq; cbv zeta; [change (jobs_of_queues []) with (@nil ptr); unfold nrun; simpl; rewrite zlen_nil; lia|].
  apply Forall_cons in Hq as [[E1 E2] Hq]. simpl (foldl _ _ _). destruct (IH (total_states c (q_sc x)) Hq) as [-> ->].
  change (jobs_of_queues (x :: qs)) with (default [] (q_jobs x) ++ jobs_of_queues qs). rewrite zlen_app, nrun_app. simpl. lia.
Qed.

Lemma state_totals heap qs :
  Forall (fun x => q_sc x = state_counts heap (default [] (q_jobs x))) qs ->
  foldl (fun c x => total_states c (q_sc x)) init_state_count qs = state_counts heap (jobs_of_queues qs).
Proof.
  assert (forall c, total_states c init_state_count = c) as H0 by (intros []; unfold total_states; simpl; f_equal; lia).
  assert (forall c c1 c2, total_states (total_states c c1) c2 = total_states c (total_states c1 c2)) as Ha
    by (intros; unfold total_states; simpl; f_equal; lia).
  intros Hq. assert (forall c, foldl (fun c x => total_states c (q_sc x)) c qs
    = total_states c (state_counts heap (jobs_of_queues qs))) as Hg.
  { induction Hq as [|x qs Hx _ IH]; intros c; simpl; [by rewrite H0|].
    change (jobs_of_queues (x :: qs)) with (default [] (q_jobs x) ++ jobs_of_queues qs).
    by rewrite IH, state_counts_app, Hx, Ha. }
  rewrite Hg. destruct (state_counts heap (jobs_of_queues qs)). unfold total_states. simpl. f_equal; lia.
Qed.

Lemma jobs_of_queues_elem qs p : p ∈ jobs_of_queues qs <-> exists q x, qs !! q = Some x /\ p ∈ default [] (q_jobs x).
Proof.
  unfold jobs_of_queues. rewrite list_elem_of_In, in_concat. split.
  - intros (l & (x & <- & Hx)%in_map_iff & Hp). apply list_elem_of_In, list_elem_of_lookup in Hx as [q Hx].
    exists q, x. split; [done|]. by apply list_elem_of_In.
  - intros (q & x & Hx & Hp). exists (default [] (q_jobs x)). split; [|by apply list_elem_of_In].
    apply in_map_iff. exists x. split; [done|]. by apply list_elem_of_In, (list_elem_of_lookup_2 _ q).
Qed.

Lemma jobs_of_queues_nodup qs q x : NoDup (jobs_of_queues qs) -> qs !! q = Some x -> NoDup (default [] (q_jobs x)).
Proof.
  intros Hn Hx. apply list_elem_of_split_length in Hx as (l1 & l2 & -> & _). unfold jobs_of_queues in Hn.
  rewrite fmap_app, concat_app in Hn. simpl in Hn. apply NoDup_app in Hn as (_ & _ & Hn). by apply NoDup_app in Hn as (Hn & _).
Qed.

(** More jobs do not change what is known of a queue. *)
Lemma grow_lookup cs cs' (ps : list ptr) : Forall (fun p => (p < length cs)%nat) ps ->
  running_in (cs ++ cs') ps = running_in cs ps /\ (forall P, nrun (cs ++ cs') P ps = nrun cs P ps).
Proof.
  intros Hp. unfold running_in, nrun.
  split; [|intros P; f_equal]; apply List.filter_ext_in; intros p Hin; rewrite lookup_app_l; try done;
    rewrite List.Forall_forall in Hp; by apply Hp.
Qed.

Lemma jobs_of_queues_bound w q x p : set_up w -> w_queues w !! q = Some x -> p ∈ default [] (q_jobs x) -> (p < length (w_jobs w))%nat.
Proof.
  intros Hw Hx Hp. assert (p ∈ jobs_of_queues (w_queues w)) as Hin by (apply jobs_of_queues_elem; eauto).
  rewrite (su_jobs _ Hw) in Hin. apply elem_of_seq in Hin. lia.
Qed.

Definition same_flags (w w' : sched) : Prop := flags <$> w_jobs w' = flags <$> w_jobs w.
#[export] Instance same_flags_preorder : PreOrder same_flags.
Proof. split; [by intros w|]. unfold same_flags. intros w1 w2 w3 E1 E2. congruence. Qed.
Lemma same_flags_upd_job p f : (forall j, flags (f j) = flags j) -> keeps same_flags (upd_job p f).
Proof.
  intros Hf. apply keeps_upd_job. intros w j Hj. unfold same_flags. simpl.
  rewrite list_fmap_insert, Hf. apply list_insert_id. by rewrite list_lookup_fmap, Hj.
Qed.
#[export] Hint Extern 1 (keeps same_flags (upd_job _ _)) => (by apply same_flags_upd_job; intros []) : sched.
#[export] Hint Extern 1 (keeps same_flags (st_modify _)) => (by apply keeps_modify) : sched.

Lemma same_flags_cant_run arr s c k : keeps same_flags (update_jobs_cant_run arr s c k).
Proof.
  assert (forall ps, keeps same_flags (mark_cant_run ps c)).
  { induction ps; simpl; [by keeps_tac|]. unfold update_job_comment, tell. keeps_tac. }
  unfold update_jobs_cant_run. keeps_tac.
Qed.

(** The states of the jobs that were added are still those reported. *)
Lemma new_states l js w1 w2 jobs :
  w_jobs w1 = l ++ js -> same_flags w1 w2 -> Forall one_state js ->
  deref (w_jobs w2) (seq (length l) (length js)) = Some jobs -> Forall one_state jobs /\ length jobs = length js.
Proof.
  intros Ej Hf Hjs E%mapM_Some_1. split; [|by rewrite <- (Forall2_length _ _ _ E), length_seq].
  apply Forall_lookup. intros i j Hj. destruct (Forall2_lookup_r _ _ _ _ _ E Hj) as (p & Hp & Hpj).
  apply lookup_seq in Hp as [-> Hi]. assert (flags <$> w_jobs w2 !! (length l + i)%nat = flags <$> js !! i) as Hfl.
  { rewrite <- !list_lookup_fmap, Hf, Ej, fmap_app, lookup_app_r; rewrite length_fmap; [|lia]. f_equal. lia. }
  rewrite Hpj in Hfl. destruct (js !! i) as [j'|] eqn:Ej'; [|done].
  assert (flags j = flags j') as Hfj by (simpl in Hfl; congruence).
  destruct (Forall_lookup_1 _ _ _ _ Hjs Ej') as (k & Hk & Hfk). exists k. split; [done|]. by rewrite Hfj.
Qed.

Lemma added_queue cs js q p :
  Forall (fun j => j_queue j = q) js -> p ∈ seq (length cs) (length js) -> c_queue <$> (cs ++ (core_of <$> js)) !! p = Some q.
Proof.
  intros Hjs [H1 H2]%elem_of_seq. rewrite lookup_app_r, list_lookup_fmap by lia.
  destruct (lookup_lt_is_Some_2 js (p - length cs)) as [j Hj]; [lia|]. rewrite Hj. simpl. f_equal.
  exact (Forall_lookup_1 _ _ _ _ Hjs Hj).
Qed.

(** A job that is not queued is not considered. *)
Definition ruled (j : job_info) : Prop := is_queued j = false -> can_not_run j = true.

(** What is read of a job: its name and its state. *)
Definition shown (j : job_info) : list Z * list bool := (j_name j, flags j).

Record settled (w w' : sched) : Prop := {
  st_names : shown <$> w_jobs w' = shown <$> w_jobs w;
  st_ruled : Forall ruled (w_jobs w) -> Forall ruled (w_jobs w')
}.
#[export] Instance settled_preorder : PreOrder settled.
Proof. split; [by intros w|]. intros w1 w2 w3 [] []. split; [congruence|auto]. Qed.
Lemma settled_upd_job p f :
  (forall j, shown (f j) = shown j /\ (ruled j -> ruled (f j))) -> keeps settled (upd_job p f).
Proof.
  intros Hf. apply keeps_upd_job. intros w j Hj. destruct (Hf j) as [Hn Hr]. split; simpl.
  - rewrite list_fmap_insert, Hn. apply list_insert_id. by rewrite list_lookup_fmap, Hj.
  - intros Hw. apply Forall_insert; [done|]. apply Hr. exact (Forall_lookup_1 _ _ _ _ Hw Hj).
Qed.
#[export] Hint Extern 1 (keeps settled (upd_job _ _)) => (by apply settled_upd_job; intros []) : sched.
#[export] Hint Extern 1 (keeps settled (st_modify _)) => (by apply keeps_modify) : sched.

Lemma settled_cant_run arr s c k : keeps settled (update_jobs_cant_run arr s c k).
Proof.
  assert (forall ps, keeps settled (mark_cant_run ps c)).
  { induction ps; simpl; [by keeps_tac|]. unfold update_job_comment, tell. keeps_tac. }
  unfold update_jobs_cant_run. keeps_tac.
Qed.

Section Start.
Context `{Platform} {Hall : AllocOk} (conf : config) (cstat : status) (atof : list Z -> float).
Context (statserver : option batch_status) (statque : list batch_status) (selstat : list Z -> list batch_status)
  (nodes : option (list node_info)) (find_alloc_ginfo : list Z -> option ptr).

Lemma query_job_flags q b j :
  query_job nodes find_alloc_ginfo q b = Some j -> state_once b -> flags j = reported_flags b /\ one_state j /\ j_queue j = q.
Proof.
  unfold query_job. intros E Hb. destruct (query_job_info _ b q) as [j0|] eqn:E0; [|done]. cbn [mbind option_bind] in E.
  destruct (query_job_info_flags _ _ _ _ E0 Hb) as (<- & (i & Hi & Hf) & Hq). injection E as <-.
  set (j1 := match account j0 with Some u => _ | None => _ end).
  assert (flags j1 = flags j0 /\ j_queue j1 = j_queue j0) as [F1 Q1] by (unfold j1; by destruct (account j0)).
  destruct (is_queued j1); (split; [by rewrite <- F1|]); (split; [exists i; split; [done|]; by rewrite <- Hf, <- F1|by rewrite <- Hq, <- Q1]).
Qed.

Lemma query_jobs_spec q name w arr w1 :
  Forall state_once (selstat name) -> query_jobs selstat nodes find_alloc_ginfo q name w = Ret arr w1 ->
  exists js, w_jobs w1 = w_jobs w ++ js /\ w_queues w1 = w_queues w
    /\ default [] arr = seq (length (w_jobs w)) (length js) /\ Forall (fun j => one_state j /\ j_queue j = q) js
    /\ (length js <= length (selstat name))%nat.
Proof.
  intros Hst E. unfold query_jobs in E.
  assert (Hno : (arr, w1) = (None, w) -> exists js, w_jobs w1 = w_jobs w ++ js /\ w_queues w1 = w_queues w
    /\ default [] arr = seq (length (w_jobs w)) (length js) /\ Forall (fun j => one_state j /\ j_queue j = q) js
    /\ (length js <= length (selstat name))%nat).
  { intros [= -> ->]. exists []. rewrite app_nil_r. repeat split; [constructor|simpl; lia]. }
  destruct (selstat name) as [|b bs]; [apply Hno; by injection E as <- <-|].
  destruct (negb _); [apply Hno; by injection E as <- <-|]. clear Hno. set (jobs := b :: bs) in *. clearbody jobs.
  repeat inv_step E. apply mapM_Some_1 in H0. exists a. split; [done|]. split; [done|]. split; [done|].
  split; [|by rewrite (Forall2_length _ _ _ H0)].
  eapply Forall2_Forall_r; [exact H0|]. eapply Forall_impl; [exact Hst|]. intros b' Hb' j E'. by destruct (query_job_flags _ _ _ E' Hb').
Qed.

Lemma queue_attrs_keep : forall l x x', attrs_loop queue_attr x l = Some x' -> q_name x' = q_name x /\ q_sc x' = q_sc x.
Proof.
  induction l as [|a l IH]; intros x x' E; simpl in E; [by injection E as <-|].
  destruct (queue_attr x a) as [x1|] eqn:E1; [|done]. cbn [mbind option_bind] in E. destruct (IH _ _ E) as [-> ->].
  unfold queue_attr in E1. destruct (at_name a) as [name|]; [|done]. cbn [mbind option_bind] in E1.
  repeat (destruct (str_eq name _); [repeat match type of E1 with
    | (_ ← ?o; _) = Some _ => destruct o; [|done]; cbn [mbind option_bind] in E1
    end; injection E1 as <-; by repeat case_match|]). by injection E1 as <-.
Qed.

Lemma query_queue_spec q b w x w' :
  Forall state_once (selstat (bs_name b)) -> zlen (selstat (bs_name b)) <= INT_MAX ->
  query_queue conf cstat selstat nodes find_alloc_ginfo q b w = Ret x w' ->
  exists cs, cores w' = cores w ++ cs /\ w_queues w' = w_queues w
    /\ default [] (q_jobs x) = seq (length (w_jobs w)) (length cs) /\ (length cs <= length (selstat (bs_name b)))%nat
    /\ (exists fs, flags <$> w_jobs w' = (flags <$> w_jobs w) ++ fs) /\ queue_set w' q x.
Proof using Hall.
  intros Hst Hsz E. unfold query_queue in E. inv_step E. rename a into x0.
  destruct (queue_attrs_keep _ _ _ H0) as [En Esc]. simpl in En, Esc. rewrite En in E.
  apply bind_ret_inv in E as (arr & w1 & E1 & E). apply query_jobs_spec in E1 as (js & Ej & Eq & Earr & Hjs & Hlen); [|done].
  set (x1 := match ded_prefix conf with [] => _ | _ => _ end) in E.
  assert (q_jobs x1 = arr /\ q_sc x1 = init_state_count) as [Eqj Eqs]
    by (unfold x1; destruct (ded_prefix conf); [|destruct (has_prefix _ _)]; by rewrite <- Esc).
  clearbody x1. apply bind_ret_inv in E as (rc & w1' & E1 & E). inv_step E1.
  apply bind_ret_inv in E as ([] & w2 & E2 & E).
  assert (quiet w1 w2 /\ same_flags w1 w2) as [Hq Hf].
  { destruct (rc =? SUCCESS); [by inv_step E2|]. split; [by eapply quiet_cant_run|by eapply same_flags_cant_run]. }
  repeat inv_step E. rename a into jobs, a0 into running, a1 into rs.
  assert (cores w2 = cores w ++ (core_of <$> js)) as Ec
    by (rewrite (quiet_cores _ _ Hq); unfold cores; by rewrite Ej, fmap_app).
  exists (core_of <$> js). rewrite length_fmap. split; [done|]. split; [by rewrite (quiet_queues _ _ Hq)|].
  simpl. rewrite Eqj. split; [done|]. split; [done|].
  split; [exists (flags <$> js); rewrite Hf, Ej; by rewrite fmap_app|].
  apply Forall_and in Hjs as [Hone Hqs]. rewrite Earr in H1.
  destruct (new_states _ _ _ _ _ Ej Hf Hone H1) as [Hjobs Hl].
  destruct (count_states_new jobs Hjobs) as [Ht Hr]. cbn [q_sc set_q_sc set_is_ok_to_run] in H2. rewrite Eqs in H2.
  assert (zlen (default [] arr) = zlen jobs) as El by (rewrite Earr; unfold zlen; by rewrite length_seq, Hl).
  apply job_filter_running in H2; [|by rewrite Ht|rewrite Ht; unfold zlen in *; lia].
  split; cbn [q_sc q_jobs q_running_jobs set_qres set_q_running_jobs set_q_sc set_is_ok_to_run]; rewrite Eqj, ?Eqs.
  - by rewrite Ht, El.
  - done.
  - rewrite Hr, Earr. symmetry. exact (nrun_deref _ _ _ H1).
  - intros p Hp. rewrite Ec. apply added_queue; [done|]. rewrite Earr in Hp. unfold cores. by rewrite length_fmap.
  - rewrite Earr. by apply count_states_spec.
Qed.

Lemma query_queues_spec bs : forall w w',
  set_up w -> Forall (fun b => Forall state_once (selstat (bs_name b)) /\ zlen (selstat (bs_name b)) <= INT_MAX) bs ->
  query_queues conf cstat selstat nodes find_alloc_ginfo bs w = Ret tt w' ->
  set_up w' /\ zlen (w_jobs w') <= zlen (w_jobs w) + zlen (concat ((fun b => selstat (bs_name b)) <$> bs)).
Proof using Hall.
  induction bs as [|b bs IH]; intros w w' Hw Hbs E; simpl in E; [inv_step E; simpl; rewrite zlen_nil; split; [done|lia]|].
  apply Forall_cons in Hbs as [[Hst Hsz] Hbs']. apply bind_ret_inv in E as (w0 & w0' & [-> ->]%get_inv & E). apply bind_ret_inv in E as (x & w1 & E1 & E).
  apply bind_ret_inv in E as ([] & w2 & ->%modify_inv & E).
  apply query_queue_spec in E1 as (cs & Ec & Eq & Ex & Hlen & [fs Hfs] & Hset); [|done|done].
  assert (length (w_jobs w1) = length (w_jobs w) + length cs)%nat as Elen.
  { apply (f_equal length) in Ec. unfold cores in Ec. by rewrite length_app, !length_fmap in Ec. }
  assert (set_up (set_w_queues (w_queues w1 ++ [x]) w1)) as Hw2.
  { split; simpl.
    - unfold jobs_of_queues. rewrite fmap_app, concat_app, Eq. simpl. rewrite app_nil_r, Ex, Elen, seq_app.
      f_equal. apply Hw.
    - intros q y Hy. rewrite Eq in Hy. apply lookup_app_Some in Hy as [Hy|[Hge Hy]].
      + destruct (su_queues _ Hw q y Hy) as [Q1 Q2 Q3 Q4 Q5].
        assert (Forall (fun p => (p < length (cores w))%nat) (default [] (q_jobs y))) as Hlt.
        { apply Forall_forall. intros p Hp. unfold cores. rewrite length_fmap. by eapply jobs_of_queues_bound. }
        destruct (grow_lookup (cores w) cs _ Hlt) as [G1 G2].
        change (cores (set_w_queues _ w1)) with (cores w1). split; [done| | | |];
          change (cores (set_w_queues _ w1)) with (cores w1); rewrite ?Ec, ?G1, ?G2; try done.
        * intros p Hp. rewrite lookup_app_l; [by apply Q4|]. rewrite Forall_forall in Hlt. by apply Hlt.
        * rewrite Q5. symmetry. apply state_counts_flags. intros p Hp. simpl. rewrite <- !list_lookup_fmap, Hfs.
          apply lookup_app_l. rewrite length_fmap. rewrite Forall_forall in Hlt. specialize (Hlt p Hp).
          unfold cores in Hlt. by rewrite length_fmap in Hlt.
      + destruct (q - length (w_queues w))%nat as [|k] eqn:Ek; [|done]. injection Hy as <-.
        replace q with (length (w_queues w)) by lia. destruct Hset as [Q1 Q2 Q3 Q4 Q5]. by split. }
  destruct (IH _ w' Hw2 Hbs' E) as [Hup Hb]. split; [done|].
  rewrite fmap_cons, concat_cons, zlen_app. change (w_jobs (set_w_queues _ w1)) with (w_jobs w1) in Hb. unfold zlen in *. lia.
Qed.

Lemma server_attrs_keep : forall l s s', attrs_loop (server_attr atof) s l = Some s' -> sc s' = sc s.
Proof.
  induction l as [|a l IH]; intros s s' E; simpl in E; [by injection E as <-|].
  destruct (server_attr atof s a) as [s1|] eqn:E1; [|done]. cbn [mbind option_bind] in E. rewrite (IH _ _ E).
  unfold server_attr in E1. destruct (at_name a) as [name|]; [|done]. cbn [mbind option_bind] in E1.
  repeat (destruct (str_eq name _); [repeat match type of E1 with
    | (_ ← ?o; _) = Some _ => destruct o; [|done]; cbn [mbind option_bind] in E1
    end; by injection E1 as <-|]). by injection E1 as <-.
Qed.

(** The structures of the server, from those of the queues. *)
Lemma wf_set_up w w' :
  set_up w -> zlen (w_jobs w) <= INT_MAX -> w_jobs w' = w_jobs w -> w_queues w' = w_queues w ->
  jobs (sinfo w') = jobs_of_queues (w_queues w) ->
  sc_total (sc (sinfo w')) = zlen (jobs_of_queues (w_queues w)) ->
  sc_running (sc (sinfo w')) = nrun (cores w) (fun _ => true) (jobs_of_queues (w_queues w)) ->
  running_jobs (sinfo w') = Some (running_in (cores w) (jobs_of_queues (w_queues w))) -> sched_wf w'.
Proof.
  intros Hw Hsz Ej Eq Es Et Er Err. assert (cores w' = cores w) as Ec by (unfold cores; by rewrite Ej).
  assert (NoDup (jobs_of_queues (w_queues w))) as Hnd by (rewrite (su_jobs _ Hw); apply NoDup_seq).
  split; rewrite ?Es, ?Ec, ?Eq, ?Et, ?Er; try done.
  - rewrite (su_jobs _ Hw). unfold zlen in *. by rewrite length_seq.
  - by eexists.
  - intros p (q & x & Hx & Hp)%jobs_of_queues_elem. pose proof (qs_jobs _ _ _ (su_queues _ Hw q x Hx) p Hp) as Hc.
    destruct (cores w !! p) as [c|] eqn:Ecp; [|done]. injection Hc as Hc. exists c, x. by rewrite Hc.
  - intros q x Hx. destruct (su_queues _ Hw q x Hx) as [Q1 Q2 Q3 Q4 _].
    split; rewrite ?Ec, ?Es; [by eapply jobs_of_queues_nodup|done|by eexists|lia|].
    intros p Hp. split; [|by apply Q4]. apply jobs_of_queues_elem. eauto.
Qed.

Lemma queues_ok :
  Forall state_once (concat ((fun b => selstat (bs_name b)) <$> statque)) ->
  zlen (concat ((fun b => selstat (bs_name b)) <$> statque)) <= INT_MAX ->
  Forall (fun b => Forall state_once (selstat (bs_name b)) /\ zlen (selstat (bs_name b)) <= INT_MAX) statque.
Proof.
  induction statque as [|b bs IH]; [constructor|]. rewrite fmap_cons, concat_cons, zlen_app, Forall_app. intros [H1 H2] Hsz.
  pose proof (zlen_nonneg (selstat (bs_name b))). pose proof (zlen_nonneg (concat ((fun b => selstat (bs_name b)) <$> bs))).
  constructor; [split; [done|lia]|]. apply IH; [done|lia].
Qed.

Lemma query_server_wf w w' :
  Forall state_once (concat ((fun b => selstat (bs_name b)) <$> statque)) ->
  zlen (concat ((fun b => selstat (bs_name b)) <$> statque)) <= INT_MAX ->
  query_server conf cstat atof statserver statque selstat nodes find_alloc_ginfo w = Ret true w' ->
  sched_wf w' /\ sc (sinfo w') = state_counts (w_jobs w') (jobs (sinfo w'))
  /\ forall q x, w_queues w' !! q = Some x -> q_sc x = state_counts (w_jobs w') (default [] (q_jobs x)).
Proof using Hall.
  intros Hst Hsz E. unfold query_server in E. destruct statserver as [server|]; [|done].
  apply bind_ret_inv in E as (s & w0 & [Es ->]%lift_inv & E). apply server_attrs_keep in Es. simpl in Es.
  apply bind_ret_inv in E as ([] & w1 & ->%modify_inv & E). destruct (_ || _); [done|].
  apply bind_ret_inv in E as ([] & w2 & E2 & E). apply query_queues_spec in E2 as [Hup Hlen];
    [|split; [done|by intros q x ?]|by apply queues_ok].
  inv_step E. rewrite Es in E.
  destruct (totals (cores w2) (w_queues w2) init_state_count) as [Ht Hr].
  { apply Forall_lookup. intros q x Hx. by destruct (su_queues _ Hup q x Hx). }
  assert (foldl (fun c x => total_states c (q_sc x)) init_state_count (w_queues w2)
    = state_counts (w_jobs w2) (jobs_of_queues (w_queues w2))) as Hsc.
  { apply state_totals, Forall_lookup. intros q x Hx. by destruct (su_queues _ Hup q x Hx). }
  set (c := foldl _ _ _) in *. destruct (negb _); [done|]. repeat inv_step E.
  change (sc_total init_state_count) with 0 in Ht. change (sc_running init_state_count) with 0 in Hr.
  change (zlen (w_jobs (set_w_nodes _ _))) with 0 in Hlen.
  unfold set_all_jobs in H0. destruct (_ <? _); [done|]. injection H0 as <-.
  assert (zlen (jobs_of_queues (w_queues w2)) = zlen (w_jobs w2)) as El
    by (rewrite (su_jobs _ Hup); unfold zlen; by rewrite length_seq).
  apply job_filter_running in H1; [|simpl; lia|lia].
  split; [apply (wf_set_up w2); [done|lia|done|done|done|simpl; lia|simpl; lia|done]|].
  split; [exact Hsc|]. intros q x Hx. by destruct (su_queues _ Hup q x Hx).
Qed.

(** ** Every job is read *)

Lemma job_attrs_name : forall l j j', attrs_loop (job_attr (default [] nodes)) j l = Some j' -> j_name j' = j_name j.
Proof.
  induction l as [|a l IH]; intros j j' E; simpl in E; [by injection E as <-|].
  destruct (job_attr _ j a) as [j1|] eqn:E1; [|done]. cbn [mbind option_bind] in E. rewrite (IH _ _ E).
  unfold job_attr in E1. destruct (at_name a) as [name|]; [|done]. cbn [mbind option_bind] in E1.
  repeat (destruct (str_eq name _); [repeat match type of E1 with
    | (_ ← ?o; _) = Some _ => destruct o; [|done]; cbn [mbind option_bind] in E1
    end; injection E1 as <-; unfold set_state; by repeat case_match|]). by injection E1 as <-.
Qed.

(** What a report shows of a job *)
Definition report (b : batch_status) : list Z * list bool := (bs_name b, reported_flags b).

Lemma query_job_read q b j :
  query_job nodes find_alloc_ginfo q b = Some j -> state_once b -> shown j = report b /\ ruled j.
Proof.
  intros E Hb. unfold shown, report. destruct (query_job_flags q b j E Hb) as [-> _]. revert E.
  unfold query_job. intros E. destruct (query_job_info _ b q) as [j0|] eqn:E0; [|done]. cbn [mbind option_bind] in E.
  apply job_attrs_name in E0. simpl in E0. injection E as <-.
  set (j1 := match account j0 with Some u => _ | None => _ end).
  assert (j_name j1 = j_name j0) as En by (unfold j1; by destruct (account j0)). clearbody j1.
  destruct (is_queued j1) eqn:Eq; (split; [by rewrite <- E0, <- En|]); unfold ruled; simpl; congruence.
Qed.

(** The jobs of the state are those reported by [bs]. *)
Definition reads (bs : list batch_status) (w w' : sched) : Prop :=
  shown <$> w_jobs w' = (shown <$> w_jobs w) ++ (report <$> bs) /\ (Forall ruled (w_jobs w) -> Forall ruled (w_jobs w')).

Lemma query_jobs_read q name w arr w1 :
  Forall state_once (selstat name) -> zlen (selstat name) <= INT_MAX ->
  query_jobs selstat nodes find_alloc_ginfo q name w = Ret arr w1 -> reads (selstat name) w w1.
Proof using Hall.
  intros Hst Hsz E. unfold query_jobs in E. unfold reads.
  destruct (selstat name) as [|b bs]; [injection E as _ <-; by rewrite app_nil_r|]. set (jobs := b :: bs) in *. clearbody jobs.
  pose proof (zlen_nonneg jobs). rewrite alloc_ok in E by (unfold SIZEOF_POINTER, ALLOC_MAX, INT_MAX in *; lia). simpl in E.
  repeat inv_step E. apply mapM_Some_1 in H1. simpl. rewrite fmap_app. split.
  - f_equal. apply list_eq. intros i. rewrite !list_lookup_fmap. destruct (a !! i) as [j|] eqn:Ej.
    + destruct (Forall2_lookup_r _ _ _ _ _ H1 Ej) as (b' & Hl & Hb). rewrite Hl. simpl.
      by destruct (query_job_read _ _ _ Hb (Forall_lookup_1 _ _ _ _ Hst Hl)) as [-> _].
    + apply lookup_ge_None in Ej. rewrite <- (Forall2_length _ _ _ H1) in Ej. by apply lookup_ge_None in Ej as ->.
  - intros Hw. apply Forall_app. split; [done|]. apply Forall_lookup. intros i j Hj.
    destruct (Forall2_lookup_r _ _ _ _ _ H1 Hj) as (b' & Hl & Hb).
    by destruct (query_job_read _ _ _ Hb (Forall_lookup_1 _ _ _ _ Hst Hl)).
Qed.

Lemma reads_settled bs w w1 w2 : reads bs w w1 -> settled w1 w2 -> reads bs w w2.
Proof. intros [H1 H2] [H3 H4]. split; [congruence|auto]. Qed.

Lemma query_queue_read q b w x w' :
  Forall state_once (selstat (bs_name b)) -> zlen (selstat (bs_name b)) <= INT_MAX ->
  query_queue conf cstat selstat nodes find_alloc_ginfo q b w = Ret x w' -> reads (selstat (bs_name b)) w w'.
Proof using Hall.
  intros Hst Hsz E. unfold query_queue in E. inv_step E. destruct (queue_attrs_keep _ _ _ H0) as [En _]. simpl in En. rewrite En in E.
  apply bind_ret_inv in E as (arr & w1 & E1 & E). apply query_jobs_read in E1; [|done|done].
  apply bind_ret_inv in E as (rc & w1' & [_ ->]%lift_inv & E). apply bind_ret_inv in E as ([] & w2 & E2 & E).
  eapply reads_settled; [exact E1|]. repeat inv_step E.
  destruct (rc =? SUCCESS); [by inv_step E2|by eapply settled_cant_run].
Qed.

Lemma query_queues_read bs : forall w w',
  Forall (fun b => Forall state_once (selstat (bs_name b)) /\ zlen (selstat (bs_name b)) <= INT_MAX) bs ->
  query_queues conf cstat selstat nodes find_alloc_ginfo bs w = Ret tt w' ->
  reads (concat ((fun b => selstat (bs_name b)) <$> bs)) w w'.
Proof using Hall.
  induction bs as [|b bs IH]; intros w w' Hbs E; simpl in E; [inv_step E; split; [by rewrite app_nil_r|done]|].
  apply Forall_cons in Hbs as [[Hst Hsz] Hbs]. apply bind_ret_inv in E as (w0 & w0' & [-> ->]%get_inv & E).
  apply bind_ret_inv in E as (x & w1 & [R1 R2]%query_queue_read & E); [|done|done].
  apply bind_ret_inv in E as ([] & w2 & ->%modify_inv & E). destruct (IH _ w' Hbs E) as [R3 R4].
  split; [|auto]. rewrite fmap_cons, concat_cons, fmap_app, app_assoc, <- R1. exact R3.
Qed.

(** C13: [query_server] reads what the server reports.  If every report names one state
    of its job, by one of the letters QRTEHWSC, and the reports number at most INT_MAX, the
    jobs of the cycle are those reported, in that order, with the flags of their letters;
    those that are not queued are ruled out; the counts by state, of the server and of each
    queue, are for every one of the eight states the number of its jobs that are in it; and
    the structures agree: every job is in the arrays of the server and of its queue, and the
    arrays of running jobs hold the running ones. *)
Theorem query_server_reads w w' :
  Forall state_once (concat ((fun b => selstat (bs_name b)) <$> statque)) ->
  zlen (concat ((fun b => selstat (bs_name b)) <$> statque)) <= INT_MAX ->
  query_server conf cstat atof statserver statque selstat nodes find_alloc_ginfo w = Ret true w' ->
  shown <$> w_jobs w' = report <$> concat ((fun b => selstat (bs_name b)) <$> statque)
  /\ Forall ruled (w_jobs w')
  /\ sc (sinfo w') = state_counts (w_jobs w') (jobs (sinfo w'))
  /\ (forall q x, w_queues w' !! q = Some x -> q_sc x = state_counts (w_jobs w') (default [] (q_jobs x)))
  /\ sched_wf w'.
Proof using Hall.
  intros Hst Hsz E. destruct (query_server_wf w w' Hst Hsz E) as (Hwf & Hsc & Hqs).
  unfold query_server in E. destruct statserver as [server|]; [|done].
  apply bind_ret_inv in E as (s & w0 & [_ ->]%lift_inv & E). apply bind_ret_inv in E as ([] & w1 & ->%modify_inv & E).
  destruct (_ || _); [done|].
  apply bind_ret_inv in E as ([] & w2 & [R1 R2]%query_queues_read & E); [|by apply queues_ok].
  inv_step E. destruct (negb _); [done|]. repeat inv_step E. split; [exact R1|]. split; [by apply R2|done].
Qed.

End Start.
