(* ===== verification/SchedRuns.v ===== *)
(** * The FIFO scheduler: runs

    Concrete cycles, from the answers of the server on: instances of the theorems, and what
    the code does where it does not do what it means to. *)

From Stdlib Require Import ZArith Lia String Ascii SpecFloat.
From stdpp Require Import base list numbers option.
From S2P Require Import Prelude CLib Attrs SchedData Sched SchedQuery SchedRun SchedLimits SchedInit SchedCycle SchedEnds SchedStart.
From stdpp Require Import list_relations.

Local Open Scope string_scope.
Local Open Scope Z_scope.

(** ** The surroundings *)

(** A sort that keeps the order of equal elements. *)
Fixpoint insert_sorted {A} (cmp : A -> A -> Z) (x : ptr * A) (l : list (ptr * A)) : list (ptr * A) :=
  match l with
  | [] => [x]
  | y :: l' => if cmp (snd y) (snd x) <=? 0 then y :: insert_sorted cmp x l' else x :: l
  end.
Definition insertion_sort (A : Type) (cmp : A -> A -> Z) (l : list (ptr * A)) : list (ptr * A) :=
  foldl (fun acc x => insert_sorted cmp x acc) [] l.

Lemma insert_sorted_perm {A} (cmp : A -> A -> Z) x l : insert_sorted cmp x l ≡ₚ x :: l.
Proof.
  induction l as [|y l IH]; simpl; [done|]. destruct (_ <=? _); [|done]. rewrite IH. constructor.
Qed.
Lemma insertion_sort_perm A cmp l : insertion_sort A cmp l ≡ₚ l.
Proof.
  unfold insertion_sort. assert (forall acc, foldl (fun acc x => insert_sorted cmp x acc) acc l ≡ₚ l ++ acc) as Hg; [|by rewrite Hg, app_nil_r].
  induction l as [|x l IH]; intros acc; simpl; [done|]. by rewrite IH, insert_sorted_perm, Permutation_middle.
Qed.

Definition at_ (n v : string) : attrl := mk_attrl (Some (str n)) None (Some (str v)).
Definition at_r (n r v : string) : attrl := mk_attrl (Some (str n)) (Some (str r)) (Some (str v)).

Definition nowhere : sched :=
  mk_sched [] [] [] [] (new_server_info []) 0 0 [] [] None [].

Definition conf0 : config := mk_config 0 0 [] 0 [].
(** round_robin, by_queue, strict_fifo, fair_share, and the keys. *)
Definition policy (rr bq sf fs : bool) (keys : list sort_type) : status :=
  mk_status rr bq sf fs false false false false false keys 1000000.

(** The jobs of the one queue, numbered from 1. *)
Definition reports (js : list (list attrl)) (_ : list Z) : list batch_status :=
  imap (fun i a => mk_batch_status (print_u (Z.of_nat i + 1)) a) js.

Section Runs.
Context (cstat : status) (server : list attrl) (queue : list attrl) (js : list (list attrl)) (runjob_rc : Z).

(** A server with one queue. *)
Definition ask : outcome sched bool :=
  query_server (H := generous) conf0 cstat (fun _ => f32 1) (Some (mk_batch_status (str "server") server))
    [mk_batch_status (str "batch") queue]
    (reports js)
    None (fun _ => Some 0%nat) nowhere.
Definition asked : sched := match ask with Ret _ w => w | _ => nowhere end.
Definition run (fuel : nat) (w : sched) : outcome sched unit :=
  scheduling_cycle (H := generous) conf0 cstat (fun _ => f32 1) [] insertion_sort (fun _ => runjob_rc) (fun _ => (0, 1))
    (fun _ => str "refused") fuel w.
(** The jobs that are run. *)
Definition started (fuel : nat) : option (list ptr) :=
  match run fuel asked with
  | Ret _ w => Some (omap (fun e => match e with RunJob p _ _ => Some p | _ => None end) (w_events w))
  | _ => None
  end.
End Runs.

Definition open_queue : list attrl := [at_ "started" "True"; at_ "queue_type" "Execution"].
Definition reported (state user : string) (more : list attrl) : list attrl :=
  [at_ "job_state" state; at_ "euser" user; at_ "egroup" "users"] ++ more.
Definition plainly : status := policy false false false false [SHORTEST_JOB_FIRST].

Definition two_cpus : list attrl := [at_ "max_running" "2"; at_r "resources_available" "ncpus" "2"].
Definition one_cpu : list attrl := [at_r "Resource_List" "ncpus" "1"].
Definition three_jobs : list (list attrl) := [reported "R" "ann" one_cpu; reported "Q" "bob" one_cpu; reported "Q" "ann" one_cpu].

(** One job may be run; then the limit is reached. *)
Example runs_up_to_the_limit : started plainly two_cpus open_queue three_jobs 0 10 = Some [1%nat].
Proof. vm_compute. reflexivity. Qed.

(** ** Instances of the theorems *)

Definition w3 : sched := asked plainly two_cpus open_queue three_jobs.
Lemma w3_asked :
  query_server (H := generous) conf0 plainly (fun _ => f32 1) (Some (mk_batch_status (str "server") two_cpus))
    [mk_batch_status (str "batch") open_queue] (reports three_jobs) None (fun _ => Some 0%nat) nowhere = Ret true w3.
Proof. vm_compute. reflexivity. Qed.

Lemma three_states :
  Forall state_once (concat ((fun b => reports three_jobs (bs_name b)) <$> [mk_batch_status (str "batch") open_queue])).
Proof.
  assert (forall i st u, In (at_char (str st)) (str "QRTEHWSC") -> state_once (mk_batch_status i (reported st u one_cpu))) as Hj.
  { intros i st u Hst. exists [], (at_ "job_state" st), (tl (reported st u one_cpu)), (str st).
    split; [done|]. split; [done|]. split; [done|]. split; [done|]. repeat (apply Forall_cons_2; [discriminate|]). apply Forall_nil_2. }
  repeat (apply Forall_cons_2; [apply Hj; vm_compute; in_list|]). apply Forall_nil_2.
Qed.

Lemma w3_wf : sched_wf w3.
Proof.
  apply (query_server_wf (Hall := generous_ok) conf0 plainly (fun _ => f32 1) (Some (mk_batch_status (str "server") two_cpus))
    [mk_batch_status (str "batch") open_queue] (reports three_jobs) None (fun _ => Some 0%nat) nowhere w3);
    [exact three_states|by vm_compute|exact w3_asked].
Qed.

Definition w3_after : sched := match run plainly 0 10 w3 with Ret _ w => w | _ => nowhere end.
Lemma w3_run :
  scheduling_cycle (H := generous) conf0 plainly (fun _ => f32 1) [] insertion_sort (fun _ => 0) (fun _ => (0, 1))
    (fun _ => str "refused") 10 w3 = Ret tt w3_after.
Proof. vm_compute. reflexivity. Qed.

Lemma query_server_reads_witness :
  shown <$> w_jobs w3 = report <$> concat ((fun b => reports three_jobs (bs_name b)) <$> [mk_batch_status (str "batch") open_queue])
  /\ Forall ruled (w_jobs w3) /\ sc (sinfo w3) = state_counts (w_jobs w3) (jobs (sinfo w3))
  /\ (forall q x, w_queues w3 !! q = Some x -> q_sc x = state_counts (w_jobs w3) (default [] (q_jobs x))) /\ sched_wf w3.
Proof.
  apply (query_server_reads (Hall := generous_ok) conf0 plainly (fun _ => f32 1) (Some (mk_batch_status (str "server") two_cpus))
    [mk_batch_status (str "batch") open_queue] (reports three_jobs)
    None (fun _ => Some 0%nat) nowhere w3); [exact three_states|by vm_compute|exact w3_asked].
Defined.

Lemma cycle_within_limits_witness : sched_wf w3_after /\ within w3 w3_after.
Proof.
  apply (cycle_within_limits (Hall := generous_ok) conf0 plainly (fun _ => f32 1) [] insertion_sort (fun _ => 0) (fun _ => (0, 1))
    (fun _ => str "refused") insertion_sort_perm 10); [exact w3_wf|exact w3_run].
Defined.

Lemma w3_covered : all_covered w3.
Proof.
  assert (res (sinfo w3) = [mk_resource (str "ncpus") 2 (-2) 1]) as Er by (vm_compute; reflexivity).
  assert (qres <$> w_queues w3 = [[]]) as Eq by (vm_compute; reflexivity). split.
  - rewrite Er. intros n r _ Hr _. simpl in Hr. destruct (str_eq _ _); [|done]. injection Hr as <-. simpl. unfold INT_MAX. lia.
  - intros q x Hx n r _ Hr. assert ((qres <$> w_queues w3) !! q = Some (qres x)) as Hq by (by rewrite list_lookup_fmap, Hx).
    rewrite Eq in Hq. destruct q as [|q]; [|done]. injection Hq as Hq. by rewrite <- Hq in Hr.
Qed.

Lemma w3_reqs : all_reqs_ok w3.
Proof.
  assert (resreq <$> w_jobs w3 = replicate 3 [mk_resource_req (str "ncpus") 1 (Some (str "1"))]) as E by (vm_compute; reflexivity).
  intros p j Hj. assert ((resreq <$> w_jobs w3) !! p = Some (resreq j)) as Hp by (by rewrite list_lookup_fmap, Hj).
  rewrite E in Hp. apply lookup_replicate in Hp as [-> _]. split; [apply NoDup_singleton|]. by repeat constructor.
Qed.

Lemma cycle_within_resources_witness : all_covered w3 /\ all_covered w3_after.
Proof.
  split; [exact w3_covered|].
  apply (cycle_within_resources (Hall := generous_ok) conf0 plainly (fun _ => f32 1) [] insertion_sort (fun _ => 0) (fun _ => (0, 1))
    (fun _ => str "refused") insertion_sort_perm 10 w3); [exact w3_wf|exact w3_reqs|exact w3_covered|exact w3_run].
Defined.

Lemma cycle_runs_eligible_witness : asks (choosable plainly w3 [0; 1; 2]%nat) w3 w3_after.
Proof.
  apply (cycle_runs_eligible (Hall := generous_ok) conf0 plainly (fun _ => f32 1) [] insertion_sort (fun _ => 0) (fun _ => (0, 1))
    (fun _ => str "refused") insertion_sort_perm 10 w3); [exact w3_wf|exact w3_run].
Defined.

Lemma w3_calm : calm 3 1 None w3.
Proof.
  split; try reflexivity.
  - let l := eval vm_compute in (w_jobs w3) in assert (w_jobs w3 = l) as -> by (vm_compute; reflexivity).
    repeat apply Forall_cons_2; [..|constructor];
      (split; [by eexists|by eexists|reflexivity|by intros q Hq; vm_compute in Hq|simpl; lia|by vm_compute]).
  - let l := eval vm_compute in (w_queues w3) in assert (w_queues w3 = l) as -> by (vm_compute; reflexivity).
    apply Forall_cons_2; [|constructor]. split; try reflexivity; repeat constructor.
  - vm_compute. repeat constructor.
  - vm_compute. repeat constructor.
  - by split.
Qed.

Lemma cycle_ends_witness : exists rounds, forall fuel, (rounds <= fuel)%nat -> exists w',
  scheduling_cycle (H := generous) conf0 plainly (fun _ => f32 1) [] insertion_sort (fun _ => 0) (fun _ => (0, 1))
    (fun _ => str "refused") fuel w3 = Ret tt w'.
Proof.
  apply (cycle_ends (Hall := generous_ok) conf0 plainly (fun _ => f32 1) [] insertion_sort (fun _ => 0) (fun _ => (0, 1))
    (fun _ => str "refused") insertion_sort_perm 3 1 None w3); try reflexivity; [by split|exact w3_calm|repeat constructor|by vm_compute].
Defined.

(** ** What the code does otherwise than it means to *)

(** A queue that is not started. *)
Definition stopped_queue : list attrl := [at_ "queue_type" "Execution"].
Definition one_job : list (list attrl) := [reported "Q" "ann" []].

(** Its jobs are not run, except under strict fifo. *)
Example stopped_queue_waits : started plainly [] stopped_queue one_job 0 10 = Some [].
Proof. vm_compute. reflexivity. Qed.
Example strict_fifo_runs_stopped_queue :
  started (policy false false true false [SHORTEST_JOB_FIRST]) [] stopped_queue one_job 0 10 = Some [0%nat].
Proof. vm_compute. reflexivity. Qed.

(** Under round robin a running job at the head of the only queue ends the cycle. *)
Example round_robin_stops_early :
  started (policy true false false false [NO_SORT]) [] open_queue [reported "R" "ann" []; reported "Q" "bob" []] 0 10 = Some []
  /\ started plainly [] open_queue [reported "R" "ann" []; reported "Q" "bob" []] 0 10 = Some [1%nat].
Proof. vm_compute. done. Qed.

(** A job in a state that is not known is not counted, but it is copied: the array of the
    server is left. *)
Example unknown_state_overflows :
  ask plainly [] open_queue [reported "X" "ann" []] = UB /\ ask plainly [] open_queue [[at_ "euser" "ann"]] = UB.
Proof. vm_compute. done. Qed.

(** With fair share a job that the server refuses to run is tried again and again. *)
Definition with_share (w : sched) : sched := set_w_groups [mk_group_info (f32 1) 1 1] w.
Example refused_job_is_tried_for_ever :
  let cstat := policy false false false true [NO_SORT] in
  run cstat 1 100 (with_share (asked cstat [] open_queue one_job)) = OutOfFuel
  /\ (exists w, run cstat 0 100 (with_share (asked cstat [] open_queue one_job)) = Ret tt w).
Proof. split; [vm_compute; reflexivity|]. eexists. vm_compute. reflexivity. Qed.

(** A job that asks for tokens, on a server without them. *)
Example tokens_without_tokens :
  run plainly 0 10 (asked plainly [] open_queue [reported "Q" "ann" [at_r "Resource_List" "tokens" "lic:1"]]) = UB.
Proof. vm_compute. reflexivity. Qed.

(** A queue with a default of neednodes, and a job that asks for no nodes. *)
Example neednodes_without_nodes :
  run plainly 0 10 (asked plainly [] (open_queue ++ [at_r "resources_default" "neednodes" "fast"]) one_job) = UB.
Proof. vm_compute. reflexivity. Qed.

(** A limit that is not a number is the limit -1: nothing runs. *)
Example limit_not_a_number :
  max_run (sinfo (asked plainly [at_ "max_running" "10x"] open_queue one_job)) = -1
  /\ started plainly [at_ "max_running" "10x"] open_queue one_job 0 10 = Some [].
Proof. vm_compute. done. Qed.

(** A resource given out two beyond what there is counts as unlimited; one beyond is full. *)
Definition given_out (n : string) : list attrl :=
  [at_r "resources_available" "ncpus" "4"; at_r "resources_assigned" "ncpus" n].
Example two_beyond_is_unlimited :
  started plainly (given_out "6") open_queue [reported "Q" "ann" one_cpu] 0 10 = Some [0%nat]
  /\ started plainly (given_out "5") open_queue [reported "Q" "ann" one_cpu] 0 10 = Some [].
Proof. vm_compute. done. Qed.

(** Sizes and times. *)
Example res_to_num_examples :
  res_to_num (str "2gb") = 2097152 /\ res_to_num (str "01:00:30") = 3630 /\ res_to_num (str "2:30") = 150
  /\ res_to_num (str "4096b") = 4 /\ res_to_num (str "2mw") = 16384 /\ res_to_num (str "1:00:30x") = -1.
Proof. vm_compute. done. Qed.
